(* ===== verification/_CoqProject ===== *)
-Q . S2P
Prelude.v
Galois.v
OptLrcConfigs.v
Strtol.v
StrMap.v
ErasureCode.v
Crc32cTables.v
Crc32c.v
Crc32cFacts.v
Crc32cCorrect.v
Buffer.v
BufferFacts.v
BufferHeap.v
BufferReads.v
BufferStore.v
BufferCorrect.v
Encoding.v
CrushRules.v
Ruleset.v
CrushTables.v
CrushHash.v
CrushMap.v
CrushMapper.v
CrushPerm.v
CrushLn.v
CrushBuckets.v
CrushPlacement.v
CrushIndep.v
CrushRule.v
CrushCorrect.v
CrushPools.v
CrushBuilder.v
CrushTrees.v
CrushBuilderFacts.v
CrushBuilderItems.v
CrushBuilderMap.v
CrushBuilderCorrect.v
PlacementGroup.v
PlacementGroupFacts.v
PlacementGroupCorrect.v
OSDMap.v
OSDMapFacts.v
OSDMapCorrect.v
OSDMapUpdates.v
OSDMapHistory.v
OptLrc.v
OptLrcFacts.v
OptLrcCorrect.v
ECUtil.v
ECUtilFacts.v
ECUtilCorrect.v
OptLrcInit.v
XorOp.v
IsaCache.v
Isa.v
IsaFacts.v
IsaL8.v
IsaCorrect.v
Lrc.v
LrcFacts.v
LrcCorrect.v
PluginRegistry.v
Jerasure.v
JerasureFacts.v
JerasureL8.v
JerasureCorrect.v
LrcInit.v
LrcKml.v
LrcInitCorrect.v
System.v
