(* ===== verification/Prelude.v ===== *)
(** * Erasure coding in Ceph: a verification development

    The program is Ceph 12.0.2 with an additional erasure code plugin, the
    optimal locally repairable codes of src/src/erasure-code/optlrc. Most of
    Ceph is a distributed system of daemons around a disk format and a network
    protocol; this development is about the part that computes: how an object
    is cut into chunks, encoded, lost and restored, what a pool is configured
    with, and the memory and checksums that this code works on.

    ** The parts and their files

    - Memory: [Buffer] (src/src/common/buffer.cc, src/src/include/buffer.h).
      Raws are byte strings in a heap, with a cache of checksums each; pointers
      are ranges of raws; a list is a sequence of pointers with a cached
      position and an append buffer. [BufferFacts] has what the operations do to
      the contents, [BufferHeap] those that write or allocate, [BufferReads]
      reading, comparing and checksums, [BufferStore] the invariant of lists that
      share memory, [BufferCorrect] the refinement theorem. In the other files a
      bufferlist is its contents, a list of bytes: the refinement theorem is what
      justifies this.
    - Checksums: [Crc32cTables], [Crc32c], [Crc32cFacts], [Crc32cCorrect]
      (src/src/common/sctp_crc32.c, crc32c.cc, crc32c_intel_baseline.c,
      crc32c_intel_fast.c).
    - The plugin interface and the base class: [ErasureCode]
      (src/src/erasure-code/ErasureCodeInterface.h, ErasureCode.{h,cc}). A plugin
      is a value of the record [Codec], what it promises is the class
      [CodecSpec] (and [MdsSpec] for codes that restore from any k chunks).
      The theorems about encode, decode and decode_concat are proved against
      the class, the plugins have instances of it.
    - The plugins: [OptLrc], [OptLrcFacts], [OptLrcCorrect], [OptLrcInit] and
      the generator matrices [OptLrcConfigs] (src/src/erasure-code/optlrc);
      [Isa], [IsaCache], [IsaFacts], [IsaCorrect] and [XorOp]
      (src/src/erasure-code/isa); [Lrc], [LrcFacts], [LrcCorrect], [LrcInit],
      [LrcKml], [LrcInitCorrect] (src/src/erasure-code/lrc); [Jerasure],
      [JerasureFacts], [JerasureCorrect] (src/src/erasure-code/jerasure).
      The state of a codec is a record with the members of the C++ class; a
      method that changes the object returns the new record.
    - Libraries the repository has as submodules: [Galois] (gf-complete and
      jerasure as the Optimal-LRC plugin uses them), the class [IsaL] of [Isa],
      the class [JerasureLib] of [Jerasure]. They are classes with laws; [IsaL8],
      [JerasureL8] and [gf8_galois] are instances over GF(2^8), which show that
      the laws can hold and make the plugins executable.
    - Configuration text: [Strtol], [StrMap] (src/src/common/strtol.cc,
      str_list.cc, str_map.cc, the value type of json_spirit).
    - Placement rules: [CrushRules] (rules of src/src/crush/CrushWrapper.{h,cc}
      and builder.c), [Ruleset] (what the locally repairable codes do with them).
    - The plugin registry: [PluginRegistry]
      (src/src/erasure-code/ErasureCodePlugin.{h,cc}).
    - Everything together: [System], where the registry loads the LRC plugin,
      which loads the plugins of its layers, down to jerasure.
    - Encodings: [Encoding] (src/src/include/encoding.h): integers, strings,
      lists, maps, pairs and optional values, and structs with versions.
    - Stripes and shard hashes: [ECUtil], [ECUtilFacts], [ECUtilCorrect]
      (src/src/osd/ECUtil.{h,cc}), what the object store of an erasure-coded pool
      does with a codec.
    - Placement: [CrushTables], [CrushHash], [CrushMap] and [CrushMapper]
      (src/src/crush/crush_ln_table.h, hash.c, crush.h and mapper.c).
      [CrushPerm] has the permutations that are kept in the working store,
      [CrushLn] the fixed-point logarithm, [CrushBuckets] the five kinds of
      buckets, [CrushPlacement] and [CrushIndep] the two ways to choose
      several items, [CrushRule] whole rules; [CrushCorrect] has the theorems,
      and [CrushPools] those about the rules that [Ruleset] creates.
    - Building CRUSH maps: [CrushBuilder] (src/src/crush/builder.c, and the
      search for loops in src/src/crush/CrushWrapper.cc), with
      [CrushTrees] about the nodes of tree buckets, [CrushBuilderFacts] about
      making buckets, [CrushBuilderItems] about their items, [CrushBuilderMap]
      about maps, and [CrushBuilderCorrect] with the theorems.
    - Placement groups: [PlacementGroup], [PlacementGroupFacts],
      [PlacementGroupCorrect] (src/src/common/ceph_hash.cc, hobject.h,
      src/src/include/rados.h and what src/src/osd/osd_types.{h,cc} computes for
      pools and groups): hashes of names, groups of hashes, splits.
    - The OSD map: [OSDMap] (src/src/osd/OSDMap.{h,cc}), a record of the members
      that the mapping from groups to devices reads, the mapping, and
      [apply_incremental]. [OSDMapFacts] has the loops, [OSDMapCorrect] the
      theorems about one map, [OSDMapUpdates] and [OSDMapHistory] those about
      the maps that follow each other.

    ** How code becomes definitions

    A call returns a value or ends otherwise: the type [outcome] has [Ret] and
    [Abort] with the reason (a failed assertion, an exception nobody catches,
    undefined behaviour such as an index out of bounds). Error codes are the
    negative integers of the source. [unsigned] and [int] are integers with the
    wrap-around written out ([u32], [s32], [u64]); overflow of [int], which is
    undefined, is [Abort SignedOverflow] where the code can reach it. Maps and
    sets are stdpp's, iterated in ascending order of the keys as std::map and
    std::set are. Memory that is allocated and not initialised is what the
    class [Allocator] says: nothing is known of it but its length. Concurrency
    is modelled where the code handles it: the operations on the table cache of
    the ISA plugin and on the plugin registry are steps of a transition system,
    as each holds a mutex from its start to its end.

    ** What the theorems show

    - Round trips: for each plugin, an object is encoded into its chunks, and
      decoding from every set of chunks that the code can restore from gives the
      object back, followed by its padding. The ISA and jerasure codecs have no
      chunk mapping there, and the layers of an LRC codec do not compute what
      others read. [lrc_pool] has it for the whole chain
      from the profile of a pool through the registry and the layers.
    - The answers of minimum_to_decode are enough to decode, and fail only when
      they should; the chunk sizes hold the object and do not overflow.
    - The registry, the table cache and the CRUSH map keep their invariants
      along all sequences of operations.
    - Optimised routines equal reference definitions: the XOR of regions by
      bytes, words and SSE2 registers, with the alignment that these need; the
      CRC by tables and by jumps over zeros.
    - Bufferlists that share memory refine independent byte strings.
    - Stripes: an object written in stripes is read back from any shards that
      suffice, a range of it from the stripes that cover it, and the hashes
      of the shards are those of all the bytes appended.
    - Placement: every CRUSH rule ends on every map without cycles; the rules
      that the pools have put replicas and chunks on distinct devices that are
      in, in distinct failure domains, and the groups of an LRC into their
      localities; with devices as failure domains, devices that are out can
      be among them; straw2 buckets move as little as they can.
    - Building maps: a bucket of any algorithm refines a list of items with
      weights, and what is built from such buckets is a map on which the
      placement theorems hold. Removing items, growing trees and reweighting
      lists are where it breaks ([weight_sum_faults], [remove_item_faults]).
    - Objects and devices: the groups of a pool are ranges of reversed hashes,
      and split into what the brute-force search finds when their number
      grows; from the name of an object of a locally repairable pool to the
      devices of its chunks, every position is a hole or a device that is up,
      in a failure domain of its own; positions do not move when other devices
      go down. By induction over incremental maps ([reached]), every map of a
      cluster keeps its invariant and maps all groups to devices that are
      up; each step changes a device only by the entries of that device.
    - Where the code does not do what it means to, a theorem shows it on a
      concrete input or in general (the properties of kind error, and the
      findings of the manifest).

    ** Bounds and fuel

    Loops are structural recursions over lists, or iterate over a range of
    integers. Where a loop is bounded by a number of rounds, the theorem about it
    shows that the rounds are enough: the loops over the buffers of a list run
    once per buffer, the loop of append at most twice. Bufferlists are shorter
    than 2 GiB ([MAX_LIST]) because their iterators advance by an [int]. Recursion
    of the registry (an LRC codec whose layers are LRC codecs) is bounded by the
    depth of [System]. The descents and retries of CRUSH take fuel, and
    [OutOfFuel] is an outcome of its own: [crush_do_rule_ends] shows that there
    is an amount from which on no rule meets it and the result is always the
    same, for numbers of tries, replicas and results of at most 2^14 ([SMALL]).
    The mapping of the OSD map passes its fuel to CRUSH, and the loop of
    [is_split] takes fuel too; their theorems have the same form.

    ** Not modelled

    - The daemons (src/src/osd, mon, mds, client, rgw, mgr, rbd and librados),
      the object stores (src/src/os), the messengers (src/src/msg) and the
      authentication (src/src/auth), but for the parts named above: they
      are threads, timers, disks and sockets around state that is spread over
      processes; a model of one without its environment would assume what is to
      be shown.
    - The SIMD and assembler kernels of the submodules jerasure, gf-complete and
      isa-l, which are not in the repository: classes stand for them. So does
      the class [IntelAsm] for the assembler routines of CRC-32C
      (src/src/common/crc32c_intel_fast_asm.s) that [ceph_crc32c_intel_fast]
      calls; [intel_fast_computes] is about this call alone.
    - Of the OSD map, what no mapping reads: addresses, features, flags and
      releases, the blacklist, osd_info, and the encodings; an incremental map
      with a full map inside is modelled with what it decodes to. The balancer
      and the printing of maps are left out.
    - The text and binary forms of CRUSH maps, and the floating-point straw
      lengths of src/src/crush/builder.c, for which an argument stands. The
      placement theorems state what they need of a map ([map_ok]), which
      [built_map_ok] shows of maps that are built, and [map_check] decides.
    - Reference counts of raws and memory pools: nothing the modelled code
      returns depends on them.
    - Log and error messages: a failing call has its code, not its text.
    - The text grammar of JSON, which is a Boost.Spirit grammar: the class
      [JsonReader] stands for it. *)

From Stdlib Require Export Ascii ZArith Lia.
From stdpp Require Export sets strings numbers sorting gmap list.

#[global] Open Scope Z_scope.
Create HintDb ec.
#[export] Set Warnings "-clear-no-such-hyp".

(** ** Errors

    The [errno] values the modelled code returns, negated at the use as in the
    source. *)

Definition ENOENT : Z := 2.
Definition EIO : Z := 5.
Definition EBADF : Z := 9.
Definition EEXIST : Z := 17.
Definition EXDEV : Z := 18.
Definition EINVAL : Z := 22.

(** ** Outcomes

    A C++ call returns a value or does not return normally: an [assert] fails,
    or the call runs into undefined behaviour (an index outside an array, an
    overflow of [int], a division by zero, a read through an uninitialised or
    null pointer, a dereferenced [end()] iterator, another operation whose
    result is undefined), or an exception leaves the call. [OutOfFuel] is not
    one of these: it says that a loop was given too little fuel. *)

Inductive crash :=
  | AssertFailed
  | DivByZero
  | OutOfBounds
  | Uninitialised
  | NullPointer
  | EmptyContainer
  | SignedOverflow
  | StackOverflow
  | UncaughtException
  | Undefined
  | OutOfFuel.

#[export] Instance crash_eq_dec : EqDecision crash.
Proof. solve_decision. Defined.

Inductive outcome (A : Type) :=
  | Ret (a : A)
  | Abort (why : crash).
Arguments Ret {A} a.
Arguments Abort {A} why.

#[export] Instance outcome_ret : MRet outcome := λ A a, Ret a.
#[export] Instance outcome_bind : MBind outcome := λ A B f m,
  match m with
  | Ret a => f a
  | Abort w => Abort w
  end.
#[export] Instance outcome_fmap : FMap outcome := λ A B f m,
  match m with
  | Ret a => Ret (f a)
  | Abort w => Abort w
  end.

(** [assert (c)]. *)
Definition assert_that (c : bool) : outcome () :=
  if c then Ret () else Abort AssertFailed.

(** A read that is undefined behaviour when there is nothing to read. *)
Definition need {A} (why : crash) (o : option A) : outcome A :=
  match o with
  | Some a => Ret a
  | None => Abort why
  end.

(** A [for] loop whose body may abort. *)
Fixpoint foldM {S X} (body : S → X → outcome S) (s : S) (l : list X)
    : outcome S :=
  match l with
  | [] => Ret s
  | x :: l => s' ← body s x; foldM body s' l
  end.

(** A [for] loop whose body may leave the function with a result. *)
Inductive flow (S R : Type) :=
  | Next (s : S)
  | Done (r : R).
Arguments Next {S R} s.
Arguments Done {S R} r.

Fixpoint for_each {S R X} (body : S → X → flow S R) (s : S) (l : list X)
    : flow S R :=
  match l with
  | [] => Next s
  | x :: l =>
      match body s x with
      | Next s' => for_each body s' l
      | Done r => Done r
      end
  end.

Section loops.
Context {S R X : Type}.

Lemma foldM_app (f : S → X → outcome S) s l1 l2 :
  foldM f s (l1 ++ l2) = (s' ← foldM f s l1; foldM f s' l2).
Proof.
  revert s; induction l1 as [|x l1 IH]; intros s; simpl; [done|].
  destruct (f s x); simpl; [apply IH|done].
Qed.

(** Loop rule: an invariant on the prefix already visited that every iteration
    re-establishes without aborting holds of the final state, and the loop
    returns. *)
Lemma foldM_inv (f : S → X → outcome S) (P : list X → S → Prop) l s :
  P [] s →
  (∀ l1 x l2 s, l = l1 ++ x :: l2 → P l1 s →
     ∃ s', f s x = Ret s' ∧ P (l1 ++ [x]) s') →
  ∃ s', foldM f s l = Ret s' ∧ P l s'.
Proof.
  intros H0 Hstep.
  assert (∀ l2 l1 s, l = l1 ++ l2 → P l1 s →
    ∃ s', foldM f s l2 = Ret s' ∧ P l s') as Hgen.
  { induction l2 as [|x l2 IH]; intros l1 s1 -> HP; simpl.
    - rewrite app_nil_r in *. eauto.
    - destruct (Hstep l1 x l2 s1 eq_refl HP) as (s2 & Hf & HP2).
      rewrite Hf; simpl.
      apply (IH (l1 ++ [x])); [by rewrite <-app_assoc|done]. }
  by apply (Hgen l []).
Qed.

Lemma foldl_inv (f : S → X → S) (P : list X → S → Prop) l s :
  P [] s →
  (∀ l1 x l2 s, l = l1 ++ x :: l2 → P l1 s → P (l1 ++ [x]) (f s x)) →
  P l (foldl f s l).
Proof.
  intros H0 Hstep.
  assert (∀ l2 l1 s, l = l1 ++ l2 → P l1 s → P l (foldl f s l2)) as Hgen.
  { induction l2 as [|x l2 IH]; intros l1 s1 -> HP; simpl.
    - by rewrite app_nil_r in *.
    - apply (IH (l1 ++ [x])); [by rewrite <-app_assoc|by apply Hstep with l2]. }
  by apply (Hgen l []).
Qed.

(** A loop that appends what each element gives. *)
Lemma foldM_concat {A} (f : X → outcome (list A)) (g : X → list A) (acc : list A) (l : list X) :
  (∀ x, x ∈ l → f x = Ret (g x)) →
  foldM (λ acc x, r ← f x; Ret (acc ++ r)) acc l = Ret (acc ++ concat (g <$> l)).
Proof.
  revert acc. induction l as [|x l IH]; intros acc Hl; simpl; [by rewrite app_nil_r|].
  rewrite Hl by (left). simpl. rewrite IH, <-app_assoc; [done|]. intros y Hy. apply Hl. by right.
Qed.

(** Loop rule for loops with early exits. *)
Lemma for_each_inv (f : S → X → flow S R)
    (P : list X → S → Prop) (Q : R → Prop) l s :
  P [] s →
  (∀ l1 x l2 s, l = l1 ++ x :: l2 → P l1 s →
     match f s x with Next s' => P (l1 ++ [x]) s' | Done r => Q r end) →
  match for_each f s l with Next s' => P l s' | Done r => Q r end.
Proof.
  intros H0 Hstep.
  assert (∀ l2 l1 s, l = l1 ++ l2 → P l1 s →
    match for_each f s l2 with Next s' => P l s' | Done r => Q r end) as Hgen.
  { induction l2 as [|x l2 IH]; intros l1 s1 -> HP; simpl.
    - by rewrite app_nil_r in *.
    - specialize (Hstep l1 x l2 s1 eq_refl HP).
      destruct (f s1 x); [|done].
      apply (IH (l1 ++ [x])); [by rewrite <-app_assoc|done]. }
  by apply (Hgen l []).
Qed.

End loops.

(** ** Machine integers

    [unsigned] is 32 bits wide and [uint64_t] 64 bits wide: arithmetic on them
    wraps around, written [u32]/[u64] at each operation that can wrap. *)

Definition u32 (x : Z) : Z := x mod 2 ^ 32.
Definition u64 (x : Z) : Z := x mod 2 ^ 64.
Definition INT_MAX : Z := 2 ^ 31 - 1.
Definition INT_MIN : Z := - 2 ^ 31.

(** Conversion to a 32-bit [int]. *)
Definition s32 (x : Z) : Z := (x + 2 ^ 31) mod 2 ^ 32 - 2 ^ 31.

Lemma s32_small x : - 2 ^ 31 ≤ x < 2 ^ 31 → s32 x = x.
Proof. intros. unfold s32. rewrite Z.mod_small; lia. Qed.
Lemma u32_small x : 0 ≤ x < 2 ^ 32 → u32 x = x.
Proof. apply Z.mod_small. Qed.
Lemma u64_small x : 0 ≤ x < 2 ^ 64 → u64 x = x.
Proof. apply Z.mod_small. Qed.
Lemma u32_range x : 0 ≤ u32 x < 2 ^ 32.
Proof. apply Z.mod_pos_bound; lia. Qed.
Lemma u64_range x : 0 ≤ u64 x < 2 ^ 64.
Proof. apply Z.mod_pos_bound; lia. Qed.

(** ** Ordered containers

    [std::set<int>] and [std::map<int, _>] are [gset Z] and [gmap Z _]; where
    the code iterates over one, it does so in ascending key order. *)

Definition ascending (s : gset Z) : list Z := merge_sort Z.le (elements s).

Lemma elem_of_ascending s i : i ∈ ascending s ↔ i ∈ s.
Proof. unfold ascending. by rewrite merge_sort_Permutation, elem_of_elements. Qed.
Lemma NoDup_ascending s : NoDup (ascending s).
Proof. unfold ascending. rewrite merge_sort_Permutation. apply NoDup_elements. Qed.
Lemma length_ascending s : length (ascending s) = size s.
Proof. unfold ascending. by rewrite merge_sort_Permutation. Qed.
Lemma ascending_empty s : ascending s = [] ↔ s = ∅.
Proof.
  rewrite <-length_zero_iff_nil, length_ascending.
  by rewrite size_empty_iff, leibniz_equiv_iff.
Qed.
#[export] Instance Zle_total : Total Z.le.
Proof. intros x y. lia. Qed.
Lemma Sorted_ascending s : Sorted Z.le (ascending s).
Proof. apply Sorted_merge_sort, _. Qed.

(** [map.begin()->second]. *)
Definition map_first {A} (m : gmap Z A) : option A :=
  match ascending (dom m) with
  | [] => None
  | i :: _ => m !! i
  end.

(** ** Buffers

    A [bufferlist] is the sequence of bytes it holds; a byte is an integer in
    [0, 256). How the bytes are cut into memory segments and aligned is not
    modelled. *)

Abbreviation bytes := (list Z).
Definition byte_ok (b : Z) : Prop := 0 ≤ b < 256.
Definition bytes_ok (bs : bytes) : Prop := Forall byte_ok bs.

Definition blen (b : bytes) : Z := Z.of_nat (length b).

(** [operator[]] of a [map<int, bufferlist>]: an empty buffer where the key is
    missing. *)
Definition buf (m : gmap Z bytes) (i : Z) : bytes := default [] (m !! i).

(** [bufferlist::substr_of]. *)
Definition substr (b : bytes) (off len : Z) : bytes :=
  take (Z.to_nat len) (drop (Z.to_nat off) b).

(** [memcpy (dst, src, n)]. *)
Definition memcpy (dst src : bytes) (n : Z) : outcome bytes :=
  if bool_decide (n ≤ blen src ∧ n ≤ blen dst) then
    Ret (take (Z.to_nat n) src ++ drop (Z.to_nat n) dst)
  else Abort OutOfBounds.

Definition zeros (n : nat) : bytes := replicate n 0.

Declare Scope ec_scope.
Delimit Scope ec_scope with ec.
#[global] Open Scope ec_scope.

Definition xor_bytes (a b : bytes) : bytes := zip_with Z.lxor a b.
Infix "⊻" := xor_bytes (at level 50, left associativity) : ec_scope.

(** The bytewise XOR of a list of buffers of length [n]. *)
Definition xor_all (n : nat) (l : list bytes) : bytes :=
  foldr xor_bytes (zeros n) l.

Section xor_lemmas.
Implicit Types a b c : bytes.

Lemma xor_all_cons n b l : xor_all n (b :: l) = b ⊻ xor_all n l.
Proof. done. Qed.

Lemma length_xor_bytes a b : length (a ⊻ b) = (length a `min` length b)%nat.
Proof. apply length_zip_with. Qed.

Lemma xor_bytes_comm a b : a ⊻ b = b ⊻ a.
Proof.
  revert b; induction a as [|x a IH]; intros [|y b]; simpl; try done.
  by rewrite IH, Z.lxor_comm.
Qed.

Lemma xor_bytes_assoc a b c : a ⊻ b ⊻ c = a ⊻ (b ⊻ c).
Proof.
  revert b c; induction a as [|x a IH]; intros [|y b] [|z c]; simpl; try done.
  by rewrite IH, Z.lxor_assoc.
Qed.

Lemma xor_bytes_zeros_r a n : length a = n → a ⊻ zeros n = a.
Proof.
  intros <-. induction a as [|x a IH]; simpl; [done|].
  rewrite Z.lxor_0_r. f_equal. apply IH.
Qed.

Lemma xor_all_singleton b n : length b = n → xor_all n [b] = b.
Proof. apply xor_bytes_zeros_r. Qed.

Lemma xor_bytes_zeros_l a n : length a = n → zeros n ⊻ a = a.
Proof. intros. rewrite xor_bytes_comm. by apply xor_bytes_zeros_r. Qed.

Lemma xor_bytes_self a : a ⊻ a = zeros (length a).
Proof.
  induction a as [|x a IH]; simpl; [done|].
  rewrite Z.lxor_nilpotent. unfold zeros; simpl. f_equal. apply IH.
Qed.

(** Two buffers whose XOR is zero are equal. *)
Lemma xor_bytes_eq_zeros a b n :
  length a = n → length b = n → a ⊻ b = zeros n → a = b.
Proof.
  intros Ha Hb H.
  rewrite <-(xor_bytes_zeros_r a n Ha), <-H.
  rewrite <-xor_bytes_assoc, xor_bytes_self, xor_bytes_zeros_l; congruence.
Qed.

Lemma length_zeros n : length (zeros n) = n.
Proof. apply length_replicate. Qed.

Lemma length_xor_all n l :
  Forall (λ b, length b = n) l → length (xor_all n l) = n.
Proof.
  induction 1; simpl; [apply length_zeros|]. rewrite length_xor_bytes. lia.
Qed.

Lemma xor_all_app n l1 l2 :
  Forall (λ b, length b = n) l1 → Forall (λ b, length b = n) l2 →
  xor_all n (l1 ++ l2) = xor_all n l1 ⊻ xor_all n l2.
Proof.
  intros H1 H2. induction H1 as [|b l1 Hb H1 IH]; simpl.
  - by rewrite xor_bytes_zeros_l by (by apply length_xor_all).
  - by rewrite IH, xor_bytes_assoc.
Qed.

Lemma xor_all_Permutation n l1 l2 : l1 ≡ₚ l2 → xor_all n l1 = xor_all n l2.
Proof.
  induction 1 as [| | |]; simpl; [done|by f_equal| |congruence].
  rewrite <-!xor_bytes_assoc. f_equal. apply xor_bytes_comm.
Qed.

#[export] Instance xor_all_proper n : Proper (Permutation ==> eq) (xor_all n).
Proof. intros ???. by apply xor_all_Permutation. Qed.

Lemma bytes_ok_zeros n : bytes_ok (zeros n).
Proof. apply Forall_replicate. unfold byte_ok. lia. Qed.

Lemma lxor_range n x y : 0 ≤ n → 0 ≤ x < 2 ^ n → 0 ≤ y < 2 ^ n → 0 ≤ Z.lxor x y < 2 ^ n.
Proof.
  intros Hn Hx Hy. assert (0 ≤ Z.lxor x y) by (apply Z.lxor_nonneg; lia). split; [done|].
  destruct (decide (Z.lxor x y = 0)) as [->|]; [lia|].
  destruct (decide (x = 0)) as [->|]; [rewrite Z.lxor_0_l; lia|].
  destruct (decide (y = 0)) as [->|]; [rewrite Z.lxor_0_r; lia|].
  apply Z.log2_lt_pow2; [lia|]. pose proof (Z.log2_lxor x y ltac:(lia) ltac:(lia)).
  assert (Z.log2 x < n) by (apply Z.log2_lt_pow2; lia).
  assert (Z.log2 y < n) by (apply Z.log2_lt_pow2; lia). lia.
Qed.

Lemma byte_ok_lxor x y : byte_ok x → byte_ok y → byte_ok (Z.lxor x y).
Proof. apply (lxor_range 8). done. Qed.

Lemma bytes_ok_xor a b : bytes_ok a → bytes_ok b → bytes_ok (a ⊻ b).
Proof.
  intros Ha. revert b. induction Ha as [|x a Hx Ha IH]; intros b Hb; simpl;
    [constructor|].
  destruct Hb; constructor; [by apply byte_ok_lxor|by apply IH].
Qed.

End xor_lemmas.

#[global] Arguments xor_all : simpl never.
#[global] Arguments xor_bytes : simpl never.

#[export] Hint Resolve bytes_ok_zeros bytes_ok_xor byte_ok_lxor : ec.

(** ** List and set helpers *)

Lemma forallb_range (p : Z → bool) n i : forallb p (seqZ 0 n) = true → 0 ≤ i < n → p i = true.
Proof.
  rewrite forallb_forall. intros Hp Hi. apply Hp, list_elem_of_In, elem_of_seqZ. lia.
Qed.

Lemma elem_of_seqZ_range (i m n : Z) : i ∈ seqZ m n ↔ m ≤ i < m + n.
Proof. apply elem_of_seqZ. Qed.

Lemma seqZ_app_snoc (n : Z) : 0 ≤ n → seqZ 0 (n + 1) = seqZ 0 n ++ [n].
Proof.
  intros. rewrite seqZ_app by lia. by rewrite Z.add_0_l.
Qed.

Lemma seqZ_split (a b : Z) : 0 ≤ a ≤ b → seqZ 0 b = seqZ 0 a ++ seqZ a (b - a).
Proof.
  intros. replace b with (a + (b - a)) at 1 by lia.
  by rewrite seqZ_app, Z.add_0_l by lia.
Qed.

Lemma length_substr b off len :
  0 ≤ off → 0 ≤ len → off + len ≤ blen b →
  length (substr b off len) = Z.to_nat len.
Proof. unfold substr, blen. intros. rewrite length_take, length_drop. lia. Qed.

Lemma bytes_ok_substr b off len : bytes_ok b → bytes_ok (substr b off len).
Proof. intros. by apply Forall_take, Forall_drop. Qed.

Lemma substr_app_l a b off len :
  0 ≤ off → 0 ≤ len → off + len ≤ blen a → substr (a ++ b) off len = substr a off len.
Proof.
  unfold substr, blen. intros. rewrite drop_app_le by lia.
  apply take_app_le. rewrite length_drop. lia.
Qed.

(** Cutting a buffer into blocks of [bs] bytes and joining them again. *)
Lemma concat_blocks b bs k :
  0 ≤ bs → 0 ≤ k → k * bs ≤ blen b →
  concat ((λ i, substr b (i * bs) bs) <$> seqZ 0 k) = take (Z.to_nat (k * bs)) b.
Proof.
  intros Hbs Hk. revert k Hk. apply (natlike_ind (λ k, k * bs ≤ blen b → _)); [done|].
  intros k Hk IH Hle. rewrite <-Z.add_1_r, seqZ_app_snoc by lia.
  rewrite fmap_app, concat_app, IH by lia. simpl. rewrite app_nil_r.
  unfold substr. rewrite take_take_drop. f_equal. lia.
Qed.

Lemma filter_all {A} (P : A → Prop) `{∀ x, Decision (P x)} (l : list A) :
  (∀ x, x ∈ l → P x) → filter P l = l.
Proof.
  induction l as [|x l IH]; intros Hl; [done|].
  rewrite filter_cons_True by (apply Hl; left). f_equal. apply IH.
  intros y Hy. apply Hl. by right.
Qed.

Lemma filter_none {A} (P : A → Prop) `{∀ x, Decision (P x)} (l : list A) :
  (∀ x, x ∈ l → ¬ P x) → filter P l = [].
Proof.
  induction l as [|x l IH]; intros Hl; [done|].
  rewrite filter_cons_False by (apply Hl; left). apply IH.
  intros y Hy. apply Hl. by right.
Qed.

Lemma filter_ext {A} (P Q : A → Prop) `{∀ x, Decision (P x), ∀ x, Decision (Q x)} (l : list A) :
  (∀ x, x ∈ l → P x ↔ Q x) → filter P l = filter Q l.
Proof.
  induction l as [|x l IH]; intros Hl; [done|].
  assert (filter P l = filter Q l) as Heq by (apply IH; intros y Hy; apply Hl; by right).
  rewrite !filter_cons, Heq. specialize (Hl x ltac:(left)). repeat case_decide; tauto.
Qed.

Lemma filter_fmap {A B} (f : A → B) (P : B → Prop) `{∀ x, Decision (P x)} (l : list A) :
  filter P (f <$> l) = f <$> filter (λ x, P (f x)) l.
Proof.
  induction l as [|x l IH]; [done|]. rewrite fmap_cons, !filter_cons, IH. by case_decide.
Qed.

Lemma concat_length {A} (ls : list (list A)) : length (concat ls) = sum_list (length <$> ls).
Proof. induction ls as [|l ls IH]; [done|]. cbn. by rewrite length_app, IH. Qed.

Lemma filter_elem_of_filter (P : Z → Prop) `{∀ x, Decision (P x)} (l : list Z) :
  filter (λ i, i ∈ filter P l) l = filter P l.
Proof.
  apply filter_ext. intros i Hi. rewrite list_elem_of_filter. tauto.
Qed.

Lemma NoDup_take {A} (n : nat) (l : list A) : NoDup l → NoDup (take n l).
Proof. rewrite <-(take_drop n l) at 1. intros H%NoDup_app. apply H. Qed.

Lemma size_list_to_set_le `{Countable A} (l : list A) :
  (size (list_to_set l : gset A) ≤ length l)%nat.
Proof.
  induction l as [|x l IH]; [done|]. rewrite list_to_set_cons, length_cons.
  rewrite size_union_alt, size_singleton. apply le_n_S.
  etrans; [apply subseteq_size|exact IH]. set_solver.
Qed.

Lemma elem_of_ids (n i : Z) :
  i ∈ (list_to_set (seqZ 0 n) : gset Z) ↔ 0 ≤ i < n.
Proof. rewrite elem_of_list_to_set, elem_of_seqZ. lia. Qed.

(** Case analysis on the tests of the code, with its arithmetic meaning left
    in the context. *)
Ltac case_test :=
  match goal with
  | |- context [ bool_decide ?P ] => destruct (bool_decide_reflect P)
  | |- context [ decide ?P ] => destruct (decide P)
  | H : context [ bool_decide ?P ] |- _ => destruct (bool_decide_reflect P)
  | H : context [ decide ?P ] |- _ => destruct (decide P)
  end.

(** Peel the binds of an [outcome] that is known to return. *)
Ltac peel_outcome :=
  repeat match goal with
  | H : (_ ≫= _) = Ret _ |- _ =>
      unfold mbind in H; simpl in H
  | H : outcome_bind _ _ _ ?m = Ret _ |- _ => destruct m eqn:?; simpl in H
  | H : match ?m with Ret _ => _ | Abort _ => _ end = Ret _ |- _ =>
      destruct m eqn:?; simpl in H
  | H : Abort _ = Ret _ |- _ => discriminate H
  | H : Ret _ = Ret _ |- _ => injection H as H
  end.
