(* ===== verification/Galois.v ===== *)
(** * Galois-field arithmetic on regions

    The plugins do their arithmetic through the libraries jerasure and
    gf-complete, which the repository carries as git submodules. This file
    states what the plugins call from them: the operations as the class
    [Galois] and [Jerasure], their documented behaviour as the classes
    [GaloisSpec] and [JerasureSpec], and the linear algebra on byte regions
    that follows from it. [gf8_galois] is GF(2^8) over the polynomial 0x11d,
    the field gf-complete uses for w = 8: it shows that the laws can hold. *)

From S2P Require Import Prelude.

(** galois.h: [galois_single_multiply (x, y, w)], [galois_single_divide] and
    [galois_region_xor (src, dest, nbytes)], which gives the new contents of
    [dest]. *)
Class Galois := {
  galois_single_multiply : Z → Z → Z → Z;
  galois_single_divide : Z → Z → Z → Z;
  galois_region_xor : bytes → bytes → Z → bytes;
}.

(** Products of bytes are the multiplication of GF(2^8), whose addition is
    XOR; a region XOR changes the first [nbytes] bytes of [dest]. *)
Class GaloisSpec `{Galois} : Prop := {
  gf_mul_ok a b : byte_ok a → byte_ok b → byte_ok (galois_single_multiply a b 8);
  gf_mul_1_l a : byte_ok a → galois_single_multiply 1 a 8 = a;
  gf_mul_0_l a : byte_ok a → galois_single_multiply 0 a 8 = 0;
  gf_mul_lxor_l a b c : byte_ok a → byte_ok b → byte_ok c →
    galois_single_multiply (Z.lxor a b) c 8
    = Z.lxor (galois_single_multiply a c 8) (galois_single_multiply b c 8);
  galois_region_xor_spec src dst n :
    0 ≤ n ≤ blen src → n ≤ blen dst →
    galois_region_xor src dst n
    = (take (Z.to_nat n) src ⊻ take (Z.to_nat n) dst) ++ drop (Z.to_nat n) dst;
}.

(** The laws of the multiplication of a field that matrix inversion needs
    besides. *)
Class GaloisFieldSpec `{Galois} : Prop := {
  galois_field_spec :: GaloisSpec;
  gf_mul_comm a b : byte_ok a → byte_ok b →
    galois_single_multiply a b 8 = galois_single_multiply b a 8;
  gf_mul_assoc a b c : byte_ok a → byte_ok b → byte_ok c →
    galois_single_multiply a (galois_single_multiply b c 8) 8
    = galois_single_multiply (galois_single_multiply a b 8) c 8;
}.

(** A region times a field element, byte by byte (w = 8). *)
Definition region_mul `{Galois} (c : Z) (b : bytes) : bytes :=
  (λ x, galois_single_multiply c x 8) <$> b.

(** The linear combination of the regions [ds], each [n] bytes long, with the
    coefficients [row]. *)
Definition row_region `{Galois} (row : list Z) (ds : list bytes) (n : nat) : bytes :=
  xor_all n (zip_with region_mul row ds).

(** jerasure.h: [jerasure_matrix_encode (k, m, w, matrix, data, coding,
    blocksize)] gives the contents it writes to the [m] coding regions. *)
Class Jerasure := {
  jerasure_matrix_encode : Z → Z → Z → list Z → list bytes → Z → list bytes;
}.

(** Row [i] of a matrix of [k] columns stored row by row. *)
Definition matrix_row (k : Z) (matrix : list Z) (i : Z) : list Z :=
  take (Z.to_nat k) (drop (Z.to_nat (k * i)) matrix).

(** Coding region [i] is row [i] of the coding matrix times the data. *)
Class JerasureSpec `{Galois} `{Jerasure} : Prop := {
  jerasure_matrix_encode_spec k m matrix data blocksize :
    0 < k → 0 ≤ m → 0 ≤ blocksize →
    Z.of_nat (length matrix) = m * k → Z.of_nat (length data) = k →
    Forall (λ d, blen d = blocksize) data →
    jerasure_matrix_encode k m 8 matrix data blocksize
    = (λ i, row_region (matrix_row k matrix i) data (Z.to_nat blocksize))
        <$> seqZ 0 m;
}.

Lemma matrix_row_concat (k : Z) (rows : list (list Z)) (i : nat) (row : list Z) :
  0 ≤ k → Forall (λ row, length row = Z.to_nat k) rows → rows !! i = Some row →
  matrix_row k (concat rows) (Z.of_nat i) = row.
Proof.
  intros Hk Hrows. unfold matrix_row. revert i.
  induction Hrows as [|row' rows Hrow Hrows IH]; intros [|i] Hi; simplify_eq/=.
  - rewrite Z.mul_0_r. simpl. by rewrite drop_0, <-Hrow, take_app_length.
  - rewrite <-(IH i) by done. f_equal.
    rewrite drop_app_ge by lia. f_equal. lia.
Qed.

(** The unit row [e_j] of length [k]. *)
Definition unit_row (k j : nat) : list Z := <[j := 1]> (zeros k).

Section regions.
Context `{GaloisSpec}.

Lemma length_region_mul c b : length (region_mul c b) = length b.
Proof. apply length_fmap. Qed.

Lemma region_mul_1 b : bytes_ok b → region_mul 1 b = b.
Proof.
  induction 1 as [|x b Hx Hb IH]; simpl; [done|].
  unfold region_mul in *; simpl. rewrite IH, gf_mul_1_l; done.
Qed.

Lemma region_mul_0 b : bytes_ok b → region_mul 0 b = zeros (length b).
Proof.
  induction 1 as [|x b Hx Hb IH]; simpl; [done|].
  unfold region_mul in *; simpl. rewrite IH, gf_mul_0_l; done.
Qed.

Lemma region_mul_lxor c1 c2 b :
  byte_ok c1 → byte_ok c2 → bytes_ok b →
  region_mul (Z.lxor c1 c2) b = region_mul c1 b ⊻ region_mul c2 b.
Proof.
  intros H1 H2. induction 1 as [|x b Hx Hb IH]; simpl; [done|].
  unfold region_mul in *; simpl. rewrite IH, gf_mul_lxor_l; done.
Qed.

Lemma region_mul_ok c b : byte_ok c → bytes_ok b → bytes_ok (region_mul c b).
Proof.
  intros Hc. induction 1; unfold region_mul; simpl; constructor; [|done].
  by apply gf_mul_ok.
Qed.

Definition regions_ok (n : nat) (ds : list bytes) : Prop :=
  Forall (λ d, length d = n ∧ bytes_ok d) ds.

Lemma regions_muls_length n row ds :
  regions_ok n ds → Forall (λ b, length b = n) (zip_with region_mul row ds).
Proof.
  intros Hds. revert row. induction Hds as [|d ds [Hd _] Hds IH];
    intros [|c row]; simpl; constructor; [|done].
  by rewrite length_region_mul.
Qed.

Lemma length_row_region row ds n :
  regions_ok n ds → length (row_region row ds n) = n.
Proof. intros. by apply length_xor_all, regions_muls_length. Qed.

Lemma row_region_cons c row d ds n :
  row_region (c :: row) (d :: ds) n = region_mul c d ⊻ row_region row ds n.
Proof. done. Qed.

Lemma row_region_ok row ds n :
  bytes_ok row → regions_ok n ds → bytes_ok (row_region row ds n).
Proof.
  intros Hrow Hds. revert row Hrow.
  induction Hds as [|d ds [Hd Hok] Hds IH]; intros [|c row] Hrow;
    try apply bytes_ok_zeros.
  rewrite row_region_cons. inversion Hrow; subst.
  apply bytes_ok_xor; [by apply region_mul_ok|by apply IH].
Qed.

(** Linear combinations add up coefficientwise. *)
Lemma row_region_xor row1 row2 ds n :
  length row1 = length ds → length row2 = length ds →
  bytes_ok row1 → bytes_ok row2 → regions_ok n ds →
  row_region (row1 ⊻ row2) ds n = row_region row1 ds n ⊻ row_region row2 ds n.
Proof.
  intros Hl1 Hl2 H1 H2 Hds. revert row1 row2 Hl1 Hl2 H1 H2.
  induction Hds as [|d ds [Hd Hok] Hds IH];
    intros [|c1 row1] [|c2 row2] Hl1 Hl2 H1 H2; simpl in Hl1, Hl2; try lia.
  - change (zeros n = zeros n ⊻ zeros n). by rewrite xor_bytes_self, length_zeros.
  - apply eq_add_S in Hl1, Hl2. change ((c1 :: row1) ⊻ (c2 :: row2)) with (Z.lxor c1 c2 :: row1 ⊻ row2).
    inversion H1; inversion H2; subst. rewrite !row_region_cons, IH by done.
    rewrite region_mul_lxor by done.
    rewrite !xor_bytes_assoc. f_equal. rewrite <-!xor_bytes_assoc. f_equal.
    apply xor_bytes_comm.
Qed.

Lemma row_region_zeros ds n :
  regions_ok n ds → row_region (zeros (length ds)) ds n = zeros n.
Proof.
  induction 1 as [|d ds [Hd Hok] Hds IH]; [done|].
  change (zeros (length (d :: ds))) with (0 :: zeros (length ds)).
  rewrite row_region_cons, IH, region_mul_0, Hd by done.
  apply xor_bytes_zeros_r, length_zeros.
Qed.

(** The unit row [e_j] selects region [j]. *)
Lemma row_region_unit ds n j d :
  regions_ok n ds → ds !! j = Some d →
  row_region (unit_row (length ds) j) ds n = d.
Proof.
  intros Hds. revert j. induction Hds as [|d' ds [Hd Hok] Hds IH];
    intros j Hj; [done|].
  destruct j as [|j]; simpl in Hj |- *.
  - injection Hj as ->. change (unit_row (S (length ds)) 0) with (1 :: zeros (length ds)).
    rewrite row_region_cons, row_region_zeros, region_mul_1 by done.
    by apply xor_bytes_zeros_r.
  - change (unit_row (S (length ds)) (S j)) with (0 :: unit_row (length ds) j).
    rewrite row_region_cons, region_mul_0, IH, Hd by done.
    apply xor_bytes_zeros_l.
    by apply (Forall_lookup_1 _ _ _ _ Hds Hj).
Qed.

(** The XOR of several linear combinations is the combination with the XOR of
    their rows. *)
Lemma row_region_xor_all rows ds n :
  Forall (λ row, length row = length ds ∧ bytes_ok row) rows →
  regions_ok n ds →
  xor_all n ((λ row, row_region row ds n) <$> rows)
  = row_region (xor_all (length ds) rows) ds n.
Proof.
  intros Hrows Hds. induction Hrows as [|row rows [Hl Hok] Hrows IH].
  - symmetry. by apply row_region_zeros.
  - rewrite fmap_cons, !xor_all_cons, IH, row_region_xor; try done.
    + apply length_xor_all. eapply Forall_impl; [exact Hrows|]. by intros ? [??].
    + clear IH. induction Hrows as [|r rs [??] ? IH];
        [apply bytes_ok_zeros|rewrite xor_all_cons; auto with ec].
Qed.

End regions.

(** ** Products of matrices

    Seen as a region of coefficients, a row of a matrix is scaled and added
    like any other region: [row_region row rows k] is the product of [row] with
    the matrix of the [rows]. *)

Section matrices.
Context `{GaloisFieldSpec}.

Lemma region_mul_mul a b r :
  byte_ok a → byte_ok b → bytes_ok r →
  region_mul a (region_mul b r) = region_mul (galois_single_multiply a b 8) r.
Proof.
  intros Ha Hb. induction 1 as [|x r Hx Hr IH]; [done|]. unfold region_mul in *. simpl.
  f_equal; [by apply gf_mul_assoc|done].
Qed.

Lemma region_mul_xor c x y :
  byte_ok c → bytes_ok x → bytes_ok y →
  region_mul c (x ⊻ y) = region_mul c x ⊻ region_mul c y.
Proof.
  intros Hc Hx. revert y. induction Hx as [|a x Ha Hx IH]; intros [|b y] Hy; [done..|].
  inversion Hy; subst. change ((a :: x) ⊻ (b :: y)) with (Z.lxor a b :: x ⊻ y).
  unfold region_mul in *. simpl. rewrite IH by done. f_equal.
  rewrite gf_mul_comm, gf_mul_lxor_l by auto using byte_ok_lxor.
  by rewrite (gf_mul_comm a), (gf_mul_comm b).
Qed.

Lemma region_mul_zeros c n : byte_ok c → region_mul c (zeros n) = zeros n.
Proof.
  intros Hc. unfold region_mul, zeros. rewrite fmap_replicate.
  rewrite gf_mul_comm, gf_mul_0_l by (done || (unfold byte_ok; lia)). done.
Qed.

Lemma region_mul_row c row ds n :
  byte_ok c → bytes_ok row → regions_ok n ds →
  region_mul c (row_region row ds n) = row_region (region_mul c row) ds n.
Proof.
  intros Hc Hrow Hds. revert row Hrow.
  induction Hds as [|d ds [Hd Hok] Hds IH]; intros [|a row] Hrow; try by apply region_mul_zeros.
  inversion Hrow; subst. change (region_mul c (a :: row)) with (galois_single_multiply c a 8 :: region_mul c row).
  rewrite !row_region_cons, region_mul_xor, region_mul_mul, IH; try done.
  - by apply region_mul_ok.
  - by apply row_region_ok.
Qed.

(** Multiplying the rows of a product. *)
Lemma row_region_compose row rows ds n :
  bytes_ok row → Forall (λ r, length r = length ds ∧ bytes_ok r) rows → regions_ok n ds →
  row_region row ((λ r, row_region r ds n) <$> rows) n
  = row_region (row_region row rows (length ds)) ds n.
Proof.
  intros Hrow Hrows Hds. revert row Hrow.
  induction Hrows as [|r rows [Hl Hr] Hrows IH]; intros [|c row] Hrow; try (symmetry; by apply row_region_zeros).
  inversion Hrow; subst. rewrite fmap_cons, !row_region_cons, IH, region_mul_row by done.
  assert (regions_ok (length ds) rows) by done.
  rewrite row_region_xor; try done.
  - by rewrite length_region_mul.
  - by apply length_row_region.
  - by apply region_mul_ok.
  - by apply row_region_ok.
Qed.

End matrices.

(** ** GF(2^8) over x^8 + x^4 + x^3 + x^2 + 1 *)

Definition gf8_xtime (a : Z) : Z :=
  let s := 2 * a in if Z.testbit s 8 then Z.lxor s 285 else s.

(** [a] times [b]: the XOR of the shifts of [b] that the bits of [a] select. *)
Fixpoint gf8_mul_bits (nbits : nat) (a b : Z) : Z :=
  match nbits with
  | O => 0
  | S nbits =>
      Z.lxor (if Z.odd a then b else 0)
             (gf8_mul_bits nbits (Z.div2 a) (gf8_xtime b))
  end.

Definition gf8_mul (a b : Z) : Z := gf8_mul_bits 8 a b.

Definition gf8_div (a b : Z) : Z :=
  default 0 (list_find (λ x, gf8_mul x b = a) (seqZ 0 256) ≫= λ p, Some p.2).

#[export] Instance gf8_galois : Galois := {|
  galois_single_multiply a b _ := gf8_mul a b;
  galois_single_divide a b _ := gf8_div a b;
  galois_region_xor src dst n :=
    (take (Z.to_nat n) src ⊻ take (Z.to_nat n) dst) ++ drop (Z.to_nat n) dst;
|}.

#[export] Instance gf8_jerasure : Jerasure := {|
  jerasure_matrix_encode k m w matrix data blocksize :=
    (λ i, row_region (matrix_row k matrix i) data (Z.to_nat blocksize))
      <$> seqZ 0 m;
|}.

Lemma gf8_xtime_ok a : byte_ok a → byte_ok (gf8_xtime a).
Proof.
  intros Ha.
  assert (Forall (λ a, byte_ok (gf8_xtime a)) (seqZ 0 256)) as Hall.
  { unfold byte_ok. vm_compute seqZ.
    repeat (constructor; [vm_compute; split; congruence|]). constructor. }
  rewrite Forall_forall in Hall. apply Hall, elem_of_seqZ. unfold byte_ok in *. lia.
Qed.

Lemma gf8_mul_bits_ok nbits a b : byte_ok b → byte_ok (gf8_mul_bits nbits a b).
Proof.
  revert a b. induction nbits as [|nbits IH]; intros a b Hb; simpl.
  - unfold byte_ok; lia.
  - apply byte_ok_lxor; [|by apply IH, gf8_xtime_ok].
    destruct (Z.odd a); [done|unfold byte_ok; lia].
Qed.

Lemma gf8_mul_bits_0_l nbits b : gf8_mul_bits nbits 0 b = 0.
Proof. revert b. induction nbits as [|nbits IH]; intros b; simpl; [done|]. apply IH. Qed.

Lemma gf8_mul_bits_lxor nbits a1 a2 b :
  gf8_mul_bits nbits (Z.lxor a1 a2) b
  = Z.lxor (gf8_mul_bits nbits a1 b) (gf8_mul_bits nbits a2 b).
Proof.
  revert a1 a2 b. induction nbits as [|nbits IH]; intros a1 a2 b; simpl; [done|].
  rewrite Z.div2_spec, Z.shiftr_lxor, <-!Z.div2_spec, IH.
  rewrite <-!Z.bit0_odd, Z.lxor_spec.
  set (x := gf8_mul_bits _ _ _). set (y := gf8_mul_bits _ _ _).
  destruct (Z.testbit a1 0), (Z.testbit a2 0); simpl; rewrite ?Z.lxor_0_l.
  - rewrite !Z.lxor_assoc, <-(Z.lxor_assoc x b y), (Z.lxor_comm x b).
    by rewrite Z.lxor_assoc, <-(Z.lxor_assoc b b), Z.lxor_nilpotent, Z.lxor_0_l.
  - by rewrite Z.lxor_assoc.
  - rewrite <-!Z.lxor_assoc. by rewrite (Z.lxor_comm b x).
  - done.
Qed.

#[export] Instance gf8_galois_spec : GaloisSpec.
Proof.
  split; simpl; unfold gf8_mul.
  - intros a b _ Hb. by apply gf8_mul_bits_ok.
  - intros a Ha. transitivity (Z.lxor a (gf8_mul_bits 7 0 (gf8_xtime a))); [done|].
    rewrite gf8_mul_bits_0_l. apply Z.lxor_0_r.
  - intros a Ha. apply gf8_mul_bits_0_l.
  - intros. apply gf8_mul_bits_lxor.
  - done.
Qed.

#[export] Instance gf8_jerasure_spec : JerasureSpec.
Proof. by split. Qed.

(** ** GF(2^8) is a field

    Both sides of the laws are linear in each argument, so that it is enough to
    compare them on the powers of two. *)

Definition basis : list Z := Z.shiftl 1 <$> seqZ 0 8.

Lemma byte_bits x :
  byte_ok x → x = foldr Z.lxor 0 ((λ b, if bool_decide (Z.land x b = 0) then 0 else b) <$> basis).
Proof.
  intros Hx. assert (Forall (λ x, x = foldr Z.lxor 0
    ((λ b, if bool_decide (Z.land x b = 0) then 0 else b) <$> basis)) (seqZ 0 256)) as Hall.
  { vm_compute seqZ. repeat constructor. }
  rewrite Forall_forall in Hall. apply Hall, elem_of_seqZ. unfold byte_ok in Hx. lia.
Qed.

Lemma linear_ext (f g : Z → Z) x :
  (∀ a b, f (Z.lxor a b) = Z.lxor (f a) (f b)) → (∀ a b, g (Z.lxor a b) = Z.lxor (g a) (g b)) →
  f 0 = 0 → g 0 = 0 → Forall (λ b, f b = g b) basis → byte_ok x → f x = g x.
Proof.
  intros Hf Hg Hf0 Hg0 Hb Hx. rewrite (byte_bits x Hx). set (c := λ b : Z, _).
  assert (∀ b, c b = 0 ∨ c b = b) as Hc by (intros b; unfold c; case_bool_decide; auto).
  clearbody c. induction Hb as [|b l Hb Hl IH]; [simpl; congruence|].
  rewrite fmap_cons. cbn [foldr]. rewrite Hf, Hg, IH. f_equal. destruct (Hc b) as [->| ->]; congruence.
Qed.

Lemma gf8_xtime_lxor a b : gf8_xtime (Z.lxor a b) = Z.lxor (gf8_xtime a) (gf8_xtime b).
Proof.
  unfold gf8_xtime. replace (2 * Z.lxor a b) with (Z.lxor (2 * a) (2 * b)).
  2: { apply Z.bits_inj'. intros n Hn. rewrite Z.lxor_spec.
       destruct (decide (n = 0)) as [->|]; [by rewrite !Z.testbit_even_0|].
       replace n with (Z.succ (n - 1)) by lia. by rewrite !Z.testbit_even_succ, Z.lxor_spec by lia. }
  set (x := 2 * a). set (y := 2 * b). rewrite Z.lxor_spec.
  destruct (Z.testbit x 8), (Z.testbit y 8); simpl.
  - rewrite Z.lxor_assoc, <-(Z.lxor_assoc 285), (Z.lxor_comm 285 y), Z.lxor_assoc.
    by rewrite Z.lxor_nilpotent, Z.lxor_0_r.
  - by rewrite !Z.lxor_assoc, (Z.lxor_comm y).
  - by rewrite Z.lxor_assoc.
  - done.
Qed.

Lemma gf8_mul_bits_lxor_r nbits a b1 b2 :
  gf8_mul_bits nbits a (Z.lxor b1 b2)
  = Z.lxor (gf8_mul_bits nbits a b1) (gf8_mul_bits nbits a b2).
Proof.
  revert a b1 b2. induction nbits as [|nbits IH]; intros a b1 b2; simpl; [done|].
  rewrite gf8_xtime_lxor, IH. set (x := gf8_mul_bits _ _ _). set (y := gf8_mul_bits _ _ _).
  destruct (Z.odd a); [|done]. rewrite !Z.lxor_assoc. f_equal.
  rewrite <-!Z.lxor_assoc. f_equal. apply Z.lxor_comm.
Qed.

Lemma gf8_mul_bits_0_r nbits a : gf8_mul_bits nbits a 0 = 0.
Proof.
  revert a. induction nbits as [|nbits IH]; intros a; simpl; [done|].
  change (gf8_xtime 0) with 0. rewrite IH. by destruct (Z.odd a).
Qed.

Lemma gf8_linear_l b x y : gf8_mul (Z.lxor x y) b = Z.lxor (gf8_mul x b) (gf8_mul y b).
Proof. apply gf8_mul_bits_lxor. Qed.
Lemma gf8_linear_r a x y : gf8_mul a (Z.lxor x y) = Z.lxor (gf8_mul a x) (gf8_mul a y).
Proof. apply gf8_mul_bits_lxor_r. Qed.
Lemma gf8_mul_0_l b : gf8_mul 0 b = 0.
Proof. apply gf8_mul_bits_0_l. Qed.
Lemma gf8_mul_0_r a : gf8_mul a 0 = 0.
Proof. apply gf8_mul_bits_0_r. Qed.

Lemma gf8_comm_basis : forallb (λ x, forallb (λ y, gf8_mul x y =? gf8_mul y x) basis) basis = true.
Proof. by vm_compute. Qed.

Lemma gf8_assoc_basis :
  forallb (λ x, forallb (λ y, forallb (λ z,
    gf8_mul x (gf8_mul y z) =? gf8_mul (gf8_mul x y) z) basis) basis) basis = true.
Proof. by vm_compute. Qed.

#[local] Opaque gf8_mul.

Lemma forallb_basis (p : Z → bool) (P : Z → Prop) :
  (∀ x, p x = true → P x) → forallb p basis = true → Forall P basis.
Proof.
  intros HP Hall. apply Forall_forall. intros x Hx. apply HP.
  rewrite forallb_forall in Hall. by apply Hall, list_elem_of_In.
Qed.

Lemma gf8_mul_comm a b : byte_ok a → byte_ok b → gf8_mul a b = gf8_mul b a.
Proof.
  intros Ha Hb. apply (linear_ext (λ a, gf8_mul a b) (λ a, gf8_mul b a));
    [apply gf8_linear_l|apply gf8_linear_r|apply gf8_mul_0_l|apply gf8_mul_0_r| |exact Ha].
  eapply forallb_basis, gf8_comm_basis. intros x Hx. cbv beta in Hx |- *.
  apply (linear_ext (λ b, gf8_mul x b) (λ b, gf8_mul b x));
    [apply gf8_linear_r|apply gf8_linear_l|apply gf8_mul_0_r|apply gf8_mul_0_l| |exact Hb].
  eapply forallb_basis, Hx. intros y Hy. by apply Z.eqb_eq.
Qed.

Lemma gf8_mul_assoc a b c :
  byte_ok a → byte_ok b → byte_ok c → gf8_mul a (gf8_mul b c) = gf8_mul (gf8_mul a b) c.
Proof.
  intros Ha Hb Hc.
  apply (linear_ext (λ a, gf8_mul a (gf8_mul b c)) (λ a, gf8_mul (gf8_mul a b) c));
    [intros; apply gf8_linear_l|intros; by rewrite !gf8_linear_l|apply gf8_mul_0_l
    |by rewrite !gf8_mul_0_l| |exact Ha].
  eapply forallb_basis, gf8_assoc_basis. intros x Hx. cbv beta in Hx |- *.
  apply (linear_ext (λ b, gf8_mul x (gf8_mul b c)) (λ b, gf8_mul (gf8_mul x b) c));
    [intros; by rewrite gf8_linear_l, gf8_linear_r|intros; by rewrite gf8_linear_r, gf8_linear_l
    |by rewrite gf8_mul_0_l, gf8_mul_0_r|by rewrite gf8_mul_0_r, gf8_mul_0_l| |exact Hb].
  eapply forallb_basis, Hx. clear Hx. intros y Hy. cbv beta in Hy |- *.
  apply (linear_ext (λ c, gf8_mul x (gf8_mul y c)) (λ c, gf8_mul (gf8_mul x y) c));
    [intros; by rewrite !gf8_linear_r|intros; by rewrite !gf8_linear_r
    |by rewrite !gf8_mul_0_r|by rewrite gf8_mul_0_r| |exact Hc].
  eapply forallb_basis, Hy. intros z Hz. by apply Z.eqb_eq.
Qed.

#[local] Transparent gf8_mul.

#[export] Instance gf8_galois_field_spec : GaloisFieldSpec.
Proof. split; [apply _|exact gf8_mul_comm|exact gf8_mul_assoc]. Qed.
