(* ===== verification/OptLrcConfigs.v ===== *)
(** * Generator matrices of the Optimal-LRC plugin

    The tables of src/src/erasure-code/optlrc/ErasureCodeOptLrc_configs.h: one
    generator matrix per supported (n, k, r), chunk [i] of a stripe being row
    [i] of the matrix times the [k] data chunks, and the array [configs] that
    [OptLRC_Configs] builds from them. The checks at the end compute, for every
    table, what the decoder relies on. *)

From S2P Require Import Prelude Galois.

Definition MAX_DATA_CHUNKS : Z := 16.
Definition MAX_CHUNKS : Z := 20.
Definition MAX_LOCALITY_CHUNKS : Z := 8.
Definition MAX_MATRIX : Z := 256.

(** [struct OptLRC]: the listed rows of [optlrc_encode]; the aggregate
    initialiser leaves every other entry of the 256 x 256 array zero. The
    members [optlrc_perm] and [optlrc_coef] are never read. *)
Record OptLRC := mkOptLRC { optlrc_encode : list (list Z) }.

(** [optlrc_encode[i][j]]. *)
Definition encode_entry (g : OptLRC) (i j : Z) : outcome Z :=
  if bool_decide (0 ≤ i < MAX_MATRIX ∧ 0 ≤ j < MAX_MATRIX) then
    Ret (default 0 (default [] (optlrc_encode g !! Z.to_nat i) !! Z.to_nat j))
  else Abort OutOfBounds.

Definition optlrc_9_4_2 : OptLRC := mkOptLRC [
  [1; 0; 0; 0];
  [0; 1; 0; 0];
  [1; 1; 0; 0];
  [0; 0; 1; 0];
  [0; 0; 0; 1];
  [0; 0; 1; 1];
  [176; 2; 212; 1];
  [178; 176; 213; 212];
  [2; 178; 1; 213]].

Definition optlrc_10_6_4 : OptLRC := mkOptLRC [
  [1; 0; 0; 0; 0; 0];
  [0; 1; 0; 0; 0; 0];
  [0; 0; 1; 0; 0; 0];
  [0; 0; 0; 1; 0; 0];
  [1; 1; 1; 1; 0; 0];
  [0; 0; 0; 0; 1; 0];
  [0; 0; 0; 0; 0; 1];
  [112; 153; 7; 224; 220; 11];
  [227; 123; 248; 41; 146; 78];
  [147; 226; 255; 201; 79; 68]].

Definition optlrc_10_6_3 : OptLRC := mkOptLRC [
  [1; 0; 0; 0; 0; 0];
  [0; 1; 0; 0; 0; 0];
  [0; 0; 1; 0; 0; 0];
  [1; 1; 1; 0; 0; 0];
  [0; 0; 0; 1; 0; 0];
  [0; 0; 0; 0; 1; 0];
  [0; 0; 0; 0; 0; 1];
  [0; 0; 0; 1; 1; 1];
  [170; 204; 102; 169; 206; 103];
  [170; 204; 102; 169; 206; 103]].

Definition optlrc_15_8_4 : OptLRC := mkOptLRC [
  [1; 0; 0; 0; 0; 0; 0; 0];
  [0; 1; 0; 0; 0; 0; 0; 0];
  [0; 0; 1; 0; 0; 0; 0; 0];
  [0; 0; 0; 1; 0; 0; 0; 0];
  [1; 1; 1; 1; 0; 0; 0; 0];
  [0; 0; 0; 0; 1; 0; 0; 0];
  [0; 0; 0; 0; 0; 1; 0; 0];
  [0; 0; 0; 0; 0; 0; 1; 0];
  [0; 0; 0; 0; 0; 0; 0; 1];
  [0; 0; 0; 0; 1; 1; 1; 1];
  [86; 235; 136; 16; 23; 11; 47; 24];
  [16; 70; 251; 152; 47; 56; 55; 36];
  [189; 222; 70; 86; 28; 15; 23; 56];
  [99; 251; 235; 189; 19; 36; 28; 11];
  [152; 136; 222; 99; 55; 24; 19; 15]].

Definition optlrc_15_8_5 : OptLRC := mkOptLRC [
  [1; 0; 0; 0; 0; 0; 0; 0];
  [0; 1; 0; 0; 0; 0; 0; 0];
  [0; 0; 1; 0; 0; 0; 0; 0];
  [0; 0; 0; 1; 0; 0; 0; 0];
  [0; 0; 0; 0; 1; 0; 0; 0];
  [1; 1; 1; 1; 1; 0; 0; 0];
  [0; 0; 0; 0; 0; 1; 0; 0];
  [0; 0; 0; 0; 0; 0; 1; 0];
  [0; 0; 0; 0; 0; 0; 0; 1];
  [232; 80; 103; 155; 148; 128; 27; 165];
  [68; 242; 180; 56; 205; 77; 186; 106];
  [172; 162; 211; 163; 89; 204; 160; 206];
  [48; 138; 106; 4; 93; 3; 197; 126];
  [52; 12; 126; 43; 72; 214; 101; 194];
  [4; 134; 20; 47; 21; 213; 160; 188]].

Definition optlrc_16_12_7 : OptLRC := mkOptLRC [
  [1; 0; 0; 0; 0; 0; 0; 0; 0; 0; 0; 0];
  [0; 1; 0; 0; 0; 0; 0; 0; 0; 0; 0; 0];
  [0; 0; 1; 0; 0; 0; 0; 0; 0; 0; 0; 0];
  [0; 0; 0; 1; 0; 0; 0; 0; 0; 0; 0; 0];
  [0; 0; 0; 0; 1; 0; 0; 0; 0; 0; 0; 0];
  [0; 0; 0; 0; 0; 1; 0; 0; 0; 0; 0; 0];
  [0; 0; 0; 0; 0; 0; 1; 0; 0; 0; 0; 0];
  [1; 1; 1; 1; 1; 1; 1; 0; 0; 0; 0; 0];
  [0; 0; 0; 0; 0; 0; 0; 1; 0; 0; 0; 0];
  [0; 0; 0; 0; 0; 0; 0; 0; 1; 0; 0; 0];
  [0; 0; 0; 0; 0; 0; 0; 0; 0; 1; 0; 0];
  [0; 0; 0; 0; 0; 0; 0; 0; 0; 0; 1; 0];
  [0; 0; 0; 0; 0; 0; 0; 0; 0; 0; 0; 1];
  [7; 7; 6; 6; 1; 1; 0; 7; 7; 6; 6; 1];
  [9; 8; 9; 8; 1; 0; 1; 9; 8; 9; 8; 1];
  [14; 15; 15; 14; 0; 1; 1; 15; 14; 14; 15; 1]].

Definition optlrc_18_12_3 : OptLRC := mkOptLRC [
  [1; 0; 0; 0; 0; 0; 0; 0; 0; 0; 0; 0];
  [0; 1; 0; 0; 0; 0; 0; 0; 0; 0; 0; 0];
  [0; 0; 1; 0; 0; 0; 0; 0; 0; 0; 0; 0];
  [1; 1; 1; 0; 0; 0; 0; 0; 0; 0; 0; 0];
  [0; 0; 0; 1; 0; 0; 0; 0; 0; 0; 0; 0];
  [0; 0; 0; 0; 1; 0; 0; 0; 0; 0; 0; 0];
  [0; 0; 0; 0; 0; 1; 0; 0; 0; 0; 0; 0];
  [0; 0; 0; 1; 1; 1; 0; 0; 0; 0; 0; 0];
  [0; 0; 0; 0; 0; 0; 1; 0; 0; 0; 0; 0];
  [0; 0; 0; 0; 0; 0; 0; 1; 0; 0; 0; 0];
  [0; 0; 0; 0; 0; 0; 0; 0; 1; 0; 0; 0];
  [0; 0; 0; 0; 0; 0; 1; 1; 1; 0; 0; 0];
  [0; 0; 0; 0; 0; 0; 0; 0; 0; 1; 0; 0];
  [0; 0; 0; 0; 0; 0; 0; 0; 0; 0; 1; 0];
  [0; 0; 0; 0; 0; 0; 0; 0; 0; 0; 0; 1];
  [0; 0; 0; 0; 0; 0; 0; 0; 0; 1; 1; 1];
  [159; 234; 117; 155; 25; 130; 104; 187; 211; 111; 74; 37];
  [159; 234; 117; 155; 25; 130; 104; 187; 211; 111; 74; 37]].

Definition optlrc_18_12_4 : OptLRC := mkOptLRC [
  [1; 0; 0; 0; 0; 0; 0; 0; 0; 0; 0; 0];
  [0; 1; 0; 0; 0; 0; 0; 0; 0; 0; 0; 0];
  [0; 0; 1; 0; 0; 0; 0; 0; 0; 0; 0; 0];
  [0; 0; 0; 1; 0; 0; 0; 0; 0; 0; 0; 0];
  [1; 1; 1; 1; 0; 0; 0; 0; 0; 0; 0; 0];
  [0; 0; 0; 0; 1; 0; 0; 0; 0; 0; 0; 0];
  [0; 0; 0; 0; 0; 1; 0; 0; 0; 0; 0; 0];
  [0; 0; 0; 0; 0; 0; 1; 0; 0; 0; 0; 0];
  [0; 0; 0; 0; 0; 0; 0; 1; 0; 0; 0; 0];
  [0; 0; 0; 0; 1; 1; 1; 1; 0; 0; 0; 0];
  [0; 0; 0; 0; 0; 0; 0; 0; 1; 0; 0; 0];
  [0; 0; 0; 0; 0; 0; 0; 0; 0; 1; 0; 0];
  [0; 0; 0; 0; 0; 0; 0; 0; 0; 0; 1; 0];
  [0; 0; 0; 0; 0; 0; 0; 0; 0; 0; 0; 1];
  [0; 0; 0; 0; 0; 0; 0; 0; 1; 1; 1; 1];
  [205; 54; 32; 181; 62; 38; 66; 53; 228; 75; 17; 158];
  [231; 86; 150; 62; 46; 214; 195; 155; 16; 22; 30; 102];
  [42; 96; 182; 139; 16; 240; 129; 174; 244; 93; 15; 248]].

Definition optlrc_15_10_4 : OptLRC := mkOptLRC [
  [1; 0; 0; 0; 0; 0; 0; 0; 0; 0];
  [0; 1; 0; 0; 0; 0; 0; 0; 0; 0];
  [0; 0; 1; 0; 0; 0; 0; 0; 0; 0];
  [0; 0; 0; 1; 0; 0; 0; 0; 0; 0];
  [1; 1; 1; 1; 0; 0; 0; 0; 0; 0];
  [0; 0; 0; 0; 1; 0; 0; 0; 0; 0];
  [0; 0; 0; 0; 0; 1; 0; 0; 0; 0];
  [0; 0; 0; 0; 0; 0; 1; 0; 0; 0];
  [0; 0; 0; 0; 0; 0; 0; 1; 0; 0];
  [0; 0; 0; 0; 1; 1; 1; 1; 0; 0];
  [0; 0; 0; 0; 0; 0; 0; 0; 1; 0];
  [0; 0; 0; 0; 0; 0; 0; 0; 0; 1];
  [152; 115; 183; 65; 219; 218; 45; 155; 79; 68];
  [121; 69; 236; 253; 104; 102; 226; 181; 220; 11];
  [225; 54; 91; 188; 179; 188; 207; 46; 146; 78]].

Definition optlrc_14_10_4 : OptLRC := mkOptLRC [
  [1; 0; 0; 0; 0; 0; 0; 0; 0; 0];
  [0; 1; 0; 0; 0; 0; 0; 0; 0; 0];
  [0; 0; 1; 0; 0; 0; 0; 0; 0; 0];
  [0; 0; 0; 1; 0; 0; 0; 0; 0; 0];
  [1; 1; 1; 1; 0; 0; 0; 0; 0; 0];
  [0; 0; 0; 0; 1; 0; 0; 0; 0; 0];
  [0; 0; 0; 0; 0; 1; 0; 0; 0; 0];
  [0; 0; 0; 0; 0; 0; 1; 0; 0; 0];
  [0; 0; 0; 0; 0; 0; 0; 1; 0; 0];
  [0; 0; 0; 0; 1; 1; 1; 1; 0; 0];
  [0; 0; 0; 0; 0; 0; 0; 0; 1; 0];
  [0; 0; 0; 0; 0; 0; 0; 0; 0; 1];
  [12; 116; 99; 245; 224; 110; 73; 107; 11; 79];
  [12; 116; 99; 245; 224; 110; 73; 107; 10; 78]].

Definition optlrc_12_8_3 : OptLRC := mkOptLRC [
  [1; 0; 0; 0; 0; 0; 0; 0];
  [0; 1; 0; 0; 0; 0; 0; 0];
  [0; 0; 1; 0; 0; 0; 0; 0];
  [1; 1; 1; 0; 0; 0; 0; 0];
  [0; 0; 0; 1; 0; 0; 0; 0];
  [0; 0; 0; 0; 1; 0; 0; 0];
  [0; 0; 0; 0; 0; 1; 0; 0];
  [0; 0; 0; 1; 1; 1; 0; 0];
  [0; 0; 0; 0; 0; 0; 1; 0];
  [0; 0; 0; 0; 0; 0; 0; 1];
  [170; 204; 102; 169; 206; 103; 3; 2];
  [170; 204; 102; 169; 206; 103; 2; 3]].

Definition optlrc_12_8_4 : OptLRC := mkOptLRC [
  [1; 0; 0; 0; 0; 0; 0; 0];
  [0; 1; 0; 0; 0; 0; 0; 0];
  [0; 0; 1; 0; 0; 0; 0; 0];
  [0; 0; 0; 1; 0; 0; 0; 0];
  [1; 1; 1; 1; 0; 0; 0; 0];
  [0; 0; 0; 0; 1; 0; 0; 0];
  [0; 0; 0; 0; 0; 1; 0; 0];
  [0; 0; 0; 0; 0; 0; 1; 0];
  [0; 0; 0; 0; 0; 0; 0; 1];
  [0; 0; 0; 0; 1; 1; 1; 1];
  [150; 99; 111; 23; 34; 107; 5; 139];
  [150; 99; 111; 23; 34; 107; 5; 139]].

Definition optlrc_17_12_4 : OptLRC := mkOptLRC [
  [1; 0; 0; 0; 0; 0; 0; 0; 0; 0; 0; 0];
  [0; 1; 0; 0; 0; 0; 0; 0; 0; 0; 0; 0];
  [0; 0; 1; 0; 0; 0; 0; 0; 0; 0; 0; 0];
  [0; 0; 0; 1; 0; 0; 0; 0; 0; 0; 0; 0];
  [1; 1; 1; 1; 0; 0; 0; 0; 0; 0; 0; 0];
  [0; 0; 0; 0; 1; 0; 0; 0; 0; 0; 0; 0];
  [0; 0; 0; 0; 0; 1; 0; 0; 0; 0; 0; 0];
  [0; 0; 0; 0; 0; 0; 1; 0; 0; 0; 0; 0];
  [0; 0; 0; 0; 0; 0; 0; 1; 0; 0; 0; 0];
  [0; 0; 0; 0; 1; 1; 1; 1; 0; 0; 0; 0];
  [0; 0; 0; 0; 0; 0; 0; 0; 1; 0; 0; 0];
  [0; 0; 0; 0; 0; 0; 0; 0; 0; 1; 0; 0];
  [0; 0; 0; 0; 0; 0; 0; 0; 0; 0; 1; 0];
  [0; 0; 0; 0; 0; 0; 0; 0; 0; 0; 0; 1];
  [0; 0; 0; 0; 0; 0; 0; 0; 1; 1; 1; 1];
  [148; 117; 241; 176; 91; 15; 212; 61; 147; 220; 69; 11];
  [148; 117; 241; 176; 91; 15; 212; 61; 147; 220; 69; 11]].

Definition optlrc_14_10_6 : OptLRC := mkOptLRC [
  [1; 0; 0; 0; 0; 0; 0; 0; 0; 0];
  [0; 1; 0; 0; 0; 0; 0; 0; 0; 0];
  [0; 0; 1; 0; 0; 0; 0; 0; 0; 0];
  [0; 0; 0; 1; 0; 0; 0; 0; 0; 0];
  [0; 0; 0; 0; 1; 0; 0; 0; 0; 0];
  [0; 0; 0; 0; 0; 1; 0; 0; 0; 0];
  [1; 1; 1; 1; 1; 1; 0; 0; 0; 0];
  [0; 0; 0; 0; 0; 0; 1; 0; 0; 0];
  [0; 0; 0; 0; 0; 0; 0; 1; 0; 0];
  [0; 0; 0; 0; 0; 0; 0; 0; 1; 0];
  [0; 0; 0; 0; 0; 0; 0; 0; 0; 1];
  [213; 208; 18; 5; 199; 194; 230; 231; 231; 1];
  [143; 64; 79; 207; 192; 15; 85; 84; 85; 1];
  [90; 144; 93; 202; 7; 205; 178; 178; 179; 1]].

Definition optlrc_14_10_5 : OptLRC := mkOptLRC [
  [1; 0; 0; 0; 0; 0; 0; 0; 0; 0];
  [0; 1; 0; 0; 0; 0; 0; 0; 0; 0];
  [0; 0; 1; 0; 0; 0; 0; 0; 0; 0];
  [0; 0; 0; 1; 0; 0; 0; 0; 0; 0];
  [0; 0; 0; 0; 1; 0; 0; 0; 0; 0];
  [1; 1; 1; 1; 1; 0; 0; 0; 0; 0];
  [0; 0; 0; 0; 0; 1; 0; 0; 0; 0];
  [0; 0; 0; 0; 0; 0; 1; 0; 0; 0];
  [0; 0; 0; 0; 0; 0; 0; 1; 0; 0];
  [0; 0; 0; 0; 0; 0; 0; 0; 1; 0];
  [0; 0; 0; 0; 0; 0; 0; 0; 0; 1];
  [0; 0; 0; 0; 0; 1; 1; 1; 1; 1];
  [48; 197; 111; 164; 62; 137; 170; 155; 66; 250];
  [48; 197; 111; 164; 62; 137; 170; 155; 66; 250]].

Definition optlrc_12_8_5 : OptLRC := mkOptLRC [
  [1; 0; 0; 0; 0; 0; 0; 0];
  [0; 1; 0; 0; 0; 0; 0; 0];
  [0; 0; 1; 0; 0; 0; 0; 0];
  [0; 0; 0; 1; 0; 0; 0; 0];
  [0; 0; 0; 0; 1; 0; 0; 0];
  [1; 1; 1; 1; 1; 0; 0; 0];
  [0; 0; 0; 0; 0; 1; 0; 0];
  [0; 0; 0; 0; 0; 0; 1; 0];
  [0; 0; 0; 0; 0; 0; 0; 1];
  [8; 167; 172; 102; 101; 155; 87; 205];
  [71; 201; 43; 159; 58; 87; 212; 130];
  [79; 110; 135; 249; 95; 205; 130; 78]].

Definition optlrc_17_12_5 : OptLRC := mkOptLRC [
  [1; 0; 0; 0; 0; 0; 0; 0; 0; 0; 0; 0];
  [0; 1; 0; 0; 0; 0; 0; 0; 0; 0; 0; 0];
  [0; 0; 1; 0; 0; 0; 0; 0; 0; 0; 0; 0];
  [0; 0; 0; 1; 0; 0; 0; 0; 0; 0; 0; 0];
  [0; 0; 0; 0; 1; 0; 0; 0; 0; 0; 0; 0];
  [1; 1; 1; 1; 1; 0; 0; 0; 0; 0; 0; 0];
  [0; 0; 0; 0; 0; 1; 0; 0; 0; 0; 0; 0];
  [0; 0; 0; 0; 0; 0; 1; 0; 0; 0; 0; 0];
  [0; 0; 0; 0; 0; 0; 0; 1; 0; 0; 0; 0];
  [0; 0; 0; 0; 0; 0; 0; 0; 1; 0; 0; 0];
  [0; 0; 0; 0; 0; 0; 0; 0; 0; 1; 0; 0];
  [0; 0; 0; 0; 0; 1; 1; 1; 1; 1; 0; 0];
  [0; 0; 0; 0; 0; 0; 0; 0; 0; 0; 1; 0];
  [0; 0; 0; 0; 0; 0; 0; 0; 0; 0; 0; 1];
  [101; 94; 86; 187; 214; 9; 169; 44; 23; 155; 50; 80];
  [220; 46; 166; 1; 85; 163; 141; 40; 168; 174; 85; 102];
  [185; 112; 240; 186; 131; 170; 36; 4; 191; 53; 102; 55]].

Definition optlrc_17_12_6 : OptLRC := mkOptLRC [
  [1; 0; 0; 0; 0; 0; 0; 0; 0; 0; 0; 0];
  [0; 1; 0; 0; 0; 0; 0; 0; 0; 0; 0; 0];
  [0; 0; 1; 0; 0; 0; 0; 0; 0; 0; 0; 0];
  [0; 0; 0; 1; 0; 0; 0; 0; 0; 0; 0; 0];
  [0; 0; 0; 0; 1; 0; 0; 0; 0; 0; 0; 0];
  [0; 0; 0; 0; 0; 1; 0; 0; 0; 0; 0; 0];
  [1; 1; 1; 1; 1; 1; 0; 0; 0; 0; 0; 0];
  [0; 0; 0; 0; 0; 0; 1; 0; 0; 0; 0; 0];
  [0; 0; 0; 0; 0; 0; 0; 1; 0; 0; 0; 0];
  [0; 0; 0; 0; 0; 0; 0; 0; 1; 0; 0; 0];
  [0; 0; 0; 0; 0; 0; 0; 0; 0; 1; 0; 0];
  [0; 0; 0; 0; 0; 0; 0; 0; 0; 0; 1; 0];
  [0; 0; 0; 0; 0; 0; 0; 0; 0; 0; 0; 1];
  [0; 0; 0; 0; 0; 0; 1; 1; 1; 1; 1; 1];
  [196; 227; 138; 77; 58; 156; 109; 215; 85; 49; 160; 194];
  [94; 109; 138; 69; 8; 68; 67; 113; 227; 131; 17; 248];
  [242; 76; 30; 116; 81; 35; 72; 150; 224; 17; 163; 143]].

Definition optlrc_15_10_5 : OptLRC := mkOptLRC [
  [1; 0; 0; 0; 0; 0; 0; 0; 0; 0];
  [0; 1; 0; 0; 0; 0; 0; 0; 0; 0];
  [0; 0; 1; 0; 0; 0; 0; 0; 0; 0];
  [0; 0; 0; 1; 0; 0; 0; 0; 0; 0];
  [0; 0; 0; 0; 1; 0; 0; 0; 0; 0];
  [1; 1; 1; 1; 1; 0; 0; 0; 0; 0];
  [0; 0; 0; 0; 0; 1; 0; 0; 0; 0];
  [0; 0; 0; 0; 0; 0; 1; 0; 0; 0];
  [0; 0; 0; 0; 0; 0; 0; 1; 0; 0];
  [0; 0; 0; 0; 0; 0; 0; 0; 1; 0];
  [0; 0; 0; 0; 0; 0; 0; 0; 0; 1];
  [0; 0; 0; 0; 0; 1; 1; 1; 1; 1];
  [208; 180; 38; 113; 51; 191; 4; 124; 10; 205];
  [77; 31; 237; 41; 150; 199; 94; 237; 170; 222];
  [157; 171; 203; 88; 165; 120; 90; 145; 160; 19]].

(** The assignments of the constructor [OptLRC_Configs()], in order. *)
Definition config_entries : list (Z * Z * Z * OptLRC) := [
  (9, 4, 2, optlrc_9_4_2);
  (10, 6, 4, optlrc_10_6_4);
  (10, 6, 3, optlrc_10_6_3);
  (15, 8, 4, optlrc_15_8_4);
  (15, 8, 5, optlrc_15_8_5);
  (16, 12, 7, optlrc_16_12_7);
  (18, 12, 3, optlrc_18_12_3);
  (18, 12, 4, optlrc_18_12_4);
  (15, 10, 4, optlrc_15_10_4);
  (15, 10, 5, optlrc_15_10_5);
  (14, 10, 4, optlrc_14_10_4);
  (14, 10, 5, optlrc_14_10_5);
  (14, 10, 6, optlrc_14_10_6);
  (12, 8, 3, optlrc_12_8_3);
  (12, 8, 4, optlrc_12_8_4);
  (12, 8, 5, optlrc_12_8_5);
  (17, 12, 4, optlrc_17_12_4);
  (17, 12, 5, optlrc_17_12_5);
  (17, 12, 6, optlrc_17_12_6)].

(** The pointer [configs[n][k][r]]: a read outside the array is undefined
    behaviour, and an entry that the constructor does not set holds no valid
    pointer. *)
Definition configs_slot (n k r : Z) : outcome (option OptLRC) :=
  if bool_decide (0 ≤ n < MAX_CHUNKS ∧ 0 ≤ k < MAX_DATA_CHUNKS
                  ∧ 0 ≤ r < MAX_LOCALITY_CHUNKS) then
    Ret ((λ p, p.2.2) <$> list_find (λ e, e.1 = (n, k, r)) config_entries)
  else Abort OutOfBounds.

(** The matrix behind the pointer [configs[n][k][r]]. *)
Definition configs (n k r : Z) : outcome OptLRC :=
  g ← configs_slot n k r;
  need Uninitialised g.

(** ** What the decoder relies on *)

(** Row [i] of a generator matrix. *)
Definition config_row (g : OptLRC) (i : Z) : list Z :=
  default [] (optlrc_encode g !! Z.to_nat i).

(** The local group of chunk [e]. *)
Definition group_ids (n r e : Z) : list Z :=
  filter (λ i, i `quot` (r + 1) = e `quot` (r + 1)) (seqZ 0 n).

#[export] Instance byte_ok_dec b : Decision (byte_ok b).
Proof. unfold byte_ok. apply _. Defined.
#[export] Instance bytes_ok_dec b : Decision (bytes_ok b).
Proof. unfold bytes_ok. apply _. Defined.

(** The rows of the local group of chunk [e] add up to zero, and the group has
    another member. *)
Definition group_ok (n k r : Z) (g : OptLRC) (e : Z) : Prop :=
  xor_all (Z.to_nat k) (config_row g <$> group_ids n r e) = zeros (Z.to_nat k)
  ∧ 2 ≤ Z.of_nat (length (group_ids n r e)).

#[export] Instance group_ok_dec n k r g e : Decision (group_ok n k r g e).
Proof. unfold group_ok. apply _. Defined.

Record config_ok (n k r : Z) (g : OptLRC) : Prop := {
  config_counts : 0 < k ≤ n ∧ n < MAX_CHUNKS ∧ k < MAX_DATA_CHUNKS ∧ 0 < r;
  config_rows : Z.of_nat (length (optlrc_encode g)) = n;
  config_row_ok : Forall (λ row, Z.of_nat (length row) = k ∧ bytes_ok row)
                    (optlrc_encode g);
  config_groups : Forall (group_ok n k r g) (seqZ 0 n);
}.

Definition config_check (n k r : Z) (g : OptLRC) : bool :=
  bool_decide (0 < k ≤ n ∧ n < MAX_CHUNKS ∧ k < MAX_DATA_CHUNKS ∧ 0 < r)
  && bool_decide (Z.of_nat (length (optlrc_encode g)) = n)
  && bool_decide (Forall (λ row, Z.of_nat (length row) = k ∧ bytes_ok row)
                    (optlrc_encode g))
  && bool_decide (Forall (group_ok n k r g) (seqZ 0 n)).

Lemma config_check_ok n k r g : config_check n k r g = true → config_ok n k r g.
Proof.
  unfold config_check. rewrite !andb_true_iff, !bool_decide_eq_true.
  intros [[[??]?]?]. by constructor.
Qed.

(** The table whose last local group does not add up. *)
Definition broken_config : Z * Z * Z := (17, 12, 6).

Lemma config_entries_checked :
  forallb (λ e, bool_decide (e.1 = broken_config)
                || config_check e.1.1.1 e.1.1.2 e.1.2 e.2) config_entries = true.
Proof. vm_compute. reflexivity. Qed.

Lemma configs_inv n k r g :
  configs n k r = Ret g → (n, k, r, g) ∈ config_entries.
Proof.
  unfold configs, configs_slot. case_bool_decide; [|done].
  unfold mbind, outcome_bind, need.
  destruct (list_find _ config_entries) as [[i e]|] eqn:E; simpl; [|done].
  intros [= <-]. apply list_find_Some in E as (Hi & He & _).
  apply list_elem_of_lookup_2 in Hi. destruct e as [[[??]?]?]; naive_solver.
Qed.

Lemma configs_slot_Some n k r g : configs n k r = Ret g → configs_slot n k r = Ret (Some g).
Proof.
  unfold configs. destruct (configs_slot n k r) as [[?|]|]; simpl; congruence.
Qed.

(** Every generator matrix but that of (17, 12, 6) has rows of [k] field
    elements whose local groups add up to zero. *)
Lemma configs_ok n k r g :
  configs n k r = Ret g → (n, k, r) ≠ broken_config → config_ok n k r g.
Proof.
  intros Hin%configs_inv Hne. apply config_check_ok.
  pose proof config_entries_checked as Hall.
  rewrite forallb_forall in Hall. apply list_elem_of_In, Hall in Hin. simpl in Hin.
  by rewrite bool_decide_false in Hin.
Qed.
