(* ===== verification/Strtol.v ===== *)
(** * Strict integer parsing

    src/src/common/strtol.cc: [strict_strtoll] and [strict_strtol], through
    which every numeric parameter of an erasure code profile is read. C's
    [strtoll] in base 10 is modelled over the characters of the string; the
    string the code passes is the [c_str()] of a [std::string], which ends at
    the first NUL. The error text is not modelled: [None] stands for a
    non-empty [*err]. *)

From stdpp Require Import pretty.
From S2P Require Import Prelude.

Abbreviation chars := (list ascii).

Definition LLONG_MAX : Z := 2 ^ 63 - 1.
Definition LLONG_MIN : Z := - 2 ^ 63.

(** [isspace] in the C locale. *)
Definition is_space (a : ascii) : bool :=
  let n := Ascii.N_of_ascii a in
  bool_decide (n = 32 ∨ 9 ≤ n ≤ 13)%N.

Definition digit (a : ascii) : option Z :=
  let n := Z.of_N (Ascii.N_of_ascii a) in
  if bool_decide (48 ≤ n ≤ 57) then Some (n - 48) else None.

Fixpoint skip_spaces (s : chars) : chars :=
  match s with
  | a :: s' => if is_space a then skip_spaces s' else s
  | [] => []
  end.

(** Reads the longest run of digits: the number read and what follows. *)
Fixpoint read_digits (acc : Z) (s : chars) : Z * chars :=
  match s with
  | a :: s' =>
      match digit a with
      | Some d => read_digits (10 * acc + d) s'
      | None => (acc, s)
      end
  | [] => (acc, [])
  end.

Definition sign_char (s : chars) : bool * chars :=
  match s with
  | "-"%char :: s' => (true, s')
  | "+"%char :: s' => (false, s')
  | _ => (false, s)
  end.

(** [strtoll (str, &endptr, 10)]: [None] when no digit was read ([endptr] is
    [str]), else the value, whether [errno] is [ERANGE], and [endptr]. *)
Definition strtoll (s : chars) : option (Z * bool * chars) :=
  let '(neg, s1) := sign_char (skip_spaces s) in
  match s1 with
  | a :: _ =>
      if digit a is Some _ then
        let '(v, rest) := read_digits 0 s1 in
        let v := if (neg : bool) then - v else v in
        Some (if bool_decide (LLONG_MIN ≤ v ≤ LLONG_MAX) then (v, false, rest)
              else (if neg then LLONG_MIN else LLONG_MAX, true, rest))
      else None
  | [] => None
  end.

(** The characters before the first NUL. *)
Fixpoint c_str (s : string) : chars :=
  match s with
  | EmptyString => []
  | String a s' => if decide (a = Ascii.zero) then [] else a :: c_str s'
  end.

Definition strict_strtoll (str : chars) : option Z :=
  match strtoll str with
  | None => None
  | Some (ret, erange, endptr) =>
      if (erange && bool_decide (ret = LLONG_MAX ∨ ret = LLONG_MIN))
         || (erange && bool_decide (ret = 0)) then None
      else if endptr is [] then Some ret
      else None
  end.

Definition strict_strtol (str : string) : option Z :=
  match strict_strtoll (c_str str) with
  | None => None
  | Some ret =>
      if bool_decide (ret ≤ INT_MIN) || bool_decide (INT_MAX ≤ ret) then None
      else Some ret
  end.

(** ** Printing then parsing

    [stringify] prints an integer in decimal, as stdpp's [pretty] does. *)

Lemma digit_pretty_N_char (x : N) :
  (x < 10)%N → digit (pretty_N_char x) = Some (Z.of_N x).
Proof.
  intros Hx. assert (x ∈ (N.of_nat <$> seq 0 10)) as Hin.
  { apply list_elem_of_fmap. exists (N.to_nat x).
    rewrite elem_of_seq. lia. }
  vm_compute in Hin. repeat (apply elem_of_cons in Hin as [->|Hin]; [done|]).
  by apply not_elem_of_nil in Hin.
Qed.

Lemma digit_not_zero a d : digit a = Some d → a ≠ Ascii.zero.
Proof. intros H ->. done. Qed.

Lemma c_str_digit a d s : digit a = Some d → c_str (String a s) = a :: c_str s.
Proof.
  intros Ha. simpl. destruct (decide _) as [->|]; [|done].
  by apply digit_not_zero in Ha.
Qed.

Lemma read_digits_pretty (x : N) s :
  read_digits 0 (c_str (pretty_N_go x s)) = read_digits (Z.of_N x) (c_str s).
Proof.
  revert s. induction (N.lt_wf_0 x) as [x _ IH]; intros s.
  destruct (decide (0 < x)%N) as [Hx|]; last first.
  { assert (x = 0%N) as -> by lia. by rewrite pretty_N_go_0. }
  rewrite pretty_N_go_step by done.
  assert (x `mod` 10 < 10)%N as Hm by (by apply N.mod_lt).
  rewrite IH by (by apply N.div_lt).
  erewrite c_str_digit by (by apply digit_pretty_N_char). simpl.
  rewrite digit_pretty_N_char by done. f_equal.
  rewrite N2Z.inj_div, N2Z.inj_mod. symmetry. by apply Z.div_mod.
Qed.

Lemma pretty_N_go_head (x : N) s :
  (0 < x)%N → ∃ a d s', pretty_N_go x s = String a s' ∧ digit a = Some d.
Proof.
  revert s. induction (N.lt_wf_0 x) as [x _ IH]; intros s Hx.
  rewrite pretty_N_go_step by done.
  assert (x `mod` 10 < 10)%N as Hm by (by apply N.mod_lt).
  destruct (decide (0 < x `div` 10)%N) as [Hd|Hd].
  - apply IH; [by apply N.div_lt|done].
  - assert (x `div` 10 = 0)%N as -> by (by apply N.le_0_r, N.nlt_ge). rewrite pretty_N_go_0.
    eexists _, _, _. split; [done|]. by apply digit_pretty_N_char.
Qed.

(** A decimal numeral is a leading digit and reads back as its value. *)
Lemma read_pretty_N (x : N) :
  ∃ a d s', c_str (pretty x) = a :: s' ∧ digit a = Some d
    ∧ read_digits 0 (c_str (pretty x)) = (Z.of_N x, []).
Proof.
  unfold pretty, pretty_N. case_decide as Hx; [subst|].
  - by exists "0"%char, 0, [].
  - destruct (pretty_N_go_head x "" ltac:(lia)) as (a & d & s' & Hs & Ha).
    exists a, d, (c_str s'). rewrite read_digits_pretty, Hs.
    by erewrite c_str_digit.
Qed.

Lemma digit_plain a d :
  digit a = Some d → is_space a = false ∧ a ≠ "-"%char ∧ a ≠ "+"%char.
Proof.
  intros Ha. split_and!; [|intros ->; done|intros ->; done].
  unfold digit in Ha. unfold is_space. repeat case_test; try done. lia.
Qed.

Lemma sign_char_digit a d s : digit a = Some d → sign_char (a :: s) = (false, a :: s).
Proof.
  intros (_ & Hm & Hp)%digit_plain.
  destruct a as [[] [] [] [] [] [] [] []]; done.
Qed.

Lemma strtoll_digits neg s a d s' v :
  s = a :: s' → digit a = Some d → read_digits 0 s = (v, []) →
  (if (neg : bool) then LLONG_MIN ≤ - v ≤ LLONG_MAX else LLONG_MIN ≤ v ≤ LLONG_MAX) →
  strtoll (if neg then "-"%char :: s else s)
  = Some (if neg then - v else v, false, []).
Proof.
  intros Hs Ha Hread Hv. pose proof (digit_plain _ _ Ha) as (Hsp & Hm & Hp).
  unfold strtoll. destruct neg; subst s.
  - change (sign_char (skip_spaces _)) with (true, a :: s').
    cbv iota beta. rewrite Ha, Hread. by rewrite bool_decide_true.
  - simpl skip_spaces. rewrite Hsp, (sign_char_digit _ _ _ Ha), Ha, Hread.
    by rewrite bool_decide_true.
Qed.

Lemma strict_strtoll_pretty (z : Z) :
  LLONG_MIN ≤ z ≤ LLONG_MAX → strict_strtoll (c_str (pretty z)) = Some z.
Proof.
  intros Hz. unfold strict_strtoll, LLONG_MIN, LLONG_MAX in *.
  unfold pretty at 1, pretty_Z. destruct z as [|p|p].
  - done.
  - destruct (read_pretty_N (N.pos p)) as (a & d & s' & Hs & Ha & Hread).
    change (pretty p) with (pretty (N.pos p)).
    rewrite (strtoll_digits false _ a d s' (Z.pos p) Hs Ha Hread); done.
  - destruct (read_pretty_N (N.pos p)) as (a & d & s' & Hs & Ha & Hread).
    change (c_str ("-" +:+ pretty p)) with ("-"%char :: c_str (pretty (N.pos p))).
    rewrite (strtoll_digits true _ a d s' (Z.pos p) Hs Ha Hread); done.
Qed.

(** An [int] other than the two extreme ones is read back from its decimal
    representation; the extreme ones are refused. *)
Lemma strict_strtol_pretty (z : Z) :
  INT_MIN ≤ z ≤ INT_MAX →
  strict_strtol (pretty z)
  = if bool_decide (INT_MIN < z < INT_MAX) then Some z else None.
Proof.
  intros Hz. unfold strict_strtol, INT_MIN, INT_MAX in *.
  rewrite strict_strtoll_pretty by (unfold LLONG_MIN, LLONG_MAX; lia).
  repeat case_test; simpl; try done; lia.
Qed.

(** Whatever [strict_strtol] accepts fits in an [int]. *)
Lemma strict_strtol_range s z : strict_strtol s = Some z → INT_MIN < z < INT_MAX.
Proof.
  unfold strict_strtol. destruct (strict_strtoll _) as [ret|]; [|done].
  repeat case_test; simpl; intros; simplify_eq; lia.
Qed.
