(* ===== verification/StrMap.v ===== *)
(** * Strings, key/value lists and JSON values

    src/src/common/str_list.cc, src/src/common/str_map.cc and the value type of
    src/src/json_spirit/json_spirit_value.h: how the text parameters of a
    profile become maps. Reading JSON text is done by a Boost.Spirit grammar:
    the class [JsonReader] stands for it. *)

From S2P Require Import Prelude Strtol.

#[local] Set Warnings "-register-all".

(** ** Token lists *)

Fixpoint drop_while (p : ascii → bool) (s : chars) : chars :=
  match s with
  | a :: s' => if p a then drop_while p s' else s
  | [] => []
  end.
Fixpoint take_while (p : ascii → bool) (s : chars) : chars :=
  match s with
  | a :: s' => if p a then a :: take_while p s' else []
  | [] => []
  end.

Definition is_delim (delims : chars) (a : ascii) : bool := bool_decide (a ∈ delims).
Definition not_delim (delims : chars) (a : ascii) : bool := negb (is_delim delims a).

(** [s] is what follows [pos]; the result is the token, if there is one, and
    what follows the new [pos]. *)
Definition get_next_token (s delims : chars) : option chars * chars :=
  match drop_while (is_delim delims) s with
  | [] => (None, [])
  | start => (Some (take_while (not_delim delims) start),
              drop 1 (drop_while (not_delim delims) start))
  end.

(** The loop of [get_str_list]; every round consumes a character, so that the
    length of the string is enough fuel ([get_str_list_fuel]). *)
Fixpoint get_str_list_loop (fuel : nat) (s delims : chars) : list chars :=
  match fuel, s with
  | S fuel, _ :: _ =>
      let '(token, rest) := get_next_token s delims in
      match token with
      | Some token =>
          if bool_decide (0 < length token)%nat then
            token :: get_str_list_loop fuel rest delims
          else get_str_list_loop fuel rest delims
      | None => get_str_list_loop fuel rest delims
      end
  | _, _ => []
  end.

Definition get_str_list (s delims : chars) : list chars :=
  get_str_list_loop (length s) s delims.

(** ** Key/value maps *)

Abbreviation str := String.string_of_list_ascii.
Abbreviation explode := String.list_ascii_of_string.

(** The loops of [trim] over a string with at least one character. *)
Definition trim_spaces (s : chars) : chars :=
  rev (skip_spaces (rev (skip_spaces s))).

(** On an empty string [end] is [SIZE_MAX] and [str[end]] is read. *)
Definition trim (s : chars) : outcome chars :=
  match s with
  | [] => Abort OutOfBounds
  | _ => Ret (trim_spaces s)
  end.

Definition is_equal_sign (a : ascii) : bool := bool_decide (a = "="%char).

Definition add_pair (str_map : gmap string string) (i : chars)
    : outcome (gmap string string) :=
  if bool_decide ("="%char ∈ i) then
    key ← trim (take_while (λ a, negb (is_equal_sign a)) i);
    value ← trim (drop 1 (drop_while (λ a, negb (is_equal_sign a)) i));
    Ret (<[str key := str value]> str_map)
  else Ret (<[str i := EmptyString]> str_map).

Definition get_str_map (s : string) (str_map : gmap string string) (delims : chars)
    : outcome (gmap string string) :=
  foldM add_pair str_map (get_str_list (explode s) delims).

(** ** JSON values *)

(** [mValue]; the members of an object are in key order. The value of a real
    number is never read. *)
Inductive json :=
  | JObj (members : list (string * json))
  | JArray (elements : list json)
  | JStr (s : string)
  | JBool (b : bool)
  | JInt (i : Z)
  | JReal
  | JNull
  | JUint64 (i : Z).

Inductive json_kind := obj_type | array_type | str_type | bool_type | int_type
  | real_type | null_type.

#[export] Instance json_kind_eq_dec : EqDecision json_kind.
Proof. solve_decision. Defined.

Definition json_type (j : json) : json_kind :=
  match j with
  | JObj _ => obj_type
  | JArray _ => array_type
  | JStr _ => str_type
  | JBool _ => bool_type
  | JInt _ | JUint64 _ => int_type
  | JReal => real_type
  | JNull => null_type
  end.

(** The accessors throw [runtime_error] on a value of another type. *)
Definition get_str (j : json) : outcome string :=
  if j is JStr s then Ret s else Abort UncaughtException.
Definition get_obj (j : json) : outcome (list (string * json)) :=
  if j is JObj o then Ret o else Abort UncaughtException.
Definition get_array (j : json) : outcome (list json) :=
  if j is JArray l then Ret l else Abort UncaughtException.
Definition get_int64 (j : json) : outcome Z :=
  match j with
  | JInt i => Ret i
  | JUint64 i => Ret ((i + 2 ^ 63) mod 2 ^ 64 - 2 ^ 63)
  | _ => Abort UncaughtException
  end.
Definition get_int (j : json) : outcome Z := s32 <$> get_int64 j.

(** [json_spirit::read_or_throw]; [None] is a thrown [Error_position]. *)
Class JsonReader := { read_or_throw : string → option json }.

(** Stores the string value of every member of an object. *)
Definition add_members (str_map : gmap string string) (o : list (string * json))
    : outcome (gmap string string) :=
  foldM (λ m nv, v ← get_str nv.2; Ret (<[nv.1 := v]> m)) str_map o.

(** Tab, newline and space. *)
Definition blanks : chars := [Ascii.ascii_of_nat 9; Ascii.ascii_of_nat 10; " "%char].

Definition get_json_str_map `{JsonReader} (s : string) (str_map : gmap string string)
    (fallback_to_plain : bool) : outcome (Z * gmap string string) :=
  match read_or_throw s with
  | Some json =>
      if bool_decide (json_type json ≠ obj_type) then Ret (- EINVAL, str_map) else
      o ← get_obj json;
      m ← add_members str_map o;
      Ret (0, m)
  | None =>
      if fallback_to_plain then
        m ← get_str_map s str_map blanks;
        Ret (0, m)
      else Ret (- EINVAL, str_map)
  end.

(** ** Properties of the tokenizer *)

Lemma drop_while_length p s : (length (drop_while p s) ≤ length s)%nat.
Proof. induction s as [|a s IH]; simpl; [lia|]. destruct (p a); simpl; lia. Qed.

Lemma get_next_token_shorter a s delims token rest :
  get_next_token (a :: s) delims = (token, rest) → (length rest ≤ length s)%nat.
Proof.
  unfold get_next_token. pose proof (drop_while_length (is_delim delims) (a :: s)) as H1.
  destruct (drop_while (is_delim delims) (a :: s)) as [|b l] eqn:E; intros [= <- <-];
    [simpl; lia|].
  pose proof (drop_while_length (not_delim delims) (b :: l)) as H2.
  rewrite length_drop. simpl in *. lia.
Qed.

(** Every round consumes a character: more fuel than characters changes
    nothing. *)
Lemma get_str_list_fuel fuel s delims :
  (length s ≤ fuel)%nat → get_str_list_loop fuel s delims = get_str_list s delims.
Proof.
  unfold get_str_list. revert s.
  induction fuel as [fuel IH] using lt_wf_ind. intros s Hf.
  destruct s as [|a s]; [by destruct fuel|]. destruct fuel as [|fuel]; simpl in Hf; [lia|].
  cbn [get_str_list_loop length].
  destruct (get_next_token (a :: s) delims) as [token rest] eqn:E.
  apply get_next_token_shorter in E.
  assert (get_str_list_loop fuel rest delims = get_str_list_loop (length s) rest delims)
    as ->; [|done].
  rewrite (IH fuel) by lia. symmetry. destruct (decide (length s = fuel)) as [<-|];
    [apply IH; lia|]. apply IH; lia.
Qed.

Lemma drop_while_none p s : Forall (λ a, p a = false) s → drop_while p s = s.
Proof. destruct 1 as [|a s Ha]; [done|]. simpl. by rewrite Ha. Qed.
Lemma drop_while_app p s t :
  Forall (λ a, p a = true) s → drop_while p (s ++ t) = drop_while p t.
Proof. induction 1 as [|a s Ha _ IH]; [done|]. simpl. by rewrite Ha. Qed.
Lemma take_while_app p s t :
  Forall (λ a, p a = true) s → take_while p (s ++ t) = s ++ take_while p t.
Proof. induction 1 as [|a s Ha _ IH]; [done|]. simpl. by rewrite Ha, IH. Qed.

(** A token: at least one character, none of them a delimiter. *)
Definition token_ok (delims t : chars) : Prop :=
  t ≠ [] ∧ Forall (λ a, not_delim delims a = true) t.

(** Tokens each followed by a delimiter. *)
Definition join (d : ascii) (ts : list chars) : chars := concat ((λ t, t ++ [d]) <$> ts).

Lemma get_next_token_join delims d t rest :
  is_delim delims d = true → token_ok delims t →
  get_next_token (t ++ d :: rest) delims = (Some t, rest).
Proof.
  intros Hd [Hne Ht]. unfold get_next_token.
  assert (drop_while (is_delim delims) (t ++ d :: rest) = t ++ d :: rest) as ->.
  { destruct Ht as [|a t Ha _]; [done|]. simpl. unfold not_delim in Ha.
    by destruct (is_delim delims a). }
  destruct t as [|a t]; [done|]. cbn [app]. change (a :: t ++ d :: rest) with ((a :: t) ++ d :: rest).
  rewrite take_while_app, drop_while_app by done. simpl. unfold not_delim.
  rewrite Hd. simpl. by rewrite app_nil_r.
Qed.

Lemma get_str_list_join delims d ts :
  is_delim delims d = true → Forall (token_ok delims) ts →
  get_str_list (join d ts) delims = ts.
Proof.
  intros Hd. induction 1 as [|t ts Ht Hts IH]; [done|].
  unfold join in *. cbn [fmap list_fmap concat]. rewrite <-app_assoc. simpl.
  set (rest := concat _) in *. pose proof (get_next_token_join delims d t rest Hd Ht) as Hn.
  destruct Ht as [Hne Ht]. destruct t as [|a t]; [done|].
  rewrite <-(get_str_list_fuel (S (length (t ++ d :: rest)))) by (simpl; lia).
  cbn [get_str_list_loop app]. cbn [app] in Hn. rewrite Hn.
  rewrite bool_decide_true by (simpl; lia). f_equal.
  rewrite get_str_list_fuel; [done|]. rewrite length_app. simpl. lia.
Qed.

(** ** Properties of key/value maps *)

(** A word without white space. *)
Definition word_ok (w : chars) : Prop := w ≠ [] ∧ Forall (λ a, is_space a = false) w.
Definition key_ok (w : chars) : Prop :=
  word_ok w ∧ Forall (λ a, negb (is_equal_sign a) = true) w.

Definition pair_text (kv : chars * chars) : chars := kv.1 ++ "="%char :: kv.2.

Lemma skip_spaces_word w : word_ok w → skip_spaces w = w.
Proof. intros [_ Hw]. destruct Hw as [|a w0 Ha]; [done|]. simpl. by rewrite Ha. Qed.

Lemma trim_word w : word_ok w → trim w = Ret w.
Proof.
  intros Hw. unfold trim, trim_spaces. destruct w as [|a w'] eqn:E; [by destruct Hw|].
  rewrite <-E in *. rewrite (skip_spaces_word w) by done.
  rewrite (skip_spaces_word (rev w)), rev_involutive; [done|].
  destruct Hw as [Hne Hw]. split.
  - intros Hr. apply Hne. by rewrite <-(rev_involutive w), Hr.
  - rewrite Forall_forall in Hw |- *. intros x Hx. apply Hw.
    apply list_elem_of_In, in_rev. by apply list_elem_of_In.
Qed.

Lemma add_pair_text m k v :
  key_ok k → word_ok v → add_pair m (pair_text (k, v)) = Ret (<[str k := str v]> m).
Proof.
  intros [Hk Heq] Hv. unfold add_pair, pair_text. simpl.
  rewrite bool_decide_true by set_solver.
  rewrite take_while_app, drop_while_app by done. simpl. rewrite app_nil_r, drop_0.
  by rewrite !trim_word.
Qed.

Lemma blank_is_delim : is_delim blanks " "%char = true.
Proof. vm_compute. reflexivity. Qed.

Lemma not_space_not_blank a : is_space a = false → not_delim blanks a = true.
Proof.
  unfold not_delim, is_delim, blanks. intros Ha. rewrite bool_decide_false; [done|].
  rewrite !elem_of_cons. intros [->|[->|[->|[]%elem_of_nil]]]; vm_compute in Ha; congruence.
Qed.

Lemma pair_text_token k v :
  key_ok k → word_ok v → token_ok blanks (pair_text (k, v)).
Proof.
  intros [[Hk Hks] _] [Hv Hvs]. unfold pair_text. split; [by destruct k|]. simpl.
  apply Forall_app. split; [|constructor; [vm_compute; reflexivity|]];
    (eapply Forall_impl; [eassumption|]); apply not_space_not_blank.
Qed.

(** The plain text [k1=v1 k2=v2 ...] of a list of pairs, each key and value
    a word, is read back by [get_str_map] as the map with these pairs, later
    ones in place of earlier ones. *)
Theorem get_str_map_roundtrip (pairs : list (chars * chars)) (m : gmap string string) :
  Forall (λ kv, key_ok kv.1 ∧ word_ok kv.2) pairs →
  get_str_map (str (join " "%char (pair_text <$> pairs))) m blanks
  = Ret (foldl (λ m kv, <[str kv.1 := str kv.2]> m) m pairs).
Proof.
  intros Hp. unfold get_str_map. rewrite String.list_ascii_of_string_of_list_ascii.
  rewrite (get_str_list_join blanks " "%char); [|apply blank_is_delim|].
  - revert m. induction Hp as [|[k v] pairs [Hk Hv] _ IH]; intros m; [done|].
    cbn [fmap list_fmap foldM foldl]. rewrite add_pair_text by done. apply IH.
  - apply Forall_fmap. eapply Forall_impl; [exact Hp|].
    intros [k v] [??]. by apply pair_text_token.
Qed.

Lemma get_str_map_roundtrip_witness :
  get_str_map "k=4 m=2 " ∅ blanks
  = Ret (<["m" := "2"]> (<["k" := "4"]> (∅ : gmap string string))).
Proof.
  apply (get_str_map_roundtrip [(["k"%char], ["4"%char]); (["m"%char], ["2"%char])] ∅).
  repeat constructor; done.
Defined.

(** An empty value makes [get_str_map] read outside a string: [trim] of an
    empty string takes the character at [size() - 1]. *)
Theorem get_str_map_empty_value m :
  get_str_map "directory=" m blanks = Abort OutOfBounds.
Proof. vm_compute. reflexivity. Qed.
