(* ===== verification/ErasureCode.v ===== *)
(** * The plugin interface and the base class

    src/src/erasure-code/ErasureCodeInterface.h and ErasureCode.{h,cc}. The
    virtual methods that the base class calls back are the record [Codec];
    everything the base class implements is a definition over a [Codec]. What
    a plugin promises about its virtual methods is the class [CodecSpec],
    against which the theorems about [encode], [decode] and [decode_concat]
    are proved; the plugins' files discharge it. *)

From stdpp Require Import pretty.
From S2P Require Import Prelude Strtol.

(** [ErasureCodeProfile]. *)
Abbreviation Profile := (gmap string string).

(** The contents of the memory that [buffer::create_aligned (len, SIMD_ALIGN)]
    hands out for chunk [i]: unspecified bytes. *)
Class Allocator := { create_aligned : Z → Z → bytes }.
Class AllocatorSpec `{Allocator} : Prop := {
  create_aligned_len i n : 0 ≤ n → blen (create_aligned i n) = n;
  create_aligned_ok i n : bytes_ok (create_aligned i n);
}.

(** The virtual methods. A method that takes a [map<int, bufferlist> *] or a
    [set<int> *] takes the value it points to and returns the new one beside
    the [int] result. *)
Record Codec := mkCodec {
  get_chunk_count : Z;
  get_data_chunk_count : Z;
  chunk_mapping : list Z;
  get_chunk_size : Z → outcome Z;
  codec_minimum_to_decode : gset Z → gset Z → gset Z → outcome (Z * gset Z);
  encode_chunks : gset Z → gmap Z bytes → outcome (Z * gmap Z bytes);
  decode_chunks : gset Z → gmap Z bytes → gmap Z bytes → outcome (Z * gmap Z bytes);
}.

(** [for (unsigned i = 0; i < n; i++) if (c(i)) s.insert(i)]: the chunk
    numbers below [n] that satisfy a test. *)
Definition ids_where (p : Z → bool) (n : Z) : gset Z :=
  list_to_set (filter (λ i, p i = true) (seqZ 0 n)).

Definition get_coding_chunk_count (c : Codec) : Z :=
  get_chunk_count c - get_data_chunk_count c.

Definition sanity_check_k (k : Z) : Z :=
  if bool_decide (k < 2) then - EINVAL else 0.

Definition chunk_index (mapping : list Z) (i : Z) : Z :=
  if bool_decide (i < Z.of_nat (length mapping)) then
    default i (mapping !! Z.to_nat i)
  else i.

Definition minimum_to_decode (k : Z) (want_to_read available_chunks minimum : gset Z)
    : Z * gset Z :=
  if bool_decide (want_to_read ⊆ available_chunks) then (0, want_to_read)
  else if bool_decide (Z.of_nat (size available_chunks) < k) then (- EIO, minimum)
  else (0, minimum ∪ list_to_set (take (Z.to_nat k) (ascending available_chunks))).

Definition minimum_to_decode_with_cost (c : Codec) (want_to_read : gset Z)
    (available : gmap Z Z) (minimum : gset Z) : outcome (Z * gset Z) :=
  let available_chunks := dom available in
  codec_minimum_to_decode c want_to_read available_chunks minimum.

(** [encoded[i]] for its effect on the map: a missing entry is created. *)
Definition touch (encoded : gmap Z bytes) (i : Z) : gmap Z bytes :=
  <[i := buf encoded i]> encoded.

(** [encoded[i].push_back (b)]. *)
Definition push_back (i : Z) (b : bytes) (encoded : gmap Z bytes) : gmap Z bytes :=
  <[i := buf encoded i ++ b]> encoded.

(** [chunk.substr_of (prepared, off, len)]. *)
Definition substr_of (b : bytes) (off len : Z) : outcome bytes :=
  if bool_decide (off + len ≤ blen b) then Ret (substr b off len)
  else Abort OutOfBounds.

Definition encode_prepare `{Allocator} (c : Codec) (raw : bytes)
    (encoded : gmap Z bytes) : outcome (Z * gmap Z bytes) :=
  let k := get_data_chunk_count c in
  let m := get_chunk_count c - k in
  let idx := chunk_index (chunk_mapping c) in
  blocksize ← get_chunk_size c (blen raw);
  if bool_decide (blocksize = 0) then Abort DivByZero else
  let padded_chunks := u32 (k - blen raw / blocksize) in
  let full := u32 (k - padded_chunks) in
  encoded ← foldM (λ enc i,
      chunk ← substr_of raw (i * blocksize) blocksize;
      Ret (<[idx i := chunk]> enc)) encoded (seqZ 0 full);
  let encoded :=
    if bool_decide (padded_chunks = 0) then encoded else
    let remainder := u32 (blen raw - full * blocksize) in
    let tail := substr raw (full * blocksize) remainder in
    let encoded := push_back (idx full)
      (tail ++ zeros (Z.to_nat (blocksize - remainder))) encoded in
    foldl (λ enc i, push_back (idx i) (zeros (Z.to_nat blocksize)) enc)
      encoded (seqZ (full + 1) (k - full - 1)) in
  let encoded :=
    foldl (λ enc i, push_back (idx i) (create_aligned (idx i) blocksize) enc)
      encoded (seqZ k m) in
  Ret (0, encoded).

Definition encode `{Allocator} (c : Codec) (want_to_encode : gset Z)
    (raw : bytes) (encoded : gmap Z bytes) : outcome (Z * gmap Z bytes) :=
  '(err, encoded) ← encode_prepare c raw encoded;
  if bool_decide (err ≠ 0) then Ret (err, encoded) else
  '(_, encoded) ← encode_chunks c want_to_encode encoded;
  let encoded := foldl (λ enc i,
    if bool_decide (i ∈ want_to_encode) then enc else delete i enc)
    encoded (seqZ 0 (get_chunk_count c)) in
  Ret (0, encoded).

Definition decode `{Allocator} (c : Codec) (want_to_read : gset Z)
    (chunks decoded : gmap Z bytes) : outcome (Z * gmap Z bytes) :=
  if bool_decide (want_to_read ⊆ dom chunks) then
    Ret (0, foldl (λ dec i, <[i := buf chunks i]> dec)
              decoded (ascending want_to_read))
  else
  first ← need EmptyContainer (map_first chunks);
  let blocksize := blen first in
  let decoded := foldl (λ dec i,
    match chunks !! i with
    | None => <[i := create_aligned i blocksize ++ buf dec i]> dec
    | Some b => <[i := b]> dec
    end) decoded (seqZ 0 (get_chunk_count c)) in
  decode_chunks c want_to_read chunks decoded.

(** [bufferlist::claim_append] of an entry of a map, which is empty then. *)
Definition claim_entry (st : bytes * gmap Z bytes) (i : Z) : bytes * gmap Z bytes :=
  let '(decoded, decoded_map) := st in (decoded ++ buf decoded_map i, <[i := []]> decoded_map).

Definition decode_concat `{Allocator} (c : Codec) (chunks : gmap Z bytes)
    : outcome (Z * bytes) :=
  let k := get_data_chunk_count c in
  let idx := chunk_index (chunk_mapping c) in
  let want_to_read : gset Z := list_to_set (idx <$> seqZ 0 k) in
  '(r, decoded_map) ← decode c want_to_read chunks ∅;
  Ret (r, if bool_decide (r = 0) then
            (foldl claim_entry ([], decoded_map) (idx <$> seqZ 0 k)).1
          else []).

(** ** Profile parsing *)

(** The positions of the characters of [s] that satisfy [p], from [pos] on. *)
Fixpoint positions (p : Ascii.ascii → bool) (s : string) (pos : Z) : list Z :=
  match s with
  | EmptyString => []
  | String a s' =>
      (if p a then [pos] else []) ++ positions p s' (pos + 1)
  end.

Definition is_D (a : Ascii.ascii) : bool := bool_decide (a = "D"%char).

(** The data positions of a mapping string, then its coding positions. *)
Definition mapping_positions (s : string) : list Z :=
  positions is_D s 0 ++ positions (λ a, negb (is_D a)) s 0.

Definition to_mapping (profile : Profile) (chunk_mapping : list Z)
    : Z * list Z :=
  match profile !! "mapping" with
  | Some mapping => (0, chunk_mapping ++ mapping_positions mapping)
  | None => (0, chunk_mapping)
  end.

Definition parse (profile : Profile) (chunk_mapping : list Z) : Z * list Z :=
  to_mapping profile chunk_mapping.

(** The value of parameter [name], after a missing or empty one has been set
    to its default in the profile. *)
Definition with_default (name : string) (profile : Profile) (default_value : string)
    : string * Profile :=
  match profile !! name with
  | Some p => if bool_decide (p = "") then (default_value, <[name := default_value]> profile)
              else (p, profile)
  | None => (default_value, <[name := default_value]> profile)
  end.

Record parsed (A : Type) := mkParsed {
  p_err : Z;
  p_value : A;
  p_profile : Profile;
}.
Arguments mkParsed {A} _ _ _.
Arguments p_err {A} _.
Arguments p_value {A} _.
Arguments p_profile {A} _.

Definition to_int (name : string) (profile : Profile) (default_value : string)
    : parsed Z :=
  let '(p, profile) := with_default name profile default_value in
  match strict_strtol p with
  | Some r => mkParsed 0 r profile
  | None => mkParsed (- EINVAL) (default 0 (strict_strtol default_value)) profile
  end.

Definition to_bool (name : string) (profile : Profile) (default_value : string)
    : parsed bool :=
  let '(p, profile) := with_default name profile default_value in
  mkParsed 0 (bool_decide (p = "yes") || bool_decide (p = "true")) profile.

Definition to_string (name : string) (profile : Profile) (default_value : string)
    : parsed string :=
  let '(p, profile) := with_default name profile default_value in
  mkParsed 0 p profile.

(** C's [a |= b] on error codes. *)
Definition err_or (a b : Z) : Z := Z.lor a b.

(** A parameter that holds a printed number within the bounds is read back. *)
Lemma to_int_pretty name (profile : Profile) z d :
  profile !! name = Some (pretty z) → INT_MIN < z < INT_MAX →
  to_int name profile d = mkParsed 0 z profile.
Proof.
  intros Hp Hz. unfold to_int, with_default. rewrite Hp.
  pose proof (strict_strtol_pretty z ltac:(lia)) as Hs. rewrite bool_decide_true in Hs by lia.
  case_bool_decide as He; [rewrite He in Hs; vm_compute in Hs; done|]. by rewrite Hs.
Qed.

(** ** What a plugin promises *)

(** A chunk mapping is absent or a permutation of the chunk numbers. *)
Definition mapping_ok (mapping : list Z) (n : Z) : Prop :=
  mapping = [] ∨ mapping ≡ₚ seqZ 0 n.

(** A full stripe of [n] chunks of [bs] bytes. *)
Definition stripe (n : Z) (bs : nat) (w : gmap Z bytes) : Prop :=
  ∀ i, 0 ≤ i < n → ∃ b, w !! i = Some b ∧ length b = bs ∧ bytes_ok b.

(** [max_len] is the largest object the 32-bit size arithmetic of a plugin
    handles, [sizes] the chunk sizes its arithmetic works on. *)
Class CodecSpec (c : Codec) (max_len : Z) (sizes : nat → Prop)
    (codeword : nat → gmap Z bytes → Prop)
    (recoverable : gset Z → gset Z → Prop) : Prop := {
  codec_counts : 0 < get_data_chunk_count c ≤ get_chunk_count c;
  codec_counts_u32 : get_chunk_count c < 2 ^ 32;
  codec_mapping : mapping_ok (chunk_mapping c) (get_chunk_count c);
  (* the chunk size is positive and [k] chunks hold the object *)
  codec_chunk_size len : 0 < len ≤ max_len →
    ∃ bs, get_chunk_size c len = Ret bs ∧ 0 < bs
      ∧ len ≤ get_data_chunk_count c * bs < 2 ^ 32 ∧ sizes (Z.to_nat bs);
  codec_codeword bs w : codeword bs w → stripe (get_chunk_count c) bs w;
  (* encoding all chunks makes a codeword and leaves the data chunks alone *)
  codec_encode want enc bs : list_to_set (seqZ 0 (get_chunk_count c)) ⊆ want →
    stripe (get_chunk_count c) bs enc → (0 < bs)%nat → sizes bs →
    dom enc = list_to_set (seqZ 0 (get_chunk_count c)) →
    ∃ enc', encode_chunks c want enc = Ret (0, enc')
      ∧ dom enc' = dom enc ∧ codeword bs enc'
      ∧ ∀ i, 0 ≤ i < get_data_chunk_count c →
          enc' !! chunk_index (chunk_mapping c) i
          = enc !! chunk_index (chunk_mapping c) i;
  (* decoding restores the wanted chunks of a codeword *)
  codec_decode want chunks decoded w bs : codeword bs w → (0 < bs)%nat →
    chunks ⊆ w → chunks ≠ ∅ →
    want ⊆ list_to_set (seqZ 0 (get_chunk_count c)) →
    dom chunks ⊆ list_to_set (seqZ 0 (get_chunk_count c)) →
    stripe (get_chunk_count c) bs decoded → chunks ⊆ decoded →
    recoverable (dom chunks) want → ¬ want ⊆ dom chunks →
    ∃ decoded', decode_chunks c want chunks decoded = Ret (0, decoded')
      ∧ ∀ i, i ∈ want → decoded' !! i = w !! i;
}.

(** What a plugin promises to another plugin that calls it on the chunks of a
    layer: no chunk mapping, and any [m] erasures are repaired, whatever chunks
    are wanted, as long as the chunk size suits it. *)
Class MdsSpec (c : Codec) (sizes : nat → Prop) (codeword : nat → gmap Z bytes → Prop) : Prop := {
  mds_counts : 0 < get_data_chunk_count c ≤ get_chunk_count c;
  mds_counts_u32 : get_chunk_count c < 2 ^ 32;
  mds_encode want enc bs : stripe (get_chunk_count c) bs enc → (0 < bs)%nat → sizes bs →
    dom enc = list_to_set (seqZ 0 (get_chunk_count c)) →
    ∃ enc', encode_chunks c want enc = Ret (0, enc')
      ∧ dom enc' = dom enc ∧ stripe (get_chunk_count c) bs enc' ∧ codeword bs enc'
      ∧ ∀ i, 0 ≤ i < get_data_chunk_count c → enc' !! i = enc !! i;
  mds_decode want chunks decoded w bs : codeword bs w → (0 < bs)%nat → sizes bs →
    stripe (get_chunk_count c) bs w → dom w = list_to_set (seqZ 0 (get_chunk_count c)) →
    chunks ⊆ w → dom chunks ≠ dom w →
    Z.of_nat (size (dom w ∖ dom chunks)) ≤ get_chunk_count c - get_data_chunk_count c →
    stripe (get_chunk_count c) bs decoded →
    dom decoded = list_to_set (seqZ 0 (get_chunk_count c)) → chunks ⊆ decoded →
    ∃ decoded', decode_chunks c want chunks decoded = Ret (0, decoded')
      ∧ ∀ i, 0 ≤ i < get_chunk_count c → decoded' !! i = w !! i;
}.

(** A plugin that works on chunks of any size. *)
Definition any_size (bs : nat) : Prop := True.

Lemma buf_insert_eq m i b : buf (<[i := b]> m) i = b.
Proof. unfold buf. by rewrite lookup_insert_eq. Qed.
Lemma buf_insert_ne m i j b : i ≠ j → buf (<[i := b]> m) j = buf m j.
Proof. intros. unfold buf. by rewrite lookup_insert_ne. Qed.

Lemma stripe_buf m bs w i :
  stripe m bs w → 0 ≤ i < m →
  w !! i = Some (buf w i) ∧ length (buf w i) = bs ∧ bytes_ok (buf w i).
Proof.
  intros Hs Hi. destruct (Hs i Hi) as (b & Hb & ? & ?). unfold buf. by rewrite Hb.
Qed.

Lemma stripe_dom m bs w : stripe m bs w → list_to_set (seqZ 0 m) ⊆ dom w.
Proof.
  intros Hs i Hi%elem_of_ids. destruct (Hs i Hi) as (b & Hb & _). by apply elem_of_dom_2 in Hb.
Qed.

Lemma stripe_insert m bs w i b :
  stripe m bs w → length b = bs → bytes_ok b → stripe m bs (<[i := b]> w).
Proof.
  intros Hst Hl Hb j Hj. destruct (decide (i = j)) as [->|].
  - rewrite lookup_insert_eq. eauto.
  - rewrite lookup_insert_ne by done. by apply Hst.
Qed.

Lemma elem_of_ids_where p m i : i ∈ ids_where p m ↔ 0 ≤ i < m ∧ p i = true.
Proof.
  unfold ids_where. rewrite elem_of_list_to_set, list_elem_of_filter, elem_of_seqZ_range.
  naive_solver lia.
Qed.

Lemma elem_of_foldl_difference (m : gset Z) l i :
  i ∈ foldl (λ m i, m ∖ {[i]}) m l ↔ i ∈ m ∧ i ∉ l.
Proof.
  revert m. induction l as [|x l IH]; intros m; cbn [foldl]; [set_solver|].
  rewrite IH. set_solver.
Qed.

Lemma touch_id w i : i ∈ dom w → touch w i = w.
Proof.
  intros [b Hb]%elem_of_dom. unfold touch, buf. rewrite Hb. by apply insert_id.
Qed.

Lemma foldl_touch_id w l : (∀ i, i ∈ l → i ∈ dom w) → foldl touch w l = w.
Proof.
  induction l as [|i l IH]; intros Hl; [done|]. simpl.
  rewrite touch_id by (apply Hl; left). apply IH. intros j ?. apply Hl. by right.
Qed.

(** ** Chunk numbering *)

(** What a routine left in the buffers of the chunks [ids], from their
    beginning on. *)
Definition store (w : gmap Z bytes) (ids : list Z) (bufs : list bytes) : gmap Z bytes :=
  foldl (λ w ib, <[ib.1 := ib.2 ++ drop (length ib.2) (buf w ib.1)]> w) w (zip ids bufs).

Lemma store_other w ids bufs i : i ∉ ids → store w ids bufs !! i = w !! i.
Proof.
  revert w bufs. induction ids as [|j ids IH]; intros w [|b bufs] Hi; try done.
  change (store w (j :: ids) (b :: bufs))
    with (store (<[j := b ++ drop (length b) (buf w j)]> w) ids bufs).
  rewrite IH by set_solver. apply lookup_insert_ne. set_solver.
Qed.

Lemma store_in bs w ids bufs p i b :
  NoDup ids → (∀ j, j ∈ ids → length (buf w j) = bs) → ids !! p = Some i → bufs !! p = Some b →
  length b = bs → store w ids bufs !! i = Some b.
Proof.
  revert w bufs p. induction ids as [|j ids IH]; intros w [|b' bufs] p Hnd Hw Hi Hb Hl; try done.
  apply NoDup_cons in Hnd as [Hj Hnd].
  change (store w (j :: ids) (b' :: bufs))
    with (store (<[j := b' ++ drop (length b') (buf w j)]> w) ids bufs).
  destruct p as [|p]; simplify_eq/=.
  - rewrite store_other by done. rewrite lookup_insert_eq. f_equal.
    rewrite drop_ge, app_nil_r; [done|]. rewrite (Hw i) by set_solver. lia.
  - apply (IH _ _ p); try done. intros l Hlin. rewrite buf_insert_ne by set_solver. apply Hw. by right.
Qed.

Lemma store_dom w ids bufs : (∀ i, i ∈ ids → i ∈ dom w) → dom (store w ids bufs) = dom w.
Proof.
  revert w bufs. induction ids as [|j ids IH]; intros w [|b bufs] Hi; try done.
  change (store w (j :: ids) (b :: bufs))
    with (store (<[j := b ++ drop (length b) (buf w j)]> w) ids bufs).
  rewrite IH, dom_insert_L; set_solver.
Qed.

Lemma missing_size (X : gset Z) n :
  X ⊆ list_to_set (seqZ 0 n) →
  size ((list_to_set (seqZ 0 n) : gset Z) ∖ X) = length (filter (λ i, i ∉ X) (seqZ 0 n)).
Proof.
  intros HX. rewrite <-(size_list_to_set (C := gset Z)) by (apply NoDup_filter, NoDup_seqZ).
  f_equal. apply set_eq. intros i.
  rewrite elem_of_difference, !elem_of_list_to_set, list_elem_of_filter. tauto.
Qed.

Section chunk_index.
Context (mapping : list Z) (n : Z) (Hmap : mapping_ok mapping n).

Lemma chunk_index_perm : chunk_index mapping <$> seqZ 0 n ≡ₚ seqZ 0 n.
Proof.
  destruct Hmap as [->|Hp].
  - assert (chunk_index [] <$> seqZ 0 n = seqZ 0 n) as ->; [|done].
    rewrite <-(list_fmap_id (seqZ 0 n)) at 2. apply list_fmap_ext.
    intros k i Hi%lookup_seqZ. unfold chunk_index; simpl.
    by rewrite bool_decide_false by lia.
  - rewrite <-Hp at 2. assert (chunk_index mapping <$> seqZ 0 n = mapping) as ->; [|done].
    pose proof (Permutation_length Hp) as Hlen. rewrite length_seqZ in Hlen.
    apply list_eq. intros i. rewrite list_lookup_fmap.
    destruct (decide (Z.of_nat i < n)) as [Hi|Hi].
    + rewrite lookup_seqZ_lt by lia. simpl. unfold chunk_index.
      rewrite bool_decide_true by lia. rewrite Z.add_0_l, Nat2Z.id.
      destruct (lookup_lt_is_Some_2 mapping i) as [x Hx]; [lia|]. by rewrite Hx.
    + rewrite lookup_seqZ_ge by lia. symmetry. apply lookup_ge_None. lia.
Qed.

Lemma chunk_index_range i : 0 ≤ i < n → 0 ≤ chunk_index mapping i < n.
Proof.
  intros Hi. assert (chunk_index mapping i ∈ seqZ 0 n) as Hin%elem_of_seqZ; [|lia].
  rewrite <-chunk_index_perm. apply list_elem_of_fmap_2, elem_of_seqZ. lia.
Qed.

Lemma chunk_index_inj i j :
  0 ≤ i < n → 0 ≤ j < n → chunk_index mapping i = chunk_index mapping j → i = j.
Proof.
  intros Hi Hj Heq.
  assert (NoDup (chunk_index mapping <$> seqZ 0 n)) as Hnd.
  { rewrite chunk_index_perm. apply NoDup_seqZ. }
  assert (∀ x, 0 ≤ x < n → (chunk_index mapping <$> seqZ 0 n) !! Z.to_nat x
    = Some (chunk_index mapping x)) as Hl.
  { intros x Hx. rewrite list_lookup_fmap, lookup_seqZ_lt by lia. simpl.
    by rewrite Z.add_0_l, Z2Nat.id by lia. }
  pose proof (Hl i Hi) as H1. rewrite Heq in H1.
  pose proof (NoDup_lookup _ _ _ _ Hnd H1 (Hl j Hj)). lia.
Qed.

Lemma chunk_index_surj j : 0 ≤ j < n → ∃ i, 0 ≤ i < n ∧ chunk_index mapping i = j.
Proof.
  intros Hj. assert (j ∈ chunk_index mapping <$> seqZ 0 n) as Hin.
  { rewrite chunk_index_perm. apply elem_of_seqZ. lia. }
  apply list_elem_of_fmap in Hin as (i & -> & Hi%elem_of_seqZ). exists i. split; [lia|done].
Qed.

End chunk_index.

Lemma positions_perm (p : Ascii.ascii → bool) s pos :
  positions p s pos ++ positions (λ a, negb (p a)) s pos
  ≡ₚ seqZ pos (Z.of_nat (String.length s)).
Proof.
  revert pos. induction s as [|a s IH]; intros pos; [done|].
  change (String.length (String a s)) with (S (String.length s)).
  rewrite seqZ_cons by lia.
  replace (Z.pred (Z.of_nat (S (String.length s)))) with (Z.of_nat (String.length s)) by lia.
  rewrite <-IH. simpl. destruct (p a); simpl; [done|]. symmetry.
  apply Permutation_middle.
Qed.

(** A mapping string numbers every chunk exactly once. *)
Lemma mapping_positions_perm s :
  mapping_positions s ≡ₚ seqZ 0 (Z.of_nat (String.length s)).
Proof. apply positions_perm. Qed.

(** ** Preparing a stripe *)

(** Data chunk [i]: block [i] of the object padded with zeros. *)
Definition data_chunk (k bs : Z) (raw : bytes) (i : Z) : bytes :=
  substr (raw ++ zeros (Z.to_nat (k * bs - blen raw))) (i * bs) bs.

Lemma blen_padded k bs raw :
  blen raw ≤ k * bs → blen (raw ++ zeros (Z.to_nat (k * bs - blen raw))) = k * bs.
Proof. unfold blen. intros. rewrite length_app, length_zeros. lia. Qed.

Lemma length_data_chunk k bs raw i :
  0 ≤ bs → 0 ≤ i < k → blen raw ≤ k * bs → length (data_chunk k bs raw i) = Z.to_nat bs.
Proof.
  intros. apply length_substr; [lia..|]. rewrite blen_padded by lia. nia.
Qed.

Lemma concat_data_chunks k bs raw :
  0 ≤ k → 0 ≤ bs → blen raw ≤ k * bs →
  concat (data_chunk k bs raw <$> seqZ 0 k) = raw ++ zeros (Z.to_nat (k * bs - blen raw)).
Proof.
  intros. unfold data_chunk. rewrite concat_blocks; [|done..|by rewrite blen_padded].
  apply take_ge. pose proof (blen_padded k bs raw). unfold blen in *. lia.
Qed.

(** The chunk in the middle of which the object ends. *)
Lemma data_chunk_tail k bs raw :
  0 < bs → blen raw / bs < k → blen raw ≤ k * bs →
  data_chunk k bs raw (blen raw / bs)
  = substr raw (blen raw / bs * bs) (blen raw - blen raw / bs * bs)
    ++ zeros (Z.to_nat (bs - (blen raw - blen raw / bs * bs))).
Proof.
  intros Hbs HF Hle. unfold data_chunk, substr.
  pose proof (Z.div_mod (blen raw) bs ltac:(lia)).
  pose proof (Z.mod_pos_bound (blen raw) bs ltac:(lia)).
  set (F := blen raw / bs) in *. assert (0 ≤ F) by (apply Z.div_pos; unfold blen; lia).
  rewrite drop_app_le, take_app_ge by (rewrite ?length_drop; unfold blen in *; lia).
  rewrite length_drop. rewrite (take_ge (drop _ _)) by (rewrite length_drop; unfold blen in *; lia).
  f_equal. unfold zeros. rewrite take_replicate. f_equal. unfold blen in *. nia.
Qed.

Lemma data_chunk_pad k bs raw i :
  0 < bs → blen raw / bs < i < k → blen raw ≤ k * bs →
  data_chunk k bs raw i = zeros (Z.to_nat bs).
Proof.
  intros Hbs Hi Hle. unfold data_chunk, substr.
  pose proof (Z.div_mod (blen raw) bs ltac:(lia)).
  pose proof (Z.mod_pos_bound (blen raw) bs ltac:(lia)).
  assert (blen raw ≤ i * bs) by nia.
  rewrite drop_app_ge by (unfold blen in *; lia).
  unfold zeros. rewrite drop_replicate, take_replicate. f_equal. unfold blen in *. nia.
Qed.

(** Objects of up to [MAX_OBJECT] bytes stay clear of 32-bit overflow. *)
Definition MAX_OBJECT : Z := 2 ^ 32 - 2 ^ 13.

(** The chunk size of the plugins: the object divided by [k], rounded up to a
    multiple of the alignment. *)
Lemma padded_chunk k al len :
  0 < k → 0 < al → 0 < len → len + k * al ≤ 2 ^ 32 →
  let c := (len + k - 1) / k in
  let bs := if bool_decide (c mod al ≠ 0) then u32 (c + al - c mod al) else c in
  0 < bs ∧ bs mod al = 0 ∧ len ≤ k * bs < 2 ^ 32.
Proof.
  intros Hk Hal Hlen Hmax. simpl. set (c := (len + k - 1) / k).
  assert (len ≤ k * c ≤ len + k - 1) as Hc.
  { pose proof (Z.div_mod (len + k - 1) k ltac:(lia)).
    pose proof (Z.mod_pos_bound (len + k - 1) k ltac:(lia)). unfold c. lia. }
  assert (0 < c) by nia.
  pose proof (Z.div_mod c al ltac:(lia)) as Hdm.
  pose proof (Z.mod_pos_bound c al ltac:(lia)) as Hm.
  case_bool_decide as Hmod.
  - assert (k * (c + al - c mod al) < 2 ^ 32) by nia. rewrite u32_small by nia.
    split; [lia|]. split; [|nia].
    replace (c + al - c mod al) with ((c / al + 1) * al) by lia. apply Z_mod_mult.
  - split; [done|]. split; [lia|]. nia.
Qed.

Lemma bool_decide_ext_iff_if {A} (P Q : Prop) `{Decision P, Decision Q} (x y : A) :
  (P ↔ Q) →
  (if bool_decide P then x else y) = (if bool_decide Q then x else y).
Proof. intros HPQ. by rewrite (bool_decide_ext P Q HPQ). Qed.

Section encode_prepare.
Context `{AllocatorSpec} (c : Codec).
#[local] Abbreviation n := (get_chunk_count c).
#[local] Abbreviation k := (get_data_chunk_count c).
#[local] Abbreviation idx := (chunk_index (chunk_mapping c)).
Context (Hmap : mapping_ok (chunk_mapping c) n) (Hk : 0 < k ≤ n) (Hn : n < 2 ^ 32).
Context (raw : bytes) (bs : Z).

(** What [encode_prepare] leaves for position [i]. *)
Definition prepared_chunk (i : Z) : bytes :=
  if bool_decide (i < k) then data_chunk k bs raw i else create_aligned (idx i) bs.

(** The positions [l] are filled, the others are still absent. *)
Definition filled (l : list Z) (enc : gmap Z bytes) : Prop :=
  (∀ i, 0 ≤ i < n → enc !! idx i
     = if bool_decide (i ∈ l) then Some (prepared_chunk i) else None)
  ∧ (∀ j, ¬ (0 ≤ j < n) → enc !! j = None).

Lemma filled_empty : filled [] ∅.
Proof. split; intros; by rewrite ?lookup_empty. Qed.

Lemma filled_insert l enc x :
  filled l enc → 0 ≤ x < n → filled (l ++ [x]) (<[idx x := prepared_chunk x]> enc).
Proof.
  intros [Hin Hout] Hx. split.
  - intros i Hi. destruct (decide (x = i)) as [<-|Hne].
    + rewrite lookup_insert_eq, bool_decide_true; [done|].
      apply elem_of_app. right. by apply list_elem_of_singleton.
    + rewrite lookup_insert_ne, Hin by
        (try intros ?%(chunk_index_inj _ n Hmap); (done || lia)).
      apply bool_decide_ext_iff_if. rewrite elem_of_app, list_elem_of_singleton.
      split; [by left|]. by intros [?|?].
  - intros j Hj. rewrite lookup_insert_ne; [by apply Hout|].
    intros <-. apply Hj, (chunk_index_range _ n Hmap); lia.
Qed.

Lemma filled_push l enc x b :
  filled l enc → 0 ≤ x < n → x ∉ l → b = prepared_chunk x →
  filled (l ++ [x]) (push_back (idx x) b enc).
Proof.
  intros Hf Hx Hnl ->. unfold push_back, buf.
  rewrite (proj1 Hf) by done. rewrite bool_decide_false by done. simpl.
  by apply filled_insert.
Qed.

Lemma filled_pushes (f : Z → bytes) l l2 enc :
  filled l enc → NoDup (l ++ l2) →
  (∀ x, x ∈ l2 → 0 ≤ x < n ∧ f x = prepared_chunk x) →
  filled (l ++ l2) (foldl (λ enc i, push_back (idx i) (f i) enc) enc l2).
Proof.
  revert l enc. induction l2 as [|x l2 IH]; intros l enc Hf Hnd Hl2; simpl.
  - by rewrite app_nil_r.
  - replace (l ++ x :: l2) with ((l ++ [x]) ++ l2) by (by rewrite <-app_assoc).
    destruct (Hl2 x) as [Hx Hfx]; [left|].
    apply IH.
    + apply filled_push; [done..| |done].
      apply NoDup_app in Hnd as (_ & Hd & _). intros Hin. apply (Hd x Hin). left.
    + by rewrite <-app_assoc.
    + intros y Hy. apply Hl2. by right.
Qed.

Lemma filled_loop l enc :
  filled [] enc → NoDup l →
  (∀ x, x ∈ l → 0 ≤ x < blen raw / bs) → 0 < bs → blen raw / bs ≤ k →
  ∃ enc', foldM (λ enc i,
      chunk ← substr_of raw (i * bs) bs; Ret (<[idx i := chunk]> enc)) enc l = Ret enc'
    ∧ filled l enc'.
Proof.
  intros Hf Hnd Hl Hbs HF. apply foldM_inv; [done|].
  intros l1 x l2 s -> Hs. destruct (Hl x) as [Hx0 HxF];
    [by apply elem_of_app; right; left|].
  pose proof (Z.div_mod (blen raw) bs ltac:(lia)).
  pose proof (Z.mod_pos_bound (blen raw) bs ltac:(lia)).
  unfold substr_of. rewrite bool_decide_true by nia. simpl. eexists. split; [done|].
  replace (substr raw (x * bs) bs) with (prepared_chunk x).
  { apply filled_insert; [done|lia]. }
  unfold prepared_chunk. rewrite bool_decide_true by lia.
  apply substr_app_l; nia.
Qed.

(** On an object that fits in [k] chunks of [bs] bytes, the chunks are the
    blocks of the zero-padded object at the data positions, and fresh memory
    at the coding positions. *)
Lemma encode_prepare_spec :
  get_chunk_size c (blen raw) = Ret bs → 0 < bs → blen raw ≤ k * bs < 2 ^ 32 →
  ∃ enc, encode_prepare c raw ∅ = Ret (0, enc) ∧ filled (seqZ 0 n) enc.
Proof.
  intros Hsize Hbs Hlen. unfold encode_prepare. rewrite Hsize. simpl.
  rewrite bool_decide_false by lia.
  pose proof (Z.div_mod (blen raw) bs ltac:(lia)).
  pose proof (Z.mod_pos_bound (blen raw) bs ltac:(lia)).
  assert (0 ≤ blen raw / bs ≤ k) as HF.
  { split; [apply Z.div_pos; unfold blen; lia|]. nia. }
  set (F := blen raw / bs) in *.
  rewrite (u32_small (k - F)) by lia.
  rewrite (u32_small (k - (k - F))) by lia.
  replace (k - (k - F)) with F by lia.
  destruct (filled_loop (seqZ 0 F) ∅) as (enc1 & -> & Hf1);
    [apply filled_empty|apply NoDup_seqZ| |done|lia|].
  { intros x Hx%elem_of_seqZ. fold F. lia. }
  simpl. eexists. split; [done|].
  rewrite (seqZ_split k n) by lia.
  apply filled_pushes; [|rewrite <-seqZ_split by lia; apply NoDup_seqZ|].
  2:{ intros x Hx%elem_of_seqZ. split; [lia|]. unfold prepared_chunk.
      by rewrite bool_decide_false by lia. }
  case_bool_decide as Hpad.
  { by replace (seqZ 0 k) with (seqZ 0 F) by (f_equal; lia). }
  assert (seqZ 0 k = (seqZ 0 F ++ [F]) ++ seqZ (F + 1) (k - F - 1)) as Hk'.
  { rewrite <-seqZ_app_snoc, (seqZ_split (F + 1) k) by lia. do 2 f_equal. lia. }
  rewrite Hk'.
  rewrite (u32_small (blen raw - F * bs)) by nia.
  apply filled_pushes.
  - apply filled_push; [done|lia|rewrite elem_of_seqZ; lia|].
    unfold prepared_chunk. rewrite bool_decide_true by lia.
    symmetry. apply data_chunk_tail; lia.
  - rewrite <-Hk'. apply NoDup_seqZ.
  - intros x Hx%elem_of_seqZ. split; [lia|]. unfold prepared_chunk.
    rewrite bool_decide_true by lia. symmetry. apply data_chunk_pad; unfold F in *; lia.
Qed.

End encode_prepare.

(** ** Encoding and decoding a stripe *)

Lemma decode_fill_lookup `{Allocator} (chunks dec : gmap Z bytes) bs (l : list Z) i :
  NoDup l → (∀ x, x ∈ l → dec !! x = None) →
  foldl (λ dec i,
    match chunks !! i with
    | None => <[i := create_aligned i bs ++ buf dec i]> dec
    | Some b => <[i := b]> dec
    end) dec l !! i
  = if bool_decide (i ∈ l) then
      Some (default (create_aligned i bs) (chunks !! i)) else dec !! i.
Proof.
  revert dec. induction l as [|x l IH]; intros dec Hnd Hnone.
  { by rewrite bool_decide_false by apply not_elem_of_nil. }
  cbn [foldl].
  apply NoDup_cons in Hnd as [Hx Hnd].
  set (dec' := match chunks !! x with None => _ | Some _ => _ end).
  assert (dec' = <[x := default (create_aligned x bs) (chunks !! x)]> dec) as ->.
  { unfold dec', buf. destruct (chunks !! x); simpl; [done|].
    rewrite Hnone by set_solver. simpl. by rewrite app_nil_r. }
  rewrite IH; [|done|].
  - destruct (decide (x = i)) as [->|Hne].
    + rewrite lookup_insert_eq. rewrite bool_decide_false by done.
      by rewrite bool_decide_true by set_solver.
    + rewrite lookup_insert_ne by done. apply bool_decide_ext_iff_if. set_solver.
  - intros y Hy. rewrite lookup_insert_ne by congruence. apply Hnone. set_solver.
Qed.

Lemma decode_copy_lookup (chunks dec : gmap Z bytes) (l : list Z) i :
  i ∈ l → foldl (λ dec i, <[i := buf chunks i]> dec) dec l !! i = Some (buf chunks i).
Proof.
  revert dec. induction l as [|x l IH] using rev_ind; intros dec Hi;
    [by apply not_elem_of_nil in Hi|].
  rewrite foldl_app; simpl. destruct (decide (x = i)) as [->|];
    [apply lookup_insert_eq|].
  rewrite lookup_insert_ne by done. apply IH. set_solver.
Qed.

Lemma map_first_Some {A} (m : gmap Z A) :
  m ≠ ∅ → ∃ i a, map_first m = Some a ∧ m !! i = Some a.
Proof.
  intros Hm. unfold map_first. destruct (ascending (dom m)) as [|i l] eqn:E.
  - apply ascending_empty in E. by apply dom_empty_inv_L in E.
  - assert (i ∈ dom m) as [a Ha]%elem_of_dom.
    { apply elem_of_ascending. rewrite E. left. }
    eauto.
Qed.

Lemma claim_entries (dm : gmap Z bytes) l out :
  NoDup l → (foldl claim_entry (out, dm) l).1 = out ++ concat (buf dm <$> l).
Proof.
  revert out dm. induction l as [|i l IH]; intros out dm Hnd; cbn [foldl]; [by rewrite app_nil_r|].
  apply NoDup_cons in Hnd as [Hi Hnd]. cbn [claim_entry]. rewrite IH by done. cbn. rewrite <-app_assoc. do 3 f_equal.
  apply list_fmap_ext. intros p j Hj%list_elem_of_lookup_2. apply buf_insert_ne. by intros ->.
Qed.

Section codec.
Context `{AllocatorSpec} (c : Codec) (max_len : Z) (sizes : nat → Prop).
Context (codeword : nat → gmap Z bytes → Prop) (recoverable : gset Z → gset Z → Prop).
Context `{HC : !CodecSpec c max_len sizes codeword recoverable}.
#[local] Abbreviation n := (get_chunk_count c).
#[local] Abbreviation k := (get_data_chunk_count c).
#[local] Abbreviation idx := (chunk_index (chunk_mapping c)).

(** The positions of the data chunks. *)
Definition data_positions : gset Z := list_to_set (idx <$> seqZ 0 k).

Lemma filled_stripe raw bs enc :
  bytes_ok raw → 0 ≤ bs → blen raw ≤ k * bs → filled c raw bs (seqZ 0 n) enc →
  stripe n (Z.to_nat bs) enc ∧ dom enc = list_to_set (seqZ 0 n).
Proof.
  intros Hok Hbs Hle [Hin Hout].
  pose proof (codec_counts (c:=c)). pose proof (codec_mapping (c:=c)) as Hmap.
  assert (∀ i, 0 ≤ i < n → enc !! idx i = Some (prepared_chunk c raw bs i)) as Hall.
  { intros i Hi. rewrite Hin by done.
    by rewrite bool_decide_true by (apply elem_of_seqZ; lia). }
  split.
  - intros j Hj. destruct (chunk_index_surj _ n Hmap j Hj) as (i & Hi & <-).
    eexists. split; [by apply Hall|]. unfold prepared_chunk.
    case_bool_decide.
    + split; [by apply length_data_chunk; lia|].
      apply bytes_ok_substr, Forall_app. split; [done|apply bytes_ok_zeros].
    + pose proof (create_aligned_len (chunk_index (chunk_mapping c) i) bs Hbs).
      split; [unfold blen in *; lia|apply create_aligned_ok].
  - apply set_eq. intros j. rewrite elem_of_dom, elem_of_list_to_set, elem_of_seqZ.
    destruct (decide (0 ≤ j < n)) as [Hj|Hj].
    + destruct (chunk_index_surj _ n Hmap j Hj) as (i & Hi & <-).
      rewrite Hall by done. split; [lia|by eexists].
    + rewrite Hout by done. split; [by intros []|lia].
Qed.

(** The chunks that nobody asked for are dropped. *)
Lemma drop_unwanted_lookup (want : gset Z) (l : list Z) (enc : gmap Z bytes) i :
  foldl (λ enc i, if bool_decide (i ∈ want) then enc else delete i enc) enc l !! i
  = if bool_decide (i ∈ l ∧ i ∉ want) then None else enc !! i.
Proof.
  revert enc. induction l as [|x l IH]; intros enc.
  - rewrite bool_decide_false; [done|]. by intros [?%not_elem_of_nil _].
  - cbn [foldl]. rewrite IH. destruct (decide (x ∈ want)) as [Hx|Hx].
    + rewrite (bool_decide_true _ Hx). apply bool_decide_ext_iff_if. set_solver.
    + rewrite (bool_decide_false _ Hx). destruct (decide (x = i)) as [->|].
      * rewrite lookup_delete_eq, (bool_decide_true (i ∈ i :: l ∧ _)) by set_solver.
        by case_bool_decide.
      * rewrite lookup_delete_ne by done. apply bool_decide_ext_iff_if. set_solver.
Qed.

(** [encode] yields the wanted chunks of a codeword whose data chunks are the
    blocks of the zero-padded object. *)
Lemma encode_spec want raw :
  list_to_set (seqZ 0 n) ⊆ want → bytes_ok raw → 0 < blen raw ≤ max_len →
  ∃ enc bs w, encode c want raw ∅ = Ret (0, enc)
    ∧ get_chunk_size c (blen raw) = Ret bs ∧ 0 < bs ∧ blen raw ≤ k * bs
    ∧ codeword (Z.to_nat bs) w ∧ dom w = list_to_set (seqZ 0 n)
    ∧ (∀ i, 0 ≤ i < k → w !! idx i = Some (data_chunk k bs raw i))
    ∧ (∀ i, enc !! i = if bool_decide (i ∈ want) then w !! i else None).
Proof.
  intros Hwant Hok Hlen. pose proof (codec_counts (c:=c)).
  pose proof (codec_counts_u32 (c:=c)). pose proof (codec_mapping (c:=c)) as Hmap.
  destruct (codec_chunk_size (blen raw) Hlen) as (bs & Hsize & Hbs & Hle & Hsz).
  destruct (encode_prepare_spec c Hmap ltac:(done) ltac:(done) raw bs)
    as (enc & Hprep & Hf); [done..|].
  destruct (filled_stripe raw bs enc) as [Hst Hdom]; [done|lia|lia|done|].
  destruct (codec_encode want enc (Z.to_nat bs)) as (w & Henc & Hdw & Hcw & Hdata);
    [done|done|lia|done|done|].
  unfold encode. rewrite Hprep. simpl. rewrite Henc. simpl.
  eexists _, bs, w. split; [done|].
  split_and!; [done|done|lia|done|congruence| |].
  - intros i Hi. rewrite Hdata by done.
    destruct Hf as [Hf _]. rewrite Hf by lia.
    rewrite bool_decide_true by (apply elem_of_seqZ; lia).
    unfold prepared_chunk. by rewrite bool_decide_true by lia.
  - intros i. rewrite drop_unwanted_lookup.
    assert (i ∉ seqZ 0 n → w !! i = None) as Hnone.
    { intros Hi. apply not_elem_of_dom. rewrite Hdw, Hdom. set_solver. }
    repeat case_bool_decide; try done; [naive_solver|]. apply Hnone. naive_solver.
Qed.

(** [decode] restores every wanted chunk of a codeword that is present or
    recoverable. *)
Lemma decode_spec want chunks w bs :
  codeword bs w → (0 < bs)%nat → chunks ⊆ w → chunks ≠ ∅ →
  want ⊆ list_to_set (seqZ 0 n) → dom chunks ⊆ list_to_set (seqZ 0 n) →
  want ⊆ dom chunks ∨ recoverable (dom chunks) want →
  ∃ dec, decode c want chunks ∅ = Ret (0, dec) ∧ ∀ i, i ∈ want → dec !! i = w !! i.
Proof.
  intros Hcw Hbs Hsub Hne Hwant Hdom Hrec. unfold decode. case_bool_decide as Hall.
  { eexists. split; [done|]. intros i Hi.
    rewrite decode_copy_lookup by (by apply elem_of_ascending).
    apply Hall, elem_of_dom in Hi as [b Hb]. unfold buf. rewrite Hb. simpl.
    symmetry. by eapply lookup_weaken. }
  destruct Hrec as [?|Hrec]; [done|].
  destruct (map_first_Some chunks Hne) as (i0 & b0 & Hb0 & Hi0). rewrite Hb0. simpl.
  pose proof (codec_codeword bs w Hcw) as Hst.
  assert (blen b0 = Z.of_nat bs) as Hlen0.
  { destruct (Hst i0) as (b & Hb & Hl & _).
    - apply (elem_of_dom_2 chunks), Hdom in Hi0. set_solver.
    - rewrite (lookup_weaken _ _ _ _ Hi0 Hsub) in Hb. unfold blen. naive_solver lia. }
  rewrite Hlen0. eapply codec_decode; [done..| | |done|done].
  - intros i Hi. eexists.
    rewrite decode_fill_lookup by (by try apply NoDup_seqZ; intros; apply lookup_empty).
    rewrite bool_decide_true by (apply elem_of_seqZ; lia).
    split; [done|]. destruct (chunks !! i) as [b|] eqn:Hb; simpl.
    + destruct (Hst i Hi) as (b' & Hb' & Hl & Hok).
      rewrite (lookup_weaken _ _ _ _ Hb Hsub) in Hb'. naive_solver.
    + pose proof (create_aligned_len i (Z.of_nat bs)). unfold blen in *.
      split; [lia|apply create_aligned_ok].
  - apply map_subseteq_spec. intros i b Hb.
    rewrite decode_fill_lookup by (by try apply NoDup_seqZ; intros; apply lookup_empty).
    rewrite bool_decide_true.
    + by rewrite Hb.
    + apply (elem_of_dom_2 chunks), Hdom in Hb. set_solver.
Qed.

Lemma decode_concat_spec chunks w bs :
  codeword bs w → (0 < bs)%nat → chunks ⊆ w → chunks ≠ ∅ →
  dom chunks ⊆ list_to_set (seqZ 0 n) →
  data_positions ⊆ dom chunks ∨ recoverable (dom chunks) data_positions →
  decode_concat c chunks = Ret (0, concat ((λ i, buf w (idx i)) <$> seqZ 0 k)).
Proof.
  intros Hcw Hbs Hsub Hne Hdom Hrec. unfold decode_concat.
  pose proof (codec_counts (c:=c)). pose proof (codec_mapping (c:=c)) as Hmap.
  destruct (decode_spec data_positions chunks w bs) as (dec & Hdec & Hw); [done..| |done|done|].
  { intros j Hj. unfold data_positions in Hj.
    apply elem_of_list_to_set, list_elem_of_fmap in Hj as (i & -> & Hi%elem_of_seqZ).
    apply elem_of_list_to_set, elem_of_seqZ.
    pose proof (chunk_index_range _ n Hmap i). lia. }
  unfold data_positions in Hdec. rewrite Hdec. cbn [mbind outcome_bind]. rewrite (bool_decide_true (0 = 0)) by done.
  rewrite claim_entries.
  2: { apply NoDup_fmap_2_strong; [|apply NoDup_seqZ]. intros i j Hi%elem_of_seqZ Hj%elem_of_seqZ. apply (chunk_index_inj _ n Hmap); lia. }
  rewrite <-list_fmap_compose. cbn [app]. do 3 f_equal.
  apply list_fmap_ext. intros p i Hi%lookup_seqZ. cbn. unfold buf. rewrite Hw; [done|].
  unfold data_positions. apply elem_of_list_to_set, list_elem_of_fmap_2, elem_of_seqZ. lia.
Qed.

End codec.

(** Round trip through a stripe, for every plugin that satisfies
    [CodecSpec]: an object is encoded into all the chunks of a stripe, and
    from any non-empty part of them that contains the data chunks or from
    which the plugin can recover them, [decode_concat] returns the object
    followed by its zero padding. *)
Lemma decode_concat_encode `{AllocatorSpec} c max_len sizes codeword recoverable raw :
  CodecSpec c max_len sizes codeword recoverable →
  bytes_ok raw → 0 < blen raw ≤ max_len →
  ∃ enc bs, encode c (list_to_set (seqZ 0 (get_chunk_count c))) raw ∅ = Ret (0, enc)
    ∧ get_chunk_size c (blen raw) = Ret bs
    ∧ dom enc = list_to_set (seqZ 0 (get_chunk_count c))
    ∧ ∀ chunks, chunks ⊆ enc → chunks ≠ ∅ →
        data_positions c ⊆ dom chunks ∨ recoverable (dom chunks) (data_positions c) →
        decode_concat c chunks
        = Ret (0, raw ++ zeros (Z.to_nat (get_data_chunk_count c * bs - blen raw))).
Proof.
  intros HC Hok Hlen. pose proof (codec_counts (c:=c)).
  destruct (encode_spec c max_len sizes codeword recoverable
    (list_to_set (seqZ 0 (get_chunk_count c))) raw ltac:(done) Hok Hlen)
    as (enc & bs & w & Henc & Hsize & Hbs & Hle & Hcw & Hdw & Hdata & Hlook).
  assert (enc = w) as ->.
  { apply map_eq. intros i. rewrite Hlook. case_bool_decide as Hi; [done|].
    symmetry. apply not_elem_of_dom. by rewrite Hdw. }
  exists w, bs. split_and!; [done..|]. intros chunks Hsub Hne Hrec.
  rewrite (decode_concat_spec c max_len sizes codeword recoverable chunks w (Z.to_nat bs));
    [|done|lia|done|done|rewrite <-Hdw; by apply subseteq_dom|done].
  do 2 f_equal. rewrite <-concat_data_chunks by lia. f_equal.
  apply list_fmap_ext. intros p i Hi%lookup_seqZ. unfold buf.
  by rewrite Hdata by lia.
Qed.

(** ** Concrete memory and data *)

(** Memory that holds 0xAA. *)
#[export] Instance pattern_allocator : Allocator := {|
  create_aligned _ len := replicate (Z.to_nat len) 170
|}.
#[export] Instance pattern_allocator_spec : AllocatorSpec.
Proof.
  split; simpl; intros.
  - unfold blen. rewrite length_replicate. lia.
  - apply Forall_replicate. unfold byte_ok. lia.
Qed.

(** The object of the examples: 10 bytes. *)
Definition sample : bytes := [1; 2; 3; 4; 5; 6; 7; 8; 9; 255].
Lemma sample_ok : bytes_ok sample.
Proof. unfold sample. repeat (constructor; [unfold byte_ok; lia|]). constructor. Qed.

(** The chunks of a stripe whose numbers are in [ids]. *)
Definition select (ids : gset Z) (w : gmap Z bytes) : gmap Z bytes :=
  filter (λ p, p.1 ∈ ids) w.

Lemma select_subseteq ids w : select ids w ⊆ w.
Proof. apply map_filter_subseteq. Qed.

Lemma dom_select ids w : ids ⊆ dom w → dom (select ids w) = ids.
Proof.
  intros Hsub. apply set_eq. intros i. rewrite elem_of_dom. unfold select. split.
  - intros [b [_ ?]%map_lookup_filter_Some]. done.
  - intros Hi. destruct (proj1 (elem_of_dom w i)) as [b Hb]; [set_solver|].
    exists b. by apply map_lookup_filter_Some.
Qed.

(** [stripe] by computation. *)
Definition stripe_check (n : Z) (bs : nat) (w : gmap Z bytes) : bool :=
  forallb (λ i, match w !! i with
                | Some b => bool_decide (length b = bs) && forallb (λ x, bool_decide (0 ≤ x < 256)) b
                | None => false
                end) (seqZ 0 n).

Lemma stripe_check_ok n bs w : stripe_check n bs w = true → stripe n bs w.
Proof.
  intros Hc i Hi. pose proof (forallb_range _ n i Hc Hi) as Hb. simpl in Hb.
  destruct (w !! i) as [b|]; [|done]. apply andb_true_iff in Hb as [Hl%bool_decide_eq_true Hb].
  exists b. split_and!; [done..|]. apply Forall_forall. intros x Hx.
  rewrite forallb_forall in Hb. apply list_elem_of_In, Hb in Hx.
  by apply bool_decide_eq_true in Hx.
Qed.

Lemma ascending_take_lt (s : gset Z) j x y :
  x ∈ take j (ascending s) → y ∈ s → y ∉ take j (ascending s) → x < y.
Proof.
  intros Hx Hy Hny. rewrite <-elem_of_ascending, <-(take_drop j (ascending s)) in Hy.
  apply elem_of_app in Hy as [?|Hy]; [done|].
  pose proof (Sorted_ascending s) as Hs. apply Sorted_StronglySorted in Hs; [|intros ?; lia].
  rewrite <-(take_drop j (ascending s)) in Hs.
  pose proof (StronglySorted_app_1_elem_of _ _ _ _ _ Hs Hx Hy).
  enough (x ≠ y) by lia. intros ->.
  pose proof (NoDup_ascending s) as Hnd. rewrite <-(take_drop j (ascending s)) in Hnd.
  apply NoDup_app in Hnd as (_ & Hd & _). by apply (Hd y).
Qed.

(** The default [minimum_to_decode], on every branch: when the wanted
    chunks are available they are the answer; otherwise, with at least [k]
    chunks available it asks for the [k] lowest-numbered available chunks,
    beside what [minimum] already held; with fewer it returns [-EIO] and
    leaves [minimum] alone. *)
Theorem minimum_to_decode_spec k want avail minimum :
  0 ≤ k →
  match minimum_to_decode k want avail minimum with
  | (err, result) =>
      (want ⊆ avail ∧ err = 0 ∧ result = want)
      ∨ (¬ want ⊆ avail ∧ k ≤ Z.of_nat (size avail) ∧ err = 0
         ∧ ∃ low : gset Z, result = minimum ∪ low ∧ low ⊆ avail
             ∧ Z.of_nat (size low) = k
             ∧ ∀ x y, x ∈ low → y ∈ avail → y ∉ low → x < y)
      ∨ (¬ want ⊆ avail ∧ Z.of_nat (size avail) < k ∧ err = - EIO ∧ result = minimum)
  end.
Proof.
  intros Hk. unfold minimum_to_decode.
  case_bool_decide as Hw; cbv iota; [by left|].
  case_bool_decide as Hs; cbv iota; [by do 2 right|]. right; left.
  split_and!; [done|lia|done|].
  eexists. split; [done|]. split_and!.
  - intros x Hx%elem_of_list_to_set%elem_of_take.
    destruct Hx as (i & Hi & _). apply elem_of_ascending. by eapply list_elem_of_lookup_2.
  - rewrite size_list_to_set.
    + rewrite length_take, length_ascending. lia.
    + pose proof (NoDup_ascending avail) as Hnd.
      rewrite <-(take_drop (Z.to_nat k) (ascending avail)) in Hnd.
      by apply NoDup_app in Hnd as (? & _).
  - intros x y Hx Hy Hny. rewrite elem_of_list_to_set in Hx, Hny.
    by eapply ascending_take_lt.
Qed.

Lemma minimum_to_decode_spec_witness :
  0 ≤ 2 ∧ minimum_to_decode 2 {[0]} {[1; 2; 3]} ∅ = (0, {[1; 2]})
  ∧ ∃ err result, minimum_to_decode 2 {[0]} {[1; 2; 3]} ∅ = (err, result) ∧ err = 0.
Proof.
  split; [lia|]. split; [by vm_compute|].
  pose proof (minimum_to_decode_spec 2 {[0]} {[1; 2; 3]} ∅ ltac:(lia)) as H.
  destruct (minimum_to_decode 2 {[0]} {[1; 2; 3]} ∅) as [err result] eqn:E.
  exists err, result. split; [done|]. vm_compute in E. by injection E as <- _.
Defined.
