(* ===== verification/Crc32c.v ===== *)
(** * CRC32C

    src/src/common/sctp_crc32.c (slicing by 8), crc32c_intel_baseline.c (one
    table), crc32c_intel_fast.c, and crc32c.cc with include/crc32c.h (runs of
    zeros by repeated squaring). The reference is division by the polynomial,
    bit by bit. *)

From S2P Require Import Prelude Crc32cTables.

(** ** The reference *)

(** The polynomial 0x1EDC6F41, reflected. *)
Definition CRC32C_POLY : Z := 0x82F63B78.

Definition crc_bit (c : Z) : Z :=
  Z.lxor (Z.shiftr c 1) (if Z.odd c then CRC32C_POLY else 0).

Definition crc_bits (n : nat) (c : Z) : Z := Nat.iter n crc_bit c.

Definition crc_byte (c b : Z) : Z := crc_bits 8 (Z.lxor c b).

#[global] Arguments crc_bits : simpl never.
#[global] Arguments crc_byte : simpl never.

Definition crc_bytes (c : Z) (bs : bytes) : Z := foldl crc_byte c bs.

(** ** The routines *)

(** An element of a table. The index is below the size. *)
Definition tab (t : list Z) (i : Z) : Z := default 0 (t !! Z.to_nat i).

(** A buffer: its address and its bytes, or the null pointer. *)
Abbreviation buffer_ptr := (option (Z * bytes)).

Section sctp.

(** [crc = sctp_crc_tableil8_o32[(crc ^ *p_buf++) & 0xFF] ^ (crc >> 8)], [n]
    times; the bytes that are left. *)
Fixpoint byte_loop (n : nat) (crc : Z) (p_buf : bytes) : outcome (Z * bytes) :=
  match n, p_buf with
  | O, _ => Ret (crc, p_buf)
  | S n, [] => Abort OutOfBounds
  | S n, b :: p_buf =>
      byte_loop n (Z.lxor (tab sctp_crc_tableil8_o32 (Z.land (Z.lxor crc b) 0xFF)) (Z.shiftr crc 8)) p_buf
  end.

(** [*(uint32_t * ) p_buf], little endian. *)
Definition le32 (b0 b1 b2 b3 : Z) : Z :=
  Z.lor b0 (Z.lor (Z.shiftl b1 8) (Z.lor (Z.shiftl b2 16) (Z.shiftl b3 24))).

Definition slice8 (crc word1 word2 : Z) : Z :=
  let crc := Z.lxor crc word1 in
  let term1 := Z.lxor (tab sctp_crc_tableil8_o88 (Z.land crc 0xFF))
                 (tab sctp_crc_tableil8_o80 (Z.land (Z.shiftr crc 8) 0xFF)) in
  let term2 := Z.shiftr crc 16 in
  let crc := Z.lxor (Z.lxor term1 (tab sctp_crc_tableil8_o72 (Z.land term2 0xFF)))
               (tab sctp_crc_tableil8_o64 (Z.land (Z.shiftr term2 8) 0xFF)) in
  let term1 := Z.lxor (tab sctp_crc_tableil8_o56 (Z.land word2 0xFF))
                 (tab sctp_crc_tableil8_o48 (Z.land (Z.shiftr word2 8) 0xFF)) in
  let term2 := Z.shiftr word2 16 in
  Z.lxor (Z.lxor (Z.lxor crc term1) (tab sctp_crc_tableil8_o40 (Z.land term2 0xFF)))
    (tab sctp_crc_tableil8_o32 (Z.land (Z.shiftr term2 8) 0xFF)).

Fixpoint word_loop (n : nat) (crc : Z) (p_buf : bytes) : outcome (Z * bytes) :=
  match n, p_buf with
  | O, _ => Ret (crc, p_buf)
  | S n, b0 :: b1 :: b2 :: b3 :: b4 :: b5 :: b6 :: b7 :: p_buf =>
      word_loop n (slice8 crc (le32 b0 b1 b2 b3) (le32 b4 b5 b6 b7)) p_buf
  | S n, _ => Abort OutOfBounds
  end.

(** The bytes before the first aligned one, in the middle and at the end. *)
Definition init_bytes (length offset : Z) : Z :=
  let init_bytes := Z.land (u32 (4 - offset)) 3 in
  if bool_decide (length < init_bytes) then length else init_bytes.

Definition sctp_crc32c_sb8_64_bit (crc : Z) (p_buf : bytes) (length offset : Z) : outcome Z :=
  let init_bytes := init_bytes length offset in
  let running_length := (length - init_bytes) / 8 * 8 in
  let end_bytes := length - init_bytes - running_length in
  '(crc, p_buf) ← byte_loop (Z.to_nat init_bytes) crc p_buf;
  '(crc, p_buf) ← word_loop (Z.to_nat (running_length / 8)) crc p_buf;
  '(crc, p_buf) ← byte_loop (Z.to_nat end_bytes) crc p_buf;
  Ret crc.

Definition zero_byte (crc : Z) : Z :=
  Z.lxor (tab sctp_crc_tableil8_o32 (Z.land crc 0xFF)) (Z.shiftr crc 8).

Definition zero_word (crc : Z) : Z :=
  let term1 := Z.lxor (tab sctp_crc_tableil8_o88 (Z.land crc 0xFF))
                 (tab sctp_crc_tableil8_o80 (Z.land (Z.shiftr crc 8) 0xFF)) in
  let term2 := Z.shiftr crc 16 in
  let crc := Z.lxor (Z.lxor term1 (tab sctp_crc_tableil8_o72 (Z.land term2 0xFF)))
               (tab sctp_crc_tableil8_o64 (Z.land (Z.shiftr term2 8) 0xFF)) in
  let term1 := Z.lxor (tab sctp_crc_tableil8_o56 0) (tab sctp_crc_tableil8_o48 0) in
  let term2 := 0 in
  Z.lxor (Z.lxor (Z.lxor crc term1) (tab sctp_crc_tableil8_o40 (Z.land term2 0xFF)))
    (tab sctp_crc_tableil8_o32 (Z.land (Z.shiftr term2 8) 0xFF)).

Definition sctp_crc32c_sb8_64_bit_zero (crc length offset : Z) : Z :=
  let init_bytes := init_bytes length offset in
  let running_length := (length - init_bytes) / 8 * 8 in
  let end_bytes := length - init_bytes - running_length in
  let crc := Nat.iter (Z.to_nat init_bytes) zero_byte crc in
  let crc := Nat.iter (Z.to_nat (running_length / 8)) zero_word crc in
  Nat.iter (Z.to_nat end_bytes) zero_byte crc.

Definition update_crc32 (crc32c : Z) (buffer : buffer_ptr) (length : Z) : outcome Z :=
  if bool_decide (length = 0) then Ret crc32c else
  match buffer with
  | Some (address, p_buf) => sctp_crc32c_sb8_64_bit crc32c p_buf length (Z.land address 3)
  | None => Ret (sctp_crc32c_sb8_64_bit_zero crc32c length (Z.land 0 3))
  end.

Definition ceph_crc32c_sctp (crc : Z) (data : buffer_ptr) (length : Z) : outcome Z :=
  update_crc32 crc data length.

End sctp.

(** *** Intel *)

Fixpoint baseline_loop (n : nat) (crc : Z) (p_buf : bytes) : outcome Z :=
  match n, p_buf with
  | O, _ => Ret crc
  | S n, [] => Abort OutOfBounds
  | S n, b :: p_buf =>
      baseline_loop n (Z.lxor (Z.shiftr crc 8) (tab crc32_table_iscsi_base (Z.lxor (Z.land crc 0xFF) b))) p_buf
  end.

Definition ceph_crc32c_intel_baseline (crc_init : Z) (buffer : buffer_ptr) (len : Z) : outcome Z :=
  match buffer with
  | Some (_, p_buf) => baseline_loop (Z.to_nat len) crc_init p_buf
  | None =>
      Ret (Nat.iter (Z.to_nat len)
             (λ crc, Z.lxor (Z.shiftr crc 8) (tab crc32_table_iscsi_base (Z.land crc 0xFF))) crc_init)
  end.

(** The assembler routines: the bytes, the length (an [int]) and the initial
    value. *)
Class IntelAsm := {
  crc32_iscsi_00 : bytes → Z → Z → Z;
  crc32_iscsi_zero_00 : Z → Z → Z;
}.

(** They compute the CRC of that many bytes, or zero bytes. *)
Class IntelAsmSpec `{IntelAsm} : Prop := {
  crc32_iscsi_00_spec p_buf len crc :
    bytes_ok p_buf → 0 ≤ len < 2 ^ 31 → len ≤ blen p_buf → 0 ≤ crc < 2 ^ 32 →
    crc32_iscsi_00 p_buf len crc = crc_bytes crc (take (Z.to_nat len) p_buf);
  crc32_iscsi_zero_00_spec len crc :
    0 ≤ len < 2 ^ 31 → 0 ≤ crc < 2 ^ 32 →
    crc32_iscsi_zero_00 len crc = crc_bytes crc (zeros (Z.to_nat len));
}.

Definition ceph_crc32c_intel_fast `{IntelAsm} (crc : Z) (buffer : buffer_ptr) (len : Z) : outcome Z :=
  match buffer with
  | None => Ret (crc32_iscsi_zero_00 (s32 len) crc)
  | Some (address, p_buf) =>
      if bool_decide (len < 16) then ceph_crc32c_intel_baseline crc buffer len else
      let left := Z.land (address + len) 7 in
      let len := len - left in
      let v := crc32_iscsi_00 p_buf (s32 len) crc in
      if bool_decide (left ≠ 0) then
        ceph_crc32c_intel_baseline v (Some (address + len, drop (Z.to_nat len) p_buf)) left
      else Ret v
  end.

(** *** Runs of zeros *)

(** The routine that [ceph_choose_crc32] picked for the processor. *)
Class Crc32cFunc := { ceph_crc32c_func : Z → buffer_ptr → Z → outcome Z }.

(** The bits of [crc] select the elements of a row of the table. *)
Fixpoint turbo_apply (crc1 crc : Z) (ptr : list Z) : outcome Z :=
  if bool_decide (crc = 0) then Ret crc1 else
  match ptr with
  | [] => Abort OutOfBounds
  | v :: ptr =>
      let mask := u32 (Z.lnot (u32 (Z.land crc 1 - 1))) in
      turbo_apply (Z.lxor crc1 (Z.land mask v)) (Z.shiftr crc 1) ptr
  end.

(** The outer loop, from the row [range] on. *)
Fixpoint turbo_loop (crc len : Z) (rows : list (list Z)) : outcome Z :=
  if bool_decide (len = 0) then Ret crc else
  match rows with
  | [] => Abort OutOfBounds
  | row :: rows =>
      crc ← (if bool_decide (Z.land len 1 = 1) then turbo_apply 0 crc row else Ret crc);
      turbo_loop crc (Z.shiftr len 1) rows
  end.

(** The remainder is at most 15, for which [ceph_crc32c] calls the routine. *)
Definition ceph_crc32c_zeros `{Crc32cFunc} (crc len : Z) : outcome Z :=
  let remainder := Z.land len 15 in
  crc ← turbo_loop crc (Z.shiftr len 4) (drop 4 crc_turbo_table);
  if bool_decide (0 < remainder) then ceph_crc32c_func crc None remainder else Ret crc.

Definition ceph_crc32c `{Crc32cFunc} (crc : Z) (data : buffer_ptr) (length : Z) : outcome Z :=
  if bool_decide (data = None ∧ 16 < length) then ceph_crc32c_zeros crc length
  else ceph_crc32c_func crc data length.

(** How the table was obtained: the row of each range from the one before. *)
Definition turbo_row0 : outcome (list Z) :=
  mapM (λ bit, ceph_crc32c_sctp (Z.shiftl 1 bit) None 1) (seqZ 0 32).
Definition turbo_next (row : list Z) : list Z :=
  (λ crc_x, foldl (λ crc_y b, if bool_decide (Z.land crc_x (Z.shiftl 1 b) ≠ 0)
                              then Z.lxor crc_y (tab row b) else crc_y) 0 (seqZ 0 32)) <$> row.
Fixpoint turbo_rows (n : nat) (row : list Z) : list (list Z) :=
  match n with O => [] | S n => row :: turbo_rows n (turbo_next row) end.
Definition create_turbo_table : outcome (list (list Z)) :=
  row ← turbo_row0; Ret (turbo_rows 32 row).
