(* ===== verification/Crc32cFacts.v ===== *)
(** * CRC32C: the routines compute the reference

    The reference is linear, so that a table for [n] bits gives the effect of a
    byte that is [n / 8 - 1] bytes away from the end. *)

From S2P Require Import Prelude Crc32cTables Crc32c.

(** ** Linearity *)

Lemma odd_lxor x y : Z.odd (Z.lxor x y) = xorb (Z.odd x) (Z.odd y).
Proof. by rewrite <-!Z.bit0_odd, Z.lxor_spec. Qed.

Lemma crc_bit_lxor x y : crc_bit (Z.lxor x y) = Z.lxor (crc_bit x) (crc_bit y).
Proof.
  unfold crc_bit. rewrite Z.shiftr_lxor, odd_lxor.
  destruct (Z.odd x), (Z.odd y); cbn [xorb]; rewrite ?Z.lxor_0_r; try done.
  - rewrite <-Z.lxor_assoc, (Z.lxor_comm (Z.lxor (Z.shiftr x 1) CRC32C_POLY) (Z.shiftr y 1)).
    rewrite <-!Z.lxor_assoc, Z.lxor_assoc, Z.lxor_nilpotent, Z.lxor_0_r. apply Z.lxor_comm.
  - rewrite !Z.lxor_assoc. f_equal. apply Z.lxor_comm.
  - by rewrite Z.lxor_assoc.
Qed.

Lemma crc_bits_S n x : crc_bits (S n) x = crc_bit (crc_bits n x).
Proof. done. Qed.

Lemma crc_bits_lxor n x y : crc_bits n (Z.lxor x y) = Z.lxor (crc_bits n x) (crc_bits n y).
Proof. induction n as [|n IH]; [done|]. by rewrite !crc_bits_S, IH, crc_bit_lxor. Qed.

Lemma crc_bits_0 n : crc_bits n 0 = 0.
Proof. induction n as [|n IH]; [done|]. by rewrite crc_bits_S, IH. Qed.

Lemma crc_bits_add n m x : crc_bits (n + m) x = crc_bits n (crc_bits m x).
Proof. unfold crc_bits. apply Nat.iter_add. Qed.

Lemma crc_bits_succ n x : crc_bits (S n) x = crc_bits n (crc_bit x).
Proof. unfold crc_bits. by rewrite Nat.iter_succ_r. Qed.

Lemma crc_bit_shiftl x : crc_bit (Z.shiftl x 1) = x.
Proof.
  unfold crc_bit. assert (Z.odd (Z.shiftl x 1) = false) as ->.
  { rewrite Z.shiftl_mul_pow2, Z.odd_mul by lia. apply andb_false_r. }
  rewrite Z.shiftr_shiftl_l, Z.lxor_0_r by lia. apply Z.shiftl_0_r.
Qed.

Lemma crc_bits_shiftl n x : crc_bits n (Z.shiftl x (Z.of_nat n)) = x.
Proof.
  revert x. induction n as [|n IH]; intros x; [apply Z.shiftl_0_r|].
  rewrite crc_bits_succ. replace (Z.of_nat (S n)) with (Z.of_nat n + 1) by lia.
  by rewrite <-Z.shiftl_shiftl, crc_bit_shiftl by lia.
Qed.

Lemma crc_bit_range c : 0 ≤ c < 2 ^ 32 → 0 ≤ crc_bit c < 2 ^ 32.
Proof.
  intros Hc. unfold crc_bit. rewrite Z.shiftr_div_pow2 by lia. change (2 ^ 1) with 2.
  pose proof (Z.div_mod c 2 ltac:(lia)). pose proof (Z.mod_pos_bound c 2 ltac:(lia)).
  apply lxor_range; [done|lia|]. unfold CRC32C_POLY. destruct (Z.odd c); lia.
Qed.

Lemma crc_bits_range n c : 0 ≤ c < 2 ^ 32 → 0 ≤ crc_bits n c < 2 ^ 32.
Proof. intros Hc. induction n as [|n IH]; [done|]. rewrite crc_bits_S. by apply crc_bit_range. Qed.

Lemma crc_bytes_range c bs : 0 ≤ c < 2 ^ 32 → bytes_ok bs → 0 ≤ crc_bytes c bs < 2 ^ 32.
Proof.
  intros Hc Hbs. revert c Hc. induction Hbs as [|b bs Hb Hbs IH]; intros c Hc; [done|]. cbn.
  apply IH, crc_bits_range, lxor_range; [done|done|]. unfold byte_ok in Hb. lia.
Qed.

Lemma crc_bytes_app c bs1 bs2 : crc_bytes c (bs1 ++ bs2) = crc_bytes (crc_bytes c bs1) bs2.
Proof. apply foldl_app. Qed.

(** The lowest byte and the rest. *)
Lemma low_byte x : x = Z.lxor (Z.land x 0xFF) (Z.shiftl (Z.shiftr x 8) 8).
Proof.
  apply Z.bits_inj'. intros n Hn. rewrite Z.lxor_spec, Z.land_spec.
  change 0xFF with (Z.ones 8). destruct (decide (n < 8)).
  - rewrite Z.shiftl_spec_low, Z.ones_spec_low by lia. by rewrite andb_true_r, xorb_false_r.
  - rewrite Z.shiftl_spec_high, Z.shiftr_spec, Z.ones_spec_high by lia.
    rewrite andb_false_r, xorb_false_l. f_equal. lia.
Qed.

Lemma crc_bits_low n x :
  crc_bits (8 + n) x = Z.lxor (crc_bits (8 + n) (Z.land x 0xFF)) (crc_bits n (Z.shiftr x 8)).
Proof.
  rewrite (low_byte x) at 1. rewrite crc_bits_lxor. f_equal.
  rewrite Nat.add_comm, crc_bits_add. f_equal. apply (crc_bits_shiftl 8).
Qed.

(** ** The tables *)

Definition table_for (n : nat) (t : list Z) : Prop :=
  ∀ i, 0 ≤ i < 256 → tab t i = crc_bits n i.

Definition table_check (n : nat) (t : list Z) : bool :=
  forallb (λ i, tab t i =? crc_bits n i) (seqZ 0 256).

Lemma table_check_ok n t : table_check n t = true → table_for n t.
Proof.
  intros H i Hi. apply Z.eqb_eq. exact (forallb_range _ 256 i H Hi).
Qed.

Lemma o32_ok : table_for 8 sctp_crc_tableil8_o32.
Proof. apply table_check_ok. by vm_compute. Qed.
Lemma o32_ok' : table_for (8 + 0) sctp_crc_tableil8_o32.
Proof. apply o32_ok. Qed.
Lemma o40_ok : table_for (16 + 0) sctp_crc_tableil8_o40.
Proof. apply table_check_ok. by vm_compute. Qed.
Lemma o48_ok : table_for (24 + 0) sctp_crc_tableil8_o48.
Proof. apply table_check_ok. by vm_compute. Qed.
Lemma o56_ok : table_for (32 + 0) sctp_crc_tableil8_o56.
Proof. apply table_check_ok. by vm_compute. Qed.
Lemma o64_ok : table_for (8 + 32) sctp_crc_tableil8_o64.
Proof. apply table_check_ok. by vm_compute. Qed.
Lemma o72_ok : table_for (16 + 32) sctp_crc_tableil8_o72.
Proof. apply table_check_ok. by vm_compute. Qed.
Lemma o80_ok : table_for (24 + 32) sctp_crc_tableil8_o80.
Proof. apply table_check_ok. by vm_compute. Qed.
Lemma o88_ok : table_for (32 + 32) sctp_crc_tableil8_o88.
Proof. apply table_check_ok. by vm_compute. Qed.
Lemma iscsi_ok : table_for 8 crc32_table_iscsi_base.
Proof. apply table_check_ok. by vm_compute. Qed.

Lemma land_byte x : 0 ≤ Z.land x 0xFF < 256.
Proof. change 0xFF with (Z.ones 8). rewrite Z.land_ones by lia. apply Z.mod_pos_bound. lia. Qed.

(** A byte through the table. *)
Lemma byte_step t c b :
  table_for 8 t → byte_ok b →
  Z.lxor (tab t (Z.land (Z.lxor c b) 0xFF)) (Z.shiftr c 8) = crc_byte c b.
Proof.
  intros Ht Hb. unfold crc_byte. rewrite (crc_bits_low 0), Ht by apply land_byte. f_equal.
  rewrite Z.shiftr_lxor. assert (Z.shiftr b 8 = 0) as ->; [|symmetry; apply Z.lxor_0_r].
  rewrite Z.shiftr_div_pow2 by lia. apply Z.div_small. exact Hb.
Qed.

(** A 32-bit word through four tables. *)
Lemma word_step n x t0 t1 t2 t3 :
  0 ≤ x < 2 ^ 32 → table_for (32 + n) t0 → table_for (24 + n) t1 → table_for (16 + n) t2 →
  table_for (8 + n) t3 →
  crc_bits (32 + n) x
  = Z.lxor (Z.lxor (Z.lxor (tab t0 (Z.land x 0xFF)) (tab t1 (Z.land (Z.shiftr x 8) 0xFF)))
      (tab t2 (Z.land (Z.shiftr x 16) 0xFF))) (tab t3 (Z.land (Z.shiftr (Z.shiftr x 16) 8) 0xFF)).
Proof.
  intros Hx H0 H1 H2 H3. rewrite H0, H1, H2, H3 by apply land_byte.
  rewrite (crc_bits_low (24 + n)), (crc_bits_low (16 + n)), (crc_bits_low (8 + n)), (crc_bits_low n).
  rewrite !Z.shiftr_shiftr by lia. change (8 + 8) with 16. change (16 + 8) with 24. change (24 + 8) with 32.
  assert (Z.shiftr x 32 = 0) as ->.
  { rewrite Z.shiftr_div_pow2 by lia. apply Z.div_small. exact Hx. }
  rewrite crc_bits_0, Z.lxor_0_r. by rewrite !Z.lxor_assoc.
Qed.

(** The bytes as one little-endian number. *)
Fixpoint le_bytes (bs : bytes) : Z :=
  match bs with [] => 0 | b :: bs => Z.lxor b (Z.shiftl (le_bytes bs) 8) end.

Lemma crc_bytes_le c bs :
  crc_bytes c bs = crc_bits (8 * length bs) (Z.lxor c (le_bytes bs)).
Proof.
  revert c. induction bs as [|b bs IH]; intros c; [by rewrite Z.lxor_0_r|].
  change (crc_bytes c (b :: bs)) with (crc_bytes (crc_byte c b) bs).
  rewrite IH. unfold crc_byte. cbn [le_bytes length].
  replace (8 * S (length bs))%nat with (8 * length bs + 8)%nat by lia.
  rewrite crc_bits_add, <-Z.lxor_assoc, (crc_bits_lxor 8 (Z.lxor c b)). do 2 f_equal.
  symmetry. apply (crc_bits_shiftl 8).
Qed.

Lemma lor_shiftl a b n : 0 ≤ n → 0 ≤ a < 2 ^ n → Z.lor a (Z.shiftl b n) = Z.lxor a (Z.shiftl b n).
Proof.
  intros Hn Ha. apply Z.bits_inj'. intros i Hi. rewrite Z.lor_spec, Z.lxor_spec.
  destruct (decide (i < n)).
  - rewrite Z.shiftl_spec_low by lia. by rewrite orb_false_r, xorb_false_r.
  - assert (Z.testbit a i = false) as ->; [|by rewrite orb_false_l, xorb_false_l].
    destruct (decide (a = 0)) as [->|]; [apply Z.bits_0|]. apply Z.bits_above_log2; [lia|].
    apply Z.log2_lt_pow2; [lia|]. pose proof (Z.pow_le_mono_r 2 n i ltac:(lia) ltac:(lia)). lia.
Qed.

Lemma le32_bytes b0 b1 b2 b3 :
  bytes_ok [b0; b1; b2; b3] → le32 b0 b1 b2 b3 = le_bytes [b0; b1; b2; b3] ∧ 0 ≤ le32 b0 b1 b2 b3 < 2 ^ 32.
Proof.
  intros [H0 [H1 [H2 [H3 _]%Forall_cons]%Forall_cons]%Forall_cons]%Forall_cons.
  unfold byte_ok in *. assert (le32 b0 b1 b2 b3 = le_bytes [b0; b1; b2; b3]) as He.
  { unfold le32. cbn [le_bytes]. rewrite Z.shiftl_0_l, Z.lxor_0_r.
    replace (Z.shiftl b3 24) with (Z.shiftl (Z.shiftl b3 8) 16) by (by rewrite Z.shiftl_shiftl).
    rewrite <-Z.shiftl_lor.
    replace (Z.shiftl (Z.lor b2 (Z.shiftl b3 8)) 16)
      with (Z.shiftl (Z.shiftl (Z.lor b2 (Z.shiftl b3 8)) 8) 8) by (by rewrite Z.shiftl_shiftl).
    rewrite <-Z.shiftl_lor. rewrite !lor_shiftl by (done || lia). done. }
  split; [done|]. unfold le32. rewrite !Z.shiftl_mul_pow2 by lia.
  assert (∀ n x y, 0 ≤ n → 0 ≤ x < 2 ^ n → 0 ≤ y < 2 ^ n → 0 ≤ Z.lor x y < 2 ^ n) as Hlor.
  { intros n x y Hn Hx Hy. split; [apply Z.lor_nonneg; lia|].
    destruct (decide (x = 0)) as [->|]; [rewrite Z.lor_0_l; lia|].
    destruct (decide (y = 0)) as [->|]; [rewrite Z.lor_0_r; lia|].
    apply Z.log2_lt_cancel. rewrite Z.log2_lor, Z.log2_pow2 by lia.
    apply Z.max_lub_lt; apply Z.log2_lt_pow2; lia. }
  repeat (apply Hlor; [lia|lia|]). lia.
Qed.

(** ** Slicing by eight *)

Lemma byte_loop_spec n c p_buf :
  bytes_ok p_buf → (n ≤ length p_buf)%nat →
  byte_loop n c p_buf = Ret (crc_bytes c (take n p_buf), drop n p_buf).
Proof.
  revert c p_buf. induction n as [|n IH]; intros c p_buf Hok Hn; [done|].
  destruct p_buf as [|b p_buf]; [cbn in Hn; lia|]. apply Forall_cons in Hok as [Hb Hok].
  cbn [byte_loop]. rewrite byte_step by (done || apply o32_ok). rewrite IH by (done || cbn in Hn; lia). done.
Qed.

Lemma slice8_spec c b0 b1 b2 b3 b4 b5 b6 b7 :
  0 ≤ c < 2 ^ 32 → bytes_ok [b0; b1; b2; b3; b4; b5; b6; b7] →
  slice8 c (le32 b0 b1 b2 b3) (le32 b4 b5 b6 b7) = crc_bytes c [b0; b1; b2; b3; b4; b5; b6; b7].
Proof.
  intros Hc Hok. change [b0; b1; b2; b3; b4; b5; b6; b7] with ([b0; b1; b2; b3] ++ [b4; b5; b6; b7]) in *.
  apply Forall_app in Hok as [Hok1 Hok2].
  apply le32_bytes in Hok1 as [He1 Hr1], Hok2 as [He2 Hr2].
  rewrite crc_bytes_app, !crc_bytes_le, <-He1, <-He2. cbn [length]. rewrite crc_bits_lxor.
  set (w1 := le32 b0 b1 b2 b3) in *. set (w2 := le32 b4 b5 b6 b7) in *.
  rewrite <-crc_bits_add. replace (8 * 4)%nat with 32%nat by reflexivity. unfold slice8.
  rewrite (word_step 32 (Z.lxor c w1) sctp_crc_tableil8_o88 sctp_crc_tableil8_o80
    sctp_crc_tableil8_o72 sctp_crc_tableil8_o64 (lxor_range 32 c w1 ltac:(done) Hc Hr1)
    o88_ok o80_ok o72_ok o64_ok).
  replace (crc_bits 32 w2) with (crc_bits (32 + 0) w2) by (by rewrite Nat.add_0_r). rewrite (word_step 0 w2 sctp_crc_tableil8_o56 sctp_crc_tableil8_o48
    sctp_crc_tableil8_o40 sctp_crc_tableil8_o32 Hr2 o56_ok o48_ok o40_ok o32_ok').
  by rewrite !Z.lxor_assoc.
Qed.

Lemma word_loop_spec n c p_buf :
  0 ≤ c < 2 ^ 32 → bytes_ok p_buf → (8 * n ≤ length p_buf)%nat →
  word_loop n c p_buf = Ret (crc_bytes c (take (8 * n) p_buf), drop (8 * n) p_buf).
Proof.
  revert c p_buf. induction n as [|n IH]; intros c p_buf Hc Hok Hn; [done|].
  destruct p_buf as [|b0 [|b1 [|b2 [|b3 [|b4 [|b5 [|b6 [|b7 p]]]]]]]]; try (cbn in Hn; lia).
  replace (8 * S n)%nat with (8 + 8 * n)%nat in * by lia.
  apply (Forall_app _ [b0; b1; b2; b3; b4; b5; b6; b7]) in Hok as [Hok1 Hok2].
  cbn [word_loop]. rewrite slice8_spec by done.
  rewrite IH; [|by apply crc_bytes_range|done|cbn in Hn; lia].
  by rewrite <-(crc_bytes_app c [b0; b1; b2; b3; b4; b5; b6; b7]).
Qed.

Lemma init_bytes_range length offset : 0 ≤ length → 0 ≤ init_bytes length offset ≤ length.
Proof.
  intros Hl. unfold init_bytes. pose proof (Z.land_nonneg (u32 (4 - offset)) 3).
  case_bool_decide; lia.
Qed.

Lemma sb8_spec crc p_buf offset :
  0 ≤ crc < 2 ^ 32 → bytes_ok p_buf →
  sctp_crc32c_sb8_64_bit crc p_buf (blen p_buf) offset = Ret (crc_bytes crc p_buf).
Proof.
  intros Hc Hok. unfold sctp_crc32c_sb8_64_bit. set (len := blen p_buf).
  pose proof (init_bytes_range len offset ltac:(unfold len, blen; lia)) as Hi.
  set (i := init_bytes len offset) in *. set (n := (len - i) / 8).
  pose proof (Z.div_mod (len - i) 8 ltac:(lia)) as Hdiv.
  pose proof (Z.mod_pos_bound (len - i) 8 ltac:(lia)) as Hmod. fold n in Hdiv.
  assert (0 ≤ n) by (apply Z.div_pos; lia). rewrite Z.div_mul by lia. unfold len, blen in *.
  rewrite byte_loop_spec by (done || lia). cbn [mbind outcome_bind].
  rewrite word_loop_spec; [|by apply crc_bytes_range, Forall_take|by apply Forall_drop|rewrite length_drop; lia].
  cbn [mbind outcome_bind]. rewrite byte_loop_spec; [|by do 2 apply Forall_drop|rewrite !length_drop; lia].
  cbn [mbind outcome_bind]. rewrite <-!crc_bytes_app. do 2 f_equal.
  rewrite (take_ge (drop _ (drop _ p_buf))) by (rewrite !length_drop; lia). by rewrite !take_drop.
Qed.

(** Zero bytes. *)
Lemma crc_bytes_zeros c n : crc_bytes c (zeros n) = crc_bits (8 * n) c.
Proof.
  rewrite crc_bytes_le, length_zeros. f_equal.
  assert (le_bytes (zeros n) = 0) as ->; [|apply Z.lxor_0_r].
  induction n as [|n IH]; [done|]. unfold zeros in *. cbn. by rewrite IH.
Qed.

Lemma crc_bits_iter k n c : crc_bits (k * n) c = Nat.iter n (crc_bits k) c.
Proof.
  induction n as [|n IH]; [by rewrite Nat.mul_0_r|]. rewrite Nat.mul_succ_r, Nat.add_comm, crc_bits_add, IH. done.
Qed.

Lemma crc_byte_0 c : crc_byte c 0 = crc_bits 8 c.
Proof. unfold crc_byte. by rewrite Z.lxor_0_r. Qed.

Lemma zero_byte_spec c : zero_byte c = crc_bits 8 c.
Proof.
  unfold zero_byte. rewrite <-crc_byte_0, <-(byte_step sctp_crc_tableil8_o32 c 0) by (apply o32_ok || done).
  by rewrite Z.lxor_0_r.
Qed.

Lemma zero_word_spec c : 0 ≤ c < 2 ^ 32 → zero_word c = crc_bits 64 c.
Proof.
  intros Hc. unfold zero_word. replace 64%nat with (32 + 32)%nat by reflexivity.
  rewrite (word_step 32 c sctp_crc_tableil8_o88 sctp_crc_tableil8_o80
    sctp_crc_tableil8_o72 sctp_crc_tableil8_o64 Hc o88_ok o80_ok o72_ok o64_ok).
  rewrite !Z.shiftr_0_l, Z.land_0_l. rewrite (o56_ok 0), (o48_ok 0), (o40_ok 0), (o32_ok 0), !crc_bits_0 by lia.
  by rewrite !Z.lxor_0_r.
Qed.

Lemma iter_ext_range (f h : Z → Z) n c :
  (∀ c, 0 ≤ c < 2 ^ 32 → f c = h c ∧ 0 ≤ h c < 2 ^ 32) → 0 ≤ c < 2 ^ 32 →
  Nat.iter n f c = Nat.iter n h c ∧ 0 ≤ Nat.iter n h c < 2 ^ 32.
Proof.
  intros Hf Hc. induction n as [|n [IH1 IH2]]; [done|]. rewrite !Nat.iter_succ.
  destruct (Hf _ IH2) as [He Hr]. by rewrite IH1, He.
Qed.

Lemma zero_bytes_spec n c : 0 ≤ c < 2 ^ 32 → Nat.iter n zero_byte c = crc_bits (8 * n) c.
Proof.
  intros Hc. rewrite crc_bits_iter. apply iter_ext_range; [|done]. intros c' Hc'.
  split; [apply zero_byte_spec|by apply crc_bits_range].
Qed.
Lemma zero_words_spec n c : 0 ≤ c < 2 ^ 32 → Nat.iter n zero_word c = crc_bits (64 * n) c.
Proof.
  intros Hc. rewrite crc_bits_iter. apply iter_ext_range; [|done]. intros c' Hc'.
  split; [by apply zero_word_spec|by apply crc_bits_range].
Qed.

Lemma sb8_zero_spec crc length offset :
  0 ≤ crc < 2 ^ 32 → 0 ≤ length →
  sctp_crc32c_sb8_64_bit_zero crc length offset = crc_bytes crc (zeros (Z.to_nat length)).
Proof.
  intros Hc Hl. unfold sctp_crc32c_sb8_64_bit_zero.
  pose proof (init_bytes_range length offset Hl) as Hi. set (i := init_bytes length offset) in *.
  set (n := (length - i) / 8). pose proof (Z.div_mod (length - i) 8 ltac:(lia)) as Hdiv.
  pose proof (Z.mod_pos_bound (length - i) 8 ltac:(lia)) as Hmod. fold n in Hdiv.
  assert (0 ≤ n) by (apply Z.div_pos; lia). rewrite Z.div_mul by lia.
  rewrite (zero_bytes_spec (Z.to_nat i)) by done.
  rewrite zero_words_spec by (by apply crc_bits_range).
  rewrite zero_bytes_spec by (by do 2 apply crc_bits_range).
  rewrite crc_bytes_zeros, <-!crc_bits_add. f_equal. lia.
Qed.

(** ** Intel *)

Lemma land_lxor_byte c b : byte_ok b → Z.lxor (Z.land c 0xFF) b = Z.land (Z.lxor c b) 0xFF.
Proof.
  intros Hb. change 0xFF with (Z.ones 8). apply Z.bits_inj'. intros i Hi.
  rewrite Z.lxor_spec, !Z.land_spec, Z.lxor_spec. destruct (decide (i < 8)).
  - by rewrite Z.ones_spec_low, !andb_true_r by lia.
  - rewrite Z.ones_spec_high, !andb_false_r, xorb_false_l by lia.
    rewrite <-(Z.mod_small b (2 ^ 8)), <-Z.land_ones, Z.land_spec, Z.ones_spec_high by (exact Hb || lia).
    apply andb_false_r.
Qed.

Lemma baseline_loop_spec n c p_buf :
  bytes_ok p_buf → (n ≤ length p_buf)%nat → baseline_loop n c p_buf = Ret (crc_bytes c (take n p_buf)).
Proof.
  revert c p_buf. induction n as [|n IH]; intros c p_buf Hok Hn; [done|].
  destruct p_buf as [|b p_buf]; [cbn in Hn; lia|]. apply Forall_cons in Hok as [Hb Hok].
  cbn [baseline_loop]. rewrite Z.lxor_comm, land_lxor_byte, byte_step by (done || apply iscsi_ok).
  by rewrite IH by (done || cbn in Hn; lia).
Qed.

Lemma baseline_zero_spec c :
  Z.lxor (Z.shiftr c 8) (tab crc32_table_iscsi_base (Z.land c 0xFF)) = crc_bits 8 c.
Proof.
  rewrite <-crc_byte_0, <-(byte_step crc32_table_iscsi_base c 0) by (apply iscsi_ok || done).
  rewrite Z.lxor_0_r. apply Z.lxor_comm.
Qed.

(** ** What a routine computes *)

(** The length of a buffer fits into the [int] of the assembler routines. *)
Definition computes_crc (func : Z → buffer_ptr → Z → outcome Z) : Prop :=
  ∀ crc, 0 ≤ crc < 2 ^ 32 →
    (∀ address p_buf, bytes_ok p_buf → blen p_buf < 2 ^ 31 →
       func crc (Some (address, p_buf)) (blen p_buf) = Ret (crc_bytes crc p_buf))
    ∧ ∀ length, 0 ≤ length < 2 ^ 31 →
        func crc None length = Ret (crc_bytes crc (zeros (Z.to_nat length))).

Lemma sctp_computes : computes_crc ceph_crc32c_sctp.
Proof.
  intros crc Hc. unfold ceph_crc32c_sctp, update_crc32. split.
  - intros address p_buf Hok Hlen. case_bool_decide as H0; [|by apply sb8_spec].
    by destruct p_buf.
  - intros length Hl. case_bool_decide as H0; [by rewrite H0|]. by rewrite sb8_zero_spec by lia.
Qed.

Lemma intel_baseline_computes : computes_crc ceph_crc32c_intel_baseline.
Proof.
  intros crc Hc. split.
  - intros address p_buf Hok Hlen. unfold ceph_crc32c_intel_baseline, blen. rewrite Nat2Z.id.
    rewrite baseline_loop_spec by done. by rewrite take_ge.
  - intros length Hl. unfold ceph_crc32c_intel_baseline. rewrite crc_bytes_zeros, crc_bits_iter. f_equal.
    apply iter_ext_range; [|done]. intros c' Hc'. split; [apply baseline_zero_spec|by apply crc_bits_range].
Qed.

Lemma intel_fast_computes `{HI : IntelAsm} `{HIS : !IntelAsmSpec} : computes_crc ceph_crc32c_intel_fast.
Proof.
  intros crc Hc. split.
  - intros address p_buf Hok Hlen. unfold ceph_crc32c_intel_fast. case_bool_decide as H16.
    { by apply intel_baseline_computes. }
    pose proof (Z.land_ones (address + blen p_buf) 3 ltac:(lia)) as Hl. change (Z.ones 3) with 7 in Hl.
    pose proof (Z.mod_pos_bound (address + blen p_buf) (2 ^ 3) ltac:(lia)) as Hm. rewrite Hl.
    set (left := (address + blen p_buf) mod 2 ^ 3) in *. clearbody left. change (2 ^ 3) with 8 in Hm.
    rewrite s32_small, crc32_iscsi_00_spec by (done || lia). set (len := Z.to_nat (blen p_buf - left)).
    assert (blen (drop len p_buf) = left) as Hd by (unfold len, blen in *; rewrite length_drop; lia).
    case_bool_decide as H0.
    + rewrite <-Hd. destruct (intel_baseline_computes (crc_bytes crc (take len p_buf))) as [Hb _].
      { by apply crc_bytes_range, Forall_take. }
      rewrite Hb by (by apply Forall_drop || lia). by rewrite <-crc_bytes_app, take_drop.
    + rewrite take_ge; [done|]. unfold blen in *. lia.
  - intros length Hl. cbn. by rewrite s32_small, crc32_iscsi_zero_00_spec by lia.
Qed.

(** ** Runs of zeros *)

Definition row_for (n : nat) (row : list Z) : Prop :=
  length row = 32%nat ∧ ∀ bit, 0 ≤ bit < 32 → tab row bit = crc_bits n (Z.shiftl 1 bit).

Lemma mask_select crc v :
  0 ≤ v < 2 ^ 32 → Z.land (u32 (Z.lnot (u32 (Z.land crc 1 - 1)))) v = if Z.odd crc then v else 0.
Proof.
  intros Hv. assert (Z.land crc 1 = Z.b2z (Z.odd crc)) as ->.
  { rewrite Z.land_comm. change 1 with (Z.ones 1). rewrite Z.land_comm, Z.land_ones by lia.
    change (2 ^ 1) with 2. by rewrite Zmod_odd; destruct (Z.odd crc). }
  destruct (Z.odd crc); cbn [Z.b2z].
  - change (u32 (Z.lnot (u32 (1 - 1)))) with (Z.ones 32). rewrite Z.land_comm, Z.land_ones by lia.
    by apply Z.mod_small.
  - change (u32 (Z.lnot (u32 (0 - 1)))) with 0. apply Z.land_0_l.
Qed.

Lemma turbo_apply_from n row j ptr crc1 crc :
  row_for n row → ptr = drop j row → (j ≤ 32)%nat → 0 ≤ crc < 2 ^ (32 - Z.of_nat j) →
  turbo_apply crc1 crc ptr = Ret (Z.lxor crc1 (crc_bits n (Z.shiftl crc (Z.of_nat j)))).
Proof.
  intros [Hlen Hrow]. revert j crc1 crc. induction ptr as [|v ptr IH]; intros j crc1 crc Hptr Hj Hc.
  { assert (crc = 0) as ->.
    { assert (length (drop j row) = 0%nat) by (by rewrite <-Hptr). rewrite length_drop in H.
      assert (j = 32%nat) as -> by lia. change (2 ^ (32 - Z.of_nat 32)) with 1 in Hc. lia. }
    cbn. by rewrite Z.shiftl_0_l, crc_bits_0, Z.lxor_0_r. }
  assert (j < 32)%nat as Hj'.
  { assert (length (drop j row) = S (length ptr)) by (by rewrite <-Hptr). rewrite length_drop in H. lia. }
  assert (row !! j = Some v) as Hv by (rewrite <-(Nat.add_0_r j), <-lookup_drop, <-Hptr; done).
  assert (v = crc_bits n (Z.shiftl 1 (Z.of_nat j))) as Hvb.
  { rewrite <-Hrow by lia. unfold tab. by rewrite Nat2Z.id, Hv. }
  assert (0 ≤ v < 2 ^ 32) as Hvr.
  { rewrite Hvb. apply crc_bits_range. rewrite Z.shiftl_1_l. split; [lia|]. apply Z.pow_lt_mono_r; lia. }
  cbn [turbo_apply]. case_bool_decide as H0.
  { by rewrite H0, Z.shiftl_0_l, crc_bits_0, Z.lxor_0_r. }
  rewrite mask_select by done. rewrite (IH (S j)).
  - f_equal. rewrite Z.lxor_assoc. f_equal.
    assert (crc = Z.lxor (if Z.odd crc then 1 else 0) (Z.shiftl (Z.shiftr crc 1) 1)) as Hsplit.
    { apply Z.bits_inj'. intros i Hi. rewrite Z.lxor_spec. destruct (decide (i = 0)) as [->|].
      - rewrite Z.shiftl_spec_low, xorb_false_r, Z.bit0_odd by lia. by destruct (Z.odd crc).
      - rewrite Z.shiftl_spec_high, Z.shiftr_spec by lia. replace (i - 1 + 1) with i by lia.
        assert (Z.testbit (if Z.odd crc then 1 else 0) i = false) as ->; [|by rewrite xorb_false_l].
        destruct (Z.odd crc); [|apply Z.bits_0]. apply Z.bits_above_log2; [lia|]. cbn. lia. }
    rewrite Hsplit at 3. rewrite Z.shiftl_lxor, crc_bits_lxor, Z.shiftl_shiftl by lia. f_equal.
    + rewrite Hvb. destruct (Z.odd crc); [done|]. by rewrite Z.shiftl_0_l, crc_bits_0.
    + do 2 f_equal. lia.
  - rewrite <-(Nat.add_1_r j), <-drop_drop, <-Hptr. done.
  - lia.
  - rewrite Z.shiftr_div_pow2 by lia. split; [apply Z.div_pos; lia|]. apply Z.div_lt_upper_bound; [lia|].
    rewrite <-Z.pow_add_r by lia. replace (1 + (32 - Z.of_nat (S j))) with (32 - Z.of_nat j) by lia. lia.
Qed.

Lemma turbo_apply_spec n row crc :
  row_for n row → 0 ≤ crc < 2 ^ 32 → turbo_apply 0 crc row = Ret (crc_bits n crc).
Proof.
  intros Hrow Hc. rewrite (turbo_apply_from n row 0) by (done || lia).
  by rewrite Z.lxor_0_l, Z.shiftl_0_r.
Qed.

(** The table from a row on, which is for [2 ^ r] zero bytes. *)
Fixpoint rows_for (r : nat) (rows : list (list Z)) : Prop :=
  match rows with
  | [] => True
  | row :: rows => row_for (8 * 2 ^ r) row ∧ rows_for (S r) rows
  end.

Lemma turbo_loop_spec r rows crc len :
  rows_for r rows → 0 ≤ crc < 2 ^ 32 → 0 ≤ len < 2 ^ Z.of_nat (length rows) →
  turbo_loop crc len rows = Ret (crc_bits (8 * 2 ^ r * Z.to_nat len) crc).
Proof.
  revert r crc len. induction rows as [|row rows IH]; intros r crc len Hrows Hc Hlen.
  { assert (len = 0) as -> by (cbn in Hlen; lia). cbn [turbo_loop Z.to_nat].
    rewrite bool_decide_true by done. by rewrite Nat.mul_0_r. }
  destruct Hrows as [Hrow Hrows]. cbn [turbo_loop]. case_bool_decide as H0.
  { rewrite H0. cbn [Z.to_nat]. by rewrite Nat.mul_0_r. }
  assert (Z.land len 1 = len mod 2) as ->.
  { change 1 with (Z.ones 1). by rewrite Z.land_ones by lia. }
  pose proof (Z.div_mod len 2 ltac:(lia)) as Hdiv. pose proof (Z.mod_pos_bound len 2 ltac:(lia)) as Hm.
  rewrite Z.shiftr_div_pow2 by lia. change (2 ^ 1) with 2.
  assert ((if bool_decide (len mod 2 = 1) then turbo_apply 0 crc row else Ret crc)
    = Ret (crc_bits (8 * 2 ^ r * Z.to_nat (len mod 2)) crc)) as ->.
  { case_bool_decide as H1.
    - rewrite H1, Nat.mul_1_r. by apply turbo_apply_spec.
    - assert (len mod 2 = 0) as -> by lia. by rewrite Nat.mul_0_r. }
  cbn [mbind outcome_bind]. rewrite (IH (S r)); [|done|by apply crc_bits_range|].
  - rewrite <-crc_bits_add. do 2 f_equal. rewrite Nat.pow_succ_r'. nia.
  - cbn [length] in Hlen. rewrite Nat2Z.inj_succ, Z.pow_succ_r in Hlen by lia.
    split; [apply Z.div_pos; lia|]. apply Z.div_lt_upper_bound; lia.
Qed.

(** Selecting the rows of the bits of a number that are set. *)
Lemma select_bits n row crc_x j :
  row_for n row → 0 ≤ crc_x → (j ≤ 32)%nat →
  foldl (λ crc_y b, if bool_decide (Z.land crc_x (Z.shiftl 1 b) ≠ 0)
                    then Z.lxor crc_y (tab row b) else crc_y) 0 (seqZ 0 (Z.of_nat j))
  = crc_bits n (crc_x mod 2 ^ Z.of_nat j).
Proof.
  intros [_ Hrow] Hx. induction j as [|j IH]; intros Hj.
  { cbn [seqZ foldl]. rewrite Z.pow_0_r, Z.mod_1_r. symmetry. apply crc_bits_0. }
  replace (Z.of_nat (S j)) with (Z.of_nat j + 1) by lia.
  rewrite seqZ_app, foldl_app, IH by lia. rewrite Z.add_0_l. clear IH.
  assert (seqZ (Z.of_nat j) 1 = [Z.of_nat j]) as -> by done. cbn [foldl].
  assert (crc_x mod 2 ^ (Z.of_nat j + 1)
    = Z.lxor (crc_x mod 2 ^ Z.of_nat j) (if Z.testbit crc_x (Z.of_nat j) then Z.shiftl 1 (Z.of_nat j) else 0)) as ->.
  { apply Z.bits_inj'. intros i Hi. rewrite Z.lxor_spec, <-!Z.land_ones, !Z.land_spec by lia.
    destruct (Z.lt_trichotomy i (Z.of_nat j)) as [Hlt|[->|Hgt]].
    - rewrite !Z.ones_spec_low, !andb_true_r by lia.
      destruct (Z.testbit crc_x (Z.of_nat j)); [rewrite Z.shiftl_spec_low by lia|rewrite Z.bits_0]; by rewrite xorb_false_r.
    - rewrite Z.ones_spec_low, Z.ones_spec_high, andb_true_r, andb_false_r, xorb_false_l by lia.
      destruct (Z.testbit crc_x (Z.of_nat j)); [|by rewrite Z.bits_0].
      rewrite Z.shiftl_spec_high, Z.sub_diag by lia. done.
    - rewrite !Z.ones_spec_high, !andb_false_r, xorb_false_l by lia.
      destruct (Z.testbit crc_x (Z.of_nat j)); [|by rewrite Z.bits_0].
      rewrite Z.shiftl_spec_high by lia. symmetry. apply Z.bits_above_log2; [lia|]. cbn. lia. }
  rewrite crc_bits_lxor. destruct (Z.testbit crc_x (Z.of_nat j)) eqn:Ht.
  - rewrite bool_decide_true; [by rewrite Hrow by lia|]. intros H.
    apply (f_equal (λ z, Z.testbit z (Z.of_nat j))) in H.
    rewrite Z.land_spec, Ht, Z.shiftl_spec_high, Z.sub_diag, Z.bits_0 in H by lia. done.
  - rewrite bool_decide_false, crc_bits_0, Z.lxor_0_r; [done|]. intros []. apply Z.bits_inj'.
    intros i Hi. rewrite Z.land_spec, Z.bits_0. destruct (decide (i = Z.of_nat j)) as [->|].
    + by rewrite Ht.
    + rewrite Z.shiftl_1_l, Z.pow2_bits_false by lia. apply andb_false_r.
Qed.

Lemma row_lookup n row i v : row_for n row → row !! i = Some v → 0 ≤ v < 2 ^ 32 ∧ v = crc_bits n (Z.shiftl 1 (Z.of_nat i)).
Proof.
  intros [Hlen Hrow] Hv. pose proof (lookup_lt_Some _ _ _ Hv).
  assert (v = crc_bits n (Z.shiftl 1 (Z.of_nat i))) as Hvb.
  { rewrite <-Hrow by lia. unfold tab. by rewrite Nat2Z.id, Hv. }
  split; [|done]. rewrite Hvb. apply crc_bits_range. rewrite Z.shiftl_1_l. split; [lia|].
  apply Z.pow_lt_mono_r; lia.
Qed.

Lemma turbo_next_spec n row : row_for n row → row_for (2 * n) (turbo_next row).
Proof.
  intros Hrow. destruct Hrow as [Hlen Hbits] eqn:E. clear E. split; [by unfold turbo_next; rewrite length_fmap|].
  intros bit Hbit. destruct (lookup_lt_is_Some_2 row (Z.to_nat bit)) as [v Hv]; [lia|].
  unfold tab, turbo_next. rewrite list_lookup_fmap, Hv. cbn [fmap option_fmap option_map default].
  destruct (row_lookup n row _ v Hrow Hv) as [Hr ->]. rewrite Z2Nat.id in * by lia.
  cbn [from_option id]. rewrite (select_bits n row _ 32) by (done || lia).
  rewrite Z.mod_small by done. rewrite Nat.mul_comm, (crc_bits_iter n 2). done.
Qed.

Lemma turbo_rows_spec k r row : row_for (8 * 2 ^ r) row → rows_for r (turbo_rows k row).
Proof.
  revert r row. induction k as [|k IH]; intros r row Hrow; [done|]. split; [done|]. apply IH.
  replace (8 * 2 ^ S r)%nat with (2 * (8 * 2 ^ r))%nat by (rewrite Nat.pow_succ_r'; lia).
  by apply turbo_next_spec.
Qed.

Lemma rows_for_drop k r rows : rows_for r rows → rows_for (k + r) (drop k rows).
Proof.
  revert r rows. induction k as [|k IH]; intros r [|row rows]; [done..|]. intros [_ H].
  replace (S k + r)%nat with (k + S r)%nat by lia. by apply IH.
Qed.

(** The first row, and the rows that the generator makes of it. *)
Definition first_row : list Z := (λ bit, crc_bits 8 (Z.shiftl 1 bit)) <$> seqZ 0 32.

Lemma turbo_row0_literal : turbo_row0 = Ret first_row.
Proof. by vm_compute. Qed.
Lemma turbo_table_literal : crc_turbo_table = turbo_rows 32 first_row.
Proof. by vm_compute. Qed.

Lemma first_row_spec : row_for 8 first_row.
Proof.
  split; [done|]. intros bit Hbit. unfold tab, first_row. rewrite list_lookup_fmap.
  by rewrite (proj2 (lookup_seqZ 0 32 (Z.to_nat bit) bit)) by lia.
Qed.

Lemma turbo_table_rows : rows_for 0 crc_turbo_table.
Proof. rewrite turbo_table_literal. apply turbo_rows_spec, first_row_spec. Qed.

(** ** The interface of the checksum *)

Class Crc32cFuncSpec `{Crc32cFunc} : Prop := { func_computes : computes_crc ceph_crc32c_func }.

(** The routine for processors without an instruction for it. *)
#[export] Instance sctp_func : Crc32cFunc := {| ceph_crc32c_func := ceph_crc32c_sctp |}.
#[export] Instance sctp_func_spec : Crc32cFuncSpec.
Proof. split. exact sctp_computes. Qed.

Section func.
Context `{HF : Crc32cFunc} `{HFS : !Crc32cFuncSpec}.

Lemma zeros_computes crc len :
  0 ≤ crc < 2 ^ 32 → 0 ≤ len < 2 ^ 32 →
  ceph_crc32c_zeros crc len = Ret (crc_bytes crc (zeros (Z.to_nat len))).
Proof.
  intros Hc Hlen. unfold ceph_crc32c_zeros.
  rewrite (turbo_loop_spec 4 (drop 4 crc_turbo_table)); [|apply (rows_for_drop 4 0), turbo_table_rows|done|].
  2: { rewrite Z.shiftr_div_pow2 by lia. change (length (drop 4 crc_turbo_table)) with 28%nat.
       split; [apply Z.div_pos; lia|]. apply Z.div_lt_upper_bound; [lia|]. rewrite <-Z.pow_add_r by lia. apply Hlen. }
  cbn [mbind outcome_bind]. rewrite Z.shiftr_div_pow2 by lia.
  assert (Z.land len 15 = len mod 2 ^ 4) as -> by (change 15 with (Z.ones 4); by rewrite Z.land_ones by lia).
  pose proof (Z.div_mod len (2 ^ 4) ltac:(lia)) as Hdiv. pose proof (Z.mod_pos_bound len (2 ^ 4) ltac:(lia)) as Hm.
  assert (0 ≤ len / 2 ^ 4) by (apply Z.div_pos; lia). rewrite crc_bytes_zeros.
  set (q := len / 2 ^ 4) in *. set (rem := len mod 2 ^ 4) in *. change (2 ^ 4) with 16 in *.
  replace (8 * 2 ^ 4 * Z.to_nat q)%nat with (8 * (16 * Z.to_nat q))%nat by (change (2 ^ 4)%nat with 16%nat; lia).
  case_bool_decide as Hr.
  - destruct (func_computes (crc_bits (8 * (16 * Z.to_nat q)) crc)) as [_ Hz]; [by apply crc_bits_range|].
    rewrite Hz, crc_bytes_zeros, <-crc_bits_add by lia. do 2 f_equal. lia.
  - do 2 f_equal. lia.
Qed.

Lemma crc32c_computes : computes_crc ceph_crc32c.
Proof.
  intros crc Hc. destruct (func_computes crc Hc) as [Hd Hz]. unfold ceph_crc32c. split.
  - intros address p_buf Hok Hlen. rewrite bool_decide_false by (by intros []). by apply Hd.
  - intros length Hl. case_bool_decide; [apply zeros_computes; lia|by apply Hz].
Qed.

End func.
