(* ===== verification/Crc32cCorrect.v ===== *)
(** * CRC-32C: correctness

    The routines for different processors compute the same checksum, the one
    that takes the polynomial bit by bit. *)

From S2P Require Import Prelude ErasureCode Crc32c Crc32cTables Crc32cFacts.

(** C16. The table-driven routine that takes eight bytes at a time (after an
    unaligned start and before an incomplete end, whatever the address) and
    the bytewise one both compute the CRC of the bytes, which is defined bit by
    bit, for less than 2^31 bytes; without data they compute that of as many
    zeros. *)
Theorem crc32c_routines crc address p_buf :
  0 ≤ crc < 2 ^ 32 → bytes_ok p_buf → blen p_buf < 2 ^ 31 →
  Forall (λ func : Z → buffer_ptr → Z → outcome Z,
      func crc (Some (address, p_buf)) (blen p_buf) = Ret (crc_bytes crc p_buf)
      ∧ func crc None (blen p_buf) = Ret (crc_bytes crc (zeros (length p_buf))))
    [ceph_crc32c_sctp; ceph_crc32c_intel_baseline].
Proof.
  intros Hc Hok Hlen.
  assert (∀ func, computes_crc func →
    func crc (Some (address, p_buf)) (blen p_buf) = Ret (crc_bytes crc p_buf)
    ∧ func crc None (blen p_buf) = Ret (crc_bytes crc (zeros (length p_buf)))) as H.
  { intros func Hf. destruct (Hf crc Hc) as [Hd Hz]. split; [by apply Hd|]. rewrite Hz by (unfold blen in *; lia).
    unfold blen. by rewrite Nat2Z.id. }
  apply Forall_cons; split; [apply H, sctp_computes|]. apply Forall_singleton, H, intel_baseline_computes.
Qed.

(** The check value of CRC-32C: 0xE3069283 for the digits from 1 to 9, inverted
    before and after. *)
Lemma crc32c_routines_witness :
  Forall (λ func : Z → buffer_ptr → Z → outcome Z,
      func 0xFFFFFFFF (Some (3, seqZ 49 9)) 9 = Ret (Z.lxor 0xE3069283 0xFFFFFFFF)
      ∧ func 0xFFFFFFFF None 9 = Ret (crc_bytes 0xFFFFFFFF (zeros 9)))
    [ceph_crc32c_sctp; ceph_crc32c_intel_baseline].
Proof.
  replace (Z.lxor 0xE3069283 0xFFFFFFFF) with (crc_bytes 0xFFFFFFFF (seqZ 49 9)) by (by vm_compute).
  apply (crc32c_routines 0xFFFFFFFF 3 (seqZ 49 9)); [lia| |].
  - apply Forall_forall. intros b Hb%elem_of_seqZ. unfold byte_ok. lia.
  - by vm_compute.
Defined.

(** C17. The table by which the checksum of a run of zeros is computed in
    logarithmic time is the one that [create_turbo_table] makes, and with it
    [ceph_crc32c_zeros] computes the CRC of that many zeros, for every length
    of 32 bits and with any routine for the rest of less than 16. *)
Theorem crc32c_zeros `{HF : Crc32cFunc} `{HFS : !Crc32cFuncSpec} crc len :
  0 ≤ crc < 2 ^ 32 → 0 ≤ len < 2 ^ 32 →
  create_turbo_table = Ret crc_turbo_table
  ∧ ceph_crc32c_zeros crc len = Ret (crc_bytes crc (zeros (Z.to_nat len))).
Proof. intros Hc Hl. split; [by vm_compute|by apply zeros_computes]. Qed.

Lemma crc32c_zeros_witness :
  create_turbo_table = Ret crc_turbo_table
  ∧ ceph_crc32c_zeros 1 1000 = Ret (crc_bytes 1 (zeros (Z.to_nat 1000))).
Proof. apply crc32c_zeros; lia. Defined.
