(* ===== verification/Buffer.v ===== *)
(** * Bufferlists

    The buffers of src/src/common/buffer.cc and src/src/include/buffer.h. Raw
    memory is a heap of byte strings, each with its cache of checksums; a [ptr]
    is a range of a raw, a [list] a sequence of them with a cached position and
    a buffer for small appends. Pointers share raws: what is written through
    one is seen through the others. Reference counts are not modelled (a raw
    stays in the heap), and all raws are shareable, so that [make_shareable]
    does nothing. *)

From S2P Require Import Prelude ErasureCode Crc32c.

Module Buffer.

(** ** Raws *)

Record raw := mkRaw { data : bytes; crc_map : gmap (Z * Z) (Z * Z) }.
Abbreviation heap := (gmap Z raw).

Definition get_crc (r : raw) (fromto : Z * Z) : option (Z * Z) := crc_map r !! fromto.
Definition set_crc (r : raw) (fromto crc : Z * Z) : raw :=
  mkRaw (data r) (<[fromto := crc]> (crc_map r)).
Definition invalidate_crc (r : raw) : raw := mkRaw (data r) ∅.

Definition find_raw (h : heap) (r : option Z) : outcome (Z * raw) :=
  id ← need AssertFailed r;
  w ← need NullPointer (h !! id);
  Ret (id, w).

(** Memory outside of a raw is not to be read or written. *)
Definition read_at (w : raw) (off len : Z) : outcome bytes :=
  if bool_decide (0 ≤ off ∧ 0 ≤ len ∧ off + len ≤ blen (data w)) then Ret (substr (data w) off len)
  else Abort OutOfBounds.
Definition write_at (w : raw) (off : Z) (src : bytes) : outcome raw :=
  if bool_decide (0 ≤ off ∧ off + blen src ≤ blen (data w)) then
    Ret (mkRaw (take (Z.to_nat off) (data w) ++ src ++ drop (Z.to_nat (off + blen src)) (data w))
           (crc_map w))
  else Abort OutOfBounds.

(** ** Pointers *)

Record ptr := mkPtr { p_raw : option Z; p_off : Z; p_len : Z }.

Definition null_ptr : ptr := mkPtr None 0 0.
Definition p_end (p : ptr) : Z := u32 (p_off p + p_len p).

Section pointers.
Context `{HA : Allocator}.

(** [buffer::create]: new memory, whatever it holds. *)
Definition create (h : heap) (len : Z) : ptr * heap :=
  let id := fresh (dom h) in
  (mkPtr (Some id) 0 len, <[id := mkRaw (create_aligned id len) ∅]> h).

(** [ptr(p, o, l)]. *)
Definition sub_ptr (p : ptr) (o l : Z) : outcome ptr :=
  _ ← assert_that (bool_decide (u32 (o + l) ≤ p_len p));
  _ ← need AssertFailed (p_raw p);
  Ret (mkPtr (p_raw p) (u32 (p_off p + o)) l).

Definition raw_length (h : heap) (p : ptr) : outcome Z :=
  '(_, w) ← find_raw h (p_raw p); Ret (blen (data w)).

Definition unused_tail_length (h : heap) (p : ptr) : outcome Z :=
  match p_raw p with
  | None => Ret 0
  | Some _ => len ← raw_length h p; Ret (u32 (len - (p_off p + p_len p)))
  end.

Definition set_length (h : heap) (p : ptr) (l : Z) : outcome ptr :=
  len ← raw_length h p;
  _ ← assert_that (bool_decide (l ≤ len));
  Ret (mkPtr (p_raw p) (p_off p) l).
Definition set_offset (h : heap) (p : ptr) (o : Z) : outcome ptr :=
  len ← raw_length h p;
  _ ← assert_that (bool_decide (o ≤ len));
  Ret (mkPtr (p_raw p) o (p_len p)).

(** [l] bytes from [c_str() + o]. *)
Definition read_ptr (h : heap) (p : ptr) (o l : Z) : outcome bytes :=
  '(_, w) ← find_raw h (p_raw p); read_at w (p_off p + o) l.

Definition at_index (h : heap) (p : ptr) (n : Z) : outcome Z :=
  _ ← need AssertFailed (p_raw p);
  _ ← assert_that (bool_decide (n < p_len p));
  b ← read_ptr h p n 1;
  need OutOfBounds (head b).

(** [end_of_buffer] is thrown. *)
Definition copy_out (h : heap) (p : ptr) (o l : Z) : outcome bytes :=
  _ ← need AssertFailed (p_raw p);
  if bool_decide (p_len p < u32 (o + l)) then Abort UncaughtException else read_ptr h p o l.

(** [memcmp], which is negative, zero or positive. *)
Fixpoint memcmp (a b : bytes) : Z :=
  match a, b with
  | x :: a, y :: b => if bool_decide (x = y) then memcmp a b else if bool_decide (x < y) then -1 else 1
  | _, _ => 0
  end.

Definition cmp (h : heap) (p o : ptr) : outcome Z :=
  let l := Z.min (p_len p) (p_len o) in
  r ← (if bool_decide (l ≠ 0) then a ← read_ptr h p 0 l; b ← read_ptr h o 0 l; Ret (memcmp a b) else Ret 0);
  Ret (if bool_decide (r ≠ 0) then r
       else if bool_decide (p_len p < p_len o) then -1
       else if bool_decide (p_len o < p_len p) then 1 else 0).

Definition ptr_is_zero (h : heap) (p : ptr) : outcome bool :=
  b ← read_ptr h p 0 (p_len p); Ret (bool_decide (b = zeros (length b))).

(** [append(p, l)]: the new end, the pointer and the memory. *)
Definition ptr_append (h : heap) (p : ptr) (src : bytes) : outcome (Z * ptr * heap) :=
  '(id, w) ← find_raw h (p_raw p);
  gap ← unused_tail_length h p;
  _ ← assert_that (bool_decide (blen src ≤ gap));
  w ← write_at w (p_off p + p_len p) src;
  let p := mkPtr (p_raw p) (p_off p) (u32 (p_len p + blen src)) in
  Ret (p_end p, p, <[id := w]> h).

Definition ptr_copy_in (h : heap) (p : ptr) (o : Z) (src : bytes) (crc_reset : bool) : outcome heap :=
  '(id, w) ← find_raw h (p_raw p);
  _ ← assert_that (bool_decide (o ≤ p_len p));
  _ ← assert_that (bool_decide (u32 (o + blen src) ≤ p_len p));
  w ← write_at (if crc_reset then invalidate_crc w else w) (p_off p + o) src;
  Ret (<[id := w]> h).

Definition ptr_zero_range (h : heap) (p : ptr) (o l : Z) (crc_reset : bool) : outcome heap :=
  _ ← assert_that (bool_decide (u32 (o + l) ≤ p_len p));
  '(id, w) ← find_raw h (p_raw p);
  w ← write_at (if crc_reset then invalidate_crc w else w) (p_off p + o) (zeros (Z.to_nat l));
  Ret (<[id := w]> h).

Definition ptr_zero (h : heap) (p : ptr) (crc_reset : bool) : outcome heap :=
  '(id, w) ← find_raw h (p_raw p);
  w ← write_at (if crc_reset then invalidate_crc w else w) (p_off p) (zeros (Z.to_nat (p_len p)));
  Ret (<[id := w]> h).

End pointers.

(** ** Lists *)

(** An iterator: the offset from the start, the buffer ([None] is [end()]) and
    the offset in it. *)
Record iterator := mkIterator { it_off : Z; it_p : option nat; it_p_off : Z }.

Record t := mkList {
  _buffers : list ptr;
  _len : Z;
  _memcopy_count : Z;
  append_buffer : ptr;
  last_p : iterator;
}.

Definition position (buffers : list ptr) (i : nat) : option nat :=
  if bool_decide (i < length buffers)%nat then Some i else None.

Definition begin (buffers : list ptr) : iterator := mkIterator 0 (position buffers 0) 0.

Definition empty : t := mkList [] 0 0 null_ptr (mkIterator 0 None 0).

Definition with_buffers (l : t) (bs : list ptr) (len : Z) : t :=
  mkList bs len (_memcopy_count l) (append_buffer l) (last_p l).
Definition with_last_p (l : t) (it : iterator) : t :=
  mkList (_buffers l) (_len l) (_memcopy_count l) (append_buffer l) it.
Definition with_append_buffer (l : t) (p : ptr) : t :=
  mkList (_buffers l) (_len l) (_memcopy_count l) p (last_p l).
Definition rewind (l : t) : t := with_last_p l (begin (_buffers l)).

(** *** Iterators *)

(** The loop that skips buffers, from buffer [i] on. *)
Fixpoint advance_loop (rest : list ptr) (i : nat) (p_off : Z) : outcome (option nat * Z) :=
  if bool_decide (p_off = 0) then Ret (match rest with [] => None | _ => Some i end, 0) else
  match rest with
  | [] => Abort UncaughtException
  | p :: rest =>
      if bool_decide (p_len p ≤ p_off) then advance_loop rest (S i) (p_off - p_len p)
      else Ret (Some i, p_off)
  end.

(** The loop that goes back, with [i] buffers before the current position. *)
Fixpoint retreat_loop (buffers : list ptr) (i : nat) (off p_off o : Z) : outcome (Z * nat * Z) :=
  let d := Z.min o p_off in
  let off := u32 (off - d) in
  let p_off := p_off - d in
  let o := o - d in
  if bool_decide (o = 0) then Ret (off, i, p_off) else
  if bool_decide (0 < off) then
    match i with
    | O => Abort AssertFailed
    | S i => p ← need OutOfBounds (buffers !! i); retreat_loop buffers i off (p_len p) o
    end
  else Abort UncaughtException.

Definition index_of (buffers : list ptr) (p : option nat) : nat := default (length buffers) p.

(** [advance(int o)]. *)
Definition advance (buffers : list ptr) (it : iterator) (o : Z) : outcome iterator :=
  let o := s32 o in
  let i := index_of buffers (it_p it) in
  if bool_decide (0 < o) then
    '(p, p_off) ← advance_loop (drop i buffers) i (u32 (it_p_off it + o));
    Ret (mkIterator (u32 (it_off it + o)) p p_off)
  else if bool_decide (o = 0) then Ret it else
    '(off, i, p_off) ← retreat_loop buffers i (it_off it) (it_p_off it) (- o);
    Ret (mkIterator off (position buffers i) p_off).

Definition seek (buffers : list ptr) (o : Z) : outcome iterator := advance buffers (begin buffers) o.

(** [if (p == ls->end()) seek(off)]. *)
Definition settle (buffers : list ptr) (it : iterator) : outcome iterator :=
  match it_p it with None => seek buffers (it_off it) | Some _ => Ret it end.

(** The rounds of the copying loops: each one leaves a buffer behind, so that
    one more round than there are buffers is enough. *)
Fixpoint copy_loop (h : heap) (buffers : list ptr) (rounds : nat) (it : iterator) (len : Z)
    : outcome (bytes * iterator) :=
  if bool_decide (len = 0) then Ret ([], it) else
  match rounds, it_p it with
  | S rounds, Some i =>
      p ← need OutOfBounds (buffers !! i);
      _ ← assert_that (bool_decide (0 < p_len p));
      let howmuch := Z.min len (u32 (p_len p - it_p_off it)) in
      b ← copy_out h p (it_p_off it) howmuch;
      it ← advance buffers it howmuch;
      '(bs, it) ← copy_loop h buffers rounds it (len - howmuch);
      Ret (b ++ bs, it)
  | _, _ => Abort UncaughtException
  end.

Definition it_copy (h : heap) (buffers : list ptr) (it : iterator) (len : Z) : outcome (bytes * iterator) :=
  it ← settle buffers it;
  copy_loop h buffers (S (length buffers)) it len.

Fixpoint copy_in_loop (h : heap) (buffers : list ptr) (rounds : nat) (it : iterator) (src : bytes)
    (crc_reset : bool) : outcome (heap * iterator) :=
  if bool_decide (src = []) then Ret (h, it) else
  match rounds, it_p it with
  | S rounds, Some i =>
      p ← need OutOfBounds (buffers !! i);
      let howmuch := Z.min (blen src) (u32 (p_len p - it_p_off it)) in
      h ← ptr_copy_in h p (it_p_off it) (take (Z.to_nat howmuch) src) crc_reset;
      it ← advance buffers it howmuch;
      copy_in_loop h buffers rounds it (drop (Z.to_nat howmuch) src) crc_reset
  | _, _ => Abort UncaughtException
  end.

Definition it_copy_in (h : heap) (buffers : list ptr) (it : iterator) (src : bytes) (crc_reset : bool)
    : outcome (heap * iterator) :=
  it ← settle buffers it;
  copy_in_loop h buffers (S (length buffers)) it src crc_reset.

Definition it_at (h : heap) (buffers : list ptr) (it : iterator) : outcome Z :=
  match it_p it with
  | None => Abort UncaughtException
  | Some i => p ← need OutOfBounds (buffers !! i); at_index h p (it_p_off it)
  end.

(** *** Operations that share the raws *)

Definition bl_length (l : t) : Z := _len l.

Definition clear (l : t) : t := mkList [] 0 0 null_ptr (begin []).

Definition push_back (l : t) (bp : ptr) : t :=
  if bool_decide (p_len bp = 0) then l
  else with_buffers l (_buffers l ++ [bp]) (u32 (_len l + p_len bp)).
Definition push_front (l : t) (bp : ptr) : t :=
  if bool_decide (p_len bp = 0) then l
  else
    (* the position is that of the same buffer, which has moved *)
    let it := last_p l in
    mkList (bp :: _buffers l) (u32 (_len l + p_len bp)) (_memcopy_count l) (append_buffer l)
      (mkIterator (it_off it) (S <$> it_p it) (it_p_off it)).

Definition append_ptr (l : t) (bp : ptr) : t :=
  if bool_decide (p_len bp ≠ 0) then push_back l bp else l.

(** [append(bp, off, len)]: a range that continues the last buffer extends
    it. *)
Definition append_sub (h : heap) (l : t) (bp : ptr) (off len : Z) : outcome t :=
  _ ← assert_that (bool_decide (u32 (len + off) ≤ p_len bp));
  match last (_buffers l) with
  | Some b =>
      if bool_decide (p_raw b = p_raw bp ∧ p_end b = u32 (p_off bp + off)) then
        b ← set_length h b (u32 (p_len b + len));
        Ret (with_buffers l (take (pred (length (_buffers l))) (_buffers l) ++ [b]) (u32 (_len l + len)))
      else p ← sub_ptr bp off len; Ret (push_back l p)
  | None => p ← sub_ptr bp off len; Ret (push_back l p)
  end.

Definition append_list (l bl : t) : t :=
  with_buffers l (_buffers l ++ _buffers bl) (u32 (_len l + _len bl)).

(** The other list gives its buffers away. *)
Definition claim_append (l bl : t) : t * t :=
  (with_buffers l (_buffers l ++ _buffers bl) (u32 (_len l + _len bl)), rewind (with_buffers bl [] 0)).

Definition claim_prepend (l bl : t) : t * t :=
  let it := last_p l in
  (mkList (_buffers bl ++ _buffers l) (u32 (_len l + _len bl)) (_memcopy_count l) (append_buffer l)
     (mkIterator (it_off it) ((λ i, length (_buffers bl) + i)%nat <$> it_p it) (it_p_off it)),
   rewind (with_buffers bl [] 0)).

Definition claim (l bl : t) : t * t := claim_append (clear l) bl.

(** The buffers from the one on that has the byte at [off], and the offset in
    it. *)
Fixpoint skip_buffers (buffers : list ptr) (off : Z) : outcome (list ptr * Z) :=
  if bool_decide (off = 0) then Ret (buffers, 0) else
  match buffers with
  | [] => Abort NullPointer
  | p :: rest => if bool_decide (p_len p ≤ off) then skip_buffers rest (off - p_len p) else Ret (buffers, off)
  end.

Fixpoint substr_loop (buffers : list ptr) (off len : Z) : outcome (list ptr * Z) :=
  if bool_decide (len = 0) then Ret ([], 0) else
  match buffers with
  | [] => Abort NullPointer
  | p :: rest =>
      if bool_decide (u32 (off + len) < p_len p) then q ← sub_ptr p off len; Ret ([q], len)
      else
        let howmuch := u32 (p_len p - off) in
        q ← sub_ptr p off howmuch;
        '(qs, total) ← substr_loop rest 0 (u32 (len - howmuch));
        Ret (q :: qs, u32 (howmuch + total))
  end.

Definition substr_of (l other : t) (off len : Z) : outcome t :=
  if bool_decide (bl_length other < u32 (off + len)) then Abort UncaughtException else
  let l := clear l in
  '(curbuf, off) ← skip_buffers (_buffers other) off;
  _ ← assert_that (bool_decide (len = 0 ∨ curbuf ≠ []));
  '(qs, total) ← substr_loop curbuf off len;
  Ret (with_buffers l qs (u32 (_len l + total))).

(** [splice]: the buffers that stay, the bytes that go, and the list that
    claims them. *)
Fixpoint splice_skip (buffers : list ptr) (off : Z) : outcome (list ptr * list ptr * Z) :=
  if bool_decide (off = 0) then Ret ([], buffers, 0) else
  match buffers with
  | [] => Abort AssertFailed
  | p :: rest =>
      if bool_decide (p_len p ≤ off) then
        '(front, curbuf, off) ← splice_skip rest (off - p_len p); Ret (p :: front, curbuf, off)
      else Ret ([], buffers, off)
  end.

Fixpoint splice_loop (h : heap) (curbuf : list ptr) (off len mylen : Z) (claim_by : option t)
    : outcome (list ptr * Z * option t) :=
  if bool_decide (len = 0) then Ret (curbuf, mylen, claim_by) else
  match curbuf with
  | [] => Abort NullPointer
  | p :: rest =>
      if bool_decide (u32 (off + len) < p_len p) then
        claim_by ← (match claim_by with
                    | Some c => c ← append_sub h c p off len; Ret (Some c)
                    | None => Ret None
                    end);
        q ← set_offset h p (u32 (off + len + p_off p));
        q ← set_length h q (u32 (p_len p - (len + off)));
        Ret (q :: rest, u32 (mylen - (off + len)), claim_by)
      else
        let howmuch := u32 (p_len p - off) in
        claim_by ← (match claim_by with
                    | Some c => c ← append_sub h c p off howmuch; Ret (Some c)
                    | None => Ret None
                    end);
        splice_loop h rest 0 (u32 (len - howmuch)) (u32 (mylen - p_len p)) claim_by
  end.

Definition splice (h : heap) (l : t) (off len : Z) (claim_by : option t) : outcome (t * option t) :=
  if bool_decide (len = 0) then Ret (l, claim_by) else
  if bool_decide (bl_length l ≤ off) then Abort UncaughtException else
  '(front, curbuf, off) ← splice_skip (_buffers l) off;
  '(keep, mylen) ← (if bool_decide (off ≠ 0) then
                      p ← need NullPointer (head curbuf);
                      q ← sub_ptr p 0 off; Ret ([q], u32 (_len l + off))
                    else Ret ([], _len l));
  '(rest, mylen, claim_by) ← splice_loop h curbuf off len mylen claim_by;
  Ret (rewind (with_buffers l (front ++ keep ++ rest) mylen), claim_by).

(** *** Operations that allocate *)

Section allocating.
Context `{HA : Allocator}.
(** [sizeof(raw_combined)] and the page size are those of the platform. *)
Context (sizeof_raw_combined page_size : Z).

Definition ALLOC_UNIT : Z := Z.min page_size 4096.
Definition round_up_to (n d : Z) : Z := if bool_decide (n mod d = 0) then n else n + (d - n mod d).

(** [append_buffer = raw_combined::create(len); append_buffer.set_length(0)]. *)
Definition new_append_buffer (h : heap) (l : t) (len : Z) : t * heap :=
  let '(p, h) := create h len in
  (with_append_buffer l (mkPtr (p_raw p) 0 0), h).

Definition append_char (h : heap) (l : t) (c : Z) : outcome (t * heap) :=
  gap ← unused_tail_length h (append_buffer l);
  let '(l, h) := if bool_decide (gap = 0) then new_append_buffer h l (ALLOC_UNIT - sizeof_raw_combined)
                 else (l, h) in
  '(e, p, h) ← ptr_append h (append_buffer l) [c];
  let l := with_append_buffer l p in
  l ← append_sub h l p (u32 (e - 1)) 1;
  Ret (l, h).

(** The size of a new append buffer for [len] bytes. *)
Definition append_alloc (len : Z) : Z :=
  let need := round_up_to len 8 + sizeof_raw_combined in
  round_up_to need ALLOC_UNIT - sizeof_raw_combined.

(** What fits into the append buffer. *)
Definition append_gap (h : heap) (l : t) (src : bytes) : outcome (t * heap * bytes) :=
  gap ← unused_tail_length h (append_buffer l);
  if bool_decide (0 < gap) then
    let gap := Z.min gap (blen src) in
    '(_, p, h) ← ptr_append h (append_buffer l) (take (Z.to_nat gap) src);
    let l := with_append_buffer l p in
    l ← append_sub h l p (u32 (p_len p - gap)) gap;
    Ret (l, h, drop (Z.to_nat gap) src)
  else Ret (l, h, src).

(** The loop: a new buffer holds all that is left, so that two rounds are
    enough. *)
Fixpoint append_loop (rounds : nat) (h : heap) (l : t) (src : bytes) : outcome (t * heap) :=
  if bool_decide (src = []) then Ret (l, h) else
  match rounds with
  | O => Abort StackOverflow
  | S rounds =>
      '(l, h, src) ← append_gap h l src;
      if bool_decide (src = []) then Ret (l, h) else
      let '(l, h) := new_append_buffer h l (append_alloc (blen src)) in
      append_loop rounds h l src
  end.

Definition append (h : heap) (l : t) (src : bytes) : outcome (t * heap) := append_loop 2 h l src.

Definition reserve (h : heap) (l : t) (prealloc : Z) : outcome (t * heap) :=
  gap ← unused_tail_length h (append_buffer l);
  Ret (if bool_decide (gap < prealloc) then new_append_buffer h l prealloc else (l, h)).

Definition append_zero (h : heap) (l : t) (len : Z) : outcome (t * heap) :=
  let '(bp, h) := create h len in
  h ← ptr_zero h bp false;
  Ret (append_ptr l bp, h).

Definition prepend_zero (h : heap) (l : t) (len : Z) : outcome (t * heap) :=
  let '(bp, h) := create h len in
  h ← ptr_zero h bp false;
  let it := last_p l in
  Ret (mkList (bp :: _buffers l) (u32 (_len l + len)) (_memcopy_count l) (append_buffer l)
         (mkIterator (it_off it) (S <$> it_p it) (it_p_off it)), h).

(** [list::invalidate_crc]. *)
Definition list_invalidate_crc (h : heap) (l : t) : heap :=
  foldl (λ h p, match p_raw p with Some id => alter invalidate_crc id h | None => h end) h (_buffers l).

Fixpoint rebuild_loop (h : heap) (nb : ptr) (buffers : list ptr) (pos : Z) : outcome (heap * Z) :=
  match buffers with
  | [] => Ret (h, pos)
  | p :: buffers =>
      b ← read_ptr h p 0 (p_len p);
      h ← ptr_copy_in h nb pos b false;
      rebuild_loop h nb buffers (u32 (pos + p_len p))
  end.

Definition rebuild_into (h : heap) (l : t) (nb : ptr) : outcome (t * heap) :=
  '(h, pos) ← rebuild_loop h nb (_buffers l) 0;
  let bs := if bool_decide (p_len nb ≠ 0) then [nb] else [] in
  let l := mkList bs (_len l) (u32 (_memcopy_count l + pos)) (append_buffer l) (last_p l) in
  Ret (rewind l, list_invalidate_crc h l).

(** The memory that [create_page_aligned] and [create] get differs in its
    address only. *)
Definition rebuild (h : heap) (l : t) : outcome (t * heap) :=
  if bool_decide (_len l = 0) then Ret (with_buffers l [] (_len l), h) else
  let '(nb, h) := create h (_len l) in
  rebuild_into h l nb.

(** The bytes that [c_str()] points to, and the list. *)
Definition c_str (h : heap) (l : t) : outcome (option bytes * t * heap) :=
  match _buffers l with
  | [] => Ret (None, l, h)
  | _ =>
      '(l, h) ← (if bool_decide (1 < length (_buffers l))%nat then rebuild h l else Ret (l, h));
      p ← need NullPointer (head (_buffers l));
      b ← read_ptr h p 0 (p_len p);
      Ret (Some b, l, h)
  end.

End allocating.

(** *** Reading and writing *)

Definition copy (h : heap) (l : t) (off len : Z) : outcome (bytes * t) :=
  if bool_decide (bl_length l < u32 (off + len)) then Abort UncaughtException else
  it ← (if bool_decide (it_off (last_p l) ≠ off) then seek (_buffers l) off else Ret (last_p l));
  '(b, it) ← it_copy h (_buffers l) it len;
  Ret (b, with_last_p l it).

Definition copy_in (h : heap) (l : t) (off : Z) (src : bytes) (crc_reset : bool) : outcome (heap * t) :=
  if bool_decide (bl_length l < u32 (off + blen src)) then Abort UncaughtException else
  it ← (if bool_decide (it_off (last_p l) ≠ off) then seek (_buffers l) off else Ret (last_p l));
  '(h, it) ← it_copy_in h (_buffers l) it src crc_reset;
  Ret (h, with_last_p l it).

Fixpoint index_loop (h : heap) (buffers : list ptr) (n : Z) : outcome Z :=
  match buffers with
  | [] => Abort AssertFailed
  | p :: buffers => if bool_decide (p_len p ≤ n) then index_loop h buffers (n - p_len p) else at_index h p n
  end.
Definition list_at (h : heap) (l : t) (n : Z) : outcome Z :=
  if bool_decide (_len l ≤ n) then Abort UncaughtException else index_loop h (_buffers l) n.

Fixpoint to_str_loop (h : heap) (buffers : list ptr) : outcome bytes :=
  match buffers with
  | [] => Ret []
  | p :: buffers =>
      b ← (if bool_decide (p_len p ≠ 0) then read_ptr h p 0 (p_len p) else Ret []);
      bs ← to_str_loop h buffers;
      Ret (b ++ bs)
  end.
Definition to_str (h : heap) (l : t) : outcome bytes := to_str_loop h (_buffers l).

Fixpoint is_zero_loop (h : heap) (buffers : list ptr) : outcome bool :=
  match buffers with
  | [] => Ret true
  | p :: buffers => z ← ptr_is_zero h p; if (z : bool) then is_zero_loop h buffers else Ret false
  end.
Definition is_zero (h : heap) (l : t) : outcome bool := is_zero_loop h (_buffers l).

Definition zero (h : heap) (l : t) : outcome heap := foldM (λ h p, ptr_zero h p true) h (_buffers l).

Fixpoint zero_loop (h : heap) (buffers : list ptr) (o l p : Z) : outcome heap :=
  match buffers with
  | [] => Ret h
  | it :: buffers =>
      h ← (if bool_decide (o < u32 (p + p_len it)) then
             if bool_decide (o ≤ p ∧ u32 (p + p_len it) ≤ u32 (o + l)) then ptr_zero h it true
             else if bool_decide (o ≤ p) then ptr_zero_range h it 0 (u32 (o + l - p)) true
             else if bool_decide (u32 (p + p_len it) ≤ u32 (o + l)) then
               ptr_zero_range h it (u32 (o - p)) (u32 (p_len it - (o - p))) true
             else ptr_zero_range h it (u32 (o - p)) l true
           else Ret h);
      let p := u32 (p + p_len it) in
      if bool_decide (u32 (o + l) ≤ p) then Ret h else zero_loop h buffers o l p
  end.
Definition zero_range (h : heap) (l : t) (o len : Z) : outcome heap :=
  _ ← assert_that (bool_decide (u32 (o + len) ≤ _len l));
  zero_loop h (_buffers l) o len 0.

(** [contents_equal]: the loop over both lists, [aoff] and [boff] into their
    first buffers. Each round finishes a buffer, so that as many rounds as
    there are buffers in both lists are enough. *)
Fixpoint equal_loop (h : heap) (rounds : nat) (a b : list ptr) (aoff boff : Z) : outcome bool :=
  match a, rounds with
  | [], _ => _ ← assert_that (bool_decide (b = [])); Ret true
  | _, O => Abort StackOverflow
  | pa :: a', S rounds =>
      pb ← need NullPointer (head b);
      let len := Z.min (u32 (p_len pa - aoff)) (u32 (p_len pb - boff)) in
      x ← read_ptr h pa aoff len;
      y ← read_ptr h pb boff len;
      if bool_decide (memcmp x y ≠ 0) then Ret false else
      let aoff := aoff + len in
      let boff := boff + len in
      let '(a, aoff) := if bool_decide (aoff = p_len pa) then (a', 0) else (a, aoff) in
      let '(b, boff) := if bool_decide (boff = p_len pb) then (tail b, 0) else (b, boff) in
      equal_loop h rounds a b aoff boff
  end.
Definition contents_equal (h : heap) (l other : t) : outcome bool :=
  if bool_decide (bl_length l ≠ bl_length other) then Ret false
  else equal_loop h (length (_buffers l) + length (_buffers other)) (_buffers l) (_buffers other) 0 0.

(** *** Checksums *)

Section checksum.
Context `{HF : Crc32cFunc}.

(** One buffer: the checksum found in the cache, converted from another
    initial value, or computed and stored. The address is that of the raw in
    the heap, which does not matter. *)
Definition crc32c_ptr (h : heap) (p : ptr) (crc : Z) : outcome (Z * heap) :=
  '(id, w) ← find_raw h (p_raw p);
  let ofs := (p_off p, p_end p) in
  match get_crc w ofs with
  | Some ccrc =>
      if bool_decide (ccrc.1 = crc) then Ret (ccrc.2, h) else
      adjustment ← ceph_crc32c (Z.lxor ccrc.1 crc) None (p_len p);
      Ret (Z.lxor ccrc.2 adjustment, h)
  | None =>
      b ← read_ptr h p 0 (p_len p);
      crc' ← ceph_crc32c crc (Some (p_off p, b)) (p_len p);
      Ret (crc', <[id := set_crc w ofs (crc, crc')]> h)
  end.

Fixpoint crc32c_loop (h : heap) (buffers : list ptr) (crc : Z) : outcome (Z * heap) :=
  match buffers with
  | [] => Ret (crc, h)
  | p :: buffers =>
      '(crc, h) ← (if bool_decide (p_len p ≠ 0) then crc32c_ptr h p crc else Ret (crc, h));
      crc32c_loop h buffers crc
  end.
Definition crc32c (h : heap) (l : t) (crc : Z) : outcome (Z * heap) := crc32c_loop h (_buffers l) crc.

End checksum.

End Buffer.
