(* ===== verification/BufferFacts.v ===== *)
(** * Bufferlists: what the operations do to the contents

    The contents of a list are the bytes of its buffers in order. A list is
    well formed when its buffers are ranges of raws, its length is that of the
    contents and its cached position points at its offset. *)

From S2P Require Import Prelude ErasureCode Crc32c Crc32cFacts Buffer.

Import Buffer.

(** ** Contents *)

Definition ptr_bytes (h : heap) (p : ptr) : bytes :=
  match p_raw p with
  | Some id => match h !! id with Some w => substr (data w) (p_off p) (p_len p) | None => [] end
  | None => []
  end.

Definition bytes_of (h : heap) (buffers : list ptr) : bytes := concat (ptr_bytes h <$> buffers).
#[global] Arguments ptr_bytes : simpl never.
#[global] Arguments bytes_of : simpl never.
Definition contents (h : heap) (l : t) : bytes := bytes_of h (_buffers l).

Fixpoint total (buffers : list ptr) : Z :=
  match buffers with [] => 0 | p :: buffers => p_len p + total buffers end.

(** A range of a raw that is not empty. *)
Record ptr_ok (h : heap) (p : ptr) : Prop := {
  po_len : 0 < p_len p;
  po_off : 0 ≤ p_off p;
  po_raw : ∃ id w, p_raw p = Some id ∧ h !! id = Some w
    ∧ p_off p + p_len p ≤ blen (data w) < 2 ^ 32;
}.

Lemma ptr_bytes_eq h p id w :
  p_raw p = Some id → h !! id = Some w → ptr_bytes h p = substr (data w) (p_off p) (p_len p).
Proof. intros Hp Hw. unfold ptr_bytes. by rewrite Hp, Hw. Qed.

Lemma blen_ptr_bytes h p : ptr_ok h p → blen (ptr_bytes h p) = p_len p.
Proof.
  intros [Hl Ho (id & w & Hp & Hw & Hr)]. rewrite (ptr_bytes_eq h p id w) by done.
  unfold blen in *. rewrite length_substr by (unfold blen; lia). lia.
Qed.

Lemma total_app bs1 bs2 : total (bs1 ++ bs2) = total bs1 + total bs2.
Proof. induction bs1 as [|p bs1 IH]; [done|]. cbn. rewrite IH. lia. Qed.

Lemma total_nonneg h bs : Forall (ptr_ok h) bs → 0 ≤ total bs.
Proof. induction 1 as [|p bs Hp Hbs IH]; [done|]. cbn. destruct Hp. lia. Qed.

Lemma bytes_of_app h bs1 bs2 : bytes_of h (bs1 ++ bs2) = bytes_of h bs1 ++ bytes_of h bs2.
Proof. unfold bytes_of. by rewrite fmap_app, concat_app. Qed.

Lemma blen_app (a b : bytes) : blen (a ++ b) = blen a + blen b.
Proof. unfold blen. rewrite length_app. lia. Qed.

Lemma blen_bytes_of h bs : Forall (ptr_ok h) bs → blen (bytes_of h bs) = total bs.
Proof.
  induction 1 as [|p bs Hp Hbs IH]; [done|].
  change (bytes_of h (p :: bs)) with (ptr_bytes h p ++ bytes_of h bs).
  rewrite blen_app, blen_ptr_bytes, IH by done. done.
Qed.

(** The bytes around a buffer. *)
Lemma bytes_of_middle h bs i p :
  bs !! i = Some p → bytes_of h bs = bytes_of h (take i bs) ++ ptr_bytes h p ++ bytes_of h (drop (S i) bs).
Proof. intros Hp. rewrite <-(take_drop_middle bs i p Hp) at 1. by rewrite bytes_of_app. Qed.

(** ** Parts of byte strings *)

Lemma substr_substr b o1 l1 o2 l2 :
  0 ≤ o1 → 0 ≤ o2 → 0 ≤ l2 → o2 + l2 ≤ l1 → substr (substr b o1 l1) o2 l2 = substr b (o1 + o2) l2.
Proof.
  intros. unfold substr. rewrite skipn_firstn_comm, drop_drop, take_take. f_equal; [lia|]. f_equal. lia.
Qed.

Lemma substr_app b o l1 l2 :
  0 ≤ o → 0 ≤ l1 → 0 ≤ l2 → substr b o l1 ++ substr b (o + l1) l2 = substr b o (l1 + l2).
Proof.
  intros. unfold substr. rewrite !Z2Nat.inj_add by lia. rewrite <-drop_drop, <-take_take_drop. done.
Qed.

Lemma substr_middle a b c o l :
  0 ≤ o → 0 ≤ l → o + l ≤ blen b → substr (a ++ b ++ c) (blen a + o) l = substr b o l.
Proof.
  intros Ho Hl Hb. rewrite <-(substr_app_l b c) by done. unfold substr, blen.
  rewrite Z2Nat.inj_add, Nat2Z.id by lia. by rewrite <-drop_drop, drop_app_length.
Qed.

Lemma substr_all b : substr b 0 (blen b) = b.
Proof. unfold substr, blen. rewrite Nat2Z.id. by apply take_ge. Qed.

Lemma substr_0 b o : substr b o 0 = [].
Proof. done. Qed.

(** ** Reading *)

Lemma find_raw_some h p id w :
  p_raw p = Some id → h !! id = Some w → find_raw h (p_raw p) = Ret (id, w).
Proof. intros Hp Hw. unfold find_raw. rewrite Hp. cbn. by rewrite Hw. Qed.

Lemma read_ptr_spec h p o l :
  ptr_ok h p → 0 ≤ o → 0 ≤ l → o + l ≤ p_len p →
  read_ptr h p o l = Ret (substr (ptr_bytes h p) o l).
Proof.
  intros [Hl Ho (id & w & Hp & Hw & Hr)] H0 H1 H2. unfold read_ptr.
  rewrite (find_raw_some h p id w) by done. cbn [mbind outcome_bind]. unfold read_at.
  rewrite bool_decide_true by lia. rewrite (ptr_bytes_eq h p id w) by done.
  by rewrite substr_substr by lia.
Qed.

Lemma copy_out_spec h p o l :
  ptr_ok h p → 0 ≤ o → 0 ≤ l → o + l ≤ p_len p < 2 ^ 32 →
  copy_out h p o l = Ret (substr (ptr_bytes h p) o l).
Proof.
  intros Hp H0 H1 H2. unfold copy_out. destruct (po_raw _ _ Hp) as (id & w & Hr & _). rewrite Hr.
  cbn [need mbind outcome_bind]. rewrite u32_small, bool_decide_false by lia. apply read_ptr_spec; [done|lia..].
Qed.

(** ** Iterators *)

(** Lists are shorter than 2 GiB: [advance] takes an [int]. *)
Definition MAX_LIST : Z := 2 ^ 31.

(** The iterator is at an offset. *)
Definition at_pos (buffers : list ptr) (it : iterator) (off : Z) : Prop :=
  it_off it = off ∧
  match it_p it with
  | None => off = total buffers ∧ it_p_off it = 0
  | Some i => ∃ p, buffers !! i = Some p ∧ 0 ≤ it_p_off it < p_len p
                ∧ off = total (take i buffers) + it_p_off it
  end.

Section iterators.
Context (h : heap) (buffers : list ptr) (Hbs : Forall (ptr_ok h) buffers) (Hmax : total buffers < MAX_LIST).

Lemma total_split i p : buffers !! i = Some p → total buffers = total (take i buffers) + p_len p + total (drop (S i) buffers).
Proof. intros Hp. rewrite <-(take_drop_middle _ _ _ Hp) at 1. rewrite total_app. cbn. lia. Qed.

Lemma total_take_nonneg i : 0 ≤ total (take i buffers).
Proof. apply (total_nonneg h). by apply Forall_take. Qed.
Lemma total_drop_nonneg i : 0 ≤ total (drop i buffers).
Proof. apply (total_nonneg h). by apply Forall_drop. Qed.

Lemma total_take_S i p : buffers !! i = Some p → total (take (S i) buffers) = total (take i buffers) + p_len p.
Proof. intros Hp. rewrite (take_S_r _ _ _ Hp), total_app. cbn. lia. Qed.

Lemma at_pos_range it off : at_pos buffers it off → 0 ≤ off ≤ total buffers.
Proof.
  intros [_ H]. destruct (it_p it) as [i|].
  - destruct H as (p & Hp & Hr & ->). pose proof (total_split i p Hp).
    pose proof (total_take_nonneg i). pose proof (total_drop_nonneg (S i)). lia.
  - destruct H as [-> _]. pose proof (total_nonneg h buffers Hbs). lia.
Qed.

Lemma begin_at : at_pos buffers (begin buffers) 0.
Proof.
  split; [done|]. unfold begin, position. cbn. case_bool_decide as Hl.
  - destruct buffers as [|p bs]; [cbn in Hl; lia|]. exists p. apply Forall_cons in Hbs as [[? _ _] _].
    cbn. split; [done|]. lia.
  - destruct buffers; [done|cbn in Hl; lia].
Qed.

Lemma advance_loop_spec off i p_off :
  (i ≤ length buffers)%nat → off = total (take i buffers) + p_off → 0 ≤ p_off → off ≤ total buffers →
  ∃ p q, advance_loop (drop i buffers) i p_off = Ret (p, q) ∧ at_pos buffers (mkIterator off p q) off.
Proof.
  remember (drop i buffers) as rest eqn:Hrest. revert i p_off Hrest.
  induction rest as [|b rest IH]; intros i p_off Hrest Hi Hoff H0 Hle; cbn [advance_loop].
  - assert (i = length buffers) as -> by (apply (f_equal length) in Hrest; rewrite length_drop in Hrest; cbn in Hrest; lia).
    rewrite firstn_all in Hoff. assert (p_off = 0) as -> by lia. rewrite bool_decide_true by done.
    eexists _, _. split; [done|]. split; [done|]. cbn. lia.
  - assert (buffers !! i = Some b) as Hb by (rewrite <-(Nat.add_0_r i), <-lookup_drop, <-Hrest; done).
    pose proof (proj1 (Forall_lookup _ _) Hbs i b Hb) as [Hlen _ _].
    case_bool_decide as Hz.
    + eexists _, _. split; [done|]. split; [done|]. cbn. exists b. split; [done|]. lia.
    + case_bool_decide as Hle'.
      * apply (IH (S i)).
        -- by rewrite <-(Nat.add_1_r i), <-drop_drop, <-Hrest.
        -- pose proof (lookup_lt_Some _ _ _ Hb). lia.
        -- rewrite (total_take_S _ _ Hb). lia.
        -- lia.
        -- done.
      * eexists _, _. split; [done|]. split; [done|]. cbn. exists b. split; [done|]. lia.
Qed.

Lemma s32_int o : 0 ≤ o < 2 ^ 31 → s32 o = o.
Proof. intros. apply s32_small. lia. Qed.

Lemma advance_spec it off o :
  at_pos buffers it off → 0 ≤ o → off + o ≤ total buffers →
  ∃ it', advance buffers it o = Ret it' ∧ at_pos buffers it' (off + o).
Proof.
  intros Hat Ho Hle. pose proof (at_pos_range _ _ Hat) as Hr. unfold MAX_LIST in Hmax.
  unfold advance. rewrite s32_int by lia. destruct Hat as [Hoff Hp].
  case_bool_decide as Hpos.
  2: { rewrite bool_decide_true by lia. exists it. split; [done|]. replace (off + o) with off by lia. by split. }
  assert (∃ i, index_of buffers (it_p it) = i ∧ (i ≤ length buffers)%nat
    ∧ off = total (take i buffers) + it_p_off it ∧ 0 ≤ it_p_off it) as (i & -> & Hi & Hpo & Hpn).
  { unfold index_of. destruct (it_p it) as [j|]; cbn.
    - destruct Hp as (p & Hp & ? & ?). pose proof (lookup_lt_Some _ _ _ Hp). exists j. lia.
    - exists (length buffers). rewrite firstn_all. lia. }
  pose proof (total_take_nonneg i).
  rewrite (u32_small (it_p_off it + o)), (u32_small (it_off it + o)) by lia.
  destruct (advance_loop_spec (off + o) i (it_p_off it + o)) as (p & q & -> & Hat); [lia..|].
  cbn [mbind outcome_bind]. eexists. split; [reflexivity|]. by rewrite Hoff.
Qed.

Lemma seek_spec o : 0 ≤ o ≤ total buffers → ∃ it, seek buffers o = Ret it ∧ at_pos buffers it o.
Proof.
  intros Ho. destruct (advance_spec (begin buffers) 0 o begin_at) as (it & Hs & Hat); [lia..|]. by exists it.
Qed.

(** The cached position: where it says, or at the end of what was there. *)
Definition it_ok (it : iterator) : Prop :=
  match it_p it with
  | None => 0 ≤ it_off it ≤ total buffers
  | Some _ => at_pos buffers it (it_off it)
  end.

Lemma at_pos_ok it off : at_pos buffers it off → it_ok it.
Proof.
  intros Hat. pose proof (at_pos_range _ _ Hat). destruct Hat as [Hoff Hp]. unfold it_ok.
  destruct (it_p it) eqn:E; [|lia]. split; [done|]. rewrite E, Hoff. done.
Qed.

Lemma settle_spec it : it_ok it → ∃ it', settle buffers it = Ret it' ∧ at_pos buffers it' (it_off it).
Proof.
  unfold it_ok, settle. destruct (it_p it); [by eexists|]. apply seek_spec.
Qed.

(** The rest of the buffer at a position. *)
Lemma at_pos_buffer it off :
  at_pos buffers it off → off < total buffers →
  ∃ i p, it_p it = Some i ∧ buffers !! i = Some p ∧ 0 ≤ it_p_off it < p_len p
    ∧ off = total (take i buffers) + it_p_off it ∧ ptr_ok h p.
Proof.
  intros [Hoff Hp] Hlt. destruct (it_p it) as [i|]; [|lia]. destruct Hp as (p & Hp & Hr & Ho).
  exists i, p. split_and!; try done; try lia. by apply (proj1 (Forall_lookup _ _) Hbs i p Hp).
Qed.

Lemma substr_at it off i p l :
  buffers !! i = Some p → ptr_ok h p → off = total (take i buffers) + it_p_off it → 0 ≤ it_p_off it →
  0 ≤ l → it_p_off it + l ≤ p_len p →
  substr (ptr_bytes h p) (it_p_off it) l = substr (bytes_of h buffers) off l.
Proof.
  intros Hp Hpok -> H0 Hl Hle. rewrite (bytes_of_middle h _ _ _ Hp).
  rewrite <-(blen_bytes_of h (take i buffers)) by (by apply Forall_take).
  rewrite substr_middle; [done|done|done|]. by rewrite blen_ptr_bytes.
Qed.

(** The buffers that are left. *)
Definition left_of (it : iterator) : nat := (length buffers - index_of buffers (it_p it))%nat.

Lemma advance_left it it' off o i p :
  at_pos buffers it off → at_pos buffers it' (off + o) → it_p it = Some i → buffers !! i = Some p →
  p_len p ≤ it_p_off it + o → (left_of it' < left_of it)%nat.
Proof.
  intros [_ H1] [_ H2] Hi Hp Hle. rewrite Hi in H1. destruct H1 as (p' & Hp' & Hr & Ho).
  rewrite Hp in Hp'. injection Hp' as <-. pose proof (lookup_lt_Some _ _ _ Hp) as Hlt.
  unfold left_of, index_of. rewrite Hi. cbn. destruct (it_p it') as [j|] eqn:Hj; cbn; [|lia].
  destruct H2 as (q & Hq & Hrq & Hoq). pose proof (lookup_lt_Some _ _ _ Hq).
  destruct (decide (i < j)%nat); [lia|]. exfalso.
  assert (total (take (S j) buffers) ≤ total (take (S i) buffers)) as Hm.
  { replace (take (S j) buffers) with (take (S j) (take (S i) buffers)) by (rewrite take_take; f_equal; lia).
    rewrite <-(take_drop (S j) (take (S i) buffers)) at 2. rewrite total_app.
    assert (0 ≤ total (drop (S j) (take (S i) buffers))); [|lia].
    apply (total_nonneg h). by apply Forall_drop, Forall_take. }
  rewrite (total_take_S _ _ Hp), (total_take_S _ _ Hq) in Hm. lia.
Qed.

Lemma copy_loop_spec rounds it off len :
  at_pos buffers it off → 0 ≤ len → off + len ≤ total buffers → (left_of it < rounds)%nat →
  ∃ it', copy_loop h buffers rounds it len = Ret (substr (bytes_of h buffers) off len, it')
    ∧ at_pos buffers it' (off + len).
Proof.
  revert it off len. induction rounds as [|rounds IH]; intros it off len Hat Hlen Hle Hrounds; [lia|].
  cbn [copy_loop]. case_bool_decide as Hz.
  { exists it. rewrite Hz, substr_0, Z.add_0_r. done. }
  destruct (at_pos_buffer it off Hat ltac:(lia)) as (i & p & Hi & Hp & Hr & Ho & Hpok).
  pose proof (total_split i p Hp). pose proof (total_take_nonneg i). pose proof (total_drop_nonneg (S i)).
  unfold MAX_LIST in Hmax. rewrite Hi, Hp. cbn [need mbind outcome_bind].
  rewrite (bool_decide_true (0 < p_len p)) by lia. cbn [assert_that mbind outcome_bind].
  rewrite (u32_small (p_len p - it_p_off it)) by lia. set (m := Z.min len (p_len p - it_p_off it)).
  rewrite copy_out_spec by (done || lia). cbn [mbind outcome_bind].
  destruct (advance_spec it off m Hat) as (it1 & -> & Hat1); [lia..|]. cbn [mbind outcome_bind].
  destruct (decide (len = m)) as [Heq|Hne].
  - exists it1. rewrite <-Heq, Z.sub_diag.
    assert (copy_loop h buffers rounds it1 0 = Ret ([], it1)) as -> by (by destruct rounds).
    cbn [mbind outcome_bind]. rewrite app_nil_r, (substr_at it off i p) by (done || lia).
    split; [done|]. by rewrite Heq.
  - destruct (IH it1 (off + m) (len - m)) as (it2 & -> & Hat2); [done|lia|lia| |].
    { pose proof (advance_left it it1 off m i p Hat Hat1 Hi Hp ltac:(lia)). lia. }
    cbn [mbind outcome_bind]. exists it2. rewrite (substr_at it off i p) by (done || lia).
    rewrite substr_app by lia. replace (m + (len - m)) with len by lia. split; [done|].
    by replace (off + len) with (off + m + (len - m)) by lia.
Qed.

Lemma it_copy_spec it len :
  it_ok it → 0 ≤ len → it_off it + len ≤ total buffers →
  ∃ it', it_copy h buffers it len = Ret (substr (bytes_of h buffers) (it_off it) len, it')
    ∧ at_pos buffers it' (it_off it + len).
Proof.
  intros Hok Hlen Hle. unfold it_copy. destruct (settle_spec it Hok) as (it1 & -> & Hat).
  cbn [mbind outcome_bind]. apply copy_loop_spec; [done..|]. unfold left_of. lia.
Qed.

End iterators.

(** ** Lists *)

(** The buffer for small appends: a raw that is filled from its start. *)
Definition append_ok (h : heap) (p : ptr) : Prop :=
  p = null_ptr
  ∨ p_off p = 0 ∧ 0 ≤ p_len p ∧ ∃ id w, p_raw p = Some id ∧ h !! id = Some w ∧ p_len p ≤ blen (data w) < 2 ^ 32.

Record list_ok (h : heap) (l : t) : Prop := {
  lo_buffers : Forall (ptr_ok h) (_buffers l);
  lo_len : _len l = total (_buffers l);
  lo_max : total (_buffers l) < MAX_LIST;
  lo_last : it_ok (_buffers l) (last_p l);
  lo_append : append_ok h (append_buffer l);
}.

Lemma blen_contents h l : list_ok h l → blen (contents h l) = _len l.
Proof. intros Hl. unfold contents. rewrite (lo_len _ _ Hl). apply blen_bytes_of, Hl. Qed.

Lemma copy_spec h l off len :
  list_ok h l → 0 ≤ off → 0 ≤ len → off + len ≤ _len l →
  ∃ l', copy h l off len = Ret (substr (contents h l) off len, l') ∧ list_ok h l' ∧ _buffers l' = _buffers l
    ∧ append_buffer l' = append_buffer l.
Proof.
  intros [Hbs Hlen Hmax Hlast Hap] Ho Hl Hle. unfold copy, bl_length.
  rewrite u32_small, bool_decide_false by (unfold MAX_LIST in Hmax; lia).
  assert (∃ it, (if bool_decide (it_off (last_p l) ≠ off) then seek (_buffers l) off else Ret (last_p l)) = Ret it
    ∧ it_ok (_buffers l) it ∧ it_off it = off) as (it & -> & Hit & <-).
  { case_bool_decide as He.
    - destruct (seek_spec h (_buffers l) Hbs Hmax off) as (it & -> & Hat); [lia|]. exists it. split; [done|].
      split; [by eapply at_pos_ok|apply Hat].
    - exists (last_p l). split; [done|]. split; [done|]. lia. }
  cbn [mbind outcome_bind].
  destruct (it_copy_spec h (_buffers l) Hbs Hmax it len Hit Hl) as (it' & -> & Hat); [lia|].
  cbn [mbind outcome_bind]. eexists. split; [done|]. split; [|done].
  split; [done..| |done]. by eapply at_pos_ok.
Qed.

(** *** Adding buffers at the end *)

Lemma it_ok_app bs more it : 0 ≤ total more → it_ok bs it → it_ok (bs ++ more) it.
Proof.
  intros Hm. unfold it_ok, at_pos. destruct (it_p it) as [i|]; [|rewrite total_app; lia].
  intros (_ & p & Hp & Hr & Ho). split; [done|]. exists p. rewrite lookup_app_l, take_app_le; [done|..];
    apply lookup_lt_Some in Hp; lia.
Qed.

Lemma with_buffers_app_ok h l more :
  list_ok h l → Forall (ptr_ok h) more → _len l + total more < MAX_LIST →
  list_ok h (with_buffers l (_buffers l ++ more) (u32 (_len l + total more))).
Proof.
  intros [Hbs Hlen Hmax Hlast Hap] Hmore Hle. pose proof (total_nonneg h more Hmore).
  pose proof (total_nonneg h _ Hbs). unfold MAX_LIST in *. split; cbn.
  - by apply Forall_app.
  - rewrite u32_small, total_app by lia. lia.
  - rewrite total_app. unfold MAX_LIST. lia.
  - by apply it_ok_app.
  - done.
Qed.

Lemma push_back_spec h l p :
  list_ok h l → ptr_ok h p → _len l + p_len p < MAX_LIST →
  list_ok h (push_back l p) ∧ contents h (push_back l p) = contents h l ++ ptr_bytes h p
  ∧ _len (push_back l p) = _len l + p_len p.
Proof.
  intros Hl Hp Hle. pose proof (po_len _ _ Hp). unfold push_back. rewrite bool_decide_false by lia.
  pose proof (with_buffers_app_ok h l [p] Hl ltac:(by constructor)) as H'. cbn in H'. rewrite Z.add_0_r in H'.
  split; [by apply H'|]. unfold contents. cbn. rewrite bytes_of_app. unfold bytes_of at 2. cbn. rewrite app_nil_r.
  split; [done|]. pose proof (lo_len _ _ Hl). pose proof (total_nonneg h _ (lo_buffers _ _ Hl)).
  unfold MAX_LIST in *. by rewrite u32_small by lia.
Qed.

Lemma append_list_spec h l bl :
  list_ok h l → list_ok h bl → _len l + _len bl < MAX_LIST →
  list_ok h (append_list l bl) ∧ contents h (append_list l bl) = contents h l ++ contents h bl
  ∧ _len (append_list l bl) = _len l + _len bl.
Proof.
  intros Hl Hbl Hle. unfold append_list. pose proof (lo_len _ _ Hbl) as Hlen.
  pose proof (with_buffers_app_ok h l (_buffers bl) Hl (lo_buffers _ _ Hbl)) as H'. rewrite <-Hlen in H'.
  split; [by apply H'|]. unfold contents. cbn. rewrite bytes_of_app. split; [done|].
  pose proof (lo_len _ _ Hl). pose proof (total_nonneg h _ (lo_buffers _ _ Hl)).
  pose proof (total_nonneg h _ (lo_buffers _ _ Hbl)). unfold MAX_LIST in *. by rewrite u32_small by lia.
Qed.

Lemma emptied_ok h l : list_ok h l → list_ok h (rewind (with_buffers l [] 0)).
Proof. intros Hl. split; cbn; [done|done|done|done|apply Hl]. Qed.

Lemma clear_ok h l : list_ok h (clear l).
Proof. split; cbn; [done..|by left]. Qed.

Lemma claim_append_spec h l bl :
  list_ok h l → list_ok h bl → _len l + _len bl < MAX_LIST →
  list_ok h (claim_append l bl).1 ∧ contents h (claim_append l bl).1 = contents h l ++ contents h bl
  ∧ list_ok h (claim_append l bl).2 ∧ contents h (claim_append l bl).2 = [].
Proof.
  intros Hl Hbl Hle. destruct (append_list_spec h l bl Hl Hbl Hle) as (H1 & H2 & _).
  split_and!; [done|done|by apply emptied_ok|done].
Qed.

(** A range that ends within a range of the pool. *)
Definition within (pool : list ptr) (p : ptr) : Prop :=
  ∃ q, q ∈ pool ∧ p_raw p = p_raw q ∧ p_off p + p_len p ≤ p_off q + p_len q.

Lemma within_self pool p : p ∈ pool → within pool p.
Proof. by exists p. Qed.
Lemma within_mono pool pool' p : pool ⊆ pool' → within pool p → within pool' p.
Proof. intros Hsub (q & Hq & ?). exists q. split; [by apply Hsub|done]. Qed.
Lemma within_all pool bs : bs ⊆ pool → Forall (within pool) bs.
Proof. intros Hsub. apply Forall_forall. intros p Hp. by apply within_self, Hsub. Qed.
Lemma within_all_mono pool pool' bs : pool ⊆ pool' → Forall (within pool) bs → Forall (within pool') bs.
Proof. intros Hsub Hbs. eapply Forall_impl; [exact Hbs|]. intros p. by apply within_mono. Qed.

Lemma sub_ptr_spec h p o l :
  ptr_ok h p → 0 ≤ o → 0 < l → o + l ≤ p_len p →
  ∃ q, sub_ptr p o l = Ret q ∧ ptr_ok h q ∧ ptr_bytes h q = substr (ptr_bytes h p) o l ∧ p_len q = l
    ∧ within [p] q.
Proof.
  intros [Hlen Hoff (id & w & Hr & Hw & Hle)] Ho Hl Hol. unfold sub_ptr.
  rewrite (u32_small (o + l)), bool_decide_true by lia. rewrite Hr. cbn [assert_that need mbind outcome_bind].
  rewrite u32_small by lia. eexists. split; [reflexivity|]. split_and!; [|..|done|].
  - split; cbn; [done|lia|]. exists id, w. split_and!; [done|done|lia|lia].
  - rewrite !(ptr_bytes_eq h _ id w) by done. cbn. by rewrite substr_substr by lia.
  - exists p. split; [set_solver|]. cbn. split; [done|lia].
Qed.

Lemma raw_length_spec h p id w : p_raw p = Some id → h !! id = Some w → raw_length h p = Ret (blen (data w)).
Proof. intros Hp Hw. unfold raw_length. by rewrite (find_raw_some h p id w). Qed.

Lemma it_ok_longer bs b b' it : p_len b ≤ p_len b' → it_ok (bs ++ [b]) it → it_ok (bs ++ [b']) it.
Proof.
  intros Hle. unfold it_ok, at_pos. destruct (it_p it) as [i|].
  - intros (_ & p & Hp & Hr & Ho). split; [done|]. apply lookup_app_Some in Hp as [Hp|[Hge Hp]].
    + exists p. rewrite lookup_app_l, take_app_le by (apply lookup_lt_Some in Hp; lia).
      rewrite take_app_le in Ho by (apply lookup_lt_Some in Hp; lia). done.
    + apply list_lookup_singleton_Some in Hp as [Hi <-]. exists b'.
      rewrite lookup_app_r by done. rewrite Hi. assert (i = length bs) as -> by lia.
      rewrite take_app_length in *. split; [done|]. lia.
  - rewrite !total_app. cbn. lia.
Qed.

(** Two ranges of a raw that touch. *)
Lemma touching_bytes h b bp off len id w :
  p_raw b = Some id → p_raw bp = Some id → h !! id = Some w →
  0 ≤ p_off b → 0 ≤ p_len b → 0 ≤ off → 0 ≤ len → 0 ≤ p_off bp → off + len ≤ p_len bp →
  p_off b + p_len b = p_off bp + off →
  ptr_bytes h (mkPtr (p_raw b) (p_off b) (p_len b + len)) = ptr_bytes h b ++ substr (ptr_bytes h bp) off len.
Proof.
  intros Hb Hbp Hw H1 H2 H3 H4 H5 H6 He. rewrite !(ptr_bytes_eq h _ id w) by done. cbn.
  rewrite substr_substr, <-He by lia. by rewrite substr_app by lia.
Qed.

Lemma append_sub_spec h l bp off len :
  list_ok h l → ptr_ok h bp → 0 ≤ off → 0 < len → off + len ≤ p_len bp → _len l + len < MAX_LIST →
  ∃ l', append_sub h l bp off len = Ret l' ∧ list_ok h l'
    ∧ contents h l' = contents h l ++ substr (ptr_bytes h bp) off len
    ∧ _len l' = _len l + len ∧ append_buffer l' = append_buffer l ∧ Forall (within (bp :: _buffers l)) (_buffers l').
Proof.
  intros Hl Hbp Ho Hlen Hle Hmax.
  assert (∃ q, sub_ptr bp off len = Ret q ∧ list_ok h (push_back l q)
    ∧ contents h (push_back l q) = contents h l ++ substr (ptr_bytes h bp) off len
    ∧ _len (push_back l q) = _len l + len ∧ append_buffer (push_back l q) = append_buffer l
    ∧ Forall (within (bp :: _buffers l)) (_buffers (push_back l q))) as Hpush.
  { destruct (sub_ptr_spec h bp off len Hbp Ho Hlen Hle) as (q & Hq & Hqok & Hqb & Hql & Hqw).
    destruct (push_back_spec h l q Hl Hqok) as (H1 & H2 & H3); [lia|]. exists q.
    rewrite H2, Hqb. rewrite Hql in H3. split_and!; try done; unfold push_back; [by case_bool_decide|].
    rewrite bool_decide_false by lia. cbn. apply Forall_app. split; [apply within_all; set_solver|].
    constructor; [|done]. eapply within_mono; [|exact Hqw]. set_solver. }
  destruct Hpush as (q & Hq & Hq1 & Hq2 & Hq3 & Hq4 & Hq5). destruct (po_raw _ _ Hbp) as (id & w & Hr & Hw & Hrange).
  pose proof (po_off _ _ Hbp). unfold append_sub. rewrite (u32_small (len + off)), bool_decide_true by lia. cbn [assert_that mbind outcome_bind].
  destruct (last (_buffers l)) as [b|] eqn:Hlast; [|rewrite Hq; by exists (push_back l q)].
  case_bool_decide as Htouch; [|rewrite Hq; by exists (push_back l q)]. clear Hq Hq1 Hq2 Hq3 Hq4 Hq5 q.
  destruct Htouch as [Hraw Hend]. apply last_Some in Hlast as [bs Hbs].
  destruct Hl as [Hall Hll Hlmax Hit Hap]. rewrite Hbs in *. apply Forall_app in Hall as [Hbsok [Hb _]%Forall_cons].
  destruct Hb as [Hb1 Hb2 (id' & w' & Hr' & Hw' & Hrange')]. assert (id' = id) as -> by congruence.
  assert (w' = w) as -> by congruence.
  unfold p_end in Hend. rewrite !u32_small in Hend by lia. rewrite total_app in *. cbn [total] in *.
  pose proof (total_nonneg h bs Hbsok). unfold MAX_LIST in *. rewrite (u32_small (p_len b + len)) by lia.
  unfold set_length. rewrite (raw_length_spec h b id w) by done. cbn [mbind outcome_bind].
  rewrite bool_decide_true by lia. cbn [assert_that mbind outcome_bind].
  eexists. split; [reflexivity|]. rewrite length_app. cbn [length].
  replace (pred (length bs + 1)) with (length bs) by lia. rewrite take_app_length.
  split; [split|split_and!]; cbn [_buffers _len last_p append_buffer with_buffers contents].
  - apply Forall_app. split; [done|]. constructor; [|done]. split; cbn; [lia|done|]. exists id, w.
    split_and!; [done|done|lia|lia].
  - rewrite u32_small, total_app by lia. cbn. lia.
  - rewrite total_app. cbn. unfold MAX_LIST. lia.
  - apply (it_ok_longer _ b); [cbn; lia|done].
  - done.
  - unfold contents. cbn. rewrite Hbs, !bytes_of_app, <-app_assoc. f_equal. unfold bytes_of. cbn. rewrite !app_nil_r.
    by apply (touching_bytes h b bp off len id w); try lia.
  - by rewrite u32_small by lia.
  - done.
  - apply Forall_app. split; [apply within_all; set_solver|]. constructor; [|done].
    exists bp. split; [set_solver|]. cbn. split; [congruence|lia].
Qed.

(** *** Parts of a list *)

Lemma skip_buffers_spec h bs off :
  Forall (ptr_ok h) bs → 0 ≤ off ≤ total bs →
  ∃ front cur o, skip_buffers bs off = Ret (cur, o) ∧ bs = front ++ cur ∧ off = total front + o ∧ 0 ≤ o
    ∧ match cur with [] => o = 0 | p :: _ => o < p_len p end.
Proof.
  intros Hbs. revert off. induction Hbs as [|p bs Hp Hbs IH]; intros off Hoff; cbn [skip_buffers].
  - exists [], [], 0. cbn in Hoff. rewrite bool_decide_true by lia. cbn. split_and!; try done. lia.
  - pose proof (po_len _ _ Hp). case_bool_decide as Hz.
    { exists [], (p :: bs), 0. subst. by split_and!. }
    cbn in Hoff. case_bool_decide as Hle.
    + destruct (IH (off - p_len p)) as (front & cur & o & -> & -> & He & ? & ?); [lia|].
      exists (p :: front), cur, o. split_and!; try done. cbn. lia.
    + exists [], (p :: bs), off. split_and!; try done; try lia.
Qed.

Lemma substr_loop_spec h bs off len :
  Forall (ptr_ok h) bs → 0 ≤ off → match bs with [] => off = 0 | p :: _ => off < p_len p end →
  0 ≤ len → off + len ≤ total bs → total bs < MAX_LIST →
  ∃ qs, substr_loop bs off len = Ret (qs, len) ∧ Forall (ptr_ok h) qs ∧ total qs = len
    ∧ bytes_of h qs = substr (bytes_of h bs) off len ∧ Forall (within bs) qs.
Proof.
  unfold MAX_LIST. intros Hbs. revert off len. induction Hbs as [|p bs Hp Hbs IH]; intros off len Ho Hhd Hl Hle Hmax;
    cbn [substr_loop]; (case_bool_decide as Hz; [subst; exists []; by rewrite substr_0|]).
  { cbn in Hle. lia. }
  cbn [total] in *. pose proof (po_len _ _ Hp) as Hpl. pose proof (total_nonneg h bs Hbs).
  rewrite (u32_small (off + len)) by lia. change (bytes_of h (p :: bs)) with (ptr_bytes h p ++ bytes_of h bs).
  pose proof (blen_ptr_bytes h p Hp) as Hpb. case_bool_decide as Hlt.
  - destruct (sub_ptr_spec h p off len Hp) as (q & -> & Hq & Hqb & Hql & Hqw); [lia..|]. cbn [mbind outcome_bind].
    exists [q]. split; [done|]. split; [by constructor|]. split; [cbn; lia|]. split.
    + unfold bytes_of. cbn. rewrite app_nil_r, Hqb, substr_app_l by lia. done.
    + constructor; [|done]. eapply within_mono; [|exact Hqw]. set_solver.
  - rewrite (u32_small (p_len p - off)) by lia. set (m := p_len p - off).
    destruct (sub_ptr_spec h p off m Hp) as (q & -> & Hq & Hqb & Hql & Hqw); [lia..|]. cbn [mbind outcome_bind].
    rewrite (u32_small (len - m)) by lia.
    destruct (IH 0 (len - m)) as (qs & -> & Hqs & Htot & Hb & Hqsw); [lia| |lia..|].
    { destruct Hbs as [|p' bs' Hp' _]; [done|]. apply (po_len _ _ Hp'). }
    cbn [mbind outcome_bind]. rewrite u32_small by lia. exists (q :: qs).
    replace (m + (len - m)) with len by lia. split; [done|]. split; [by constructor|]. split; [cbn; lia|]. split.
    2: { constructor; [eapply within_mono; [|exact Hqw]|eapply within_all_mono; [|exact Hqsw]]; set_solver. }
    change (bytes_of h (q :: qs)) with (ptr_bytes h q ++ bytes_of h qs). rewrite Hqb, Hb.
    replace len with (m + (len - m)) at 2 by lia. rewrite <-(substr_app _ off m) by lia.
    rewrite (substr_app_l (ptr_bytes h p)) by lia. f_equal.
    pose proof (substr_middle (ptr_bytes h p) (bytes_of h bs) [] 0 (len - m)) as Hm. rewrite app_nil_r, Hpb in Hm.
    rewrite blen_bytes_of in Hm by done. replace (off + m) with (p_len p + 0) by lia. symmetry. apply Hm; lia.
Qed.

Lemma substr_of_spec h l other off len :
  list_ok h other → 0 ≤ off → 0 ≤ len → off + len ≤ _len other →
  ∃ l', substr_of l other off len = Ret l' ∧ list_ok h l' ∧ contents h l' = substr (contents h other) off len
    ∧ append_buffer l' = null_ptr ∧ Forall (within (_buffers other)) (_buffers l').
Proof.
  intros [Hbs Hlen Hmax _ _] Ho Hl Hle. unfold substr_of, bl_length. unfold MAX_LIST in Hmax.
  rewrite u32_small, bool_decide_false by lia.
  destruct (skip_buffers_spec h (_buffers other) off Hbs) as (front & cur & o & -> & Heq & -> & Ho' & Hhd); [lia|].
  rewrite Heq in *. apply Forall_app in Hbs as [Hfront Hcur]. rewrite total_app in *.
  pose proof (total_nonneg h front Hfront). cbn [mbind outcome_bind].
  rewrite bool_decide_true by (destruct cur; [left; cbn in *; lia|by right]). cbn [assert_that mbind outcome_bind].
  destruct (substr_loop_spec h cur o len Hcur Ho' Hhd Hl) as (qs & -> & Hqs & Htot & Hb & Hw);
    [lia|unfold MAX_LIST; lia|].
  cbn [mbind outcome_bind]. eexists. split; [reflexivity|]. cbn. split; [split; cbn|split_and!]; try done.
  - rewrite u32_small; lia.
  - unfold MAX_LIST. lia.
  - change (0 ≤ 0 ≤ total qs). lia.
  - by left.
  - unfold contents. cbn. rewrite Hb, Heq, bytes_of_app. rewrite <-(blen_bytes_of h front) by done.
    pose proof (substr_middle (bytes_of h front) (bytes_of h cur) [] o len) as Hm. rewrite app_nil_r in Hm.
    symmetry. apply Hm; [done..|]. rewrite blen_bytes_of by done. lia.
  - eapply within_all_mono; [|exact Hw]. set_solver.
Qed.

(** *** Taking a part out of a list *)

Lemma splice_skip_spec h bs off :
  Forall (ptr_ok h) bs → 0 ≤ off < total bs →
  ∃ front p cur o, splice_skip bs off = Ret (front, p :: cur, o) ∧ bs = front ++ p :: cur ∧ off = total front + o
    ∧ 0 ≤ o < p_len p.
Proof.
  intros Hbs. revert off. induction Hbs as [|p bs Hp Hbs IH]; intros off Hoff; cbn [splice_skip]; [cbn in Hoff; lia|].
  pose proof (po_len _ _ Hp). case_bool_decide as Hz.
  { exists [], p, bs, 0. subst. by split_and!. }
  cbn in Hoff. case_bool_decide as Hle.
  - destruct (IH (off - p_len p)) as (front & p' & cur & o & -> & -> & He & ?); [lia|].
    exists (p :: front), p', cur, o. split_and!; try done; cbn; lia.
  - exists [], p, bs, off. split_and!; try done; lia.
Qed.

(** The list that takes the bytes, where there is one. *)
Definition claim_fits (h : heap) (c : option t) (len : Z) : Prop :=
  match c with Some c => list_ok h c ∧ _len c + len < MAX_LIST | None => True end.
Definition claimed (h : heap) (pool : list ptr) (c c' : option t) (b : bytes) : Prop :=
  match c, c' with
  | Some c, Some c' => list_ok h c' ∧ contents h c' = contents h c ++ b ∧ _len c' = _len c + blen b
      ∧ append_buffer c' = append_buffer c ∧ Forall (within (pool ++ _buffers c)) (_buffers c')
  | None, None => True
  | _, _ => False
  end.

Lemma claimed_refl h pool c len : claim_fits h c len → claimed h pool c c [].
Proof.
  destruct c as [c|]; [|done]. intros [Hc _]. split; [done|]. rewrite app_nil_r, Z.add_0_r. split_and!; try done.
  apply within_all. set_solver.
Qed.

Lemma within_trans pool more pool' p :
  Forall (within pool) more → within (pool' ++ more) p → within (pool' ++ pool) p.
Proof.
  intros Hm (q & [Hq|Hq]%elem_of_app & Hr & Hle); [exists q; set_solver|].
  destruct (proj1 (Forall_forall _ _) Hm q Hq) as (q' & Hq' & Hr' & Hle'). exists q'. split; [set_solver|].
  split; [congruence|lia].
Qed.

Lemma claimed_trans h pool p1 p2 c1 c2 c3 b1 b2 :
  p1 ⊆ pool → p2 ⊆ pool → claimed h p1 c1 c2 b1 → claimed h p2 c2 c3 b2 → claimed h pool c1 c3 (b1 ++ b2).
Proof.
  intros Hp1 Hp2. destruct c1, c2, c3; cbn; try done. intros (_ & H1 & H2 & H3 & W1) (H4 & H5 & H6 & H7 & W2).
  rewrite blen_app, H5, H1, app_assoc. split_and!; [done|done|lia|congruence|].
  eapply Forall_impl; [exact W2|]. intros p Hp. apply (within_trans _ _ _ _ W1) in Hp.
  eapply within_mono; [|exact Hp]. set_solver.
Qed.

Lemma claimed_mono h pool pool' c c' b : pool ⊆ pool' → claimed h pool c c' b → claimed h pool' c c' b.
Proof.
  intros Hsub. destruct c, c'; cbn; try done. intros (? & ? & ? & ? & Hw). split_and!; try done.
  eapply within_all_mono; [|exact Hw]. set_solver.
Qed.

Lemma claim_step h c p off len :
  ptr_ok h p → 0 ≤ off → 0 < len → off + len ≤ p_len p → claim_fits h c len →
  ∃ c', (match c with Some c => c ← append_sub h c p off len; Ret (Some c) | None => Ret None end) = Ret c'
    ∧ claimed h [p] c c' (substr (ptr_bytes h p) off len)
    ∧ ∀ n, claim_fits h c (len + n) → claim_fits h c' n.
Proof.
  intros Hp Ho Hl Hle Hc. destruct c as [c|]; [|by exists None]. destruct Hc as [Hc Hmax].
  destruct (append_sub_spec h c p off len Hc Hp Ho Hl Hle Hmax) as (c' & -> & Hok & Hcont & Hlen & Hap & Hw).
  exists (Some c'). cbn. assert (blen (substr (ptr_bytes h p) off len) = len) as ->.
  { unfold blen. rewrite length_substr; rewrite ?blen_ptr_bytes by done; lia. }
  split_and!; try done. intros n [_ ?]. split; [done|lia].
Qed.

(** A buffer without its first bytes. *)
Lemma shortened_spec h p n :
  ptr_ok h p → 0 ≤ n < p_len p → p_len p < 2 ^ 32 →
  ∃ q, (q ← set_offset h p (u32 (n + p_off p)); set_length h q (u32 (p_len p - n))) = Ret q ∧ ptr_ok h q
    ∧ ptr_bytes h q = substr (ptr_bytes h p) n (p_len p - n) ∧ p_len q = p_len p - n ∧ within [p] q.
Proof.
  intros [Hl Ho (id & w & Hr & Hw & Hrange)] Hn H32. rewrite !u32_small by lia.
  unfold set_offset, set_length. rewrite (raw_length_spec h p id w) by done. cbn [mbind outcome_bind].
  rewrite bool_decide_true by lia. cbn [assert_that mbind outcome_bind].
  rewrite (raw_length_spec h _ id w) by done. cbn [mbind outcome_bind p_raw p_off].
  rewrite bool_decide_true by lia. cbn [assert_that mbind outcome_bind].
  eexists. split; [reflexivity|]. split; [split; cbn; [lia|lia|exists id, w; split_and!; try done; lia]|]. split_and!; [|done|].
  - rewrite !(ptr_bytes_eq h _ id w) by done. cbn. rewrite substr_substr by lia. f_equal. lia.
  - exists p. split; [set_solver|]. cbn. split; [done|lia].
Qed.

Lemma bytes_of_cons h p bs : bytes_of h (p :: bs) = ptr_bytes h p ++ bytes_of h bs.
Proof. done. Qed.

Lemma substr_app_split a b o l1 l2 :
  0 ≤ o → 0 ≤ l1 → o + l1 = blen a → 0 ≤ l2 ≤ blen b → substr (a ++ b) o (l1 + l2) = substr a o l1 ++ substr b 0 l2.
Proof.
  intros Ho Hl1 Ha Hl2. rewrite <-substr_app by lia. rewrite substr_app_l by lia. f_equal.
  pose proof (substr_middle a b [] 0 l2) as Hm. rewrite app_nil_r in Hm. rewrite Ha, <-(Z.add_0_r (blen a)). apply Hm; lia.
Qed.

Lemma substr_app_r a b o l : 0 ≤ o → 0 ≤ l → o + l ≤ blen b → substr (a ++ b) (blen a + o) l = substr b o l.
Proof. intros. pose proof (substr_middle a b [] o l) as Hm. rewrite app_nil_r in Hm. by apply Hm. Qed.

Lemma splice_loop_spec h bs off len mylen c :
  Forall (ptr_ok h) bs → 0 ≤ off → match bs with [] => off = 0 | p :: _ => off < p_len p end →
  0 ≤ len → (len = 0 → off = 0) → off + len ≤ total bs → total bs ≤ mylen < 2 ^ 32 → claim_fits h c len →
  ∃ bs' c', splice_loop h bs off len mylen c = Ret (bs', mylen - (off + len), c') ∧ Forall (ptr_ok h) bs'
    ∧ total bs' = total bs - (off + len)
    ∧ bytes_of h bs' = substr (bytes_of h bs) (off + len) (total bs - (off + len))
    ∧ claimed h bs c c' (substr (bytes_of h bs) off len) ∧ Forall (within bs) bs'.
Proof.
  intros Hbs. revert off len mylen c.
  induction Hbs as [|p bs Hp Hbs IH]; intros off len mylen c Ho Hhd Hl Hz Hle Hmy Hc.
  { cbn in Hle. assert (len = 0) as -> by lia. rewrite Hhd. exists [], c. cbn. rewrite Z.sub_0_r. split_and!; try done.
    by apply (claimed_refl h [] c 0). }
  cbn [splice_loop]. case_bool_decide as Hlz.
  { rewrite Hz, Hlz by done. exists (p :: bs), c. change (0 + 0) with 0. rewrite !Z.sub_0_r. split_and!; try done.
    - by constructor.
    - rewrite <-(blen_bytes_of h (p :: bs)) by (by constructor). by rewrite substr_all.
    - rewrite substr_0. by apply (claimed_refl h _ c len).
    - by apply within_all. }
  cbn [total] in *. pose proof (po_len _ _ Hp) as Hpl. pose proof (total_nonneg h bs Hbs) as Htn.
  pose proof (blen_ptr_bytes h p Hp) as Hpb. pose proof (blen_bytes_of h bs Hbs) as Hbb.
  rewrite (u32_small (off + len)), bytes_of_cons by lia. case_bool_decide as Hlt.
  - destruct (claim_step h c p off len Hp) as (c' & -> & Hcl & _); [lia..|done|]. cbn [mbind outcome_bind].
    destruct (shortened_spec h p (off + len) Hp) as (q & Hq & Hqok & Hqb & Hql & Hqw); [lia..|].
    replace (p_len p - (len + off)) with (p_len p - (off + len)) by lia.
    destruct (set_offset h p (u32 (off + len + p_off p))) as [q0|]; cbn [mbind outcome_bind] in *; [|done].
    rewrite Hq. cbn [mbind outcome_bind]. rewrite u32_small by lia.
    exists (q :: bs), c'. split; [done|]. split; [by constructor|]. split; [cbn; lia|]. split_and!.
    + rewrite bytes_of_cons, Hqb.
      replace (p_len p + total bs - (off + len)) with ((p_len p - (off + len)) + total bs) by lia.
      rewrite substr_app_split by lia. by rewrite <-Hbb, substr_all.
    + rewrite substr_app_l by lia. apply (claimed_mono h [p]); [set_solver|done].
    + constructor; [eapply within_mono; [|exact Hqw]|apply within_all]; set_solver.
  - rewrite (u32_small (p_len p - off)) by lia. set (m := p_len p - off).
    destruct (claim_step h c p off m Hp) as (c1 & -> & Hcl & Hfit); [lia..| |].
    { destruct c; [|done]. destruct Hc. split; [done|]. lia. }
    cbn [mbind outcome_bind]. rewrite (u32_small (len - m)), (u32_small (mylen - p_len p)) by lia.
    destruct (IH 0 (len - m) (mylen - p_len p) c1) as (bs' & c' & -> & Hok & Htot & Hb & Hcl' & Hbw);
      [lia| |lia..| |].
    { destruct Hbs as [|p' bs' Hp' _]; [done|]. apply (po_len _ _ Hp'). }
    { apply Hfit. by replace (m + (len - m)) with len by lia. }
    exists bs', c'. split; [f_equal; f_equal; f_equal; lia|]. split; [done|]. split; [lia|]. split_and!.
    + rewrite Hb. replace (off + len) with (blen (ptr_bytes h p) + (0 + (len - m))) by lia.
      rewrite substr_app_r by lia. f_equal. lia.
    + replace len with (m + (len - m)) by lia. rewrite substr_app_split by lia. apply (claimed_trans h (p :: bs) [p] bs c c1); (done || set_solver).
    + eapply within_all_mono; [|exact Hbw]. set_solver.
Qed.

Lemma splice_spec h l off len c :
  list_ok h l → 0 ≤ off → 0 < len → off + len ≤ _len l → claim_fits h c len →
  ∃ l' c', splice h l off len c = Ret (l', c') ∧ list_ok h l' ∧ append_buffer l' = append_buffer l
    ∧ contents h l' = substr (contents h l) 0 off ++ substr (contents h l) (off + len) (_len l - (off + len))
    ∧ claimed h (_buffers l) c c' (substr (contents h l) off len) ∧ Forall (within (_buffers l)) (_buffers l').
Proof.
  intros [Hbs Hlen Hmax Hit Hap] Ho Hl Hle Hc. unfold splice, bl_length. unfold MAX_LIST in Hmax.
  rewrite !bool_decide_false by lia.
  destruct (splice_skip_spec h (_buffers l) off Hbs) as (front & p & cur & o & -> & Heq & -> & Ho'); [lia|].
  cbn [mbind outcome_bind]. rewrite Heq in *. apply Forall_app in Hbs as [Hfront Hcur].
  rewrite total_app in *. pose proof (total_nonneg h front Hfront). pose proof (total_nonneg h _ Hcur).
  pose proof (blen_bytes_of h front Hfront) as Hfb. pose proof (blen_bytes_of h _ Hcur) as Hcb.
  pose proof Hcur as [Hp Hcur']%Forall_cons. pose proof (total_nonneg h _ Hcur').
  assert (∃ keep mylen, (if bool_decide (o ≠ 0) then
      p ← need NullPointer (head (p :: cur)); q ← sub_ptr p 0 o; Ret ([q], u32 (_len l + o)) else Ret ([], _len l))
    = Ret (keep, mylen) ∧ Forall (ptr_ok h) keep ∧ total keep = o ∧ bytes_of h keep = substr (ptr_bytes h p) 0 o
    ∧ mylen = _len l + o ∧ Forall (within [p]) keep) as (keep & mylen & -> & Hkeep & Htk & Hkb & -> & Hkw).
  { case_bool_decide as Hz.
    - cbn [head need mbind outcome_bind]. destruct (sub_ptr_spec h p 0 o Hp) as (q & -> & Hq & Hqb & Hql & Hqw); [lia..|].
      cbn [mbind outcome_bind]. rewrite u32_small by (cbn [total] in *; lia). exists [q], (_len l + o). split; [done|].
      split; [by constructor|]. split; [cbn; lia|]. split; [by rewrite bytes_of_cons, Hqb, app_nil_r|].
      split; [done|]. by constructor.
    - assert (o = 0) as -> by lia. exists [], (_len l). by rewrite Z.add_0_r, substr_0. }
  cbn [mbind outcome_bind].
  destruct (splice_loop_spec h (p :: cur) o len (_len l + o) c Hcur) as (bs' & c' & -> & Hok & Htot & Hb & Hcl & Hbw);
    [lia|cbn; lia|lia|lia|lia|cbn [total] in *; lia|done|].
  cbn [mbind outcome_bind]. eexists _, c'. split; [reflexivity|].
  assert (Forall (ptr_ok h) (front ++ keep ++ bs')) as Hnew by (by rewrite !Forall_app).
  split; [split; cbn|split_and!]; try done.
  - rewrite !total_app. lia.
  - rewrite !total_app. unfold MAX_LIST. lia.
  - eapply at_pos_ok; [exact Hnew|]. eapply begin_at; [exact Hnew|]. rewrite !total_app. unfold MAX_LIST. lia.
  - unfold contents. cbn. rewrite Heq, !bytes_of_app, <-Hfb, Hkb, Hb, app_assoc. f_equal.
    + rewrite substr_app_split by lia. rewrite substr_all, bytes_of_cons.
      rewrite substr_app_l by (rewrite ?(blen_ptr_bytes h p Hp); lia). done.
    + replace (blen (bytes_of h front) + o + len) with (blen (bytes_of h front) + (o + len)) by lia.
      rewrite substr_app_r by lia. f_equal. lia.
  - unfold contents. rewrite Heq, bytes_of_app, <-Hfb, substr_app_r by lia. apply (claimed_mono h (p :: cur)); [set_solver|done].
  - cbn. rewrite !Forall_app. split_and!; [apply within_all|eapply within_all_mono; [|exact Hkw]|eapply within_all_mono; [|exact Hbw]];
      set_solver.
Qed.
