(* ===== verification/BufferHeap.v ===== *)
(** * Bufferlists: operations that allocate or write

    What the operations that add bytes do to the memory that lists share: they
    write past the end of the list's own append buffer, or into new raws, so
    that what any other list holds stays as it is. *)

From S2P Require Import Prelude ErasureCode Crc32c Crc32cFacts Buffer BufferFacts.

Import Buffer.

(** ** Memory that grows *)

Definition heap_bytes (h : heap) : Prop := ∀ id w, h !! id = Some w → bytes_ok (data w).

(** The old raws are as they were but for the bytes past the end of [ab]; new
    raws have no checksums yet. *)
Record grown (ab : ptr) (h h' : heap) : Prop := {
  gr_old id w : h !! id = Some w → ∃ w', h' !! id = Some w' ∧ crc_map w' = crc_map w
    ∧ blen (data w') = blen (data w) ∧ (p_raw ab ≠ Some id → data w' = data w)
    ∧ take (Z.to_nat (p_len ab)) (data w') = take (Z.to_nat (p_len ab)) (data w);
  gr_new id w' : h' !! id = Some w' → h !! id = None → crc_map w' = ∅;
  gr_bytes : heap_bytes h → heap_bytes h';
}.

Definition new_raw (h : heap) (r : option Z) : Prop := ∃ id, r = Some id ∧ h !! id = None.

(** The append buffer moves on: further in its raw or to a new one. *)
Definition advanced (h : heap) (ab ab' : ptr) : Prop :=
  p_raw ab' = p_raw ab ∧ p_len ab ≤ p_len ab' ∨ new_raw h (p_raw ab').

Lemma grown_refl ab h : grown ab h h.
Proof. split; [intros id w Hw; by exists w|congruence|done]. Qed.

Lemma grown_trans ab ab1 h h1 h2 : grown ab h h1 → grown ab1 h1 h2 → advanced h ab ab1 → grown ab h h2.
Proof.
  intros [H1 N1 B1] [H2 N2 B2] Hadv. split; [| |by auto].
  - intros id w Hw. destruct (H1 id w Hw) as (w1 & Hw1 & C1 & L1 & D1 & T1).
    destruct (H2 id w1 Hw1) as (w2 & Hw2 & C2 & L2 & D2 & T2). exists w2. split_and!; [done|congruence|congruence|..].
    + intros Hne. rewrite D2, D1; [done|done|]. destruct Hadv as [[-> _]|(id' & -> & Hn)]; [done|congruence].
    + destruct Hadv as [[_ Hle]|(id' & Hr & Hn)].
      * rewrite <-T1. apply (f_equal (take (Z.to_nat (p_len ab)))) in T2. rewrite !take_take in T2.
        by replace (Z.to_nat (p_len ab) `min` Z.to_nat (p_len ab1))%nat with (Z.to_nat (p_len ab)) in T2 by lia.
      * by rewrite D2 by congruence.
  - intros id w2 Hw2 Hn. destruct (h1 !! id) as [w1|] eqn:Hw1; [|by apply (N2 id)].
    destruct (H2 id w1 Hw1) as (w & Hw & Hc & _). rewrite Hw2 in Hw. injection Hw as <-. rewrite Hc. by apply (N1 id).
Qed.

Lemma substr_take b n o l : 0 ≤ o → 0 ≤ l → o + l ≤ n → substr (take (Z.to_nat n) b) o l = substr b o l.
Proof. intros. unfold substr. rewrite skipn_firstn_comm, take_take. f_equal. lia. Qed.

Section grown.
Context (ab : ptr) (h h' : heap) (Hg : grown ab h h').

(** A range that does not go past the end of [ab] keeps its bytes. *)
Definition clear_of (p : ptr) : Prop := p_raw p = p_raw ab → p_off p + p_len p ≤ p_len ab.

Lemma grown_ptr p : ptr_ok h p → clear_of p → ptr_ok h' p ∧ ptr_bytes h' p = ptr_bytes h p.
Proof.
  intros [Hl Ho (id & w & Hr & Hw & Hrange)] Hc. destruct (gr_old _ _ _ Hg id w Hw) as (w' & Hw' & _ & L & D & T).
  split; [split; [done|done|exists id, w'; by rewrite L]|].
  rewrite (ptr_bytes_eq h p id w), (ptr_bytes_eq h' p id w') by done.
  destruct (decide (p_raw ab = Some id)) as [He|Hne]; [|by rewrite D].
  rewrite <-(substr_take (data w') (p_len ab)), T, substr_take; (done || lia || (apply Hc; congruence)).
Qed.

Lemma grown_ptrs bs :
  Forall (ptr_ok h) bs → Forall clear_of bs → Forall (ptr_ok h') bs ∧ bytes_of h' bs = bytes_of h bs.
Proof.
  intros Hbs. induction Hbs as [|p bs Hp Hbs IH]; [done|]. intros [Hc Hcs]%Forall_cons.
  destruct (grown_ptr p Hp Hc) as [Hp' Hb]. destruct (IH Hcs) as [Hbs' Hbb].
  split; [by constructor|]. by rewrite !bytes_of_cons, Hb, Hbb.
Qed.

Lemma grown_append q : append_ok h q → append_ok h' q.
Proof.
  intros [Hq|(Ho & Hl & id & w & Hr & Hw & Hrange)]; [by left|]. right.
  destruct (gr_old _ _ _ Hg id w Hw) as (w' & Hw' & _ & L & _). split_and!; try done.
  exists id, w'. by rewrite L.
Qed.

Lemma grown_list l :
  list_ok h l → Forall clear_of (_buffers l) → list_ok h' l ∧ contents h' l = contents h l.
Proof.
  intros [Hbs Hlen Hmax Hit Hap] Hc. destruct (grown_ptrs _ Hbs Hc) as [Hbs' Hb].
  split; [|done]. split; try done. by apply grown_append.
Qed.

End grown.

(** ** Lists that own their append buffer *)

Definition own (l : t) : Prop := Forall (clear_of (append_buffer l)) (_buffers l).

(** A list and the memory, after an operation on the list. *)
Record updated (h : heap) (l : t) (h' : heap) (l' : t) (b : bytes) : Prop := {
  up_heap : grown (append_buffer l) h h';
  up_list : list_ok h' l';
  up_contents : contents h' l' = b;
  up_own : own l';
  up_append : advanced h (append_buffer l) (append_buffer l');
  up_buffers : Forall (λ p, within (_buffers l) p ∨ p_raw p = p_raw (append_buffer l) ∨ new_raw h (p_raw p)) (_buffers l');
}.

Lemma updated_refl h l : list_ok h l → own l → updated h l h l (contents h l).
Proof.
  intros Hl Ho. split; try done; [apply grown_refl|by left|]. apply Forall_forall. left. by apply within_self.
Qed.

Lemma new_raw_old ab h h' r : grown ab h h' → new_raw h' r → new_raw h r.
Proof.
  intros Hg (id & -> & Hn). exists id. split; [done|]. destruct (h !! id) as [w|] eqn:Hw; [|done].
  destruct (gr_old _ _ _ Hg id w Hw) as (w' & Hw' & _). congruence.
Qed.

Lemma updated_trans h l h1 l1 h2 l2 b1 b2 :
  updated h l h1 l1 b1 → updated h1 l1 h2 l2 b2 → updated h l h2 l2 b2.
Proof.
  intros [G1 L1 C1 O1 A1 B1] [G2 L2 C2 O2 A2 B2]. split; try done.
  - by eapply grown_trans.
  - destruct A2 as [[Hr Hle]|Hn]; [|right; by eapply new_raw_old]. destruct A1 as [[Hr1 Hle1]|Hn1].
    + left. split; [congruence|lia].
    + right. by rewrite Hr.
  - eapply Forall_impl; [exact B2|]. intros p [Hp|[Hp|Hp]].
    + destruct Hp as (q & Hq & Hr & Hle). rewrite Hr.
      destruct (proj1 (Forall_forall _ _) B1 q Hq) as [(q' & Hq' & Hr' & Hle')|?]; [|by auto].
      left. exists q'. split; [done|]. split; [congruence|lia].
    + rewrite Hp. destruct A1 as [[-> _]|Hn]; auto.
    + right; right. by eapply new_raw_old.
Qed.

(** A pointer to an old raw is not one to a new one. *)
Lemma ptr_ok_old h p : ptr_ok h p → ¬ new_raw h (p_raw p).
Proof. intros [_ _ (id & w & Hr & Hw & _)] (id' & Hr' & Hn). congruence. Qed.

(** ** Filling the append buffer *)

Lemma unused_tail_spec h ab id w :
  append_ok h ab → p_raw ab = Some id → h !! id = Some w →
  unused_tail_length h ab = Ret (blen (data w) - p_len ab) ∧ p_off ab = 0 ∧ 0 ≤ p_len ab
  ∧ p_len ab ≤ blen (data w) < 2 ^ 32.
Proof.
  intros [->|(Ho & Hl & id' & w' & Hr' & Hw' & Hrange)] Hr Hw; [done|].
  assert (id' = id) as -> by congruence. assert (w' = w) as -> by congruence. split; [|by auto].
  unfold unused_tail_length. rewrite Hr. rewrite (raw_length_spec _ _ id w) by done. cbn [mbind outcome_bind].
  f_equal. rewrite Ho, u32_small by lia. lia.
Qed.

Lemma blen_take n (b : bytes) : 0 ≤ n ≤ blen b → blen (take (Z.to_nat n) b) = n.
Proof. unfold blen. intros. rewrite length_take. lia. Qed.

(** The bytes of a raw with some of them replaced. *)
Definition overwrite (b : bytes) (off : Z) (src : bytes) : bytes :=
  take (Z.to_nat off) b ++ src ++ drop (Z.to_nat (off + blen src)) b.

Section overwrite.
Context (b : bytes) (off : Z) (src : bytes) (Ho : 0 ≤ off) (Hle : off + blen src ≤ blen b).

Lemma blen_overwrite : blen (overwrite b off src) = blen b.
Proof. unfold overwrite, blen in *. rewrite !length_app, length_take, length_drop. lia. Qed.

Lemma take_overwrite n : 0 ≤ n ≤ off → take (Z.to_nat n) (overwrite b off src) = take (Z.to_nat n) b.
Proof.
  intros Hn. unfold overwrite. rewrite take_app_le by (rewrite length_take; unfold blen in *; lia).
  rewrite take_take. f_equal. lia.
Qed.

Lemma substr_overwrite : substr (overwrite b off src) off (blen src) = src.
Proof.
  unfold overwrite. pose proof (substr_middle (take (Z.to_nat off) b) src (drop (Z.to_nat (off + blen src)) b) 0 (blen src)) as Hm.
  assert (0 ≤ blen src) by (unfold blen; lia). rewrite blen_take, Z.add_0_r in Hm by lia. rewrite Hm by lia. apply substr_all.
Qed.

Lemma bytes_ok_overwrite : bytes_ok b → bytes_ok src → bytes_ok (overwrite b off src).
Proof. intros Hb Hs. unfold overwrite. apply Forall_app. split; [by apply Forall_take|]. apply Forall_app. split; [done|by apply Forall_drop]. Qed.

Lemma write_at_spec c : write_at (mkRaw b c) off src = Ret (mkRaw (overwrite b off src) c).
Proof. unfold write_at. cbn. by rewrite bool_decide_true by done. Qed.

End overwrite.

Lemma grown_fill h ab id w src :
  p_raw ab = Some id → h !! id = Some w → 0 ≤ p_len ab → p_len ab + blen src ≤ blen (data w) → bytes_ok src →
  grown ab h (<[id := mkRaw (overwrite (data w) (p_len ab) src) (crc_map w)]> h).
Proof.
  intros Hr Hw H0 Hle Hok. split.
  - intros id' w'' Hw''. destruct (decide (id' = id)) as [->|Hne].
    + assert (w'' = w) as -> by congruence. eexists. rewrite lookup_insert_eq. split; [done|]. cbn.
      rewrite blen_overwrite, take_overwrite by lia. by split_and!.
    + exists w''. by rewrite lookup_insert_ne by done.
  - intros id' w'. rewrite lookup_insert_Some. intros [[-> _]|[_ Hw']] Hn; congruence.
  - intros Hb id' w'. rewrite lookup_insert_Some. intros [[_ <-]|[_ Hw']]; [|by apply (Hb id')].
    cbn. apply bytes_ok_overwrite; [by apply (Hb id)|done].
Qed.

Lemma blen_pos (b : bytes) : b ≠ [] → 0 < blen b.
Proof. destruct b; [done|]. intros _. unfold blen. cbn. lia. Qed.

Lemma ptr_append_spec h ab id w src :
  append_ok h ab → p_raw ab = Some id → h !! id = Some w → src ≠ [] → p_len ab + blen src ≤ blen (data w) →
  let p := mkPtr (Some id) 0 (p_len ab + blen src) in
  let h' := <[id := mkRaw (overwrite (data w) (p_len ab) src) (crc_map w)]> h in
  ptr_append h ab src = Ret (p_len ab + blen src, p, h')
  ∧ ptr_ok h' p ∧ substr (ptr_bytes h' p) (p_len ab) (blen src) = src.
Proof.
  intros Hap Hr Hw Hs Hle p h'. destruct (unused_tail_spec h ab id w Hap Hr Hw) as (Hgap & Ho & Hrange).
  pose proof (blen_pos src Hs). assert (h' !! id = Some (mkRaw (overwrite (data w) (p_len ab) src) (crc_map w))) as Hw'
    by apply lookup_insert_eq. split_and!.
  - unfold ptr_append. rewrite (find_raw_some h ab id w), Hgap by done. cbn [mbind outcome_bind].
    rewrite bool_decide_true by lia. cbn [assert_that mbind outcome_bind]. rewrite Ho, Z.add_0_l.
    destruct w as [d c]. cbn [data crc_map] in *. rewrite write_at_spec by lia. cbn [mbind outcome_bind].
    unfold p_end. cbn. rewrite Hr, (u32_small (p_len ab + blen src)) by lia. by rewrite u32_small by lia.
  - split; cbn; [lia|done|]. eexists id, _. split; [done|]. split; [exact Hw'|]. cbn. rewrite blen_overwrite by lia. lia.
  - rewrite (ptr_bytes_eq h' p id _ eq_refl Hw'). cbn. rewrite substr_substr, Z.add_0_l by lia. apply substr_overwrite; lia.
Qed.

Lemma fill_spec h l id w src :
  list_ok h l → own l → p_raw (append_buffer l) = Some id → h !! id = Some w → src ≠ [] → bytes_ok src →
  p_len (append_buffer l) + blen src ≤ blen (data w) → _len l + blen src < MAX_LIST →
  let n := p_len (append_buffer l) in
  ∃ p h' l', ptr_append h (append_buffer l) src = Ret (n + blen src, p, h') ∧ p_len p = n + blen src
    ∧ append_sub h' (with_append_buffer l p) p n (blen src) = Ret l'
    ∧ updated h l h' l' (contents h l ++ src) ∧ _len l' = _len l + blen src.
Proof.
  intros Hl Ho Hr Hw Hs Hok Hle Hmax n; subst n.
  destruct (unused_tail_spec h _ id w (lo_append _ _ Hl) Hr Hw) as (_ & Hoff & Hrange).
  destruct (ptr_append_spec h _ id w src (lo_append _ _ Hl) Hr Hw Hs Hle) as (Hpa & Hp & Hpb).
  pose proof (grown_fill h _ id w src Hr Hw (proj1 Hrange) Hle Hok) as Hg.
  set (h' := <[id:=_]> h) in *. set (p := mkPtr (Some id) 0 (p_len (append_buffer l) + blen src)) in *.
  destruct (grown_list _ _ _ Hg l Hl Ho) as [[Hbs Hll Hlm Hit Hap] Hc]. pose proof (blen_pos src Hs).
  assert (append_ok h' p) as Happ.
  { right. destruct Hp as [? ? (id' & w' & ? & ? & ?)]. split_and!; [done|lia|]. exists id', w'. split_and!; (done || lia). }
  assert (list_ok h' (with_append_buffer l p)) as Hl' by (by split).
  destruct (append_sub_spec h' _ p (p_len (append_buffer l)) (blen src) Hl' Hp) as (l' & Has & Hok' & Hc' & Hlen' & Hab' & Hwi); [lia|lia|cbn; lia|done|].
  exists p, h', l'. split_and!; try done. split; try done.
  - rewrite Hc', Hpb. unfold contents at 1. cbn. f_equal. exact Hc.
  - unfold own. rewrite Hab'. cbn. eapply Forall_impl; [exact Hwi|]. intros q (q' & [->|Hq']%elem_of_cons & Hqr & Hqle) Hrq.
    + cbn in *. lia.
    + cbn in *. pose proof (proj1 (Forall_forall _ _) Ho q' Hq') as Hcl. unfold clear_of in Hcl.
      rewrite Hr in Hcl. specialize (Hcl ltac:(congruence)). lia.
  - rewrite Hab'. left. cbn. split; [done|lia].
  - eapply Forall_impl; [exact Hwi|]. intros q (q' & [->|Hq']%elem_of_cons & Hqr & Hqle); [right; left; by rewrite Hqr|].
    left. by exists q'.
Qed.

Section allocator.
Context `{HA : Allocator} `{HAS : !AllocatorSpec}.

Lemma fresh_new (h : heap) : h !! (fresh (dom h) : Z) = None.
Proof. apply not_elem_of_dom, is_fresh. Qed.

Lemma grown_alloc ab h w :
  (heap_bytes h → bytes_ok (data w)) → crc_map w = ∅ → grown ab h (<[(fresh (dom h) : Z) := w]> h).
Proof.
  intros Hok Hc. pose proof (fresh_new h) as Hf. split.
  - intros id w' Hw'. exists w'. rewrite lookup_insert_ne by congruence. done.
  - intros id w'. rewrite lookup_insert_Some. intros [[_ <-]|[_ Hw']] Hn; [done|congruence].
  - intros Hb id w'. rewrite lookup_insert_Some. intros [[_ <-]|[_ Hw']]; [by apply Hok|by apply (Hb id)].
Qed.

Lemma new_append_buffer_spec h l len :
  list_ok h l → own l → 0 ≤ len < 2 ^ 32 →
  ∃ l' h', new_append_buffer h l len = (l', h') ∧ updated h l h' l' (contents h l)
    ∧ _len l' = _len l ∧ unused_tail_length h' (append_buffer l') = Ret len.
Proof.
  intros Hl Ho Hlen. unfold new_append_buffer, create. eexists _, _. split; [reflexivity|].
  set (id := fresh (dom h)). set (w := mkRaw _ ∅). pose proof (fresh_new h) as Hf. fold id in Hf.
  assert (blen (data w) = len) as Hwl by (apply create_aligned_len; lia).
  pose proof (grown_alloc (append_buffer l) h w (λ _, create_aligned_ok _ _) eq_refl) as Hg. fold id in Hg.
  destruct (grown_list _ _ _ Hg l Hl Ho) as [[Hbs Hll Hmax Hit Hap] Hc].
  split; [|split; [done|]].
  - split; try done.
    + split; try done. right. cbn. split_and!; try done. exists id, w. rewrite lookup_insert_eq. split_and!; (done || lia).
    + apply Forall_forall. intros p Hp Hr. cbn in Hr. destruct (ptr_ok_old h p).
      * apply (proj1 (Forall_forall _ _) (lo_buffers _ _ Hl) p Hp).
      * by exists id.
    + right. by exists id.
    + apply Forall_forall. left. by apply within_self.
  - unfold unused_tail_length. cbn [append_buffer with_append_buffer p_raw p_off p_len]. rewrite (raw_length_spec _ _ id w); [|done|by rewrite lookup_insert_eq].
    cbn [mbind outcome_bind]. rewrite Z.sub_0_r, u32_small by lia. by rewrite Hwl.
Qed.

(** ** Appending *)

Context (sizeof_raw_combined page_size : Z).
Context (Hsizes : 0 < sizeof_raw_combined < ALLOC_UNIT page_size).

Lemma round_up_to_ge n d : 0 < d → n ≤ round_up_to n d < n + d.
Proof.
  intros Hd. unfold round_up_to. pose proof (Z.mod_pos_bound n d Hd). case_bool_decide; lia.
Qed.

Lemma append_alloc_range len :
  0 ≤ len < MAX_LIST → len ≤ append_alloc sizeof_raw_combined page_size len < 2 ^ 32.
Proof.
  unfold append_alloc, MAX_LIST. intros Hl. pose proof (round_up_to_ge len 8 ltac:(lia)).
  pose proof (round_up_to_ge (round_up_to len 8 + sizeof_raw_combined) (ALLOC_UNIT page_size) ltac:(lia)).
  unfold ALLOC_UNIT in *. lia.
Qed.

Lemma append_buffer_cases h l :
  list_ok h l →
  append_buffer l = null_ptr
  ∨ ∃ id w, p_raw (append_buffer l) = Some id ∧ h !! id = Some w.
Proof. intros Hl. destruct (lo_append _ _ Hl) as [?|(_ & _ & id & w & ? & ? & _)]; [by left|]. right. by exists id, w. Qed.

Lemma append_gap_spec h l src :
  list_ok h l → own l → src ≠ [] → bytes_ok src → _len l + blen src < MAX_LIST →
  ∃ l' h' fit rest gap, append_gap h l src = Ret (l', h', rest) ∧ src = fit ++ rest
    ∧ updated h l h' l' (contents h l ++ fit) ∧ _len l' = _len l + blen fit
    ∧ unused_tail_length h (append_buffer l) = Ret gap ∧ (blen src ≤ gap → rest = []).
Proof.
  intros Hl Ho Hs Hok Hmax. pose proof (blen_pos src Hs). unfold append_gap.
  destruct (append_buffer_cases h l Hl) as [Hn|(id & w & Hr & Hw)].
  { rewrite Hn. cbn. exists l, h, [], src, 0. split_and!; try done; [|unfold blen; cbn; lia|lia].
    rewrite app_nil_r. by apply updated_refl. }
  destruct (unused_tail_spec h _ id w (lo_append _ _ Hl) Hr Hw) as (Hgap & Hoff & H0 & Hrange).
  rewrite Hgap. cbn [mbind outcome_bind]. set (gap := blen (data w) - p_len (append_buffer l)) in *.
  case_bool_decide as Hg.
  2: { exists l, h, [], src, gap. split_and!; try done; [|unfold blen; cbn; lia|lia].
       rewrite app_nil_r. by apply updated_refl. }
  set (m := Z.min gap (blen src)). assert (blen (take (Z.to_nat m) src) = m) as Hm by (apply blen_take; lia).
  assert (take (Z.to_nat m) src ≠ []) as Hne by (intros He; rewrite He in Hm; change (blen []) with 0 in Hm; lia).
  destruct (fill_spec h l id w (take (Z.to_nat m) src) Hl Ho Hr Hw Hne) as (p & h' & l' & Hpa & Hpl & Has & Hu & Hlen);
    [by apply Forall_take|lia|lia|].
  rewrite Hpa. cbn [mbind outcome_bind]. rewrite Hm in *. rewrite Hpl, Z.add_simpl_r, u32_small, Has by lia.
  cbn [mbind outcome_bind]. exists l', h', (take (Z.to_nat m) src), (drop (Z.to_nat m) src), gap.
  rewrite take_drop. split_and!; try done; [lia|]. intros Hle. apply drop_ge. unfold m, blen in *. lia.
Qed.

Lemma append_spec h l src :
  list_ok h l → own l → bytes_ok src → _len l + blen src < MAX_LIST →
  ∃ l' h', append sizeof_raw_combined page_size h l src = Ret (l', h') ∧ updated h l h' l' (contents h l ++ src)
    ∧ _len l' = _len l + blen src.
Proof.
  intros Hl Ho Hok Hmax. pose proof (total_nonneg h _ (lo_buffers _ _ Hl)). pose proof (lo_len _ _ Hl).
  unfold append. cbn [append_loop]. case_bool_decide as Hs.
  { subst. exists l, h. rewrite app_nil_r. split_and!; [done|by apply updated_refl|unfold blen; cbn; lia]. }
  destruct (append_gap_spec h l src Hl Ho Hs Hok Hmax) as (l1 & h1 & fit & rest & gap & -> & Hsrc & Hu & Hlen & _ & _).
  cbn [mbind outcome_bind]. rewrite Hsrc, blen_app in *. apply Forall_app in Hok as [_ Hok].
  case_bool_decide as Hr; [subst; exists l1, h1; rewrite app_nil_r; split_and!; [done..|unfold blen in *; cbn; lia]|].
  pose proof (blen_pos rest Hr). assert (0 ≤ blen fit) by (unfold blen; lia).
  pose proof (append_alloc_range (blen rest) ltac:(unfold MAX_LIST in *; lia)) as Hal.
  destruct (new_append_buffer_spec h1 l1 (append_alloc sizeof_raw_combined page_size (blen rest)))
    as (l2 & h2 & -> & Hu2 & Hlen2 & Htail); [apply Hu|apply Hu|lia|].
  destruct (append_gap_spec h2 l2 rest) as (l3 & h3 & fit3 & rest3 & gap3 & -> & Hsrc3 & Hu3 & Hlen3 & Htail3 & Hrest3);
    [apply Hu2|apply Hu2|done|done|lia|].
  cbn [mbind outcome_bind]. rewrite Htail in Htail3. injection Htail3 as <-. rewrite Hrest3, app_nil_r in * by lia.
  rewrite bool_decide_true by done. exists l3, h3. subst fit3. split_and!; [done| |lia].
  pose proof (updated_trans _ _ _ _ _ _ _ _ (updated_trans _ _ _ _ _ _ _ _ Hu Hu2) Hu3) as Hall.
  rewrite (up_contents _ _ _ _ _ Hu2), (up_contents _ _ _ _ _ Hu), <-app_assoc in Hall. exact Hall.
Qed.

Lemma append_char_spec h l c :
  list_ok h l → own l → byte_ok c → _len l + 1 < MAX_LIST →
  ∃ l' h', append_char sizeof_raw_combined page_size h l c = Ret (l', h') ∧ updated h l h' l' (contents h l ++ [c])
    ∧ _len l' = _len l + 1.
Proof.
  intros Hl Ho Hok Hmax. unfold append_char.
  assert (∃ gap l1 h1 gap1, unused_tail_length h (append_buffer l) = Ret gap
    ∧ (if bool_decide (gap = 0) then new_append_buffer h l (ALLOC_UNIT page_size - sizeof_raw_combined) else (l, h)) = (l1, h1)
    ∧ updated h l h1 l1 (contents h l) ∧ _len l1 = _len l
    ∧ unused_tail_length h1 (append_buffer l1) = Ret gap1 ∧ 0 < gap1) as (gap & l1 & h1 & gap1 & -> & Hnew & Hu & Hlen & Htail & Hpos).
  { assert (∃ gap, unused_tail_length h (append_buffer l) = Ret gap ∧ 0 ≤ gap) as (gap & Hgap & H0).
    { destruct (append_buffer_cases h l Hl) as [->|(id & w & Hr & Hw)]; [by exists 0|].
      destruct (unused_tail_spec h _ id w (lo_append _ _ Hl) Hr Hw) as (-> & _ & _ & ?). eexists. split; [done|lia]. }
    rewrite Hgap. exists gap. case_bool_decide as Hz.
    - destruct (new_append_buffer_spec h l (ALLOC_UNIT page_size - sizeof_raw_combined) Hl Ho) as (l1 & h1 & -> & Hu & Hlen & Ht);
        [unfold ALLOC_UNIT in *; lia|]. eexists l1, h1, _. split_and!; try done. lia.
    - exists l, h, gap. split_and!; try done; [by apply updated_refl|lia]. }
  cbn [mbind outcome_bind]. rewrite Hnew. pose proof (up_list _ _ _ _ _ Hu) as Hl1.
  destruct (append_buffer_cases h1 l1 Hl1) as [Hn|(id & w & Hr & Hw)].
  { rewrite Hn in Htail. cbn in Htail. injection Htail as <-. done. }
  destruct (unused_tail_spec h1 _ id w (lo_append _ _ Hl1) Hr Hw) as (Hgap & Hoff & H0 & Hrange).
  rewrite Htail in Hgap. injection Hgap as ->.
  destruct (fill_spec h1 l1 id w [c] Hl1 (up_own _ _ _ _ _ Hu) Hr Hw) as (p & h' & l' & Hpa & Hpl & Has & Hu' & Hlen');
    [done|by apply Forall_singleton|change (blen [c]) with 1; lia|change (blen [c]) with 1; lia|].
  change (blen [c]) with 1 in *. rewrite Hpa. cbn [mbind outcome_bind].
  rewrite Z.add_simpl_r, u32_small, Has by lia. cbn [mbind outcome_bind]. exists l', h'. split_and!; [done| |lia].
  rewrite (up_contents _ _ _ _ _ Hu) in Hu'. by eapply updated_trans.
Qed.

Lemma reserve_spec h l n :
  list_ok h l → own l → 0 ≤ n < 2 ^ 32 →
  ∃ l' h' gap, reserve h l n = Ret (l', h') ∧ updated h l h' l' (contents h l) ∧ _len l' = _len l
    ∧ unused_tail_length h' (append_buffer l') = Ret gap ∧ n ≤ gap.
Proof.
  intros Hl Ho Hn. unfold reserve.
  assert (∃ gap, unused_tail_length h (append_buffer l) = Ret gap) as (gap & Hgap).
  { destruct (append_buffer_cases h l Hl) as [->|(id & w & Hr & Hw)]; [by exists 0|].
    destruct (unused_tail_spec h _ id w (lo_append _ _ Hl) Hr Hw) as (-> & _). by eexists. }
  rewrite Hgap. cbn [mbind outcome_bind]. case_bool_decide as Hlt.
  - destruct (new_append_buffer_spec h l n Hl Ho Hn) as (l' & h' & -> & Hu & Hlen & Ht). by exists l', h', n.
  - exists l, h, gap. split_and!; try done; [by apply updated_refl|lia].
Qed.

(** ** New raws *)

Lemma insert_ptr (h : heap) id w p :
  h !! id = None → ptr_ok h p → ptr_ok (<[id := w]> h) p ∧ ptr_bytes (<[id := w]> h) p = ptr_bytes h p.
Proof.
  intros Hn [Hl Ho (id' & w' & Hr & Hw & Hrange)].
  assert (<[id := w]> h !! id' = Some w') as Hw' by (rewrite lookup_insert_ne; [done|congruence]).
  split; [split; [done|done|by exists id', w']|]. by rewrite !(ptr_bytes_eq _ p id' w').
Qed.

Lemma own_new h l id n :
  list_ok h l → own l → h !! id = None →
  Forall (clear_of (append_buffer l)) [mkPtr (Some id) 0 n].
Proof.
  intros Hl Ho Hn. constructor; [|done]. intros Hr. cbn in Hr.
  destruct (lo_append _ _ Hl) as [Hnull|(_ & _ & id' & w & Hr' & Hw & _)]; [by rewrite Hnull in Hr|congruence].
Qed.

Lemma new_ptr_ok (h : heap) id w :
  0 < blen (data w) < 2 ^ 32 →
  let p := mkPtr (Some id) 0 (blen (data w)) in
  ptr_ok (<[id := w]> h) p ∧ ptr_bytes (<[id := w]> h) p = data w.
Proof.
  intros Hb p. split.
  - split; cbn; [lia|done|]. exists id, w. rewrite lookup_insert_eq. split_and!; (done || lia).
  - rewrite (ptr_bytes_eq _ p id w); [|done|by rewrite lookup_insert_eq]. apply substr_all.
Qed.

(** A raw of its own at the end of a list. *)
Lemma push_new_spec h l w :
  let id : Z := fresh (dom h) in
  let h' := <[id := w]> h in
  list_ok h l → own l → bytes_ok (data w) → crc_map w = ∅ → 0 < blen (data w) → _len l + blen (data w) < MAX_LIST →
  updated h l h' (push_back l (mkPtr (Some id) 0 (blen (data w)))) (contents h l ++ data w).
Proof.
  intros id h' Hl Ho Hok Hc Hpos Hmax. pose proof (fresh_new h) as Hf. fold id in Hf.
  pose proof (grown_alloc (append_buffer l) h w (λ _, Hok) Hc) as Hg. fold id h' in Hg.
  pose proof (total_nonneg h _ (lo_buffers _ _ Hl)). pose proof (lo_len _ _ Hl).
  destruct (grown_list _ _ _ Hg l Hl Ho) as [Hl' Hcl].
  destruct (new_ptr_ok h id w) as [Hp Hpb]; [unfold MAX_LIST in *; lia|]. fold h' in Hp, Hpb.
  destruct (push_back_spec h' l _ Hl' Hp Hmax) as (Hok' & Hc' & _).
  split; try done.
  - by rewrite Hc', Hpb, Hcl.
  - unfold own, push_back. cbn. rewrite bool_decide_false by lia. cbn. apply Forall_app. split; [done|].
    by apply (own_new h).
  - left. unfold push_back. by case_bool_decide.
  - unfold push_back. cbn. rewrite bool_decide_false by lia. cbn. apply Forall_app. split.
    + apply Forall_forall. left. by apply within_self.
    + constructor; [|done]. right; right. by exists id.
Qed.

Lemma append_zero_spec h l len :
  list_ok h l → own l → 0 ≤ len → _len l + len < MAX_LIST →
  ∃ l' h', append_zero h l len = Ret (l', h') ∧ updated h l h' l' (contents h l ++ zeros (Z.to_nat len)).
Proof.
  intros Hl Ho H0 Hmax. unfold append_zero, create. cbn [fst snd]. set (id := fresh (dom h)).
  set (b := create_aligned id len). assert (blen b = len) as Hb by (by apply create_aligned_len).
  assert (blen (zeros (Z.to_nat len)) = len) as Hz by (unfold blen; rewrite length_zeros; lia).
  unfold ptr_zero. rewrite (find_raw_some _ _ id (mkRaw b ∅)); [|done|by rewrite lookup_insert_eq].
  cbn [mbind outcome_bind p_off p_len]. rewrite write_at_spec by lia. cbn [mbind outcome_bind].
  assert (overwrite b 0 (zeros (Z.to_nat len)) = zeros (Z.to_nat len)) as ->.
  { unfold overwrite. rewrite Z.add_0_l, Hz, take_0, drop_ge, app_nil_r by (unfold blen in Hb; lia). done. }
  rewrite insert_insert_eq. eexists _, _. split; [reflexivity|]. unfold append_ptr. cbn [p_len].
  case_bool_decide as Hne.
  - pose proof (push_new_spec h l (mkRaw (zeros (Z.to_nat len)) ∅) Hl Ho) as Hp. cbn [data crc_map] in Hp.
    rewrite Hz in Hp. apply Hp; [apply bytes_ok_zeros|done|lia|done].
  - assert (len = 0) as -> by lia. cbn. rewrite app_nil_r.
    pose proof (grown_alloc (append_buffer l) h (mkRaw [] ∅) (λ _, Forall_nil_2 _) eq_refl) as Hg.
    destruct (grown_list _ _ _ Hg l Hl Ho) as [Hl' Hcl]. split; try done; [by left|].
    apply Forall_forall. left. by apply within_self.
Qed.

(** ** Rebuilding *)

Lemma rebuild_loop_spec (h : heap) id bs w pos :
  h !! id = None → Forall (ptr_ok h) bs → 0 ≤ pos → pos + total bs ≤ blen (data w) < 2 ^ 32 →
  ∃ b, rebuild_loop (<[id := w]> h) (mkPtr (Some id) 0 (blen (data w))) bs pos
      = Ret (<[id := mkRaw b (crc_map w)]> h, pos + total bs)
    ∧ blen b = blen (data w) ∧ take (Z.to_nat pos) b = take (Z.to_nat pos) (data w)
    ∧ substr b pos (total bs) = bytes_of h bs
    ∧ (heap_bytes h → bytes_ok (data w) → bytes_ok b).
Proof.
  intros Hn Hbs. revert w pos. induction Hbs as [|p bs Hp Hbs IH]; intros w pos H0 Hle; cbn [rebuild_loop total] in *.
  { exists (data w). destruct w. rewrite Z.add_0_r. by split_and!. }
  destruct (insert_ptr h id w p Hn Hp) as [Hp' Hpb]. pose proof (po_len _ _ Hp). pose proof (total_nonneg h bs Hbs).
  pose proof (blen_ptr_bytes h p Hp) as Hpl. rewrite read_ptr_spec by (done || lia). cbn [mbind outcome_bind].
  rewrite Hpb. replace (substr (ptr_bytes h p) 0 (p_len p)) with (ptr_bytes h p) by (by rewrite <-Hpl, substr_all).
  unfold ptr_copy_in.
  rewrite (find_raw_some _ _ id w); [|done|by rewrite lookup_insert_eq]. cbn [mbind outcome_bind p_len p_off].
  rewrite Hpl, u32_small, !bool_decide_true by lia. cbn [assert_that mbind outcome_bind]. rewrite Z.add_0_l.
  destruct w as [d c]. cbn [data crc_map] in *. rewrite write_at_spec by lia. cbn [mbind outcome_bind].
  rewrite insert_insert_eq.
  pose proof (blen_overwrite d pos (ptr_bytes h p) ltac:(lia) ltac:(lia)) as Hol.
  destruct (IH (mkRaw (overwrite d pos (ptr_bytes h p)) c) (pos + p_len p)) as (b & Heq & Hb & Ht & Hs & Hbok);
    cbn [data crc_map] in *; [lia|lia|].
  rewrite Hol in *. exists b. rewrite Heq. split; [f_equal; f_equal; lia|]. split; [done|].
  assert (∀ n, 0 ≤ n ≤ pos + p_len p → take (Z.to_nat n) b = take (Z.to_nat n) (overwrite d pos (ptr_bytes h p))) as Htn.
  { intros n Hnn. apply (f_equal (take (Z.to_nat n))) in Ht. rewrite !take_take in Ht.
    by replace (Z.to_nat n `min` Z.to_nat (pos + p_len p))%nat with (Z.to_nat n) in Ht by lia. }
  split_and!.
  - rewrite Htn, take_overwrite by lia. done.
  - rewrite <-substr_app, Hs, bytes_of_cons by lia. f_equal.
    rewrite <-(substr_take b (pos + p_len p)), Htn, substr_take by lia. rewrite <-Hpl. apply substr_overwrite; lia.
  - intros Hh Hd. apply Hbok; [done|]. apply bytes_ok_overwrite; [done|]. destruct Hp as [_ _ (id' & w' & Hr & Hw & _)].
    rewrite (ptr_bytes_eq h p id' w') by done. apply bytes_ok_substr. by apply (Hh id').
Qed.

Lemma rebuild_spec h l :
  list_ok h l → own l →
  ∃ l' h', rebuild h l = Ret (l', h') ∧ updated h l h' l' (contents h l) ∧ (length (_buffers l') ≤ 1)%nat.
Proof.
  intros Hl Ho. pose proof Hl as [Hbs Hlen Hmax Hit Hap]. pose proof (total_nonneg h _ Hbs). unfold rebuild.
  case_bool_decide as Hz.
  { eexists _, _. split; [reflexivity|]. split; [|cbn; lia].
    assert (_buffers l = []) as Hnil.
    { destruct (_buffers l) as [|p bs]; [done|]. apply Forall_cons in Hbs as [Hp Hbs]. pose proof (po_len _ _ Hp).
      pose proof (total_nonneg h bs Hbs). cbn in *. lia. }
    replace (with_buffers l [] (_len l)) with l by (destruct l; cbn in *; by subst). by apply updated_refl. }
  cbn [create]. set (id := fresh (dom h)). set (w := mkRaw (create_aligned id (_len l)) ∅).
  pose proof (fresh_new h) as Hf. fold id in Hf.
  assert (blen (data w) = _len l) as Hwl by (apply create_aligned_len; lia). unfold rebuild_into, MAX_LIST in *.
  destruct (rebuild_loop_spec h id (_buffers l) w 0 Hf Hbs) as (b & Heq & Hb & _ & Hs & Hbok); [lia|lia|].
  rewrite Hwl in *. rewrite Heq. cbn [mbind outcome_bind p_len].
  rewrite bool_decide_true by lia. eexists _, _. split; [reflexivity|]. split; [|cbn; lia].
  assert (list_invalidate_crc (<[id:=mkRaw b (crc_map w)]> h)
    (mkList [mkPtr (Some id) 0 (_len l)] (_len l) (u32 (_memcopy_count l + (0 + total (_buffers l)))) (append_buffer l) (last_p l))
    = <[id := mkRaw b ∅]> h) as -> by (unfold list_invalidate_crc; cbn; by rewrite alter_insert_eq).
  pose proof (grown_alloc (append_buffer l) h (mkRaw b ∅) (λ Hh, Hbok Hh (create_aligned_ok _ _)) eq_refl) as Hg. fold id in Hg.
  destruct (new_ptr_ok h id (mkRaw b ∅)) as [Hp Hpb]; [cbn; lia|]. cbn [data] in Hp, Hpb. rewrite Hb in Hp, Hpb.
  assert (Forall (ptr_ok (<[id:=mkRaw b ∅]> h)) [mkPtr (Some id) 0 (_len l)]) as Hnew by (by constructor).
  split; try done.
  - split; cbn; [done|lia|unfold MAX_LIST; lia| |by eapply grown_append].
    eapply at_pos_ok; [exact Hnew|]. eapply begin_at; [exact Hnew|]. cbn. unfold MAX_LIST. lia.
  - unfold contents at 1. cbn. rewrite bytes_of_cons, Hpb, app_nil_r. unfold contents. rewrite <-Hs.
    rewrite <-Hlen, <-Hb. by rewrite substr_all.
  - exact (own_new h l id _ Hl Ho Hf).
  - by left.
  - constructor; [|done]. right; right. by exists id.
Qed.

Lemma c_str_spec h l :
  list_ok h l → own l →
  ∃ l' h', c_str h l = Ret (if bool_decide (contents h l = []) then None else Some (contents h l), l', h')
    ∧ updated h l h' l' (contents h l).
Proof.
  intros Hl Ho. unfold c_str. destruct (_buffers l) as [|p bs] eqn:Hbs.
  { exists l, h. rewrite bool_decide_true by (unfold contents; by rewrite Hbs). split; [done|]. by apply updated_refl. }
  assert (0 < blen (contents h l)) as Hpos.
  { rewrite blen_contents, (lo_len _ _ Hl), Hbs by done. pose proof (lo_buffers _ _ Hl) as Hall. rewrite Hbs in Hall.
    apply Forall_cons in Hall as [Hp Hall]. pose proof (po_len _ _ Hp). pose proof (total_nonneg h bs Hall). cbn. lia. }
  rewrite (bool_decide_false (contents h l = [])) by (intros He; rewrite He in Hpos; done).
  assert (∃ l' h', (if bool_decide (1 < length (p :: bs))%nat then rebuild h l else Ret (l, h)) = Ret (l', h')
    ∧ updated h l h' l' (contents h l) ∧ (length (_buffers l') ≤ 1)%nat) as (l' & h' & -> & Hu & H1).
  { case_bool_decide as Hlt; [by apply rebuild_spec|]. exists l, h. split; [done|]. split; [by apply updated_refl|].
    rewrite Hbs. lia. }
  cbn [mbind outcome_bind]. pose proof (up_list _ _ _ _ _ Hu) as Hl'. pose proof (up_contents _ _ _ _ _ Hu) as Hc.
  pose proof (lo_buffers _ _ Hl') as Hall. unfold contents in Hc at 1.
  destruct (_buffers l') as [|p' [|]]; [rewrite <-Hc in Hpos; done| |cbn in H1; lia].
  cbn [head need mbind outcome_bind]. apply Forall_cons in Hall as [Hp' _]. pose proof (po_len _ _ Hp').
  rewrite read_ptr_spec by (done || lia). cbn [mbind outcome_bind]. exists l', h'. split; [|done].
  rewrite bytes_of_cons, app_nil_r in Hc. by rewrite <-(blen_ptr_bytes h' p' Hp'), substr_all, Hc.
Qed.

End allocator.
