(* ===== verification/BufferReads.v ===== *)
(** * Bufferlists: reading, comparing and checksums

    What is read from a list is a function of its contents, however they are
    split into buffers. The checksum of a list is that of its contents although
    it takes the checksums of whole buffers from the cache of their raws,
    converted from the initial value they were computed with. *)

From S2P Require Import Prelude ErasureCode Crc32c Crc32cFacts Buffer BufferFacts BufferHeap.

Import Buffer.

(** ** Reading *)

Lemma to_str_spec h l : list_ok h l → to_str h l = Ret (contents h l).
Proof.
  intros [Hbs _ _ _ _]. unfold to_str, contents. induction Hbs as [|p bs Hp Hbs IH]; [done|].
  cbn [to_str_loop]. pose proof (po_len _ _ Hp). rewrite bool_decide_true by lia.
  rewrite read_ptr_spec by (done || lia). cbn [mbind outcome_bind]. rewrite IH. cbn [mbind outcome_bind].
  by rewrite bytes_of_cons, <-(blen_ptr_bytes h p Hp), substr_all.
Qed.

Lemma zeros_app n m : zeros (n + m) = zeros n ++ zeros m.
Proof. apply replicate_add. Qed.

Lemma is_zero_spec h l :
  list_ok h l → is_zero h l = Ret (bool_decide (contents h l = zeros (length (contents h l)))).
Proof.
  intros [Hbs _ _ _ _]. unfold is_zero, contents. induction Hbs as [|p bs Hp Hbs IH]; [done|].
  cbn [is_zero_loop]. pose proof (po_len _ _ Hp). unfold ptr_is_zero.
  rewrite read_ptr_spec by (done || lia). cbn [mbind outcome_bind].
  rewrite <-(blen_ptr_bytes h p Hp), substr_all. rewrite IH, bytes_of_cons, length_app, zeros_app.
  destruct (decide (ptr_bytes h p = zeros (length (ptr_bytes h p)))) as [Hz|Hz];
    [rewrite (bool_decide_true (ptr_bytes h p = _)) by done|rewrite (bool_decide_false (ptr_bytes h p = _)) by done].
  - f_equal. apply bool_decide_ext. rewrite <-Hz. split; [by intros <-|]. apply app_inv_head.
  - symmetry. f_equal. apply bool_decide_false. intros [He _]%app_inj_1; [done|]. by rewrite length_zeros.
Qed.

Lemma list_at_spec h l n :
  list_ok h l → 0 ≤ n →
  list_at h l n = match contents h l !! Z.to_nat n with Some b => Ret b | None => Abort UncaughtException end.
Proof.
  intros Hl Hn. pose proof (blen_contents h l Hl) as Hlen. destruct Hl as [Hbs Htot _ _ _]. unfold list_at, contents in *.
  case_bool_decide as Hge.
  { rewrite lookup_ge_None_2; [done|]. unfold blen in Hlen. lia. }
  assert (n < total (_buffers l)) as Hlt by lia. clear Hge Hlen Htot. revert n Hn Hlt.
  induction Hbs as [|p bs Hp Hbs IH]; intros n Hn Hlt; [cbn in Hlt; lia|]. cbn [index_loop total] in *.
  pose proof (blen_ptr_bytes h p Hp) as Hpl. pose proof (po_len _ _ Hp). rewrite bytes_of_cons. case_bool_decide as Hge.
  - rewrite IH by lia. rewrite lookup_app_r by (unfold blen in Hpl; lia).
    by replace (Z.to_nat (n - p_len p)) with (Z.to_nat n - length (ptr_bytes h p))%nat by (unfold blen in Hpl; lia).
  - unfold at_index. destruct (po_raw _ _ Hp) as (id & w & Hr & _). rewrite Hr. cbn [need mbind outcome_bind].
    rewrite bool_decide_true by lia. cbn [assert_that mbind outcome_bind]. rewrite read_ptr_spec by (done || lia).
    cbn [mbind outcome_bind]. rewrite lookup_app_l by (unfold blen in Hpl; lia).
    destruct (lookup_lt_is_Some_2 (ptr_bytes h p) (Z.to_nat n)) as [b Hb]; [unfold blen in Hpl; lia|].
    rewrite Hb. unfold substr. rewrite (drop_S _ b _ Hb). done.
Qed.

(** ** Comparing *)

Lemma memcmp_eq a b : length a = length b → memcmp a b = 0 ↔ a = b.
Proof.
  revert b. induction a as [|x a IH]; intros [|y b] Hl; try done. cbn [memcmp]. injection Hl as Hl.
  case_bool_decide as He.
  - subst. rewrite IH by done. split; congruence.
  - case_bool_decide; split; try done; congruence.
Qed.

(** What is left of a list from an offset in its first buffer on. *)
Definition rest_ok (h : heap) (bs : list ptr) (off : Z) : Prop :=
  Forall (ptr_ok h) bs ∧ 0 ≤ off ∧ match bs with [] => off = 0 | p :: _ => off < p_len p end.
Definition rest_bytes (h : heap) (bs : list ptr) (off : Z) : bytes := drop (Z.to_nat off) (bytes_of h bs).

Lemma rest_bytes_nil h off : rest_bytes h [] off = [].
Proof. apply drop_nil. Qed.

(** Going on by [n] bytes, to the next buffer at the end of this one. *)
Lemma rest_step h p bs off n :
  rest_ok h (p :: bs) off → 0 < n → off + n ≤ p_len p →
  let '(bs', off') := if bool_decide (off + n = p_len p) then (bs, 0) else (p :: bs, off + n) in
  rest_ok h bs' off' ∧ rest_bytes h (p :: bs) off = substr (ptr_bytes h p) off n ++ rest_bytes h bs' off'
  ∧ total bs' - off' = total (p :: bs) - off - n.
Proof.
  intros ([Hp Hbs]%Forall_cons & H0 & Hlt) Hn Hle. pose proof (blen_ptr_bytes h p Hp) as Hpl.
  assert (rest_bytes h (p :: bs) off
    = substr (ptr_bytes h p) off n ++ drop (Z.to_nat (off + n)) (ptr_bytes h p) ++ bytes_of h bs) as ->.
  { unfold rest_bytes, substr. rewrite bytes_of_cons, drop_app_le by (unfold blen in Hpl; lia). rewrite app_assoc.
    f_equal. rewrite Z2Nat.inj_add, <-drop_drop, take_drop by lia. done. }
  case_bool_decide as He.
  - split; [split; [done|split; [done|]]|split].
    + destruct Hbs as [|p' bs' Hp' _]; [done|]. apply (po_len _ _ Hp').
    + rewrite drop_ge by (unfold blen in Hpl; lia). done.
    + cbn. lia.
  - split; [split; [by constructor|split; lia]|split; [|cbn; lia]]. unfold rest_bytes.
    rewrite bytes_of_cons, drop_app_le by (unfold blen in Hpl; lia). done.
Qed.

Lemma equal_loop_spec h rounds a b aoff boff :
  rest_ok h a aoff → rest_ok h b boff → total a - aoff = total b - boff → total a < 2 ^ 32 → total b < 2 ^ 32 →
  (length a + length b ≤ rounds)%nat →
  equal_loop h rounds a b aoff boff = Ret (bool_decide (rest_bytes h a aoff = rest_bytes h b boff)).
Proof.
  revert a b aoff boff. induction rounds as [|rounds IH]; intros a b aoff boff Ha Hb Htot Hma Hmb Hr.
  { destruct a, b; cbn in Hr; try lia. cbn. by rewrite bool_decide_true by (by rewrite !rest_bytes_nil). }
  destruct a as [|pa a].
  { destruct b as [|pb b].
    - cbn. by rewrite bool_decide_true by (by rewrite !rest_bytes_nil).
    - exfalso. destruct Ha as (_ & _ & ->), Hb as ([Hp Hbs]%Forall_cons & ? & ?). pose proof (total_nonneg h b Hbs).
      cbn in Htot. lia. }
  destruct b as [|pb b].
  { exfalso. destruct Hb as (_ & _ & ->), Ha as ([Hp Hbs]%Forall_cons & ? & ?). pose proof (total_nonneg h a Hbs).
    cbn in Htot. lia. }
  pose proof Ha as ([Hpa Hfa]%Forall_cons & Ha0 & Hal). pose proof Hb as ([Hpb Hfb]%Forall_cons & Hb0 & Hbl).
  pose proof (total_nonneg h a Hfa). pose proof (total_nonneg h b Hfb). cbn [total] in *.
  cbn [equal_loop head need mbind outcome_bind]. rewrite (u32_small (p_len pa - aoff)), (u32_small (p_len pb - boff)) by lia.
  set (n := Z.min (p_len pa - aoff) (p_len pb - boff)). rewrite !read_ptr_spec by (done || lia). cbn [mbind outcome_bind].
  pose proof (rest_step h pa a aoff n Ha ltac:(lia) ltac:(lia)) as Hsa.
  pose proof (rest_step h pb b boff n Hb ltac:(lia) ltac:(lia)) as Hsb.
  assert (length (substr (ptr_bytes h pa) aoff n) = length (substr (ptr_bytes h pb) boff n)) as Hll
    by (rewrite !length_substr; rewrite ?blen_ptr_bytes; (done || lia)).
  cbn [tail].
  assert (∃ a' aoff', (if bool_decide (aoff + n = p_len pa) then (a, 0) else (pa :: a, aoff + n)) = (a', aoff')
    ∧ (length a' ≤ S (length a))%nat
    ∧ (aoff + n = p_len pa → length a' = length a) ∧ total a' ≤ total (pa :: a)) as (a' & aoff' & Ea & La & Ma & Ta).
  { pose proof (po_len _ _ Hpa). clear Hsa Hsb. case_bool_decide; [exists a, 0|exists (pa :: a), (aoff + n)];
    cbn [total length]; split_and!; (done || (intros; lia)). }
  assert (∃ b' boff', (if bool_decide (boff + n = p_len pb) then (b, 0) else (pb :: b, boff + n)) = (b', boff')
    ∧ (length b' ≤ S (length b))%nat
    ∧ (boff + n = p_len pb → length b' = length b) ∧ total b' ≤ total (pb :: b)) as (b' & boff' & Eb & Lb & Mb & Tb).
  { pose proof (po_len _ _ Hpb). clear Hsa Hsb Ea. case_bool_decide; [exists b, 0|exists (pb :: b), (boff + n)];
    cbn [total length]; split_and!; (done || (intros; lia)). }
  rewrite Ea in *. rewrite Eb in *. destruct Hsa as (Ha' & -> & Hta), Hsb as (Hb' & -> & Htb). cbn [total] in *.
  clear Ea Eb. case_bool_decide as Hm.
  - symmetry. f_equal. apply bool_decide_false. intros [He _]%app_inj_1; [|done]. apply Hm. by apply memcmp_eq.
  - rewrite IH; [|done|done|lia|lia|lia|].
    + f_equal. apply bool_decide_ext. assert (substr (ptr_bytes h pa) aoff n = substr (ptr_bytes h pb) boff n) as ->.
      { apply memcmp_eq; [done|]. lia. }
      split; [by intros ->|apply app_inv_head].
    + cbn in Hr. assert (aoff + n = p_len pa ∨ boff + n = p_len pb) as [He|He] by lia;
        [rewrite (Ma He)|rewrite (Mb He)]; lia.
Qed.

Lemma contents_equal_spec h l other :
  list_ok h l → list_ok h other → contents_equal h l other = Ret (bool_decide (contents h l = contents h other)).
Proof.
  intros Hl Ho. pose proof (blen_contents h l Hl) as Hll. pose proof (blen_contents h other Ho) as Hlo.
  destruct Hl as [Hbs Ht Hmax _ _], Ho as [Hbs' Ht' Hmax' _ _]. unfold contents_equal, bl_length, MAX_LIST in *.
  case_bool_decide as Hne.
  { symmetry. f_equal. apply bool_decide_false. intros He. rewrite He in Hll. congruence. }
  assert (∀ bs, Forall (ptr_ok h) bs → rest_ok h bs 0) as Hr0.
  { intros bs Hf. split; [done|]. split; [done|]. destruct Hf as [|p bs Hp _]; [done|]. apply (po_len _ _ Hp). }
  rewrite equal_loop_spec; [done|by apply Hr0|by apply Hr0|lia|lia|lia|done].
Qed.

(** ** Checksums *)

(** The checksums in the cache are those of the ranges, which end where [P]
    allows. *)
Definition cache_ok (P : Z → Z → Prop) (h : heap) : Prop :=
  ∀ id w from to c v, h !! id = Some w → crc_map w !! (from, to) = Some (c, v) →
    P id to ∧ 0 ≤ from ≤ to ∧ to ≤ blen (data w) ∧ 0 ≤ c < 2 ^ 32 ∧ v = crc_bytes c (substr (data w) from (to - from)).

Definition same_data (h h' : heap) : Prop := ∀ id, data <$> h' !! id = data <$> h !! id.

Lemma same_data_refl h : same_data h h.
Proof. done. Qed.
Lemma same_data_trans h1 h2 h3 : same_data h1 h2 → same_data h2 h3 → same_data h1 h3.
Proof. intros H1 H2 id. by rewrite H2, H1. Qed.
Lemma same_data_sym h1 h2 : same_data h1 h2 → same_data h2 h1.
Proof. intros H id. by rewrite H. Qed.

Lemma same_data_lookup h h' id w : same_data h h' → h !! id = Some w → ∃ w', h' !! id = Some w' ∧ data w' = data w.
Proof.
  intros Hs Hw. specialize (Hs id). rewrite Hw in Hs. apply fmap_Some in Hs as (w' & Hw' & Hd). by exists w'.
Qed.

Lemma same_data_ptr h h' p : same_data h h' → ptr_ok h p → ptr_ok h' p ∧ ptr_bytes h' p = ptr_bytes h p.
Proof.
  intros Hs [Hl Ho (id & w & Hr & Hw & Hrange)]. destruct (same_data_lookup h h' id w Hs Hw) as (w' & Hw' & Hd).
  split; [split; [done|done|exists id, w'; by rewrite Hd]|]. rewrite (ptr_bytes_eq h p id w), (ptr_bytes_eq h' p id w') by done.
  by rewrite Hd.
Qed.

Lemma same_data_ptrs h h' bs :
  same_data h h' → Forall (ptr_ok h) bs → Forall (ptr_ok h') bs ∧ bytes_of h' bs = bytes_of h bs.
Proof.
  intros Hs. induction 1 as [|p bs Hp Hbs [IH1 IH2]]; [done|]. destruct (same_data_ptr h h' p Hs Hp) as [Hp' Hb].
  split; [by constructor|]. by rewrite !bytes_of_cons, Hb, IH2.
Qed.

Lemma same_data_list h h' l : same_data h h' → list_ok h l → list_ok h' l ∧ contents h' l = contents h l.
Proof.
  intros Hs [Hbs Hlen Hmax Hit Hap]. destruct (same_data_ptrs h h' _ Hs Hbs) as [Hbs' Hb]. split; [|done].
  split; try done. destruct Hap as [?|(? & ? & id & w & ? & Hw & ?)]; [by left|]. right.
  destruct (same_data_lookup h h' id w Hs Hw) as (w' & Hw' & Hd). split_and!; try done. exists id, w'. by rewrite Hd.
Qed.

Lemma same_data_bytes h h' : same_data h h' → heap_bytes h → heap_bytes h'.
Proof.
  intros Hs Hb id w' Hw'. destruct (same_data_lookup h' h id w' (same_data_sym _ _ Hs) Hw') as (w & Hw & <-).
  by apply (Hb id).
Qed.

(** From one initial value to another. *)
Lemma crc_bytes_convert c c' b :
  Z.lxor (crc_bytes c b) (crc_bytes (Z.lxor c c') (zeros (length b))) = crc_bytes c' b.
Proof.
  rewrite crc_bytes_zeros, (crc_bytes_le c), (crc_bytes_le c'), <-crc_bits_lxor. f_equal.
  apply Z.bits_inj'. intros n Hn. rewrite !Z.lxor_spec. by destruct (Z.testbit c n), (Z.testbit c' n), (Z.testbit _ n).
Qed.

Lemma bytes_ok_ptr h p : heap_bytes h → ptr_ok h p → bytes_ok (ptr_bytes h p).
Proof.
  intros Hh [_ _ (id & w & Hr & Hw & _)]. rewrite (ptr_bytes_eq h p id w) by done. apply bytes_ok_substr. by apply (Hh id).
Qed.

Section checksum.
Context `{HF : Crc32cFunc} `{HFS : !Crc32cFuncSpec} (P : Z → Z → Prop).

Definition may_cache (p : ptr) : Prop := ∀ id, p_raw p = Some id → P id (p_off p + p_len p).

Lemma crc32c_ptr_spec h p crc :
  heap_bytes h → cache_ok P h → ptr_ok h p → p_len p < MAX_LIST → may_cache p → 0 ≤ crc < 2 ^ 32 →
  ∃ h', crc32c_ptr h p crc = Ret (crc_bytes crc (ptr_bytes h p), h') ∧ same_data h h' ∧ cache_ok P h'.
Proof.
  unfold MAX_LIST. intros Hh Hcache Hp H31 HP Hcrc. pose proof Hp as [Hl Ho (id & w & Hr & Hw & Hrange)]. pose proof (blen_ptr_bytes h p Hp) as Hpl.
  unfold crc32c_ptr. rewrite (find_raw_some h p id w) by done. cbn [mbind outcome_bind].
  unfold get_crc, p_end. rewrite u32_small by lia.
  destruct (crc_map w !! (p_off p, p_off p + p_len p)) as [[c v]|] eqn:Hget.
  - destruct (Hcache id w _ _ c v Hw Hget) as (_ & _ & _ & Hc & ->). rewrite Z.add_simpl_l, <-(ptr_bytes_eq h p id w) by done.
    cbn [fst snd]. case_bool_decide as He; [subst; by exists h|].
    destruct (crc32c_computes (Z.lxor c crc)) as [_ Hz]; [by apply lxor_range|]. rewrite Hz by lia. cbn [mbind outcome_bind].
    exists h. split; [|done]. f_equal. f_equal. rewrite <-Hpl. unfold blen. rewrite Nat2Z.id. apply crc_bytes_convert.
  - rewrite read_ptr_spec by (done || lia). cbn [mbind outcome_bind]. rewrite <-Hpl, substr_all.
    destruct (crc32c_computes crc Hcrc) as [Hd _]. rewrite Hd; [|by apply bytes_ok_ptr|lia]. cbn [mbind outcome_bind].
    eexists. split; [reflexivity|]. split.
    + intros id'. destruct (decide (id' = id)) as [->|Hne]; [by rewrite lookup_insert_eq, Hw|by rewrite lookup_insert_ne].
    + intros id' w' from to c v. rewrite lookup_insert_Some. intros [[<- <-]|[_ Hw']]; [|by apply Hcache].
      cbn [set_crc crc_map data]. rewrite lookup_insert_Some. intros [[[= <- <-] [= <- <-]]|[_ Hold]]; [|by apply (Hcache id w)].
      rewrite Hpl in *. rewrite Z.add_simpl_l, <-(ptr_bytes_eq h p id w) by done. split_and!; try done; try lia. by apply HP.
Qed.

Lemma crc32c_spec h l crc :
  heap_bytes h → cache_ok P h → list_ok h l → Forall may_cache (_buffers l) → 0 ≤ crc < 2 ^ 32 →
  ∃ h', crc32c h l crc = Ret (crc_bytes crc (contents h l), h') ∧ same_data h h' ∧ cache_ok P h'.
Proof.
  intros Hh Hcache [Hbs _ Hmax _ _] HP. unfold crc32c, contents. revert h crc Hh Hcache Hbs Hmax.
  induction HP as [|p bs HPp HP IH]; intros h crc Hh Hcache Hbs Hmax Hcrc; [by exists h|].
  apply Forall_cons in Hbs as [Hp Hbs]. pose proof (po_len _ _ Hp). cbn [crc32c_loop]. rewrite bool_decide_true by lia.
  pose proof (total_nonneg h bs Hbs). cbn [total] in Hmax.
  destruct (crc32c_ptr_spec h p crc Hh Hcache Hp ltac:(lia) HPp Hcrc) as (h1 & -> & Hs & Hc1). cbn [mbind outcome_bind].
  destruct (same_data_ptrs h h1 bs Hs Hbs) as [Hbs1 Hb1].
  destruct (IH h1 (crc_bytes crc (ptr_bytes h p))) as (h2 & -> & Hs2 & Hc2);
    [by apply (same_data_bytes h)|done|done|lia|apply crc_bytes_range; [done|by apply bytes_ok_ptr]|].
  exists h2. rewrite Hb1, bytes_of_cons, crc_bytes_app. split_and!; try done. by eapply same_data_trans.
Qed.

End checksum.
