(* ===== verification/BufferStore.v ===== *)
(** * Bufferlists that share memory

    The lists of a program share one memory. They refine independent byte
    strings: an operation on one list changes that string only, although the
    bytes are shared and appends write into raws that other lists refer to. The
    invariant is that the raw of an append buffer belongs to one list, and that
    no range and no cached checksum goes past the end of it. *)

From S2P Require Import Prelude ErasureCode Crc32c Crc32cFacts Buffer BufferFacts BufferHeap BufferReads.

Import Buffer.

Record store := mkStore { mem : heap; lists : list t }.

Definition abs (s : store) : list bytes := contents (mem s) <$> lists s.

(** Ranges of a raw end where the append buffer on it does. *)
Definition limit (ls : list t) (id to : Z) : Prop :=
  ∀ i l, ls !! i = Some l → p_raw (append_buffer l) = Some id → to ≤ p_len (append_buffer l).

Record store_ok (s : store) : Prop := {
  so_lists i l : lists s !! i = Some l → list_ok (mem s) l;
  so_clear i j l l' : lists s !! i = Some l → lists s !! j = Some l' → Forall (clear_of (append_buffer l)) (_buffers l');
  so_unique i j l l' id : lists s !! i = Some l → lists s !! j = Some l' →
    p_raw (append_buffer l) = Some id → p_raw (append_buffer l') = Some id → i = j;
  so_bytes : heap_bytes (mem s);
  so_cache : cache_ok (limit (lists s)) (mem s);
}.

Lemma so_own s i l : store_ok s → lists s !! i = Some l → own l.
Proof. intros Hs Hl. by apply (so_clear s Hs i i). Qed.

Lemma append_raw_old h l id : list_ok h l → p_raw (append_buffer l) = Some id → ∃ w, h !! id = Some w.
Proof.
  intros Hl Hr. destruct (lo_append _ _ Hl) as [Hn|(_ & _ & id' & w & Hr' & Hw & _)]; [by rewrite Hn in Hr|].
  exists w. congruence.
Qed.

Lemma abs_lookup s i : abs s !! i = contents (mem s) <$> lists s !! i.
Proof. apply list_lookup_fmap. Qed.

(** ** Operations on one list *)

Section updated.
Context (s : store) (i : nat) (l : t) (h' : heap) (l' : t) (b : bytes).
Context (Hs : store_ok s) (Hl : lists s !! i = Some l) (Hu : updated (mem s) l h' l' b).

Lemma updated_other j lj : lists s !! j = Some lj → list_ok h' lj ∧ contents h' lj = contents (mem s) lj.
Proof.
  intros Hj. apply (grown_list (append_buffer l) (mem s)); [apply Hu|by apply (so_lists s Hs j)|by apply (so_clear s Hs i j)].
Qed.

Lemma new_not_old r id : new_raw (mem s) r → r = Some id → mem s !! id = None.
Proof. intros (id' & -> & Hn) [= ->]. done. Qed.

Lemma updated_clear_l j lj : lists s !! j = Some lj → Forall (clear_of (append_buffer l')) (_buffers lj).
Proof.
  intros Hj. apply Forall_forall. intros p Hp Hr.
  pose proof (proj1 (Forall_forall _ _) (lo_buffers _ _ (so_lists s Hs j lj Hj)) p Hp) as Hpok.
  destruct (up_append _ _ _ _ _ Hu) as [[Hsame Hle]|Hnew].
  - pose proof (proj1 (Forall_forall _ _) (so_clear s Hs i j l lj Hl Hj) p Hp) as Hc. unfold clear_of in Hc.
    specialize (Hc ltac:(congruence)). lia.
  - destruct (ptr_ok_old _ _ Hpok). by rewrite Hr.
Qed.

Lemma updated_clear_r j lj : j ≠ i → lists s !! j = Some lj → Forall (clear_of (append_buffer lj)) (_buffers l').
Proof.
  intros Hne Hj. apply Forall_forall. intros p Hp Hr.
  pose proof (proj1 (Forall_forall _ _) (lo_buffers _ _ (up_list _ _ _ _ _ Hu)) p Hp) as [_ _ (id & w & Hid & _)].
  destruct (append_raw_old _ lj id (so_lists s Hs j lj Hj)) as (w' & Hw'); [congruence|].
  destruct (proj1 (Forall_forall _ _) (up_buffers _ _ _ _ _ Hu) p Hp) as [(q & Hq & Hqr & Hle)|[Hown|Hnew]].
  - pose proof (proj1 (Forall_forall _ _) (so_clear s Hs j i lj l Hj Hl) q Hq) as Hc. unfold clear_of in Hc.
    specialize (Hc ltac:(congruence)). lia.
  - destruct Hne. apply (so_unique s Hs j i lj l id); congruence.
  - pose proof (new_not_old _ id Hnew Hid). congruence.
Qed.

Lemma updated_unique j lj id :
  lists s !! j = Some lj → p_raw (append_buffer l') = Some id → p_raw (append_buffer lj) = Some id → i = j.
Proof.
  intros Hj Hi Hr. destruct (up_append _ _ _ _ _ Hu) as [[Hsame _]|Hnew].
  - apply (so_unique s Hs i j l lj id); congruence.
  - destruct (append_raw_old _ lj id (so_lists s Hs j lj Hj) Hr) as (w & Hw).
    pose proof (new_not_old _ id Hnew Hi). congruence.
Qed.

Lemma updated_cache : cache_ok (limit (<[i := l']> (lists s))) h'.
Proof.
  intros id w' from to c v Hw' Hget. destruct (mem s !! id) as [w|] eqn:Hw.
  2: { rewrite (gr_new _ _ _ (up_heap _ _ _ _ _ Hu) id w' Hw' Hw) in Hget. by rewrite lookup_empty in Hget. }
  destruct (gr_old _ _ _ (up_heap _ _ _ _ _ Hu) id w Hw) as (w1 & Hw1 & Hc & Hlen & Hd & Ht).
  rewrite Hw' in Hw1. injection Hw1 as <-. rewrite Hc in Hget.
  destruct (so_cache s Hs id w from to c v Hw Hget) as (Hlim & Hf & Hto & Hcr & ->). split; [|split_and!; try done; try lia].
  - intros j lj Hj Hr. destruct (decide (j = i)) as [->|Hne].
    + rewrite list_lookup_insert_eq in Hj by (by apply lookup_lt_Some in Hl). injection Hj as <-.
      destruct (up_append _ _ _ _ _ Hu) as [[Hsame Hle]|Hnew].
      * specialize (Hlim i l Hl ltac:(congruence)). lia.
      * pose proof (new_not_old _ id Hnew Hr). congruence.
    + rewrite list_lookup_insert_ne in Hj by done. by apply (Hlim j).
  - f_equal. destruct (decide (p_raw (append_buffer l) = Some id)) as [He|Hne]; [|by rewrite Hd].
    specialize (Hlim i l Hl He). rewrite <-(substr_take (data w) (p_len (append_buffer l))), <-Ht, substr_take by lia. done.
Qed.

Lemma updated_ok : store_ok (mkStore h' (<[i := l']> (lists s))).
Proof.
  pose proof (lookup_lt_Some _ _ _ Hl) as Hlt. split; cbn.
  - intros j lj. rewrite list_lookup_insert_Some. intros [(<- & <- & _)|[_ Hj]]; [apply Hu|by apply (updated_other j)].
  - intros j k lj lk. rewrite !list_lookup_insert_Some. intros [(<- & <- & _)|[Hnj Hj]] [(<- & <- & _)|[Hnk Hk]].
    + apply Hu.
    + by apply (updated_clear_l k).
    + by apply (updated_clear_r j).
    + by apply (so_clear s Hs j k).
  - intros j k lj lk id. rewrite !list_lookup_insert_Some. intros [(<- & <- & _)|[Hnj Hj]] [(<- & <- & _)|[Hnk Hk]] H1 H2.
    + done.
    + by apply (updated_unique k lk id).
    + symmetry. by apply (updated_unique j lj id).
    + by apply (so_unique s Hs j k lj lk id).
  - apply (gr_bytes _ _ _ (up_heap _ _ _ _ _ Hu)), Hs.
  - apply updated_cache.
Qed.

Lemma updated_abs : abs (mkStore h' (<[i := l']> (lists s))) = <[i := b]> (abs s).
Proof.
  apply list_eq. intros j. rewrite abs_lookup. cbn. pose proof (lookup_lt_Some _ _ _ Hl).
  destruct (decide (j = i)) as [->|Hne].
  - rewrite !list_lookup_insert_eq; [|unfold abs; by rewrite length_fmap|done]. cbn. f_equal. apply Hu.
  - rewrite !list_lookup_insert_ne, abs_lookup by done. destruct (lists s !! j) as [lj|] eqn:Hj; [|done].
    cbn. f_equal. by apply (updated_other j).
Qed.

End updated.

(** ** Operations that share ranges *)

(** Every list holds ranges that some list held, and keeps its append buffer
    or gives it up. *)
Lemma shared_ok s ls :
  store_ok s →
  (∀ j l', ls !! j = Some l' → list_ok (mem s) l'
     ∧ (append_buffer l' = null_ptr ∨ append_buffer <$> lists s !! j = Some (append_buffer l'))
     ∧ Forall (λ p, ∃ k lk, lists s !! k = Some lk ∧ within (_buffers lk) p) (_buffers l')) →
  store_ok (mkStore (mem s) ls).
Proof.
  intros Hs Hls.
  assert (∀ j l' id, ls !! j = Some l' → p_raw (append_buffer l') = Some id →
    ∃ l, lists s !! j = Some l ∧ append_buffer l = append_buffer l') as Hold.
  { intros j l' id Hj Hr. destruct (Hls j l' Hj) as (_ & [Hn|Ha] & _); [by rewrite Hn in Hr|].
    apply fmap_Some in Ha as (l & Hl & ->). by exists l. }
  split; cbn.
  - intros j l' Hj. by apply (Hls j).
  - intros j k lj lk Hj Hk. apply Forall_forall. intros p Hp Hr.
    destruct (Hls k lk Hk) as (Hok & _ & Hw). pose proof (proj1 (Forall_forall _ _) (lo_buffers _ _ Hok) p Hp) as [_ _ (id & w & Hid & _)].
    destruct (Hold j lj id Hj ltac:(congruence)) as (l & Hl & Ha).
    destruct (proj1 (Forall_forall _ _) Hw p Hp) as (m & lm & Hm & q & Hq & Hqr & Hle).
    pose proof (proj1 (Forall_forall _ _) (so_clear s Hs j m l lm Hl Hm) q Hq) as Hc. unfold clear_of in Hc. rewrite Ha in Hc.
    specialize (Hc ltac:(congruence)). lia.
  - intros j k lj lk id Hj Hk H1 H2. destruct (Hold j lj id Hj H1) as (l & Hl & Ha), (Hold k lk id Hk H2) as (l2 & Hl2 & Ha2).
    apply (so_unique s Hs j k l l2 id); congruence.
  - apply Hs.
  - intros id w from to c v Hw Hget. destruct (so_cache s Hs id w from to c v Hw Hget) as (Hlim & ?). split; [|done].
    intros j lj Hj Hr. destruct (Hold j lj id Hj Hr) as (l & Hl & Ha). rewrite <-Ha in *. by apply (Hlim j).
Qed.

(** One list holds other ranges. *)
Lemma shared_one s i l l' :
  store_ok s → lists s !! i = Some l → list_ok (mem s) l' →
  append_buffer l' = null_ptr ∨ append_buffer l' = append_buffer l →
  Forall (λ p, ∃ k lk, lists s !! k = Some lk ∧ within (_buffers lk) p) (_buffers l') →
  store_ok (mkStore (mem s) (<[i := l']> (lists s))) ∧ abs (mkStore (mem s) (<[i := l']> (lists s))) = <[i := contents (mem s) l']> (abs s).
Proof.
  intros Hs Hl Hok Ha Hw. split.
  - apply shared_ok; [done|]. intros j lj. rewrite list_lookup_insert_Some. intros [(<- & <- & _)|[_ Hj]].
    + split_and!; [done| |done]. destruct Ha as [?|Ha]; [by left|right]. rewrite Hl. cbn. by rewrite Ha.
    + split_and!; [by apply (so_lists s Hs j)|right; by rewrite Hj|]. apply Forall_forall. intros p Hp. exists j, lj.
      split; [done|by apply within_self].
  - unfold abs. cbn. by rewrite list_fmap_insert.
Qed.

(** Two lists do. *)
Lemma shared_two s i j l lj l' lj' :
  store_ok s → lists s !! i = Some l → lists s !! j = Some lj → i ≠ j →
  list_ok (mem s) l' → list_ok (mem s) lj' →
  append_buffer l' = null_ptr ∨ append_buffer l' = append_buffer l → append_buffer lj' = append_buffer lj →
  Forall (within (_buffers l ++ _buffers lj)) (_buffers l') → Forall (within (_buffers l ++ _buffers lj)) (_buffers lj') →
  let s' := mkStore (mem s) (<[i := l']> (<[j := lj']> (lists s))) in
  store_ok s' ∧ abs s' = <[i := contents (mem s) l']> (<[j := contents (mem s) lj']> (abs s)).
Proof.
  intros Hs Hl Hj Hne Hok Hokj Ha Haj Hw Hwj s'. 
  assert (∀ bs, Forall (within (_buffers l ++ _buffers lj)) bs →
    Forall (λ p, ∃ k lk, lists s !! k = Some lk ∧ within (_buffers lk) p) bs) as Hpool.
  { intros bs Hbs. eapply Forall_impl; [exact Hbs|]. intros p (q & [Hq|Hq]%elem_of_app & ?); [exists i, l|exists j, lj];
      (split; [done|]); by exists q. }
  split; [|unfold abs; cbn; by rewrite !list_fmap_insert].
  apply shared_ok; [done|]. intros k lk. rewrite !list_lookup_insert_Some.
  intros [(<- & <- & _)|[_ [(<- & <- & _)|[_ Hk]]]].
  - split_and!; [done| |by apply Hpool]. destruct Ha as [?|Ha]; [by left|right]. rewrite Hl. cbn. by rewrite Ha.
  - split_and!; [done| |by apply Hpool]. right. rewrite Hj. cbn. by rewrite Haj.
  - split_and!; [by apply (so_lists s Hs k)|right; by rewrite Hk|]. apply Forall_forall. intros p Hp. exists k, lk.
    split; [done|by apply within_self].
Qed.

(** Checksums change the caches only. *)
Lemma cached_ok s h' :
  store_ok s → same_data (mem s) h' → cache_ok (limit (lists s)) h' →
  store_ok (mkStore h' (lists s)) ∧ abs (mkStore h' (lists s)) = abs s.
Proof.
  intros Hs Hd Hc. split.
  - split; cbn; [|by apply Hs|by apply Hs|by eapply same_data_bytes, Hs|done].
    intros i l Hl. apply (same_data_list (mem s) h'); [done|]. by apply (so_lists s Hs i).
  - apply list_eq. intros i. rewrite !abs_lookup. cbn. destruct (lists s !! i) as [l|] eqn:Hl; [|done].
    cbn. f_equal. apply (same_data_list (mem s) h'); [done|]. by apply (so_lists s Hs i).
Qed.

Lemma may_cache_list s i l : store_ok s → lists s !! i = Some l → Forall (may_cache (limit (lists s))) (_buffers l).
Proof.
  intros Hs Hl. apply Forall_forall. intros p Hp id Hr j lj Hj Ha.
  pose proof (proj1 (Forall_forall _ _) (so_clear s Hs j i lj l Hj Hl) p Hp) as Hc. unfold clear_of in Hc.
  apply Hc. congruence.
Qed.
