(* ===== verification/BufferCorrect.v ===== *)
(** * Bufferlists: correctness

    Programs over bufferlists refine programs over byte strings, checksums
    included; what [claim_prepend] does to the cached position is an
    exception. *)

From S2P Require Import Prelude ErasureCode Crc32c Crc32cFacts Buffer BufferFacts BufferHeap BufferReads BufferStore.

Import Buffer.

(** ** Programs *)

Inductive op :=
  | Clear (i : nat)
  | Append (i : nat) (src : bytes)
  | AppendChar (i : nat) (c : Z)
  | AppendZero (i : nat) (len : Z)
  | Reserve (i : nat) (prealloc : Z)
  | AppendList (i j : nat)
  | ClaimAppend (i j : nat)
  | Claim (i j : nat)
  | SubstrOf (i j : nat) (off len : Z)
  | Splice (i : nat) (off len : Z) (claim_by : option nat)
  | Rebuild (i : nat)
  | CStr (i : nat)
  | Copy (i : nat) (off len : Z)
  | At (i : nat) (n : Z)
  | ToStr (i : nat)
  | IsZero (i : nat)
  | ContentsEqual (i j : nat)
  | Checksum (i : nat) (crc : Z).

Inductive result := Done | Bytes (b : bytes) | NoBytes | Flag (b : bool) | Value (z : Z).

(** ** On byte strings *)

(** Where an operation is specified: [Abort] when it throws. *)
Definition spec (o : op) (a : list bytes) : option (outcome (result * list bytes)) :=
  match o with
  | Clear i => b ← a !! i; Some (Ret (Done, <[i := []]> a))
  | Append i src =>
      b ← a !! i;
      if bool_decide (bytes_ok src ∧ blen b + blen src < MAX_LIST) then Some (Ret (Done, <[i := b ++ src]> a)) else None
  | AppendChar i c =>
      b ← a !! i;
      if bool_decide (0 ≤ c < 256 ∧ blen b + 1 < MAX_LIST) then Some (Ret (Done, <[i := b ++ [c]]> a)) else None
  | AppendZero i len =>
      b ← a !! i;
      if bool_decide (0 ≤ len ∧ blen b + len < MAX_LIST) then Some (Ret (Done, <[i := b ++ zeros (Z.to_nat len)]> a)) else None
  | Reserve i n => b ← a !! i; if bool_decide (0 ≤ n < 2 ^ 32) then Some (Ret (Done, a)) else None
  | AppendList i j =>
      b ← a !! i; b' ← a !! j;
      if bool_decide (i ≠ j ∧ blen b + blen b' < MAX_LIST) then Some (Ret (Done, <[i := b ++ b']> a)) else None
  | ClaimAppend i j =>
      b ← a !! i; b' ← a !! j;
      if bool_decide (i ≠ j ∧ blen b + blen b' < MAX_LIST) then Some (Ret (Done, <[i := b ++ b']> (<[j := []]> a))) else None
  | Claim i j =>
      b ← a !! i; b' ← a !! j;
      if bool_decide (i ≠ j) then Some (Ret (Done, <[i := b']> (<[j := []]> a))) else None
  | SubstrOf i j off len =>
      b ← a !! i; b' ← a !! j;
      if bool_decide (i ≠ j ∧ 0 ≤ off ∧ 0 ≤ len ∧ off + len < 2 ^ 32) then
        Some (if bool_decide (off + len ≤ blen b') then Ret (Done, <[i := substr b' off len]> a) else Abort UncaughtException)
      else None
  | Splice i off len None =>
      b ← a !! i;
      if bool_decide (0 ≤ off ∧ 0 < len ∧ off + len ≤ blen b) then
        Some (Ret (Done, <[i := take (Z.to_nat off) b ++ drop (Z.to_nat (off + len)) b]> a))
      else if bool_decide (0 < len ∧ blen b ≤ off) then Some (Abort UncaughtException) else None
  | Splice i off len (Some j) =>
      b ← a !! i; c ← a !! j;
      if bool_decide (i ≠ j ∧ 0 ≤ off ∧ 0 < len ∧ off + len ≤ blen b ∧ blen c + len < MAX_LIST) then
        Some (Ret (Done, <[i := take (Z.to_nat off) b ++ drop (Z.to_nat (off + len)) b]> (<[j := c ++ substr b off len]> a)))
      else if bool_decide (0 < len ∧ blen b ≤ off) then Some (Abort UncaughtException) else None
  | Rebuild i => b ← a !! i; Some (Ret (Done, a))
  | CStr i => b ← a !! i; Some (Ret (if bool_decide (b = []) then NoBytes else Bytes b, a))
  | Copy i off len =>
      b ← a !! i;
      if bool_decide (0 ≤ off ∧ 0 ≤ len ∧ off + len < 2 ^ 32) then
        Some (if bool_decide (off + len ≤ blen b) then Ret (Bytes (substr b off len), a) else Abort UncaughtException)
      else None
  | At i n =>
      b ← a !! i;
      if bool_decide (0 ≤ n) then
        Some (match b !! Z.to_nat n with Some c => Ret (Value c, a) | None => Abort UncaughtException end)
      else None
  | ToStr i => b ← a !! i; Some (Ret (Bytes b, a))
  | IsZero i => b ← a !! i; Some (Ret (Flag (bool_decide (b = zeros (length b))), a))
  | ContentsEqual i j => b ← a !! i; b' ← a !! j; Some (Ret (Flag (bool_decide (b = b')), a))
  | Checksum i crc => b ← a !! i; if bool_decide (0 ≤ crc < 2 ^ 32) then Some (Ret (Value (crc_bytes crc b), a)) else None
  end.

(** ** On bufferlists *)

Section programs.
Context `{HA : Allocator} `{HAS : !AllocatorSpec} `{HF : Crc32cFunc} `{HFS : !Crc32cFuncSpec}.
Context (sizeof_raw_combined page_size : Z).

Definition get (s : store) (i : nat) : outcome t := need OutOfBounds (lists s !! i).
Definition put (s : store) (i : nat) (l : t) (h : heap) : store := mkStore h (<[i := l]> (lists s)).

Definition exec (o : op) (s : store) : outcome (result * store) :=
  match o with
  | Clear i => l ← get s i; Ret (Done, put s i (clear l) (mem s))
  | Append i src =>
      l ← get s i; '(l, h) ← append sizeof_raw_combined page_size (mem s) l src; Ret (Done, put s i l h)
  | AppendChar i c =>
      l ← get s i; '(l, h) ← append_char sizeof_raw_combined page_size (mem s) l c; Ret (Done, put s i l h)
  | AppendZero i len => l ← get s i; '(l, h) ← append_zero (mem s) l len; Ret (Done, put s i l h)
  | Reserve i n => l ← get s i; '(l, h) ← reserve (mem s) l n; Ret (Done, put s i l h)
  | AppendList i j => l ← get s i; l' ← get s j; Ret (Done, put s i (append_list l l') (mem s))
  | ClaimAppend i j =>
      l ← get s i; l' ← get s j;
      let '(l, l') := claim_append l l' in Ret (Done, put (put s j l' (mem s)) i l (mem s))
  | Claim i j =>
      l ← get s i; l' ← get s j;
      let '(l, l') := claim l l' in Ret (Done, put (put s j l' (mem s)) i l (mem s))
  | SubstrOf i j off len =>
      l ← get s i; l' ← get s j; l ← substr_of l l' off len; Ret (Done, put s i l (mem s))
  | Splice i off len None =>
      l ← get s i; '(l, _) ← splice (mem s) l off len None; Ret (Done, put s i l (mem s))
  | Splice i off len (Some j) =>
      l ← get s i; c ← get s j; '(l, c) ← splice (mem s) l off len (Some c);
      c ← need NullPointer c; Ret (Done, put (put s j c (mem s)) i l (mem s))
  | Rebuild i => l ← get s i; '(l, h) ← rebuild (mem s) l; Ret (Done, put s i l h)
  | CStr i =>
      l ← get s i; '(b, l, h) ← c_str (mem s) l;
      Ret (match b with None => NoBytes | Some b => Bytes b end, put s i l h)
  | Copy i off len => l ← get s i; '(b, l) ← copy (mem s) l off len; Ret (Bytes b, put s i l (mem s))
  | At i n => l ← get s i; c ← list_at (mem s) l n; Ret (Value c, s)
  | ToStr i => l ← get s i; b ← to_str (mem s) l; Ret (Bytes b, s)
  | IsZero i => l ← get s i; z ← is_zero (mem s) l; Ret (Flag z, s)
  | ContentsEqual i j => l ← get s i; l' ← get s j; e ← contents_equal (mem s) l l'; Ret (Flag e, s)
  | Checksum i crc => l ← get s i; '(crc, h) ← crc32c (mem s) l crc; Ret (Value crc, mkStore h (lists s))
  end.

(** ** Refinement *)

Context (Hsizes : 0 < sizeof_raw_combined < ALLOC_UNIT page_size).

(** The operation does what is specified, and keeps the invariant. *)
Definition refines (s : store) (o : op) (r : outcome (result * list bytes)) : Prop :=
  match r with
  | Ret (v, a) => ∃ s', exec o s = Ret (v, s') ∧ store_ok s' ∧ abs s' = a
  | Abort e => exec o s = Abort e
  end.

Lemma abs_get s i b :
  store_ok s → abs s !! i = Some b →
  ∃ l, get s i = Ret l ∧ lists s !! i = Some l ∧ list_ok (mem s) l ∧ own l ∧ contents (mem s) l = b ∧ blen b = _len l.
Proof.
  intros Hs Hb. rewrite abs_lookup in Hb. apply fmap_Some in Hb as (l & Hl & ->). exists l. unfold get. rewrite Hl.
  pose proof (so_lists s Hs i l Hl) as Hok. split_and!; try done; [by apply (so_own s i)|by apply blen_contents].
Qed.

Lemma put_updated s i l l' h' b :
  store_ok s → lists s !! i = Some l → updated (mem s) l h' l' b → store_ok (put s i l' h') ∧ abs (put s i l' h') = <[i := b]> (abs s).
Proof. intros Hs Hl Hu. split; [by apply (updated_ok s i l h' l' b)|by apply (updated_abs s i l h' l' b)]. Qed.

Lemma put_same s i l l' h' :
  store_ok s → lists s !! i = Some l → updated (mem s) l h' l' (contents (mem s) l) →
  store_ok (put s i l' h') ∧ abs (put s i l' h') = abs s.
Proof.
  intros Hs Hl Hu. destruct (put_updated s i l l' h' _ Hs Hl Hu) as [Hok Ha]. split; [done|]. rewrite Ha.
  apply list_insert_id. by rewrite abs_lookup, Hl.
Qed.

Lemma pool_of s i l (bs : list ptr) :
  lists s !! i = Some l → Forall (within (_buffers l)) bs →
  Forall (λ p, ∃ k lk, lists s !! k = Some lk ∧ within (_buffers lk) p) bs.
Proof. intros Hl Hbs. eapply Forall_impl; [exact Hbs|]. intros p Hp. by exists i, l. Qed.

Section one.
Context (s : store) (Hs : store_ok s).

Lemma refines_growing o r :
  match o with Append _ _ | AppendChar _ _ | AppendZero _ _ | Reserve _ _ | Rebuild _ | CStr _ => True | _ => False end →
  spec o (abs s) = Some r → refines s o r.
Proof.
  destruct o; try done; intros _ H; cbn [spec] in H; apply bind_Some in H as (b & Hb & H);
    destruct (abs_get _ _ _ Hs Hb) as (l & Hg & Hl & Hok & Hown & <- & Hlen);
    unfold refines; cbn [exec]; rewrite Hg; cbn [mbind outcome_bind].
  - case_bool_decide as Hd; [|done]. injection H as <-. destruct Hd as [Hsrc Hmax].
    destruct (append_spec sizeof_raw_combined page_size Hsizes (mem s) l src) as (l' & h' & -> & Hu & _); [done..|lia|].
    cbn [mbind outcome_bind]. eexists. split; [reflexivity|]. by apply put_updated with l.
  - case_bool_decide as Hd; [|done]. injection H as <-. destruct Hd as [Hsrc Hmax].
    destruct (append_char_spec sizeof_raw_combined page_size Hsizes (mem s) l c) as (l' & h' & -> & Hu & _); [done..|lia|].
    cbn [mbind outcome_bind]. eexists. split; [reflexivity|]. by apply put_updated with l.
  - case_bool_decide as Hd; [|done]. injection H as <-. destruct Hd as [H0 Hmax].
    destruct (append_zero_spec (mem s) l len) as (l' & h' & -> & Hu); [done..|lia|].
    cbn [mbind outcome_bind]. eexists. split; [reflexivity|]. by apply put_updated with l.
  - case_bool_decide as Hd; [|done]. injection H as <-.
    destruct (reserve_spec (mem s) l prealloc) as (l' & h' & gap & -> & Hu & _); [done..|].
    cbn [mbind outcome_bind]. eexists. split; [reflexivity|]. by apply put_same with l.
  - injection H as <-. destruct (rebuild_spec (mem s) l) as (l' & h' & -> & Hu & _); [done..|].
    cbn [mbind outcome_bind]. eexists. split; [reflexivity|]. by apply put_same with l.
  - injection H as <-. destruct (c_str_spec (mem s) l) as (l' & h' & -> & Hu); [done..|].
    cbn [mbind outcome_bind]. eexists. split; [by case_bool_decide|]. by apply put_same with l.
Qed.

Lemma refines_reading o r :
  match o with Copy _ _ _ | At _ _ | ToStr _ | IsZero _ | ContentsEqual _ _ | Checksum _ _ => True | _ => False end →
  spec o (abs s) = Some r → refines s o r.
Proof.
  destruct o; try done; intros _ H; cbn [spec] in H; apply bind_Some in H as (b & Hb & H);
    destruct (abs_get _ _ _ Hs Hb) as (l & Hg & Hl & Hok & Hown & <- & Hlen);
    unfold refines; cbn [exec]; rewrite Hg; cbn [mbind outcome_bind].
  - case_bool_decide as Hd; [|done]. injection H as <-. rewrite Hlen. case_bool_decide as Hle.
    + destruct (copy_spec (mem s) l off len) as (l' & -> & Hok' & Hbs & Hap); [done|lia..|]. cbn [mbind outcome_bind].
      eexists. split; [reflexivity|].
      destruct (shared_one s i l l' Hs Hl Hok') as [Hs' Ha'].
      * by right.
      * rewrite Hbs. apply (pool_of s i l); [done|]. by apply within_all.
      * split; [done|]. unfold put. rewrite Ha'. unfold contents. rewrite Hbs. apply list_insert_id. by rewrite abs_lookup, Hl.
    + unfold copy, bl_length. rewrite u32_small, bool_decide_true by lia. done.
  - case_bool_decide as Hd; [|done]. injection H as <-. rewrite list_at_spec by done.
    destruct (contents (mem s) l !! Z.to_nat n); [|done]. cbn [mbind outcome_bind]. by exists s.
  - injection H as <-. rewrite to_str_spec by done. cbn [mbind outcome_bind]. by exists s.
  - injection H as <-. rewrite is_zero_spec by done. cbn [mbind outcome_bind]. by exists s.
  - apply bind_Some in H as (b' & Hb' & H). destruct (abs_get _ _ _ Hs Hb') as (l' & Hg' & Hl' & Hok' & _ & <- & _).
    injection H as <-. rewrite Hg'. cbn [mbind outcome_bind]. rewrite contents_equal_spec by done. cbn [mbind outcome_bind]. by exists s.
  - case_bool_decide as Hd; [|done]. injection H as <-.
    destruct (crc32c_spec (limit (lists s)) (mem s) l crc) as (h' & -> & Hsd & Hc');
      [apply Hs|apply Hs|done|by apply (may_cache_list s i)|done|].
    cbn [mbind outcome_bind]. eexists. split; [reflexivity|]. by apply cached_ok.
Qed.

Lemma refines_sharing o r :
  match o with Clear _ | AppendList _ _ | ClaimAppend _ _ | Claim _ _ | SubstrOf _ _ _ _ => True | _ => False end →
  spec o (abs s) = Some r → refines s o r.
Proof.
  destruct o as [i| | | | |i j|i j|i j|i j off len| | | | | | | | |]; try done; intros _ H; cbn [spec] in H;
    apply bind_Some in H as (b & Hb & H);
    destruct (abs_get _ _ _ Hs Hb) as (l & Hg & Hl & Hok & Hown & <- & Hlen);
    unfold refines; cbn [exec]; rewrite Hg; cbn [mbind outcome_bind].
  { injection H as <-. eexists. split; [reflexivity|].
    apply (shared_one s i l (clear l) Hs Hl (clear_ok _ _)); [by left|by constructor]. }
  all: apply bind_Some in H as (b' & Hb' & H); destruct (abs_get _ _ _ Hs Hb') as (l' & Hg' & Hl' & Hok' & _ & <- & Hlen');
    rewrite Hg'; cbn [mbind outcome_bind]; case_bool_decide as Hd; [|discriminate H]; injection H as <-.
  - destruct Hd as [Hne Hmax]. destruct (append_list_spec (mem s) l l' Hok Hok') as (Hok1 & Hc1 & _); [lia|].
    eexists. split; [reflexivity|]. unfold put. rewrite <-Hc1. apply (shared_one s i l); [done|done|done|by right|].
    cbn. apply Forall_app. split; [apply (pool_of s i l)|apply (pool_of s j l')]; (done || by apply within_all).
  - destruct Hd as [Hne Hmax]. destruct (claim_append_spec (mem s) l l' Hok Hok') as (Hok1 & Hc1 & Hok2 & Hc2); [lia|].
    eexists. split; [reflexivity|]. unfold put. rewrite <-Hc1, <-Hc2.
    apply (shared_two s i j l l'); try done; [by right|]. by apply within_all.
  - destruct (claim_append_spec (mem s) (clear l) l' (clear_ok _ _) Hok') as (Hok1 & Hc1 & Hok2 & Hc2).
    { cbn. rewrite (lo_len _ _ Hok'). apply Hok'. }
    change (contents (mem s) (clear l) ++ contents (mem s) l') with (contents (mem s) l') in Hc1.
    eexists. split; [reflexivity|]. unfold put. rewrite <-Hc1, <-Hc2.
    apply (shared_two s i j l l'); try done; [by left|]. apply within_all. cbn. set_solver.
  - destruct Hd as (Hne & H0 & H1 & H2). rewrite Hlen'. case_bool_decide as Hle.
    + destruct (substr_of_spec (mem s) l l' off len Hok') as (l1 & -> & Hok1 & <- & Ha1 & Hw1); [done..|].
      cbn [mbind outcome_bind]. eexists. split; [reflexivity|].
      apply (shared_one s i l l1 Hs Hl Hok1); [by left|]. by apply (pool_of s j l').
    + unfold Buffer.substr_of, bl_length. rewrite u32_small, bool_decide_true by lia. done.
Qed.

Lemma splice_bytes (b : bytes) off len :
  0 ≤ off → 0 ≤ len → off + len ≤ blen b →
  substr b 0 off ++ substr b (off + len) (blen b - (off + len)) = take (Z.to_nat off) b ++ drop (Z.to_nat (off + len)) b.
Proof.
  intros. unfold substr. f_equal. apply take_ge. rewrite length_drop. unfold blen in *. lia.
Qed.

Lemma splice_past h l off len c : 0 < len → _len l ≤ off → splice h l off len c = Abort UncaughtException.
Proof. intros. unfold splice, bl_length. by rewrite bool_decide_false, bool_decide_true by lia. Qed.

Lemma refines_splice i off len c r : spec (Splice i off len c) (abs s) = Some r → refines s (Splice i off len c) r.
Proof.
  intros H. destruct c as [j|]; cbn [spec] in H; apply bind_Some in H as (b & Hb & H);
    destruct (abs_get _ _ _ Hs Hb) as (l & Hg & Hl & Hok & Hown & <- & Hlen);
    unfold refines; cbn [exec]; rewrite Hg; cbn [mbind outcome_bind].
  - apply bind_Some in H as (b' & Hb' & H). destruct (abs_get _ _ _ Hs Hb') as (l' & Hg' & Hl' & Hok' & _ & <- & Hlen').
    rewrite Hg'. cbn [mbind outcome_bind]. case_bool_decide as Hd.
    + injection H as <-. destruct Hd as (Hne & H0 & H1 & H2 & H3).
      destruct (splice_spec (mem s) l off len (Some l') Hok) as (l1 & c1 & -> & Hok1 & Ha1 & Hc1 & Hcl & Hw1);
        [done|done|lia|split; [done|lia]|].
      cbn [mbind outcome_bind]. destruct c1 as [c1|]; [|done]. destruct Hcl as (Hokc & Hcc & _ & Hac & Hwc).
      cbn [need mbind outcome_bind]. eexists. split; [reflexivity|]. unfold put.
      rewrite <-Hlen, splice_bytes in Hc1 by (done || lia). rewrite <-Hc1, <-Hcc.
      apply (shared_two s i j l l'); try done; [by right|]. eapply within_all_mono; [|exact Hw1]. set_solver.
    + case_bool_decide as Hp; [|done]. injection H as <-. by rewrite splice_past by lia.
  - case_bool_decide as Hd.
    + injection H as <-. destruct Hd as (H0 & H1 & H2).
      destruct (splice_spec (mem s) l off len None Hok) as (l1 & c1 & -> & Hok1 & Ha1 & Hc1 & _ & Hw1); [done|done|lia|done|].
      cbn [mbind outcome_bind]. eexists. split; [reflexivity|].
      rewrite <-Hlen, splice_bytes in Hc1 by (done || lia). rewrite <-Hc1.
      apply (shared_one s i l l1 Hs Hl Hok1); [by right|]. by apply (pool_of s i l).
    + case_bool_decide as Hp; [|done]. injection H as <-. by rewrite splice_past by lia.
Qed.

Lemma refines_op o r : spec o (abs s) = Some r → refines s o r.
Proof.
  destruct o; first [by apply refines_growing|by apply refines_reading|by apply refines_sharing|apply refines_splice].
Qed.

End one.

(** Programs: the results so far, and what they end with. *)
Fixpoint run (prog : list op) (s : store) : outcome (list result * store) :=
  match prog with
  | [] => Ret ([], s)
  | o :: prog => '(v, s) ← exec o s; '(vs, s) ← run prog s; Ret (v :: vs, s)
  end.

Fixpoint spec_run (prog : list op) (a : list bytes) : option (outcome (list result * list bytes)) :=
  match prog with
  | [] => Some (Ret ([], a))
  | o :: prog =>
      r ← spec o a;
      match r with
      | Abort e => Some (Abort e)
      | Ret (v, a) => r ← spec_run prog a; Some ('(vs, a) ← r; Ret (v :: vs, a))
      end
  end.

Lemma run_refines prog s r :
  store_ok s → spec_run prog (abs s) = Some r →
  match r with
  | Ret (vs, a) => ∃ s', run prog s = Ret (vs, s') ∧ store_ok s' ∧ abs s' = a
  | Abort e => run prog s = Abort e
  end.
Proof.
  revert s r. induction prog as [|o prog IH]; intros s r Hs H; cbn [spec_run run] in *.
  { injection H as <-. by exists s. }
  apply bind_Some in H as (r1 & H1 & H). pose proof (refines_op s Hs o r1 H1) as Hr. unfold refines in Hr.
  destruct r1 as [[v a]|e]; [|injection H as <-; by rewrite Hr].
  destruct Hr as (s1 & -> & Hs1 & <-). cbn [mbind outcome_bind].
  apply bind_Some in H as (r2 & H2 & H). injection H as <-. specialize (IH s1 r2 Hs1 H2).
  destruct r2 as [[vs a]|e]; cbn [mbind outcome_bind]; [|by rewrite IH].
  destruct IH as (s2 & -> & Hs2 & <-). cbn [mbind outcome_bind]. by exists s2.
Qed.

Definition initial (n : nat) : store := mkStore ∅ (replicate n empty).

Lemma initial_ok n : store_ok (initial n).
Proof.
  split; cbn.
  - intros i l [-> _]%lookup_replicate. apply (clear_ok ∅ empty).
  - intros i j l l' _ [-> _]%lookup_replicate. constructor.
  - intros i j l l' id [-> _]%lookup_replicate. done.
  - intros id w. by rewrite lookup_empty.
  - intros id w from to c v. by rewrite lookup_empty.
Qed.

Lemma initial_abs n : abs (initial n) = replicate n [].
Proof. unfold abs, initial. cbn. by rewrite fmap_replicate. Qed.

End programs.

(** C15. Programs over any number of bufferlists that share memory do what they
    do on independent byte strings: the same results (bytes read, comparisons,
    checksums, exceptions), and lists with the same contents. This covers
    appends (which write into raws that others refer to, without invalidating
    cached checksums), the operations that share ranges ([append], [claim],
    [substr_of], [splice]), [rebuild] and [c_str], reads through the cached
    position and checksums through the caches of the raws. *)
Theorem bufferlist_refines `{HA : Allocator} `{HAS : !AllocatorSpec} `{HF : Crc32cFunc} `{HFS : !Crc32cFuncSpec}
    sizeof_raw_combined page_size n prog r :
  0 < sizeof_raw_combined < ALLOC_UNIT page_size →
  spec_run prog (replicate n []) = Some r →
  match r with
  | Ret (vs, a) => ∃ s', run sizeof_raw_combined page_size prog (initial n) = Ret (vs, s') ∧ abs s' = a
  | Abort e => run sizeof_raw_combined page_size prog (initial n) = Abort e
  end.
Proof.
  intros Hsizes Hr. rewrite <-initial_abs in Hr.
  pose proof (run_refines _ _ Hsizes prog (initial n) r (initial_ok n) Hr) as H.
  destruct r as [[vs a]|e]; [|done]. destruct H as (s' & ? & _ & ?). by exists s'.
Qed.

(** Two lists: appends, a shared range, a checksum before and after an append
    into the raw of the cached range, a splice into the other list. *)
Lemma bufferlist_refines_witness :
  let prog := [Append 0 [1; 2; 3]; SubstrOf 1 0 1 2; Checksum 1 7; Append 0 [4; 5]; Checksum 0 7; Checksum 1 9;
               AppendZero 1 3; Splice 0 1 2 (Some 1%nat); Copy 0 1 2; CStr 1; Copy 0 2 5] in
  run 96 4096 (prog) (initial 2) = Abort UncaughtException
  ∧ ∃ s', run 96 4096 (take 10 prog) (initial 2)
      = Ret ([Done; Done; Value (crc_bytes 7 [2; 3]); Done; Value (crc_bytes 7 [1; 2; 3; 4; 5]);
              Value (crc_bytes 9 [2; 3]); Done; Done; Bytes [4; 5]; Bytes [2; 3; 0; 0; 0; 2; 3]], s')
    ∧ abs s' = [[1; 4; 5]; [2; 3; 0; 0; 0; 2; 3]].
Proof.
  split.
  - refine (bufferlist_refines 96 4096 2 _ (Abort UncaughtException) _ _); [unfold ALLOC_UNIT; lia|].
    vm_compute. reflexivity.
  - refine (bufferlist_refines 96 4096 2 _ (Ret (_, _)) _ _); [unfold ALLOC_UNIT; lia|].
    vm_compute. reflexivity.
Defined.

(** ** The cached position after a list is put in front *)

Definition relabel (o : Z) (it : iterator) : iterator := mkIterator o (it_p it) (it_p_off it).

Lemma advance_relabel buffers it n it' o :
  0 ≤ s32 n → advance buffers it n = Ret it' → ∃ o', advance buffers (relabel o it) n = Ret (relabel o' it').
Proof.
  intros Hn. unfold advance, relabel. cbn [it_p it_p_off it_off]. case_bool_decide as Hpos.
  - destruct (advance_loop _ _ _) as [[p q]|]; [|done]. cbn. intros [= <-]. by eexists.
  - case_bool_decide; [|lia]. intros [= <-]. by exists o.
Qed.

Lemma copy_loop_relabel h buffers rounds it len b it' o :
  0 ≤ len < 2 ^ 31 → copy_loop h buffers rounds it len = Ret (b, it') →
  ∃ o', copy_loop h buffers rounds (relabel o it) len = Ret (b, relabel o' it').
Proof.
  revert it len b it' o. induction rounds as [|rounds IH]; intros it len b it' o Hlen; cbn [copy_loop];
    (case_bool_decide; [intros [= <- <-]; by exists o|]); [done|]. change (it_p (relabel o it)) with (it_p it). change (it_p_off (relabel o it)) with (it_p_off it).
  destruct (it_p it) as [i|] eqn:Hi; [|done]. destruct (buffers !! i) as [p|]; [|done]. cbn [need mbind outcome_bind].
  destruct (assert_that _); [|done]. cbn [mbind outcome_bind].
  pose proof (u32_range (p_len p - it_p_off it)). set (m := Z.min len _).
  destruct (copy_out _ _ _ _) as [b1|]; [|done]. cbn [mbind outcome_bind].
  destruct (advance buffers it m) as [it1|] eqn:Ha; [|done]. cbn [mbind outcome_bind].
  destruct (copy_loop h buffers rounds it1 (len - m)) as [[b2 it2]|] eqn:Hc; [|done]. cbn. intros [= <- <-].
  assert (0 ≤ s32 m) as Hm by (rewrite s32_int; lia).
  destruct (advance_relabel buffers it m it1 o Hm Ha) as (o1 & ->).
  cbn [mbind outcome_bind]. destruct (IH it1 (len - m) b2 it2 o1) as (o2 & ->); [lia|done|].
  cbn. by exists o2.
Qed.

(** The position of a list behind another one. *)
Lemma at_pos_behind bs front it off i :
  at_pos bs it off → it_p it = Some i →
  at_pos (front ++ bs) (mkIterator (total front + off) (Some (length front + i)%nat) (it_p_off it)) (total front + off).
Proof.
  intros [_ H] Hi. rewrite Hi in H. destruct H as (p & Hp & Hr & ->). split; [done|]. cbn. exists p.
  rewrite lookup_app_r, take_app_ge, total_app by lia.
  replace (length front + i - length front)%nat with i by lia. split_and!; [done|lia..].
Qed.

(** [claim_prepend] does not move the cached position: a [copy] from the
    offset of the position returns the bytes that the list had there before,
    not those it has there now. *)
Theorem prepend_stale_position h l bl i len :
  list_ok h l → list_ok h bl → it_p (last_p l) = Some i →
  0 ≤ len → it_off (last_p l) + len ≤ _len l → _len l + _len bl < MAX_LIST →
  let l' := (claim_prepend l bl).1 in
  contents h l' = contents h bl ++ contents h l
  ∧ ∃ l'', copy h l' (it_off (last_p l)) len = Ret (substr (contents h l) (it_off (last_p l)) len, l'').
Proof.
  intros [Hbs Hlen Hmax Hit Hap] [Hbs2 Hlen2 Hmax2 _ _] Hi H0 Hle Htot l'. unfold MAX_LIST in *.
  assert (0 ≤ total (_buffers bl)) as Hnn by (by apply (total_nonneg h)).
  unfold it_ok in Hit. rewrite Hi in Hit. pose proof (at_pos_range h _ Hbs _ _ Hit) as Hrange.
  pose proof (at_pos_behind _ (_buffers bl) _ _ i Hit Hi) as Hat.
  split; [unfold contents, l'; cbn; by rewrite bytes_of_app|].
  unfold copy, bl_length, l'. cbn [claim_prepend fst _len last_p _buffers it_off].
  rewrite (u32_small (it_off (last_p l) + len)), (u32_small (_len l + _len bl)), bool_decide_false by lia.
  rewrite bool_decide_false by (intros Hx; by apply Hx). cbn [mbind outcome_bind]. unfold it_copy, settle.
  rewrite Hi. cbn [fmap option_fmap option_map it_p mbind outcome_bind].
  destruct (copy_loop_spec h (_buffers bl ++ _buffers l)) with (len := len) (rounds := S (length (_buffers bl ++ _buffers l)))
    (off := total (_buffers bl) + it_off (last_p l)) (it := mkIterator (total (_buffers bl) + it_off (last_p l))
      (Some (length (_buffers bl) + i)%nat) (it_p_off (last_p l))) as (it' & Hcopy & _);
    [by apply Forall_app|rewrite total_app; unfold MAX_LIST; lia|done|done|rewrite total_app; lia|unfold left_of; lia|].
  assert (0 ≤ len < 2 ^ 31) as H31 by lia.
  destruct (copy_loop_relabel _ _ _ _ _ _ _ (it_off (last_p l)) H31 Hcopy) as (o' & Hcopy'). unfold relabel in Hcopy'. cbn [it_p it_p_off] in Hcopy'.
  rewrite Hcopy'.
  cbn [mbind outcome_bind]. rewrite bytes_of_app, <-(blen_bytes_of h (_buffers bl)), substr_app_r by
    (rewrite ?blen_bytes_of; done || lia). by eexists.
Qed.

(** A list of four bytes read up to its third one, and two bytes in front. *)
Lemma prepend_stale_position_witness :
  let h : heap := {[1 := mkRaw [10; 11; 12; 13] ∅; 2 := mkRaw [20; 21] ∅]} in
  let l := mkList [mkPtr (Some 1) 0 4] 4 0 null_ptr (mkIterator 2 (Some 0%nat) 2) in
  let bl := mkList [mkPtr (Some 2) 0 2] 2 0 null_ptr (mkIterator 0 (Some 0%nat) 0) in
  contents h (claim_prepend l bl).1 = [20; 21; 10; 11; 12; 13]
  ∧ ∃ l'', copy h (claim_prepend l bl).1 2 1 = Ret ([12], l'').
Proof.
  intros h l bl.
  refine (prepend_stale_position h l bl 0 1 _ _ eq_refl _ _ _); [| |lia|cbn; lia|unfold MAX_LIST; cbn; lia].
  - split; cbn; [|done|done| |by left].
    + constructor; [|done]. split; cbn; [lia|lia|]. exists 1, (mkRaw [10; 11; 12; 13] ∅). by vm_compute.
    + split; [done|]. exists (mkPtr (Some 1) 0 4). cbn. split; [done|lia].
  - split; cbn; [|done|done| |by left].
    + constructor; [|done]. split; cbn; [lia|lia|]. exists 2, (mkRaw [20; 21] ∅). by vm_compute.
    + split; [done|]. exists (mkPtr (Some 2) 0 2). cbn. split; [done|lia].
Defined.
