(* ===== verification/Encoding.v ===== *)
(** * Encoding and decoding

    src/src/include/encoding.h: the byte format of integers, strings and
    containers, and the envelope of versioned structures. An encoder appends to
    a bufferlist, a decoder moves an iterator over one; both are taken over the
    contents of the list. A decoder of containers starts from an empty one. *)

From S2P Require Import Prelude ErasureCode Crc32c Crc32cFacts Buffer BufferFacts BufferHeap.

Module Encoding.

(** ** Reading through an iterator

    The contents of the list and the offset of the iterator. *)

Definition reader (A : Type) : Type := bytes → Z → outcome (A * Z).

#[global] Instance reader_ret : MRet reader := λ A a bl off, Ret (a, off).
#[global] Instance reader_bind : MBind reader := λ A B f m bl off,
  match m bl off with Ret (a, off) => f a bl off | Abort c => Abort c end.

(** [end_of_buffer] or [malformed_input]. *)
Definition throw {A} : reader A := λ _ _, Abort UncaughtException.

Definition get_off : reader Z := λ bl off, Ret (off, off).
Definition get_remaining : reader Z := λ bl off, Ret (blen bl - off, off).

(** [p.copy(n, dest)]. *)
Definition get_bytes (n : Z) : reader bytes := λ bl off,
  if bool_decide (off + n ≤ blen bl) then Ret (substr bl off n, off + n) else Abort UncaughtException.

Definition skip (n : Z) : reader () := λ bl off,
  if bool_decide (off + n ≤ blen bl) then Ret (tt, off + n) else Abort UncaughtException.

(** ** Encoders *)

Record Encoder (A : Type) := mkEncoder {
  encode : A → bytes;
  decode : reader A;
  encodable : A → Prop;
}.
Arguments mkEncoder {A} _ _ _.
Arguments encode {A} _ _.
Arguments decode {A} _.
Arguments encodable {A} _ _.

(** What was encoded is decoded, wherever it is in the buffer. *)
Class EncoderOk {A} (e : Encoder A) : Prop := {
  encode_decode a pre suf :
    encodable e a → decode e (pre ++ encode e a ++ suf) (blen pre) = Ret (a, blen pre + blen (encode e a));
  encode_bytes a : encodable e a → bytes_ok (encode e a);
}.

(** *** Integers: little endian *)

Fixpoint le_encode (n : nat) (z : Z) : bytes :=
  match n with O => [] | S n => z mod 256 :: le_encode n (z / 256) end.
Fixpoint le_decode (b : bytes) : Z :=
  match b with [] => 0 | x :: b => x + 256 * le_decode b end.

Definition uint (n : nat) : Encoder Z := {|
  encode := le_encode n;
  decode := b ← get_bytes (Z.of_nat n); mret (le_decode b);
  encodable z := 0 ≤ z < 256 ^ Z.of_nat n;
|}.
Definition sint (n : nat) : Encoder Z := {|
  encode := le_encode n;
  decode :=
    b ← get_bytes (Z.of_nat n);
    let z := le_decode b in
    mret (if bool_decide (2 * z < 256 ^ Z.of_nat n) then z else z - 256 ^ Z.of_nat n);
  encodable z := - 256 ^ Z.of_nat n ≤ 2 * z < 256 ^ Z.of_nat n;
|}.

Definition u8_enc : Encoder Z := uint 1.
Definition u16_enc : Encoder Z := uint 2.
Definition u32_enc : Encoder Z := uint 4.
Definition u64_enc : Encoder Z := uint 8.
Definition s16_enc : Encoder Z := sint 2.
Definition s32_enc : Encoder Z := sint 4.
Definition s64_enc : Encoder Z := sint 8.

Definition bool_enc : Encoder bool := {|
  encode := λ v : bool, encode u8_enc (if v then 1 else 0);
  decode := vv ← decode u8_enc; mret (bool_decide (vv ≠ 0));
  encodable := λ _, True;
|}.

(** *** Strings and bufferlists *)

Definition string_enc : Encoder bytes := {|
  encode s := encode u32_enc (blen s) ++ s;
  decode := len ← decode u32_enc; get_bytes len;
  encodable s := blen s < 2 ^ 32 ∧ bytes_ok s;
|}.

(** *** Containers *)

Section containers.
Context {A B : Type}.

Definition pair_enc (ea : Encoder A) (eb : Encoder B) : Encoder (A * B) := {|
  encode p := encode ea p.1 ++ encode eb p.2;
  decode := a ← decode ea; b ← decode eb; mret (a, b);
  encodable p := encodable ea p.1 ∧ encodable eb p.2;
|}.

(** An optional that is absent leaves what was there before. *)
Definition decode_optional (e : Encoder A) (old : option A) : reader (option A) :=
  present ← decode u8_enc;
  if bool_decide (present ≠ 0) then a ← decode e; mret (Some a) else mret old.
Definition optional_enc (e : Encoder A) : Encoder (option A) := {|
  encode p := match p with None => encode u8_enc 0 | Some a => encode u8_enc 1 ++ encode e a end;
  decode := decode_optional e None;
  encodable p := match p with None => True | Some a => encodable e a end;
|}.

(** [while (n--)]. *)
Fixpoint decode_n (e : Encoder A) (n : nat) : reader (list A) :=
  match n with
  | O => mret []
  | S n => a ← decode e; l ← decode_n e n; mret (a :: l)
  end.
Definition encode_all (e : Encoder A) (l : list A) : bytes := concat (encode e <$> l).

(** [std::list], [std::vector] and [std::deque] have the same format. *)
Definition list_enc (e : Encoder A) : Encoder (list A) := {|
  encode l := encode u32_enc (Z.of_nat (length l)) ++ encode_all e l;
  decode := n ← decode u32_enc; decode_n e (Z.to_nat n);
  encodable l := Z.of_nat (length l) < 2 ^ 32 ∧ Forall (encodable e) l;
|}.

(** [std::array], and the [_nohead] functions: the length is known. *)
Definition array_enc (n : nat) (e : Encoder A) : Encoder (list A) := {|
  encode := encode_all e;
  decode := decode_n e n;
  encodable l := length l = n ∧ Forall (encodable e) l;
|}.

End containers.

(** The elements in ascending order. *)
Definition set_enc (e : Encoder Z) : Encoder (gset Z) := {|
  encode s := encode (list_enc e) (ascending s);
  decode := l ← decode (list_enc e); mret (list_to_set l);
  encodable s := Z.of_nat (size s) < 2 ^ 32 ∧ set_Forall (encodable e) s;
|}.

(** The pairs in ascending order of the keys; a key that comes twice has the
    last value. *)
Definition bindings {V} (m : gmap Z V) : list (Z * V) :=
  omap (λ k, (λ v, (k, v)) <$> m !! k) (ascending (dom m)).
Definition map_enc {V} (ek : Encoder Z) (ev : Encoder V) : Encoder (gmap Z V) := {|
  encode m := encode (list_enc (pair_enc ek ev)) (bindings m);
  decode := l ← decode (list_enc (pair_enc ek ev)); mret (foldl (λ m kv, <[kv.1 := kv.2]> m) ∅ l);
  encodable m := Z.of_nat (size m) < 2 ^ 32 ∧ map_Forall (λ k v, encodable ek k ∧ encodable ev v) m;
|}.

(** ** Versioned structures *)

(** The list with the head of the block, and where the compatible version and
    the length are in it. *)
Definition ENCODE_START (v compat : Z) (bl : bytes) : bytes * Z * Z :=
  let bl := bl ++ encode u8_enc v in
  let bl := bl ++ encode u8_enc compat in
  let struct_compat_it := blen bl - 1 in
  let bl := bl ++ encode u32_enc 0 in
  let struct_len_it := blen bl - 4 in
  (bl, struct_compat_it, struct_len_it).

Definition ENCODE_FINISH_NEW_COMPAT (bl : bytes) (struct_compat_it struct_len_it new_struct_compat : Z) : bytes :=
  let struct_len := u32 (blen bl - struct_len_it - 4) in
  let bl := overwrite bl struct_len_it (encode u32_enc struct_len) in
  if bool_decide (new_struct_compat ≠ 0) then overwrite bl struct_compat_it (encode u8_enc new_struct_compat)
  else bl.

(** The version that was encoded and the end of the block. *)
Definition DECODE_START (v : Z) : reader (Z * Z) :=
  struct_v ← decode u8_enc;
  struct_compat ← decode u8_enc;
  if bool_decide (v < struct_compat) then throw else
  struct_len ← decode u32_enc;
  remaining ← get_remaining;
  if bool_decide (remaining < struct_len) then throw else
  off ← get_off;
  mret (struct_v, u32 (off + struct_len)).

(** Structures that used to have no compatible version or no length. *)
Definition DECODE_START_LEGACY_COMPAT_LEN (v compatv lenv skip_v : Z) : reader (Z * Z) :=
  struct_v ← decode u8_enc;
  let compat :=
    if bool_decide (compatv ≤ struct_v) then
      struct_compat ← decode u8_enc;
      if bool_decide (v < struct_compat) then throw else mret tt
    else if bool_decide (skip_v ≠ 0) then
      remaining ← get_remaining;
      if bool_decide (remaining < skip_v) then throw else skip skip_v
    else mret tt in
  _ ← compat;
  if bool_decide (lenv ≤ struct_v) then
    struct_len ← decode u32_enc;
    remaining ← get_remaining;
    if bool_decide (remaining < struct_len) then throw else
    off ← get_off;
    mret (struct_v, u32 (off + struct_len))
  else mret (struct_v, 0).

Definition DECODE_FINISH (struct_end : Z) : reader () :=
  if bool_decide (struct_end ≠ 0) then
    off ← get_off;
    if bool_decide (struct_end < off) then throw
    else if bool_decide (off < struct_end) then skip (struct_end - off) else mret tt
  else mret tt.

(** A structure: its version, the oldest one that can decode it, and the
    members, whose decoding may depend on the version that was encoded. *)
Record Struct (A : Type) := mkStruct {
  struct_version : Z;
  struct_compat : Z;
  members : A → bytes;
  read_members : Z → reader A;
}.
Arguments mkStruct {A} _ _ _ _.
Arguments struct_version {A} _.
Arguments struct_compat {A} _.
Arguments members {A} _ _.
Arguments read_members {A} _ _.

Definition encode_struct {A} (s : Struct A) (a : A) (bl : bytes) : bytes :=
  let '(bl, struct_compat_it, struct_len_it) := ENCODE_START (struct_version s) (struct_compat s) bl in
  ENCODE_FINISH_NEW_COMPAT (bl ++ members s a) struct_compat_it struct_len_it 0.

Definition decode_struct {A} (s : Struct A) : reader A :=
  '(struct_v, struct_end) ← DECODE_START (struct_version s);
  a ← read_members s struct_v;
  _ ← DECODE_FINISH struct_end;
  mret a.

Definition decode_struct_legacy {A} (s : Struct A) (compatv lenv skip_v : Z) : reader A :=
  '(struct_v, struct_end) ← DECODE_START_LEGACY_COMPAT_LEN (struct_version s) compatv lenv skip_v;
  a ← read_members s struct_v;
  _ ← DECODE_FINISH struct_end;
  mret a.

(** [decode(o, bl)]: all of the list. *)
Definition decode_full {A} (e : Encoder A) (bl : bytes) : outcome A :=
  '(a, off) ← decode e bl 0;
  _ ← assert_that (bool_decide (off = blen bl));
  Ret a.

(** ** Round trips *)

Lemma blen_le_encode n z : blen (le_encode n z) = Z.of_nat n.
Proof. unfold blen. f_equal. revert z. induction n as [|n IH]; intros z; [done|]. cbn. by rewrite IH. Qed.

Lemma le_decode_encode n z : le_decode (le_encode n z) = z mod 256 ^ Z.of_nat n.
Proof.
  revert z. induction n as [|n IH]; intros z; [by rewrite Z.mod_1_r|].
  cbn [le_encode le_decode]. rewrite IH, Nat2Z.inj_succ, Z.pow_succ_r by lia.
  rewrite Z.rem_mul_r by (try apply Z.pow_nonzero; lia). lia.
Qed.

Lemma le_encode_bytes n z : bytes_ok (le_encode n z).
Proof.
  revert z. induction n as [|n IH]; intros z; [constructor|]. cbn. constructor; [|apply IH].
  unfold byte_ok. apply Z.mod_pos_bound. lia.
Qed.

Lemma get_bytes_at b pre suf : get_bytes (blen b) (pre ++ b ++ suf) (blen pre) = Ret (b, blen pre + blen b).
Proof.
  unfold get_bytes. rewrite !blen_app. rewrite bool_decide_true by (unfold blen; lia). do 2 f_equal.
  pose proof (substr_middle pre b suf 0 (blen b)) as Hm. rewrite Z.add_0_r in Hm.
  rewrite Hm by (unfold blen; lia). apply substr_all.
Qed.

(** One thing after another. *)
Lemma decode_then {A B} (e : Encoder A) `{!EncoderOk e} (k : A → reader B) a pre rest :
  encodable e a →
  (decode e ≫= k) (pre ++ encode e a ++ rest) (blen pre) = k a ((pre ++ encode e a) ++ rest) (blen (pre ++ encode e a)).
Proof.
  intros Ha. unfold mbind, reader_bind. rewrite encode_decode by done. by rewrite blen_app, <-app_assoc.
Qed.

#[global] Instance uint_ok n : EncoderOk (uint n).
Proof.
  split; [|intros; apply le_encode_bytes]. intros z pre suf Hz. cbn. unfold mbind, reader_bind.
  rewrite <-(blen_le_encode n z) at 1. rewrite get_bytes_at. unfold mret, reader_ret.
  rewrite le_decode_encode, Z.mod_small by done. done.
Qed.

#[global] Instance sint_ok n : EncoderOk (sint n).
Proof.
  split; [|intros; apply le_encode_bytes]. intros z pre suf Hz. cbn in *. unfold mbind, reader_bind.
  rewrite <-(blen_le_encode n z) at 1. rewrite get_bytes_at. unfold mret, reader_ret. rewrite le_decode_encode.
  set (M := 256 ^ Z.of_nat n) in *. assert (0 < M) by (apply Z.pow_pos_nonneg; lia).
  destruct (decide (0 ≤ z)).
  - rewrite Z.mod_small, bool_decide_true by lia. done.
  - replace (z mod M) with (z + M) by (apply (Z.mod_unique_pos z M (-1)); lia).
    rewrite bool_decide_false by lia. do 2 f_equal. lia.
Qed.

#[global] Instance u8_ok : EncoderOk u8_enc := uint_ok 1.
#[global] Instance u16_ok : EncoderOk u16_enc := uint_ok 2.
#[global] Instance u32_ok : EncoderOk u32_enc := uint_ok 4.
#[global] Instance u64_ok : EncoderOk u64_enc := uint_ok 8.
#[global] Instance s16_ok : EncoderOk s16_enc := sint_ok 2.
#[global] Instance s32_ok : EncoderOk s32_enc := sint_ok 4.
#[global] Instance s64_ok : EncoderOk s64_enc := sint_ok 8.

Lemma u32_encodable z : 0 ≤ z < 2 ^ 32 → encodable u32_enc z.
Proof. intros Hz. change (0 ≤ z < 2 ^ 32). exact Hz. Qed.
Lemma u64_encodable z : 0 ≤ z < 2 ^ 64 → encodable u64_enc z.
Proof. intros Hz. change (0 ≤ z < 2 ^ 64). exact Hz. Qed.
Lemma u8_encodable z : 0 ≤ z < 256 → encodable u8_enc z.
Proof. intros Hz. change (0 ≤ z < 256). exact Hz. Qed.

#[global] Instance bool_ok : EncoderOk bool_enc.
Proof.
  split.
  - intros v pre suf _. cbn [bool_enc encode decode]. rewrite (decode_then u8_enc) by (apply u8_encodable; destruct v; lia).
    unfold mret, reader_ret. rewrite blen_app. by destruct v.
  - intros v _. apply le_encode_bytes.
Qed.

#[global] Instance string_ok : EncoderOk string_enc.
Proof.
  split.
  - intros s pre suf [Hlen Hok]. cbn [string_enc encode decode]. rewrite <-app_assoc, (decode_then u32_enc) by (apply u32_encodable; unfold blen in *; lia).
    rewrite get_bytes_at. rewrite !blen_app. do 2 f_equal. lia.
  - intros s [_ Hok]. apply Forall_app. split; [apply le_encode_bytes|done].
Qed.

Section container_laws.
Context {A B : Type} (e : Encoder A) (eb : Encoder B) `{He : !EncoderOk e} `{Hb : !EncoderOk eb}.

#[global] Instance pair_ok : EncoderOk (pair_enc e eb).
Proof.
  split.
  - intros [a b] pre suf [Ha Hb']. cbn [pair_enc encode decode fst snd] in *. rewrite <-app_assoc, (decode_then e) by done.
    rewrite (decode_then eb) by done. unfold mret, reader_ret. by rewrite !blen_app, Z.add_assoc.
  - intros [a b] [Ha Hb']. apply Forall_app. split; by apply encode_bytes.
Qed.

#[global] Instance optional_ok : EncoderOk (optional_enc e).
Proof.
  split.
  - intros [a|] pre suf Ha; cbn [optional_enc encode decode] in *; unfold decode_optional.
    + rewrite <-app_assoc, (decode_then u8_enc) by (apply u8_encodable; lia). rewrite bool_decide_true by done. rewrite (decode_then e) by done.
      unfold mret, reader_ret. by rewrite !blen_app, Z.add_assoc.
    + rewrite (decode_then u8_enc) by (apply u8_encodable; lia). rewrite bool_decide_false by auto. unfold mret, reader_ret. by rewrite blen_app.
  - intros [a|] Ha; cbn [optional_enc encode]; [|apply le_encode_bytes].
    apply Forall_app. split; [apply le_encode_bytes|by apply encode_bytes].
Qed.

Lemma decode_n_all l pre suf :
  Forall (encodable e) l →
  decode_n e (length l) (pre ++ encode_all e l ++ suf) (blen pre) = Ret (l, blen pre + blen (encode_all e l)).
Proof.
  intros Hl. revert pre. induction Hl as [|a l Ha Hl IH]; intros pre.
  { cbn. unfold mret, reader_ret. unfold encode_all, blen. cbn. by rewrite Z.add_0_r. }
  unfold encode_all. cbn [decode_n length fmap list_fmap concat]. rewrite <-app_assoc, (decode_then e) by done.
  unfold mbind at 1, reader_bind at 1. fold (encode_all e l). rewrite IH. unfold mret, reader_ret.
  by rewrite !blen_app, Z.add_assoc.
Qed.

Lemma encode_all_bytes l : Forall (encodable e) l → bytes_ok (encode_all e l).
Proof.
  unfold encode_all. induction 1 as [|a l Ha Hl IH]; [constructor|]. apply Forall_app.
  split; [by apply encode_bytes|exact IH].
Qed.

#[global] Instance list_ok : EncoderOk (list_enc e).
Proof.
  split.
  - intros l pre suf [Hlen Hl]. cbn [list_enc encode decode]. rewrite <-app_assoc, (decode_then u32_enc) by (apply u32_encodable; lia).
    rewrite Nat2Z.id, decode_n_all by done. by rewrite !blen_app, Z.add_assoc.
  - intros l [_ Hl]. apply Forall_app. split; [apply le_encode_bytes|by apply encode_all_bytes].
Qed.

#[global] Instance array_ok n : EncoderOk (array_enc n e).
Proof.
  split.
  - intros l pre suf [<- Hl]. by apply decode_n_all.
  - intros l [_ Hl]. by apply encode_all_bytes.
Qed.

End container_laws.

#[global] Instance set_ok e `{!EncoderOk e} : EncoderOk (set_enc e).
Proof.
  assert (∀ s, encodable (set_enc e) s → encodable (list_enc e) (ascending s)) as Hl.
  { intros s [Hn Hs]. split; [by rewrite length_ascending|]. apply Forall_forall. intros x Hx%elem_of_ascending. by apply Hs. }
  split.
  - intros s pre suf Hs. cbn [set_enc encode decode]. rewrite (decode_then (list_enc e)) by auto. unfold mret, reader_ret.
    rewrite blen_app. do 2 f_equal. apply set_eq. intros x. by rewrite elem_of_list_to_set, elem_of_ascending.
  - intros s Hs. apply (encode_bytes (e := list_enc e) (ascending s)), Hl, Hs.
Qed.

Lemma elem_of_bindings {V} (m : gmap Z V) k v : (k, v) ∈ bindings m ↔ m !! k = Some v.
Proof.
  unfold bindings. rewrite list_elem_of_omap. setoid_rewrite elem_of_ascending. split.
  - intros (k' & _ & (v' & Hv' & [= -> ->])%fmap_Some). done.
  - intros Hk. exists k. split; [by apply elem_of_dom_2 in Hk|]. by rewrite Hk.
Qed.

Lemma fst_bindings {V} (m : gmap Z V) : (bindings m).*1 = ascending (dom m).
Proof.
  unfold bindings. assert (∀ k, k ∈ ascending (dom m) → is_Some (m !! k)) as H.
  { intros k Hk%elem_of_ascending. by apply elem_of_dom. }
  induction (ascending (dom m)) as [|k l IH]; [done|]. cbn. destruct (H k) as [v Hv]; [set_solver|].
  rewrite Hv. cbn. f_equal. apply IH. set_solver.
Qed.

Lemma foldl_insert_bindings {V} (m : gmap Z V) (l : list (Z * V)) :
  NoDup l.*1 → foldl (λ m kv, <[kv.1 := kv.2]> m) m l = list_to_map l ∪ m.
Proof.
  revert m. induction l as [|[k v] l IH]; intros m Hnd; cbn in *; [by rewrite (left_id_L ∅ (∪))|].
  apply NoDup_cons in Hnd as [Hk Hnd]. rewrite IH by done. rewrite <-insert_union_l.
  apply map_eq. intros k'. destruct (decide (k' = k)) as [->|Hne].
  - rewrite lookup_insert_eq, lookup_union_r; [by rewrite lookup_insert_eq|]. by apply not_elem_of_list_to_map_1.
  - rewrite lookup_insert_ne by done. rewrite !lookup_union, lookup_insert_ne by done. done.
Qed.

#[global] Instance map_ok {V} ek (ev : Encoder V) `{!EncoderOk ek} `{!EncoderOk ev} : EncoderOk (map_enc ek ev).
Proof.
  assert (∀ m, encodable (map_enc ek ev) m → encodable (list_enc (pair_enc ek ev)) (bindings m)) as Hl.
  { intros m [Hn Hm]. split.
    - rewrite <-(length_fmap fst), fst_bindings, length_ascending, size_dom. done.
    - apply Forall_forall. intros [k v] Hk%elem_of_bindings. by apply (Hm k v). }
  split.
  - intros m pre suf Hm. cbn [map_enc encode decode]. rewrite (decode_then (list_enc (pair_enc ek ev))) by auto. unfold mret, reader_ret.
    rewrite blen_app. do 2 f_equal. rewrite foldl_insert_bindings by (rewrite fst_bindings; apply NoDup_ascending).
    rewrite (right_id_L ∅ (∪)). apply map_eq. intros k. apply option_eq. intros v.
    rewrite <-elem_of_list_to_map by (rewrite fst_bindings; apply NoDup_ascending). apply elem_of_bindings.
  - intros m Hm. apply (encode_bytes (e := list_enc (pair_enc ek ev)) (bindings m)), Hl, Hm.
Qed.

(** ** Versioned structures *)

(** What the macros leave behind. *)
Definition envelope (v compat : Z) (payload : bytes) : bytes :=
  encode u8_enc v ++ encode u8_enc compat ++ encode u32_enc (blen payload) ++ payload.

Lemma blen_uint n z : blen (encode (uint n) z) = Z.of_nat n.
Proof. apply blen_le_encode. Qed.

Lemma blen_envelope v compat payload : blen (envelope v compat payload) = 6 + blen payload.
Proof. unfold envelope. rewrite !blen_app. unfold u8_enc, u32_enc. rewrite !blen_uint. lia. Qed.

Lemma overwrite_middle a b b' c : blen b = blen b' → overwrite (a ++ b ++ c) (blen a) b' = a ++ b' ++ c.
Proof.
  intros Hb. unfold overwrite. f_equal.
  - unfold blen. by rewrite Nat2Z.id, take_app_length.
  - f_equal. rewrite app_assoc, <-Hb, <-blen_app. unfold blen. by rewrite Nat2Z.id, drop_app_length.
Qed.

Lemma encode_struct_envelope {A} (s : Struct A) a bl :
  blen (members s a) < 2 ^ 32 →
  encode_struct s a bl = bl ++ envelope (struct_version s) (struct_compat s) (members s a).
Proof.
  intros Hlen. unfold encode_struct, ENCODE_START, ENCODE_FINISH_NEW_COMPAT. cbv zeta.
  rewrite (bool_decide_false (0 ≠ 0)) by auto.
  set (pre := (bl ++ encode u8_enc (struct_version s)) ++ encode u8_enc (struct_compat s)).
  assert (blen (pre ++ encode u32_enc 0) - 4 = blen pre) as -> by (rewrite blen_app; unfold u32_enc; rewrite blen_uint; lia).
  rewrite <-app_assoc, overwrite_middle by (unfold u32_enc; by rewrite !blen_uint).
  assert (u32 (blen (pre ++ encode u32_enc 0 ++ members s a) - blen pre - 4) = blen (members s a)) as ->.
  { rewrite !blen_app. unfold u32_enc. rewrite blen_uint. rewrite u32_small; unfold blen in *; lia. }
  unfold envelope, pre. by rewrite <-!app_assoc.
Qed.

(** The head of a block. *)
Lemma DECODE_START_spec v v' compat payload pre suf :
  0 ≤ v' < 256 → 0 ≤ compat < 256 → blen pre + 6 + blen payload < 2 ^ 32 →
  DECODE_START v (pre ++ envelope v' compat payload ++ suf) (blen pre)
  = if bool_decide (v < compat) then Abort UncaughtException
    else Ret (v', blen pre + 6 + blen payload, blen pre + 6).
Proof.
  intros Hv Hc Hmax. unfold DECODE_START, envelope. assert (0 ≤ blen payload) by (unfold blen; lia).
  assert (0 ≤ blen pre) by (unfold blen; lia).
  rewrite <-!app_assoc, (decode_then u8_enc) by (by apply u8_encodable).
  rewrite (decode_then u8_enc) by (by apply u8_encodable). case_bool_decide; [done|].
  rewrite (decode_then u32_enc) by (apply u32_encodable; lia).
  unfold get_remaining, get_off, mbind, reader_bind, mret, reader_ret.
  rewrite bool_decide_false by (rewrite !blen_app; unfold blen; lia).
  rewrite !blen_app. unfold u8_enc, u32_enc. rewrite !blen_uint, u32_small by lia. do 2 f_equal; [f_equal; lia|lia].
Qed.

(** The end of a block. *)
Lemma DECODE_FINISH_spec struct_end bl off :
  0 < struct_end ≤ blen bl → off ≤ struct_end → DECODE_FINISH struct_end bl off = Ret (tt, struct_end).
Proof.
  intros He Ho. unfold DECODE_FINISH. rewrite bool_decide_true by lia. unfold get_off, mbind, reader_bind.
  rewrite bool_decide_false by lia. case_bool_decide.
  - unfold skip. rewrite bool_decide_true by lia. do 2 f_equal. lia.
  - unfold mret, reader_ret. do 2 f_equal. lia.
Qed.

(** A decoder that reads a part of what was encoded leaves the block. *)
Lemma decode_struct_spec {A} (s : Struct A) v' compat payload a n pre suf :
  0 ≤ v' < 256 → 0 ≤ compat ≤ struct_version s → compat < 256 → blen pre + 6 + blen payload < 2 ^ 32 →
  0 ≤ n ≤ blen payload →
  (∀ pre suf, read_members s v' (pre ++ payload ++ suf) (blen pre) = Ret (a, blen pre + n)) →
  decode_struct s (pre ++ envelope v' compat payload ++ suf) (blen pre)
  = Ret (a, blen pre + blen (envelope v' compat payload)).
Proof.
  intros Hv Hc Hc' Hmax Hn Hread. unfold decode_struct, mbind, reader_bind.
  rewrite DECODE_START_spec by (done || lia). rewrite bool_decide_false by lia.
  assert (0 ≤ blen pre) by (unfold blen; lia). assert (0 ≤ blen suf) by (unfold blen; lia).
  set (head := pre ++ encode u8_enc v' ++ encode u8_enc compat ++ encode u32_enc (blen payload)).
  assert (blen head = blen pre + 6) as Hh by (unfold head, u8_enc, u32_enc; rewrite !blen_app, !blen_uint; lia).
  assert (pre ++ envelope v' compat payload ++ suf = head ++ payload ++ suf) as -> by (unfold head, envelope; by rewrite <-!app_assoc).
  rewrite <-Hh, Hread. rewrite DECODE_FINISH_spec by (rewrite ?blen_app; lia).
  unfold mret, reader_ret. rewrite blen_envelope. do 2 f_equal. lia.
Qed.

Lemma get_bytes_short n bl off : blen bl < off + n → get_bytes n bl off = Abort UncaughtException.
Proof. intros. unfold get_bytes. by rewrite bool_decide_false by lia. Qed.

(** Nothing is decoded from a block that was cut off. *)
Lemma decode_struct_truncated {A} (s : Struct A) v' compat payload n :
  0 ≤ v' < 256 → 0 ≤ compat < 256 → 6 + blen payload < 2 ^ 32 → 0 ≤ n < 6 + blen payload →
  decode_struct s (take (Z.to_nat n) (envelope v' compat payload)) 0 = Abort UncaughtException.
Proof.
  intros Hv Hc Hmax Hn. pose proof (blen_envelope v' compat payload) as Hel.
  set (bl := take (Z.to_nat n) (envelope v' compat payload)).
  assert (blen bl = n) as Hbl by (apply blen_take; lia).
  assert (∀ o l, 0 ≤ o → 0 ≤ l → o + l ≤ n → substr bl o l = substr (envelope v' compat payload) o l) as Hsub
    by (intros; apply substr_take; lia).
  assert (∀ m o, 0 ≤ o → decode (uint m) bl o =
    if bool_decide (o + Z.of_nat m ≤ n) then Ret (le_decode (substr (envelope v' compat payload) o (Z.of_nat m)), o + Z.of_nat m)
    else Abort UncaughtException) as Hdec.
  { intros m o Ho. cbn. unfold mbind, reader_bind, get_bytes. rewrite Hbl. case_bool_decide; [|done].
    unfold mret, reader_ret. by rewrite Hsub by lia. }
  unfold decode_struct, DECODE_START, mbind, reader_bind, u8_enc, u32_enc. rewrite Hdec by lia.
  case_bool_decide; [|done]. rewrite Hdec by lia. case_bool_decide; [|done]. case_bool_decide; [done|].
  rewrite Hdec by lia. case_bool_decide; [|done]. unfold get_remaining. rewrite Hbl, bool_decide_true; [done|].
  assert (substr (envelope v' compat payload) (0 + Z.of_nat 1 + Z.of_nat 1) (Z.of_nat 4) = encode u32_enc (blen payload)) as ->.
  { unfold envelope. rewrite app_assoc.
    pose proof (substr_middle (encode u8_enc v' ++ encode u8_enc compat) (encode u32_enc (blen payload)) payload 0 4) as Hm.
    rewrite blen_app in Hm. unfold u8_enc, u32_enc in *. rewrite !blen_uint in Hm.
    change (Z.of_nat 1 + Z.of_nat 1 + 0) with (0 + Z.of_nat 1 + Z.of_nat 1) in Hm. change (Z.of_nat 4) with 4.
    rewrite Hm by lia. rewrite <-(substr_all (encode (uint 4) _)) at 2.
    by rewrite blen_uint. }
  change (le_decode (encode u32_enc (blen payload))) with (le_decode (le_encode 4 (blen payload))).
  rewrite le_decode_encode. change (256 ^ Z.of_nat 4) with (2 ^ 32).
  rewrite Z.mod_small by (unfold blen in *; lia). lia.
Qed.

End Encoding.

Import Encoding.

(** C26. Versioned structures: what a newer version has encoded, with members
    appended to those that an older decoder knows, the older decoder reads if
    the encoding says that it may, and leaves the iterator behind the whole
    block; otherwise it throws. From an encoding that was cut off anywhere
    nothing is decoded. *)
Theorem struct_versions {A B} (old : Struct A) (new : Struct B) a b known pre suf :
  0 ≤ struct_version new < 256 → 0 ≤ struct_compat new < 256 → 0 ≤ known ≤ blen (members new b) →
  blen pre + 6 + blen (members new b) < 2 ^ 32 →
  (∀ pre suf, read_members old (struct_version new) (pre ++ members new b ++ suf) (blen pre) = Ret (a, blen pre + known)) →
  let enc := encode_struct new b [] in
  decode_struct old (pre ++ enc ++ suf) (blen pre)
    = (if bool_decide (struct_version old < struct_compat new) then Abort UncaughtException
       else Ret (a, blen pre + blen enc))
  ∧ ∀ n, 0 ≤ n < blen enc → decode_struct old (take (Z.to_nat n) enc) 0 = Abort UncaughtException.
Proof.
  intros Hv Hc Hk Hmax Hread enc. assert (0 ≤ blen pre) by (unfold blen; lia).
  assert (enc = envelope (struct_version new) (struct_compat new) (members new b)) as ->.
  { unfold enc. rewrite encode_struct_envelope by lia. done. }
  split.
  - case_bool_decide as Hlt.
    + unfold decode_struct, mbind, reader_bind. rewrite DECODE_START_spec by (done || lia).
      by rewrite bool_decide_true by lia.
    + apply (decode_struct_spec old _ _ _ a known); (done || lia).
  - intros n Hn. rewrite blen_envelope in Hn. apply decode_struct_truncated; lia.
Qed.

(** A structure that got a name in version 2. *)
Lemma struct_versions_witness :
  let old := mkStruct 1 1 (encode u32_enc) (λ _, decode u32_enc) in
  let new := mkStruct 2 1 (encode (pair_enc u32_enc string_enc)) (λ _, decode (pair_enc u32_enc string_enc)) in
  let enc := encode_struct new (7, [65; 66]) [] in
  enc = [2; 1; 10; 0; 0; 0; 7; 0; 0; 0; 2; 0; 0; 0; 65; 66]
  ∧ decode_struct old ([9] ++ enc ++ [5]) 1 = Ret (7, 17)
  ∧ decode_struct old (take (Z.to_nat 15) enc) 0 = Abort UncaughtException.
Proof.
  intros old new enc. split; [by vm_compute|].
  destruct (struct_versions old new 7 (7, [65; 66]) 4 [9] [5]) as [H1 H2].
  - cbn. lia.
  - cbn. lia.
  - vm_compute. by split.
  - vm_compute. done.
  - intros pre suf. cbn [old new read_members members pair_enc encode fst snd].
    rewrite <-app_assoc. rewrite (encode_decode (e := u32_enc)) by (apply u32_encodable; lia). done.
  - split; [exact H1|]. apply H2. by vm_compute.
Defined.
