(* ===== verification/CrushRules.v ===== *)
(** * CRUSH rules

    The rule part of the CRUSH map: src/src/crush/crush.h and builder.c
    (rules, masks and steps), and the members of src/src/crush/CrushWrapper.h
    and CrushWrapper.cc that name, look up and build rules. The map itself is
    allocated by the constructor, so that [crush] is not null; [malloc] and
    [realloc] succeed. Buckets and the placement algorithm are not part of
    this file. *)

From S2P Require Import Prelude.

Definition ENOSPC : Z := 28.
Definition CRUSH_MAX_RULES : Z := 256.

Definition u8 (x : Z) : Z := x mod 2 ^ 8.

(** [enum crush_opcodes]. *)
Definition CRUSH_RULE_NOOP : Z := 0.
Definition CRUSH_RULE_TAKE : Z := 1.
Definition CRUSH_RULE_CHOOSE_FIRSTN : Z := 2.
Definition CRUSH_RULE_CHOOSE_INDEP : Z := 3.
Definition CRUSH_RULE_EMIT : Z := 4.
Definition CRUSH_RULE_CHOOSELEAF_FIRSTN : Z := 6.
Definition CRUSH_RULE_CHOOSELEAF_INDEP : Z := 7.
Definition CRUSH_RULE_SET_CHOOSE_TRIES : Z := 8.
Definition CRUSH_RULE_SET_CHOOSELEAF_TRIES : Z := 9.
Definition CRUSH_CHOOSE_N : Z := 0.

(** [pg_pool_t]'s pool types. *)
Definition TYPE_REPLICATED : Z := 1.
Definition TYPE_ERASURE : Z := 3.

Record crush_rule_step := mkStep { op : Z; arg1 : Z; arg2 : Z }.

Record crush_rule_mask := mkMask {
  mask_ruleset : Z;
  mask_type : Z;
  mask_min_size : Z;
  mask_max_size : Z;
}.

(** The steps of a rule are allocated but not initialised: [None] is a step
    that was never written. *)
Record crush_rule := mkRule {
  rule_len : Z;
  rule_mask : crush_rule_mask;
  rule_steps : list (option crush_rule_step);
}.

(** [rules] holds [max_rules] pointers, null ones included. The three reverse
    maps are a cache, valid when [have_rmaps] is set. *)
Record CrushWrapper := mkCrush {
  rules : list (option crush_rule);
  type_map : gmap Z string;
  name_map : gmap Z string;
  rule_name_map : gmap Z string;
  have_rmaps : bool;
  type_rmap : gmap string Z;
  name_rmap : gmap string Z;
  rule_name_rmap : gmap string Z;
}.

(** ** builder.c *)

Definition crush_make_rule (len ruleset type minsize maxsize : Z) : crush_rule := {|
  rule_len := u32 len;
  rule_mask := mkMask (u8 ruleset) (u8 type) (u8 minsize) (u8 maxsize);
  rule_steps := replicate (Z.to_nat len) None;
|}.

Definition crush_rule_set_step (rule : crush_rule) (n o a1 a2 : Z) : outcome crush_rule :=
  _ ← assert_that (bool_decide (u32 n < rule_len rule));
  Ret {| rule_len := rule_len rule;
         rule_mask := rule_mask rule;
         rule_steps := <[Z.to_nat n := Some (mkStep (u32 o) a1 a2)]> (rule_steps rule) |}.

(** The first null pointer of [rules], or [max_rules]. *)
Definition first_free (rules : list (option crush_rule)) : Z :=
  if list_find (λ r, r = None) rules is Some (i, _) then Z.of_nat i
  else Z.of_nat (length rules).

(** Returns the rule number, or an error, and the new array. The array grows
    to hold the number that is asked for. *)
Definition crush_add_rule (rules : list (option crush_rule)) (rule : crush_rule)
    (ruleno : Z) : outcome (Z * list (option crush_rule)) :=
  let max_rules := Z.of_nat (length rules) in
  r ← (if bool_decide (ruleno < 0) then
         _ ← assert_that (bool_decide (first_free rules < CRUSH_MAX_RULES));
         Ret (first_free rules)
       else Ret ruleno);
  if bool_decide (max_rules ≤ r) then
    if bool_decide (CRUSH_MAX_RULES < max_rules + 1) then Ret (- ENOSPC, rules) else
    let rules := rules ++ replicate (Z.to_nat (r + 1 - max_rules)) None in
    Ret (r, <[Z.to_nat r := Some rule]> rules)
  else Ret (r, <[Z.to_nat r := Some rule]> rules).

(** ** CrushWrapper *)

(** [r.clear()], then [r[p->second] = p->first] in key order. *)
Definition build_rmap (f : gmap Z string) : gmap string Z :=
  foldl (λ r i, if f !! i is Some name then <[name := i]> r else r) ∅ (ascending (dom f)).

Definition build_rmaps (c : CrushWrapper) : CrushWrapper :=
  if have_rmaps c then c else {|
    rules := rules c;
    type_map := type_map c; name_map := name_map c; rule_name_map := rule_name_map c;
    have_rmaps := true;
    type_rmap := build_rmap (type_map c);
    name_rmap := build_rmap (name_map c);
    rule_name_rmap := build_rmap (rule_name_map c);
  |}.

Definition with_rules (c : CrushWrapper) (rs : list (option crush_rule)) : CrushWrapper := {|
  rules := rs;
  type_map := type_map c; name_map := name_map c; rule_name_map := rule_name_map c;
  have_rmaps := have_rmaps c;
  type_rmap := type_rmap c; name_rmap := name_rmap c; rule_name_rmap := rule_name_rmap c;
|}.

(** Lookups by name build the reverse maps first: they return the result and
    the object with its cache filled. *)
Definition get_type_id (c : CrushWrapper) (name : string) : Z * CrushWrapper :=
  let c := build_rmaps c in (default (-1) (type_rmap c !! name), c).
Definition name_exists (c : CrushWrapper) (name : string) : bool * CrushWrapper :=
  let c := build_rmaps c in (bool_decide (is_Some (name_rmap c !! name)), c).
Definition get_item_id (c : CrushWrapper) (name : string) : Z * CrushWrapper :=
  let c := build_rmaps c in (default 0 (name_rmap c !! name), c).
Definition rule_name_exists (c : CrushWrapper) (name : string) : bool * CrushWrapper :=
  let c := build_rmaps c in (bool_decide (is_Some (rule_name_rmap c !! name)), c).
Definition get_rule_id (c : CrushWrapper) (name : string) : Z * CrushWrapper :=
  let c := build_rmaps c in (default (- ENOENT) (rule_name_rmap c !! name), c).
Definition get_rule_name (c : CrushWrapper) (t : Z) : option string := rule_name_map c !! t.

Definition set_rule_name (c : CrushWrapper) (i : Z) (name : string) : CrushWrapper := {|
  rules := rules c;
  type_map := type_map c; name_map := name_map c;
  rule_name_map := <[i := name]> (rule_name_map c);
  have_rmaps := have_rmaps c;
  type_rmap := type_rmap c; name_rmap := name_rmap c;
  rule_name_rmap := if have_rmaps c then <[name := i]> (rule_name_rmap c)
                    else rule_name_rmap c;
|}.

Definition get_max_rules (c : CrushWrapper) : Z := Z.of_nat (length (rules c)).

(** [None] is the null pointer, also returned for a number out of range. *)
Definition get_rule (c : CrushWrapper) (ruleno : Z) : option crush_rule :=
  if bool_decide (get_max_rules c ≤ u32 ruleno) then None
  else default None (rules c !! Z.to_nat (u32 ruleno)).

Definition rule_exists (c : CrushWrapper) (ruleno : Z) : bool :=
  bool_decide (is_Some (get_rule c ruleno)).

Definition ruleset_exists (c : CrushWrapper) (ruleset : Z) : bool :=
  existsb (λ i, match get_rule c i with
                | Some r => bool_decide (mask_ruleset (rule_mask r) = ruleset)
                | None => false
                end) (seqZ 0 (get_max_rules c)).

(** The mask accessors test [IS_ERR] only and dereference a null pointer. *)
Definition deref (r : option crush_rule) : outcome crush_rule := need NullPointer r.
Definition get_rule_len (c : CrushWrapper) (ruleno : Z) : outcome Z :=
  r ← deref (get_rule c ruleno); Ret (rule_len r).
Definition get_rule_mask_ruleset (c : CrushWrapper) (ruleno : Z) : outcome Z :=
  r ← deref (get_rule c ruleno); Ret (mask_ruleset (rule_mask r)).
Definition get_rule_mask_type (c : CrushWrapper) (ruleno : Z) : outcome Z :=
  r ← deref (get_rule c ruleno); Ret (mask_type (rule_mask r)).
Definition get_rule_mask_min_size (c : CrushWrapper) (ruleno : Z) : outcome Z :=
  r ← deref (get_rule c ruleno); Ret (mask_min_size (rule_mask r)).
Definition get_rule_mask_max_size (c : CrushWrapper) (ruleno : Z) : outcome Z :=
  r ← deref (get_rule c ruleno); Ret (mask_max_size (rule_mask r)).

Definition add_rule (c : CrushWrapper) (len ruleset type minsize maxsize ruleno : Z)
    : outcome (Z * CrushWrapper) :=
  '(ruleno, rs) ← crush_add_rule (rules c)
    (crush_make_rule len ruleset type minsize maxsize) ruleno;
  Ret (ruleno, with_rules c rs).

(** Writes through the pointer: the rule in the array changes. *)
Definition set_rule_step (c : CrushWrapper) (ruleno step o a1 a2 : Z)
    : outcome (Z * CrushWrapper) :=
  match get_rule c ruleno with
  | None => Ret (-1, c)
  | Some n =>
      n ← crush_rule_set_step n step o a1 a2;
      Ret (0, with_rules c (<[Z.to_nat (u32 ruleno) := Some n]> (rules c)))
  end.

(** Returns the value as it was stored, in 8 bits. *)
Definition set_rule_mask_max_size (c : CrushWrapper) (ruleno max_size : Z)
    : outcome (Z * CrushWrapper) :=
  r ← deref (get_rule c ruleno);
  let mask := rule_mask r in
  let r := mkRule (rule_len r)
    (mkMask (mask_ruleset mask) (mask_type mask) (mask_min_size mask) (u8 max_size))
    (rule_steps r) in
  Ret (u8 max_size, with_rules c (<[Z.to_nat (u32 ruleno) := Some r]> (rules c))).

(** A negative number is not refused. *)
Definition remove_rule (c : CrushWrapper) (ruleno : Z) : outcome (Z * CrushWrapper) :=
  if bool_decide (get_max_rules c ≤ ruleno) then Ret (- ENOENT, c) else
  if bool_decide (ruleno < 0) then Abort OutOfBounds else
  match default None (rules c !! Z.to_nat ruleno) with
  | None => Ret (- ENOENT, c)
  | Some _ => Ret (0, {|
      rules := <[Z.to_nat ruleno := None]> (rules c);
      type_map := type_map c; name_map := name_map c;
      rule_name_map := delete ruleno (rule_name_map c);
      have_rmaps := false;
      type_rmap := type_rmap c; name_rmap := name_rmap c; rule_name_rmap := rule_name_rmap c;
    |})
  end.

(** The lowest number that is neither a rule nor a ruleset, or [max_rules]. *)
Definition lowest_free_ruleno (c : CrushWrapper) : Z :=
  if list_find (λ rno, rule_exists c rno = false ∧ ruleset_exists c rno = false)
       (seqZ 0 (get_max_rules c)) is Some (_, rno) then rno
  else get_max_rules c.

Definition add_simple_ruleset_at (c : CrushWrapper)
    (name root_name failure_domain_name mode : string) (rule_type rno : Z)
    : outcome (Z * CrushWrapper) :=
  let '(exists_, c) := rule_name_exists c name in
  if exists_ : bool then Ret (- EEXIST, c) else
  if bool_decide (0 ≤ rno) && rule_exists c rno then Ret (- EEXIST, c) else
  if bool_decide (0 ≤ rno) && ruleset_exists c rno then Ret (- EEXIST, c) else
  let rno := if bool_decide (0 ≤ rno) then rno else lowest_free_ruleno c in
  let '(root_exists, c) := name_exists c root_name in
  if negb root_exists then Ret (- ENOENT, c) else
  let '(root, c) := get_item_id c root_name in
  let '(type, c) := if bool_decide (failure_domain_name = "") then (0, c)
                    else get_type_id c failure_domain_name in
  if bool_decide (type < 0) then Ret (- EINVAL, c) else
  if bool_decide (mode ≠ "firstn" ∧ mode ≠ "indep") then Ret (- EINVAL, c) else
  let firstn := bool_decide (mode = "firstn") in
  let steps :=
    (if firstn then [] else
       [(CRUSH_RULE_SET_CHOOSELEAF_TRIES, 5, 0); (CRUSH_RULE_SET_CHOOSE_TRIES, 100, 0)])
    ++ [(CRUSH_RULE_TAKE, root, 0);
        if bool_decide (type ≠ 0) then
          (if firstn then CRUSH_RULE_CHOOSELEAF_FIRSTN else CRUSH_RULE_CHOOSELEAF_INDEP,
           CRUSH_CHOOSE_N, type)
        else
          (if firstn then CRUSH_RULE_CHOOSE_FIRSTN else CRUSH_RULE_CHOOSE_INDEP,
           CRUSH_CHOOSE_N, 0);
        (CRUSH_RULE_EMIT, 0, 0)] in
  '(rule, _) ← foldM (λ '(rule, step) '(o, a1, a2),
      rule ← crush_rule_set_step rule step o a1 a2;
      Ret (rule, step + 1))
    (crush_make_rule (if firstn then 3 else 5) rno rule_type
       (if firstn then 1 else 3) (if firstn then 10 else 20), 0) steps;
  '(ret, rs) ← crush_add_rule (rules c) rule rno;
  if bool_decide (ret < 0) then Ret (ret, c) else
  let c := set_rule_name (with_rules c rs) rno name in
  Ret (rno, {|
    rules := rules c;
    type_map := type_map c; name_map := name_map c; rule_name_map := rule_name_map c;
    have_rmaps := false;
    type_rmap := type_rmap c; name_rmap := name_rmap c; rule_name_rmap := rule_name_rmap c;
  |}).

Definition add_simple_ruleset (c : CrushWrapper)
    (name root_name failure_domain_name mode : string) (rule_type : Z)
    : outcome (Z * CrushWrapper) :=
  add_simple_ruleset_at c name root_name failure_domain_name mode rule_type (-1).

(** [create_ruleset] of the plugins that have one rule for all their chunks
    (jerasure, isa and shec). *)
Definition create_simple_ruleset (ruleset_root ruleset_failure_domain : string)
    (chunk_count : Z) (name : string) (crush : CrushWrapper) : outcome (Z * CrushWrapper) :=
  '(ruleid, crush) ← add_simple_ruleset crush name ruleset_root ruleset_failure_domain
    "indep" TYPE_ERASURE;
  if bool_decide (ruleid < 0) then Ret (ruleid, crush) else
  '(_, crush) ← set_rule_mask_max_size crush ruleid chunk_count;
  ruleset ← get_rule_mask_ruleset crush ruleid;
  Ret (ruleset, crush).

(** ** Invariant and lemmas *)

(** [r] is a reverse of [f]: it knows every name, with one of its numbers. *)
Definition rmap_ok (f : gmap Z string) (r : gmap string Z) : Prop :=
  (∀ name i, r !! name = Some i → f !! i = Some name)
  ∧ ∀ i name, f !! i = Some name → is_Some (r !! name).

Definition rule_wf (r : crush_rule) : Prop :=
  rule_len r = Z.of_nat (length (rule_steps r)).

(** The cache, when valid, is right; there are at most [CRUSH_MAX_RULES] rules,
    each with the steps its length says, and only rules have names. *)
Record crush_wf (c : CrushWrapper) : Prop := {
  wf_types : have_rmaps c = true → rmap_ok (type_map c) (type_rmap c);
  wf_names : have_rmaps c = true → rmap_ok (name_map c) (name_rmap c);
  wf_rule_names : have_rmaps c = true → rmap_ok (rule_name_map c) (rule_name_rmap c);
  wf_max_rules : get_max_rules c ≤ CRUSH_MAX_RULES;
  wf_rules : ∀ i r, rules c !! i = Some (Some r) → rule_wf r;
  wf_named : ∀ i name, rule_name_map c !! i = Some name →
    0 ≤ i ∧ ∃ r, rules c !! Z.to_nat i = Some (Some r);
}.

(** The reverse map finds exactly the names in use. *)
Lemma build_rmap_lookup (f : gmap Z string) name :
  match build_rmap f !! name with
  | Some i => f !! i = Some name
  | None => ∀ i, f !! i ≠ Some name
  end.
Proof.
  unfold build_rmap.
  assert (∀ l (r : gmap string Z),
    (∀ n i, r !! n = Some i → f !! i = Some n) →
    match foldl (λ r i, if f !! i is Some name then <[name := i]> r else r) r l !! name with
    | Some i => f !! i = Some name
    | None => r !! name = None ∧ ∀ i, i ∈ l → f !! i ≠ Some name
    end) as Hgen.
  { induction l as [|i l IH]; intros r Hr; cbn.
    - destruct (r !! name) eqn:E; [by apply Hr|]. split; [done|]. intros i []%elem_of_nil.
    - destruct (f !! i) as [n|] eqn:Ei.
      + assert (∀ n' j, <[n := i]> r !! n' = Some j → f !! j = Some n') as Hr'
          by (intros n' j; rewrite lookup_insert_Some; naive_solver).
        specialize (IH _ Hr'). destruct (foldl _ _ l !! name); [done|].
        destruct IH as [IH1 IH2].
        destruct (decide (n = name)) as [->|]; [by rewrite lookup_insert_eq in IH1|].
        rewrite lookup_insert_ne in IH1 by done. split; [done|].
        intros j [->|]%elem_of_cons; [congruence|by apply IH2].
      + specialize (IH r Hr). destruct (foldl _ _ l !! name); [done|].
        destruct IH as [IH1 IH2]. split; [done|].
        intros j [->|]%elem_of_cons; [congruence|by apply IH2]. }
  specialize (Hgen (ascending (dom f)) ∅). cbn in Hgen.
  destruct (foldl _ _ _ !! name); [by apply Hgen|].
  destruct Hgen as [_ Hgen]; [done|]. intros i Hi. apply (Hgen i); [|done].
  apply elem_of_ascending. by apply elem_of_dom_2 in Hi.
Qed.

Lemma build_rmap_ok f : rmap_ok f (build_rmap f).
Proof.
  split; [intros name i Hi|intros i name Hi];
    pose proof (build_rmap_lookup f name) as Hl.
  - by rewrite Hi in Hl.
  - destruct (build_rmap f !! name); [eauto|]. by destruct (Hl i).
Qed.

Lemma rmap_ok_insert f r i name :
  rmap_ok f r → f !! i = None → rmap_ok (<[i := name]> f) (<[name := i]> r).
Proof.
  intros [H1 H2] Hi. split.
  - intros n j. rewrite lookup_insert_Some. intros [[-> ->]|[Hne Hj]].
    + apply lookup_insert_eq.
    + rewrite lookup_insert_ne; [by apply H1|]. intros ->. apply H1 in Hj. congruence.
  - intros j n. rewrite lookup_insert_Some, lookup_insert_is_Some.
    intros [[-> ->]|[_ Hj%H2]]; [by left|]. destruct (decide (name = n)); auto.
Qed.

Lemma build_rmaps_wf c : crush_wf c → crush_wf (build_rmaps c).
Proof.
  intros Hwf. unfold build_rmaps. destruct (have_rmaps c) eqn:E; [done|].
  destruct Hwf. constructor; simpl; try done; intros _; apply build_rmap_ok.
Qed.

Lemma build_rmaps_have c : have_rmaps (build_rmaps c) = true.
Proof. unfold build_rmaps. by destruct (have_rmaps c) eqn:E. Qed.

Lemma build_rmaps_id c : have_rmaps c = true → build_rmaps c = c.
Proof. intros E. unfold build_rmaps. by rewrite E. Qed.

Lemma build_rmaps_fields c :
  rules (build_rmaps c) = rules c ∧ type_map (build_rmaps c) = type_map c
  ∧ name_map (build_rmaps c) = name_map c ∧ rule_name_map (build_rmaps c) = rule_name_map c.
Proof. unfold build_rmaps. by destruct (have_rmaps c). Qed.

(** Rules are numbered below [CRUSH_MAX_RULES], far from 32-bit wrap-around. *)
Lemma get_rule_lookup c i :
  0 ≤ i < 2 ^ 32 → get_rule c i = default None (rules c !! Z.to_nat i).
Proof.
  intros Hi. unfold get_rule, get_max_rules. rewrite u32_small by done.
  case_bool_decide; [|done]. by rewrite lookup_ge_None_2 by lia.
Qed.

Lemma lowest_free_ruleno_spec c :
  let rno := lowest_free_ruleno c in
  0 ≤ rno ≤ get_max_rules c
  ∧ (rno < get_max_rules c → rule_exists c rno = false ∧ ruleset_exists c rno = false).
Proof.
  unfold lowest_free_ruleno.
  destruct (list_find _ _) as [[i rno]|] eqn:E.
  - apply list_find_Some in E as (Hi & Hfree & _).
    apply lookup_seqZ in Hi as [-> Hi]. split; [lia|]. done.
  - unfold get_max_rules. lia.
Qed.
