(* ===== verification/Ruleset.v ===== *)
(** * The CRUSH ruleset of a locally repairable code

    [parse_ruleset], [parse_ruleset_step] and [create_ruleset] have the same
    text in src/src/erasure-code/lrc/ErasureCodeLrc.cc and
    src/src/erasure-code/optlrc/ErasureCodeOptLrc.cc, down to the error codes;
    they are modelled once, over the members they use. *)

From S2P Require Import Prelude Strtol StrMap ErasureCode CrushRules.

Definition MAX_ERRNO : Z := 4095.
Definition ERROR_LRC_ARRAY : Z := - (MAX_ERRNO + 1).
Definition ERROR_LRC_STR : Z := - (MAX_ERRNO + 4).
Definition ERROR_LRC_DESCRIPTION : Z := - (MAX_ERRNO + 6).
Definition ERROR_LRC_PARSE_JSON : Z := - (MAX_ERRNO + 7).
Definition ERROR_LRC_MAPPING : Z := - (MAX_ERRNO + 8).
Definition ERROR_LRC_MAPPING_SIZE : Z := - (MAX_ERRNO + 9).
Definition ERROR_LRC_CONFIG_OPTIONS : Z := - (MAX_ERRNO + 12).
Definition ERROR_LRC_LAYERS_COUNT : Z := - (MAX_ERRNO + 13).
Definition ERROR_LRC_RULESET_OP : Z := - (MAX_ERRNO + 14).
Definition ERROR_LRC_RULESET_TYPE : Z := - (MAX_ERRNO + 15).
Definition ERROR_LRC_RULESET_N : Z := - (MAX_ERRNO + 16).
Definition ERROR_LRC_ALL_OR_NOTHING : Z := - (MAX_ERRNO + 17).
Definition ERROR_LRC_GENERATED : Z := - (MAX_ERRNO + 18).
Definition ERROR_LRC_K_M_MODULO : Z := - (MAX_ERRNO + 19).
Definition ERROR_LRC_K_MODULO : Z := - (MAX_ERRNO + 20).
Definition ERROR_LRC_M_MODULO : Z := - (MAX_ERRNO + 21).

Record Step := mkRulesetStep { s_op : string; s_type : string; s_n : Z }.

(** [ruleset_root] and [ruleset_steps]. *)
Record Ruleset := mkRuleset { ruleset_root : string; ruleset_steps : list Step }.

(** ** Parsing *)

(** One element of the description of a step, at [position]. *)
Definition parse_step_element (position : Z) (i : json) (st : Step) : outcome (Step + Z) :=
  if bool_decide ((position = 0 ∨ position = 1) ∧ json_type i ≠ str_type) then
    Ret (inr (if bool_decide (position = 0) then ERROR_LRC_RULESET_OP
              else ERROR_LRC_RULESET_TYPE))
  else if bool_decide (position = 2 ∧ json_type i ≠ int_type) then
    Ret (inr ERROR_LRC_RULESET_N)
  else if bool_decide (position = 0) then
    v ← get_str i; Ret (inl (mkRulesetStep v (s_type st) (s_n st)))
  else if bool_decide (position = 1) then
    v ← get_str i; Ret (inl (mkRulesetStep (s_op st) v (s_n st)))
  else if bool_decide (position = 2) then
    v ← get_int i; Ret (inl (mkRulesetStep (s_op st) (s_type st) v))
  else Ret (inl st).

Fixpoint parse_step_elements (position : Z) (description : list json) (st : Step)
    : outcome (Step + Z) :=
  match description with
  | [] => Ret (inl st)
  | i :: description =>
      res ← parse_step_element position i st;
      match res with
      | inl st => parse_step_elements (position + 1) description st
      | inr err => Ret (inr err)
      end
  end.

Definition parse_ruleset_step (description : list json) (steps : list Step)
    : outcome (Z * list Step) :=
  res ← parse_step_elements 0 description (mkRulesetStep "" "" 0);
  match res with
  | inl st => Ret (0, steps ++ [st])
  | inr err => Ret (err, steps)
  end.

Fixpoint parse_ruleset_array (description : list json) (steps : list Step)
    : outcome (Z * list Step) :=
  match description with
  | [] => Ret (0, steps)
  | i :: description =>
      if bool_decide (json_type i ≠ array_type) then Ret (ERROR_LRC_ARRAY, steps) else
      a ← get_array i;
      '(r, steps) ← parse_ruleset_step a steps;
      if bool_decide (r ≠ 0) then Ret (r, steps)
      else parse_ruleset_array description steps
  end.

(** The result carries the profile, in which the default root has been
    stored. *)
Definition parse_ruleset `{JsonReader} (rs : Ruleset) (profile : Profile)
    : outcome (Z * Ruleset * Profile) :=
  let root := to_string "ruleset-root" profile "default" in
  let profile := p_profile root in
  match profile !! "ruleset-steps" with
  | None => Ret (0, mkRuleset (p_value root) (ruleset_steps rs), profile)
  | Some s =>
      match read_or_throw s with
      | None => Ret (ERROR_LRC_PARSE_JSON, mkRuleset (p_value root) [], profile)
      | Some json =>
          if bool_decide (json_type json ≠ array_type) then
            Ret (ERROR_LRC_ARRAY, mkRuleset (p_value root) [], profile)
          else
          description ← get_array json;
          '(r, steps) ← parse_ruleset_array description [];
          Ret (r, mkRuleset (p_value root) steps, profile)
      end
  end.

(** ** Creating the rule *)

(** The loop over [ruleset_steps]: the number of the next step, or the early
    return with an error. *)
Fixpoint add_ruleset_steps (rno : Z) (todo : list Step) (step : Z) (crush : CrushWrapper)
    : outcome (Z * CrushWrapper + CrushWrapper) :=
  match todo with
  | [] => Ret (inl (step, crush))
  | i :: todo =>
      let o := if bool_decide (s_op i = "chooseleaf") then CRUSH_RULE_CHOOSELEAF_INDEP
               else CRUSH_RULE_CHOOSE_INDEP in
      let '(type, crush) := get_type_id crush (s_type i) in
      if bool_decide (type < 0) then Ret (inr crush) else
      '(ret, crush) ← set_rule_step crush rno step o (s_n i) type;
      _ ← assert_that (bool_decide (ret = 0));
      add_ruleset_steps rno todo (step + 1) crush
  end.

Definition create_ruleset (rs : Ruleset) (chunk_count : Z) (name : string)
    (crush : CrushWrapper) : outcome (Z * CrushWrapper) :=
  let '(exists_, crush) := rule_name_exists crush name in
  if exists_ : bool then Ret (- EEXIST, crush) else
  let '(root_exists, crush) := name_exists crush (ruleset_root rs) in
  if negb root_exists then Ret (- ENOENT, crush) else
  let '(root, crush) := get_item_id crush (ruleset_root rs) in
  let rno := lowest_free_ruleno crush in
  let steps := 4 + Z.of_nat (length (ruleset_steps rs)) in
  '(ret, crush) ← add_rule crush steps rno TYPE_ERASURE 3 (s32 chunk_count) rno;
  _ ← assert_that (bool_decide (ret = rno));
  '(ret, crush) ← set_rule_step crush rno 0 CRUSH_RULE_SET_CHOOSELEAF_TRIES 5 0;
  _ ← assert_that (bool_decide (ret = 0));
  '(ret, crush) ← set_rule_step crush rno 1 CRUSH_RULE_SET_CHOOSE_TRIES 100 0;
  _ ← assert_that (bool_decide (ret = 0));
  '(ret, crush) ← set_rule_step crush rno 2 CRUSH_RULE_TAKE root 0;
  _ ← assert_that (bool_decide (ret = 0));
  res ← add_ruleset_steps rno (ruleset_steps rs) 3 crush;
  match res with
  | inr crush => Ret (- EINVAL, crush)
  | inl (step, crush) =>
      '(ret, crush) ← set_rule_step crush rno step CRUSH_RULE_EMIT 0 0;
      _ ← assert_that (bool_decide (ret = 0));
      Ret (rno, set_rule_name crush rno name)
  end.

(** ** The rule that is created *)

(** The CRUSH type of a step, when the map knows it. *)
Definition step_type (c : CrushWrapper) (i : Step) : option Z :=
  type ← type_rmap c !! s_type i;
  if bool_decide (type < 0) then None else Some type.

Definition crush_step (i : Step) (type : Z) : crush_rule_step :=
  mkStep (if bool_decide (s_op i = "chooseleaf") then CRUSH_RULE_CHOOSELEAF_INDEP
          else CRUSH_RULE_CHOOSE_INDEP) (s_n i) type.

(** The rule of a ruleset with the given CRUSH root and types. *)
Definition ruleset_rule (steps : list Step) (rno root chunk_count : Z) (types : list Z)
    : crush_rule := {|
  rule_len := 4 + Z.of_nat (length steps);
  rule_mask := mkMask (u8 rno) TYPE_ERASURE 3 (u8 (s32 chunk_count));
  rule_steps := Some <$>
    [mkStep CRUSH_RULE_SET_CHOOSELEAF_TRIES 5 0; mkStep CRUSH_RULE_SET_CHOOSE_TRIES 100 0;
     mkStep CRUSH_RULE_TAKE root 0]
    ++ zip_with crush_step steps types ++ [mkStep CRUSH_RULE_EMIT 0 0];
|}.

Section building.
Context (c : CrushWrapper) (rno len : nat) (mask : crush_rule_mask).
Context (Hrno : (rno < length (rules c))%nat) (Hrno32 : Z.of_nat rno < 2 ^ 32)
  (Hlen32 : Z.of_nat len < 2 ^ 32) (Hrmaps : have_rmaps c = true).

(** The map while rule [rno] has its first steps. *)
Definition building (done : list crush_rule_step) : CrushWrapper :=
  with_rules c (<[rno := Some (mkRule (Z.of_nat len) mask
    ((Some <$> done) ++ replicate (len - length done) None))]> (rules c)).

Lemma get_rule_building done :
  get_rule (building done) (Z.of_nat rno)
  = Some (mkRule (Z.of_nat len) mask
      ((Some <$> done) ++ replicate (len - length done) None)).
Proof.
  rewrite get_rule_lookup by lia. simpl. rewrite Nat2Z.id.
  by rewrite list_lookup_insert_eq.
Qed.

Lemma set_rule_step_building done o a1 a2 :
  (length done < len)%nat →
  set_rule_step (building done) (Z.of_nat rno) (Z.of_nat (length done)) o a1 a2
  = Ret (0, building (done ++ [mkStep (u32 o) a1 a2])).
Proof.
  intros Hd. unfold set_rule_step. rewrite get_rule_building.
  unfold crush_rule_set_step. simpl.
  rewrite (u32_small (Z.of_nat (length done))) by lia.
  rewrite bool_decide_true by lia. simpl. do 2 f_equal.
  unfold building, with_rules. simpl. f_equal.
  rewrite (u32_small (Z.of_nat rno)), !Nat2Z.id by lia. rewrite list_insert_insert_eq. do 3 f_equal.
  rewrite insert_app_r_alt by (rewrite length_fmap; lia).
  rewrite length_fmap, Nat.sub_diag, length_app, fmap_app, <-app_assoc. f_equal. simpl.
  replace (len - length done)%nat with (S (len - (length done + 1))) by lia. done.
Qed.

Lemma get_type_id_building done name :
  get_type_id (building done) name = (default (-1) (type_rmap c !! name), building done).
Proof. unfold get_type_id. by rewrite build_rmaps_id. Qed.

(** The loop over the steps writes them all when it knows every type, and
    stops at the first unknown one otherwise. *)
Lemma add_ruleset_steps_building todo done :
  (length done + length todo < len)%nat →
  match mapM (step_type c) todo with
  | Some types =>
      add_ruleset_steps (Z.of_nat rno) todo (Z.of_nat (length done)) (building done)
      = Ret (inl (Z.of_nat (length done + length todo),
                  building (done ++ zip_with crush_step todo types)))
  | None => ∃ done', (length done' < len)%nat
      ∧ add_ruleset_steps (Z.of_nat rno) todo (Z.of_nat (length done)) (building done)
        = Ret (inr (building done'))
  end.
Proof.
  revert done. induction todo as [|i todo IH]; intros done Hl.
  { simpl. by rewrite Nat.add_0_r, app_nil_r. }
  cbn [mapM add_ruleset_steps]. rewrite get_type_id_building.
  assert (default (-1) (type_rmap c !! s_type i) < 0 ∧ step_type c i = None
    ∨ ∃ ty, default (-1) (type_rmap c !! s_type i) = ty ∧ 0 ≤ ty ∧ step_type c i = Some ty)
    as [[Hneg ->]|(ty & -> & Hty & ->)].
  { unfold step_type. destruct (type_rmap c !! s_type i) as [ty|]; simpl; [|by left].
    case_bool_decide; [by left|right; exists ty; auto with lia]. }
  { rewrite bool_decide_true by done. exists done. simpl in Hl |- *. split; [lia|done]. }
  rewrite bool_decide_false by lia. cbn [mbind option_bind].
  simpl in Hl. rewrite set_rule_step_building by lia. simpl.
  set (o := u32 _). assert (mkStep o (s_n i) ty = crush_step i ty) as ->
    by (unfold o, crush_step; by case_bool_decide).
  specialize (IH (done ++ [crush_step i ty])). rewrite length_app in IH. simpl in IH.
  replace (Z.of_nat (length done) + 1) with (Z.of_nat (length done + 1)) by lia.
  destruct (mapM (step_type c) todo) as [types|]; [|apply IH; lia].
  rewrite IH by lia. simpl. rewrite <-app_assoc. simpl. do 3 f_equal. lia.
Qed.

End building.

(** The array of rules, grown to hold rule [rno]. *)
Definition grow (c : CrushWrapper) (rno : Z) : CrushWrapper :=
  with_rules c (rules c ++ replicate (Z.to_nat (rno + 1 - get_max_rules c)) None).

Lemma add_rule_building c len mask rno ruleset type minsize maxsize :
  0 ≤ rno ≤ get_max_rules c → rno < CRUSH_MAX_RULES → 0 ≤ len < 2 ^ 32 →
  mask = mkMask (u8 ruleset) (u8 type) (u8 minsize) (u8 maxsize) →
  add_rule c len ruleset type minsize maxsize rno
  = Ret (rno, building (grow c rno) (Z.to_nat rno) (Z.to_nat len) mask []).
Proof.
  intros Hr Hmax Hlen ->. unfold add_rule, crush_add_rule. unfold get_max_rules in *.
  rewrite (bool_decide_false (rno < 0)) by lia. cbn [mbind outcome_bind].
  assert (crush_make_rule len ruleset type minsize maxsize
    = mkRule (Z.of_nat (Z.to_nat len)) (mkMask (u8 ruleset) (u8 type) (u8 minsize) (u8 maxsize))
        ((Some <$> []) ++ replicate (Z.to_nat len - 0) None)) as ->.
  { unfold crush_make_rule. rewrite u32_small by lia. f_equal; [lia|].
    simpl. f_equal. lia. }
  unfold building, grow, get_max_rules. simpl.
  case_bool_decide as Hg; simpl.
  - rewrite bool_decide_false by (unfold CRUSH_MAX_RULES in *; lia). done.
  - replace (Z.to_nat (rno + 1 - _)) with 0%nat by lia. simpl. by rewrite app_nil_r.
Qed.

Lemma rno_in_grown c :
  let rno := lowest_free_ruleno c in
  0 ≤ rno ∧ (Z.to_nat rno < length (rules (grow c rno)))%nat.
Proof.
  destruct (lowest_free_ruleno_spec c) as [Hr _]. unfold grow. simpl.
  rewrite length_app, length_replicate. unfold get_max_rules in *. lia.
Qed.

Section create.
Context (rs : Ruleset) (chunk_count : Z) (name : string) (c : CrushWrapper) (root : Z).
Context (Hwf : crush_wf c).
#[local] Abbreviation c1 := (build_rmaps c).
#[local] Abbreviation rno := (lowest_free_ruleno c1).
#[local] Abbreviation len := (4 + Z.of_nat (length (ruleset_steps rs))).
#[local] Abbreviation mask := (mkMask (u8 rno) TYPE_ERASURE 3 (u8 (s32 chunk_count))).
#[local] Abbreviation built :=
  (building (grow c1 rno) (Z.to_nat rno) (Z.to_nat len) mask).
Context (Hname : rule_name_rmap c1 !! name = None).
Context (Hroot : name_rmap c1 !! ruleset_root rs = Some root).
Context (Hroom : rno < CRUSH_MAX_RULES) (Hlen : len < 2 ^ 32).

Definition head_steps : list crush_rule_step :=
  [mkStep CRUSH_RULE_SET_CHOOSELEAF_TRIES 5 0; mkStep CRUSH_RULE_SET_CHOOSE_TRIES 100 0;
   mkStep CRUSH_RULE_TAKE root 0].

(** [create_ruleset] up to the loop over the steps. *)
Lemma create_ruleset_loop :
  create_ruleset rs chunk_count name c
  = (res ← add_ruleset_steps rno (ruleset_steps rs) 3 (built head_steps);
     match res with
     | inr crush => Ret (- EINVAL, crush)
     | inl (step, crush) =>
         '(ret, crush) ← set_rule_step crush rno step CRUSH_RULE_EMIT 0 0;
         _ ← assert_that (bool_decide (ret = 0));
         Ret (rno, set_rule_name crush rno name)
     end).
Proof.
  pose proof (rno_in_grown c1) as [Hr0 Hgrown]. pose proof (build_rmaps_have c) as Hhave.
  destruct (lowest_free_ruleno_spec c1) as [Hr _].
  unfold create_ruleset, rule_name_exists. cbv zeta.
  rewrite Hname. rewrite bool_decide_false by (by intros [? [=]]). cbv iota.
  unfold name_exists, get_item_id. cbv zeta. rewrite !(build_rmaps_id c1) by done.
  rewrite Hroot. rewrite bool_decide_true by eauto. cbv iota. cbn [negb default].
  rewrite (add_rule_building c1 len mask) by (done || lia).
  cbn [mbind outcome_bind]. rewrite bool_decide_true by done. cbn [assert_that].
  unfold CRUSH_MAX_RULES in Hroom.
  assert (Z.of_nat (Z.to_nat rno) = rno) as Hid by lia.
  assert (∀ done st o a1 a2, st = Z.of_nat (length done) → (length done < Z.to_nat len)%nat →
    set_rule_step (built done) rno st o a1 a2
    = Ret (0, built (done ++ [mkStep (u32 o) a1 a2]))) as Hset.
  { intros done st o a1 a2 -> Hd.
    pose proof (set_rule_step_building (grow c1 rno) (Z.to_nat rno) (Z.to_nat len) mask
      Hgrown ltac:(lia) ltac:(lia) done o a1 a2 Hd) as Hs.
    by rewrite Hid in Hs. }
  do 3 (rewrite Hset by (simpl; lia); cbn [mbind outcome_bind app];
        rewrite bool_decide_true by done; cbn [assert_that]).
  reflexivity.
Qed.

(** What the loop and the last step make of it. *)
Lemma create_ruleset_cases :
  match mapM (step_type c1) (ruleset_steps rs) with
  | Some types =>
      create_ruleset rs chunk_count name c
      = Ret (rno, set_rule_name (with_rules c1 (<[Z.to_nat rno :=
          Some (ruleset_rule (ruleset_steps rs) rno root chunk_count types)]>
            (rules (grow c1 rno)))) rno name)
  | None => ∃ done, (length done < Z.to_nat len)%nat
      ∧ create_ruleset rs chunk_count name c = Ret (- EINVAL, built done)
  end.
Proof.
  rewrite create_ruleset_loop. pose proof (rno_in_grown c1) as [Hr0 Hgrown].
  unfold CRUSH_MAX_RULES in Hroom.
  assert (Z.of_nat (Z.to_nat rno) = rno) as Hid by lia.
  pose proof (add_ruleset_steps_building (grow c1 rno) (Z.to_nat rno) (Z.to_nat len) mask
    Hgrown ltac:(lia) ltac:(lia) (build_rmaps_have c) (ruleset_steps rs) head_steps
    ltac:(simpl; lia)) as Hloop.
  rewrite Hid in Hloop. change (Z.of_nat (length head_steps)) with 3 in Hloop.
  change (step_type (grow c1 rno)) with (step_type c1) in Hloop.
  destruct (mapM (step_type c1) (ruleset_steps rs)) as [types|] eqn:Htypes.
  2: { destruct Hloop as (done & Hd & ->). exists done. done. }
  apply length_mapM in Htypes.
  rewrite Hloop. cbn [mbind outcome_bind].
  set (done := head_steps ++ _).
  assert (length done = Z.to_nat len - 1)%nat as Hdone.
  { unfold done. rewrite length_app, length_zip_with. simpl. lia. }
  pose proof (set_rule_step_building (grow c1 rno) (Z.to_nat rno) (Z.to_nat len) mask
    Hgrown ltac:(lia) ltac:(lia) done CRUSH_RULE_EMIT 0 0 ltac:(lia)) as Hs.
  rewrite Hid in Hs. replace (Z.of_nat (length head_steps + _)) with (Z.of_nat (length done))
    by (rewrite Hdone; simpl; lia).
  rewrite Hs. cbn [mbind outcome_bind]. rewrite bool_decide_true by done.
  cbn [assert_that]. do 3 f_equal. unfold building.
  rewrite length_app, Hdone. simpl. do 4 f_equal.
  replace (Z.to_nat len - _)%nat with 0%nat by lia. rewrite app_nil_r.
  unfold ruleset_rule. by rewrite Z2Nat.id by lia.
Qed.

End create.

(** ** Theorems *)

Lemma lowest_free_build c : lowest_free_ruleno (build_rmaps c) = lowest_free_ruleno c.
Proof. unfold build_rmaps. by destruct (have_rmaps c). Qed.

Lemma rule_name_unused c name :
  crush_wf c → (∀ i, rule_name_map c !! i ≠ Some name) →
  rule_name_rmap (build_rmaps c) !! name = None.
Proof.
  intros Hwf Hn. destruct (wf_rule_names _ (build_rmaps_wf c Hwf) (build_rmaps_have c)) as [H _].
  destruct (rule_name_rmap (build_rmaps c) !! name) as [i|] eqn:E; [|done].
  apply H in E. destruct (build_rmaps_fields c) as (_ & _ & _ & Hf).
  rewrite Hf in E. by destruct (Hn i).
Qed.

Lemma get_rule_grow c rno i :
  get_max_rules c ≤ CRUSH_MAX_RULES → 0 ≤ rno < CRUSH_MAX_RULES → 0 ≤ i < 2 ^ 32 →
  get_rule (grow c rno) i = get_rule c i.
Proof.
  intros Hmax Hrno Hi. rewrite !get_rule_lookup by done. unfold grow. simpl.
  destruct (decide (Z.to_nat i < length (rules c))%nat).
  - by rewrite lookup_app_l by done.
  - rewrite lookup_app_r, (lookup_ge_None_2 (rules c)) by lia.
    destruct (replicate _ _ !! _) as [x|] eqn:E; [|done].
    by apply lookup_replicate in E as [-> _].
Qed.

(** [create_ruleset] of a locally repairable code, when the name is free,
    the root item and the types of all steps exist and there is room for
    another rule: it returns the lowest number that is neither a rule nor a
    ruleset, stores there a rule for erasure-coded pools with exactly the
    steps SET_CHOOSELEAF_TRIES 5, SET_CHOOSE_TRIES 100, TAKE root, one CHOOSE
    or CHOOSELEAF INDEP per ruleset step and EMIT, gives it the name, and
    changes no other rule. *)
Theorem create_ruleset_creates rs chunk_count name c root types :
  crush_wf c → (∀ i, rule_name_map c !! i ≠ Some name) →
  name_rmap (build_rmaps c) !! ruleset_root rs = Some root →
  mapM (step_type (build_rmaps c)) (ruleset_steps rs) = Some types →
  let rno := lowest_free_ruleno c in
  rno < CRUSH_MAX_RULES → 4 + Z.of_nat (length (ruleset_steps rs)) < 2 ^ 32 →
  ∃ c', create_ruleset rs chunk_count name c = Ret (rno, c')
    ∧ get_rule c rno = None
    ∧ get_rule c' rno = Some (ruleset_rule (ruleset_steps rs) rno root chunk_count types)
    ∧ (∀ i, 0 ≤ i < 2 ^ 32 → i ≠ rno → get_rule c' i = get_rule c i)
    ∧ rule_name_map c' = <[rno := name]> (rule_name_map c)
    ∧ get_rule_id c' name = (rno, c').
Proof.
  intros Hwf Hn Hroot Htypes rno Hroom Hlen.
  pose proof (rule_name_unused c name Hwf Hn) as Hname.
  pose proof (create_ruleset_cases rs chunk_count name c root) as Hcases.
  rewrite Htypes, lowest_free_build in Hcases. fold rno in Hcases.
  specialize (Hcases Hname Hroot Hroom Hlen). rewrite Hcases.
  destruct (lowest_free_ruleno_spec c) as [Hr Hfree]. fold rno in Hr, Hfree.
  destruct (build_rmaps_fields c) as (Hf1 & _ & _ & Hf4).
  assert (∀ i, get_rule (build_rmaps c) i = get_rule c i) as Hg
    by (intros i; unfold get_rule, get_max_rules; by rewrite Hf1).
  pose proof (wf_max_rules _ Hwf) as Hmax. unfold CRUSH_MAX_RULES in *.
  assert (get_max_rules (build_rmaps c) = get_max_rules c) as Hm
    by (unfold get_max_rules; by rewrite Hf1).
  assert ((Z.to_nat rno < length (rules (grow (build_rmaps c) rno)))%nat) as Hin.
  { unfold grow. simpl. rewrite length_app, length_replicate, Hm.
    unfold get_max_rules in *. rewrite Hf1. lia. }
  eexists; split; [done|]. split_and!.
  - rewrite get_rule_lookup by lia. destruct (decide (rno < get_max_rules c)) as [Hlt|].
    + destruct (Hfree Hlt) as [Hex _]. unfold rule_exists in Hex.
      apply bool_decide_eq_false in Hex. rewrite get_rule_lookup in Hex by lia.
      destruct (default None _); [|done]. by destruct Hex.
    + unfold get_max_rules in *. by rewrite lookup_ge_None_2 by lia.
  - rewrite get_rule_lookup by lia. simpl. by rewrite list_lookup_insert_eq.
  - intros i Hi Hne. rewrite get_rule_lookup by lia. simpl.
    rewrite list_lookup_insert_ne by lia.
    transitivity (get_rule (grow (build_rmaps c) rno) i); [by rewrite get_rule_lookup by lia|].
    rewrite get_rule_grow; [apply Hg|unfold CRUSH_MAX_RULES; lia..].
  - simpl. by rewrite Hf4.
  - unfold get_rule_id. rewrite build_rmaps_id; simpl; rewrite (build_rmaps_have c); [|done].
    by rewrite lookup_insert_eq.
Qed.

(** When a step names a type that the CRUSH map does not know,
    [create_ruleset] returns [-EINVAL] after it has already added the rule: the
    map is left with a new rule without a name that has uninitialised steps. *)
Theorem create_ruleset_unknown_type rs chunk_count name c root :
  crush_wf c → (∀ i, rule_name_map c !! i ≠ Some name) →
  name_rmap (build_rmaps c) !! ruleset_root rs = Some root →
  mapM (step_type (build_rmaps c)) (ruleset_steps rs) = None →
  let rno := lowest_free_ruleno c in
  rno < CRUSH_MAX_RULES → 4 + Z.of_nat (length (ruleset_steps rs)) < 2 ^ 32 →
  ∃ c' rule, create_ruleset rs chunk_count name c = Ret (- EINVAL, c')
    ∧ get_rule c' rno = Some rule ∧ None ∈ rule_steps rule
    ∧ rule_name_map c' = rule_name_map c.
Proof.
  intros Hwf Hn Hroot Htypes rno Hroom Hlen.
  pose proof (rule_name_unused c name Hwf Hn) as Hname.
  pose proof (create_ruleset_cases rs chunk_count name c root) as Hcases.
  pose proof (rno_in_grown (build_rmaps c)) as [_ Hin].
  rewrite lowest_free_build in Hin. rewrite Htypes, lowest_free_build in Hcases.
  fold rno in Hcases, Hin. specialize (Hcases Hname Hroot Hroom Hlen) as (done & Hd & ->).
  destruct (lowest_free_ruleno_spec c) as [Hr _]. fold rno in Hr. unfold CRUSH_MAX_RULES in *.
  destruct (build_rmaps_fields c) as (_ & _ & _ & Hf4).
  eexists _, _. split; [done|]. split; [|split].
  - pose proof (get_rule_building (grow (build_rmaps c) rno) (Z.to_nat rno)
      (Z.to_nat (4 + Z.of_nat (length (ruleset_steps rs))))
      (mkMask (u8 rno) TYPE_ERASURE 3 (u8 (s32 chunk_count))) Hin ltac:(lia) done) as Hg.
    rewrite Z2Nat.id in Hg by lia. exact Hg.
  - simpl. apply elem_of_app. right.
    destruct (Z.to_nat _ - length done)%nat eqn:E; [lia|]. left.
  - done.
Qed.

Lemma insert_rule_wf c rno rule :
  crush_wf c → rule_wf rule → (rno < length (rules c))%nat →
  crush_wf (with_rules c (<[rno := Some rule]> (rules c))).
Proof.
  intros [H1 H2 H3 H4 H5 H6] Hrule Hr. constructor; simpl; try done.
  - unfold get_max_rules in *. simpl. by rewrite length_insert.
  - intros i r. rewrite list_lookup_insert_Some. intros [(<- & [= <-] & _)|[_ Hi]]; eauto.
  - intros i name [Hi (r & Hi')]%H6. split; [done|].
    destruct (decide (rno = Z.to_nat i)) as [->|];
      [rewrite list_lookup_insert_eq by done|rewrite list_lookup_insert_ne by done]; eauto.
Qed.

Lemma building_wf c rno len mask done :
  crush_wf c → (length done ≤ len)%nat → (rno < length (rules c))%nat →
  crush_wf (building c rno len mask done).
Proof.
  intros Hwf Hd Hr. apply insert_rule_wf; [done| |done].
  unfold rule_wf. simpl. rewrite length_app, length_fmap, length_replicate. lia.
Qed.

Lemma set_rule_name_wf c i r name :
  crush_wf c → 0 ≤ i → rule_name_map c !! i = None →
  rules c !! Z.to_nat i = Some (Some r) → crush_wf (set_rule_name c i name).
Proof.
  intros [H1 H2 H3 H4 H5 H6] Hi Hnew Hr. constructor; simpl; try done.
  - intros Hh. rewrite Hh. apply rmap_ok_insert; auto.
  - intros j n [[<- <-]|[_ Hj]]%lookup_insert_Some; eauto.
Qed.

Lemma lowest_free_unnamed c :
  crush_wf c → rule_name_map c !! lowest_free_ruleno c = None.
Proof.
  intros Hwf. destruct (lowest_free_ruleno_spec c) as [Hr Hfree].
  destruct (rule_name_map c !! _) as [name|] eqn:E; [|done].
  apply (wf_named _ Hwf) in E as [_ [r Hl]]. pose proof (wf_max_rules _ Hwf) as Hmax.
  pose proof (lookup_lt_Some _ _ _ Hl) as Hlt. unfold get_max_rules, CRUSH_MAX_RULES in *.
  destruct Hfree as [Hex _]; [lia|]. unfold rule_exists in Hex.
  rewrite get_rule_lookup, Hl in Hex by lia. by rewrite bool_decide_true in Hex by (simpl; eauto).
Qed.

Lemma grow_wf c rno :
  crush_wf c → 0 ≤ rno < CRUSH_MAX_RULES → crush_wf (grow c rno).
Proof.
  intros [H1 H2 H3 H4 H5 H6] Hr. constructor; simpl; try done.
  - unfold grow, get_max_rules in *. simpl. rewrite length_app, length_replicate. lia.
  - intros i r [Hi|[_ Hi]]%lookup_app_Some; [eauto|].
    by apply lookup_replicate in Hi as [? _].
  - intros i name [Hi (r & Hi')]%H6. split; [done|]. exists r. by apply lookup_app_l_Some.
Qed.

(** [create_ruleset] keeps the invariant of the CRUSH map on every path
    that returns: right reverse maps, at most [CRUSH_MAX_RULES] rules, the
    steps of each rule allocated, names on existing rules only. *)
Theorem create_ruleset_invariant rs chunk_count name c ret c' :
  crush_wf c → 4 + Z.of_nat (length (ruleset_steps rs)) < 2 ^ 32 →
  create_ruleset rs chunk_count name c = Ret (ret, c') → crush_wf c'.
Proof.
  intros Hwf Hlen. pose proof (build_rmaps_wf c Hwf) as Hwf1.
  pose proof (build_rmaps_have c) as Hhave.
  destruct (rule_name_rmap (build_rmaps c) !! name) as [i|] eqn:Hname.
  { unfold create_ruleset, rule_name_exists. rewrite Hname.
    rewrite bool_decide_true by eauto. congruence. }
  destruct (name_rmap (build_rmaps c) !! ruleset_root rs) as [root|] eqn:Hroot.
  2: { unfold create_ruleset, rule_name_exists, name_exists. rewrite Hname.
       rewrite bool_decide_false by (by intros [? [=]]). rewrite build_rmaps_id, Hroot by done.
       rewrite bool_decide_false by (by intros [? [=]]). simpl. congruence. }
  pose proof (rno_in_grown (build_rmaps c)) as [Hr0 Hin].
  destruct (lowest_free_ruleno_spec (build_rmaps c)) as [Hr _].
  set (rno := lowest_free_ruleno (build_rmaps c)) in *.
  destruct (decide (rno < CRUSH_MAX_RULES)) as [Hroom|Hroom].
  2: { pose proof (wf_max_rules _ Hwf1).
       unfold create_ruleset, rule_name_exists, name_exists, get_item_id. rewrite Hname.
       rewrite bool_decide_false by (by intros [? [=]]).
       rewrite !(build_rmaps_id (build_rmaps c)), Hroot by done.
       rewrite bool_decide_true by eauto. cbn [negb default]. fold rno.
       unfold add_rule, crush_add_rule. unfold get_max_rules in *.
       rewrite (bool_decide_false (rno < 0)) by lia. cbn [mbind outcome_bind].
       rewrite !bool_decide_true by lia. cbn [mbind outcome_bind].
       by rewrite bool_decide_false by (unfold ENOSPC; lia). }
  pose proof (grow_wf _ rno Hwf1 (conj Hr0 Hroom)) as Hwfg.
  pose proof (create_ruleset_cases rs chunk_count name c root Hname Hroot Hroom Hlen) as Hcases.
  fold rno in Hcases.
  destruct (mapM (step_type (build_rmaps c)) (ruleset_steps rs)) as [types|] eqn:Htypes.
  - rewrite Hcases. intros [= _ <-]. apply length_mapM in Htypes.
    set (rule := ruleset_rule _ _ _ _ _).
    assert (crush_wf (with_rules (build_rmaps c)
      (<[Z.to_nat rno := Some rule]> (rules (grow (build_rmaps c) rno))))) as Hwf2.
    { apply (insert_rule_wf (grow (build_rmaps c) rno)); [done| |done].
      unfold rule_wf, rule, ruleset_rule. simpl. rewrite !length_fmap, length_app, length_zip_with.
      simpl. lia. }
    apply (set_rule_name_wf _ _ rule); [done|done|apply (lowest_free_unnamed _ Hwf1)|].
    simpl. by rewrite list_lookup_insert_eq.
  - destruct Hcases as (done & Hd & ->). intros [= _ <-]. apply building_wf; [done|lia|done].
Qed.

(** ** Witnesses *)

(** A CRUSH map with the root [default], the types [osd] and [host] and one
    rule. *)
Definition crush0 : CrushWrapper := {|
  rules := [Some (crush_make_rule 1 0 TYPE_REPLICATED 1 10)];
  type_map := {[0 := "osd"; 1 := "host"]};
  name_map := {[-1 := "default"]};
  rule_name_map := {[0 := "replicated_ruleset"]};
  have_rmaps := false;
  type_rmap := ∅; name_rmap := ∅; rule_name_rmap := ∅;
|}.

Lemma crush0_wf : crush_wf crush0.
Proof.
  constructor; simpl; try done.
  - intros [|i] r; simpl; [|done]. intros [= <-]. done.
  - intros i name [<- _]%lookup_singleton_Some. split; [done|]. by eexists.
Qed.

Definition host_ruleset : Ruleset :=
  mkRuleset "default" [mkRulesetStep "chooseleaf" "host" 0].
Definition rack_ruleset : Ruleset :=
  mkRuleset "default" [mkRulesetStep "choose" "rack" 2].

Lemma crush0_unused i : rule_name_map crush0 !! i ≠ Some "ecrule".
Proof. simpl. by intros [_ [=]]%lookup_singleton_Some. Qed.

Lemma create_ruleset_creates_witness :
  ∃ c', create_ruleset host_ruleset 9 "ecrule" crush0 = Ret (1, c')
    ∧ get_rule c' 1 = Some (ruleset_rule (ruleset_steps host_ruleset) 1 (-1) 9 [1]).
Proof.
  destruct (create_ruleset_creates host_ruleset 9 "ecrule" crush0 (-1) [1])
    as (c' & Hc & _ & Hr & _);
    [apply crush0_wf|apply crush0_unused|vm_compute; reflexivity..|].
  exists c'. split; [exact Hc|exact Hr].
Defined.

Lemma create_ruleset_unknown_type_witness :
  ∃ c' rule, create_ruleset rack_ruleset 9 "ecrule" crush0 = Ret (- EINVAL, c')
    ∧ get_rule c' 1 = Some rule ∧ None ∈ rule_steps rule.
Proof.
  destruct (create_ruleset_unknown_type rack_ruleset 9 "ecrule" crush0 (-1))
    as (c' & rule & Hc & Hr & Hn & _);
    [apply crush0_wf|apply crush0_unused|vm_compute; reflexivity..|].
  exists c', rule. split; [exact Hc|split; [exact Hr|exact Hn]].
Defined.

Lemma create_ruleset_invariant_witness :
  ∃ c', create_ruleset host_ruleset 9 "ecrule" crush0 = Ret (1, c') ∧ crush_wf c'.
Proof.
  eexists. split; [vm_compute; reflexivity|].
  apply (create_ruleset_invariant host_ruleset 9 "ecrule" crush0 1);
    [apply crush0_wf|vm_compute; reflexivity|vm_compute; reflexivity].
Defined.
