(* ===== verification/CrushHash.v ===== *)
(** * The hash functions of CRUSH

    src/src/crush/hash.c: Jenkins' mixing of 32-bit values. *)

From S2P Require Import Prelude.

(** [a = a-b; a = a-c; a = a^(c>>s)], or with a shift to the left. *)
Definition mix_right (a b c s : Z) : Z := Z.lxor (u32 (u32 (a - b) - c)) (Z.shiftr c s).
Definition mix_left (a b c s : Z) : Z := Z.lxor (u32 (u32 (a - b) - c)) (u32 (Z.shiftl c s)).

Definition crush_hashmix (a b c : Z) : Z * Z * Z :=
  let a := mix_right a b c 13 in
  let b := mix_left b c a 8 in
  let c := mix_right c a b 13 in
  let a := mix_right a b c 12 in
  let b := mix_left b c a 16 in
  let c := mix_right c a b 5 in
  let a := mix_right a b c 3 in
  let b := mix_left b c a 10 in
  let c := mix_right c a b 15 in
  (a, b, c).

Definition crush_hash_seed : Z := 1315423911.

Definition crush_hash32_rjenkins1 (a : Z) : Z :=
  let hash := Z.lxor crush_hash_seed a in
  let '(b, x, hash) := crush_hashmix a 231232 hash in
  let '(y, a, hash) := crush_hashmix 1232 a hash in
  hash.

Definition crush_hash32_rjenkins1_2 (a b : Z) : Z :=
  let hash := Z.lxor (Z.lxor crush_hash_seed a) b in
  let '(a, b, hash) := crush_hashmix a b hash in
  let '(x, a, hash) := crush_hashmix 231232 a hash in
  let '(b, y, hash) := crush_hashmix b 1232 hash in
  hash.

Definition crush_hash32_rjenkins1_3 (a b c : Z) : Z :=
  let hash := Z.lxor (Z.lxor (Z.lxor crush_hash_seed a) b) c in
  let '(a, b, hash) := crush_hashmix a b hash in
  let '(c, x, hash) := crush_hashmix c 231232 hash in
  let '(y, a, hash) := crush_hashmix 1232 a hash in
  let '(b, x, hash) := crush_hashmix b x hash in
  let '(y, c, hash) := crush_hashmix y c hash in
  hash.

Definition crush_hash32_rjenkins1_4 (a b c d : Z) : Z :=
  let hash := Z.lxor (Z.lxor (Z.lxor (Z.lxor crush_hash_seed a) b) c) d in
  let '(a, b, hash) := crush_hashmix a b hash in
  let '(c, d, hash) := crush_hashmix c d hash in
  let '(a, x, hash) := crush_hashmix a 231232 hash in
  let '(y, b, hash) := crush_hashmix 1232 b hash in
  let '(c, x, hash) := crush_hashmix c x hash in
  let '(y, d, hash) := crush_hashmix y d hash in
  hash.

Definition crush_hash32_rjenkins1_5 (a b c d e : Z) : Z :=
  let hash := Z.lxor (Z.lxor (Z.lxor (Z.lxor (Z.lxor crush_hash_seed a) b) c) d) e in
  let '(a, b, hash) := crush_hashmix a b hash in
  let '(c, d, hash) := crush_hashmix c d hash in
  let '(e, x, hash) := crush_hashmix e 231232 hash in
  let '(y, a, hash) := crush_hashmix 1232 a hash in
  let '(b, x, hash) := crush_hashmix b x hash in
  let '(y, c, hash) := crush_hashmix y c hash in
  let '(d, x, hash) := crush_hashmix d x hash in
  let '(y, e, hash) := crush_hashmix y e hash in
  hash.

Definition CRUSH_HASH_RJENKINS1 : Z := 0.

(** The arguments are converted to [__u32]. *)
Definition crush_hash32 (type a : Z) : Z :=
  if bool_decide (type = CRUSH_HASH_RJENKINS1) then crush_hash32_rjenkins1 (u32 a) else 0.
Definition crush_hash32_2 (type a b : Z) : Z :=
  if bool_decide (type = CRUSH_HASH_RJENKINS1) then crush_hash32_rjenkins1_2 (u32 a) (u32 b) else 0.
Definition crush_hash32_3 (type a b c : Z) : Z :=
  if bool_decide (type = CRUSH_HASH_RJENKINS1) then crush_hash32_rjenkins1_3 (u32 a) (u32 b) (u32 c) else 0.
Definition crush_hash32_4 (type a b c d : Z) : Z :=
  if bool_decide (type = CRUSH_HASH_RJENKINS1) then crush_hash32_rjenkins1_4 (u32 a) (u32 b) (u32 c) (u32 d) else 0.
Definition crush_hash32_5 (type a b c d e : Z) : Z :=
  if bool_decide (type = CRUSH_HASH_RJENKINS1)
  then crush_hash32_rjenkins1_5 (u32 a) (u32 b) (u32 c) (u32 d) (u32 e) else 0.

Definition crush_hash_name (type : Z) : string :=
  if bool_decide (type = CRUSH_HASH_RJENKINS1) then "rjenkins1" else "unknown".

(** ** The hashes are 32-bit values *)

Definition is_u32 (x : Z) : Prop := 0 ≤ x < 2 ^ 32.

Lemma is_u32_u32 x : is_u32 (u32 x).
Proof. apply Z.mod_pos_bound. lia. Qed.

Lemma is_u32_lxor a b : is_u32 a → is_u32 b → is_u32 (Z.lxor a b).
Proof. apply lxor_range; lia. Qed.

Lemma is_u32_shiftr a s : is_u32 a → 0 ≤ s → is_u32 (Z.shiftr a s).
Proof.
  intros [Ha Hb] Hs. unfold is_u32. rewrite Z.shiftr_div_pow2 by done. split; [apply Z.div_pos; lia|].
  apply Z.div_lt_upper_bound; [lia|]. pose proof (Z.pow_pos_nonneg 2 s). nia.
Qed.

Lemma crush_hashmix_u32 a b c :
  is_u32 c → let '(a', b', c') := crush_hashmix a b c in is_u32 a' ∧ is_u32 b' ∧ is_u32 c'.
Proof.
  intros Hc. cbv [crush_hashmix]. unfold mix_right, mix_left.
  split_and!; repeat first [apply is_u32_lxor | apply is_u32_u32 | apply is_u32_shiftr; [|lia] | exact Hc].
Qed.

Lemma seed_u32 : is_u32 crush_hash_seed.
Proof. done. Qed.

#[local] Ltac hash_u32 :=
  repeat (first [apply is_u32_lxor | apply is_u32_u32 | apply seed_u32]).
#[local] Ltac mix_u32 :=
  match goal with
  | |- context [crush_hashmix ?a ?b ?c] =>
    let H := fresh in
    assert (is_u32 c) as H by (assumption || hash_u32);
    apply (crush_hashmix_u32 a b) in H; destruct (crush_hashmix a b c) as [[? ?] ?]; destruct H as (_ & _ & ?)
  end.

Lemma crush_hash32_2_u32 t a b : is_u32 (crush_hash32_2 t a b).
Proof. unfold crush_hash32_2, crush_hash32_rjenkins1_2. case_bool_decide; [|done]. cbv zeta. repeat mix_u32. done. Qed.
Lemma crush_hash32_3_u32 t a b c : is_u32 (crush_hash32_3 t a b c).
Proof. unfold crush_hash32_3, crush_hash32_rjenkins1_3. case_bool_decide; [|done]. cbv zeta. repeat mix_u32. done. Qed.
Lemma crush_hash32_4_u32 t a b c d : is_u32 (crush_hash32_4 t a b c d).
Proof. unfold crush_hash32_4, crush_hash32_rjenkins1_4. case_bool_decide; [|done]. cbv zeta. repeat mix_u32. done. Qed.
