(* ===== verification/CrushMap.v ===== *)
(** * The CRUSH map

    The data of src/src/crush/crush.h that the placement reads: buckets with
    the five algorithms, the map with its tunables, the arguments that override
    weights and ids, and the working store of a placement. An array is the list
    of its elements; [size] of a bucket is the length of [items]. *)

From S2P Require Import Prelude CrushRules.

Module Crush.

Definition CRUSH_ITEM_UNDEF : Z := 0x7ffffffe.
Definition CRUSH_ITEM_NONE : Z := 0x7fffffff.

(** The parts of [crush_bucket_uniform] etc. that come after the header; the
    constructor is [alg]. *)
Inductive bucket_alg :=
  | CRUSH_BUCKET_UNIFORM (item_weight : Z)
  | CRUSH_BUCKET_LIST (item_weights sum_weights : list Z)
  | CRUSH_BUCKET_TREE (num_nodes : Z) (node_weights : list Z)
  | CRUSH_BUCKET_STRAW (item_weights straws : list Z)
  | CRUSH_BUCKET_STRAW2 (item_weights : list Z)
  | UNKNOWN_ALG (number : Z).

Record crush_bucket := mkBucket {
  id : Z;
  type : Z;
  hash : Z;
  weight : Z;
  items : list Z;
  alg : bucket_alg;
}.

Definition size (b : crush_bucket) : Z := Z.of_nat (length (items b)).

(** Null pointers are [None]; the sizes are those of the lists. *)
Record crush_choose_arg := mkChooseArg {
  ids : option (list Z);
  weight_set : option (list (list Z));
}.

(** The histogram [choose_tries] is a null pointer. *)
Record crush_map := mkMap {
  buckets : list (option crush_bucket);
  map_rules : list (option crush_rule);
  max_devices : Z;
  choose_local_tries : Z;
  choose_local_fallback_tries : Z;
  choose_total_tries : Z;
  chooseleaf_descend_once : Z;
  chooseleaf_vary_r : Z;
  chooseleaf_stable : Z;
}.

Definition max_buckets (map : crush_map) : Z := Z.of_nat (length (buckets map)).
Definition max_rules (map : crush_map) : Z := Z.of_nat (length (map_rules map)).

(** [perm] is allocated but not initialised. *)
Record crush_work_bucket := mkWorkBucket {
  perm_x : Z;
  perm_n : Z;
  perm : list (option Z);
}.

Abbreviation crush_work := (list (option crush_work_bucket)).

(** ** Arrays *)

Definition at_index {A} (l : list A) (i : Z) : outcome A :=
  if bool_decide (i < 0) then Abort OutOfBounds else need OutOfBounds (l !! Z.to_nat i).

(** An element that may not have been written. *)
Definition value_at {A} (l : list (option A)) (i : Z) : outcome A :=
  v ← at_index l i; need Uninitialised v.

Definition store_at {A} (l : list A) (i : Z) (v : A) : outcome (list A) :=
  _ ← at_index l i; Ret (<[Z.to_nat i := v]> l).

(** [map->buckets[i]], which is dereferenced. *)
Definition bucket_at (map : crush_map) (i : Z) : outcome crush_bucket :=
  b ← at_index (buckets map) i; need NullPointer b.

End Crush.
