(* ===== verification/CrushMapper.v ===== *)
(** * Placement

    src/src/crush/mapper.c. The choose methods of the bucket algorithms, the
    two ways to choose several items, and the rules. The working store is
    threaded through; the output vectors are arrays that may hold nothing yet.

    The loops of [crush_choose_firstn] and [crush_choose_indep] go on until
    they leave the hierarchy of buckets, which they never do on a cyclic map:
    they have fuel, and [OutOfFuel] says that it was not enough. *)

From S2P Require Import Prelude CrushRules CrushTables CrushHash CrushMap.

Module Mapper.
Import Crush.

(** ** Bucket choose methods *)

(** *** Permutations *)

Definition swap (perm : list (option Z)) (i j : Z) : outcome (list (option Z)) :=
  t ← at_index perm j;
  u ← at_index perm i;
  perm ← store_at perm j u;
  store_at perm i t.

(** One round of [while (work->perm_n <= pr)]. *)
Definition perm_step (b : crush_bucket) (x : Z) (perm : list (option Z)) (p : Z) : outcome (list (option Z)) :=
  if bool_decide (p < u32 (size b - 1)) then
    let i := crush_hash32_3 (hash b) x (id b) p mod (size b - p) in
    if bool_decide (i ≠ 0) then swap perm p (p + i) else Ret perm
  else Ret perm.

Definition identity_from (start : Z) (b : crush_bucket) (perm : list (option Z)) : outcome (list (option Z)) :=
  foldM (λ perm i, store_at perm i (Some i)) perm (seqZ start (size b - start)).

Definition bucket_perm_choose (b : crush_bucket) (work : crush_work_bucket) (x r : Z)
    : outcome (Z * crush_work_bucket) :=
  if bool_decide (size b = 0) then Abort DivByZero else
  let pr := u32 r mod size b in
  let finish '(n, perm) :=
    let todo := seqZ n (pr + 1 - n) in
    perm ← foldM (perm_step b x) perm todo;
    s ← value_at perm pr;
    item ← at_index (items b) s;
    Ret (item, mkWorkBucket (u32 x) (Z.max n (pr + 1)) perm) in
  if bool_decide (perm_x work ≠ u32 x ∨ perm_n work = 0) then
    if bool_decide (pr = 0) then
      let s := crush_hash32_3 (hash b) x (id b) 0 mod size b in
      perm ← store_at (perm work) 0 (Some s);
      item ← at_index (items b) s;
      Ret (item, mkWorkBucket (u32 x) 0xffff perm)
    else
      perm ← identity_from 0 b (perm work);
      finish (0, perm)
  else if bool_decide (perm_n work = 0xffff) then
    perm ← identity_from 1 b (perm work);
    p0 ← value_at perm 0;
    perm ← store_at perm p0 (Some 0);
    finish (1, perm)
  else finish (perm_n work, perm work).

Definition bucket_uniform_choose := bucket_perm_choose.

(** *** Lists *)

(** The loop from the item at index [n - 1] down. *)
Fixpoint list_loop (b : crush_bucket) (item_weights sum_weights : list Z) (x r : Z) (n : nat) : outcome Z :=
  match n with
  | O => at_index (items b) 0
  | S n =>
    let i := Z.of_nat n in
    item ← at_index (items b) i;
    sum ← at_index sum_weights i;
    iw ← at_index item_weights i;
    let w := Z.land (crush_hash32_4 (hash b) x item r (id b)) 0xffff in
    let w := u64 (w * sum) in
    let w := Z.shiftr w 16 in
    if bool_decide (w < iw) then Ret item else list_loop b item_weights sum_weights x r n
  end.

Definition bucket_list_choose (b : crush_bucket) (item_weights sum_weights : list Z) (x r : Z) : outcome Z :=
  list_loop b item_weights sum_weights x r (length (items b)).

(** *** Trees *)

(** The number of zero bits at the low end; the loop does not end on zero,
    and takes at most 31 rounds on any other [int]. *)
Fixpoint height_loop (fuel : nat) (n : Z) : outcome Z :=
  match fuel with
  | O => Abort OutOfFuel
  | S fuel => if bool_decide (Z.land n 1 = 0) then h ← height_loop fuel (Z.shiftr n 1); Ret (h + 1) else Ret 0
  end.
Definition height (n : Z) : outcome Z := height_loop 32 n.

Definition left (x : Z) : outcome Z := h ← height x; Ret (x - Z.shiftl 1 (h - 1)).
Definition right (x : Z) : outcome Z := h ← height x; Ret (x + Z.shiftl 1 (h - 1)).
Definition terminal (x : Z) : bool := bool_decide (Z.land x 1 ≠ 0).

Fixpoint tree_loop (fuel : nat) (b : crush_bucket) (node_weights : list Z) (x r n : Z) : outcome Z :=
  match fuel with
  | O => Abort OutOfFuel
  | S fuel =>
    if terminal n then Ret n else
    w ← at_index node_weights n;
    let t := u64 (crush_hash32_4 (hash b) x n r (id b) * w) in
    let t := Z.shiftr t 32 in
    l ← left n;
    lw ← at_index node_weights l;
    if bool_decide (t < lw) then tree_loop fuel b node_weights x r l
    else n ← right n; tree_loop fuel b node_weights x r n
  end.

Definition bucket_tree_choose (b : crush_bucket) (num_nodes : Z) (node_weights : list Z) (x r : Z) : outcome Z :=
  n ← tree_loop 32 b node_weights x r (Z.shiftr num_nodes 1);
  at_index (items b) (Z.shiftr n 1).

(** *** Straws *)

(** The first of the indices with the highest draw. *)
Definition highest (n : Z) (draw : Z → outcome Z) : outcome Z :=
  '(high, _) ← foldM (λ '(high, high_draw) i,
      d ← draw i;
      Ret (if bool_decide (i = 0 ∨ high_draw < d) then (i, d) else (high, high_draw))) (0, 0) (seqZ 0 n);
  Ret high.

Definition bucket_straw_choose (b : crush_bucket) (straws : list Z) (x r : Z) : outcome Z :=
  high ← highest (size b) (λ i,
    item ← at_index (items b) i;
    straw ← at_index straws i;
    Ret (u64 (Z.land (crush_hash32_3 (hash b) x item r) 0xffff * straw)));
  at_index (items b) high.

(** [__builtin_clz] of a 32-bit value. *)
Definition clz32 (x : Z) : outcome Z :=
  if bool_decide (x = 0) then Abort Undefined else Ret (31 - Z.log2 x).

Definition crush_ln (xin : Z) : outcome Z :=
  let x := u32 (xin + 1) in
  '(x, iexpon) ← (if bool_decide (Z.land x 0x18000 = 0) then
      clz ← clz32 (Z.land x 0x1FFFF);
      let bits := clz - 16 in
      Ret (u32 (Z.shiftl x bits), 15 - bits)
    else Ret (x, 15));
  let index1 := Z.shiftl (Z.shiftr x 8) 1 in
  RH ← at_index RH_LH_tbl (index1 - 256);
  LH ← at_index RH_LH_tbl (index1 + 1 - 256);
  let xl64 := Z.shiftr (u64 (x * RH)) 48 in
  let result := u64 (Z.shiftl iexpon (12 + 32)) in
  let index2 := Z.land xl64 0xff in
  LL ← at_index LL_tbl index2;
  let LH := Z.shiftr (u64 (LH + LL)) (48 - 12 - 32) in
  Ret (u64 (result + LH)).

Definition S64_MIN : Z := - 2 ^ 63.
Definition s64 (x : Z) : Z := (x + 2 ^ 63) mod 2 ^ 64 - 2 ^ 63.

Definition get_choose_arg_weights (item_weights : list Z) (arg : option crush_choose_arg) (position : Z) : outcome (list Z) :=
  match arg with
  | Some {| weight_set := Some ((_ :: _) as sets) |} =>
    let n := Z.of_nat (length sets) in
    at_index sets (if bool_decide (n ≤ u32 position) then n - 1 else position)
  | _ => Ret item_weights
  end.

Definition get_choose_arg_ids (b : crush_bucket) (arg : option crush_choose_arg) : list Z :=
  match arg with Some {| ids := Some ids |} => ids | _ => items b end.

(** The draw of an item. *)
Definition straw2_draw (b : crush_bucket) (weights ids : list Z) (x r i : Z) : outcome Z :=
  w ← at_index weights i;
  if bool_decide (w ≠ 0) then
    id ← at_index ids i;
    let u := Z.land (crush_hash32_3 (hash b) x id r) 0xffff in
    ln ← crush_ln u;
    let ln := s64 (ln - 0x1000000000000) in
    Ret (ln `quot` w)
  else Ret S64_MIN.

Definition bucket_straw2_choose (b : crush_bucket) (item_weights : list Z) (x r : Z)
    (arg : option crush_choose_arg) (position : Z) : outcome Z :=
  weights ← get_choose_arg_weights item_weights arg position;
  high ← highest (size b) (straw2_draw b weights (get_choose_arg_ids b arg) x r);
  at_index (items b) high.

(** *** All of them *)

Definition crush_bucket_choose (b : crush_bucket) (work : crush_work_bucket) (x r : Z)
    (arg : option crush_choose_arg) (position : Z) : outcome (Z * crush_work_bucket) :=
  _ ← assert_that (bool_decide (size b ≠ 0));
  match alg b with
  | CRUSH_BUCKET_UNIFORM _ => bucket_uniform_choose b work x r
  | CRUSH_BUCKET_LIST iw sw => item ← bucket_list_choose b iw sw x r; Ret (item, work)
  | CRUSH_BUCKET_TREE n nw => item ← bucket_tree_choose b n nw x r; Ret (item, work)
  | CRUSH_BUCKET_STRAW _ s => item ← bucket_straw_choose b s x r; Ret (item, work)
  | CRUSH_BUCKET_STRAW2 iw => item ← bucket_straw2_choose b iw x r arg position; Ret (item, work)
  | UNKNOWN_ALG _ => item ← at_index (items b) 0; Ret (item, work)
  end.

(** [weight_max] is the length of [weight]. *)
Definition is_out (weight : list Z) (item x : Z) : outcome bool :=
  if bool_decide (Z.of_nat (length weight) ≤ item) then Ret true else
  w ← at_index weight item;
  if bool_decide (0x10000 ≤ w) then Ret false
  else if bool_decide (w = 0) then Ret true
  else if bool_decide (Z.land (crush_hash32_2 CRUSH_HASH_RJENKINS1 x item) 0xffff < w) then Ret false
  else Ret true.

(** ** Choosing several items *)

(** Computations on the working store. *)
Definition crush (A : Type) : Type := crush_work → outcome (A * crush_work).
#[global] Instance crush_ret : MRet crush := λ A a w, Ret (a, w).
#[global] Instance crush_bind : MBind crush := λ A B k m w, '(a, w) ← m w; k a w.
Definition lift {A} (o : outcome A) : crush A := λ w, a ← o; Ret (a, w).

Fixpoint foldC {S X} (body : S → X → crush S) (s : S) (l : list X) : crush S :=
  match l with
  | [] => mret s
  | x :: l => s ← body s x; foldC body s l
  end.

(** [work->work[-1-in->id]]. *)
Definition with_work {A} (b : crush_bucket) (f : crush_work_bucket → outcome (A * crush_work_bucket)) : crush A := λ w,
  p ← at_index w (-1 - id b);
  wb ← need NullPointer p;
  '(a, wb) ← f wb;
  Ret (a, <[Z.to_nat (-1 - id b) := Some wb]> w).

(** Addition of [int]s. *)
Definition add_int (a b : Z) : outcome Z :=
  if bool_decide (- 2 ^ 31 ≤ a + b < 2 ^ 31) then Ret (a + b) else Abort SignedOverflow.

(** [r >> n] of an [int]. *)
Definition shift_int (r n : Z) : outcome Z :=
  if bool_decide (0 ≤ n < 32) then Ret (Z.shiftr r n) else Abort Undefined.

Abbreviation vector := (list (option Z)).

(** [out[i] == item] for an [i] among the positions. *)
Definition collides (out : vector) (positions : list Z) (item : Z) : outcome bool :=
  foldM (λ (found : bool) i, if found then Ret true else v ← value_at out i; Ret (bool_decide (v = item))) false positions.

Section choose.
Context (map : crush_map) (wgt : list Z) (x : Z) (choose_args : option (list crush_choose_arg)).
Context (fuel : nat).

Definition choose_arg (b : crush_bucket) : outcome (option crush_choose_arg) :=
  match choose_args with
  | None => Ret None
  | Some args => arg ← at_index args (-1 - id b); Ret (Some arg)
  end.

Definition choose_in (b : crush_bucket) (r position : Z) : crush Z :=
  arg ← lift (choose_arg b);
  with_work b (λ wb, crush_bucket_choose b wb x r arg position).

(** The type of an item: that of a bucket, or 0 for a device. *)
Definition item_type (item : Z) : outcome Z :=
  if bool_decide (item < 0) then b ← bucket_at map (-1 - item); Ret (type b) else Ret 0.

(** *** First n *)

Record firstn_args := mkFirstn {
  f_numrep : Z;
  f_type : Z;
  f_tries : Z;
  f_recurse_tries : Z;
  f_local_retries : Z;
  f_local_fallback_retries : Z;
  f_recurse_to_leaf : bool;
  f_vary_r : Z;
  f_stable : Z;
}.

(** The arguments of the recursive call for a leaf. *)
Definition leaf_args (a : firstn_args) (outpos : Z) : firstn_args := {|
  f_numrep := if bool_decide (f_stable a ≠ 0) then 1 else outpos + 1;
  f_type := 0;
  f_tries := f_recurse_tries a;
  f_recurse_tries := 0;
  f_local_retries := f_local_retries a;
  f_local_fallback_retries := f_local_fallback_retries a;
  f_recurse_to_leaf := false;
  f_vary_r := f_vary_r a;
  f_stable := f_stable a;
|}.

(** The leaf below an item: whether there is none, and [out2]. *)
Definition firstn_leaf
    (recurse : firstn_args → crush_bucket → vector → Z → Z → option vector → Z → crush (Z * vector * option vector))
    (a : firstn_args) (item r : Z) (outpos count : Z) (out2 : option vector) : crush (bool * option vector) :=
  v ← lift (need NullPointer out2);
  if bool_decide (item < 0) then
    sub_r ← lift (if bool_decide (f_vary_r a ≠ 0) then shift_int r (u32 (f_vary_r a - 1)) else Ret 0);
    b ← lift (bucket_at map (-1 - item));
    '(n, v, _) ← recurse (leaf_args a outpos) b v outpos count None sub_r;
    mret (bool_decide (n ≤ outpos), Some v)
  else
    v ← lift (store_at v outpos (Some item));
    mret (false, Some v).

(** From the label [reject] on: try the same bucket again, or from the start,
    or skip the replica. *)
Definition firstn_retry {R} (a : firstn_args) (bucket b : crush_bucket) (collide : bool) (ftotal flocal : Z)
    (again : crush_bucket → Z → Z → R) (skip : R) : R :=
  let ftotal := u32 (ftotal + 1) in
  let flocal := u32 (flocal + 1) in
  if collide && bool_decide (flocal ≤ f_local_retries a) then again b ftotal flocal
  else if bool_decide (0 < f_local_fallback_retries a ∧ flocal ≤ u32 (size b + f_local_fallback_retries a))
  then again b ftotal flocal
  else if bool_decide (ftotal < f_tries a) then again bucket ftotal 0
  else skip.

(** The two [do ... while] loops that look for one item: [None] when the
    replica is skipped. *)
Fixpoint firstn_item (fuel : nat)
    (recurse : firstn_args → crush_bucket → vector → Z → Z → option vector → Z → crush (Z * vector * option vector))
    (a : firstn_args) (bucket b : crush_bucket) (rep parent_r ftotal flocal : Z)
    (out : vector) (outpos count : Z) (out2 : option vector) : crush (option Z * option vector) :=
  match fuel with
  | O => lift (Abort OutOfFuel)
  | S fuel =>
    let again bucket' ftotal flocal out2 :=
      firstn_item fuel recurse a bucket bucket' rep parent_r ftotal flocal out outpos count out2 in
    let rejected (collide : bool) out2 :=
      firstn_retry a bucket b collide ftotal flocal (λ b ftotal flocal, again b ftotal flocal out2) (mret (None, out2)) in
    r ← lift (add_int rep parent_r);
    let r := s32 (r + ftotal) in
    if bool_decide (size b = 0) then rejected false out2 else
    item ← (if bool_decide (0 < f_local_fallback_retries a ∧ Z.shiftr (size b) 1 ≤ flocal ∧ f_local_fallback_retries a < flocal)
            then with_work b (λ wb, bucket_perm_choose b wb x r)
            else choose_in b r outpos);
    if bool_decide (max_devices map ≤ item) then mret (None, out2) else
    itemtype ← lift (item_type item);
    if bool_decide (itemtype ≠ f_type a) then
      if bool_decide (0 ≤ item ∨ max_buckets map ≤ -1 - item) then mret (None, out2)
      else b' ← lift (bucket_at map (-1 - item)); again b' ftotal flocal out2
    else
    collide ← lift (collides out (seqZ 0 outpos) item);
    '(reject, out2) ← (if negb collide && f_recurse_to_leaf a then firstn_leaf recurse a item r outpos count out2
                       else mret (false, out2));
    reject ← (if negb reject && negb collide && bool_decide (itemtype = 0) then lift (is_out wgt item x) else mret reject);
    if reject || collide then rejected collide out2 else mret (Some item, out2)
  end.

(** The loop over the replicas. *)
Fixpoint firstn_reps
    (recurse : firstn_args → crush_bucket → vector → Z → Z → option vector → Z → crush (Z * vector * option vector))
    (a : firstn_args) (bucket : crush_bucket) (parent_r : Z) (reps : list Z)
    (out : vector) (outpos count : Z) (out2 : option vector) : crush (Z * vector * option vector) :=
  match reps with
  | [] => mret (outpos, out, out2)
  | rep :: reps =>
    if bool_decide (count ≤ 0) then mret (outpos, out, out2) else
    '(found, out2) ← firstn_item fuel recurse a bucket bucket rep parent_r 0 0 out outpos count out2;
    match found with
    | None => firstn_reps recurse a bucket parent_r reps out outpos count out2
    | Some item =>
      out ← lift (store_at out outpos (Some item));
      firstn_reps recurse a bucket parent_r reps out (outpos + 1) (count - 1) out2
    end
  end.

(** The recursion for the leaves is one level deep; [depth] bounds it. *)
Fixpoint crush_choose_firstn (depth : nat) (a : firstn_args) (bucket : crush_bucket)
    (out : vector) (outpos out_size : Z) (out2 : option vector) (parent_r : Z)
    : crush (Z * vector * option vector) :=
  match depth with
  | O => lift (Abort StackOverflow)
  | S depth =>
    let start := if bool_decide (f_stable a ≠ 0) then 0 else outpos in
    firstn_reps (crush_choose_firstn depth) a bucket parent_r (seqZ start (f_numrep a - start)) out outpos out_size out2
  end.

(** *** Independent positions *)

Record indep_args := mkIndep {
  i_numrep : Z;
  i_type : Z;
  i_tries : Z;
  i_recurse_tries : Z;
  i_recurse_to_leaf : bool;
}.

Definition store_both (out : vector) (out2 : option vector) (rep v : Z) : outcome (vector * option vector) :=
  out ← store_at out rep (Some v);
  match out2 with
  | None => Ret (out, None)
  | Some o2 => o2 ← store_at o2 rep (Some v); Ret (out, Some o2)
  end.

(** [r] of a position; it does not only depend on the attempt in buckets of
    the uniform kind. *)
Definition indep_r (a : indep_args) (b : crush_bucket) (rep parent_r ftotal : Z) : outcome Z :=
  r ← add_int rep parent_r;
  uniform ← match alg b with
            | CRUSH_BUCKET_UNIFORM _ =>
              if bool_decide (i_numrep a = 0) then Abort DivByZero
              else Ret (bool_decide (size b mod u32 (i_numrep a) = 0))
            | _ => Ret false
            end;
  if uniform : bool then n ← add_int (i_numrep a) 1; Ret (s32 (r + n * ftotal)) else Ret (s32 (r + i_numrep a * ftotal)).

(** The descent for one position: the vectors and what is left. *)
Fixpoint indep_descend (fuel : nat)
    (recurse : indep_args → crush_bucket → Z → vector → Z → option vector → Z → crush (vector * option vector))
    (a : indep_args) (b : crush_bucket) (outpos endpos rep parent_r ftotal : Z)
    (out : vector) (left : Z) (out2 : option vector) : crush (vector * Z * option vector) :=
  match fuel with
  | O => lift (Abort OutOfFuel)
  | S fuel =>
    let bad := '(out, out2) ← lift (store_both out out2 rep CRUSH_ITEM_NONE); mret (out, left - 1, out2) in
    r ← lift (indep_r a b rep parent_r ftotal);
    if bool_decide (size b = 0) then mret (out, left, out2) else
    item ← choose_in b r outpos;
    if bool_decide (max_devices map ≤ item) then bad else
    itemtype ← lift (item_type item);
    if bool_decide (itemtype ≠ i_type a) then
      if bool_decide (0 ≤ item ∨ max_buckets map ≤ -1 - item) then bad
      else b' ← lift (bucket_at map (-1 - item));
           indep_descend fuel recurse a b' outpos endpos rep parent_r ftotal out left out2
    else
    collide ← lift (collides out (seqZ outpos (endpos - outpos)) item);
    if collide : bool then mret (out, left, out2) else
    '(no_leaf, out2) ← (if i_recurse_to_leaf a then
        v ← lift (need NullPointer out2);
        if bool_decide (item < 0) then
          b' ← lift (bucket_at map (-1 - item));
          '(v, _) ← recurse (mkIndep (i_numrep a) 0 (i_recurse_tries a) 0 false) b' 1 v rep None r;
          leaf ← lift (value_at v rep);
          mret (bool_decide (leaf = CRUSH_ITEM_NONE), Some v)
        else v ← lift (store_at v rep (Some item)); mret (false, Some v)
      else mret (false, out2));
    if no_leaf : bool then mret (out, left, out2) else
    out_of_cluster ← (if bool_decide (itemtype = 0) then lift (is_out wgt item x) else mret false);
    if out_of_cluster : bool then mret (out, left, out2) else
    out ← lift (store_at out rep (Some item));
    mret (out, left - 1, out2)
  end.

(** One attempt for all positions that are not filled. *)
Definition indep_round
    (recurse : indep_args → crush_bucket → Z → vector → Z → option vector → Z → crush (vector * option vector))
    (a : indep_args) (bucket : crush_bucket) (outpos endpos parent_r ftotal : Z)
    (st : vector * Z * option vector) : crush (vector * Z * option vector) :=
  foldC (λ '(out, left, out2) rep,
    v ← lift (value_at out rep);
    if bool_decide (v ≠ CRUSH_ITEM_UNDEF) then mret (out, left, out2)
    else indep_descend fuel recurse a bucket outpos endpos rep parent_r ftotal out left out2)
    st (seqZ outpos (endpos - outpos)).

Fixpoint indep_rounds (n : nat)
    (recurse : indep_args → crush_bucket → Z → vector → Z → option vector → Z → crush (vector * option vector))
    (a : indep_args) (bucket : crush_bucket) (outpos endpos parent_r ftotal : Z)
    (st : vector * Z * option vector) : crush (vector * option vector) :=
  let '(out, left, out2) := st in
  match n with
  | O => mret (out, out2)
  | S n =>
    if bool_decide (left ≤ 0) then mret (out, out2) else
    st ← indep_round recurse a bucket outpos endpos parent_r ftotal st;
    indep_rounds n recurse a bucket outpos endpos parent_r (ftotal + 1) st
  end.

Definition undef_to_none (v : vector) (rep : Z) : outcome vector :=
  e ← value_at v rep;
  if bool_decide (e = CRUSH_ITEM_UNDEF) then store_at v rep (Some CRUSH_ITEM_NONE) else Ret v.

Fixpoint crush_choose_indep (depth : nat) (a : indep_args) (bucket : crush_bucket) (left : Z)
    (out : vector) (outpos : Z) (out2 : option vector) (parent_r : Z) : crush (vector * option vector) :=
  match depth with
  | O => lift (Abort StackOverflow)
  | S depth =>
    let positions := seqZ outpos left in
    let endpos := outpos + left in
    '(out, out2) ← lift (foldM (λ '(out, out2) rep, store_both out out2 rep CRUSH_ITEM_UNDEF) (out, out2) positions);
    '(out, out2) ← indep_rounds (Z.to_nat (i_tries a)) (crush_choose_indep depth) a bucket outpos endpos parent_r 0 (out, left, out2);
    lift (foldM (λ '(out, out2) rep,
      out ← undef_to_none out rep;
      match out2 with
      | None => Ret (out, None)
      | Some v => v ← undef_to_none v rep; Ret (out, Some v)
      end) (out, out2) positions)
  end.

End choose.

(** ** Rules *)

Definition crush_init_workspace (map : crush_map) : crush_work :=
  fmap (M := option) (λ b, mkWorkBucket 0 0 (replicate (length (items b)) None)) <$> buckets map.

Definition CRUSH_RULE_SET_CHOOSE_LOCAL_TRIES : Z := 10.
Definition CRUSH_RULE_SET_CHOOSE_LOCAL_FALLBACK_TRIES : Z := 11.
Definition CRUSH_RULE_SET_CHOOSELEAF_VARY_R : Z := 12.
Definition CRUSH_RULE_SET_CHOOSELEAF_STABLE : Z := 13.

Definition crush_find_rule (map : crush_map) (ruleset type size : Z) : Z :=
  let fits r := match r with
    | None => false
    | Some r => bool_decide (mask_ruleset (rule_mask r) = ruleset ∧ mask_type (rule_mask r) = type
        ∧ mask_min_size (rule_mask r) ≤ size ∧ size ≤ mask_max_size (rule_mask r))
    end in
  match list_find (λ r, fits r = true) (map_rules map) with Some (i, _) => Z.of_nat i | None => -1 end.

(** The variables of [crush_do_rule]: the working vector and its size, the
    output and leaf vectors, the result, and the tunables. *)
Record rule_state := mkState {
  s_w : vector;
  s_wsize : Z;
  s_o : vector;
  s_c : vector;
  s_result : list Z;
  s_choose_tries : Z;
  s_choose_leaf_tries : Z;
  s_local_retries : Z;
  s_local_fallback_retries : Z;
  s_vary_r : Z;
  s_stable : Z;
}.

Definition with_vectors (s : rule_state) (w : vector) (wsize : Z) (o c : vector) : rule_state :=
  mkState w wsize o c (s_result s) (s_choose_tries s) (s_choose_leaf_tries s) (s_local_retries s)
    (s_local_fallback_retries s) (s_vary_r s) (s_stable s).

Section rule.
Context (map : crush_map) (wgt : list Z) (x : Z) (choose_args : option (list crush_choose_arg)).
Context (fuel : nat) (result_max : Z).

(** One bucket of the working vector: [o], [c] and [osize]. *)
Definition choose_from (s : rule_state) (step : crush_rule_step) (firstn recurse_to_leaf : bool) (i : Z)
    (st : vector * vector * Z) : crush (vector * vector * Z) :=
  let '(o, c, osize) := st in
  numrep ← lift (if bool_decide (arg1 step ≤ 0) then add_int (arg1 step) result_max else Ret (arg1 step));
  if bool_decide (numrep ≤ 0) then mret (o, c, osize) else
  wi ← lift (value_at (s_w s) i);
  let bno := -1 - wi in
  if bool_decide (bno < 0 ∨ max_buckets map ≤ bno) then mret (o, c, osize) else
  b ← lift (bucket_at map bno);
  let n := Z.to_nat osize in
  if firstn then
    let recurse_tries :=
      if bool_decide (s_choose_leaf_tries s ≠ 0) then s_choose_leaf_tries s
      else if bool_decide (chooseleaf_descend_once map ≠ 0) then 1 else s_choose_tries s in
    let a := mkFirstn numrep (arg2 step) (u32 (s_choose_tries s)) (u32 recurse_tries) (u32 (s_local_retries s))
      (u32 (s_local_fallback_retries s)) recurse_to_leaf (u32 (s_vary_r s)) (u32 (s_stable s)) in
    '(got, o', c') ← crush_choose_firstn map wgt x choose_args fuel 2 a b (drop n o) 0 (result_max - osize) (Some (drop n c)) 0;
    mret (take n o ++ o', take n c ++ default [] c', osize + got)
  else
    let out_size := if bool_decide (numrep < result_max - osize) then numrep else result_max - osize in
    let a := mkIndep numrep (arg2 step) (u32 (s_choose_tries s))
      (if bool_decide (s_choose_leaf_tries s ≠ 0) then u32 (s_choose_leaf_tries s) else 1) recurse_to_leaf in
    '(o', c') ← crush_choose_indep map wgt x choose_args fuel 2 a b out_size (drop n o) 0 (Some (drop n c)) 0;
    mret (take n o ++ o', take n c ++ default [] c', osize + out_size).

Definition choose_step (s : rule_state) (step : crush_rule_step) (firstn recurse_to_leaf : bool) : crush rule_state :=
  if bool_decide (s_wsize s = 0) then mret s else
  '(o, c, osize) ← foldC (λ st i, choose_from s step firstn recurse_to_leaf i st) (s_o s, s_c s, 0) (seqZ 0 (s_wsize s));
  let o := if recurse_to_leaf then take (Z.to_nat osize) c ++ drop (Z.to_nat osize) o else o in
  mret (with_vectors s o osize (s_w s) c).

Definition take_step (s : rule_state) (arg1 : Z) : outcome rule_state :=
  if bool_decide (0 ≤ arg1 < max_devices map
      ∨ 0 ≤ -1 - arg1 < max_buckets map ∧ is_Some (mjoin (buckets map !! Z.to_nat (-1 - arg1)))) then
    w ← store_at (s_w s) 0 (Some arg1);
    Ret (with_vectors s w 1 (s_o s) (s_c s))
  else Ret s.

(** The values that fit into the result. *)
Definition emit_step (s : rule_state) : outcome rule_state :=
  let n := Z.min (s_wsize s) (result_max - Z.of_nat (length (s_result s))) in
  result ← foldM (λ result i, v ← value_at (s_w s) i; Ret (result ++ [v])) (s_result s) (seqZ 0 n);
  Ret (mkState (s_w s) 0 (s_o s) (s_c s) result (s_choose_tries s) (s_choose_leaf_tries s) (s_local_retries s)
    (s_local_fallback_retries s) (s_vary_r s) (s_stable s)).

Definition set_tunables (s : rule_state) (tries leaf_tries local fallback vary_r stable : Z) : rule_state :=
  mkState (s_w s) (s_wsize s) (s_o s) (s_c s) (s_result s) tries leaf_tries local fallback vary_r stable.

Definition do_step (s : rule_state) (step : crush_rule_step) : crush rule_state :=
  let '(mkState w wsize o c result tries leaf_tries local fallback vary_r stable) := s in
  let a := arg1 step in
  if bool_decide (op step = CRUSH_RULE_TAKE) then lift (take_step s a)
  else if bool_decide (op step = CRUSH_RULE_SET_CHOOSE_TRIES) then
    mret (if bool_decide (0 < a) then set_tunables s a leaf_tries local fallback vary_r stable else s)
  else if bool_decide (op step = CRUSH_RULE_SET_CHOOSELEAF_TRIES) then
    mret (if bool_decide (0 < a) then set_tunables s tries a local fallback vary_r stable else s)
  else if bool_decide (op step = CRUSH_RULE_SET_CHOOSE_LOCAL_TRIES) then
    mret (if bool_decide (0 ≤ a) then set_tunables s tries leaf_tries a fallback vary_r stable else s)
  else if bool_decide (op step = CRUSH_RULE_SET_CHOOSE_LOCAL_FALLBACK_TRIES) then
    mret (if bool_decide (0 ≤ a) then set_tunables s tries leaf_tries local a vary_r stable else s)
  else if bool_decide (op step = CRUSH_RULE_SET_CHOOSELEAF_VARY_R) then
    mret (if bool_decide (0 ≤ a) then set_tunables s tries leaf_tries local fallback a stable else s)
  else if bool_decide (op step = CRUSH_RULE_SET_CHOOSELEAF_STABLE) then
    mret (if bool_decide (0 ≤ a) then set_tunables s tries leaf_tries local fallback vary_r a else s)
  else if bool_decide (op step = CRUSH_RULE_CHOOSELEAF_FIRSTN) then choose_step s step true true
  else if bool_decide (op step = CRUSH_RULE_CHOOSE_FIRSTN) then choose_step s step true false
  else if bool_decide (op step = CRUSH_RULE_CHOOSELEAF_INDEP) then choose_step s step false true
  else if bool_decide (op step = CRUSH_RULE_CHOOSE_INDEP) then choose_step s step false false
  else if bool_decide (op step = CRUSH_RULE_EMIT) then lift (emit_step s)
  else mret s.

Definition initial_state : rule_state :=
  let v := replicate (Z.to_nat result_max) None in
  mkState v 0 v v [] (s32 (choose_total_tries map + 1)) 0 (s32 (choose_local_tries map))
    (s32 (choose_local_fallback_tries map)) (chooseleaf_vary_r map) (chooseleaf_stable map).

(** The result is the list of the first [result_len] entries of [result]. *)
Definition crush_do_rule (ruleno : Z) : crush (list Z) :=
  if bool_decide (max_rules map ≤ u32 ruleno) then mret [] else
  p ← lift (at_index (map_rules map) ruleno);
  rule ← lift (need NullPointer p);
  s ← foldC (λ s i, step ← lift (value_at (rule_steps rule) i); do_step s step) initial_state (seqZ 0 (rule_len rule));
  mret (s_result s).

End rule.

End Mapper.
