(* ===== verification/CrushPerm.v ===== *)
(** * The permutations of CRUSH

    [bucket_perm_choose] keeps in the working store as much of a permutation
    of the bucket as it has needed so far, with a shortcut for the first
    element. Here the permutation as a function of the bucket and the input,
    and the proof that the store does not show: whatever was asked before, the
    answer is the element of that permutation. *)

From S2P Require Import Prelude CrushRules CrushHash CrushMap CrushMapper.

Import Crush Mapper.

(** ** Arrays *)

Lemma at_index_ok {A} (l : list A) (i : Z) v : 0 ≤ i → l !! Z.to_nat i = Some v → at_index l i = Ret v.
Proof. intros Hi Hl. unfold at_index. rewrite bool_decide_false by lia. by rewrite Hl. Qed.

Lemma at_index_lt {A} (l : list A) (i : Z) :
  0 ≤ i < Z.of_nat (length l) → ∃ v, l !! Z.to_nat i = Some v ∧ at_index l i = Ret v.
Proof.
  intros Hi. destruct (lookup_lt_is_Some_2 l (Z.to_nat i)) as [v Hv]; [lia|].
  exists v. split; [done|]. apply at_index_ok; [lia|done].
Qed.

Lemma store_at_ok {A} (l : list A) (i : Z) v :
  0 ≤ i < Z.of_nat (length l) → store_at l i v = Ret (<[Z.to_nat i := v]> l).
Proof. intros Hi. unfold store_at. destruct (at_index_lt l i Hi) as (u & _ & ->). done. Qed.

Lemma value_at_ok {A} (l : list (option A)) (i : Z) v : 0 ≤ i → l !! Z.to_nat i = Some (Some v) → value_at l i = Ret v.
Proof. intros Hi Hl. unfold value_at. by rewrite (at_index_ok l i (Some v)). Qed.

(** ** The permutation *)

Definition swapped (l : list Z) (i j : nat) : list Z :=
  match l !! i, l !! j with Some u, Some t => <[i := t]> (<[j := u]> l) | _, _ => l end.

Definition pure_step (b : crush_bucket) (x : Z) (l : list Z) (p : Z) : list Z :=
  if bool_decide (p < size b - 1) then
    swapped l (Z.to_nat p) (Z.to_nat (p + crush_hash32_3 (hash b) x (id b) p mod (size b - p)))
  else l.

(** The permutation after [n] rounds, and when it is complete. *)
Definition perm_upto (b : crush_bucket) (x n : Z) : list Z := foldl (pure_step b x) (seqZ 0 (size b)) (seqZ 0 n).
Definition bucket_perm (b : crush_bucket) (x : Z) : list Z := perm_upto b x (size b).

Lemma length_swapped l i j : length (swapped l i j) = length l.
Proof. unfold swapped. destruct (l !! i), (l !! j); by rewrite ?length_insert. Qed.

Lemma swapped_perm l i j : swapped l i j ≡ₚ l.
Proof.
  unfold swapped. destruct (l !! i) as [u|] eqn:Hi; [|done]. destruct (l !! j) as [t|] eqn:Hj; [|done].
  destruct (decide (i = j)) as [<-|Hne].
  - rewrite list_insert_insert_eq, Hi in *. injection Hj as <-. by rewrite list_insert_id.
  - apply Permutation_inj. split; [by rewrite !length_insert|].
    exists (λ k, if decide (k = i) then j else if decide (k = j) then i else k). split.
    + intros k1 k2 E. repeat case_decide; congruence.
    + intros k. repeat case_decide; subst; try congruence.
      * rewrite Hj. rewrite list_lookup_insert_eq; [done|]. rewrite length_insert. by eapply lookup_lt_Some.
      * rewrite Hi. rewrite list_lookup_insert_ne by done. rewrite list_lookup_insert_eq; [done|]. by eapply lookup_lt_Some.
      * by rewrite !list_lookup_insert_ne.
Qed.

Lemma swapped_same l i : swapped l i i = l.
Proof.
  unfold swapped. destruct (l !! i) as [u|] eqn:Hi; [|done]. by rewrite list_insert_insert_eq, list_insert_id.
Qed.

Lemma lookup_swapped_lt l i j (q : nat) : (q < i)%nat → (i ≤ j)%nat → swapped l i j !! q = l !! q.
Proof.
  intros Hq Hij. unfold swapped. destruct (l !! i), (l !! j); try done. by rewrite !list_lookup_insert_ne by lia.
Qed.

Section perm.
Context (b : crush_bucket) (Hsize : 0 < size b < 0xffff).

Lemma size_length : size b = Z.of_nat (length (items b)).
Proof. done. Qed.

Lemma length_pure_step x l p : length (pure_step b x l p) = length l.
Proof. unfold pure_step. case_bool_decide; [apply length_swapped|done]. Qed.

Lemma length_perm_upto x n : length (perm_upto b x n) = length (items b).
Proof.
  unfold perm_upto. assert (length (seqZ 0 (size b)) = length (items b)) as Hl by (rewrite length_seqZ; unfold size; lia).
  revert Hl. generalize (seqZ 0 (size b)). induction (seqZ 0 n) as [|p ps IH]; intros l Hl; [done|].
  cbn. apply IH. by rewrite length_pure_step.
Qed.

Lemma perm_upto_perm x n : perm_upto b x n ≡ₚ seqZ 0 (size b).
Proof.
  unfold perm_upto. generalize (seqZ 0 (size b)). induction (seqZ 0 n) as [|p ps IH]; intros l; [done|].
  cbn. rewrite IH. unfold pure_step. case_bool_decide; [apply swapped_perm|done].
Qed.

Lemma perm_upto_S x n : 0 ≤ n → perm_upto b x (n + 1) = pure_step b x (perm_upto b x n) n.
Proof. intros Hn. unfold perm_upto. rewrite seqZ_app_snoc by lia. by rewrite foldl_app. Qed.

Lemma perm_swap_bound x p : 0 ≤ p < size b - 1 → 0 ≤ crush_hash32_3 (hash b) x (id b) p mod (size b - p) < size b - p.
Proof. intros Hp. apply Z.mod_pos_bound. lia. Qed.

Lemma lookup_perm_stable x n m (q : nat) :
  0 ≤ n ≤ m → Z.of_nat q < n → perm_upto b x m !! q = perm_upto b x n !! q.
Proof.
  intros [Hn Hm] Hq. replace m with (n + (m - n)) by lia. generalize (m - n) (Zle_minus_le_0 _ _ Hm). clear m Hm.
  apply natlike_ind; [by rewrite Z.add_0_r|]. intros d Hd IH. rewrite <-Z.add_1_r, Z.add_assoc, perm_upto_S by lia.
  rewrite <-IH. unfold pure_step. case_bool_decide as Hlt; [|done].
  pose proof (perm_swap_bound x (n + d) ltac:(lia)). apply lookup_swapped_lt; lia.
Qed.

(** The value at a position of the permutation. *)
Definition perm_at (x pr : Z) : Z := default 0 (bucket_perm b x !! Z.to_nat pr).

Lemma lookup_perm_upto x n pr :
  0 ≤ pr < n → n ≤ size b → perm_upto b x n !! Z.to_nat pr = Some (perm_at x pr) ∧ 0 ≤ perm_at x pr < size b.
Proof.
  intros Hpr Hn. assert (is_Some (bucket_perm b x !! Z.to_nat pr)) as [v Hv].
  { apply lookup_lt_is_Some_2. unfold bucket_perm. rewrite length_perm_upto. unfold size in *. lia. }
  unfold perm_at. rewrite Hv. cbn. split.
  - rewrite <-Hv. unfold bucket_perm. symmetry. apply lookup_perm_stable; lia.
  - apply list_elem_of_lookup_2 in Hv. unfold bucket_perm in Hv. rewrite perm_upto_perm, elem_of_seqZ_range in Hv. lia.
Qed.

(** ** The working store *)

(** The three states of the store of a bucket: nothing, the first element
    only, or the permutation after some rounds. *)
Definition work_bucket_ok (wb : crush_work_bucket) : Prop :=
  length (perm wb) = length (items b)
  ∧ (perm_n wb = 0
     ∨ perm_n wb = 0xffff ∧ perm wb !! 0%nat = Some (Some (crush_hash32_3 (hash b) (perm_x wb) (id b) 0 mod size b))
     ∨ 0 < perm_n wb ≤ size b ∧ perm wb = Some <$> perm_upto b (perm_x wb) (perm_n wb)).

Lemma hash3_u32 t x y z : crush_hash32_3 t (u32 x) y z = crush_hash32_3 t x y z.
Proof. unfold crush_hash32_3. by rewrite (u32_small (u32 x)) by apply u32_range. Qed.

Lemma perm_upto_u32 x n : perm_upto b (u32 x) n = perm_upto b x n.
Proof.
  unfold perm_upto. generalize (seqZ 0 (size b)). induction (seqZ 0 n) as [|p ps IH]; intros l; [done|].
  cbn. rewrite <-IH. f_equal. unfold pure_step. by rewrite hash3_u32.
Qed.

Lemma swap_spec l (i j : Z) :
  0 ≤ i < Z.of_nat (length l) → 0 ≤ j < Z.of_nat (length l) →
  swap (Some <$> l) i j = Ret (Some <$> swapped l (Z.to_nat i) (Z.to_nat j)).
Proof.
  intros Hi Hj. destruct (at_index_lt l i Hi) as (u & Hu & _). destruct (at_index_lt l j Hj) as (t & Ht & _).
  unfold swap. rewrite (at_index_ok _ j (Some t)) by (lia || by rewrite list_lookup_fmap, Ht). cbn [mbind outcome_bind].
  rewrite (at_index_ok _ i (Some u)) by (lia || by rewrite list_lookup_fmap, Hu). cbn [mbind outcome_bind].
  rewrite store_at_ok by (by rewrite length_fmap). cbn [mbind outcome_bind].
  rewrite store_at_ok by (by rewrite length_insert, length_fmap).
  unfold swapped. by rewrite Hu, Ht, !list_fmap_insert.
Qed.

Lemma perm_step_spec x l p :
  length l = length (items b) → 0 ≤ p < size b → perm_step b x (Some <$> l) p = Ret (Some <$> pure_step b x l p).
Proof.
  intros Hl Hp. unfold perm_step, pure_step. rewrite u32_small by lia. case_bool_decide as Hlt; [|done].
  pose proof (perm_swap_bound x p ltac:(lia)) as Hb. cbv zeta. case_bool_decide as Hi.
  - apply swap_spec; unfold size in *; lia.
  - rewrite Hi, Z.add_0_r, swapped_same. done.
Qed.

Lemma perm_steps_spec x n pr :
  0 ≤ n ≤ size b → 0 ≤ pr < size b →
  foldM (perm_step b x) (Some <$> perm_upto b x n) (seqZ n (pr + 1 - n)) = Ret (Some <$> perm_upto b x (Z.max n (pr + 1))).
Proof.
  intros Hn Hpr.
  destruct (foldM_inv (perm_step b x) (λ l v, v = Some <$> perm_upto b x (n + Z.of_nat (length l)))
    (seqZ n (pr + 1 - n)) (Some <$> perm_upto b x n)) as (v & -> & ->).
  - cbn. by rewrite Z.add_0_r.
  - intros l1 p l2 v Hl ->. assert (p = n + Z.of_nat (length l1) ∧ p < pr + 1) as [-> Hlt].
    { assert (seqZ n (pr + 1 - n) !! length l1 = Some p) as Hp by (rewrite Hl; by apply list_lookup_middle).
      apply lookup_seqZ in Hp. lia. }
    eexists. split; [apply perm_step_spec; [apply length_perm_upto|lia]|].
    rewrite length_app. cbn. rewrite Nat2Z.inj_add, Z.add_assoc. by rewrite perm_upto_S by lia.
  - rewrite length_seqZ. do 3 f_equal. lia.
Qed.

Lemma identity_from_spec start l :
  length l = length (items b) → 0 ≤ start → start ≤ size b →
  identity_from start b l = Ret (take (Z.to_nat start) l ++ (Some <$> seqZ start (size b - start))).
Proof.
  intros Hl Hs Hsz. unfold identity_from.
  destruct (foldM_inv (λ perm i, store_at perm i (Some i))
    (λ l1 v, v = take (Z.to_nat start) l ++ (Some <$> seqZ start (Z.of_nat (length l1))) ++ drop (Z.to_nat start + length l1) l)
    (seqZ start (size b - start)) l) as (v & -> & ->).
  - cbn [length]. rewrite Nat.add_0_r. symmetry. apply take_drop.
  - intros l1 p l2 v Hl1 ->. assert (p = start + Z.of_nat (length l1) ∧ p < size b) as [-> Hlt].
    { assert (seqZ start (size b - start) !! length l1 = Some p) as Hp by (rewrite Hl1; by apply list_lookup_middle).
      apply lookup_seqZ in Hp. lia. }
    assert (Z.to_nat start + length l1 < length l)%nat as Hlen by (unfold size in *; lia).
    eexists. split; [apply store_at_ok; rewrite !length_app, length_fmap, length_take, length_drop, length_seqZ; lia|].
    rewrite insert_app_r_alt by (rewrite length_take; lia). rewrite length_take_le by lia.
    rewrite insert_app_r_alt by (rewrite length_fmap, length_seqZ; lia). rewrite length_fmap, length_seqZ, length_app. cbn [length].
    rewrite Nat2Z.inj_add, seqZ_app by lia. rewrite fmap_app, <-app_assoc. f_equal. f_equal.
    replace (Z.to_nat (start + Z.of_nat (length l1)) - Z.to_nat start - Z.to_nat (Z.of_nat (length l1)))%nat with 0%nat by lia.
    destruct (drop (Z.to_nat start + length l1) l) as [|y ys] eqn:Hd.
    { apply (f_equal length) in Hd. rewrite length_drop in Hd. cbn in Hd. lia. }
    cbn. f_equal. replace (Z.to_nat start + (length l1 + 1))%nat with (Z.to_nat start + length l1 + 1)%nat by lia.
    rewrite <-drop_drop, Hd. done.
  - rewrite length_seqZ, Z2Nat.id by lia. rewrite drop_ge by (unfold size in *; lia). by rewrite app_nil_r.
Qed.

(** The item that a permutation gives for a replica. *)
Definition perm_item (x r : Z) : Z := default 0 (items b !! Z.to_nat (perm_at x (u32 r mod size b))).

Lemma perm_at_0 x : perm_at x 0 = crush_hash32_3 (hash b) x (id b) 0 mod size b.
Proof.
  destruct (lookup_perm_upto x 1 0) as [H0 _]; [lia|lia|]. change 1 with (0 + 1) in H0. rewrite perm_upto_S in H0 by lia.
  change (perm_upto b x 0) with (seqZ 0 (size b)) in H0. unfold pure_step in H0. rewrite Z.sub_0_r in H0.
  set (s := crush_hash32_3 (hash b) x (id b) 0 mod size b) in *. assert (0 ≤ s < size b) as Hs by (apply Z.mod_pos_bound; lia).
  assert (∀ i, 0 ≤ i < size b → seqZ 0 (size b) !! Z.to_nat i = Some i) as Hid by (intros i Hi; apply lookup_seqZ; lia).
  case_bool_decide as Hlt.
  - unfold swapped in H0. rewrite (Hid 0), Z.add_0_l, (Hid s) in H0 by lia.
    rewrite list_lookup_insert_eq in H0 by (rewrite length_insert, length_seqZ; lia). by injection H0.
  - rewrite (Hid 0) in H0 by lia. injection H0 as <-. lia.
Qed.

Lemma item_at x pr : 0 ≤ pr < size b → at_index (items b) (perm_at x pr) = Ret (default 0 (items b !! Z.to_nat (perm_at x pr))).
Proof.
  intros Hpr. destruct (lookup_perm_upto x (size b) pr) as [_ Hs]; [lia|lia|].
  destruct (at_index_lt (items b) (perm_at x pr)) as (v & Hv & ->); [done|]. by rewrite Hv.
Qed.

(** What [bucket_perm_choose] does from a number of rounds on. *)
Lemma perm_finish_spec x n pr :
  0 ≤ n ≤ size b → 0 ≤ pr < size b →
  (perm ← foldM (perm_step b x) (Some <$> perm_upto b x n) (seqZ n (pr + 1 - n));
   s ← value_at perm pr;
   item ← at_index (items b) s;
   Ret (item, mkWorkBucket (u32 x) (Z.max n (pr + 1)) perm))
  = Ret (default 0 (items b !! Z.to_nat (perm_at x pr)),
         mkWorkBucket (u32 x) (Z.max n (pr + 1)) (Some <$> perm_upto b x (Z.max n (pr + 1)))).
Proof.
  intros Hn Hpr. rewrite perm_steps_spec by done. cbn [mbind outcome_bind].
  destruct (lookup_perm_upto x (Z.max n (pr + 1)) pr) as [Hv _]; [lia|lia|].
  rewrite (value_at_ok _ pr (perm_at x pr)) by (lia || by rewrite list_lookup_fmap, Hv). cbn [mbind outcome_bind].
  by rewrite item_at.
Qed.

Lemma started_perm x (s : Z) :
  s = crush_hash32_3 (hash b) x (id b) 0 mod size b →
  <[Z.to_nat s := Some 0]> (Some s :: (Some <$> seqZ 1 (size b - 1))) = Some <$> perm_upto b x 1.
Proof.
  intros Hs. assert (0 ≤ s < size b) as Hr by (subst s; apply Z.mod_pos_bound; lia).
  change 1 with (0 + 1) at 3. rewrite perm_upto_S by lia. change (perm_upto b x 0) with (seqZ 0 (size b)). unfold pure_step.
  rewrite Z.sub_0_r, Z.add_0_l, <-Hs.
  assert (seqZ 0 (size b) = 0 :: seqZ 1 (size b - 1)) as Hseq by (rewrite seqZ_cons by lia; f_equal; f_equal; lia).
  assert (seqZ 0 (size b) !! Z.to_nat s = Some s) as Hls by (apply lookup_seqZ; lia).
  case_bool_decide as Hlt.
  - unfold swapped. rewrite Hls, Hseq. change (Z.to_nat 0) with 0%nat. cbn [lookup list_lookup]. destruct (Z.to_nat s) as [|i] eqn:Hi.
    + assert (s = 0) as -> by lia. done.
    + rewrite !list_fmap_insert. done.
  - assert (size b = 1) as H1 by lia. assert (s = 0) as -> by lia. by rewrite H1.
Qed.

Theorem bucket_perm_choose_spec wb x r :
  work_bucket_ok wb →
  ∃ wb', bucket_perm_choose b wb x r = Ret (perm_item x r, wb') ∧ work_bucket_ok wb'.
Proof.
  intros (Hlen & Hst). unfold bucket_perm_choose. rewrite (bool_decide_false (size b = 0)) by lia.
  unfold perm_item. set (pr := u32 r mod size b). assert (0 ≤ pr < size b) as Hpr by (apply Z.mod_pos_bound; lia).
  assert (∀ n, 0 ≤ n ≤ size b → work_bucket_ok (mkWorkBucket (u32 x) (Z.max n (pr + 1)) (Some <$> perm_upto b x (Z.max n (pr + 1))))) as Hok.
  { intros n Hn. split; [cbn; by rewrite length_fmap, length_perm_upto|]. right. right. cbn.
    split; [lia|]. by rewrite perm_upto_u32. }
  assert (0 < length (items b))%nat as Hpos by (unfold size in *; lia).
  cbv zeta. case_bool_decide as Hnew.
  - case_bool_decide as Hpr0.
    + rewrite store_at_ok by lia. cbn [mbind outcome_bind]. rewrite Hpr0, <-perm_at_0, item_at by lia. cbn [mbind outcome_bind].
      eexists. split; [reflexivity|]. split; [cbn; by rewrite length_insert|]. right. left. cbn. split; [done|].
      rewrite hash3_u32, <-perm_at_0. apply list_lookup_insert_eq. lia.
    + rewrite identity_from_spec by (done || lia). cbn [mbind outcome_bind].
      rewrite Z.sub_0_r. change (take (Z.to_nat 0) (perm wb)) with (@nil (option Z)). cbn [app].
      change (seqZ 0 (size b)) with (perm_upto b x 0). rewrite perm_finish_spec by lia. eexists. split; [reflexivity|]. apply Hok. lia.
  - apply Decidable.not_or in Hnew as [Hx Hn0]. apply dec_stable in Hx.
    destruct Hst as [|[[Hn Hp0]|[Hn Hp]]]; [done|..].
    + rewrite bool_decide_true by done. rewrite identity_from_spec by (done || lia). cbn [mbind outcome_bind].
      destruct (perm wb) as [|p0 ps] eqn:Hps; [cbn in Hlen; lia|]. cbn in Hp0. injection Hp0 as ->.
      change (take (Z.to_nat 1) (Some ?s :: ps)) with [Some s]. cbn [app].
      rewrite Hx, hash3_u32. set (s := crush_hash32_3 (hash b) x (id b) 0 mod size b).
      assert (0 ≤ s < size b) as Hs by (apply Z.mod_pos_bound; lia).
      rewrite (value_at_ok _ 0 s) by (lia || done). cbn [mbind outcome_bind].
      rewrite store_at_ok by (cbn; rewrite length_fmap, length_seqZ; lia). cbn [mbind outcome_bind].
      rewrite (started_perm x) by done. rewrite perm_finish_spec by lia. eexists. split; [reflexivity|]. apply Hok. lia.
    + rewrite (bool_decide_false (perm_n wb = _)) by lia. rewrite Hp, Hx, perm_upto_u32, perm_finish_spec by lia.
      eexists. split; [reflexivity|]. apply Hok. lia.
Qed.

Lemma perm_item_in x r : perm_item x r ∈ items b.
Proof.
  unfold perm_item. assert (0 ≤ u32 r mod size b < size b) as Hpr by (apply Z.mod_pos_bound; lia).
  destruct (lookup_perm_upto x (size b) (u32 r mod size b)) as [_ Hs]; [lia|lia|].
  destruct (at_index_lt (items b) (perm_at x (u32 r mod size b))) as (v & Hv & _); [done|]. rewrite Hv. by eapply list_elem_of_lookup_2.
Qed.

End perm.
