(* ===== verification/CrushLn.v ===== *)
(** * The logarithm of CRUSH

    [crush_ln] of src/src/crush/mapper.c: it reads within its tables, it is
    monotone up to its last argument, and stays below 2^48. *)

From S2P Require Import Prelude CrushRules CrushTables CrushHash CrushMap CrushMapper CrushPerm.

Import Crush Mapper.

(** ** Segments

    A normalised argument is in [2^15, 2^16); its upper byte selects a segment
    of 256 arguments, with one pair of entries of the first table. *)

Definition RH (k : Z) : Z := default 0 (RH_LH_tbl !! Z.to_nat (2 * k)).
Definition LH (k : Z) : Z := default 0 (RH_LH_tbl !! Z.to_nat (2 * k + 1)).
Definition LL (j : Z) : Z := default 0 (LL_tbl !! Z.to_nat j).
Definition segment (X : Z) : Z := Z.shiftr X 8 - 128.
Definition fraction (X : Z) : Z := Z.shiftr (X * RH (segment X)) 48 - 2 ^ 15.
Definition ln_part (X : Z) : Z := LH (segment X) + LL (fraction X).

Definition first_of (k : Z) : Z := (128 + k) * 256.

(** What the tables have to satisfy at the ends of the segments. *)
Definition segment_ok (k : Z) : bool :=
  (0 <=? RH k) && (RH k <=? 2 ^ 48)
  && (2 ^ 15 <=? Z.shiftr (first_of k * RH k) 48)
  && (Z.shiftr ((first_of k + 255) * RH k) 48 <? 2 ^ 15 + 256)
  && (0 <=? LH k)
  && (ln_part (first_of k + 255) <=? (if k =? 127 then 2 ^ 48 else ln_part (first_of (k + 1)))).

Lemma segments_ok : forallb segment_ok (seqZ 0 128) = true.
Proof. by vm_compute. Qed.

Lemma LL_monotone_step : forallb (λ j, LL j <=? LL (j + 1)) (seqZ 0 255) = true.
Proof. by vm_compute. Qed.

Lemma LL_mono i j : 0 ≤ i ≤ j → j ≤ 255 → LL i ≤ LL j.
Proof.
  intros [Hi Hj]. replace j with (i + (j - i)) by lia. generalize (j - i) (Zle_minus_le_0 _ _ Hj). clear j Hj.
  apply (natlike_ind (λ d, i + d ≤ 255 → LL i ≤ LL (i + d))); [by rewrite Z.add_0_r|].
  intros d Hd IH Hle. transitivity (LL (i + d)); [apply IH; lia|].
  pose proof LL_monotone_step as Hstep. rewrite forallb_forall in Hstep.
  replace (i + Z.succ d) with (i + d + 1) by lia. apply Z.leb_le, Hstep, list_elem_of_In, elem_of_seqZ_range. lia.
Qed.

Lemma segment_facts k :
  0 ≤ k < 128 →
  0 ≤ RH k ≤ 2 ^ 48 ∧ 2 ^ 15 ≤ Z.shiftr (first_of k * RH k) 48 ∧ Z.shiftr ((first_of k + 255) * RH k) 48 < 2 ^ 15 + 256
  ∧ 0 ≤ LH k ∧ ln_part (first_of k + 255) ≤ (if k =? 127 then 2 ^ 48 else ln_part (first_of (k + 1))).
Proof.
  intros Hk. pose proof segments_ok as H. rewrite forallb_forall in H. specialize (H k).
  rewrite <-list_elem_of_In, elem_of_seqZ_range in H. specialize (H Hk). unfold segment_ok in H.
  rewrite !andb_true_iff, !Z.leb_le, Z.ltb_lt in H. intuition.
Qed.

Lemma segment_range X : 2 ^ 15 ≤ X < 2 ^ 16 → 0 ≤ segment X < 128 ∧ first_of (segment X) ≤ X ≤ first_of (segment X) + 255.
Proof.
  intros HX. unfold segment, first_of. rewrite Z.shiftr_div_pow2 by lia.
  pose proof (Z.div_mod X (2 ^ 8) ltac:(lia)). pose proof (Z.mod_pos_bound X (2 ^ 8) ltac:(lia)). lia.
Qed.

Lemma shiftr_mono a b n : 0 ≤ n → a ≤ b → Z.shiftr a n ≤ Z.shiftr b n.
Proof. intros Hn Hab. rewrite !Z.shiftr_div_pow2 by done. apply Z.div_le_mono; [apply Z.pow_pos_nonneg; lia|done]. Qed.

Lemma fraction_range X : 2 ^ 15 ≤ X < 2 ^ 16 → 0 ≤ fraction X < 256.
Proof.
  intros HX. destruct (segment_range X HX) as [Hk Hx]. destruct (segment_facts _ Hk) as (HR & Hlo & Hhi & _).
  unfold fraction. pose proof (shiftr_mono (first_of (segment X) * RH (segment X)) (X * RH (segment X)) 48 ltac:(lia) ltac:(nia)).
  pose proof (shiftr_mono (X * RH (segment X)) ((first_of (segment X) + 255) * RH (segment X)) 48 ltac:(lia) ltac:(nia)). lia.
Qed.

Lemma segment_same k X : 0 ≤ k → first_of k ≤ X ≤ first_of k + 255 → segment X = k.
Proof.
  intros Hk HX. unfold segment, first_of in *. rewrite Z.shiftr_div_pow2 by lia.
  replace (X / 2 ^ 8) with (128 + k); [lia|]. apply Z.div_unique with (X - (128 + k) * 256); lia.
Qed.

Lemma ln_part_segment X Y :
  2 ^ 15 ≤ X ≤ Y → Y < 2 ^ 16 → segment X = segment Y → ln_part X ≤ ln_part Y.
Proof.
  intros HX HY Hs. unfold ln_part. rewrite Hs. pose proof (fraction_range X ltac:(lia)). pose proof (fraction_range Y ltac:(lia)).
  assert (fraction X ≤ fraction Y).
  { unfold fraction. rewrite Hs. destruct (segment_facts (segment Y)) as (HR & _); [apply segment_range; lia|].
    pose proof (shiftr_mono (X * RH (segment Y)) (Y * RH (segment Y)) 48 ltac:(lia) ltac:(nia)). lia. }
  pose proof (LL_mono (fraction X) (fraction Y)). lia.
Qed.

Lemma ln_part_first k : 0 ≤ k < 128 → ∀ d, 0 ≤ d → k + d < 128 → ln_part (first_of k) ≤ ln_part (first_of (k + d)).
Proof.
  intros Hk. apply (natlike_ind (λ d, k + d < 128 → _)); [by rewrite Z.add_0_r|].
  intros d Hd IH Hlt. transitivity (ln_part (first_of (k + d))); [apply IH; lia|].
  destruct (segment_facts (k + d)) as (_ & _ & _ & _ & Hnext); [lia|]. replace (k + d =? 127) with false in Hnext by lia.
  replace (k + Z.succ d) with (k + d + 1) by lia. etransitivity; [|exact Hnext].
  apply ln_part_segment; [unfold first_of; lia|unfold first_of; lia|]. by rewrite !(segment_same (k + d)) by (unfold first_of; lia).
Qed.

Lemma ln_part_mono X Y : 2 ^ 15 ≤ X ≤ Y → Y < 2 ^ 16 → ln_part X ≤ ln_part Y.
Proof.
  intros HX HY. destruct (segment_range X ltac:(lia)) as [Hk Hx]. destruct (segment_range Y ltac:(lia)) as [Hk' Hy].
  destruct (decide (segment X = segment Y)) as [Hs|Hs]; [by apply ln_part_segment|].
  assert (segment X < segment Y) as Hlt.
  { unfold first_of in *. lia. }
  destruct (segment_facts _ Hk) as (_ & _ & _ & _ & Hnext). replace (segment X =? 127) with false in Hnext by lia.
  transitivity (ln_part (first_of (segment X) + 255)).
  { apply ln_part_segment; [lia|unfold first_of; lia|]. by rewrite (segment_same (segment X) (_ + 255)) by lia. }
  etransitivity; [exact Hnext|]. transitivity (ln_part (first_of (segment Y))).
  { pose proof (ln_part_first (segment X + 1) ltac:(lia) (segment Y - (segment X + 1)) ltac:(lia) ltac:(lia)) as Hm.
    by replace (segment X + 1 + (segment Y - (segment X + 1))) with (segment Y) in Hm by lia. }
  apply ln_part_segment; [unfold first_of in *; lia|done|]. by rewrite (segment_same (segment Y) (first_of _)) by lia.
Qed.

Lemma ln_part_range X : 2 ^ 15 ≤ X < 2 ^ 16 → 0 ≤ ln_part X ≤ 2 ^ 48.
Proof.
  intros HX. split.
  - unfold ln_part. destruct (segment_facts (segment X)) as (_ & _ & _ & HL & _); [by apply segment_range|].
    pose proof (fraction_range X HX). pose proof (LL_mono 0 (fraction X) ltac:(lia) ltac:(lia)) as Hm.
    assert (LL 0 = 0) as H0 by done. lia.
  - etransitivity; [apply (ln_part_mono X 65535); lia|]. by vm_compute.
Qed.

(** ** The function *)

(** The argument shifted into [2^15, 2^16). *)
Definition normal (x : Z) : Z := x * 2 ^ (15 - Z.log2 x).

Lemma log2_range x : 0 < x < 2 ^ 16 → 0 ≤ Z.log2 x ≤ 15 ∧ 2 ^ Z.log2 x ≤ x < 2 ^ (Z.log2 x + 1).
Proof.
  intros Hx. pose proof (Z.log2_spec x ltac:(lia)) as Hs. rewrite <-Z.add_1_r in Hs. split; [|done].
  split; [apply Z.log2_nonneg|]. pose proof (Z.log2_lt_pow2 x 16 ltac:(lia)). lia.
Qed.

Lemma normal_range x : 0 < x < 2 ^ 16 → 2 ^ 15 ≤ normal x < 2 ^ 16.
Proof.
  intros Hx. destruct (log2_range x Hx) as [Hl [Hlo Hhi]]. unfold normal.
  assert (0 < 2 ^ (15 - Z.log2 x)) by (apply Z.pow_pos_nonneg; lia).
  replace (2 ^ 15) with (2 ^ Z.log2 x * 2 ^ (15 - Z.log2 x)) by (rewrite <-Z.pow_add_r by lia; f_equal; lia).
  replace (2 ^ 16) with (2 ^ (Z.log2 x + 1) * 2 ^ (15 - Z.log2 x)) by (rewrite <-Z.pow_add_r by lia; f_equal; lia). nia.
Qed.

Lemma land_high x : 0 < x < 2 ^ 16 → Z.land x 0x18000 = 0 ↔ x < 2 ^ 15.
Proof.
  intros Hx. change 0x18000 with (Z.shiftl 3 15).
  assert (Z.land x (Z.shiftl 3 15) = Z.shiftl (Z.land (Z.shiftr x 15) 3) 15) as ->.
  { apply Z.bits_inj'. intros i Hi. rewrite Z.land_spec. destruct (decide (i < 15)).
    - rewrite !Z.shiftl_spec_low by lia. apply andb_false_r.
    - rewrite !Z.shiftl_spec_high, Z.land_spec, Z.shiftr_spec by lia. by replace (i - 15 + 15) with i by lia. }
  assert (Z.shiftr x 15 = 0 ∨ Z.shiftr x 15 = 1) as Hq.
  { rewrite Z.shiftr_div_pow2 by lia. pose proof (Z.div_lt_upper_bound x (2 ^ 15) 2 ltac:(lia) ltac:(lia)).
    pose proof (Z.div_pos x (2 ^ 15) ltac:(lia) ltac:(lia)). lia. }
  rewrite Z.shiftr_div_pow2 in * by lia. pose proof (Z.div_mod x (2 ^ 15) ltac:(lia)). pose proof (Z.mod_pos_bound x (2 ^ 15) ltac:(lia)).
  destruct Hq as [Hq|Hq]; rewrite Hq; (split; [|done || lia]); [lia|done].
Qed.

Lemma normalise_spec x :
  0 < x < 2 ^ 16 →
  (if bool_decide (Z.land x 0x18000 = 0) then
     clz ← clz32 (Z.land x 0x1FFFF);
     let bits := clz - 16 in
     Ret (u32 (Z.shiftl x bits), 15 - bits)
   else Ret (x, 15)) = Ret (normal x, Z.log2 x).
Proof.
  intros Hx. pose proof (normal_range x Hx). destruct (log2_range x Hx) as [Hl [Hlo Hhi]].
  rewrite (bool_decide_ext _ (x < 2 ^ 15)) by (by apply land_high). case_bool_decide as Hs.
  - change 0x1FFFF with (Z.ones 17). rewrite Z.land_ones, Z.mod_small by lia. unfold clz32.
    rewrite bool_decide_false by lia. cbn [mbind outcome_bind]. cbv zeta.
    replace (31 - Z.log2 x - 16) with (15 - Z.log2 x) by lia. rewrite Z.shiftl_mul_pow2 by lia. fold (normal x).
    rewrite u32_small by lia. do 2 f_equal. lia.
  - assert (Z.log2 x = 15) as Hl15 by (apply Z.log2_unique; lia). unfold normal. rewrite Hl15. do 2 f_equal. lia.
Qed.

Lemma lookup_RH_LH i : 0 ≤ i < 258 → at_index RH_LH_tbl i = Ret (default 0 (RH_LH_tbl !! Z.to_nat i)).
Proof. intros Hi. destruct (at_index_lt RH_LH_tbl i) as (v & Hv & ->); [done|]. by rewrite Hv. Qed.

Lemma lookup_LL i : 0 ≤ i < 256 → at_index LL_tbl i = Ret (LL i).
Proof. intros Hi. unfold LL. destruct (at_index_lt LL_tbl i) as (v & Hv & ->); [done|]. by rewrite Hv. Qed.

(** Two to the 44 times the binary logarithm, as the tables have it. *)
Definition ln_value (u : Z) : Z := Z.log2 (u + 1) * 2 ^ 44 + Z.shiftr (ln_part (normal (u + 1))) 4.

Lemma shiftr_4_range z : 0 ≤ z ≤ 2 ^ 48 → 0 ≤ Z.shiftr z 4 ≤ 2 ^ 44.
Proof.
  intros Hz. rewrite Z.shiftr_div_pow2 by lia. split; [apply Z.div_pos; lia|].
  transitivity (2 ^ 48 / 2 ^ 4); [apply Z.div_le_mono; lia|done].
Qed.

Lemma crush_ln_spec u : 0 ≤ u < 65535 → crush_ln u = Ret (ln_value u).
Proof.
  intros Hu. assert (0 < u + 1 < 2 ^ 16) as Hx by lia. unfold crush_ln. rewrite u32_small by lia.
  rewrite normalise_spec by done. cbn [mbind outcome_bind]. unfold ln_value. pose proof (normal_range _ Hx) as HX.
  set (X := normal (u + 1)) in *. destruct (segment_range X HX) as [Hk HXk]. destruct (segment_facts _ Hk) as (HR & _).
  destruct (log2_range _ Hx) as [Hl _]. pose proof (fraction_range X HX) as Hf. pose proof (ln_part_range X HX) as Hp.
  rewrite (Z.shiftl_mul_pow2 _ 1) by lia.
  assert (Z.shiftr X 8 * 2 ^ 1 - 256 = 2 * segment X) as -> by (unfold segment; lia).
  assert (Z.shiftr X 8 * 2 ^ 1 + 1 - 256 = 2 * segment X + 1) as -> by (unfold segment; lia).
  rewrite !lookup_RH_LH by lia. cbn [mbind outcome_bind]. fold (RH (segment X)) (LH (segment X)).
  rewrite (u64_small (X * _)) by nia.
  assert (Z.land (Z.shiftr (X * RH (segment X)) 48) 0xff = fraction X) as ->.
  { change 0xff with (Z.ones 8). rewrite Z.land_ones by lia. assert (Z.shiftr (X * RH (segment X)) 48 = fraction X + 128 * 2 ^ 8) as -> by (unfold fraction; lia).
    rewrite Z.mod_add, Z.mod_small by lia. done. }
  rewrite lookup_LL by done. cbn [mbind outcome_bind]. fold (ln_part X). rewrite (u64_small (ln_part X)) by lia.
  change (48 - 12 - 32) with 4. change (12 + 32) with 44. rewrite Z.shiftl_mul_pow2 by lia.
  pose proof (shiftr_4_range _ Hp). rewrite (u64_small (Z.log2 (u + 1) * _)), u64_small by lia. done.
Qed.

Lemma ln_value_range u : 0 ≤ u < 65535 → 0 ≤ ln_value u ≤ 2 ^ 48.
Proof.
  intros Hu. unfold ln_value. assert (0 < u + 1 < 2 ^ 16) as Hx by lia. destruct (log2_range _ Hx) as [Hl _].
  pose proof (shiftr_4_range _ (ln_part_range _ (normal_range _ Hx))). lia.
Qed.

Lemma ln_value_mono u v : 0 ≤ u ≤ v → v < 65535 → ln_value u ≤ ln_value v.
Proof.
  intros Hu Hv. unfold ln_value. assert (0 < u + 1 < 2 ^ 16) as Hx by lia. assert (0 < v + 1 < 2 ^ 16) as Hy by lia.
  pose proof (shiftr_4_range _ (ln_part_range _ (normal_range _ Hx))). pose proof (shiftr_4_range _ (ln_part_range _ (normal_range _ Hy))).
  pose proof (Z.log2_le_mono (u + 1) (v + 1) ltac:(lia)). destruct (decide (Z.log2 (u + 1) = Z.log2 (v + 1))) as [He|]; [|lia].
  assert (normal (u + 1) ≤ normal (v + 1)).
  { unfold normal. rewrite He. assert (0 < 2 ^ (15 - Z.log2 (v + 1))); [|nia]. destruct (log2_range _ Hy). apply Z.pow_pos_nonneg; lia. }
  pose proof (normal_range _ Hx). pose proof (normal_range _ Hy).
  pose proof (shiftr_mono _ _ 4 ltac:(lia) (ln_part_mono (normal (u + 1)) (normal (v + 1)) ltac:(lia) ltac:(lia))). rewrite He. lia.
Qed.

Lemma crush_ln_last : crush_ln 65535 = Ret (2 ^ 48 - 2 ^ 28).
Proof. by vm_compute. Qed.

Lemma crush_ln_total u : 0 ≤ u ≤ 65535 → ∃ v, crush_ln u = Ret v ∧ 0 ≤ v ≤ 2 ^ 48.
Proof.
  intros Hu. destruct (decide (u = 65535)) as [->|]; [exists (2 ^ 48 - 2 ^ 28); split; [apply crush_ln_last|lia]|].
  exists (ln_value u). split; [apply crush_ln_spec; lia|apply ln_value_range; lia].
Qed.
