(* ===== verification/CrushBuckets.v ===== *)
(** * The choose methods of the buckets

    For each of the bucket algorithms of src/src/crush/mapper.c: on a bucket
    that is built as it should be, the method returns one of its items, within
    the arrays of the bucket, and the same one whatever is in the working
    store. *)

From S2P Require Import Prelude CrushRules CrushTables CrushHash CrushMap CrushMapper CrushPerm CrushLn.

Import Crush Mapper.

(** ** The highest draw *)

(** The first index with the highest draw. *)
Definition first_highest (n : Z) (d : Z → Z) (h : Z) : Prop :=
  0 ≤ h < n ∧ (∀ i, 0 ≤ i < n → d i ≤ d h) ∧ (∀ i, 0 ≤ i < h → d i < d h).

Lemma first_highest_unique n d h h' : first_highest n d h → first_highest n d h' → h = h'.
Proof.
  intros (Hr & Hm & Hf) (Hr' & Hm' & Hf'). destruct (Z.lt_trichotomy h h') as [Hlt|[|Hlt]]; [|done|].
  - specialize (Hf' h ltac:(lia)). specialize (Hm h' Hr'). lia.
  - specialize (Hf h' ltac:(lia)). specialize (Hm' h Hr). lia.
Qed.

Lemma highest_spec n draw d :
  0 < n → (∀ i, 0 ≤ i < n → draw i = Ret (d i)) → ∃ h, highest n draw = Ret h ∧ first_highest n d h.
Proof.
  intros Hn Hd. unfold highest.
  match goal with |- context [foldM ?f _ _] => set (body := f) end.
  destruct (foldM_inv body (λ l '(h, hd), l = [] ∧ h = 0 ∨ hd = d h ∧ first_highest (Z.of_nat (length l)) d h) (seqZ 0 n) (0, 0))
    as ((h & hd) & -> & Hh); [by left| |].
  - intros l1 i l2 [h hd] Hl Hinv. assert (i = Z.of_nat (length l1) ∧ i < n) as [Hi Hin].
    { assert (seqZ 0 n !! length l1 = Some i) as Hs by (rewrite Hl; by apply list_lookup_middle). apply lookup_seqZ in Hs. lia. }
    unfold body. rewrite Hd by lia. cbn [mbind outcome_bind]. eexists. split; [reflexivity|].
    rewrite length_app, Nat2Z.inj_add, <-Hi. cbn [length].
    destruct Hinv as [[-> ->]|[-> (Hr & Hm & Hf)]].
    + cbn in Hi. rewrite bool_decide_true by lia. right. split; [done|]. subst i. split_and!; [lia|lia|..]; intros j Hj; [|lia].
      assert (j = 0) as -> by lia. done.
    + case_bool_decide as Hc; right; (split; [done|]).
      * split_and!; [lia|lia|..]; intros j Hj; (destruct (decide (j = i)) as [->|]; [lia|]);
          pose proof (Hm j ltac:(lia)); destruct Hc; lia.
      * split_and!; [lia|lia|..]; intros j Hj; [|by apply Hf]. destruct (decide (j = i)) as [->|]; [lia|]. apply Hm. lia.
  - cbn [mbind outcome_bind]. exists h. split; [done|]. destruct Hh as [[Hnil _]|[_ Hh]].
    + apply (f_equal length) in Hnil. rewrite length_seqZ in Hnil. cbn in Hnil. lia.
    + rewrite length_seqZ, Z2Nat.id in Hh by lia. done.
Qed.

(** ** Buckets *)

(** *** Lists *)

Lemma list_loop_spec b iw sw x r n :
  (n ≤ length (items b))%nat → (0 < length (items b))%nat → length iw = length (items b) → length sw = length (items b) →
  ∃ item, list_loop b iw sw x r n = Ret item ∧ item ∈ items b.
Proof.
  intros Hn Hpos Hiw Hsw. induction n as [|n IH].
  - destruct (at_index_lt (items b) 0) as (v & Hv & Ha); [lia|]. exists v. split; [done|]. by eapply list_elem_of_lookup_2.
  - cbn [list_loop]. destruct (at_index_lt (items b) (Z.of_nat n)) as (v & Hv & ->); [lia|].
    destruct (at_index_lt sw (Z.of_nat n)) as (s & _ & ->); [lia|]. destruct (at_index_lt iw (Z.of_nat n)) as (w & _ & ->); [lia|].
    cbn [mbind outcome_bind]. cbv zeta. case_bool_decide; [exists v; split; [done|by eapply list_elem_of_lookup_2]|]. apply IH. lia.
Qed.

(** *** Trees *)

(** The node of height [h] and number [j] from the left. *)
Definition tree_node (h j : Z) : Z := 2 ^ h * (2 * j + 1).

Definition node_weight (nw : list Z) (h j : Z) : Z := default 0 (nw !! Z.to_nat (tree_node h j)).

(** A tree of depth [d]: the weight of an inner node is the sum of those below
    it, and only items have weight. The weight of the root is positive, or
    there is an item for each leaf: with no weight at all the choice goes to the
    last leaf, and without an item there it would be read past the array. *)
Record tree_ok (num_nodes : Z) (nw : list Z) (n_items : Z) : Prop := {
  tree_depth : ∃ d, 0 ≤ d < 7 ∧ num_nodes = 2 ^ (d + 1) ∧ (0 < node_weight nw d 0 ∨ n_items = 2 ^ d);
  tree_length : Z.of_nat (length nw) = num_nodes;
  tree_u32 : Forall (λ w, 0 ≤ w < 2 ^ 32) nw;
  tree_sum h j : 0 < h → 0 ≤ j → tree_node h j < num_nodes →
    node_weight nw h j = node_weight nw (h - 1) (2 * j) + node_weight nw (h - 1) (2 * j + 1);
  tree_items j : 0 ≤ j → 0 < node_weight nw 0 j → j < n_items;
}.

Lemma land_1 n : Z.land n 1 = n mod 2.
Proof. by apply (Z.land_ones n 1). Qed.

Lemma pow2_pred h : 0 < h → 2 ^ h = 2 * 2 ^ (h - 1).
Proof. intros Hh. rewrite <-Z.pow_succ_r by lia. f_equal. lia. Qed.

Lemma tree_node_child h j : 0 < h → tree_node h j - 2 ^ (h - 1) = tree_node (h - 1) (2 * j) ∧ tree_node h j + 2 ^ (h - 1) = tree_node (h - 1) (2 * j + 1).
Proof.
  intros Hh. unfold tree_node. rewrite (pow2_pred h) by done. split; ring.
Qed.

Lemma height_loop_spec fuel h j :
  0 ≤ h → 0 ≤ j → (Z.to_nat h < fuel)%nat → height_loop fuel (tree_node h j) = Ret h.
Proof.
  intros Hh Hj. revert h Hh. induction fuel as [|fuel IH]; intros h Hh Hf; [lia|]. cbn [height_loop].
  rewrite land_1. destruct (decide (h = 0)) as [->|Hne].
  - rewrite bool_decide_false; [done|]. unfold tree_node. change (2 ^ 0) with 1.
    rewrite Z.mul_1_l, Z.add_comm, Z.mul_comm, Z.mod_add by lia. done.
  - assert (tree_node h j = tree_node (h - 1) j * 2) as E.
    { unfold tree_node. rewrite (pow2_pred h) by lia. ring. }
    rewrite E. rewrite Z.mod_mul, bool_decide_true by lia.
    rewrite Z.shiftr_div_pow2 by lia. change (2 ^ 1) with 2. rewrite Z.div_mul by lia. rewrite IH by lia. cbn. f_equal. lia.
Qed.

Lemma terminal_spec h j : 0 ≤ h → terminal (tree_node h j) = bool_decide (h = 0).
Proof.
  intros Hh. unfold terminal. rewrite land_1. unfold tree_node.
  apply bool_decide_ext. destruct (decide (h = 0)) as [->|Hne].
  - change (2 ^ 0) with 1. rewrite Z.mul_1_l, Z.add_comm, Z.mul_comm, Z.mod_add by lia. done.
  - rewrite (pow2_pred h) by lia. rewrite <-Z.mul_assoc, Z.mul_comm, Z.mod_mul by lia. split; [done|lia].
Qed.

Section tree.
Context (b : crush_bucket) (num_nodes : Z) (nw : list Z) (x r : Z).
Context (Hok : tree_ok num_nodes nw (size b)).

Lemma at_node h j : 0 ≤ h → 0 ≤ j → tree_node h j < num_nodes → at_index nw (tree_node h j) = Ret (node_weight nw h j).
Proof.
  intros Hh Hj Hlt. assert (0 < 2 ^ h) by (apply Z.pow_pos_nonneg; lia).
  destruct (at_index_lt nw (tree_node h j)) as (v & Hv & ->).
  - rewrite (tree_length _ _ _ Hok). unfold tree_node in *. nia.
  - unfold node_weight. by rewrite Hv.
Qed.

Lemma node_weight_range h j : 0 ≤ node_weight nw h j < 2 ^ 32.
Proof.
  unfold node_weight. destruct (nw !! _) as [w|] eqn:Hw; [|done]. cbn. pose proof (tree_u32 _ _ _ Hok) as Hall.
  rewrite Forall_lookup in Hall. by eapply Hall.
Qed.

Lemma point_below w n : 0 < w < 2 ^ 32 → 0 ≤ Z.shiftr (u64 (crush_hash32_4 (hash b) x n r (id b) * w)) 32 < w.
Proof.
  intros Hw. destruct (crush_hash32_4_u32 (hash b) x n r (id b)) as [Hlo Hhi].
  rewrite u64_small by nia. rewrite Z.shiftr_div_pow2 by lia.
  split; [apply Z.div_pos; nia|]. apply Z.div_lt_upper_bound; nia.
Qed.

Lemma child_below h j d : 0 < h ≤ d → 0 ≤ j < 2 ^ (d - h) → tree_node h j < 2 ^ (d + 1) ∧ 2 * j + 1 < 2 ^ (d - (h - 1)).
Proof.
  intros Hh Hj. assert (2 ^ (d - (h - 1)) = 2 * 2 ^ (d - h)) as E.
  { rewrite (pow2_pred (d - (h - 1))) by lia. f_equal. f_equal. lia. }
  split; [|lia]. unfold tree_node. assert (2 ^ (d + 1) = 2 ^ h * (2 * 2 ^ (d - h))) as ->; [|assert (0 < 2 ^ h) by (apply Z.pow_pos_nonneg; lia); nia].
  rewrite <-E, <-Z.pow_add_r by lia. f_equal. lia.
Qed.

Lemma point_zero n : Z.shiftr (u64 (crush_hash32_4 (hash b) x n r (id b) * 0)) 32 = 0.
Proof. by rewrite Z.mul_0_r. Qed.

Lemma tree_loop_spec d fuel h j :
  num_nodes = 2 ^ (d + 1) → d < 7 → 0 ≤ h ≤ d → 0 ≤ j < 2 ^ (d - h) → (0 < node_weight nw h j ∨ size b = 2 ^ d) → (Z.to_nat h < fuel)%nat →
  ∃ j', tree_loop fuel b nw x r (tree_node h j) = Ret (tree_node 0 j') ∧ 0 ≤ j' < size b.
Proof.
  intros Hn Hd. revert h j. induction fuel as [|fuel IH]; intros h j Hh Hj Hw Hf; [lia|]. cbn [tree_loop].
  rewrite terminal_spec by lia. case_bool_decide as Hz.
  { subst h. exists j. split; [done|]. rewrite Z.sub_0_r in Hj. destruct Hw as [Hw| ->]; [|lia]. pose proof (tree_items _ _ _ Hok j ltac:(lia) Hw). lia. }
  destruct (child_below h j d ltac:(lia) Hj) as [Hlt Hj']. destruct (tree_node_child h j ltac:(lia)) as [El Er].
  assert (tree_node (h - 1) (2 * j) < num_nodes) as Hll by (rewrite <-El, Hn; assert (0 < 2 ^ (h - 1)) by (apply Z.pow_pos_nonneg; lia); lia).
  rewrite at_node by lia. cbn [mbind outcome_bind]. unfold left, right, height.
  rewrite height_loop_spec by lia. cbn [mbind outcome_bind]. rewrite Z.shiftl_1_l, El, Er, at_node by lia. cbn [mbind outcome_bind].
  pose proof (tree_sum _ _ _ Hok h j ltac:(lia) ltac:(lia) ltac:(lia)) as Hsum.
  pose proof (node_weight_range h j). destruct (decide (node_weight nw h j = 0)) as [E|Hne].
  - rewrite E, point_zero. case_bool_decide as Hgo; apply IH; lia.
  - pose proof (point_below (node_weight nw h j) (tree_node h j) ltac:(lia)). case_bool_decide as Hgo; apply IH; lia.
Qed.

Lemma bucket_tree_choose_spec : ∃ item, bucket_tree_choose b num_nodes nw x r = Ret item ∧ item ∈ items b.
Proof.
  destruct (tree_depth _ _ _ Hok) as (d & Hd & Hn & Hw). unfold bucket_tree_choose.
  assert (Z.shiftr num_nodes 1 = tree_node d 0) as ->.
  { rewrite Z.shiftr_div_pow2, Hn by lia. unfold tree_node. rewrite Z.pow_add_r by lia. rewrite Z.div_mul by lia. lia. }
  destruct (tree_loop_spec d 32 d 0) as (j & -> & Hj); [done|lia|lia|rewrite Z.sub_diag; lia|done|lia|].
  cbn [mbind outcome_bind].
  assert (Z.shiftr (tree_node 0 j) 1 = j) as ->.
  { rewrite Z.shiftr_div_pow2 by lia. unfold tree_node. change (2 ^ 0) with 1. change (2 ^ 1) with 2.
    rewrite Z.mul_1_l, Z.add_comm, Z.mul_comm, Z.div_add by lia. done. }
  destruct (at_index_lt (items b) j) as (v & Hv & ->); [unfold size in *; lia|]. exists v. split; [done|]. by eapply list_elem_of_lookup_2.
Qed.

End tree.

(** *** Straws *)

Lemma land_ffff z : 0 ≤ Z.land z 0xffff ≤ 65535.
Proof. change (Z.land z 0xffff) with (Z.land z (Z.ones 16)). rewrite Z.land_ones by lia. pose proof (Z.mod_pos_bound z (2 ^ 16) ltac:(lia)). lia. Qed.

Lemma highest_item b draw d :
  (0 < length (items b))%nat → (∀ i, 0 ≤ i < size b → draw i = Ret (d i)) →
  ∃ h item, highest (size b) draw = Ret h ∧ first_highest (size b) d h ∧ at_index (items b) h = Ret item ∧ item ∈ items b.
Proof.
  intros Hpos Hd. destruct (highest_spec (size b) draw d) as (h & Hh & Hf); [unfold size; lia|done|].
  destruct (at_index_lt (items b) h) as (item & Hi & Ha); [apply Hf|]. exists h, item. split_and!; [done|apply Hf..|done|].
  by eapply list_elem_of_lookup_2.
Qed.

Lemma bucket_straw_choose_spec b straws x r :
  (0 < length (items b))%nat → length straws = length (items b) →
  ∃ item, bucket_straw_choose b straws x r = Ret item ∧ item ∈ items b.
Proof.
  intros Hpos Hl. unfold bucket_straw_choose.
  destruct (highest_item b (λ i, item ← at_index (items b) i; straw ← at_index straws i;
      Ret (u64 (Z.land (crush_hash32_3 (hash b) x item r) 0xffff * straw)))
    (λ i, u64 (Z.land (crush_hash32_3 (hash b) x (default 0 (items b !! Z.to_nat i)) r) 0xffff * default 0 (straws !! Z.to_nat i))))
    as (h & item & -> & _ & Ha & Hin); [done| |].
  - intros i Hi. destruct (at_index_lt (items b) i) as (v & Hv & ->); [done|].
    destruct (at_index_lt straws i) as (s & Hs & ->); [unfold size in *; lia|]. cbn. by rewrite Hv, Hs.
  - cbn [mbind outcome_bind]. by exists item.
Qed.

(** The value that an item of a straw2 bucket draws. *)
Definition straw2_value (b : crush_bucket) (x r w id : Z) : Z :=
  if bool_decide (w ≠ 0) then
    (match crush_ln (Z.land (crush_hash32_3 (hash b) x id r) 0xffff) with Ret v => v | Abort _ => 0 end - 2 ^ 48) `quot` w
  else S64_MIN.

Lemma straw2_draw_spec b weights ids x r i :
  0 ≤ i < size b → length weights = length (items b) → length ids = length (items b) →
  straw2_draw b weights ids x r i
  = Ret (straw2_value b x r (default 0 (weights !! Z.to_nat i)) (default 0 (ids !! Z.to_nat i))).
Proof.
  intros Hi Hw Hids. unfold straw2_draw, straw2_value.
  destruct (at_index_lt weights i) as (w & -> & ->); [unfold size in *; lia|].
  destruct (at_index_lt ids i) as (j & -> & ->); [unfold size in *; lia|]. cbn [mbind outcome_bind default from_option Datatypes.id].
  case_bool_decide as Hz; [|done]. destruct (crush_ln_total (Z.land (crush_hash32_3 (hash b) x j r) 0xffff)) as (v & -> & Hv); [apply land_ffff|].
  cbn [mbind outcome_bind]. do 2 f_equal. change 0x1000000000000 with (2 ^ 48). unfold s64. rewrite Z.mod_small; lia.
Qed.

(** The overriding arguments have the size of the bucket. *)
Definition arg_ok (b : crush_bucket) (arg : option crush_choose_arg) : Prop :=
  match arg with
  | None => True
  | Some a => (∀ l, ids a = Some l → length l = length (items b))
      ∧ (∀ sets, weight_set a = Some sets → Forall (λ ws, length ws = length (items b)) sets)
  end.

Lemma choose_arg_weights_spec b iw arg position :
  length iw = length (items b) → arg_ok b arg → 0 ≤ position < 2 ^ 31 →
  ∃ ws, get_choose_arg_weights iw arg position = Ret ws ∧ length ws = length (items b).
Proof.
  intros Hiw Harg Hp. unfold get_choose_arg_weights. destruct arg as [[i [[|s sets]|]]|]; try by exists iw.
  destruct Harg as [_ Hsets]. specialize (Hsets _ eq_refl). rewrite u32_small by lia.
  destruct (at_index_lt (s :: sets) (if bool_decide (Z.of_nat (length (s :: sets)) ≤ position) then Z.of_nat (length (s :: sets)) - 1 else position))
    as (ws & Hl & ->); [case_bool_decide; cbn [length] in *; lia|].
  exists ws. split; [done|]. rewrite Forall_lookup in Hsets. by eapply Hsets.
Qed.

Lemma choose_arg_ids_spec b arg : arg_ok b arg → length (get_choose_arg_ids b arg) = length (items b).
Proof. intros Harg. unfold get_choose_arg_ids. destruct arg as [[[l|] ws]|]; [|done..]. by apply Harg. Qed.

Lemma bucket_straw2_choose_spec b iw x r arg position :
  (0 < length (items b))%nat → length iw = length (items b) → arg_ok b arg → 0 ≤ position < 2 ^ 31 →
  ∃ item, bucket_straw2_choose b iw x r arg position = Ret item ∧ item ∈ items b.
Proof.
  intros Hpos Hiw Harg Hp. unfold bucket_straw2_choose.
  destruct (choose_arg_weights_spec b iw arg position) as (ws & -> & Hws); [done..|]. cbn [mbind outcome_bind].
  destruct (highest_item b _ _ Hpos (λ i Hi, straw2_draw_spec b ws (get_choose_arg_ids b arg) x r i Hi Hws (choose_arg_ids_spec b arg Harg)))
    as (h & item & -> & _ & Ha & Hin). cbn [mbind outcome_bind]. by exists item.
Qed.

(** ** Buckets as they should be *)

Definition alg_ok (b : crush_bucket) : Prop :=
  match alg b with
  | CRUSH_BUCKET_LIST iw sw => length iw = length (items b) ∧ length sw = length (items b)
  | CRUSH_BUCKET_TREE num_nodes nw => tree_ok num_nodes nw (size b)
  | CRUSH_BUCKET_STRAW _ straws => length straws = length (items b)
  | CRUSH_BUCKET_STRAW2 iw => length iw = length (items b)
  | CRUSH_BUCKET_UNIFORM _ | UNKNOWN_ALG _ => True
  end.

Definition bucket_ok (b : crush_bucket) : Prop := size b < 0xffff ∧ (0 < size b → alg_ok b).

Lemma crush_bucket_choose_spec b x r arg position :
  bucket_ok b → 0 < size b → arg_ok b arg → 0 ≤ position < 2 ^ 31 →
  ∃ item, item ∈ items b ∧ ∀ wb, work_bucket_ok b wb →
    ∃ wb', crush_bucket_choose b wb x r arg position = Ret (item, wb') ∧ work_bucket_ok b wb'.
Proof.
  intros [Hmax Halg] Hsize Harg Hp. specialize (Halg Hsize). assert (0 < length (items b))%nat as Hpos by (unfold size in *; lia).
  assert (∀ o : outcome Z, (∃ item, o = Ret item ∧ item ∈ items b) → ∃ item, item ∈ items b ∧ ∀ wb, work_bucket_ok b wb →
    ∃ wb', (item ← o; Ret (item, wb)) = Ret (item, wb') ∧ work_bucket_ok b wb') as Hpure.
  { intros o (item & -> & Hin). exists item. split; [done|]. intros wb Hwb. by exists wb. }
  unfold crush_bucket_choose, alg_ok in *. rewrite bool_decide_true by lia. cbn [assert_that mbind outcome_bind].
  destruct (alg b) as [w|iw sw|nn nw|iw ss|iw|n].
  - exists (perm_item b x r). split; [apply perm_item_in; lia|]. intros wb Hwb. apply bucket_perm_choose_spec; [lia|done].
  - apply Hpure. destruct Halg. apply list_loop_spec; lia.
  - apply Hpure. by apply bucket_tree_choose_spec.
  - apply Hpure. by apply bucket_straw_choose_spec.
  - apply Hpure. by apply bucket_straw2_choose_spec.
  - apply Hpure. destruct (at_index_lt (items b) 0) as (v & Hv & ->); [lia|]. exists v. split; [done|]. by eapply list_elem_of_lookup_2.
Qed.
