(* ===== verification/CrushPlacement.v ===== *)
(** * Placement: one item after the other

    What [crush_choose_firstn] chooses, on a map in which no bucket contains
    itself: items of the type that was asked for, each once, below the bucket
    and not out, with leaves below them when leaves are asked for. All loops
    end, with a bound on the fuel, and nothing depends on what the working
    store holds. *)

From S2P Require Import Prelude CrushRules CrushTables CrushHash CrushMap CrushMapper CrushPerm CrushLn CrushBuckets.

Import Crush Mapper.

(** ** Maps *)

Definition bucket_of (map : crush_map) (item : Z) : option crush_bucket :=
  if bool_decide (item < 0) then mjoin (buckets map !! Z.to_nat (-1 - item)) else None.

(** Every bucket is under its own number, the items exist, and a rank goes
    down from a bucket to the buckets in it. *)
Record map_ok (map : crush_map) (rank : Z → nat) : Prop := {
  map_bucket item b : bucket_of map item = Some b → id b = item ∧ 0 < type b ∧ bucket_ok b;
  map_items item b i : bucket_of map item = Some b → i ∈ items b →
    0 ≤ i < max_devices map ∨ ∃ b', bucket_of map i = Some b' ∧ (rank i < rank item)%nat;
  map_devices : 0 ≤ max_devices map ≤ CRUSH_ITEM_UNDEF;
  map_max_buckets : max_buckets map < 2 ^ 31;
}.

(** An item in a bucket, and anywhere below one. *)
Definition child (map : crush_map) (p c : Z) : Prop := ∃ b, bucket_of map p = Some b ∧ c ∈ items b.
Definition below (map : crush_map) : Z → Z → Prop := rtc (child map).

Definition args_ok (map : crush_map) (choose_args : option (list crush_choose_arg)) : Prop :=
  ∀ args, choose_args = Some args → (length (buckets map) ≤ length args)%nat
    ∧ ∀ item b a, bucket_of map item = Some b → args !! Z.to_nat (-1 - item) = Some a → arg_ok b (Some a).

Definition work_ok (map : crush_map) (w : crush_work) : Prop :=
  ∀ item b, bucket_of map item = Some b → ∃ wb, w !! Z.to_nat (-1 - item) = Some (Some wb) ∧ work_bucket_ok b wb.

(** ** Vectors *)

(** The first entries of a vector. *)
Definition prefix (v : vector) (l : list Z) : Prop := take (length l) v = Some <$> l.

Lemma prefix_length v l : prefix v l → (length l ≤ length v)%nat.
Proof. intros Hp. apply (f_equal length) in Hp. rewrite length_take, length_fmap in Hp. lia. Qed.

Lemma prefix_lookup v l i a : prefix v l → l !! i = Some a → v !! i = Some (Some a).
Proof.
  intros Hp Hi. pose proof (lookup_lt_Some _ _ _ Hi). rewrite <-(lookup_take_lt v (length l)) by done. rewrite Hp.
  by rewrite list_lookup_fmap, Hi.
Qed.

Lemma prefix_store v l a :
  prefix v l → (length l < length v)%nat → store_at v (Z.of_nat (length l)) (Some a) = Ret (<[length l := Some a]> v)
    ∧ prefix (<[length l := Some a]> v) (l ++ [a]).
Proof.
  intros Hp Hlt. split; [rewrite store_at_ok by lia; by rewrite Nat2Z.id|]. unfold prefix.
  rewrite length_app. cbn [length]. rewrite Nat.add_1_r. rewrite (take_S_r _ _ (Some a)) by (by rewrite list_lookup_insert_eq).
  rewrite take_insert_ge by done. by rewrite Hp, fmap_app.
Qed.

Lemma prefix_store_beyond v l a : prefix v l → prefix (<[length l := Some a]> v) l.
Proof. unfold prefix. by rewrite take_insert_ge. Qed.

Lemma collides_spec out positions (vals : Z → Z) item :
  (∀ i, i ∈ positions → value_at out i = Ret (vals i)) →
  collides out positions item = Ret (bool_decide (item ∈ vals <$> positions)).
Proof.
  intros Hv. unfold collides.
  match goal with |- context [foldM ?f _ _] => set (body := f) end.
  destruct (foldM_inv body (λ l found, found = bool_decide (item ∈ vals <$> l)) positions false) as (found & -> & ->); [done| |done].
  intros l1 i l2 found Hl ->. unfold body. eexists. split; [|reflexivity].
  rewrite fmap_app. cbn [fmap list_fmap]. case_bool_decide as Hf.
  - rewrite bool_decide_true by set_solver. done.
  - rewrite Hv by (rewrite Hl; set_solver). cbn [mbind outcome_bind]. f_equal. apply bool_decide_ext. set_solver.
Qed.

Lemma collides_prefix out l item : prefix out l → collides out (seqZ 0 (Z.of_nat (length l))) item = Ret (bool_decide (item ∈ l)).
Proof.
  intros Hp. rewrite (collides_spec _ _ (λ i, default 0 (l !! Z.to_nat i))).
  - f_equal. apply bool_decide_ext. assert ((λ i, default 0 (l !! Z.to_nat i)) <$> seqZ 0 (Z.of_nat (length l)) = l) as ->; [|done].
    apply list_eq. intros i. rewrite list_lookup_fmap.
    destruct (l !! i) as [a|] eqn:Hi.
    + pose proof (lookup_lt_Some _ _ _ Hi). rewrite (proj2 (lookup_seqZ 0 _ i (Z.of_nat i))) by lia. cbn. by rewrite Nat2Z.id, Hi.
    + apply lookup_ge_None in Hi. rewrite lookup_seqZ_ge by lia. done.
  - intros i Hi%elem_of_seqZ_range. destruct (lookup_lt_is_Some_2 l (Z.to_nat i)) as [a Ha]; [lia|]. rewrite Ha. cbn.
    apply value_at_ok; [lia|]. by eapply prefix_lookup.
Qed.

(** ** Computations that do not depend on the working store *)

Definition runs (map : crush_map) {A} (m : crush A) (a : A) : Prop :=
  ∀ w, work_ok map w → ∃ w', m w = Ret (a, w') ∧ work_ok map w'.

Section placement.
Context (map : crush_map) (rank : Z → nat) (Hmap : map_ok map rank).
Context (wgt : list Z) (x : Z) (choose_args : option (list crush_choose_arg)) (Hargs : args_ok map choose_args).

Lemma runs_ret {A} (a : A) : runs map (mret a) a.
Proof. intros w Hw. by exists w. Qed.

Lemma runs_bind {A B} (m : crush A) (k : A → crush B) a b : runs map m a → runs map (k a) b → runs map (m ≫= k) b.
Proof.
  intros Hm Hk w Hw. destruct (Hm w Hw) as (w1 & H1 & Hw1). destruct (Hk w1 Hw1) as (w2 & H2 & Hw2).
  exists w2. split; [|done]. unfold mbind, crush_bind. rewrite H1. exact H2.
Qed.

Lemma runs_lift {A} (o : outcome A) a : o = Ret a → runs map (lift o) a.
Proof. intros -> w Hw. by exists w. Qed.

Lemma runs_lift_bind {A B} (o : outcome A) (k : A → crush B) a b : o = Ret a → runs map (k a) b → runs map (lift o ≫= k) b.
Proof. intros Ho. apply runs_bind. by apply runs_lift. Qed.

Lemma bucket_number item b : bucket_of map item = Some b → item < 0 ∧ 0 ≤ -1 - item < max_buckets map ∧ -1 - id b = -1 - item.
Proof.
  intros Hb. destruct (map_bucket _ _ Hmap item b Hb) as [-> _]. unfold bucket_of in Hb. case_bool_decide as Hneg; [|done].
  destruct (buckets map !! Z.to_nat (-1 - item)) as [ob|] eqn:Hl; [|done]. pose proof (lookup_lt_Some _ _ _ Hl). unfold max_buckets. lia.
Qed.

Lemma bucket_at_spec item b : bucket_of map item = Some b → bucket_at map (-1 - item) = Ret b.
Proof.
  intros Hb. destruct (bucket_number _ _ Hb) as (Hneg & Hr & _). unfold bucket_of in Hb. rewrite bool_decide_true in Hb by done.
  unfold bucket_at. destruct (buckets map !! Z.to_nat (-1 - item)) as [ob|] eqn:Hl; [|done]. cbn in Hb. subst ob.
  by rewrite (at_index_ok _ _ (Some b)) by (lia || done).
Qed.

Lemma runs_with_work {A} item b (f : crush_work_bucket → outcome (A * crush_work_bucket)) a :
  bucket_of map item = Some b → (∀ wb, work_bucket_ok b wb → ∃ wb', f wb = Ret (a, wb') ∧ work_bucket_ok b wb') →
  runs map (with_work b f) a.
Proof.
  intros Hb Hf w Hw. destruct (Hw item b Hb) as (wb & Hl & Hwb). destruct (Hf wb Hwb) as (wb' & Hfw & Hwb').
  destruct (bucket_number _ _ Hb) as (Hneg & Hr & Hid). unfold with_work. rewrite Hid.
  rewrite (at_index_ok _ _ (Some wb)) by (lia || done). cbn [mbind outcome_bind need]. rewrite Hfw. cbn [mbind outcome_bind].
  eexists. split; [reflexivity|]. intros item' b' Hb'. destruct (decide (item' = item)) as [->|Hne].
  - rewrite Hb in Hb'. injection Hb' as <-. exists wb'. split; [|done]. rewrite list_lookup_insert_eq; [done|]. by eapply lookup_lt_Some.
  - destruct (Hw item' b' Hb') as (wb1 & Hl1 & Hwb1). exists wb1. split; [|done]. rewrite list_lookup_insert_ne; [done|].
    destruct (bucket_number _ _ Hb') as (Hneg' & Hr' & _). lia.
Qed.

Lemma choose_arg_spec item b : bucket_of map item = Some b → ∃ arg, choose_arg choose_args b = Ret arg ∧ arg_ok b arg.
Proof.
  intros Hb. unfold choose_arg. destruct choose_args as [args|] eqn:Ha; [|by exists None].
  destruct (Hargs args eq_refl) as [Hlen Hok]. destruct (bucket_number _ _ Hb) as (Hneg & Hr & Hid). rewrite Hid.
  destruct (at_index_lt args (-1 - item)) as (arg & Hl & ->); [unfold max_buckets in *; lia|]. exists (Some arg). split; [done|].
  by eapply Hok.
Qed.

Lemma choose_in_spec item b r position :
  bucket_of map item = Some b → 0 < size b → 0 ≤ position < 2 ^ 31 →
  ∃ i, child map item i ∧ runs map (choose_in x choose_args b r position) i.
Proof.
  intros Hb Hs Hp. destruct (choose_arg_spec item b Hb) as (arg & Harg & Hok).
  destruct (map_bucket _ _ Hmap item b Hb) as (_ & _ & Hbok).
  destruct (crush_bucket_choose_spec b x r arg position Hbok Hs Hok Hp) as (i & Hin & Hrun).
  exists i. split; [by exists b|]. unfold choose_in. eapply runs_lift_bind; [exact Harg|]. by eapply runs_with_work.
Qed.

Lemma perm_choose_spec item b r :
  bucket_of map item = Some b → 0 < size b →
  ∃ i, child map item i ∧ runs map (with_work b (λ wb, bucket_perm_choose b wb x r)) i.
Proof.
  intros Hb Hs. destruct (map_bucket _ _ Hmap item b Hb) as (_ & _ & Hmax & _).
  exists (perm_item b x r). split; [exists b; split; [done|]; apply perm_item_in; lia|].
  eapply runs_with_work; [exact Hb|]. intros wb Hwb. apply bucket_perm_choose_spec; [lia|done].
Qed.

(** ** Items *)

Definition type_of (i : Z) : option Z :=
  if bool_decide (0 ≤ i < max_devices map) then Some 0 else type <$> bucket_of map i.

(** An item of a type that is not out. *)
Definition placed (t i : Z) : Prop := type_of i = Some t ∧ (t = 0 → is_out wgt i x = Ret false).

Lemma child_cases p i :
  child map p i →
  i < max_devices map ∧
  (0 ≤ i ∧ item_type map i = Ret 0 ∧ type_of i = Some 0
   ∨ i < 0 ∧ -1 - i < max_buckets map ∧ ∃ b, bucket_of map i = Some b ∧ item_type map i = Ret (type b)
       ∧ type_of i = Some (type b) ∧ 0 < type b ∧ (rank i < rank p)%nat).
Proof.
  intros (b & Hb & Hin). pose proof (map_devices _ _ Hmap). unfold item_type, type_of.
  destruct (map_items _ _ Hmap p b i Hb Hin) as [Hdev|(b' & Hb' & Hrank)].
  - split; [lia|]. left. rewrite bool_decide_false, bool_decide_true by lia. split_and!; [lia|done|done].
  - destruct (bucket_number _ _ Hb') as (Hneg & Hr & _). split; [lia|]. right. split; [done|]. split; [lia|]. exists b'.
    rewrite (bool_decide_true (i < 0)), bool_decide_false, Hb', (bucket_at_spec _ _ Hb') by lia.
    destruct (map_bucket _ _ Hmap i b' Hb') as (_ & Ht & _). done.
Qed.

Lemma is_out_total i : 0 ≤ i → ∃ o, is_out wgt i x = Ret o.
Proof.
  intros Hi. unfold is_out. case_bool_decide as Hlt; [by eexists|].
  destruct (at_index_lt wgt i) as (w & _ & ->); [lia|]. cbn [mbind outcome_bind]. repeat case_bool_decide; by eexists.
Qed.

Lemma device_no_child i j : 0 ≤ i → ¬ child map i j.
Proof. intros Hi (b & Hb & _). unfold bucket_of in Hb. by rewrite bool_decide_false in Hb by lia. Qed.

Lemma below_device i j : 0 ≤ i → below map i j → j = i.
Proof. intros Hi Hb. inversion Hb as [|? k ? Hc _]; [done|]. by apply device_no_child in Hc. Qed.

Lemma below_child p i : child map p i → below map p i.
Proof. apply rtc_once. Qed.

Lemma placed_device i : placed 0 i → 0 ≤ i < max_devices map.
Proof.
  intros [Ht _]. unfold type_of in Ht. case_bool_decide as Hd; [done|].
  destruct (bucket_of map i) as [b|] eqn:Hb; [|done]. destruct (map_bucket _ _ Hmap i b Hb) as (_ & Hp & _).
  injection Ht as Ht. lia.
Qed.

Lemma below_devices l l2 : Forall2 (below map) l l2 → Forall (placed 0) l → l = l2.
Proof.
  induction 1 as [|i j l l2 Hij Hb IH]; intros Hp; [done|]. apply Forall_cons in Hp as [Hi Hp]. apply placed_device in Hi.
  rewrite (below_device i j) by (done || lia). by rewrite IH.
Qed.

(** ** Retries *)

(** Arguments that are far from overflows. *)
Definition LIMIT : Z := 2 ^ 20.
Record firstn_ok (a : firstn_args) : Prop := {
  ok_numrep : f_numrep a ≤ LIMIT;
  ok_tries : 0 ≤ f_tries a ≤ LIMIT;
  ok_recurse_tries : 0 ≤ f_recurse_tries a ≤ LIMIT;
  ok_local : 0 ≤ f_local_retries a ≤ LIMIT;
  ok_fallback : 0 ≤ f_local_fallback_retries a ≤ LIMIT;
  ok_vary_r : 0 ≤ f_vary_r a ≤ 32;
}.

Definition LOCAL_MAX : Z := LIMIT + 2 ^ 16.
Lemma limits : LIMIT = 1048576 ∧ LOCAL_MAX = 1114112.
Proof. done. Qed.

Definition counters (a : firstn_args) (ftotal flocal : Z) : Prop :=
  0 ≤ flocal ≤ LOCAL_MAX ∧ 0 ≤ ftotal ≤ f_tries a + flocal.

Lemma firstn_retry_cases a bucket b collide ftotal flocal :
  firstn_ok a → size b < 0xffff → counters a ftotal flocal →
  (∀ R (again : crush_bucket → Z → Z → R) skip,
     firstn_retry a bucket b collide ftotal flocal again skip = again b (ftotal + 1) (flocal + 1)) ∧ flocal + 1 ≤ LOCAL_MAX
  ∨ (∀ R (again : crush_bucket → Z → Z → R) skip,
       firstn_retry a bucket b collide ftotal flocal again skip = again bucket (ftotal + 1) 0) ∧ ftotal + 1 < f_tries a
  ∨ (∀ R (again : crush_bucket → Z → Z → R) skip, firstn_retry a bucket b collide ftotal flocal again skip = skip).
Proof.
  intros Ha Hs (Hfl & Hft). destruct Ha. pose proof limits. unfold firstn_retry. assert (0 ≤ size b) by (unfold size; lia).
  rewrite !u32_small by lia. case_bool_decide as H1; cbn [andb].
  - destruct collide; cbn [andb]; [left; split; [done|lia]|].
    case_bool_decide; [left; split; [done|lia]|]. case_bool_decide; [right; left; done|by right; right].
  - rewrite andb_false_r. case_bool_decide; [left; split; [done|lia]|]. case_bool_decide; [right; left; done|by right; right].
Qed.

(** ** One item *)

(** Computations with enough fuel. *)
Definition runs_fuel {A} (m : nat → nat → crush A) (a : A) : Prop :=
  ∃ N, ∀ fuel F, (N ≤ fuel)%nat → (N ≤ F)%nat → runs map (m fuel F) a.

Lemma runs_fuel_const {A} (m : crush A) a : runs map m a → runs_fuel (λ _ _, m) a.
Proof. intros Hm. by exists 0%nat. Qed.

Lemma runs_fuel_bind {A B} (m : nat → nat → crush A) (k : nat → nat → A → crush B) a b :
  runs_fuel m a → runs_fuel (λ f F, k f F a) b → runs_fuel (λ f F, m f F ≫= k f F) b.
Proof.
  intros [N1 H1] [N2 H2]. exists (N1 + N2)%nat. intros f F Hf HF. eapply runs_bind; [apply H1; lia|apply H2; lia].
Qed.

Lemma runs_fuel_lift {A B} (o : outcome A) (k : nat → nat → A → crush B) a b :
  o = Ret a → runs_fuel (λ f F, k f F a) b → runs_fuel (λ f F, lift o ≫= k f F) b.
Proof. intros Ho. apply (runs_fuel_bind (λ _ _, lift o)). apply runs_fuel_const. by apply runs_lift. Qed.

Lemma runs_fuel_S {A} (m : nat → nat → crush A) a (m' : nat → nat → crush A) :
  (∀ f F, m (S f) F = m' f F) → runs_fuel m' a → runs_fuel m a.
Proof.
  intros Hm [N HN]. exists (S N). intros [|f] F Hf HF; [lia|]. rewrite Hm. apply HN; lia.
Qed.

Abbreviation recursion := (firstn_args → crush_bucket → vector → Z → Z → option vector → Z → crush (Z * vector * option vector)).

(** What the recursive call for a leaf does: it adds at most one device. *)
Definition leaf_post (item : Z) (v : vector) (l : list Z) (res : Z * vector * option vector) : Prop :=
  ∃ v' new, res = (Z.of_nat (length l + length new), v', None) ∧ (length new ≤ 1)%nat
    ∧ prefix v' (l ++ new) ∧ length v' = length v ∧ NoDup new
    ∧ Forall (λ i, (i ∉ l) ∧ placed 0 i ∧ below map item i) new.

Definition leaf_spec (recurse : nat → recursion) (a : firstn_args) : Prop :=
  ∀ item b v l sub_r count,
    bucket_of map item = Some b → prefix v l → Z.of_nat (length l) + count ≤ Z.of_nat (length v) < LIMIT →
    0 < count → 0 ≤ sub_r ≤ 2 ^ 23 →
    ∃ res, runs_fuel (λ _ F, recurse F (leaf_args a (Z.of_nat (length l))) b v (Z.of_nat (length l)) count None sub_r) res
      ∧ leaf_post item v l res.

(** The state of the second vector: with leaves, or as it was given. *)
Definition leaves (a : firstn_args) (given : option vector) (l2 : list Z) (out2 : option vector) : Prop :=
  if f_recurse_to_leaf a then ∃ v v0, out2 = Some v ∧ given = Some v0 ∧ length v = length v0 ∧ prefix v l2
  else out2 = given.

(** What is found for a replica. *)
Definition item_post (a : firstn_args) (root : Z) (l l2 : list Z) (given : option vector) (res : option Z * option vector) : Prop :=
  match res with
  | (None, out2) => leaves a given l2 out2
  | (Some item, out2) => (item ∉ l) ∧ placed (f_type a) item ∧ below map root item
      ∧ if f_recurse_to_leaf a then ∃ leaf, leaves a given (l2 ++ [leaf]) out2 ∧ (leaf ∉ l2) ∧ placed 0 leaf ∧ below map item leaf
        else out2 = given
  end.

Section firstn.
Context (recurse : nat → recursion) (a : firstn_args) (Ha : firstn_ok a).
Context (Hrec : f_recurse_to_leaf a = true → leaf_spec recurse a).
Context (root : Z) (bucket : crush_bucket) (Hroot : bucket_of map root = Some bucket).
Context (out : vector) (l l2 : list Z) (given : option vector) (count rep parent_r : Z).
Context (Hout : prefix out l) (Hl : Z.of_nat (length l) < LIMIT) (Hcount : 0 < count).
Context (Hrep : 0 ≤ rep < LIMIT) (Hparent : 0 ≤ parent_r ≤ 2 ^ 23) (Hparent0 : f_recurse_to_leaf a = true → parent_r = 0).
Context (Hl2 : f_recurse_to_leaf a = true → Forall2 (below map) l l2 ∧ Forall (placed (f_type a)) l).
Context (Hspace : f_recurse_to_leaf a = true → ∃ v0, given = Some v0 ∧ Z.of_nat (length l) + count ≤ Z.of_nat (length v0) < LIMIT).

#[local] Abbreviation outpos := (Z.of_nat (length l)).
#[local] Abbreviation found fuel F b ftotal flocal out2 :=
  (firstn_item map wgt x choose_args fuel (recurse F) a bucket b rep parent_r ftotal flocal out outpos count out2).

(** With leaves for devices the two vectors hold the same. *)
Lemma device_leaves item : f_recurse_to_leaf a = true → f_type a = 0 → item ∉ l → item ∉ l2.
Proof.
  intros Hleaf Ht Hi. destruct (Hl2 Hleaf) as [Hb Hp]. rewrite Ht in Hp. by rewrite <-(below_devices l l2).
Qed.

Lemma sub_r_spec r :
  0 ≤ r < 2 ^ 23 → ∃ sub_r, (if bool_decide (f_vary_r a ≠ 0) then shift_int r (u32 (f_vary_r a - 1)) else Ret 0) = Ret sub_r ∧ 0 ≤ sub_r ≤ 2 ^ 23.
Proof.
  intros Hr. pose proof (ok_vary_r _ Ha). case_bool_decide as Hv; [|by exists 0].
  unfold shift_int. rewrite u32_small, bool_decide_true by lia. eexists. split; [reflexivity|].
  rewrite Z.shiftr_div_pow2 by lia. assert (0 < 2 ^ (f_vary_r a - 1)) by (apply Z.pow_pos_nonneg; lia).
  split; [apply Z.div_pos; lia|]. transitivity r; [|lia]. apply Z.div_le_upper_bound; nia.
Qed.

(** The leaf of an item. *)
Lemma firstn_leaf_spec p item r out2 :
  f_recurse_to_leaf a = true → child map p item → item ∉ l → type_of item = Some (f_type a) →
  leaves a given l2 out2 → 0 ≤ r < 2 ^ 23 →
  ∃ reject out2', runs_fuel (λ _ F, firstn_leaf map (recurse F) a item r outpos count out2) (reject, out2')
    ∧ leaves a given l2 out2'
    ∧ (reject = false → ∃ leaf, leaves a given (l2 ++ [leaf]) out2' ∧ (leaf ∉ l2) ∧ below map item leaf
         ∧ (item < 0 → placed 0 leaf) ∧ (0 ≤ item → leaf = item)).
Proof.
  intros Hleaf Hchild Hnew Htype Hout2 Hr.
  assert (length l2 = length l) as Hlen by (symmetry; eapply Forall2_length; by apply Hl2). unfold leaves in Hout2 |- *. rewrite Hleaf in Hout2 |- *.
  destruct Hout2 as (v & v0 & -> & Hg & Hlv & Hpv). destruct (Hspace Hleaf) as (v0' & Hg' & Hsp). rewrite Hg in Hg'. injection Hg' as <-.
  destruct (child_cases _ _ Hchild) as (_ & [(Hpos & _ & Ht)|(Hneg & _ & b & Hb & _)]).
  - destruct (prefix_store v l2 item) as [Hst Hpre]; [done|lia|]. rewrite Hlen in Hst, Hpre.
    exists false, (Some (<[length l := Some item]> v)). split; [|split].
    + unfold firstn_leaf. eapply runs_fuel_lift; [reflexivity|]. rewrite bool_decide_false by lia.
      eapply runs_fuel_lift; [exact Hst|]. apply runs_fuel_const, runs_ret.
    + eexists _, _. split_and!; [reflexivity|exact Hg|by rewrite length_insert|]. rewrite <-Hlen. by apply prefix_store_beyond.
    + intros _. exists item. split; [eexists _, _; split_and!; [reflexivity|exact Hg|by rewrite length_insert|done]|].
      split; [apply device_leaves; [done|congruence|done]|]. split; [reflexivity|]. split; [lia|done].
  - destruct (sub_r_spec r Hr) as (sub_r & Hsub & Hsr).
    destruct (Hrec Hleaf item b v l2 sub_r count Hb Hpv ltac:(lia) Hcount Hsr) as (res & Hrun & (v' & new & -> & Hone & Hpre & Hlv' & Hnd & Hnews)).
    rewrite Hlen in Hrun. eexists (bool_decide (Z.of_nat (length l + length new) ≤ outpos)), (Some v'). split; [|split].
    + unfold firstn_leaf. eapply runs_fuel_lift; [reflexivity|]. rewrite bool_decide_true by lia.
      eapply runs_fuel_lift; [exact Hsub|]. eapply runs_fuel_lift; [by apply bucket_at_spec|].
      eapply runs_fuel_bind; [exact Hrun|]. apply runs_fuel_const, runs_ret.
    + eexists _, _. split_and!; [reflexivity|exact Hg|lia|]. unfold prefix in *. rewrite length_app, fmap_app in Hpre.
      apply (f_equal (take (length l2))) in Hpre. rewrite take_take, Nat.min_l, take_app_length' in Hpre by (rewrite ?length_fmap; lia). done.
    + intros Hgot%bool_decide_eq_false. destruct new as [|leaf [|]]; [cbn in Hgot; lia| |cbn in Hone; lia].
      apply Forall_singleton in Hnews as (Hn1 & Hn2 & Hn3). exists leaf. split; [eexists _, _; split_and!; [reflexivity|exact Hg|lia|done]|].
      split_and!; [done|done|done|lia].
Qed.

(** From the label [reject] on. *)
Lemma firstn_retry_spec (again : nat → nat → crush_bucket → Z → Z → crush (option Z * option vector)) (P : option Z * option vector → Prop)
    item0 b collide ftotal flocal out2 :
  bucket_of map item0 = Some b → counters a ftotal flocal → P (None, out2) →
  (flocal + 1 ≤ LOCAL_MAX → ∃ res, runs_fuel (λ f F, again f F b (ftotal + 1) (flocal + 1)) res ∧ P res) →
  (ftotal + 1 < f_tries a → ∃ res, runs_fuel (λ f F, again f F bucket (ftotal + 1) 0) res ∧ P res) →
  ∃ res, runs_fuel (λ f F, firstn_retry a bucket b collide ftotal flocal (again f F) (mret (None, out2))) res ∧ P res.
Proof.
  intros Hb Hcnt Hskip Hlocal Hdescent. destruct (map_bucket _ _ Hmap item0 b Hb) as (_ & _ & Hsz & _).
  destruct (firstn_retry_cases a bucket b collide ftotal flocal Ha Hsz Hcnt) as [[E Hle]|[[E Hlt]|E]].
  - destruct (Hlocal Hle) as (res & [N HN] & Hres). exists res. split; [|done]. exists N. intros f F. rewrite E. apply HN.
  - destruct (Hdescent Hlt) as (res & [N HN] & Hres). exists res. split; [|done]. exists N. intros f F. rewrite E. apply HN.
  - exists (None, out2). split; [|done]. exists 0%nat. intros f F _ _. rewrite E. apply runs_ret.
Qed.

(** The choice of an item in a bucket that is not empty. *)
Lemma firstn_choice item0 b r flocal :
  bucket_of map item0 = Some b → 0 < size b →
  ∃ item, child map item0 item
    ∧ runs map (if bool_decide (0 < f_local_fallback_retries a ∧ Z.shiftr (size b) 1 ≤ flocal ∧ f_local_fallback_retries a < flocal)
                then with_work b (λ wb, bucket_perm_choose b wb x r) else choose_in x choose_args b r outpos) item.
Proof.
  intros Hb Hs. pose proof limits. case_bool_decide; [by eapply perm_choose_spec|]. eapply choose_in_spec; [done|done|lia].
Qed.

(** A new item of the type that is wanted, from the leaf on. *)
Lemma firstn_accept p item r out2 (retry : nat → nat → bool → option vector → crush (option Z * option vector)) :
  child map p item → below map root item → item_type map item = Ret (f_type a) → type_of item = Some (f_type a) →
  leaves a given l2 out2 → (f_recurse_to_leaf a = true → 0 ≤ r < 2 ^ 23) →
  (∀ collide out2', leaves a given l2 out2' → ∃ res, runs_fuel (λ f F, retry f F collide out2') res ∧ item_post a root l l2 given res) →
  ∃ res, runs_fuel (λ f F,
      collide ← lift (collides out (seqZ 0 outpos) item);
      '(reject, out2) ← (if negb collide && f_recurse_to_leaf a then firstn_leaf map (recurse F) a item r outpos count out2
                         else mret (false, out2));
      reject ← (if negb reject && negb collide && bool_decide (f_type a = 0) then lift (is_out wgt item x) else mret reject);
      if reject || collide then retry f F collide out2 else mret (Some item, out2)) res
    ∧ item_post a root l l2 given res.
Proof.
  intros Hc Hbelow Hit Hto Ho2 Hr Hretry. set (collide := bool_decide (item ∈ l)).
  assert (∃ reject out2', runs_fuel (λ _ F, if negb collide && f_recurse_to_leaf a then firstn_leaf map (recurse F) a item r outpos count out2
      else mret (false, out2)) (reject, out2') ∧ leaves a given l2 out2'
      ∧ (collide = false → reject = false → placed (f_type a) item → item_post a root l l2 given (Some item, out2')))
    as (reject & out2' & Hleaf & Ho2' & Hpost).
  { subst collide. case_bool_decide as Hin; cbn [negb andb].
    { exists false, out2. split; [apply runs_fuel_const, runs_ret|]. done. }
    destruct (decide (f_recurse_to_leaf a = true)) as [Hrl|Hrl%not_true_is_false]; rewrite Hrl.
    - destruct (firstn_leaf_spec p item r out2) as (reject & o' & Hrun & Hl' & Hgot); [done..|by apply Hr|].
      exists reject, o'. split; [done|]. split; [done|]. intros _ Hrej Hp. destruct (Hgot Hrej) as (leaf & Hll & Hn & Hbl & Hneg & Hpos).
      cbn. rewrite Hrl. split_and!; [done|done|done|]. exists leaf. split_and!; [done|done| |done].
      destruct (child_cases _ _ Hc) as (_ & [(Hpos' & _ & Ht)|(Hneg' & _)]); [|by apply Hneg].
      rewrite Hpos by done. by replace 0 with (f_type a) by congruence.
    - exists false, out2. split; [apply runs_fuel_const, runs_ret|]. split; [done|]. intros _ _ Hp. cbn. rewrite Hrl.
      unfold leaves in Ho2. rewrite Hrl in Ho2. done. }
  destruct (child_cases _ _ Hc) as (_ & Hcase).
  assert (∃ o, (f_type a = 0 → is_out wgt item x = Ret o) ∧ (f_type a ≠ 0 → o = false)) as (o & Ho & Ho').
  { destruct (decide (f_type a = 0)) as [Ht|Ht]; [|by exists false]. destruct Hcase as [(Hpos & _)|(_ & _ & b & _ & Hib & _ & Hpos & _)].
    - destruct (is_out_total item Hpos) as (o & Ho). by exists o.
    - rewrite Hit in Hib. injection Hib. lia. }
  set (reject' := if negb reject && negb collide && bool_decide (f_type a = 0) then o else reject).
  assert (∃ res, runs_fuel (λ f F, if reject' || collide then retry f F collide out2' else mret (Some item, out2')) res
    ∧ item_post a root l l2 given res) as (res & Hres & Hp).
  { destruct (reject' || collide) eqn:Hrc; [by apply Hretry|]. exists (Some item, out2'). split; [apply runs_fuel_const, runs_ret|].
    apply orb_false_iff in Hrc as [Hr' Hcf]. unfold reject' in Hr'. rewrite Hcf in Hr'. destruct reject; [done|]. cbn [negb andb] in Hr'.
    apply Hpost; [done|done|]. split; [done|]. intros Ht. rewrite bool_decide_true in Hr' by done. rewrite Ho by done. by rewrite Hr'. }
  exists res. split; [|done]. eapply runs_fuel_lift; [by apply collides_prefix|]. fold collide.
  eapply runs_fuel_bind; [exact Hleaf|]. cbv beta iota. eapply runs_fuel_bind; [|exact Hres]. unfold reject'.
  apply runs_fuel_const. destruct (negb reject && negb collide); cbn [andb]; [|apply runs_ret].
  case_bool_decide as Ht; [apply runs_lift; by apply Ho|apply runs_ret].
Qed.

(** The next states of the loop: into a bucket, again, or from the start. *)
Definition next_state (item0 ftotal flocal item' ftotal' flocal' : Z) : Prop :=
  ftotal' = ftotal ∧ flocal' = flocal ∧ (rank item' < rank item0)%nat
  ∨ ftotal' = ftotal + 1 ∧ flocal' = flocal + 1 ∧ item' = item0 ∧ flocal' ≤ LOCAL_MAX
  ∨ ftotal' = ftotal + 1 ∧ flocal' = 0 ∧ item' = root ∧ ftotal' < f_tries a.

Lemma firstn_item_round item0 b ftotal flocal out2 :
  bucket_of map item0 = Some b → below map root item0 → counters a ftotal flocal → leaves a given l2 out2 →
  (∀ item' b' ftotal' flocal' out2', bucket_of map item' = Some b' → below map root item' → counters a ftotal' flocal' →
     leaves a given l2 out2' → next_state item0 ftotal flocal item' ftotal' flocal' →
     ∃ res, runs_fuel (λ fuel F, found fuel F b' ftotal' flocal' out2') res ∧ item_post a root l l2 given res) →
  ∃ res, runs_fuel (λ fuel F, found fuel F b ftotal flocal out2) res ∧ item_post a root l l2 given res.
Proof.
  intros Hb Hbelow Hcnt Hout2 Hnext. pose proof Hcnt as [Hfl Hft]. pose proof (ok_tries _ Ha) as Htries.
  assert (∀ collide out2', leaves a given l2 out2' → ∃ res, runs_fuel (λ fuel F,
      firstn_retry a bucket b collide ftotal flocal (λ b ftotal flocal, found fuel F b ftotal flocal out2') (mret (None, out2'))) res
      ∧ item_post a root l l2 given res) as Hretry.
  { intros collide out2' Ho2. apply (firstn_retry_spec (λ fuel F b ftotal flocal, found fuel F b ftotal flocal out2') _ item0); [done..| |].
    - intros Hle. apply (Hnext item0); [done|done| |done|right; left; done]. split; lia.
    - intros Hlt. apply (Hnext root); [done|reflexivity| |done|right; right; done]. pose proof limits. unfold counters. lia. }
  pose proof limits. assert (0 ≤ rep + parent_r + ftotal < 2 ^ 31) by lia.
  assert (s32 (rep + parent_r + ftotal) = rep + parent_r + ftotal) as Hs32 by (apply s32_small; lia).
  assert (add_int rep parent_r = Ret (rep + parent_r)) as Hadd by (unfold add_int; by rewrite bool_decide_true by lia).
  destruct (decide (size b = 0)) as [Hz|Hnz].
  { destruct (Hretry false out2 Hout2) as (res & Hres & Hp). exists res. split; [|done]. eapply runs_fuel_S; [intros f F; reflexivity|].
    eapply runs_fuel_lift; [exact Hadd|]. cbv beta zeta. rewrite bool_decide_true by done. exact Hres. }
  assert (0 < size b) as Hs by (unfold size in *; lia).
  destruct (firstn_choice item0 b (rep + parent_r + ftotal) flocal Hb Hs) as (item & Hc & Hchoice).
  destruct (child_cases _ _ Hc) as (Hmaxd & Hcase).
  assert (∃ t, item_type map item = Ret t ∧ type_of item = Some t) as (t & Hit & Hto).
  { destruct Hcase as [(_ & ? & ?)|(_ & _ & b' & _ & ? & ? & _)]; by eexists. }
  assert (∃ res, runs_fuel (λ fuel F,
      if bool_decide (t ≠ f_type a) then
        if bool_decide (0 ≤ item ∨ max_buckets map ≤ -1 - item) then mret (None, out2)
        else b' ← lift (bucket_at map (-1 - item)); found fuel F b' ftotal flocal out2
      else
      collide ← lift (collides out (seqZ 0 outpos) item);
      '(reject, out2) ← (if negb collide && f_recurse_to_leaf a
        then firstn_leaf map (recurse F) a item (rep + parent_r + ftotal) outpos count out2 else mret (false, out2));
      reject ← (if negb reject && negb collide && bool_decide (t = 0) then lift (is_out wgt item x) else mret reject);
      if reject || collide then firstn_retry a bucket b collide ftotal flocal (λ b ftotal flocal, found fuel F b ftotal flocal out2)
        (mret (None, out2)) else mret (Some item, out2)) res ∧ item_post a root l l2 given res) as (res & Hres & Hp).
  { assert (below map root item) as Hbi by (eapply rtc_r; [exact Hbelow|exact Hc]).
    destruct (decide (t = f_type a)) as [->|Ht]; [rewrite (bool_decide_false (f_type a ≠ f_type a)) by tauto|rewrite (bool_decide_true (t ≠ f_type a)) by done].
    2:{ destruct Hcase as [(Hpos & _)|(Hneg & Hmb & b' & Hb' & _ & _ & _ & Hrank)].
      + rewrite (bool_decide_true (0 ≤ item ∨ _)) by lia. exists (None, out2). split; [apply runs_fuel_const, runs_ret|done].
      + rewrite (bool_decide_false (0 ≤ item ∨ _)) by lia. destruct (Hnext item b' ftotal flocal out2) as (res & Hres & Hp); [done|done|done|done|by left|].
        exists res. split; [|done]. eapply runs_fuel_lift; [by apply bucket_at_spec|]. exact Hres. }
      apply (firstn_accept item0 item _ out2 (λ fuel F collide out2, firstn_retry a bucket b collide ftotal flocal
        (λ b ftotal flocal, found fuel F b ftotal flocal out2) (mret (None, out2)))); try done. intros Hrl. rewrite (Hparent0 Hrl). lia. }
  exists res. split; [|done]. eapply runs_fuel_S; [intros f F; reflexivity|]. eapply runs_fuel_lift; [exact Hadd|].
  cbv beta zeta. rewrite Hs32, (bool_decide_false (size b = 0)) by done. eapply runs_fuel_bind; [apply runs_fuel_const; exact Hchoice|].
  cbv beta. rewrite (bool_decide_false (max_devices map ≤ item)) by lia. eapply runs_fuel_lift; [exact Hit|]. exact Hres.
Qed.

(** The loops end: the attempts that are left, then the local ones, then the
    rank of the bucket go down. *)
Lemma firstn_item_spec item0 b ftotal flocal out2 :
  bucket_of map item0 = Some b → below map root item0 → counters a ftotal flocal → leaves a given l2 out2 →
  ∃ res, runs_fuel (λ fuel F, found fuel F b ftotal flocal out2) res ∧ item_post a root l l2 given res.
Proof.
  intros Hb Hbelow Hcnt Hout2.
  remember (Z.to_nat (f_tries a - ftotal)) as d eqn:Hd. revert item0 b ftotal flocal out2 Hb Hbelow Hcnt Hout2 Hd.
  induction d as [d IHd] using lt_wf_ind. intros item0 b ftotal flocal out2 Hb Hbelow Hcnt Hout2 Hd.
  remember (Z.to_nat (LOCAL_MAX - flocal)) as m eqn:Hm. revert item0 b ftotal flocal out2 Hb Hbelow Hcnt Hout2 Hd Hm.
  induction m as [m IHm] using lt_wf_ind. intros item0 b ftotal flocal out2 Hb Hbelow Hcnt Hout2 Hd Hm.
  remember (rank item0) as k eqn:Hk. revert item0 b ftotal flocal out2 Hb Hbelow Hcnt Hout2 Hd Hm Hk.
  induction k as [k IHk] using lt_wf_ind. intros item0 b ftotal flocal out2 Hb Hbelow Hcnt Hout2 Hd Hm Hk.
  apply (firstn_item_round item0); [done..|].
  intros item' b' ftotal' flocal' out2' Hb' Hbelow' Hcnt' Hout2' Hns. pose proof (limits) as Hlim. pose proof (ok_tries _ Ha) as Ht.
  destruct Hcnt as [Hc1 Hc2]. destruct Hns as [(-> & -> & Hrank)|[(-> & -> & -> & Hle)|(-> & -> & -> & Hlt)]].
  - eapply (IHk (rank item')); try done. lia.
  - destruct (decide (Z.to_nat (f_tries a - (ftotal + 1)) < d)%nat) as [Hlt|Hge].
    + eapply (IHd _ Hlt); done.
    + eapply (IHm (Z.to_nat (LOCAL_MAX - (flocal + 1)))); try done; lia.
  - eapply (IHd (Z.to_nat (f_tries a - (ftotal + 1)))); try done. lia.
Qed.

End firstn.

(** ** Several items *)

(** What is added to the vectors. *)
Definition firstn_post (a : firstn_args) (root : Z) (l l2 : list Z) (out : vector) (given : option vector) (most : nat)
    (res : Z * vector * option vector) : Prop :=
  ∃ new newl out' out2', res = (Z.of_nat (length l + length new), out', out2')
    ∧ (length new ≤ most)%nat ∧ length out' = length out ∧ prefix out' (l ++ new)
    ∧ NoDup new ∧ Forall (λ i, (i ∉ l) ∧ placed (f_type a) i ∧ below map root i) new
    ∧ if f_recurse_to_leaf a
      then leaves a given (l2 ++ newl) out2' ∧ Forall2 (below map) new newl ∧ NoDup newl ∧ Forall (λ i, (i ∉ l2) ∧ placed 0 i) newl
      else out2' = given.

(** The vectors before, with room for [count] more. *)
Definition firstn_pre (a : firstn_args) (l l2 : list Z) (out : vector) (count : Z) (given : option vector) : Prop :=
  prefix out l ∧ Z.of_nat (length l) + count ≤ Z.of_nat (length out) ∧ Z.of_nat (length out) < LIMIT
  ∧ (f_recurse_to_leaf a = true → Forall2 (below map) l l2 ∧ Forall (placed (f_type a)) l
       ∧ ∃ v, given = Some v ∧ prefix v l2 ∧ Z.of_nat (length l) + count ≤ Z.of_nat (length v) < LIMIT).

Lemma pre_leaves a l l2 out count given : firstn_pre a l l2 out count given → leaves a given l2 given.
Proof.
  intros (_ & _ & _ & H). unfold leaves. destruct (f_recurse_to_leaf a) eqn:E; [|done]. destruct (H eq_refl) as (_ & _ & v & -> & Hv & _). by exists v, v.
Qed.

(** One more item. *)
Lemma pre_next a root l l2 out count given item out2 :
  firstn_pre a l l2 out count given → 0 < count → item_post a root l l2 given (Some item, out2) →
  ∃ l2', firstn_pre a (l ++ [item]) l2' (<[length l := Some item]> out) (count - 1) out2
    ∧ store_at out (Z.of_nat (length l)) (Some item) = Ret (<[length l := Some item]> out)
    ∧ (f_recurse_to_leaf a = true → ∃ leaf, l2' = l2 ++ [leaf] ∧ (leaf ∉ l2) ∧ placed 0 leaf ∧ below map item leaf)
    ∧ (f_recurse_to_leaf a = false → l2' = l2).
Proof.
  intros (Hp & Hs1 & Hs2 & Hl) Hc (Hnew & Hpl & Hbel & Hleaf). destruct (prefix_store out l item Hp) as [Hst Hp']; [lia|].
  assert (∃ l2', (f_recurse_to_leaf a = true → ∃ leaf, l2' = l2 ++ [leaf] ∧ (leaf ∉ l2) ∧ placed 0 leaf ∧ below map item leaf
        ∧ ∃ v, out2 = Some v ∧ prefix v l2' ∧ Z.of_nat (length (l ++ [item])) + (count - 1) ≤ Z.of_nat (length v) < LIMIT)
      ∧ (f_recurse_to_leaf a = false → l2' = l2)) as (l2' & Hyes & Hno).
  { destruct (f_recurse_to_leaf a) eqn:E; [|by exists l2]. destruct Hleaf as (leaf & Hlv & Hn & Hp0 & Hb). exists (l2 ++ [leaf]). split; [|done].
    intros _. exists leaf. split_and!; [done..|]. unfold leaves in Hlv. rewrite E in Hlv. destruct Hlv as (v & v0 & -> & Hg & Hlen & Hpv).
    exists v. split; [done|]. split; [done|]. destruct (Hl eq_refl) as (_ & _ & v1 & Hg1 & _ & Hsp). rewrite Hg in Hg1. injection Hg1 as <-.
    rewrite length_app. cbn. lia. }
  exists l2'. split_and!; [|done| |done].
  - split_and!; [done|rewrite length_app, length_insert; cbn; lia|by rewrite length_insert|]. intros E.
    destruct (Hl E) as (Hb2 & Hpls & _). destruct (Hyes E) as (leaf & -> & Hn & Hp0 & Hb & Hv).
    split_and!; [by apply Forall2_app; [|constructor]|by apply Forall_app; split; [|apply Forall_singleton]|done].
  - intros E. destruct (Hyes E) as (leaf & ? & ? & ? & ? & _). by exists leaf.
Qed.

Lemma post_here a root l l2 out given most : firstn_pre a l l2 out 0 given → firstn_post a root l l2 out given most (Z.of_nat (length l), out, given).
Proof.
  intros Hpre. exists [], [], out, given. rewrite !app_nil_r. cbn [length]. rewrite Nat.add_0_r.
  split_and!; [done|lia|done|apply Hpre|constructor|constructor|]. destruct (f_recurse_to_leaf a) eqn:E; [|done].
  split_and!; [|constructor..]. by eapply pre_leaves.
Qed.

Lemma pre_weaken a l l2 out count count' given : count' ≤ count → firstn_pre a l l2 out count given → firstn_pre a l l2 out count' given.
Proof.
  intros Hc (Hp & Hs1 & Hs2 & Hl). split_and!; [done|lia|done|]. intros E. destruct (Hl E) as (? & ? & v & ? & ? & ?).
  split_and!; [done..|]. exists v. split_and!; [done|done|lia|lia].
Qed.

Lemma post_cons a root l l2 l2' out given item out2 (most : nat) res :
  item_post a root l l2 given (Some item, out2) →
  (f_recurse_to_leaf a = true → ∃ leaf, l2' = l2 ++ [leaf] ∧ (leaf ∉ l2) ∧ placed 0 leaf ∧ below map item leaf) →
  firstn_post a root (l ++ [item]) l2' (<[length l := Some item]> out) out2 most res →
  firstn_post a root l l2 out given (S most) res.
Proof.
  intros (Hnew & Hpl & Hbel & Hleaf) Hl2' (new & newl & out' & out2' & -> & Hmost & Hlen & Hpre & Hnd & Hall & Hend).
  assert (item ∉ new) as Hni. { intros Hin. rewrite Forall_forall in Hall. destruct (Hall item Hin) as [Hx _]. set_solver. }
  assert (Forall (λ i, (i ∉ l) ∧ placed (f_type a) i ∧ below map root i) (item :: new)) as Hall'.
  { constructor; [done|]. eapply Forall_impl; [exact Hall|]. cbn. intros i (Hi & Hr). split; [set_solver|done]. }
  rewrite length_insert in Hlen. rewrite <-app_assoc in Hpre. rewrite length_app. cbn [length].
  destruct (f_recurse_to_leaf a) eqn:E.
  - destruct (Hl2' eq_refl) as (leaf & -> & Hlf & Hp0 & Hbl). destruct Hend as (Hlv & Hb2 & Hnd2 & Hall2).
    assert (leaf ∉ newl) as Hnl. { intros Hin. rewrite Forall_forall in Hall2. destruct (Hall2 leaf Hin) as [Hx _]. set_solver. }
    exists (item :: new), (leaf :: newl), out', out2'. rewrite E. split_and!; try done.
    + f_equal. f_equal. cbn. lia.
    + cbn. lia.
    + by constructor.
    + destruct Hleaf as (leaf' & Hg & _). unfold leaves in *. rewrite E in *. destruct Hlv as (v & v0 & -> & -> & Hv1 & Hv2).
      destruct Hg as (v0' & v1 & [= <-] & -> & Hv3 & _). exists v, v1. rewrite <-app_assoc in Hv2. split_and!; [done|done|lia|done].
    + by constructor.
    + by constructor.
    + constructor; [done|]. eapply Forall_impl; [exact Hall2|]. cbn. intros i (Hi & Hr). split; [set_solver|done].
  - exists (item :: new), [], out', out2'. rewrite E. split_and!; try done.
    + f_equal. f_equal. cbn. lia.
    + cbn. lia.
    + by constructor.
    + congruence.
Qed.

Lemma post_weaken a root l l2 out given (most most' : nat) res :
  (most ≤ most')%nat → firstn_post a root l l2 out given most res → firstn_post a root l l2 out given most' res.
Proof. intros Hm (new & newl & out' & out2' & E & Hle & H). exists new, newl, out', out2'. split; [done|]. split; [lia|done]. Qed.

(** A replica that was skipped leaves the second vector with what it held. *)
Lemma pre_skip a root l l2 out count given out2 :
  firstn_pre a l l2 out count given → item_post a root l l2 given (None, out2) → firstn_pre a l l2 out count out2.
Proof.
  intros (Hp & Hs1 & Hs2 & Hl) Hlv. split_and!; [done..|]. intros E. destruct (Hl E) as (? & ? & v & Hg & ? & ?).
  cbn in Hlv. unfold leaves in Hlv. rewrite E in Hlv. destruct Hlv as (v1 & v0 & -> & Hg' & Hlen & Hp1). rewrite Hg in Hg'. injection Hg' as ->.
  split_and!; [done..|]. exists v1. split_and!; [done|done|lia|lia].
Qed.

Lemma post_skip a root l l2 out given out2 (most : nat) res :
  item_post a root l l2 given (None, out2) → firstn_post a root l l2 out out2 most res → firstn_post a root l l2 out given most res.
Proof.
  intros Hlv (new & newl & out' & out2' & E & Hle & Hl & Hp & Hnd & Hall & Hend). exists new, newl, out', out2'. split_and!; [done..|].
  cbn in Hlv. unfold leaves in *. destruct (f_recurse_to_leaf a) eqn:Er; [|congruence]. destruct Hend as ((v & v0 & -> & -> & Hv1 & Hv2) & Hrest).
  split; [|done]. destruct Hlv as (v0' & v1 & [= <-] & -> & Hv3 & _). exists v, v1. split_and!; [done|done|lia|done].
Qed.

Section reps.
Context (recurse : nat → recursion) (a : firstn_args) (Ha : firstn_ok a).
Context (Hrec : f_recurse_to_leaf a = true → leaf_spec recurse a).
Context (root : Z) (bucket : crush_bucket) (Hroot : bucket_of map root = Some bucket).
Context (parent_r : Z) (Hparent : 0 ≤ parent_r ≤ 2 ^ 23) (Hparent0 : f_recurse_to_leaf a = true → parent_r = 0).

Lemma firstn_reps_spec reps l l2 out count given :
  Forall (λ rep, 0 ≤ rep < LIMIT) reps → 0 ≤ count → firstn_pre a l l2 out count given →
  ∃ res, runs_fuel (λ _ F, firstn_reps map wgt x choose_args F (recurse F) a bucket parent_r reps out (Z.of_nat (length l)) count given) res
    ∧ firstn_post a root l l2 out given (Nat.min (length reps) (Z.to_nat count)) res.
Proof.
  intros Hreps. revert l l2 out count given. induction Hreps as [|rep reps Hrep Hreps IH]; intros l l2 out count given Hc Hpre; cbn [firstn_reps].
  { eexists. split; [apply runs_fuel_const, runs_ret|]. apply post_here. eapply pre_weaken; [|exact Hpre]. lia. }
  destruct (decide (count ≤ 0)) as [Hz|Hnz].
  { eexists. rewrite bool_decide_true by done. split; [apply runs_fuel_const, runs_ret|]. apply post_here. eapply pre_weaken; [|exact Hpre]. lia. }
  rewrite bool_decide_false by done. pose proof Hpre as (Hp & Hs1 & Hs2 & Hl). pose proof limits as Hlim. pose proof (ok_tries _ Ha) as Ht.
  destruct (firstn_item_spec recurse a Ha Hrec root bucket Hroot out l l2 given count rep parent_r) with (item0 := root) (b := bucket)
    (ftotal := 0) (flocal := 0) (out2 := given) as ((found & out2) & Hrun & Hpost); try done; try lia.
  { intros E. destruct (Hl E) as (? & ? & _). done. }
  { intros E. destruct (Hl E) as (_ & _ & v & ? & _ & ?). exists v. split; [done|lia]. }
  { unfold counters. lia. }
  { by eapply pre_leaves. }
  assert (runs_fuel (λ _ F, firstn_item map wgt x choose_args F (recurse F) a bucket bucket rep parent_r 0 0 out (Z.of_nat (length l)) count given)
    (found, out2)) as Hrun' by (destruct Hrun as [N HN]; exists N; intros _ F _ HF; by apply HN).
  destruct found as [item|].
  - destruct (pre_next a root l l2 out count given item out2) as (l2' & Hpre' & Hst & Hyes & Hno); [done|lia|done|].
    destruct (IH _ l2' _ (count - 1) out2 ltac:(lia) Hpre') as (res & Hres & Hp'). exists res. split.
    + eapply runs_fuel_bind; [exact Hrun'|]. cbv beta iota. eapply runs_fuel_lift; [exact Hst|].
      rewrite length_app in Hres. cbn [length] in Hres. rewrite Nat2Z.inj_add in Hres. exact Hres.
    + eapply post_weaken; [|by eapply post_cons]. cbn [length]. lia.
  - destruct (IH l l2 out count out2 Hc) as (res & Hres & Hp'); [by eapply pre_skip|]. exists res. split.
    + eapply runs_fuel_bind; [exact Hrun'|]. exact Hres.
    + eapply post_weaken; [|by eapply post_skip]. cbn [length]. lia.
Qed.

End reps.

(** ** The function *)

Lemma leaf_args_ok a pos : firstn_ok a → pos < LIMIT → firstn_ok (leaf_args a pos).
Proof.
  intros [] Hpos. pose proof limits. constructor; cbn; try done. case_bool_decide; lia.
Qed.

Lemma leaf_reps a (l : list Z) :
  let start := if bool_decide (f_stable (leaf_args a (Z.of_nat (length l))) ≠ 0) then 0 else Z.of_nat (length l) in
  seqZ start (f_numrep (leaf_args a (Z.of_nat (length l))) - start) = [start].
Proof. cbn. case_bool_decide; [done|]. by replace (Z.of_nat (length l) + 1 - Z.of_nat (length l)) with 1 by lia. Qed.

(** The recursive call: one level without leaves. *)
Lemma firstn_leaf_call a : firstn_ok a → leaf_spec (λ F, crush_choose_firstn map wgt x choose_args F 1) a.
Proof.
  intros Ha item b v l sub_r count Hb Hp Hsp Hc Hsub. cbn [crush_choose_firstn]. rewrite leaf_reps.
  set (a' := leaf_args a (Z.of_nat (length l))). set (start := if bool_decide _ then 0 else _).
  destruct (firstn_reps_spec (λ F, crush_choose_firstn map wgt x choose_args F 0) a') with (root := item) (bucket := b) (parent_r := sub_r)
    (reps := [start]) (l := l) (l2 := l) (out := v) (count := count) (given := @None vector)
    as (res & Hrun & new & newl & out' & out2' & -> & Hm & Hlen & Hpre & Hnd & Hall & Ho2); try done.
  - apply leaf_args_ok; [done|lia].
  - apply Forall_singleton. pose proof limits. subst start. case_bool_decide; lia.
  - lia.
  - split_and!; [done|lia|lia|done].
  - exists (Z.of_nat (length l + length new), out', out2'). split; [exact Hrun|]. exists out', new. cbn [length] in Hm. cbn in Ho2.
    split_and!; [by rewrite Ho2|lia|done|done|done|]. eapply Forall_impl; [exact Hall|]. done.
Qed.

(** [crush_choose_firstn] from an empty vector. *)
Lemma crush_choose_firstn_spec a root bucket out given :
  firstn_ok a → bucket_of map root = Some bucket → Z.of_nat (length out) < LIMIT →
  (f_recurse_to_leaf a = true → ∃ v, given = Some v ∧ length v = length out) →
  ∃ res, (∃ N, ∀ F, (N ≤ F)%nat →
      runs map (crush_choose_firstn map wgt x choose_args F 2 a bucket out 0 (Z.of_nat (length out)) given 0) res)
    ∧ firstn_post a root [] [] out given (Nat.min (Z.to_nat (f_numrep a)) (length out)) res.
Proof.
  intros Ha Hroot Hlen Hgiven. pose proof (ok_numrep _ Ha) as Hn. pose proof limits as Hlim.
  destruct (firstn_reps_spec (λ F, crush_choose_firstn map wgt x choose_args F 1) a Ha) with (root := root) (bucket := bucket) (parent_r := 0)
    (reps := seqZ 0 (f_numrep a)) (l := @nil Z) (l2 := @nil Z) (out := out) (count := Z.of_nat (length out)) (given := given)
    as (res & [N HN] & Hpost); try done.
  - intros _. by apply firstn_leaf_call.
  - apply Forall_forall. intros rep Hrep%elem_of_seqZ_range. lia.
  - lia.
  - split_and!; [done|cbn; lia|done|]. intros E. destruct (Hgiven E) as (v & -> & Hv). split_and!; [constructor..|]. exists v.
    split_and!; [done|done|cbn; lia|lia].
  - exists res. split.
    + exists N. intros F HF. cbn [crush_choose_firstn]. specialize (HN F F HF HF). cbn [length] in HN.
      destruct (bool_decide (f_stable a ≠ 0)); cbn [Z.of_nat] in *; by rewrite Z.sub_0_r.
    + rewrite length_seqZ in Hpost. by rewrite Nat2Z.id in Hpost.
Qed.

End placement.
