(* ===== verification/CrushIndep.v ===== *)
(** * Placement: independent positions

    What [crush_choose_indep] chooses, on a map in which no bucket contains
    itself: at every position nothing, or an item of the type that was asked
    for, below the bucket and not out; no item at two positions; and, when
    leaves are asked for below buckets, a leaf below the item of the same
    position. When leaves of devices are asked for, a device that was tried
    and is out stays at its position as the leaf. Every descent ends, and nothing depends on the working store. *)

From S2P Require Import Prelude CrushRules CrushTables CrushHash CrushMap CrushMapper CrushPerm CrushLn CrushBuckets CrushPlacement.

Import Crush Mapper.

(** ** Windows of a vector *)

(** A vector whose entries between two others are known. *)
Definition frame (A B : vector) (l : list Z) : vector := A ++ (Some <$> l) ++ B.

Lemma lookup_frame A B l j e : l !! j = Some e → frame A B l !! (length A + j)%nat = Some (Some e).
Proof.
  intros Hj. unfold frame. rewrite lookup_app_r by lia. replace (length A + j - length A)%nat with j by lia.
  apply lookup_app_l_Some. by rewrite list_lookup_fmap, Hj.
Qed.

Lemma value_at_frame A B l (j : nat) e : l !! j = Some e → value_at (frame A B l) (Z.of_nat (length A + j)) = Ret e.
Proof. intros Hj. apply value_at_ok; [lia|]. rewrite Nat2Z.id. by apply lookup_frame. Qed.

Lemma store_at_frame A B l (j : nat) e :
  (j < length l)%nat → store_at (frame A B l) (Z.of_nat (length A + j)) (Some e) = Ret (frame A B (<[j := e]> l)).
Proof.
  intros Hj. rewrite store_at_ok by (unfold frame; rewrite !length_app, length_fmap; lia). rewrite Nat2Z.id. f_equal. unfold frame.
  rewrite insert_app_r. f_equal. rewrite insert_app_l by (by rewrite length_fmap). by rewrite list_fmap_insert.
Qed.

(** One entry of a window as a window of its own. *)
Lemma frame_entry A B l (j : nat) e :
  l !! j = Some e → frame A B l = frame (A ++ (Some <$> take j l)) ((Some <$> drop (S j) l) ++ B) [e].
Proof.
  intros Hj. unfold frame. rewrite <-(take_drop_middle l j e) at 1 by done. rewrite fmap_app. cbn. by rewrite <-!app_assoc.
Qed.

Lemma frame_entry_set A B l (j : nat) e e' :
  l !! j = Some e → frame (A ++ (Some <$> take j l)) ((Some <$> drop (S j) l) ++ B) [e'] = frame A B (<[j := e']> l).
Proof.
  intros Hj. pose proof (lookup_lt_Some _ _ _ Hj) as Hlt.
  rewrite (frame_entry A B (<[j := e']> l) j e') by (by apply list_lookup_insert_eq).
  by rewrite take_insert_ge, drop_insert_lt by lia.
Qed.

Lemma positions_window (A : vector) (l : list Z) rep :
  rep ∈ seqZ (Z.of_nat (length A)) (Z.of_nat (length l)) → ∃ j e, rep = Z.of_nat (length A + j) ∧ l !! j = Some e.
Proof.
  intros Hr%elem_of_seqZ_range. destruct (lookup_lt_is_Some_2 l (Z.to_nat (rep - Z.of_nat (length A)))) as [e He]; [lia|].
  eexists _, e. split; [|exact He]. lia.
Qed.

(** The second vector, which may be absent. *)
Definition second (o2 : option (vector * vector)) (ls : list Z) : option vector :=
  match o2 with None => None | Some (A2, B2) => Some (frame A2 B2 ls) end.

Section indep.
Context (map : crush_map) (rank : Z → nat) (Hmap : map_ok map rank).
Context (wgt : list Z) (x : Z) (choose_args : option (list crush_choose_arg)) (Hargs : args_ok map choose_args).

#[local] Abbreviation placed := (placed map wgt x).

(** ** Entries *)

(** A device that is out, below the root. *)
Definition out_device (root d : Z) : Prop := type_of map d = Some 0 ∧ below map root d ∧ is_out wgt d x = Ret true.

(** What is left as a leaf when devices are chosen as their own leaves: one
    that was tried and is out. *)
Definition stale (type : Z) (to_leaf : bool) (root leaf : Z) : Prop := type = 0 ∧ to_leaf = true ∧ out_device root leaf.

(** What a position holds, and the leaf at the same position. *)
Definition entry (a : indep_args) (root o leaf : Z) : Prop :=
  o = CRUSH_ITEM_UNDEF ∧ (leaf = CRUSH_ITEM_UNDEF ∨ leaf = CRUSH_ITEM_NONE ∨ stale (i_type a) (i_recurse_to_leaf a) root leaf)
  ∨ o = CRUSH_ITEM_NONE ∧ leaf = CRUSH_ITEM_NONE
  ∨ placed (i_type a) o ∧ below map root o ∧ (i_recurse_to_leaf a = true → placed 0 leaf ∧ below map o leaf).

Definition vacant (o : Z) : Prop := o = CRUSH_ITEM_UNDEF ∨ o = CRUSH_ITEM_NONE.

(** No item twice. *)
Definition distinct (os : list Z) : Prop := ∀ i j o, os !! i = Some o → os !! j = Some o → i ≠ j → vacant o.

Definition entries (a : indep_args) (root : Z) (n : nat) (os ls : list Z) : Prop :=
  length os = n ∧ Forall2 (entry a root) os ls ∧ distinct os.

Lemma type_of_bound t i : type_of map i = Some t → i < max_devices map.
Proof.
  unfold type_of. pose proof (map_devices _ _ Hmap). case_bool_decide; [lia|]. destruct (bucket_of map i) as [b|] eqn:Hb; [|done].
  destruct (bucket_number map rank Hmap _ _ Hb) as (Hneg & _). lia.
Qed.

Lemma placed_not_vacant t i : placed t i → ¬ vacant i.
Proof.
  intros [Ht _]. pose proof (type_of_bound _ _ Ht). pose proof (map_devices _ _ Hmap). unfold vacant, CRUSH_ITEM_UNDEF, CRUSH_ITEM_NONE in *. lia.
Qed.

Lemma distinct_insert os (j : nat) o : distinct os → (vacant o ∨ o ∉ os) → distinct (<[j := o]> os).
Proof.
  intros Hd Hn i i' v Hi Hi' Hne. rewrite list_lookup_insert_Some in Hi, Hi'.
  destruct Hi as [(-> & -> & _)|(Hji & Hi)], Hi' as [(-> & Hv & _)|(Hji' & Hi')]; [done|..].
  - destruct Hn as [|Hn]; [done|]. exfalso. apply Hn. by eapply list_elem_of_lookup_2.
  - subst v. destruct Hn as [|Hn]; [done|]. exfalso. apply Hn. by eapply list_elem_of_lookup_2.
  - by eapply (Hd i i').
Qed.

Lemma entries_insert a root n os ls (j : nat) o leaf :
  entries a root n os ls → entry a root o leaf → (vacant o ∨ o ∉ os) → entries a root n (<[j := o]> os) (<[j := leaf]> ls).
Proof.
  intros (Hl & Hf & Hd) He Hn. split_and!; [by rewrite length_insert|by apply Forall2_insert|by apply distinct_insert].
Qed.

Lemma entries_insert_leaf a root n os ls (j : nat) leaf :
  entries a root n os ls → os !! j = Some CRUSH_ITEM_UNDEF →
  (leaf = CRUSH_ITEM_UNDEF ∨ leaf = CRUSH_ITEM_NONE ∨ stale (i_type a) (i_recurse_to_leaf a) root leaf) →
  entries a root n os (<[j := leaf]> ls).
Proof.
  intros (Hl & Hf & Hd) Hj Hleaf. split_and!; [done| |done]. rewrite <-(list_insert_id os j CRUSH_ITEM_UNDEF) by done.
  apply Forall2_insert; [done|]. by left.
Qed.

(** ** Arguments *)

(** Far from overflows. *)
Record indep_ok (a : indep_args) : Prop := {
  iok_numrep : 0 < i_numrep a ≤ LIMIT;
  iok_tries : 0 ≤ i_tries a ∧ (i_numrep a + 1) * (i_tries a + 1) ≤ 2 ^ 29;
  iok_recurse_tries : 0 ≤ i_recurse_tries a ∧ (i_numrep a + 1) * (i_recurse_tries a + 1) ≤ 2 ^ 29;
}.

Lemma indep_r_spec a b rep parent_r ftotal :
  indep_ok a → 0 ≤ rep < LIMIT → 0 ≤ parent_r ≤ 2 ^ 30 → 0 ≤ ftotal < i_tries a →
  ∃ r, indep_r a b rep parent_r ftotal = Ret r ∧ 0 ≤ r ≤ rep + parent_r + 2 ^ 29.
Proof.
  intros Ha Hrep Hp Hf. pose proof limits. pose proof (iok_numrep _ Ha). pose proof (iok_tries _ Ha).
  assert (0 ≤ i_numrep a * ftotal ≤ 2 ^ 29) by nia. assert (0 ≤ (i_numrep a + 1) * ftotal ≤ 2 ^ 29) by nia.
  unfold indep_r, add_int. rewrite (bool_decide_true (- 2 ^ 31 ≤ rep + parent_r < 2 ^ 31)) by lia. cbn [mbind outcome_bind].
  assert (∀ u : bool, ∃ r, (if u then n ← (if bool_decide (- 2 ^ 31 ≤ i_numrep a + 1 < 2 ^ 31) then Ret (i_numrep a + 1) else Abort SignedOverflow);
      Ret (s32 (rep + parent_r + n * ftotal)) else Ret (s32 (rep + parent_r + i_numrep a * ftotal))) = Ret r ∧ 0 ≤ r ≤ rep + parent_r + 2 ^ 29) as Hu.
  { intros [].
    - rewrite bool_decide_true by lia. cbn [mbind outcome_bind]. rewrite s32_small by lia. eexists. split; [reflexivity|]. lia.
    - rewrite s32_small by lia. eexists. split; [reflexivity|]. lia. }
  destruct (alg b); try (cbn [mbind outcome_bind]; apply (Hu false)). rewrite (bool_decide_false (i_numrep a = 0)) by lia. cbn [mbind outcome_bind]. apply Hu.
Qed.

(** ** The descent for a position *)

Abbreviation indep_recursion := (indep_args → crush_bucket → Z → vector → Z → option vector → Z → crush (vector * option vector)).

Definition leaf_call (a : indep_args) : indep_args := mkIndep (i_numrep a) 0 (i_recurse_tries a) 0 false.

(** The recursive call fills one position, with a device or nothing. *)
Definition indep_leaf_spec (recurse : nat → indep_recursion) (a : indep_args) : Prop :=
  ∀ item b A B e r, bucket_of map item = Some b → Z.of_nat (length A) + 1 < LIMIT → 0 ≤ r ≤ 2 ^ 30 →
    ∃ leaf, runs_fuel map (λ _ F, recurse F (leaf_call a) b 1 (frame A B [e]) (Z.of_nat (length A)) None r) (frame A B [leaf], None)
      ∧ (leaf = CRUSH_ITEM_NONE ∨ placed 0 leaf ∧ below map item leaf).

Section descend.
Context (recurse : nat → indep_recursion) (a : indep_args) (Ha : indep_ok a).
Context (Hrec : i_recurse_to_leaf a = true → indep_leaf_spec recurse a).
Context (root : Z) (bucket : crush_bucket) (Hroot : bucket_of map root = Some bucket).
Context (A B : vector) (o2 : option (vector * vector)) (n : nat).
Context (Hspace : Z.of_nat (length A + n) < LIMIT).
Context (Ho2 : ∀ A2 B2, o2 = Some (A2, B2) → length A2 = length A).
Context (Hleaf2 : i_recurse_to_leaf a = true → is_Some o2).
Context (parent_r : Z) (Hparent : 0 ≤ parent_r ≤ 2 ^ 30) (Hparent0 : i_recurse_to_leaf a = true → parent_r = 0).

#[local] Abbreviation outpos := (Z.of_nat (length A)).

Lemma store_both_spec os ls (j : nat) v :
  (j < length os)%nat → length ls = length os →
  store_both (frame A B os) (second o2 ls) (Z.of_nat (length A + j)) v = Ret (frame A B (<[j := v]> os), second o2 (<[j := v]> ls)).
Proof.
  intros Hj Hl. unfold store_both. rewrite store_at_frame by done. cbn [mbind outcome_bind].
  destruct o2 as [[A2 B2]|] eqn:E; [|done]. cbn. rewrite <-(Ho2 A2 B2 eq_refl). rewrite store_at_frame by lia. done.
Qed.

Lemma collides_window os item :
  length os = n → collides (frame A B os) (seqZ outpos (outpos + Z.of_nat n - outpos)) item = Ret (bool_decide (item ∈ os)).
Proof.
  intros Hl. replace (outpos + Z.of_nat n - outpos) with (Z.of_nat (length os)) by lia.
  rewrite (collides_spec _ _ (λ i, default 0 (os !! Z.to_nat (i - outpos)))).
  - f_equal. apply bool_decide_ext. assert ((λ i, default 0 (os !! Z.to_nat (i - outpos))) <$> seqZ outpos (Z.of_nat (length os)) = os) as ->; [|done].
    apply list_eq. intros i. rewrite list_lookup_fmap. destruct (os !! i) as [o|] eqn:Hi.
    + pose proof (lookup_lt_Some _ _ _ Hi). rewrite (proj2 (lookup_seqZ _ _ i (outpos + Z.of_nat i))) by lia. cbn.
      replace (Z.to_nat (outpos + Z.of_nat i - outpos)) with i by lia. by rewrite Hi.
    + apply lookup_ge_None in Hi. rewrite lookup_seqZ_ge by lia. done.
  - intros rep Hrep. destruct (positions_window A os rep Hrep) as (j & e & -> & Hj).
    rewrite (value_at_frame A B os j e) by done. replace (Z.to_nat (Z.of_nat (length A + j) - outpos)) with j by lia. by rewrite Hj.
Qed.

(** The leaf below a bucket that was chosen: nothing, or the leaf of the
    position. *)
Lemma indep_leaf_step os ls (j : nat) item b r :
  i_recurse_to_leaf a = true → bucket_of map item = Some b → entries a root n os ls → os !! j = Some CRUSH_ITEM_UNDEF →
  0 ≤ r ≤ 2 ^ 30 →
  ∃ no_leaf ls', runs_fuel map (λ _ F,
      v ← lift (need NullPointer (second o2 ls));
      if bool_decide (item < 0) then
        b' ← lift (bucket_at map (-1 - item));
        '(v, _) ← recurse F (leaf_call a) b' 1 v (Z.of_nat (length A + j)) None r;
        leaf ← lift (value_at v (Z.of_nat (length A + j)));
        mret (bool_decide (leaf = CRUSH_ITEM_NONE), Some v)
      else v ← lift (store_at v (Z.of_nat (length A + j)) (Some item)); mret (false, Some v)) (no_leaf, second o2 ls')
    ∧ (no_leaf = true → entries a root n os ls')
    ∧ (no_leaf = false → ∃ leaf, ls' = <[j := leaf]> ls ∧ placed 0 leaf ∧ below map item leaf).
Proof.
  intros Hrl Hb Hent Hj Hr. pose proof Hent as (Hlen & Hf & _). destruct (Hleaf2 Hrl) as [[A2 B2] Eo2]. pose proof (Ho2 A2 B2 Eo2) as HA2.
  pose proof (lookup_lt_Some _ _ _ Hj) as Hlt. pose proof (Forall2_length _ _ _ Hf) as Hll.
  destruct (lookup_lt_is_Some_2 ls j) as [e He]; [lia|].
  assert (Z.of_nat (length A + j) = Z.of_nat (length (A2 ++ (Some <$> take j ls)))) as Hpos.
  { rewrite length_app, length_fmap, length_take_le by lia. lia. }
  destruct (Hrec Hrl item b (A2 ++ (Some <$> take j ls)) ((Some <$> drop (S j) ls) ++ B2) e r Hb) as (leaf & Hrun & Hleaf); [lia|done|].
  rewrite <-Hpos, <-frame_entry, (frame_entry_set _ _ _ _ e) in Hrun by done.
  destruct (bucket_number map rank Hmap _ _ Hb) as (Hneg & _).
  exists (bool_decide (leaf = CRUSH_ITEM_NONE)), (<[j := leaf]> ls). split_and!.
  - rewrite Eo2. cbn [second]. eapply runs_fuel_lift; [reflexivity|]. rewrite bool_decide_true by done.
    eapply runs_fuel_lift; [by eapply bucket_at_spec|]. eapply runs_fuel_bind; [exact Hrun|]. cbv beta iota.
    eapply runs_fuel_lift; [|apply runs_fuel_const, runs_ret]. rewrite <-HA2. apply value_at_frame. apply list_lookup_insert_eq. lia.
  - intros Hn%bool_decide_eq_true. apply entries_insert_leaf; [done|done|by right; left].
  - intros Hn%bool_decide_eq_false. exists leaf. split; [done|]. by destruct Hleaf.
Qed.

#[local] Abbreviation descent f F b ftotal j out left out2 :=
  (indep_descend map wgt x choose_args f (recurse F) a b outpos (outpos + Z.of_nat n) (Z.of_nat (length A + j)) parent_r ftotal out left out2).

(** Below the root no bucket is empty and every device is out; leaves of
    devices are asked for. *)
Definition deserted : Prop :=
  i_type a = 0 ∧ i_recurse_to_leaf a = true
  ∧ ∀ i, below map root i → (∀ b, bucket_of map i = Some b → 0 < size b) ∧ (type_of map i = Some 0 → is_out wgt i x = Ret true).

(** A position with a device as its leaf. *)
Definition held (ls : list Z) (i : nat) : Prop := ∃ d, ls !! i = Some d ∧ type_of map d = Some 0.

Lemma held_insert ls (j : nat) d i : held ls i → type_of map d = Some 0 → held (<[j := d]> ls) i.
Proof.
  intros (e & He & Ht) Hd. destruct (decide (i = j)) as [->|Hne].
  - exists d. split; [|done]. apply list_lookup_insert_eq. by eapply lookup_lt_Some.
  - exists e. by rewrite list_lookup_insert_ne.
Qed.

(** The state after an attempt for the positions [P]: a deserted bucket leaves
    a device at each of them. *)
Definition attempted (os ls : list Z) (P : nat → Prop) (m : nat → nat → crush (vector * Z * option vector)) : Prop :=
  ∃ os' ls' left', runs_fuel map m (frame A B os', left', second o2 ls') ∧ entries a root n os' ls'
    ∧ (deserted → Forall (λ o, o = CRUSH_ITEM_UNDEF) os → os' = os ∧ ∀ i, P i ∨ held ls i → held ls' i).

(** The leaf of an item of the type that is wanted. *)
Lemma indep_leaf p item os ls (j : nat) r :
  child map p item → item_type map item = Ret (i_type a) → type_of map item = Some (i_type a) →
  entries a root n os ls → os !! j = Some CRUSH_ITEM_UNDEF → (i_recurse_to_leaf a = true → 0 ≤ r ≤ 2 ^ 30) →
  ∃ no_leaf ls', runs_fuel map (λ _ F, if i_recurse_to_leaf a then
        v ← lift (need NullPointer (second o2 ls));
        if bool_decide (item < 0) then
          b' ← lift (bucket_at map (-1 - item));
          '(v, _) ← recurse F (leaf_call a) b' 1 v (Z.of_nat (length A + j)) None r;
          leaf ← lift (value_at v (Z.of_nat (length A + j)));
          mret (bool_decide (leaf = CRUSH_ITEM_NONE), Some v)
        else v ← lift (store_at v (Z.of_nat (length A + j)) (Some item)); mret (false, Some v)
      else mret (false, second o2 ls)) (no_leaf, second o2 ls')
    ∧ (no_leaf = true → entries a root n os ls' ∧ i_type a ≠ 0)
    ∧ (no_leaf = false → ∃ leaf, ls' = <[j := leaf]> ls
         ∧ (i_recurse_to_leaf a = true → if bool_decide (i_type a = 0) then leaf = item else placed 0 leaf ∧ below map item leaf)
         ∧ (i_recurse_to_leaf a = false → ls' = ls)).
Proof.
  intros Hc Hit Hto Hent Hj Hr. pose proof Hent as (Hlen & Hf & _). pose proof (lookup_lt_Some _ _ _ Hj) as Hlt.
  pose proof (Forall2_length _ _ _ Hf) as Hll.
  destruct (decide (i_recurse_to_leaf a = true)) as [E|E%not_true_is_false]; rewrite E.
  - destruct (child_cases map rank Hmap _ _ Hc) as (_ & [(Hpos & Hz & _)|(_ & _ & b & Hb & Hib & _ & Hpos & _)]).
    + assert (i_type a = 0) as Ht by (rewrite Hit in Hz; by injection Hz). destruct (Hleaf2 E) as [[A2 B2] Eo2]. pose proof (Ho2 A2 B2 Eo2) as HA2.
      exists false, (<[j := item]> ls). rewrite Eo2. cbn [second]. split_and!; [|done|].
      * eapply runs_fuel_lift; [reflexivity|]. rewrite bool_decide_false by lia. eapply runs_fuel_lift; [|apply runs_fuel_const, runs_ret].
        rewrite <-HA2. apply store_at_frame. lia.
      * intros _. exists item. by rewrite bool_decide_true.
    + assert (i_type a ≠ 0) as Ht by (rewrite Hit in Hib; injection Hib; lia).
      destruct (indep_leaf_step os ls j item b r E Hb Hent Hj (Hr E)) as (no_leaf & ls' & Hrun & H1 & H2).
      exists no_leaf, ls'. split_and!; [exact Hrun|auto|]. intros Hn. destruct (H2 Hn) as (leaf & -> & Hpl & Hbl). exists leaf.
      by rewrite bool_decide_false.
  - destruct (lookup_lt_is_Some_2 ls j) as [e He]; [lia|].
    exists false, ls. split_and!; [apply runs_fuel_const, runs_ret|done|]. intros _. exists e. by rewrite list_insert_id.
Qed.

(** An item of the type that is wanted, from the collisions on. *)
Lemma indep_accept p item os ls (j : nat) left r :
  child map p item → below map root item → item_type map item = Ret (i_type a) → type_of map item = Some (i_type a) →
  entries a root n os ls → os !! j = Some CRUSH_ITEM_UNDEF → (i_recurse_to_leaf a = true → 0 ≤ r ≤ 2 ^ 30) →
  attempted os ls (eq j) (λ f F,
    collide ← lift (collides (frame A B os) (seqZ outpos (outpos + Z.of_nat n - outpos)) item);
    if collide : bool then mret (frame A B os, left, second o2 ls) else
    '(no_leaf, out2) ← (if i_recurse_to_leaf a then
        v ← lift (need NullPointer (second o2 ls));
        if bool_decide (item < 0) then
          b' ← lift (bucket_at map (-1 - item));
          '(v, _) ← recurse F (leaf_call a) b' 1 v (Z.of_nat (length A + j)) None r;
          leaf ← lift (value_at v (Z.of_nat (length A + j)));
          mret (bool_decide (leaf = CRUSH_ITEM_NONE), Some v)
        else v ← lift (store_at v (Z.of_nat (length A + j)) (Some item)); mret (false, Some v)
      else mret (false, second o2 ls));
    if no_leaf : bool then mret (frame A B os, left, out2) else
    out_of_cluster ← (if bool_decide (i_type a = 0) then lift (is_out wgt item x) else mret false);
    if out_of_cluster : bool then mret (frame A B os, left, out2) else
    out ← lift (store_at (frame A B os) (Z.of_nat (length A + j)) (Some item));
    mret (out, left - 1, out2)).
Proof.
  intros Hc Hbelow Hit Hto Hent Hj Hr. pose proof Hent as (Hlen & Hf & _). pose proof (lookup_lt_Some _ _ _ Hj) as Hlt.
  pose proof (Forall2_length _ _ _ Hf) as Hll.
  destruct (decide (item ∈ os)) as [Hin|Hnin].
  { exists os, ls, left. split; [|split; [done|]].
    - eapply runs_fuel_lift; [by apply collides_window|]. rewrite bool_decide_true by done. apply runs_fuel_const, runs_ret.
    - intros _ Hun. rewrite Forall_forall in Hun. specialize (Hun _ Hin). subst item. pose proof (type_of_bound _ _ Hto). pose proof (map_devices _ _ Hmap). lia. }
  destruct (indep_leaf p item os ls j r Hc Hit Hto Hent Hj Hr) as (no_leaf & ls' & Hleaf & Hyes & Hno).
  destruct no_leaf.
  { destruct (Hyes eq_refl) as [Hent' Ht]. exists os, ls', left. split; [|split; [done|by intros [? _]]].
    eapply runs_fuel_lift; [by apply collides_window|]. rewrite bool_decide_false by done.
    eapply runs_fuel_bind; [exact Hleaf|]. apply runs_fuel_const, runs_ret. }
  destruct (Hno eq_refl) as (leaf & Els & Hl1 & Hl2).
  assert (∃ o, (i_type a = 0 → is_out wgt item x = Ret o) ∧ (i_type a ≠ 0 → o = false)) as (o & Ho & Ho').
  { destruct (decide (i_type a = 0)) as [Ht|Ht]; [|by exists false].
    destruct (child_cases map rank Hmap _ _ Hc) as (_ & [(Hpos & _)|(_ & _ & b & _ & Hib & _ & Hpos & _)]).
    - destruct (is_out_total wgt x item Hpos) as (o & Ho). by exists o.
    - rewrite Hit in Hib. injection Hib. lia. }
  assert (runs_fuel map (λ _ _, if bool_decide (i_type a = 0) then lift (is_out wgt item x) else mret false) o) as Hout.
  { apply runs_fuel_const. destruct (decide (i_type a = 0)) as [Ht|Ht].
    - rewrite bool_decide_true by done. apply runs_lift. by apply Ho.
    - rewrite bool_decide_false by done. rewrite Ho' by done. apply runs_ret. }
  destruct o.
  - assert (i_type a = 0) as Ht by (destruct (decide (i_type a = 0)) as [|Ht]; [done|by specialize (Ho' Ht)]).
    exists os, ls', left. split; [|split].
    + eapply runs_fuel_lift; [by apply collides_window|]. rewrite bool_decide_false by done.
      eapply runs_fuel_bind; [exact Hleaf|]. cbv beta iota. eapply runs_fuel_bind; [exact Hout|]. apply runs_fuel_const, runs_ret.
    + destruct (decide (i_recurse_to_leaf a = true)) as [E|E%not_true_is_false]; [|by rewrite (Hl2 E)].
      specialize (Hl1 E). rewrite bool_decide_true in Hl1 by done. rewrite Els, Hl1. apply entries_insert_leaf; [done|done|]. right. right.
      split_and!; [done|done|]. rewrite Ht in Hto. split_and!; [done|done|by apply Ho].
    + intros (_ & E & _) _. specialize (Hl1 E). rewrite bool_decide_true in Hl1 by done. rewrite Els, Hl1. split; [done|]. rewrite Ht in Hto.
      intros i [<-|Hi]; [|by apply held_insert]. exists item. split; [|done]. apply list_lookup_insert_eq. lia.
  - exists (<[j := item]> os), ls', (left - 1). split; [|split].
    + eapply runs_fuel_lift; [by apply collides_window|]. rewrite bool_decide_false by done.
      eapply runs_fuel_bind; [exact Hleaf|]. cbv beta iota. eapply runs_fuel_bind; [exact Hout|].
      eapply runs_fuel_lift; [by apply store_at_frame|]. apply runs_fuel_const, runs_ret.
    + assert (placed (i_type a) item) as Hpl by (split; [done|]; intros Ht; by apply Ho).
      rewrite Els. apply entries_insert; [done| |by right]. right. right. split_and!; [done|done|].
      intros E. specialize (Hl1 E). case_bool_decide as Ht; [|done]. subst leaf. rewrite Ht in Hpl. split; [done|]. by apply rtc_refl.
    + intros (Ht & _ & Hdes) _. rewrite Ht in Hto. pose proof (proj2 (Hdes item Hbelow) Hto) as Hio. rewrite Ho in Hio by done. discriminate.
Qed.

(** Up to the type of the chosen item. *)
#[local] Ltac to_item :=
  match goal with
  | Hr : indep_r _ ?b _ _ _ = Ret _, Hc : runs _ (choose_in _ _ ?b _ _) ?item, Hit : item_type _ ?item = Ret _ |- _ =>
    eapply runs_fuel_S; [intros f F; reflexivity|]; eapply runs_fuel_lift; [exact Hr|]; cbv beta zeta;
    rewrite (bool_decide_false (size b = 0)) by done; eapply runs_fuel_bind; [apply runs_fuel_const; exact Hc|]; cbv beta;
    rewrite (bool_decide_false (max_devices map ≤ item)) by lia; eapply runs_fuel_lift; [exact Hit|]
  end.

Lemma indep_descend_spec item0 b os ls (j : nat) left ftotal :
  bucket_of map item0 = Some b → below map root item0 → entries a root n os ls → os !! j = Some CRUSH_ITEM_UNDEF →
  0 ≤ ftotal < i_tries a →
  attempted os ls (eq j) (λ f F, descent f F b ftotal j (frame A B os) left (second o2 ls)).
Proof.
  intros Hb Hbelow Hent Hj Hft. remember (rank item0) as k eqn:Hk. revert item0 b Hb Hbelow Hk.
  induction k as [k IH] using lt_wf_ind. intros item0 b Hb Hbelow ->. pose proof Hent as (Hlen & Hf & _).
  pose proof (lookup_lt_Some _ _ _ Hj) as Hlt. pose proof limits as Hlim.
  destruct (indep_r_spec a b (Z.of_nat (length A + j)) parent_r ftotal) as (r & Hr & Hrr); [done|lia|done|done|].
  destruct (decide (size b = 0)) as [Hz|Hnz].
  { exists os, ls, left. split; [|split; [done|]].
    - eapply runs_fuel_S; [intros f F; reflexivity|]. eapply runs_fuel_lift; [exact Hr|].
      cbv beta zeta. rewrite bool_decide_true by done. apply runs_fuel_const, runs_ret.
    - intros (_ & _ & Hdes). pose proof (proj1 (Hdes item0 Hbelow) b Hb). lia. }
  assert (0 < size b) as Hs by (unfold size in *; lia).
  destruct (choose_in_spec map rank Hmap x choose_args Hargs item0 b r outpos Hb Hs) as (item & Hc & Hchoice); [lia|].
  destruct (child_cases map rank Hmap _ _ Hc) as (Hmaxd & Hcase).
  assert (below map root item) as Hbi by (eapply rtc_r; [exact Hbelow|exact Hc]).
  assert (∃ t, item_type map item = Ret t ∧ type_of map item = Some t) as (t & Hit & Hto).
  { destruct Hcase as [(_ & ? & ?)|(_ & _ & b' & _ & ? & ? & _)]; by eexists. }
  destruct (decide (t = i_type a)) as [->|Ht].
  - destruct (indep_accept item0 item os ls j left r Hc Hbi Hit Hto Hent Hj) as (os' & ls' & left' & Hrun & Hent').
    { intros E. rewrite (Hparent0 E) in Hrr. lia. }
    exists os', ls', left'. split; [|done]. to_item.
    rewrite (bool_decide_false (i_type a ≠ i_type a)) by tauto. exact Hrun.
  - destruct Hcase as [(Hpos & Hdev & _)|(Hneg & Hmb & b' & Hb' & _ & _ & _ & Hrank)].
    + exists (<[j := CRUSH_ITEM_NONE]> os), (<[j := CRUSH_ITEM_NONE]> ls), (left - 1). split.
      * to_item.
        rewrite (bool_decide_true (t ≠ i_type a)), (bool_decide_true (0 ≤ item ∨ _)) by (done || lia).
        eapply runs_fuel_lift; [apply store_both_spec; [done|symmetry; by eapply Forall2_length]|]. apply runs_fuel_const, runs_ret.
      * split; [apply entries_insert; [done|right; left; done|left; by right]|]. intros (Ht0 & _). rewrite Hdev in Hit. injection Hit as <-. lia.
    + destruct (IH (rank item) Hrank item b' Hb' Hbi eq_refl) as (os' & ls' & left' & Hrun & Hent'). exists os', ls', left'. split; [|done].
      to_item.
      rewrite (bool_decide_true (t ≠ i_type a)), (bool_decide_false (0 ≤ item ∨ _)) by (done || lia).
      eapply runs_fuel_lift; [by eapply bucket_at_spec|]. exact Hrun.
Qed.

(** ** Rounds *)

Lemma indep_round_spec os ls left ftotal :
  entries a root n os ls → 0 ≤ ftotal < i_tries a →
  attempted os ls (λ i, (i < n)%nat) (λ _ F, indep_round map wgt x choose_args F (recurse F) a bucket outpos (outpos + Z.of_nat n) parent_r ftotal
    (frame A B os, left, second o2 ls)).
Proof.
  intros Hent Hft. unfold indep_round. replace (outpos + Z.of_nat n - outpos) with (Z.of_nat n) by lia.
  assert (Forall (λ rep, ∃ j, rep = Z.of_nat (length A + j) ∧ (j < n)%nat) (seqZ outpos (Z.of_nat n))) as Hall.
  { apply Forall_forall. intros rep Hrep%elem_of_seqZ_range. exists (Z.to_nat (rep - outpos)). lia. }
  match goal with |- attempted _ _ _ ?f => assert (attempted os ls (λ i, Z.of_nat (length A + i) ∈ seqZ outpos (Z.of_nat n)) f)
    as (os' & ls' & left' & Hrun & Hent' & Hd) end.
  2: { exists os', ls', left'. split_and!; [exact Hrun|done|]. intros Hdes Hun. destruct (Hd Hdes Hun) as [-> Hh]. split; [done|].
       intros i [Hi|Hi]; apply Hh; [left; apply elem_of_seqZ; lia|by right]. }
  revert os ls left Hent. induction Hall as [|rep reps (j & -> & Hj) Hall IH]; intros os ls left Hent; cbn [foldC].
  { exists os, ls, left. split; [apply runs_fuel_const, runs_ret|]. split; [done|]. intros _ _. split; [done|]. by intros i [?%elem_of_nil|]. }
  pose proof Hent as (Hlen & _). destruct (lookup_lt_is_Some_2 os j) as [o Ho]; [lia|].
  destruct (decide (o = CRUSH_ITEM_UNDEF)) as [->|Hne].
  - destruct (indep_descend_spec root bucket os ls j left ftotal Hroot) as (os1 & ls1 & left1 & Hrun & Hent1 & Hd1); [reflexivity|done..|].
    destruct (IH os1 ls1 left1 Hent1) as (os2 & ls2 & left2 & Hrun2 & Hent2 & Hd2). exists os2, ls2, left2. split; [|split; [done|]].
    + eapply runs_fuel_bind; [|exact Hrun2]. eapply runs_fuel_lift; [by apply value_at_frame|]. rewrite bool_decide_false by tauto.
      destruct Hrun as [N HN]. exists N. intros _ F _ HF. by apply HN.
    + intros Hdes Hun. destruct (Hd1 Hdes Hun) as [-> Hh1]. destruct (Hd2 Hdes Hun) as [-> Hh2]. split; [done|].
      intros i [[Hi|Hi]%elem_of_cons|Hi]; apply Hh2; [right; apply Hh1; left; lia|by left|right; apply Hh1; by right].
  - destruct (IH os ls left Hent) as (os2 & ls2 & left2 & Hrun2 & Hent2 & Hd2). exists os2, ls2, left2. split; [|split; [done|]].
    + eapply runs_fuel_bind; [|exact Hrun2]. eapply runs_fuel_lift; [by apply value_at_frame|]. rewrite bool_decide_true by done.
      apply runs_fuel_const, runs_ret.
    + intros _ Hun. rewrite Forall_lookup in Hun. by specialize (Hun _ _ Ho).
Qed.

Lemma indep_rounds_spec m os ls left ftotal :
  entries a root n os ls → 0 ≤ ftotal → ftotal + Z.of_nat m ≤ i_tries a →
  ∃ os' ls', runs_fuel map (λ _ F, indep_rounds map wgt x choose_args F m (recurse F) a bucket outpos (outpos + Z.of_nat n) parent_r ftotal
      (frame A B os, left, second o2 ls)) (frame A B os', second o2 ls') ∧ entries a root n os' ls'
    ∧ (deserted → Forall (λ o, o = CRUSH_ITEM_UNDEF) os → (0 < m)%nat ∧ 0 < left ∨ (∀ i, (i < n)%nat → held ls i) →
        ∀ i, (i < n)%nat → held ls' i).
Proof.
  revert os ls left ftotal. induction m as [|m IH]; intros os ls left ftotal Hent Hft Htr; cbn [indep_rounds].
  { exists os, ls. split; [apply runs_fuel_const, runs_ret|]. split; [done|]. intros _ _ [|]; [lia|done]. }
  destruct (decide (left ≤ 0)) as [Hz|Hnz].
  { exists os, ls. rewrite bool_decide_true by done. split; [apply runs_fuel_const, runs_ret|]. split; [done|]. intros _ _ [|]; [lia|done]. }
  destruct (indep_round_spec os ls left ftotal Hent) as (os1 & ls1 & left1 & Hrun1 & Hent1 & Hd1); [lia|].
  destruct (IH os1 ls1 left1 (ftotal + 1) Hent1) as (os2 & ls2 & Hrun2 & Hent2 & Hd2); [lia|lia|]. exists os2, ls2. split; [|split; [done|]].
  - rewrite bool_decide_false by done. eapply runs_fuel_bind; [exact Hrun1|]. exact Hrun2.
  - intros Hdes Hun _. destruct (Hd1 Hdes Hun) as [-> Hh1]. apply Hd2; [done|done|]. right. intros i Hi. apply Hh1. by left.
Qed.

(** ** Before and after *)

Definition or_none (e : Z) : Z := if bool_decide (e = CRUSH_ITEM_UNDEF) then CRUSH_ITEM_NONE else e.

Lemma undef_to_none_spec A' B' l (j : nat) e :
  l !! j = Some e → undef_to_none (frame A' B' l) (Z.of_nat (length A' + j)) = Ret (frame A' B' (<[j := or_none e]> l)).
Proof.
  intros Hj. unfold undef_to_none, or_none. rewrite (value_at_frame A' B' l j e) by done. cbn [mbind outcome_bind].
  case_bool_decide as He; [apply store_at_frame; by eapply lookup_lt_Some|]. by rewrite list_insert_id.
Qed.

(** All positions to the mark for undefined ones. *)
Definition second_raw (M2 : vector) : option vector := match o2 with None => None | Some (A2, B2) => Some (A2 ++ M2 ++ B2) end.

Lemma mark_spec (M M2 : vector) v :
  length M = n → length M2 = n →
  foldM (λ '(out, out2) rep, store_both out out2 rep v) (A ++ M ++ B, second_raw M2) (seqZ outpos (Z.of_nat n))
  = Ret (frame A B (replicate n v), second o2 (replicate n v)).
Proof.
  intros HM HM2. match goal with |- context [foldM ?f _ _] => set (body := f) end.
  destruct (foldM_inv body (λ l st, st = (A ++ (Some <$> replicate (length l) v) ++ drop (length l) M ++ B,
      second_raw ((Some <$> replicate (length l) v) ++ drop (length l) M2))) (seqZ outpos (Z.of_nat n)) (A ++ M ++ B, second_raw M2))
    as (st & -> & ->); [done| |].
  - intros l1 rep l2 [out out2] Hl [= -> ->]. assert (rep = outpos + Z.of_nat (length l1) ∧ rep < outpos + Z.of_nat n) as [-> Hlt].
    { assert (seqZ outpos (Z.of_nat n) !! length l1 = Some rep) as Hs by (rewrite Hl; by apply list_lookup_middle). apply lookup_seqZ in Hs. lia. }
    assert (∀ (A' B' M' : vector), length A' = length A → length M' = n →
      store_at (A' ++ ((Some <$> replicate (length l1) v) ++ drop (length l1) M') ++ B') (outpos + Z.of_nat (length l1)) (Some v)
      = Ret (A' ++ ((Some <$> replicate (length l1 + 1) v) ++ drop (length l1 + 1) M') ++ B')) as Hstore.
    { intros A' B' M' HA' HM'. rewrite store_at_ok by (rewrite !length_app, length_fmap, length_replicate, length_drop; lia). f_equal.
      rewrite insert_app_r_alt by lia. f_equal. rewrite insert_app_l by (rewrite length_app, length_fmap, length_replicate, length_drop; lia). f_equal.
      replace (Z.to_nat (outpos + Z.of_nat (length l1)) - length A')%nat with (length l1) by lia.
      rewrite insert_app_r_alt by (by rewrite length_fmap, length_replicate). rewrite length_fmap, length_replicate, Nat.sub_diag.
      rewrite replicate_add, fmap_app, <-app_assoc. f_equal.
      destruct (drop (length l1) M') as [|y ys] eqn:Hd; [apply (f_equal length) in Hd; rewrite length_drop in Hd; cbn in Hd; lia|].
      cbn. f_equal. rewrite <-drop_drop, Hd. done. }
    eexists. split; [|reflexivity]. rewrite length_app. cbn [length]. unfold body, store_both. rewrite (app_assoc (Some <$> _) (drop _ _) B).
    rewrite Hstore by done. cbn [mbind outcome_bind]. rewrite <-(app_assoc (Some <$> _) (drop _ _) B).
    unfold second_raw. destruct o2 as [[A2 B2]|] eqn:E; [|done]. rewrite Hstore by (done || by apply (Ho2 A2 B2)). done.
  - rewrite length_seqZ, Nat2Z.id, !drop_ge by lia. unfold second_raw, second, frame. by rewrite app_nil_r.
Qed.

(** The marks that are left to nothing. *)
Lemma unmark_spec os ls :
  length os = n → length ls = n →
  foldM (λ '(out, out2) rep,
      out ← undef_to_none out rep;
      match out2 with
      | None => Ret (out, None)
      | Some v => v ← undef_to_none v rep; Ret (out, Some v)
      end) (frame A B os, second o2 ls) (seqZ outpos (Z.of_nat n))
  = Ret (frame A B (or_none <$> os), second o2 (or_none <$> ls)).
Proof.
  intros Hos Hls. match goal with |- context [foldM ?f _ _] => set (body := f) end.
  destruct (foldM_inv body (λ l st, st = (frame A B ((or_none <$> take (length l) os) ++ drop (length l) os),
      second o2 ((or_none <$> take (length l) ls) ++ drop (length l) ls))) (seqZ outpos (Z.of_nat n)) (frame A B os, second o2 ls))
    as (st & -> & ->); [done| |].
  - intros l1 rep l2 [out out2] Hl [= -> ->]. assert (rep = Z.of_nat (length A + length l1) ∧ (length l1 < n)%nat) as [-> Hlt].
    { assert (seqZ outpos (Z.of_nat n) !! length l1 = Some rep) as Hs by (rewrite Hl; by apply list_lookup_middle). apply lookup_seqZ in Hs. lia. }
    assert (∀ A' B' l, length A' = length A → length l = n →
      undef_to_none (frame A' B' ((or_none <$> take (length l1) l) ++ drop (length l1) l)) (Z.of_nat (length A + length l1))
      = Ret (frame A' B' ((or_none <$> take (length l1 + 1) l) ++ drop (length l1 + 1) l))) as Hone.
    { intros A' B' l HA' Hl'. destruct (lookup_lt_is_Some_2 l (length l1)) as [e He]; [lia|]. rewrite <-HA'.
      rewrite (undef_to_none_spec A' B' _ (length l1) e).
      - do 2 f_equal. rewrite insert_app_r_alt by (rewrite length_fmap, length_take; lia). rewrite length_fmap, length_take_le, Nat.sub_diag by lia.
        rewrite Nat.add_1_r, (take_S_r _ _ e), fmap_app, <-app_assoc by done. f_equal. by rewrite (drop_S _ e).
      - rewrite lookup_app_r by (rewrite length_fmap, length_take; lia). rewrite length_fmap, length_take_le, Nat.sub_diag by lia.
        by rewrite lookup_drop, Nat.add_0_r. }
    eexists. split; [|reflexivity]. rewrite length_app. cbn [length]. unfold body. rewrite Hone by done. cbn [mbind outcome_bind].
    unfold second. destruct o2 as [[A2 B2]|] eqn:E; [|done]. by rewrite Hone by (done || by apply (Ho2 A2 B2)).
  - rewrite length_seqZ, Nat2Z.id, !take_ge, !drop_ge by lia. by rewrite !app_nil_r.
Qed.

End descend.

(** ** The function *)

(** A position in the end. *)
Definition filled (type : Z) (to_leaf : bool) (root o leaf : Z) : Prop :=
  o = CRUSH_ITEM_NONE ∧ leaf = CRUSH_ITEM_NONE
  ∨ placed type o ∧ below map root o ∧ (to_leaf = true → placed 0 leaf ∧ below map o leaf).

(** A position in the end, when devices may be chosen as their own leaves: the
    leaf of a position without an item may be a device that is out. *)
Definition slot (type : Z) (to_leaf : bool) (root o leaf : Z) : Prop :=
  filled type to_leaf root o leaf ∨ o = CRUSH_ITEM_NONE ∧ stale type to_leaf root leaf.

Lemma slot_filled type to_leaf root o leaf : (to_leaf = true → type ≠ 0) → slot type to_leaf root o leaf → filled type to_leaf root o leaf.
Proof. intros Ht [|(_ & ? & E & _)]; [done|]. by destruct (Ht E). Qed.

Lemma slots_filled type to_leaf root os ls :
  (to_leaf = true → type ≠ 0) → Forall2 (slot type to_leaf root) os ls → Forall2 (filled type to_leaf root) os ls.
Proof. intros Ht Hf. eapply Forall2_impl; [exact Hf|]. intros o l. by apply slot_filled. Qed.

Lemma or_none_known t o : type_of map o = Some t → or_none o = o.
Proof.
  intros Ht. unfold or_none. rewrite bool_decide_false; [done|]. intros ->. pose proof (type_of_bound _ _ Ht). pose proof (map_devices _ _ Hmap). lia.
Qed.

Lemma or_none_placed t o : placed t o → or_none o = o.
Proof. intros [Ht _]. by eapply or_none_known. Qed.

Lemma entry_filled a root o leaf : entry a root o leaf → slot (i_type a) (i_recurse_to_leaf a) root (or_none o) (or_none leaf).
Proof.
  intros [[-> [->|[->|Hs]]]|[[-> ->]|(Hp & Hb & Hl)]]; [by left; left..| |by left; left|].
  - right. split; [done|]. pose proof Hs as (_ & _ & Ht & _). by rewrite (or_none_known 0).
  - left. right. rewrite (or_none_placed (i_type a)) by done.
    split_and!; [done|done|]. intros E. destruct (Hl E) as [Hp0 Hb0]. by rewrite (or_none_placed 0).
Qed.

Lemma entries_filled a root n os ls :
  entries a root n os ls → Forall2 (slot (i_type a) (i_recurse_to_leaf a) root) (or_none <$> os) (or_none <$> ls)
    ∧ ∀ i j o, (or_none <$> os) !! i = Some o → (or_none <$> os) !! j = Some o → i ≠ j → o = CRUSH_ITEM_NONE.
Proof.
  intros (_ & Hf & Hd). split.
  - apply Forall2_fmap. eapply Forall2_impl; [exact Hf|]. apply entry_filled.
  - intros i j o. rewrite !list_lookup_fmap. intros (oi & Hi & ->)%fmap_Some (oj & E & Hj)%fmap_Some Hne. revert Hj. unfold or_none.
    repeat case_bool_decide; try done; intros ->. by destruct (Hd i j oj) as [|]; try done.
Qed.

Lemma entries_undef a root n : entries a root n (replicate n CRUSH_ITEM_UNDEF) (replicate n CRUSH_ITEM_UNDEF).
Proof.
  split_and!; [apply length_replicate| |].
  - apply Forall2_replicate. left. split; [done|by left].
  - intros i j o Hi _ _. apply lookup_replicate in Hi as [-> _]. by left.
Qed.

Lemma choose_indep_level depth a root bucket A B (M : vector) o2 (M2 : vector) parent_r :
  indep_ok a → (i_recurse_to_leaf a = true → indep_leaf_spec (λ F, crush_choose_indep map wgt x choose_args F depth) a) →
  bucket_of map root = Some bucket → Z.of_nat (length A + length M) < LIMIT → length M2 = length M →
  (∀ A2 B2, o2 = Some (A2, B2) → length A2 = length A) → (i_recurse_to_leaf a = true → is_Some o2) →
  0 ≤ parent_r ≤ 2 ^ 30 → (i_recurse_to_leaf a = true → parent_r = 0) →
  ∃ os ls, runs_fuel map (λ _ F, crush_choose_indep map wgt x choose_args F (S depth) a bucket (Z.of_nat (length M)) (A ++ M ++ B)
      (Z.of_nat (length A)) (second_raw o2 M2) parent_r) (frame A B os, second o2 ls)
    ∧ length os = length M ∧ Forall2 (slot (i_type a) (i_recurse_to_leaf a) root) os ls
    ∧ (∀ i j o, os !! i = Some o → os !! j = Some o → i ≠ j → o = CRUSH_ITEM_NONE)
    ∧ (deserted a root → 0 < i_tries a → Forall (λ l, type_of map l = Some 0) ls).
Proof.
  intros Ha Hrec Hroot Hsp HM2 Ho2 Hl2 Hp Hp0. pose proof (iok_tries _ Ha) as Ht.
  destruct (indep_rounds_spec (λ F, crush_choose_indep map wgt x choose_args F depth) a Ha Hrec root bucket Hroot A B o2 (length M) Hsp Ho2 Hl2
    parent_r Hp Hp0 (Z.to_nat (i_tries a)) (replicate (length M) CRUSH_ITEM_UNDEF) (replicate (length M) CRUSH_ITEM_UNDEF)
    (Z.of_nat (length M)) 0 (entries_undef a root (length M))) as (os & ls & Hrun & Hent & Hdes); [lia|lia|].
  pose proof Hent as (Hlen & Hf & _). destruct (entries_filled _ _ _ _ _ Hent) as [Hfill Hd].
  exists (or_none <$> os), (or_none <$> ls). split_and!; [|by rewrite length_fmap|done|done|].
  2: { intros Hde Htr. apply Forall_fmap, Forall_lookup. intros i l Hi. pose proof (lookup_lt_Some _ _ _ Hi) as Hlt. rewrite <-(Forall2_length _ _ _ Hf) in Hlt.
       destruct (Hdes Hde) with (i := i) as (d & Hd' & Ht'); [by apply Forall_replicate|left; lia|lia|]. simplify_eq/=. by rewrite (or_none_known 0). }
  cbn [crush_choose_indep]. eapply runs_fuel_lift; [by eapply mark_spec|]. cbv beta iota.
  eapply runs_fuel_bind; [exact Hrun|]. cbv beta iota. apply runs_fuel_const, runs_lift.
  eapply unmark_spec; try done. by rewrite <-(Forall2_length _ _ _ Hf).
Qed.

Lemma leaf_call_ok a : indep_ok a → indep_ok (leaf_call a).
Proof. intros []. constructor; cbn; try done. split; [lia|]. pose proof limits. nia. Qed.

Lemma indep_leaf_call a : indep_ok a → indep_leaf_spec (λ F, crush_choose_indep map wgt x choose_args F 1) a.
Proof.
  intros Ha item b A B e r Hb HA Hr. pose proof limits as Hlim.
  destruct (choose_indep_level 0 (leaf_call a) item b A B [Some e] None [None] r) as (os & ls & Hrun & Hlen & Hf%slots_filled & _); try done.
  - by apply leaf_call_ok.
  - cbn. lia.
  - destruct os as [|leaf [|]]; try done. exists leaf. split; [exact Hrun|].
    destruct ls as [|l [|]]; [by inversion Hf| |by inversion Hf as [|????? Hf']; inversion Hf']. apply Forall2_cons in Hf as [Hf _].
    destruct Hf as [[-> _]|(Hp & Hbl & _)]; [by left|by right].
Qed.

(** [crush_choose_indep] at the start of its vectors. *)
Lemma crush_choose_indep_spec a root bucket (o c : vector) (n : nat) :
  indep_ok a → bucket_of map root = Some bucket → (n ≤ length o)%nat → length c = length o → Z.of_nat (length o) < LIMIT →
  ∃ os ls, runs_fuel map (λ _ F, crush_choose_indep map wgt x choose_args F 2 a bucket (Z.of_nat n) o 0 (Some c) 0)
      ((Some <$> os) ++ drop n o, Some ((Some <$> ls) ++ drop n c))
    ∧ length os = n ∧ Forall2 (slot (i_type a) (i_recurse_to_leaf a) root) os ls
    ∧ (∀ i j v, os !! i = Some v → os !! j = Some v → i ≠ j → v = CRUSH_ITEM_NONE)
    ∧ (deserted a root → 0 < i_tries a → Forall (λ l, type_of map l = Some 0) ls).
Proof.
  intros Ha Hroot Hn Hc Ho. assert (length (take n o) = n) as Hto by (rewrite length_take; lia).
  assert (length (take n c) = n) as Htc by (rewrite length_take; lia).
  destruct (choose_indep_level 1 a root bucket [] (drop n o) (take n o) (Some ([], drop n c)) (take n c) 0) as (os & ls & Hrun & Hlen & Hf & Hd & Hde);
    try done.
  - intros _. by apply indep_leaf_call.
  - rewrite Hto. cbn. lia.
  - by rewrite Hto, Htc.
  - by intros A2 B2 [= <- <-].
  - exists os, ls. rewrite Hto in *. cbn [second_raw app] in Hrun. rewrite !take_drop in Hrun. split_and!; [exact Hrun|done|done|done|done].
Qed.

End indep.
