(* ===== verification/CrushRule.v ===== *)
(** * Rules

    [crush_do_rule] of src/src/crush/mapper.c: every rule comes to an end on
    a sound map, with a result that is no longer than it may be, of items of
    the map; and the meaning of the rules that take a bucket, choose below it
    and emit. *)

From S2P Require Import Prelude CrushRules CrushTables CrushHash CrushMap CrushMapper CrushPerm CrushLn CrushBuckets CrushPlacement CrushIndep.

Import Crush Mapper.

(** The numbers of a rule are small. *)
Definition SMALL : Z := 2 ^ 14.

Lemma small : SMALL = 16384.
Proof. done. Qed.

(** The tunables of a state. *)
Record tunables_ok (s : rule_state) : Prop := {
  tun_tries : 0 < s_choose_tries s ≤ SMALL;
  tun_leaf_tries : 0 ≤ s_choose_leaf_tries s ≤ SMALL;
  tun_local : 0 ≤ s_local_retries s ≤ SMALL;
  tun_fallback : 0 ≤ s_local_fallback_retries s ≤ SMALL;
  tun_vary_r : 0 ≤ s_vary_r s ≤ 32;
  tun_stable : 0 ≤ s_stable s < 2 ^ 31;
}.

Definition is_choose (step : crush_rule_step) : Prop :=
  op step ∈ [CRUSH_RULE_CHOOSELEAF_FIRSTN; CRUSH_RULE_CHOOSE_FIRSTN; CRUSH_RULE_CHOOSELEAF_INDEP; CRUSH_RULE_CHOOSE_INDEP].

(** Small arguments. *)
Record step_ok (step : crush_rule_step) : Prop := {
  step_small : - 2 ^ 31 ≤ arg1 step ≤ SMALL;
  step_vary_r : op step = CRUSH_RULE_SET_CHOOSELEAF_VARY_R → arg1 step ≤ 32;
}.

Record tunables_map_ok (map : crush_map) : Prop := {
  tmap_tries : 0 ≤ choose_total_tries map < SMALL;
  tmap_local : 0 ≤ choose_local_tries map ≤ SMALL;
  tmap_fallback : 0 ≤ choose_local_fallback_tries map ≤ SMALL;
  tmap_vary_r : 0 ≤ chooseleaf_vary_r map ≤ 32;
  tmap_stable : 0 ≤ chooseleaf_stable map < 2 ^ 31;
}.

Section rule.
Context (map : crush_map) (rank : Z → nat) (Hmap : map_ok map rank) (Htun : tunables_map_ok map).
Context (wgt : list Z) (x : Z) (choose_args : option (list crush_choose_arg)) (Hargs : args_ok map choose_args).
Context (result_max : Z) (Hmax : 0 < result_max ≤ SMALL).

#[local] Abbreviation placed := (placed map wgt x).

(** Nothing, or an item of the map. *)
Definition known (i : Z) : Prop := i = CRUSH_ITEM_NONE ∨ is_Some (type_of map i).

Lemma known_placed t i : placed t i → known i.
Proof. intros [Ht _]. right. by eexists. Qed.

Lemma known_bucket i : known i → 0 ≤ -1 - i < max_buckets map → ∃ b, bucket_of map i = Some b.
Proof.
  intros Hk Hr. pose proof (map_devices _ _ Hmap). unfold CRUSH_ITEM_UNDEF in *. destruct Hk as [->|[t Ht]].
  - unfold CRUSH_ITEM_NONE in Hr. lia.
  - unfold type_of in Ht. rewrite bool_decide_false in Ht by lia. destruct (bucket_of map i) as [b|] eqn:Hb; [by exists b|done].
Qed.

(** A state with the values of its working vector. *)
Record state_ok (s : rule_state) (vals : list Z) : Prop := {
  st_w : Z.of_nat (length (s_w s)) = result_max;
  st_o : Z.of_nat (length (s_o s)) = result_max;
  st_c : Z.of_nat (length (s_c s)) = result_max;
  st_prefix : prefix (s_w s) vals;
  st_wsize : s_wsize s = Z.of_nat (length vals);
  st_known : Forall known vals;
  st_result : Z.of_nat (length (s_result s)) ≤ result_max ∧ Forall known (s_result s);
  st_tunables : tunables_ok s;
}.

(** ** Choosing *)

(** The output vectors while the buckets are gone through. *)
Definition output (leaf : bool) (st : vector * vector * Z) (os ls : list Z) : Prop :=
  let '(o, c, osize) := st in
  Z.of_nat (length o) = result_max ∧ Z.of_nat (length c) = result_max ∧ prefix o os ∧ osize = Z.of_nat (length os)
  ∧ (leaf = true → prefix c ls ∧ length ls = length os).

Lemma prefix_app_drop (v v' : vector) l l' :
  prefix v l → prefix v' l' → prefix (take (length l) v ++ v') (l ++ l').
Proof.
  intros Hl Hl'. unfold prefix in *. rewrite length_app, fmap_app, Hl. rewrite take_app_add' by (by rewrite length_fmap). by rewrite Hl'.
Qed.

Definition numrep_of (step : crush_rule_step) : Z := if bool_decide (arg1 step ≤ 0) then arg1 step + result_max else arg1 step.

Lemma numrep_spec step :
  step_ok step → (if bool_decide (arg1 step ≤ 0) then add_int (arg1 step) result_max else Ret (arg1 step)) = Ret (numrep_of step)
    ∧ numrep_of step ≤ SMALL.
Proof.
  intros [Hs _]. pose proof small. unfold numrep_of, add_int. case_bool_decide; [|split; [done|lia]].
  rewrite bool_decide_true by lia. split; [done|lia].
Qed.

Definition recurse_tries (s : rule_state) : Z :=
  if bool_decide (s_choose_leaf_tries s ≠ 0) then s_choose_leaf_tries s
  else if bool_decide (chooseleaf_descend_once map ≠ 0) then 1 else s_choose_tries s.

Definition firstn_call (s : rule_state) (step : crush_rule_step) (leaf : bool) : firstn_args :=
  mkFirstn (numrep_of step) (arg2 step) (u32 (s_choose_tries s)) (u32 (recurse_tries s)) (u32 (s_local_retries s))
    (u32 (s_local_fallback_retries s)) leaf (u32 (s_vary_r s)) (u32 (s_stable s)).

Definition indep_call (s : rule_state) (step : crush_rule_step) (leaf : bool) : indep_args :=
  mkIndep (numrep_of step) (arg2 step) (u32 (s_choose_tries s))
    (if bool_decide (s_choose_leaf_tries s ≠ 0) then u32 (s_choose_leaf_tries s) else 1) leaf.

Lemma firstn_call_ok s step leaf : tunables_ok s → step_ok step → firstn_ok (firstn_call s step leaf).
Proof.
  intros [] Hs. destruct (numrep_spec step Hs) as [_ Hn]. pose proof small. pose proof limits.
  constructor; cbn; unfold recurse_tries; repeat case_bool_decide; rewrite ?u32_small by lia; lia.
Qed.

Lemma indep_call_ok s step leaf :
  tunables_ok s → step_ok step → 0 < numrep_of step → indep_ok (indep_call s step leaf).
Proof.
  intros [] Hs Hpos. destruct (numrep_spec step Hs) as [_ Hn]. pose proof small. pose proof limits.
  constructor; cbn; [lia|rewrite u32_small by lia; nia|]. case_bool_decide; rewrite ?u32_small by lia; nia.
Qed.

(** No bucket below the root is empty, and every device below it is out. *)
Definition all_out (root : Z) : Prop :=
  ∀ i, below map root i → (∀ b, bucket_of map i = Some b → 0 < size b) ∧ (type_of map i = Some 0 → is_out wgt i x = Ret true).

(** What is chosen below a bucket when there is room for so many. *)
Definition chosen (step : crush_rule_step) (firstn leaf : bool) (root room : Z) (new newl : list Z) : Prop :=
  if firstn then
    Z.of_nat (length new) ≤ Z.min (numrep_of step) room ∧ NoDup new ∧ Forall (λ i, placed (arg2 step) i ∧ below map root i) new
    ∧ (leaf = true → Forall2 (below map) new newl ∧ NoDup newl ∧ Forall (placed 0) newl)
  else
    Z.of_nat (length new) = Z.min (numrep_of step) room ∧ Forall2 (slot map wgt x (arg2 step) leaf root) new newl
    ∧ (∀ i j o, new !! i = Some o → new !! j = Some o → i ≠ j → o = CRUSH_ITEM_NONE)
    ∧ (arg2 step = 0 → leaf = true → all_out root → Forall (λ l, type_of map l = Some 0) newl).

Definition added (step : crush_rule_step) (firstn leaf : bool) (v room : Z) (new newl : list Z) : Prop :=
  if bool_decide (0 < numrep_of step) then
    match bucket_of map v with Some _ => chosen step firstn leaf v room new newl | None => new = [] ∧ newl = [] end
  else new = [] ∧ newl = [].

Lemma firstn_step s step leaf v b o c os ls :
  tunables_ok s → step_ok step → bucket_of map v = Some b → 0 < numrep_of step → output leaf (o, c, Z.of_nat (length os)) os ls →
  ∃ new newl st', runs_fuel map (λ _ F,
      '(got, o', c') ← crush_choose_firstn map wgt x choose_args F 2 (firstn_call s step leaf) b (drop (length os) o) 0
        (result_max - Z.of_nat (length os)) (Some (drop (length os) c)) 0;
      mret (take (length os) o ++ o', take (length os) c ++ default [] c', Z.of_nat (length os) + got)) st'
    ∧ output leaf st' (os ++ new) (ls ++ newl) ∧ chosen step true leaf v (result_max - Z.of_nat (length os)) new newl.
Proof.
  intros Ht Hs Hb Hn (Ho & Hc & Hp & _ & Hl). pose proof (firstn_call_ok s step leaf Ht Hs) as Ha. pose proof small. pose proof limits.
  pose proof (prefix_length _ _ Hp) as Hle.
  destruct (crush_choose_firstn_spec map rank Hmap wgt x choose_args Hargs (firstn_call s step leaf) v b (drop (length os) o) (Some (drop (length os) c)))
    as (res & (N & HN) & (new & newl & o' & c' & -> & Hm & Hlo & Hpre & Hnd & Hall & Hend)); [done|done|rewrite length_drop; lia| |].
  { intros _. eexists. split; [done|]. rewrite !length_drop. lia. }
  rewrite length_drop in *. replace (Z.of_nat (length o - length os)) with (result_max - Z.of_nat (length os)) in HN by lia. cbn [app] in Hpre.
  exists new, newl. eexists. split; [eapply runs_fuel_bind; [exists N; intros _ F _ HF; apply HN; exact HF|]; apply runs_fuel_const, runs_ret|].
  cbv beta iota. assert (leaf = true → ∃ v', c' = Some v' ∧ length v' = (length c - length os)%nat ∧ prefix v' newl) as Hc'.
  { intros ->. destruct Hend as ((v' & v0 & -> & [= <-] & Hlv & Hpv) & _). exists v'. rewrite length_drop in Hlv. done. }
  assert (length (default [] c') = (length c - length os)%nat) as Hdc.
  { destruct leaf; [destruct (Hc' eq_refl) as (v' & -> & ? & _); done|]. cbn in Hend. rewrite Hend. cbn. by rewrite length_drop. }
  cbn in Hall, Hm. split; [split_and!|].
  - rewrite length_app, length_take. lia.
  - rewrite length_app, length_take. lia.
  - by apply prefix_app_drop.
  - rewrite length_app. cbn. lia.
  - intros E. destruct (Hl E) as [Hpc Hll]. destruct (Hc' E) as (v' & -> & Hlv & Hpv). cbn. rewrite <-Hll. split; [by apply prefix_app_drop|].
    rewrite !length_app. f_equal; [done|]. subst leaf. destruct Hend as (_ & Hf2 & _). symmetry. by eapply Forall2_length.
  - split_and!; [lia|done| |].
    + eapply Forall_impl; [exact Hall|]. cbn. tauto.
    + intros ->. destruct Hend as (_ & Hf2 & Hnl & Hal). split_and!; [done|done|]. eapply Forall_impl; [exact Hal|]. cbn. tauto.
Qed.

Lemma indep_step s step leaf v b o c os ls :
  tunables_ok s → step_ok step → bucket_of map v = Some b → 0 < numrep_of step →
  output leaf (o, c, Z.of_nat (length os)) os ls →
  ∃ new newl st', runs_fuel map (λ _ F,
      let out_size := if bool_decide (numrep_of step < result_max - Z.of_nat (length os)) then numrep_of step else result_max - Z.of_nat (length os) in
      '(o', c') ← crush_choose_indep map wgt x choose_args F 2 (indep_call s step leaf) b out_size (drop (length os) o) 0
        (Some (drop (length os) c)) 0;
      mret (take (length os) o ++ o', take (length os) c ++ default [] c', Z.of_nat (length os) + out_size)) st'
    ∧ output leaf st' (os ++ new) (ls ++ newl) ∧ chosen step false leaf v (result_max - Z.of_nat (length os)) new newl.
Proof.
  intros Ht Hs Hb Hn (Ho & Hc & Hp & _ & Hl). pose proof (indep_call_ok s step leaf Ht Hs Hn) as Ha. pose proof small. pose proof limits.
  pose proof (prefix_length _ _ Hp) as Hle. cbv zeta.
  set (room := if bool_decide _ then _ else _). assert (room = Z.min (numrep_of step) (result_max - Z.of_nat (length os))) as Hroom
    by (unfold room; case_bool_decide; lia).
  destruct (crush_choose_indep_spec map rank Hmap wgt x choose_args Hargs (indep_call s step leaf) v b (drop (length os) o) (drop (length os) c) (Z.to_nat room))
    as (new & newl & [N HN] & Hln & Hf & Hd & Hde); [done|done|rewrite length_drop; lia|rewrite !length_drop; lia|rewrite length_drop; lia|].
  rewrite Z2Nat.id in HN by lia. exists new, newl. eexists.
  split; [eapply runs_fuel_bind; [exists N; exact HN|]; apply runs_fuel_const, runs_ret|].
  cbv beta iota. cbn [default from_option Datatypes.id]. pose proof (Forall2_length _ _ _ Hf) as Hlf.
  assert (∀ (v : vector) l, prefix ((Some <$> l) ++ v) l) as Hpx by (intros v' l'; unfold prefix; by rewrite take_app_length' by (by rewrite length_fmap)).
  split; [split_and!|].
  - rewrite !length_app, length_take, length_fmap, !length_drop. lia.
  - rewrite !length_app, length_take, length_fmap, !length_drop. lia.
  - by apply prefix_app_drop.
  - rewrite length_app. lia.
  - intros E. destruct (Hl E) as [Hpc Hll]. rewrite <-Hll. split; [by apply prefix_app_drop|]. rewrite !length_app. lia.
  - split_and!; [lia|done|done|]. intros E0 El Hao. apply Hde; [by split_and!|]. destruct Ht as [Htr _ _ _ _ _]. cbn. rewrite u32_small by lia. lia.
Qed.

Lemma choose_from_spec s vals step firstn leaf (i : nat) v st os ls :
  state_ok s vals → step_ok step → vals !! i = Some v → output leaf st os ls →
  ∃ new newl st', runs_fuel map (λ _ F, choose_from map wgt x choose_args F result_max s step firstn leaf (Z.of_nat i) st) st'
    ∧ output leaf st' (os ++ new) (ls ++ newl) ∧ added step firstn leaf v (result_max - Z.of_nat (length os)) new newl.
Proof.
  intros Hst Hs Hi Hout. destruct st as [[o c] osize]. pose proof Hout as (Ho & Hc & Hp & -> & Hl).
  destruct (numrep_spec step Hs) as [Hnr _]. unfold added, choose_from.
  assert (known v) as Hk by (pose proof (st_known _ _ Hst) as Hall; rewrite Forall_lookup in Hall; by eapply Hall).
  assert (value_at (s_w s) (Z.of_nat i) = Ret v) as Hv.
  { apply value_at_ok; [lia|]. rewrite Nat2Z.id. eapply prefix_lookup; [apply (st_prefix _ _ Hst)|done]. }
  destruct (decide (0 < numrep_of step)) as [Hn|Hn].
  2:{ exists [], [], (o, c, Z.of_nat (length os)). rewrite (bool_decide_false (0 < _)), !app_nil_r by done. split_and!; [|done..].
      eapply runs_fuel_lift; [exact Hnr|]. rewrite bool_decide_true by lia. apply runs_fuel_const, runs_ret. }
  rewrite (bool_decide_true (0 < _)) by done.
  destruct (decide (0 ≤ -1 - v < max_buckets map)) as [Hr|Hr].
  2:{ exists [], [], (o, c, Z.of_nat (length os)). rewrite !app_nil_r. split_and!; [|done..|].
      - eapply runs_fuel_lift; [exact Hnr|]. rewrite (bool_decide_false (numrep_of step ≤ 0)) by lia.
        eapply runs_fuel_lift; [exact Hv|]. cbv zeta. rewrite (bool_decide_true (-1 - v < 0 ∨ _)) by lia. apply runs_fuel_const, runs_ret.
      - destruct (bucket_of map v) as [b|] eqn:Hb; [|done]. exfalso. destruct (bucket_number map rank Hmap _ _ Hb) as (_ & ? & _). lia. }
  destruct (known_bucket v Hk Hr) as (b & Hb). rewrite Hb. destruct firstn.
  - destruct (firstn_step s step leaf v b o c os ls) as (new & newl & st' & Hrun & Hout' & Hch); [apply (st_tunables _ _ Hst)|done..|].
    exists new, newl, st'. split_and!; [|done|done]. eapply runs_fuel_lift; [exact Hnr|]. rewrite (bool_decide_false (numrep_of step ≤ 0)) by lia.
    eapply runs_fuel_lift; [exact Hv|]. cbv zeta. rewrite (bool_decide_false (-1 - v < 0 ∨ _)) by lia.
    eapply runs_fuel_lift; [by eapply bucket_at_spec|]. cbv zeta. rewrite Nat2Z.id. exact Hrun.
  - destruct (indep_step s step leaf v b o c os ls) as (new & newl & st' & Hrun & Hout' & Hch); [apply (st_tunables _ _ Hst)|done..|].
    exists new, newl, st'. split_and!; [|done|done]. eapply runs_fuel_lift; [exact Hnr|]. rewrite (bool_decide_false (numrep_of step ≤ 0)) by lia.
    eapply runs_fuel_lift; [exact Hv|]. cbv zeta. rewrite (bool_decide_false (-1 - v < 0 ∨ _)) by lia.
    eapply runs_fuel_lift; [by eapply bucket_at_spec|]. cbv zeta. rewrite Nat2Z.id. exact Hrun.
Qed.

(** What is added for the values one after the other. *)
Inductive all_added (step : crush_rule_step) (firstn leaf : bool) : list Z → Z → list Z → list Z → Prop :=
  | added_nil room : all_added step firstn leaf [] room [] []
  | added_cons v vs room new newl news newls :
      added step firstn leaf v room new newl →
      all_added step firstn leaf vs (room - Z.of_nat (length new)) news newls →
      all_added step firstn leaf (v :: vs) room (new ++ news) (newl ++ newls).

Lemma choose_loop_spec s vals step firstn leaf vs (i : nat) st os ls :
  state_ok s vals → step_ok step → drop i vals = vs → output leaf st os ls →
  ∃ new newl st', runs_fuel map (λ _ F, foldC (λ st i, choose_from map wgt x choose_args F result_max s step firstn leaf i st) st
      (seqZ (Z.of_nat i) (Z.of_nat (length vs)))) st'
    ∧ output leaf st' (os ++ new) (ls ++ newl) ∧ all_added step firstn leaf vs (result_max - Z.of_nat (length os)) new newl.
Proof.
  intros Hst Hs. revert i st os ls. induction vs as [|v vs IH]; intros i st os ls Hd Hout.
  { exists [], [], st. rewrite !app_nil_r. split_and!; [exists 0%nat; intros f F _ _; apply runs_ret|done|constructor]. }
  assert (vals !! i = Some v) as Hi by (rewrite <-(Nat.add_0_r i), <-lookup_drop, Hd; done).
  destruct (choose_from_spec s vals step firstn leaf i v st os ls Hst Hs Hi Hout) as (new1 & newl1 & st1 & Hrun1 & Hout1 & Hadd1).
  destruct (IH (S i) st1 (os ++ new1) (ls ++ newl1)) as (new2 & newl2 & st2 & Hrun2 & Hout2 & Hadd2).
  { rewrite <-Nat.add_1_r, <-drop_drop, Hd. done. }
  { done. }
  exists (new1 ++ new2), (newl1 ++ newl2), st2. rewrite !app_assoc. split_and!; [|done|].
  - cbn [length]. rewrite seqZ_cons by lia. replace (Z.succ (Z.of_nat i)) with (Z.of_nat (S i)) by lia.
    replace (Z.pred (Z.of_nat (S (length vs)))) with (Z.of_nat (length vs)) by lia. cbn [foldC].
    eapply runs_fuel_bind; [exact Hrun1|exact Hrun2].
  - econstructor; [exact Hadd1|]. replace (result_max - Z.of_nat (length os) - Z.of_nat (length new1)) with (result_max - Z.of_nat (length (os ++ new1)))
      by (rewrite length_app; lia). done.
Qed.

Lemma added_known step firstn leaf v room new newl :
  added step firstn leaf v room new newl → Forall known new ∧ (leaf = true → Forall known newl).
Proof.
  unfold added, chosen. case_bool_decide; [|intros [-> ->]; done]. destruct (bucket_of map v); [|intros [-> ->]; done].
  destruct firstn.
  - intros (_ & _ & Hall & Hl). split; [eapply Forall_impl; [exact Hall|]; cbn; intros i [Hp _]; by eapply known_placed|].
    intros E. destruct (Hl E) as (_ & _ & Hpl). eapply Forall_impl; [exact Hpl|]. intros i. apply known_placed.
  - intros (_ & Hf & _). induction Hf as [|o l new newl Hol Hf [IH1 IH2]]; [done|]. destruct Hol as [[[-> ->]|(Hp & _ & Hl)]|(-> & _ & _ & Ht & _)].
    + split; [constructor; [by left|done]|]. intros E. constructor; [by left|by apply IH2].
    + split; [constructor; [by eapply known_placed|done]|]. intros E. destruct (Hl E) as [Hp0 _]. constructor; [by eapply known_placed|by apply IH2].
    + split; [constructor; [by left|done]|]. intros E. constructor; [right; by eexists|by apply IH2].
Qed.

Lemma all_added_known step firstn leaf vs room new newl :
  all_added step firstn leaf vs room new newl → Forall known new ∧ (leaf = true → Forall known newl).
Proof.
  induction 1 as [|v vs room new newl news newls Hadd _ [IH1 IH2]]; [done|]. destruct (added_known _ _ _ _ _ _ _ Hadd) as [H1 H2].
  split; [by apply Forall_app|]. intros E. apply Forall_app. auto.
Qed.

(** The values after a choose step: leaves if they were asked for. *)
Lemma choose_step_spec s vals step firstn leaf :
  state_ok s vals → step_ok step →
  ∃ s' new newl, runs_fuel map (λ _ F, choose_step map wgt x choose_args F result_max s step firstn leaf) s'
    ∧ state_ok s' (if leaf then newl else new) ∧ all_added step firstn leaf vals result_max new newl
    ∧ s_result s' = s_result s.
Proof.
  intros Hst Hs. unfold choose_step. pose proof Hst as [Hw Ho Hc Hp Hsz Hk Hres Ht].
  destruct (decide (vals = [])) as [->|Hne].
  { exists s, [], []. rewrite bool_decide_true by done. split_and!; [apply runs_fuel_const, runs_ret| |constructor|done].
    destruct leaf; done. }
  rewrite bool_decide_false by (rewrite Hsz; destruct vals; [done|cbn; lia]).
  destruct (choose_loop_spec s vals step firstn leaf vals 0 (s_o s, s_c s, 0) [] []) as (new & newl & [[o c] osize] & Hrun & Hout & Hadd);
    [done|done|done| |].
  { split_and!; [done|done|done|done|]. by intros _. }
  destruct Hout as (Hlo & Hlc & Hpo & -> & Hpl). cbn [app] in *. rewrite Z.sub_0_r in Hadd.
  destruct (all_added_known _ _ _ _ _ _ _ Hadd) as [Hk1 Hk2]. eexists _, new, newl. split_and!.
  - eapply runs_fuel_bind; [rewrite Hsz; exact Hrun|]. apply runs_fuel_const, runs_ret.
  - cbv beta iota zeta. rewrite Nat2Z.id. pose proof (prefix_length _ _ Hpo). destruct leaf.
    + destruct (Hpl eq_refl) as [Hpc Hll]. constructor; cbn; [rewrite length_app, length_take, length_drop; lia|done|done| |lia|by apply Hk2|done|by destruct Ht].
      unfold prefix. rewrite Hll. rewrite take_app_length' by (rewrite length_take; lia). by rewrite <-Hll.
    + by constructor; destruct Ht.
  - done.
  - done.
Qed.

(** ** Steps *)

Lemma take_step_spec s vals a :
  state_ok s vals → ∃ s' vals', take_step map s a = Ret s' ∧ state_ok s' vals' ∧ (is_Some (type_of map a) → vals' = [a]) ∧ s_result s' = s_result s
    ∧ (s_choose_tries s', s_choose_leaf_tries s') = (s_choose_tries s, s_choose_leaf_tries s).
Proof.
  intros Hst. pose proof Hst as [Hw Ho Hc Hp Hsz Hk Hres Ht]. unfold take_step. pose proof (map_devices _ _ Hmap).
  assert (0 ≤ a < max_devices map ∨ 0 ≤ -1 - a < max_buckets map ∧ is_Some (mjoin (buckets map !! Z.to_nat (-1 - a))) ↔ is_Some (type_of map a)) as Hiff.
  { unfold type_of. case_bool_decide as Hd; [split; [by eexists|by left]|]. rewrite fmap_is_Some. split.
    - intros [|[Hr [b Hb]]]; [done|]. exists b. unfold bucket_of. by rewrite bool_decide_true by lia.
    - intros [b Hb]. destruct (bucket_number map rank Hmap _ _ Hb) as (Hneg & Hr & _). right. split; [done|]. exists b.
      unfold bucket_of in Hb. by rewrite bool_decide_true in Hb by done. }
  case_bool_decide as Hcase.
  - destruct (prefix_store (s_w s) [] a) as [Hstore Hpre]; [done|cbn; lia|]. change (Z.of_nat (length (@nil Z))) with 0 in Hstore. rewrite Hstore. cbn [mbind outcome_bind].
    eexists _, [a]. split; [reflexivity|]. split_and!; [|done|done|done]. constructor; cbn; try done; [by rewrite length_insert| |by destruct Ht].
    apply Forall_singleton. right. by apply Hiff.
  - exists s, vals. split_and!; [done|done| |done|done]. intros Hty. exfalso. apply Hcase. by apply Hiff.
Qed.

Lemma emit_step_spec s vals :
  state_ok s vals → ∃ s', emit_step result_max s = Ret s' ∧ state_ok s' []
    ∧ s_result s' = s_result s ++ take (Z.to_nat (result_max - Z.of_nat (length (s_result s)))) vals.
Proof.
  intros Hst. pose proof Hst as [Hw Ho Hc Hp Hsz Hk [Hres Hkr] Ht]. unfold emit_step. rewrite Hsz.
  set (room := result_max - Z.of_nat (length (s_result s))) in *. set (n := Z.min (Z.of_nat (length vals)) room).
  match goal with |- context [foldM ?f _ _] => set (body := f) end.
  destruct (foldM_inv body (λ l r, r = s_result s ++ take (length l) vals) (seqZ 0 n) (s_result s)) as (r & -> & ->).
  - by rewrite app_nil_r.
  - intros l1 i l2 r Hl ->. assert (i = Z.of_nat (length l1) ∧ i < n) as [-> Hi].
    { assert (seqZ 0 n !! length l1 = Some i) as Hs by (rewrite Hl; by apply list_lookup_middle). apply lookup_seqZ in Hs. lia. }
    destruct (lookup_lt_is_Some_2 vals (length l1)) as [v Hv]; [lia|]. eexists. split.
    + unfold body. rewrite (value_at_ok _ _ v) by (lia || (rewrite Nat2Z.id; by eapply prefix_lookup)). reflexivity.
    + rewrite length_app. cbn [length]. rewrite Nat.add_1_r, (take_S_r _ _ v) by done. by rewrite app_assoc.
  - cbn [mbind outcome_bind]. assert (take (length (seqZ 0 n)) vals = take (Z.to_nat room) vals) as E.
    { rewrite length_seqZ. unfold n. destruct (decide (Z.of_nat (length vals) ≤ room)); [|by rewrite Z.min_r by lia].
      rewrite Z.min_l by lia. by rewrite !take_ge by lia. }
    rewrite E. eexists. split; [reflexivity|]. split; [|done]. constructor; cbn; try done; [|by destruct Ht].
    split; [rewrite length_app, length_take; lia|]. apply Forall_app. split; [done|by apply Forall_take].
Qed.

Lemma set_tunables_ok s vals tries leaf_tries local fallback vary_r stable :
  state_ok s vals → 0 < tries ≤ SMALL → 0 ≤ leaf_tries ≤ SMALL → 0 ≤ local ≤ SMALL → 0 ≤ fallback ≤ SMALL → 0 ≤ vary_r ≤ 32 →
  0 ≤ stable < 2 ^ 31 → state_ok (set_tunables s tries leaf_tries local fallback vary_r stable) vals.
Proof. intros [] ??????. by constructor. Qed.

Definition sets (step : crush_rule_step) : Prop :=
  op step ∈ [CRUSH_RULE_SET_CHOOSE_TRIES; CRUSH_RULE_SET_CHOOSELEAF_TRIES; CRUSH_RULE_SET_CHOOSE_LOCAL_TRIES;
    CRUSH_RULE_SET_CHOOSE_LOCAL_FALLBACK_TRIES; CRUSH_RULE_SET_CHOOSELEAF_VARY_R; CRUSH_RULE_SET_CHOOSELEAF_STABLE].

(** A step that sets a tunable touches nothing else. *)
Lemma set_step_spec s vals step :
  state_ok s vals → step_ok step → sets step →
  ∃ s', runs_fuel map (λ _ F, do_step map wgt x choose_args F result_max s step) s' ∧ state_ok s' vals ∧ s_result s' = s_result s.
Proof.
  intros Hst Hs Hset. destruct s as [w wsize o c result tries leaf_tries local fallback vary_r stable].
  pose proof (st_tunables _ _ Hst) as [? ? ? ? ? ?]. destruct Hs as [Hsm Hv]. pose proof small. cbn in *.
  unfold sets in Hset. repeat (apply elem_of_cons in Hset as [Hset|Hset]); [..|by apply elem_of_nil in Hset];
    unfold do_step; rewrite Hset; repeat (first [rewrite bool_decide_false by done|rewrite bool_decide_true by done]);
    eexists; (split; [apply runs_fuel_const, runs_ret|]); case_bool_decide; (split; [|done]);
    first [exact Hst|apply set_tunables_ok; by auto with lia].
Qed.

Lemma do_step_spec s vals step :
  state_ok s vals → step_ok step →
  ∃ s' vals', runs_fuel map (λ _ F, do_step map wgt x choose_args F result_max s step) s' ∧ state_ok s' vals'.
Proof.
  intros Hst Hs. destruct (decide (sets step)) as [Hset|Hset].
  { destruct (set_step_spec s vals step Hst Hs Hset) as (s' & Hr & Hst' & _). by exists s', vals. }
  destruct (take_step_spec s vals (arg1 step) Hst) as (s1 & vals1 & Htake & Hst1 & _).
  destruct (emit_step_spec s vals Hst) as (s2 & Hemit & Hst2 & _).
  pose proof (choose_step_spec s vals step) as Hch.
  unfold do_step. destruct s. unfold sets in Hset. cbn [op] in *. rewrite !not_elem_of_cons in Hset.
  destruct Hset as (? & ? & ? & ? & ? & ? & _). rewrite Htake, Hemit. clear Htake Hemit.
  case_bool_decide; [eexists _, _; split; [apply runs_fuel_const, runs_lift; reflexivity|done]|].
  do 6 rewrite bool_decide_false by done.
  repeat (case_bool_decide; [first [ eexists _, _; split; [apply runs_fuel_const, runs_lift; reflexivity|done]
    | edestruct Hch as (s' & new & newl & Hr & Hst' & _); [exact Hst|exact Hs|exists s'; eexists; split; [exact Hr|exact Hst']] ]|]).
  eexists _, _. split; [apply runs_fuel_const, runs_ret|done].
Qed.

(** ** Sequences of steps *)

(** Steps done one after the other, whatever the working store holds. *)
Inductive chain : rule_state → list crush_rule_step → rule_state → Prop :=
  | chain_nil s : chain s [] s
  | chain_cons s1 step s2 steps s3 :
      runs_fuel map (λ _ F, do_step map wgt x choose_args F result_max s1 step) s2 → chain s2 steps s3 → chain s1 (step :: steps) s3.

Lemma chain_app s1 l1 s2 l2 s3 : chain s1 l1 s2 → chain s2 l2 s3 → chain s1 (l1 ++ l2) s3.
Proof. induction 1; [done|]. intros Hc. econstructor; [done|]. auto. Qed.

Lemma chain_one s step s' : runs_fuel map (λ _ F, do_step map wgt x choose_args F result_max s step) s' → chain s [step] s'.
Proof. intros Hr. econstructor; [exact Hr|constructor]. Qed.

Lemma chain_runs all steps s s' (i : nat) :
  chain s steps s' → drop i all = steps →
  runs_fuel map (λ _ F, foldC (λ s j, step ← lift (value_at (Some <$> all) j); do_step map wgt x choose_args F result_max s step) s
    (seqZ (Z.of_nat i) (Z.of_nat (length steps)))) s'.
Proof.
  intros Hc. revert i. induction Hc as [s|s1 step s2 steps s3 Hr _ IH]; intros i Hd.
  { exists 0%nat. intros f F _ _. apply runs_ret. }
  cbn [length]. rewrite seqZ_cons by lia. replace (Z.succ (Z.of_nat i)) with (Z.of_nat (S i)) by lia.
  replace (Z.pred (Z.of_nat (S (length steps)))) with (Z.of_nat (length steps)) by lia. cbn [foldC].
  assert (all !! i = Some step) as Hi by (rewrite <-(Nat.add_0_r i), <-lookup_drop, Hd; done).
  apply (runs_fuel_bind map (λ _ F, step ← lift (value_at (Some <$> all) (Z.of_nat i)); do_step map wgt x choose_args F result_max s1 step) _ s2).
  - apply (runs_fuel_lift map (value_at (Some <$> all) (Z.of_nat i)) (λ _ F step, do_step map wgt x choose_args F result_max s1 step) step); [|exact Hr].
    apply value_at_ok; [lia|]. by rewrite Nat2Z.id, list_lookup_fmap, Hi.
  - apply IH. rewrite <-Nat.add_1_r, <-drop_drop, Hd. done.
Qed.

Lemma chain_total steps s vals :
  state_ok s vals → Forall step_ok steps → ∃ s' vals', chain s steps s' ∧ state_ok s' vals'.
Proof.
  revert s vals. induction steps as [|step steps IH]; intros s vals Hst Hall; [exists s, vals; split; [constructor|done]|].
  apply Forall_cons in Hall as [Hs Hall]. destruct (do_step_spec s vals step Hst Hs) as (s1 & vals1 & Hr & Hst1).
  destruct (IH s1 vals1 Hst1 Hall) as (s2 & vals2 & Hc & Hst2). exists s2, vals2. split; [by econstructor|done].
Qed.

Lemma chain_sets steps s vals :
  state_ok s vals → Forall step_ok steps → Forall sets steps →
  ∃ s', chain s steps s' ∧ state_ok s' vals ∧ s_result s' = s_result s.
Proof.
  intros Hst Hok Hsets. revert s Hst. induction Hsets as [|step steps Hs _ IH]; intros s Hst; [exists s; split; [constructor|done]|].
  apply Forall_cons in Hok as [Hso Hok]. destruct (set_step_spec s vals step Hst Hso Hs) as (s1 & Hr & Hst1 & E1).
  destruct (IH Hok s1 Hst1) as (s2 & Hc & Hst2 & E2). exists s2. split; [by econstructor|]. split; [done|]. by rewrite E2.
Qed.

Lemma initial_state_ok : state_ok (initial_state map result_max) [].
Proof.
  pose proof Htun as [? ? ? ? ?]. pose proof small. constructor; cbn; rewrite ?length_replicate; try done; try lia.
  - split; [lia|done].
  - constructor; cbn; rewrite ?s32_small by lia; lia.
Qed.

(** The rule of a number, with the steps that it has. *)
Definition rule_at (ruleno : Z) (steps : list crush_rule_step) : Prop :=
  0 ≤ ruleno < 2 ^ 32 ∧ ∃ rule, map_rules map !! Z.to_nat ruleno = Some (Some rule) ∧ rule_steps rule = Some <$> steps
    ∧ rule_len rule = Z.of_nat (length steps).

Lemma do_rule_chain ruleno steps s :
  rule_at ruleno steps → chain (initial_state map result_max) steps s →
  runs_fuel map (λ _ F, crush_do_rule map wgt x choose_args F result_max ruleno) (s_result s).
Proof.
  intros (Hr & rule & Hl & Hs & Hn) Hc. unfold crush_do_rule. pose proof (lookup_lt_Some _ _ _ Hl). rewrite u32_small by done.
  rewrite bool_decide_false by (unfold max_rules; lia).
  eapply runs_fuel_lift; [apply at_index_ok; [lia|exact Hl]|]. cbn beta. eapply runs_fuel_lift; [reflexivity|]. cbn beta.
  rewrite Hs, Hn. eapply runs_fuel_bind; [by apply (chain_runs steps steps _ s 0%nat)|]. apply runs_fuel_const, runs_ret.
Qed.

Lemma do_rule_spec ruleno steps :
  rule_at ruleno steps → Forall step_ok steps →
  ∃ result, runs_fuel map (λ _ F, crush_do_rule map wgt x choose_args F result_max ruleno) result
    ∧ Z.of_nat (length result) ≤ result_max ∧ Forall known result.
Proof.
  intros Hat Hok. destruct (chain_total steps _ _ initial_state_ok Hok) as (s & vals & Hc & Hst). exists (s_result s).
  split; [by eapply do_rule_chain|]. apply (st_result _ _ Hst).
Qed.

(** The operation of a choose step. *)
Definition choose_op (firstn leaf : bool) : Z :=
  if firstn then if leaf then CRUSH_RULE_CHOOSELEAF_FIRSTN else CRUSH_RULE_CHOOSE_FIRSTN
  else if leaf then CRUSH_RULE_CHOOSELEAF_INDEP else CRUSH_RULE_CHOOSE_INDEP.

(** What a sequence of choose steps makes of a list of values. *)
Inductive selection : list crush_rule_step → list Z → list Z → Prop :=
  | selection_nil vals : selection [] vals vals
  | selection_cons step steps firstn leaf vals new newl out :
      op step = choose_op firstn leaf → all_added step firstn leaf vals result_max new newl →
      selection steps (if leaf then newl else new) out → selection (step :: steps) vals out.

Lemma chain_selection steps s vals :
  state_ok s vals → Forall step_ok steps → Forall is_choose steps →
  ∃ s' vals', chain s steps s' ∧ state_ok s' vals' ∧ s_result s' = s_result s ∧ selection steps vals vals'.
Proof.
  intros Hst Hok Hch. revert s vals Hst. induction Hch as [|step steps Hc _ IH]; intros s vals Hst.
  { exists s, vals. split_and!; [constructor|done|done|constructor]. }
  apply Forall_cons in Hok as [Hs Hok]. assert (∃ firstn leaf, op step = choose_op firstn leaf) as (firstn & leaf & Hop).
  { unfold is_choose in Hc. repeat (apply elem_of_cons in Hc as [Hc|Hc]); [by exists true, true|by exists true, false|by exists false, true|by exists false, false|].
    by apply elem_of_nil in Hc. }
  destruct (choose_step_spec s vals step firstn leaf Hst Hs) as (s1 & new & newl & Hr & Hst1 & Hadd & E1).
  destruct (IH Hok s1 _ Hst1) as (s2 & vals2 & Hc2 & Hst2 & E2 & Hsel). exists s2, vals2. split_and!; [|done|by rewrite E2|by econstructor].
  econstructor; [|exact Hc2]. unfold do_step. destruct s. rewrite Hop. clear - Hr.
  destruct firstn, leaf; unfold choose_op; repeat (first [rewrite bool_decide_false by done|rewrite bool_decide_true by done]); exact Hr.
Qed.

(** A rule that takes an item, chooses below it and emits. *)
Lemma simple_rule_spec ruleno sets' root steps :
  rule_at ruleno (sets' ++ [mkStep CRUSH_RULE_TAKE root 0] ++ steps ++ [mkStep CRUSH_RULE_EMIT 0 0]) →
  Forall step_ok sets' → Forall sets sets' → Forall step_ok steps → Forall is_choose steps → is_Some (type_of map root) →
  ∃ out, runs_fuel map (λ _ F, crush_do_rule map wgt x choose_args F result_max ruleno) (take (Z.to_nat result_max) out)
    ∧ selection steps [root] out.
Proof.
  intros Hat Hok1 Hsets Hok2 Hch Hty.
  destruct (chain_sets sets' _ _ initial_state_ok Hok1 Hsets) as (s1 & Hc1 & Hst1 & E1).
  destruct (take_step_spec s1 [] root Hst1) as (s2 & vals2 & H2 & Hst2 & Hv & E2 & _). rewrite (Hv Hty) in Hst2. clear Hv.
  destruct (chain_selection steps s2 [root] Hst2 Hok2 Hch) as (s3 & out & H3 & Hst3 & E3 & Hsel).
  destruct (emit_step_spec s3 _ Hst3) as (s4 & H4 & _ & E4). rewrite E3, E2, E1 in E4. cbn in E4. rewrite Z.sub_0_r in E4.
  exists out. split; [|done]. rewrite <-E4. eapply do_rule_chain; [exact Hat|].
  eapply chain_app; [exact Hc1|]. eapply chain_app; [eapply chain_one|eapply chain_app; [exact H3|eapply chain_one]].
  - unfold do_step. destruct s1. rewrite bool_decide_true by done. cbn [arg1]. rewrite H2. apply runs_fuel_const, runs_lift. reflexivity.
  - unfold do_step. destruct s3. cbn [op]. repeat (first [rewrite bool_decide_false by done|rewrite bool_decide_true by done]).
    rewrite H4. apply runs_fuel_const, runs_lift. reflexivity.
Qed.

End rule.

(** A new working store is sound. *)
Lemma init_workspace_ok map rank : map_ok map rank → work_ok map (crush_init_workspace map).
Proof.
  intros Hmap item b Hb. unfold bucket_of in Hb. case_bool_decide; [|done]. unfold crush_init_workspace.
  rewrite list_lookup_fmap. destruct (buckets map !! Z.to_nat (-1 - item)) as [[b'|]|]; [|done..]. cbn in Hb. injection Hb as ->.
  eexists. split; [reflexivity|]. split; [cbn; by rewrite length_replicate|by left].
Qed.
