(* ===== verification/CrushCorrect.v ===== *)
(** * What CRUSH promises

    Theorems on src/src/crush/mapper.c: the choices of the buckets, the end of
    every rule, and where the rules of replicated and of erasure-coded pools
    put their devices. *)

From S2P Require Import Prelude CrushRules CrushTables CrushHash CrushMap CrushMapper CrushPerm CrushLn CrushBuckets CrushPlacement CrushIndep CrushRule.

Import Crush Mapper.

(** ** Buckets *)

Lemma by_index (l : list Z) : (λ i, default 0 (l !! Z.to_nat i)) <$> seqZ 0 (Z.of_nat (length l)) = l.
Proof.
  apply list_eq. intros i. rewrite list_lookup_fmap. destruct (decide (i < length l)%nat) as [Hi|Hi].
  - rewrite lookup_seqZ_lt, Z.add_0_l by lia. cbn [fmap option_fmap option_map]. rewrite Nat2Z.id. by destruct (lookup_lt_is_Some_2 l i Hi) as [v ->].
  - by rewrite lookup_seqZ_ge, lookup_ge_None_2 by lia.
Qed.

Lemma perm_items b x : 0 < size b < 0xffff → perm_item b x <$> seqZ 0 (size b) ≡ₚ items b.
Proof.
  intros Hs. transitivity ((λ i, default 0 (items b !! Z.to_nat i)) <$> bucket_perm b x).
  - rewrite <-(by_index (bucket_perm b x)) at 1. unfold bucket_perm at 2. rewrite length_perm_upto, <-list_fmap_compose by done.
    erewrite list_fmap_ext; [done|]. intros i r Hr%lookup_seqZ. unfold perm_item, perm_at. cbn. rewrite u32_small, Z.mod_small by lia. done.
  - rewrite (perm_upto_perm b x (size b) : bucket_perm b x ≡ₚ seqZ 0 (size b)). by rewrite by_index.
Qed.

(** C21. [bucket_perm_choose] keeps a permutation in the working store that it
    builds a bit at a time, and takes a short cut for the first element. None
    of this shows: for every input there is an order of the items of the
    bucket such that the choice for replica [r] is the item at place [r]
    modulo the size, whatever earlier calls left in the store. *)
Theorem perm_choose_order b x :
  0 < size b < 0xffff →
  ∃ order, order ≡ₚ items b ∧ ∀ wb r, work_bucket_ok b wb →
    ∃ item wb', order !! Z.to_nat (u32 r mod size b) = Some item
      ∧ bucket_perm_choose b wb x r = Ret (item, wb') ∧ work_bucket_ok b wb'.
Proof.
  intros Hs. exists (perm_item b x <$> seqZ 0 (size b)). split; [by apply perm_items|]. intros wb r Hwb.
  destruct (bucket_perm_choose_spec b Hs wb x r Hwb) as (wb' & Hc & Hwb'). pose proof (Z.mod_pos_bound (u32 r) (size b)) as Hr.
  exists (perm_item b x r), wb'. split; [|done]. rewrite list_lookup_fmap, lookup_seqZ_lt, Z.add_0_l by lia.
  cbn [fmap option_fmap option_map]. f_equal. unfold perm_item. rewrite Z2Nat.id by lia. rewrite (u32_small (_ mod _)) by lia. by rewrite Z.mod_mod by lia.
Qed.

Definition small_bucket : crush_bucket := mkBucket (-1) 1 0 0x30000 [4; 7; 9] (CRUSH_BUCKET_UNIFORM 0x10000).

Lemma perm_choose_order_witness : ∃ order, order ≡ₚ items small_bucket ∧ ∀ wb r, work_bucket_ok small_bucket wb →
  ∃ item wb', order !! Z.to_nat (u32 r mod size small_bucket) = Some item
    ∧ bucket_perm_choose small_bucket wb 5 r = Ret (item, wb') ∧ work_bucket_ok small_bucket wb'.
Proof. apply (perm_choose_order small_bucket 5). by vm_compute. Defined.

(** *** straw2 *)

Definition draw_of (b : crush_bucket) (iw : list Z) (x r i : Z) : Z :=
  straw2_value b x r (default 0 (iw !! Z.to_nat i)) (default 0 (items b !! Z.to_nat i)).

Lemma straw2_choice b iw x r p :
  (0 < length (items b))%nat → length iw = length (items b) →
  ∃ h item, first_highest (size b) (draw_of b iw x r) h ∧ items b !! Z.to_nat h = Some item
    ∧ bucket_straw2_choose b iw x r None p = Ret item.
Proof.
  intros Hpos Hiw. unfold bucket_straw2_choose. cbn [get_choose_arg_weights get_choose_arg_ids mbind outcome_bind].
  destruct (highest_spec (size b) (straw2_draw b iw (items b) x r) (draw_of b iw x r)) as (h & -> & Hf); [unfold size; lia| |].
  { intros i Hi. by apply straw2_draw_spec. }
  destruct (at_index_lt (items b) h) as (item & Hi & Ha); [apply Hf|]. exists h, item. cbn [mbind outcome_bind]. done.
Qed.

Lemma straw2_value_mono b x r id w w' : 0 ≤ w ≤ w' → straw2_value b x r w id ≤ straw2_value b x r w' id.
Proof.
  intros [Hw Hle]. unfold straw2_value. destruct (crush_ln_total (Z.land (crush_hash32_3 (hash b) x id r) 0xffff)) as (v & -> & Hv); [apply land_ffff|].
  assert (∀ u, 0 < u → (v - 2 ^ 48) `quot` u = - ((2 ^ 48 - v) / u)) as Hq.
  { intros u Hu. replace (v - 2 ^ 48) with (- (2 ^ 48 - v)) by lia. rewrite Z.quot_opp_l by lia. by rewrite Z.quot_div_nonneg by lia. }
  assert (∀ u, 0 < u → (2 ^ 48 - v) / u ≤ 2 ^ 48) as Hb by (intros u Hu; apply Z.div_le_upper_bound; nia).
  unfold S64_MIN. repeat case_bool_decide; [|lia| |lia].
  - rewrite !Hq by lia. pose proof (Z.div_le_compat_l (2 ^ 48 - v) w w'). lia.
  - rewrite Hq by lia. specialize (Hb w' ltac:(lia)). lia.
Qed.

(** When the draws go up at one place only, the choice stays or moves there. *)
Lemma first_highest_moves n d d' k h h' :
  (∀ i, i ≠ k → d' i = d i) → d k ≤ d' k → first_highest n d h → first_highest n d' h' → h' = h ∨ h' = k.
Proof.
  intros Hd Hk Hh (Hr & Hm & Hf). destruct (decide (h' = k)) as [->|Hne]; [by right|]. left.
  assert (∀ i, d i ≤ d' i) as Hle by (intros i; destruct (decide (i = k)) as [->|]; [done|by rewrite Hd]).
  apply (first_highest_unique n d); [|done]. rewrite (Hd h') in Hm, Hf by done.
  split_and!; [lia|lia|..]; intros i Hi; specialize (Hle i); [specialize (Hm i Hi)|specialize (Hf i Hi)]; lia.
Qed.

(** A place that is added at the end takes the choice, or it stays. *)
Lemma first_highest_grows n d d' h h' :
  (∀ i, 0 ≤ i < n → d' i = d i) → first_highest n d h → first_highest (n + 1) d' h' → h' = h ∨ h' = n.
Proof.
  intros Hd Hh (Hr & Hm & Hf). destruct (decide (h' = n)) as [->|Hne]; [by right|]. left. apply (first_highest_unique n d); [|done].
  rewrite (Hd h') in Hm, Hf by lia. split_and!; [lia|lia|..]; intros i Hi; rewrite <-Hd by lia; [apply Hm; lia|by apply Hf].
Qed.

(** C22. Straw2 buckets move as little as they can. When the weight of one item
    goes up, an input keeps its item or moves to that one; and when an item
    is added at the end, an input keeps its item or moves to the new one.
    (Read from the new bucket to the old one, this is what happens when a
    weight goes down and when the last item is removed.) *)
Theorem straw2_minimal_movement b iw x r p k w w' new nw :
  (0 < length (items b))%nat → length iw = length (items b) →
  iw !! k = Some w → 0 ≤ w ≤ w' →
  let larger := mkBucket (id b) (type b) (hash b) (weight b) (items b ++ [new]) (alg b) in
  ∃ old up add, bucket_straw2_choose b iw x r None p = Ret old
    ∧ bucket_straw2_choose b (<[k := w']> iw) x r None p = Ret up ∧ (up = old ∨ items b !! k = Some up)
    ∧ bucket_straw2_choose larger (iw ++ [nw]) x r None p = Ret add ∧ (add = old ∨ add = new).
Proof.
  intros Hpos Hiw Hk Hw larger. pose proof (lookup_lt_Some _ _ _ Hk) as Hlt.
  destruct (straw2_choice b iw x r p) as (h & old & Hh & Hold & ->); [done|done|].
  destruct (straw2_choice b (<[k := w']> iw) x r p) as (h1 & up & Hh1 & Hup & ->); [done|by rewrite length_insert|].
  destruct (straw2_choice larger (iw ++ [nw]) x r p) as (h2 & add & Hh2 & Hadd & ->); [cbn; rewrite length_app; lia|cbn; rewrite !length_app; cbn; lia|].
  exists old, up, add. split_and!; [done|done| |done|].
  - assert (h1 = h ∨ h1 = Z.of_nat k) as [->| ->]; [|left; congruence|right; by rewrite Nat2Z.id in Hup].
    destruct Hh as (Hr & Hm & Hf), Hh1 as (Hr1 & Hm1 & Hf1).
    set (d' := λ i, if bool_decide (0 ≤ i) then draw_of b (<[k:=w']> iw) x r i else draw_of b iw x r i).
    assert (∀ i, 0 ≤ i → d' i = draw_of b (<[k:=w']> iw) x r i) as Hd' by (intros i Hi; unfold d'; by rewrite bool_decide_true).
    apply (first_highest_moves (size b) (draw_of b iw x r) d' (Z.of_nat k)).
    + intros i Hi. unfold d'. case_bool_decide; [|done]. unfold draw_of. rewrite list_lookup_insert_ne by lia. done.
    + rewrite Hd' by lia. unfold draw_of. rewrite !Nat2Z.id, Hk, list_lookup_insert_eq by done. by apply straw2_value_mono.
    + done.
    + split_and!; [lia|lia|..]; intros i Hi; rewrite !Hd' by lia; [apply Hm1; lia|apply Hf1; lia].
  - assert (size larger = size b + 1) as Hsz by (unfold size; cbn; rewrite length_app; cbn; lia). rewrite Hsz in Hh2.
    destruct (first_highest_grows (size b) (draw_of b iw x r) (draw_of larger (iw ++ [nw]) x r) h h2) as [->| ->]; [|done|done|left|right].
    + intros i Hi. unfold draw_of. cbn. unfold size in Hi. by rewrite !lookup_app_l by lia.
    + destruct Hh as (Hr & _). unfold size in Hr. cbn in Hadd. rewrite lookup_app_l in Hadd by lia. congruence.
    + cbn in Hadd. unfold size in Hadd. rewrite Nat2Z.id, lookup_app_r, Nat.sub_diag in Hadd by lia. cbn in Hadd. congruence.
Qed.

Lemma straw2_minimal_movement_witness : ∃ old up add, bucket_straw2_choose small_bucket [0x10000; 0x10000; 0x20000] 1 0 None 0 = Ret old
  ∧ bucket_straw2_choose small_bucket [0x10000; 0x80000; 0x20000] 1 0 None 0 = Ret up ∧ (up = old ∨ items small_bucket !! 1%nat = Some up)
  ∧ bucket_straw2_choose (mkBucket (-1) 1 0 0x30000 [4; 7; 9; 11] (CRUSH_BUCKET_UNIFORM 0x10000)) [0x10000; 0x10000; 0x20000; 0x50000] 1 0 None 0
    = Ret add ∧ (add = old ∨ add = 11).
Proof. apply (straw2_minimal_movement small_bucket [0x10000; 0x10000; 0x20000] 1 0 0 1%nat 0x10000 0x80000 11 0x50000); [cbn; lia|done|done|lia]. Defined.

(** C23. [crush_ln] reads its tables within their bounds for every 16-bit
    argument; its value is between 0 and 2^48, and it does not go down from
    one argument to a larger one, up to 65534. At 65535, where it
    should be largest, the value is smaller again. *)
Theorem crush_ln_monotone :
  (∀ u, 0 ≤ u ≤ 0xffff → ∃ v, crush_ln u = Ret v ∧ 0 ≤ v ≤ 2 ^ 48)
  ∧ (∀ u u' v v', 0 ≤ u ≤ u' → u' < 0xffff → crush_ln u = Ret v → crush_ln u' = Ret v' → v ≤ v')
  ∧ ∃ v v', crush_ln 0xfffe = Ret v ∧ crush_ln 0xffff = Ret v' ∧ v' < v.
Proof.
  split_and!; [exact crush_ln_total| |].
  - intros u u' v v' Hu Hu'. rewrite !crush_ln_spec by lia. intros [= <-] [= <-]. apply ln_value_mono; lia.
  - eexists _, _. split; [by vm_compute|]. split; [by vm_compute|]. by vm_compute.
Qed.

(** ** Maps *)

(** A check of the bucket with a number, and of a map. *)
Definition bucket_check (map : crush_map) (rank : Z → nat) (n : nat) : bool :=
  match mjoin (buckets map !! n) with
  | None => true
  | Some b =>
      let item := -1 - Z.of_nat n in
      bool_decide (id b = item) && bool_decide (0 < type b) && bool_decide (size b < 0xffff)
      && match alg b with
         | CRUSH_BUCKET_LIST iw sw => bool_decide (length iw = length (items b) ∧ length sw = length (items b))
         | CRUSH_BUCKET_TREE _ _ => false
         | CRUSH_BUCKET_STRAW _ straws => bool_decide (length straws = length (items b))
         | CRUSH_BUCKET_STRAW2 iw => bool_decide (length iw = length (items b))
         | CRUSH_BUCKET_UNIFORM _ | UNKNOWN_ALG _ => true
         end
      && forallb (λ i, bool_decide (0 ≤ i < max_devices map)
           || bool_decide (i < 0 ∧ (rank i < rank item)%nat) && bool_decide (is_Some (mjoin (buckets map !! Z.to_nat (-1 - i))))) (items b)
  end.

Definition map_check (map : crush_map) (rank : Z → nat) : bool :=
  forallb (bucket_check map rank) (seq 0 (length (buckets map)))
  && bool_decide (0 ≤ max_devices map ≤ CRUSH_ITEM_UNDEF) && bool_decide (max_buckets map < 2 ^ 31).

Lemma bucket_of_nth map item b :
  bucket_of map item = Some b → ∃ n : nat, item = -1 - Z.of_nat n ∧ (n < length (buckets map))%nat ∧ mjoin (buckets map !! n) = Some b.
Proof.
  unfold bucket_of. case_bool_decide; [|done]. intros Hb. exists (Z.to_nat (-1 - item)). split_and!; [lia| |done].
  destruct (buckets map !! Z.to_nat (-1 - item)) eqn:E; [by eapply lookup_lt_Some|done].
Qed.

Lemma map_check_ok map rank : map_check map rank = true → map_ok map rank.
Proof.
  unfold map_check. rewrite !andb_true_iff, !bool_decide_eq_true, forallb_forall. intros ((Hall & Hd) & Hm).
  assert (∀ item b, bucket_of map item = Some b → ∃ n : nat, item = -1 - Z.of_nat n ∧ mjoin (buckets map !! n) = Some b ∧ bucket_check map rank n = true) as Hc.
  { intros item b Hb. destruct (bucket_of_nth map item b Hb) as (n & -> & Hn & Hl). exists n. split_and!; [done|done|]. apply Hall, in_seq. lia. }
  constructor; [| |done|done].
  - intros item b Hb. destruct (Hc item b Hb) as (n & -> & Hl & Hck). unfold bucket_check in Hck. rewrite Hl in Hck.
    rewrite !andb_true_iff, !bool_decide_eq_true in Hck. destruct Hck as ((((Hid & Ht) & Hs) & Ha) & _).
    split_and!; [done|done|]. split; [done|]. intros _. unfold alg_ok. destruct (alg b); try done; by apply bool_decide_eq_true in Ha.
  - intros item b i Hb Hin. destruct (Hc item b Hb) as (n & -> & Hl & Hck). unfold bucket_check in Hck. rewrite Hl in Hck.
    rewrite !andb_true_iff, forallb_forall in Hck. destruct Hck as (_ & Hi). specialize (Hi i (proj1 (list_elem_of_In _ _) Hin)).
    rewrite orb_true_iff, andb_true_iff, !bool_decide_eq_true in Hi. destruct Hi as [Hi|[[Hneg Hr] [b' Hb']]]; [by left|right].
    exists b'. split; [|done]. unfold bucket_of. by rewrite bool_decide_true.
Qed.

(** An item is in one bucket only, and the types go down. *)
Record hierarchy (map : crush_map) : Prop := {
  one_parent p q i : child map p i → child map q i → p = q;
  types_down p i t t' : child map p i → type_of map p = Some t → type_of map i = Some t' → t' < t;
}.

Definition items_of (map : crush_map) (n : nat) : list Z := from_option items [] (mjoin (buckets map !! n)).

Definition hierarchy_check (map : crush_map) : bool :=
  forallb (λ n, forallb (λ i,
      forallb (λ m, bool_decide (n = m) || bool_decide (i ∉ items_of map m)) (seq 0 (length (buckets map)))
      && match type_of map (-1 - Z.of_nat n), type_of map i with Some t, Some t' => bool_decide (t' < t) | _, _ => true end)
    (items_of map n)) (seq 0 (length (buckets map))).

Lemma hierarchy_check_ok map : hierarchy_check map = true → hierarchy map.
Proof.
  unfold hierarchy_check. rewrite forallb_forall. intros Hall.
  assert (∀ p i, child map p i → ∃ n : nat, p = -1 - Z.of_nat n ∧ (n < length (buckets map))%nat ∧ i ∈ items_of map n) as Hc.
  { intros p i (b & Hb & Hi). destruct (bucket_of_nth map p b Hb) as (n & -> & Hn & Hl). exists n. unfold items_of. by rewrite Hl. }
  assert (∀ n i, (n < length (buckets map))%nat → i ∈ items_of map n → (∀ m, (m < length (buckets map))%nat → i ∈ items_of map m → n = m)
    ∧ match type_of map (-1 - Z.of_nat n), type_of map i with Some t, Some t' => bool_decide (t' < t) | _, _ => true end = true) as Hi.
  { intros n i Hn Hin. specialize (Hall n ltac:(apply in_seq; lia)). rewrite forallb_forall in Hall.
    specialize (Hall i (proj1 (list_elem_of_In _ _) Hin)). apply andb_true_iff in Hall as [Hm Ht]. split; [|done]. rewrite forallb_forall in Hm.
    intros m Hlm Him. specialize (Hm m ltac:(apply in_seq; lia)). apply orb_true_iff in Hm as [Hm|Hm]; apply bool_decide_eq_true in Hm; done. }
  constructor.
  - intros p q i Hp Hq. destruct (Hc p i Hp) as (n & -> & Hn & Hin), (Hc q i Hq) as (m & -> & Hm & Him). by rewrite (proj1 (Hi n i Hn Hin) m Hm Him).
  - intros p i t t' Hp Ht Ht'. destruct (Hc p i Hp) as (n & -> & Hn & Hin). pose proof (proj2 (Hi n i Hn Hin)) as Hty.
    rewrite Ht, Ht' in Hty. by apply bool_decide_eq_true in Hty.
Qed.

Section hierarchy.
Context (map : crush_map) (rank : Z → nat) (Hmap : map_ok map rank) (Hier : hierarchy map).

(** Two items above one item are above one another. *)
Lemma below_comparable d e i : below map d i → below map e i → below map d e ∨ below map e d.
Proof.
  unfold below. intros Hd. revert e. revert i Hd. refine (rtc_ind_r (λ i, ∀ e, _) d _ _); [by right|].
  intros i j Hi Hij IH e He. destruct (rtc_inv_r _ _ He) as [->|(k & He' & Hk)]; [left; by eapply rtc_r|].
  rewrite (one_parent map Hier k i j Hk Hij) in He'. by apply IH.
Qed.

Lemma below_types d e t t' : below map d e → type_of map d = Some t → type_of map e = Some t' → d = e ∨ t' < t.
Proof.
  unfold below. intros Hd. revert t'. revert e Hd. refine (rtc_ind_r (λ e, ∀ t', _) d _ _); [by left|].
  intros i j Hi Hij IH t' Ht Ht'. assert (∃ ti, type_of map i = Some ti) as [ti Hti].
  { destruct Hij as (b & Hb & _). destruct (bucket_number map rank Hmap _ _ Hb) as (Hneg & _). exists (type b). unfold type_of.
    rewrite bool_decide_false by lia. by rewrite Hb. }
  pose proof (types_down map Hier i j ti t' Hij Hti Ht'). right. destruct (IH ti Ht Hti) as [->|]; [|lia]. rewrite Ht in Hti. injection Hti as ->. lia.
Qed.

(** Items of one type have nothing below them in common. *)
Lemma below_disjoint d e t i :
  type_of map d = Some t → type_of map e = Some t → below map d i → below map e i → d = e.
Proof.
  intros Hd He Hdi Hei. destruct (below_comparable d e i Hdi Hei) as [H|H].
  - destruct (below_types d e t t H Hd He); [done|lia].
  - destruct (below_types e d t t H He Hd); [done|lia].
Qed.

End hierarchy.

(** ** A small cluster

    Two racks of two hosts with two devices each, under one root; the rules
    are one for replicated pools, and one for erasure-coded ones. *)

Definition weights_of {A} (l : list A) : list Z := (λ _, 0x10000) <$> l.

Definition straw2_bucket (item ty : Z) (its : list Z) : option crush_bucket :=
  Some (mkBucket item ty 0 (0x10000 * Z.of_nat (length its)) its (CRUSH_BUCKET_STRAW2 (weights_of its))).

Definition replicated_rule : list crush_rule_step :=
  [mkStep CRUSH_RULE_TAKE (-1) 0; mkStep CRUSH_RULE_CHOOSELEAF_FIRSTN 0 1; mkStep CRUSH_RULE_EMIT 0 0].

Definition erasure_rule : list crush_rule_step :=
  [mkStep CRUSH_RULE_SET_CHOOSELEAF_TRIES 5 0; mkStep CRUSH_RULE_SET_CHOOSE_TRIES 100 0;
   mkStep CRUSH_RULE_TAKE (-1) 0; mkStep CRUSH_RULE_CHOOSELEAF_INDEP 0 1; mkStep CRUSH_RULE_EMIT 0 0].

Definition rule_of (ruleset ty : Z) (steps : list crush_rule_step) : option crush_rule :=
  Some (mkRule (Z.of_nat (length steps)) (mkMask ruleset ty 1 10) (Some <$> steps)).

Definition cluster_of (rules : list (option crush_rule)) : crush_map :=
  mkMap [straw2_bucket (-1) 3 [-2; -3]; straw2_bucket (-2) 2 [-4; -5]; straw2_bucket (-3) 2 [-6; -7];
         straw2_bucket (-4) 1 [0; 1]; straw2_bucket (-5) 1 [2; 3]; straw2_bucket (-6) 1 [4; 5];
         Some (mkBucket (-7) 1 0 0x20000 [6; 7] (CRUSH_BUCKET_UNIFORM 0x10000))]
    rules 8 0 0 50 1 1 1.

Definition cluster : crush_map := cluster_of [rule_of 0 TYPE_REPLICATED replicated_rule; rule_of 1 TYPE_ERASURE erasure_rule].

Definition cluster_rank (item : Z) : nat := if bool_decide (item = -1) then 3 else if bool_decide (-3 ≤ item) then 2 else 1.

Lemma cluster_ok rules : map_ok (cluster_of rules) cluster_rank.
Proof. apply map_check_ok. by vm_compute. Qed.

Lemma cluster_hierarchy rules : hierarchy (cluster_of rules).
Proof. apply hierarchy_check_ok. by vm_compute. Qed.

Lemma cluster_tunables rules : tunables_map_ok (cluster_of rules).
Proof. by constructor. Qed.

(** All devices are in but one. *)
Definition cluster_weights : list Z := [0x10000; 0x10000; 0; 0x10000; 0x10000; 0x8000; 0x10000; 0x10000].

(** ** Rules *)

(** A rule, run with enough fuel on any sound working store, gives a result. *)
Definition rule_gives (map : crush_map) (wgt : list Z) (x : Z) (choose_args : option (list crush_choose_arg)) (result_max ruleno : Z)
    (result : list Z) : Prop :=
  ∃ N, ∀ fuel w, (N ≤ fuel)%nat → work_ok map w →
    ∃ w', crush_do_rule map wgt x choose_args fuel result_max ruleno w = Ret (result, w') ∧ work_ok map w'.

Lemma runs_gives map wgt x choose_args result_max ruleno result :
  runs_fuel map (λ _ F, crush_do_rule map wgt x choose_args F result_max ruleno) result →
  rule_gives map wgt x choose_args result_max ruleno result.
Proof. intros [N HN]. exists N. intros fuel w Hf. by apply (HN fuel fuel). Qed.

(** The steps of a concrete rule. *)
Ltac solve_steps :=
  pose proof small; repeat (apply Forall_cons_2; [constructor; cbn; first [lia|done]|]); apply Forall_nil_2.



Lemma selection_inv map wgt x result_max step steps (firstn leaf : bool) vals out :
  op step = choose_op firstn leaf → selection map wgt x result_max (step :: steps) vals out →
  ∃ new newl, all_added map wgt x result_max step firstn leaf vals result_max new newl
    ∧ selection map wgt x result_max steps (if leaf then newl else new) out.
Proof.
  intros Hop Hsel. inversion Hsel as [|? ? firstn' leaf' ? new newl ? Hop' Hadd Hrest]; subst. rewrite Hop in Hop'.
  assert (firstn' = firstn ∧ leaf' = leaf) as [-> ->] by (destruct firstn, leaf, firstn', leaf'; done). by exists new, newl.
Qed.

Lemma all_added_one map wgt x result_max step firstn leaf root b room new newl :
  bucket_of map root = Some b → 0 < numrep_of result_max step →
  all_added map wgt x result_max step firstn leaf [root] room new newl → chosen map wgt x result_max step firstn leaf root room new newl.
Proof.
  intros Hb Hn Hadd. inversion Hadd as [|? ? ? n nl ? ? Hone Hnil]; subst. inversion Hnil; subst. rewrite !app_nil_r.
  unfold added in Hone. by rewrite bool_decide_true, Hb in Hone.
Qed.

Lemma selection_one map wgt x result_max step (firstn leaf : bool) root b out :
  op step = choose_op firstn leaf → bucket_of map root = Some b → 0 < numrep_of result_max step →
  selection map wgt x result_max [step] [root] out →
  ∃ new newl, out = (if leaf then newl else new) ∧ chosen map wgt x result_max step firstn leaf root result_max new newl.
Proof.
  intros Hop Hb Hn Hsel. destruct (selection_inv _ _ _ _ _ _ _ _ _ _ Hop Hsel) as (new & newl & Hadd & Hrest).
  exists new, newl. split; [by inversion Hrest|]. by eapply all_added_one.
Qed.

(** C10. A rule that takes a bucket, chooses leaves of a type [firstn] and
    emits, as replicated pools have: it gives at most as many devices as it
    is asked for, no two the same, none of them out at its weight, each below
    a bucket of the type of its own, and all below the bucket taken. *)
Theorem chooseleaf_firstn_places map rank wgt x choose_args result_max ruleno root b n ty :
  map_ok map rank → tunables_map_ok map → args_ok map choose_args → 0 < result_max ≤ SMALL →
  rule_at map ruleno [mkStep CRUSH_RULE_TAKE root 0; mkStep CRUSH_RULE_CHOOSELEAF_FIRSTN n ty; mkStep CRUSH_RULE_EMIT 0 0] →
  bucket_of map root = Some b → - result_max < n ≤ SMALL →
  ∃ devices domains, rule_gives map wgt x choose_args result_max ruleno devices
    ∧ Z.of_nat (length devices) ≤ Z.min (if bool_decide (n ≤ 0) then n + result_max else n) result_max
    ∧ NoDup devices ∧ Forall (λ d, 0 ≤ d < max_devices map ∧ is_out wgt d x = Ret false) devices
    ∧ NoDup domains ∧ Forall (λ d, type_of map d = Some ty ∧ below map root d) domains
    ∧ Forall2 (below map) domains devices.
Proof.
  intros Hmap Htun Hargs Hmax Hat Hb Hn. pose proof small.
  destruct (simple_rule_spec map rank Hmap Htun wgt x choose_args Hargs result_max Hmax ruleno [] root [mkStep CRUSH_RULE_CHOOSELEAF_FIRSTN n ty])
    as (out & Hr & Hsel); [done|constructor|constructor| | | |].
  { apply Forall_singleton. constructor; cbn; [lia|done]. }
  { apply Forall_singleton. unfold is_choose. cbn. by left. }
  { unfold type_of. destruct (bucket_number map rank Hmap _ _ Hb) as (Hneg & _). rewrite bool_decide_false by lia. rewrite Hb. by eexists. }
  destruct (selection_one map wgt x result_max (mkStep CRUSH_RULE_CHOOSELEAF_FIRSTN n ty) true true root b out eq_refl Hb) as (new & newl & -> & Hc); [|done|].
  { unfold numrep_of. cbn. case_bool_decide; lia. }
  destruct Hc as (Hl & Hnd & Hall & Hleaf). destruct (Hleaf eq_refl) as (Hf2 & Hndl & Hdev). cbn [arg2] in *.
  pose proof (Forall2_length _ _ _ Hf2) as Hlen. unfold numrep_of in Hl. cbn [arg1] in Hl.
  rewrite take_ge in Hr by lia. exists newl, new. split_and!; [by apply runs_gives|lia|done| |done| |done].
  - eapply Forall_impl; [exact Hdev|]. cbn. intros d [Hty Hout]. split; [|by apply Hout]. unfold type_of in Hty. case_bool_decide; [done|].
    destruct (bucket_of map d) as [b'|] eqn:Hb'; [|done]. destruct (map_bucket _ _ Hmap _ _ Hb') as (_ & Hpos & _). cbn in Hty. injection Hty as Hty. lia.
  - eapply Forall_impl; [exact Hall|]. cbn. intros d [[Hty _] Hbe]. done.
Qed.

Lemma chooseleaf_firstn_places_witness : ∃ devices domains, rule_gives cluster cluster_weights 7 None 3 0 devices
  ∧ Z.of_nat (length devices) ≤ 3
  ∧ NoDup devices ∧ Forall (λ d, 0 ≤ d < 8 ∧ is_out cluster_weights d 7 = Ret false) devices
  ∧ NoDup domains ∧ Forall (λ d, type_of cluster d = Some 1 ∧ below cluster (-1) d) domains
  ∧ Forall2 (below cluster) domains devices.
Proof.
  eapply (chooseleaf_firstn_places cluster cluster_rank cluster_weights 7 None 3 0 (-1) _ 0 1).
  - apply cluster_ok.
  - apply cluster_tunables.
  - intros args [=].
  - pose proof small. lia.
  - split; [lia|]. by eexists.
  - reflexivity.
  - pose proof small. lia.
Defined.
