(* ===== verification/CrushPools.v ===== *)
(** * Rules of erasure-coded pools at work

    The rules that [create_ruleset] of the locally repairable codes
    (src/src/erasure-code/lrc/ErasureCodeLrc.cc, and the same text in
    src/src/erasure-code/optlrc/ErasureCodeOptLrc.cc) stores in the CRUSH map,
    run by [crush_do_rule] of src/src/crush/mapper.c: where the chunks of an
    object go. *)

From S2P Require Import Prelude StrMap CrushRules Ruleset CrushTables CrushHash CrushMap CrushMapper CrushPerm CrushLn CrushBuckets CrushPlacement CrushIndep CrushRule CrushCorrect.

Import Crush Mapper.

(** No item twice, other than [CRUSH_ITEM_NONE]. *)
Definition distinct (l : list Z) : Prop := NoDup (filter (λ d, d ≠ CRUSH_ITEM_NONE) l).

Lemma distinct_pairs l :
  (∀ i j o, l !! i = Some o → l !! j = Some o → i ≠ j → o = CRUSH_ITEM_NONE) → distinct l.
Proof.
  unfold distinct. induction l as [|a l IH]; intros Hl; [constructor|]. assert (NoDup (filter (λ d, d ≠ CRUSH_ITEM_NONE) l)) as Hnd.
  { apply IH. intros i j o Hi Hj Hne. apply (Hl (S i) (S j) o Hi Hj). lia. }
  rewrite filter_cons. case_decide as Ha; [|done]. constructor; [|done]. rewrite list_elem_of_filter. intros [_ [j Hj]%list_elem_of_lookup].
  apply Ha, (Hl 0%nat (S j) a); done.
Qed.

Lemma distinct_app l k :
  distinct l → distinct k → (∀ d, d ∈ l → d ∈ k → d = CRUSH_ITEM_NONE) → distinct (l ++ k).
Proof.
  unfold distinct. intros Hl Hk Hd. rewrite filter_app. apply NoDup_app. split_and!; [done| |done].
  intros d [Hne Hdl]%list_elem_of_filter [_ Hdk]%list_elem_of_filter. by apply Hne, Hd.
Qed.

(** Devices below domains of a type that are all different. *)
Definition spread (map : crush_map) (wgt : list Z) (x root ty : Z) (domains devices : list Z) : Prop :=
  Forall2 (filled map wgt x ty true root) domains devices ∧ distinct domains ∧ distinct devices.

Section spread.
Context (map : crush_map) (rank : Z → nat) (Hmap : map_ok map rank) (Hier : hierarchy map) (wgt : list Z) (x : Z).

Lemma filled_not_none ty root o d : filled map wgt x ty true root o d → d ≠ CRUSH_ITEM_NONE → type_of map o = Some ty ∧ below map o d ∧ below map root o.
Proof. intros [[_ ->]|([Ht _] & Hr & Hl)] Hd; [done|]. destruct (Hl eq_refl) as [_ Hb]. done. Qed.

Lemma filled_spread root ty domains devices :
  Forall2 (filled map wgt x ty true root) domains devices →
  (∀ i j o, domains !! i = Some o → domains !! j = Some o → i ≠ j → o = CRUSH_ITEM_NONE) →
  spread map wgt x root ty domains devices.
Proof.
  intros Hf Hd. split_and!; [done|by apply distinct_pairs|]. apply distinct_pairs. intros i j d Hi Hj Hne.
  destruct (decide (d = CRUSH_ITEM_NONE)) as [|Hnn]; [done|]. exfalso.
  destruct (Forall2_lookup_r _ _ _ _ _ Hf Hi) as (o & Ho & Hfo), (Forall2_lookup_r _ _ _ _ _ Hf Hj) as (o' & Ho' & Hfo').
  destruct (filled_not_none _ _ _ _ Hfo Hnn) as (Ht & Hb & _), (filled_not_none _ _ _ _ Hfo' Hnn) as (Ht' & Hb' & _).
  rewrite <-(below_disjoint map rank Hmap Hier o o' ty d Ht Ht' Hb Hb') in Ho'. rewrite (Hd i j o Ho Ho' Hne) in Ht.
  unfold type_of in Ht. pose proof (map_devices _ _ Hmap) as Hdev. unfold CRUSH_ITEM_UNDEF, CRUSH_ITEM_NONE in *.
  rewrite bool_decide_false in Ht by lia. unfold bucket_of in Ht. by rewrite bool_decide_false in Ht by lia.
Qed.

Lemma spread_below root ty domains devices d :
  spread map wgt x root ty domains devices → d ∈ devices → d ≠ CRUSH_ITEM_NONE → below map root d.
Proof.
  intros (Hf & _) [i Hi]%list_elem_of_lookup Hne. destruct (Forall2_lookup_r _ _ _ _ _ Hf Hi) as (o & _ & Ho).
  destruct (filled_not_none _ _ _ _ Ho Hne) as (_ & Hod & Hro). unfold below in *. by transitivity o.
Qed.

End spread.

(** ** The rule that is stored *)

Lemma find_created_rule map l rule (rno : nat) size :
  map_rules map = <[rno := Some rule]> l → (rno < length l)%nat →
  mask_ruleset (rule_mask rule) = Z.of_nat rno →
  mask_min_size (rule_mask rule) ≤ size ≤ mask_max_size (rule_mask rule) →
  (∀ j r, (j < rno)%nat → l !! j = Some (Some r) → mask_ruleset (rule_mask r) ≠ Z.of_nat rno) →
  crush_find_rule map (Z.of_nat rno) (mask_type (rule_mask rule)) size = Z.of_nat rno.
Proof.
  intros Hm Hlt Hrs Hsz Hbefore. unfold crush_find_rule. rewrite Hm.
  match goal with |- context [list_find ?P _] => assert (list_find P (<[rno:=Some rule]> l) = Some (rno, Some rule)) as -> end; [|done].
  apply list_find_Some. split_and!; [by apply list_lookup_insert_eq|by apply bool_decide_true; lia|].
  intros j y Hj Hlt'. rewrite list_lookup_insert_ne in Hj by lia. destruct y as [r|]; [|done].
  intros [Hfit _]%bool_decide_eq_true. by apply (Hbefore j r Hlt' Hj).
Qed.

Lemma created_ruleset rs chunk_count name c root types :
  crush_wf c → (∀ i, rule_name_map c !! i ≠ Some name) →
  name_rmap (build_rmaps c) !! ruleset_root rs = Some root →
  mapM (step_type (build_rmaps c)) (ruleset_steps rs) = Some types →
  let rno := lowest_free_ruleno c in
  rno < CRUSH_MAX_RULES → ruleset_exists c rno = false → 4 + Z.of_nat (length (ruleset_steps rs)) < 2 ^ 32 →
  3 ≤ chunk_count < 256 →
  ∃ c', create_ruleset rs chunk_count name c = Ret (rno, c')
    ∧ ∀ map, map_rules map = rules c' → crush_find_rule map rno TYPE_ERASURE chunk_count = rno
      ∧ rule_at map rno ([mkStep CRUSH_RULE_SET_CHOOSELEAF_TRIES 5 0; mkStep CRUSH_RULE_SET_CHOOSE_TRIES 100 0]
          ++ [mkStep CRUSH_RULE_TAKE root 0] ++ zip_with crush_step (ruleset_steps rs) types ++ [mkStep CRUSH_RULE_EMIT 0 0]).
Proof.
  intros Hwf Hn Hroot Htypes rno Hroom Hfresh Hlen Hcc.
  pose proof (create_ruleset_cases rs chunk_count name c root) as Hcases.
  rewrite Htypes, lowest_free_build in Hcases. fold rno in Hcases.
  specialize (Hcases (rule_name_unused c name Hwf Hn) Hroot Hroom Hlen). eexists. split; [exact Hcases|].
  destruct (lowest_free_ruleno_spec c) as [Hr _]. fold rno in Hr. unfold CRUSH_MAX_RULES in *.
  pose proof (rno_in_grown (build_rmaps c)) as [_ Hin]. rewrite lowest_free_build in Hin. fold rno in Hin.
  intros map Hmr. cbn [set_rule_name with_rules rules] in Hmr. split.
  - pose proof (find_created_rule map _ _ (Z.to_nat rno) chunk_count Hmr Hin) as Hfind. rewrite Z2Nat.id in Hfind by lia.
    apply Hfind.
    + cbn. unfold u8. rewrite Z.mod_small by lia. lia.
    + cbn. unfold u8. rewrite s32_small, Z.mod_small by lia. lia.
    + intros j r Hj Hl Heq. destruct (build_rmaps_fields c) as (Hf1 & _). unfold grow in Hl. cbn in Hl. rewrite Hf1 in Hl.
      unfold get_max_rules in *. rewrite lookup_app_l in Hl by lia. apply not_true_iff_false in Hfresh. apply Hfresh, existsb_exists.
      exists (Z.of_nat j). split; [apply list_elem_of_In, elem_of_seqZ; unfold get_max_rules; lia|].
      rewrite get_rule_lookup by lia. rewrite Nat2Z.id, Hl. cbn. apply bool_decide_true. lia.
  - split; [lia|]. eexists. split; [rewrite Hmr; by apply list_lookup_insert_eq|]. cbn [ruleset_rule rule_steps rule_len]. split; [done|].
    rewrite !length_app, length_zip_with. apply length_mapM in Htypes. cbn [length]. lia.
Qed.

(** A map on which rules that take [root] can be relied on. *)
Record sound (map : crush_map) (rank : Z → nat) (choose_args : option (list crush_choose_arg)) (root : Z) : Prop := {
  sound_map : map_ok map rank;
  sound_tunables : tunables_map_ok map;
  sound_args : args_ok map choose_args;
  sound_hierarchy : hierarchy map;
  sound_root : is_Some (bucket_of map root);
}.

Lemma erasure_rule_runs map rank choose_args root wgt x ruleno size steps :
  sound map rank choose_args root → 0 < size < 256 →
  rule_at map ruleno ([mkStep CRUSH_RULE_SET_CHOOSELEAF_TRIES 5 0; mkStep CRUSH_RULE_SET_CHOOSE_TRIES 100 0]
    ++ [mkStep CRUSH_RULE_TAKE root 0] ++ steps ++ [mkStep CRUSH_RULE_EMIT 0 0]) →
  Forall step_ok steps → Forall is_choose steps →
  ∃ out, rule_gives map wgt x choose_args size ruleno (take (Z.to_nat size) out) ∧ selection map wgt x size steps [root] out.
Proof.
  intros [Hmap Htun Hargs _ [b Hb]] Hsize Hat Hok Hch. pose proof small.
  destruct (simple_rule_spec map rank Hmap Htun wgt x choose_args Hargs size ltac:(lia) ruleno
    [mkStep CRUSH_RULE_SET_CHOOSELEAF_TRIES 5 0; mkStep CRUSH_RULE_SET_CHOOSE_TRIES 100 0] root steps) as (out & Hr & Hsel); [done|..].
  - solve_steps.
  - unfold sets. repeat (apply Forall_cons_2; [cbn; by repeat constructor|]). apply Forall_nil_2.
  - done.
  - done.
  - unfold type_of. destruct (bucket_number map rank Hmap _ _ Hb) as (Hneg & _). rewrite bool_decide_false by lia. rewrite Hb. by eexists.
  - exists out. split; [by apply runs_gives|done].
Qed.

(** One step, chooseleaf over a failure domain. *)
Lemma chooseleaf_indep_places map rank choose_args root wgt x ruleno size ty :
  sound map rank choose_args root → 0 < size < 256 → 0 < ty →
  rule_at map ruleno ([mkStep CRUSH_RULE_SET_CHOOSELEAF_TRIES 5 0; mkStep CRUSH_RULE_SET_CHOOSE_TRIES 100 0]
    ++ [mkStep CRUSH_RULE_TAKE root 0] ++ [mkStep CRUSH_RULE_CHOOSELEAF_INDEP 0 ty] ++ [mkStep CRUSH_RULE_EMIT 0 0]) →
  ∃ domains devices, rule_gives map wgt x choose_args size ruleno devices
    ∧ Z.of_nat (length devices) = size ∧ spread map wgt x root ty domains devices.
Proof.
  intros Hsound Hsize Hty Hat. pose proof small.
  destruct (erasure_rule_runs map rank choose_args root wgt x _ size _ Hsound ltac:(lia) Hat) as (out & Hgives & Hsel).
  { apply Forall_singleton. constructor; cbn; [lia|done]. }
  { apply Forall_singleton. unfold is_choose. cbn. by repeat constructor. }
  destruct Hsound as [Hmap _ _ Hier [b Hb]].
  destruct (selection_one map wgt x size (mkStep CRUSH_RULE_CHOOSELEAF_INDEP 0 ty) false true root b out eq_refl Hb ltac:(change (0 < 0 + size); lia) Hsel)
    as (domains & devices & -> & Hl & Hf%slots_filled & Hd & _); [|by cbn; lia].
  pose proof (Forall2_length _ _ _ Hf) as Hlen. change (numrep_of _ _) with (0 + size) in Hl. cbn [arg2] in Hf. exists domains, devices. rewrite take_ge in Hgives by lia.
  split_and!; [done|lia|]. by eapply filled_spread.
Qed.

(** C7. A pool whose rule [create_ruleset] of a locally repairable code made
    with one step, chooseleaf over a failure domain above the devices: the
    rule is found by its ruleset, type and size, and it gives exactly one
    position per chunk. A position is [CRUSH_ITEM_NONE], or a device that is
    not out, below a failure domain of its own below the root; no device is
    given to two chunks. *)
Theorem lrc_chunks_placed rs chunk_count name c root fd ty :
  crush_wf c → (∀ i, rule_name_map c !! i ≠ Some name) →
  name_rmap (build_rmaps c) !! ruleset_root rs = Some root →
  ruleset_steps rs = [mkRulesetStep "chooseleaf" fd 0] → type_rmap (build_rmaps c) !! fd = Some ty → 0 < ty →
  let rno := lowest_free_ruleno c in
  rno < CRUSH_MAX_RULES → ruleset_exists c rno = false → 3 ≤ chunk_count < 256 →
  ∃ c', create_ruleset rs chunk_count name c = Ret (rno, c')
    ∧ ∀ map rank choose_args wgt x, map_rules map = rules c' → sound map rank choose_args root →
      crush_find_rule map rno TYPE_ERASURE chunk_count = rno
      ∧ ∃ domains devices, rule_gives map wgt x choose_args chunk_count rno devices
        ∧ Z.of_nat (length devices) = chunk_count ∧ spread map wgt x root ty domains devices.
Proof.
  intros Hwf Hn Hroot Hsteps Hty Hpos rno Hroom Hfresh Hcc.
  destruct (created_ruleset rs chunk_count name c root [ty]) as (c' & Hcreate & Hrule); try done.
  { rewrite Hsteps. cbn. unfold step_type. cbn [s_type]. rewrite Hty. cbn. by rewrite bool_decide_false by lia. }
  { rewrite Hsteps. cbn. lia. }
  exists c'. split; [done|]. intros map rank choose_args wgt x Hrules Hsound. destruct (Hrule map Hrules) as [Hfind Hat]. split; [done|].
  rewrite Hsteps in Hat. by apply (chooseleaf_indep_places map rank choose_args root wgt x _ chunk_count ty Hsound ltac:(lia) Hpos Hat).
Qed.

(** ** Two levels *)

Lemma added_group map wgt x size step loc room doms devs :
  op step = CRUSH_RULE_CHOOSELEAF_INDEP → 0 < arg1 step ≤ room → arg2 step ≠ 0 → added map wgt x size step false true loc room doms devs →
  match bucket_of map loc with
  | None => doms = [] ∧ devs = []
  | Some _ => Z.of_nat (length devs) = arg1 step ∧ length doms = length devs ∧ Forall2 (filled map wgt x (arg2 step) true loc) doms devs
      ∧ ∀ i j o, doms !! i = Some o → doms !! j = Some o → i ≠ j → o = CRUSH_ITEM_NONE
  end.
Proof.
  intros Hop Hn Ht Hadd. assert (numrep_of size step = arg1 step) as Hnr by (unfold numrep_of; by rewrite bool_decide_false by lia).
  unfold added in Hadd. rewrite Hnr, bool_decide_true in Hadd by lia. destruct (bucket_of map loc); [|done].
  destruct Hadd as (Hl & Hf%slots_filled & Hd & _); [|done]. rewrite Hnr in Hl. pose proof (Forall2_length _ _ _ Hf). split_and!; [lia|done|done|done].
Qed.

(** The group of a locality: none if there is no locality. *)
Definition group_in (map : crush_map) (wgt : list Z) (x ty n loc : Z) (group : list Z) : Prop :=
  match bucket_of map loc with
  | None => group = []
  | Some _ => Z.of_nat (length group) = n ∧ ∃ domains, spread map wgt x loc ty domains group
  end.

Lemma all_added_groups map rank wgt x size step locs room doms devs :
  map_ok map rank → hierarchy map → op step = CRUSH_RULE_CHOOSELEAF_INDEP → 0 < arg1 step → arg2 step ≠ 0 → Z.of_nat (length locs) * arg1 step ≤ room →
  all_added map wgt x size step false true locs room doms devs →
  ∃ groups, devs = concat groups ∧ Forall2 (group_in map wgt x (arg2 step) (arg1 step)) locs groups.
Proof.
  intros Hmap Hier Hop Hn Hty Hroom Hadd. induction Hadd as [|loc locs room doms devs doms' devs' Hone _ IH]; [by exists []|].
  cbn [length] in Hroom. apply (added_group map wgt x size) in Hone; [|done|nia|done].
  assert (Z.of_nat (length doms) ≤ arg1 step) as Hle.
  { destruct (bucket_of map loc); [lia|]. destruct Hone as [-> _]. cbn. lia. }
  destruct IH as (groups & -> & Hg); [nia|]. exists (devs :: groups). split; [done|]. constructor; [|done].
  unfold group_in. destruct (bucket_of map loc) as [b|]; [|by destruct Hone]. destruct Hone as (Hl & _ & Hf & Hd).
  split; [done|]. exists doms. by eapply filled_spread.
Qed.

Lemma group_below map wgt x ty n loc group d : group_in map wgt x ty n loc group → d ∈ group → d ≠ CRUSH_ITEM_NONE → below map loc d.
Proof.
  unfold group_in. destruct (bucket_of map loc); [|intros ->; by intros ?%elem_of_nil]. intros [_ [doms Hs]]. by apply (spread_below _ _ _ _ _ _ _ _ Hs).
Qed.

Lemma group_distinct map wgt x ty n loc group : group_in map wgt x ty n loc group → distinct group.
Proof. unfold group_in. destruct (bucket_of map loc); [|intros ->; constructor]. by intros [_ [doms (_ & _ & Hd)]]. Qed.

Lemma none_bucket map : bucket_of map CRUSH_ITEM_NONE = None.
Proof. done. Qed.

Lemma groups_distinct map rank wgt x ty ty1 n locs groups :
  map_ok map rank → hierarchy map → Forall (λ l, l = CRUSH_ITEM_NONE ∨ type_of map l = Some ty1) locs → distinct locs →
  Forall2 (group_in map wgt x ty n) locs groups → distinct (concat groups).
Proof.
  intros Hmap Hier Hty Hd Hg. induction Hg as [|loc group locs groups Hone Hg IH]; [constructor|].
  apply Forall_cons in Hty as [Hl Hty]. assert (distinct locs ∧ (loc ≠ CRUSH_ITEM_NONE → loc ∉ locs)) as [Hd' Hnot].
  { unfold distinct in Hd. rewrite filter_cons in Hd. case_decide as Hn; [|by split; [|intros []]].
    apply NoDup_cons in Hd as [Hnot Hd]. split; [done|]. intros _ Hin. by apply Hnot, list_elem_of_filter. }
  cbn [concat]. apply distinct_app; [by eapply group_distinct|by apply IH|]. intros d Hin Hin'.
  destruct (decide (d = CRUSH_ITEM_NONE)) as [|Hne]; [done|]. exfalso. pose proof (group_below _ _ _ _ _ _ _ _ Hone Hin Hne) as Hb.
  destruct Hl as [->|Hl]. { unfold group_in in Hone. rewrite none_bucket in Hone. rewrite Hone in Hin. by apply elem_of_nil in Hin. }
  apply list_elem_of_In, in_concat in Hin' as (g & Hgin & Hin'). apply list_elem_of_In, list_elem_of_lookup in Hgin as [i Hi]. apply list_elem_of_In in Hin'.
  destruct (Forall2_lookup_r _ _ _ _ _ Hg Hi) as (loc' & Hi' & Hone'). pose proof (group_below _ _ _ _ _ _ _ _ Hone' Hin' Hne) as Hb'.
  pose proof (proj1 (Forall_lookup _ _) Hty i loc' Hi') as [->|Hl'].
  { unfold group_in in Hone'. rewrite none_bucket in Hone'. rewrite Hone' in Hin'. by apply elem_of_nil in Hin'. }
  apply Hnot; [intros ->; by unfold type_of, bucket_of in Hl; pose proof (map_devices _ _ Hmap); unfold CRUSH_ITEM_UNDEF, CRUSH_ITEM_NONE in *;
    rewrite bool_decide_false in Hl by lia|].
  rewrite (below_disjoint map rank Hmap Hier loc loc' ty1 d Hl Hl' Hb Hb'). by eapply list_elem_of_lookup_2.
Qed.

Lemma concat_window (groups : list (list Z)) n i g :
  Forall (λ g, length g = n) groups → groups !! i = Some g → take n (drop (i * n) (concat groups)) = g.
Proof.
  intros Hall. revert i. induction Hall as [|g' groups Hl Hall IH]; intros i Hi; [done|]. destruct i as [|i]; cbn in Hi |- *.
  - injection Hi as ->. by rewrite drop_0, take_app_length' by done.
  - rewrite <-(IH i Hi). rewrite drop_app_ge by lia. do 2 f_equal. lia.
Qed.

Lemma two_levels map rank wgt x size root b n1 ty1 n2 ty2 out :
  map_ok map rank → hierarchy map → bucket_of map root = Some b → 0 < n1 → 0 < n2 → 0 < ty2 → n1 * n2 ≤ size →
  selection map wgt x size [mkStep CRUSH_RULE_CHOOSE_INDEP n1 ty1; mkStep CRUSH_RULE_CHOOSELEAF_INDEP n2 ty2] [root] out →
  ∃ localities groups, out = concat groups ∧ Z.of_nat (length localities) = n1 ∧ distinct localities
    ∧ Forall (λ l, l = CRUSH_ITEM_NONE ∨ type_of map l = Some ty1 ∧ below map root l) localities
    ∧ Forall2 (group_in map wgt x ty2 n2) localities groups.
Proof.
  intros Hmap Hier Hb Hn1 Hn2 Hty2 Hprod Hsel.
  apply (selection_inv _ _ _ _ _ _ false false) in Hsel as (locs & ls & Hadd1 & Hsel2); [|done].
  apply (selection_inv _ _ _ _ _ _ false true) in Hsel2 as (doms & devs & Hadd2 & Hrest); [|done].
  assert (numrep_of size (mkStep CRUSH_RULE_CHOOSE_INDEP n1 ty1) = n1) as Hnr by (unfold numrep_of; cbn [arg1]; by rewrite bool_decide_false by lia).
  apply (all_added_one map wgt x size _ _ _ root b) in Hadd1 as (Hl & Hf%slots_filled & Hd & _); [|done..|by rewrite Hnr].
  rewrite Hnr in Hl. assert (Z.of_nat (length locs) = n1) as Hlen by nia.
  apply (all_added_groups map rank) in Hadd2 as (groups & -> & Hg); [|done|done|done|done|cbn; lia|cbn [arg1]; lia].
  exists locs, groups. inversion Hrest; subst. split_and!; [done|done|by apply distinct_pairs| |done].
  eapply Forall2_Forall_l; [exact Hf|]. apply Forall_true. intros l o. unfold filled. cbn. intros [[-> _]|([Ht _] & Hbe & _)]; [by left|by right].
Qed.

(** C8. A pool whose rule has two steps, as for an LRC with a ruleset
    locality: choose [n1] localities, then leaves of [n2] failure domains in
    each, both of types above the devices. The positions of the result are the groups of the localities, one
    after the other: a group has [n2] positions with devices of its own
    locality, in failure domains of their own, and no device occurs twice in
    the result. When all the localities are found group [i] has the positions
    from [i * n2] on, where the code has its local group; but a locality that
    is not found has no positions at all, and the later groups move up. *)
Theorem lrc_local_groups_placed rs chunk_count name c root locality ty1 n1 fd ty2 n2 :
  crush_wf c → (∀ i, rule_name_map c !! i ≠ Some name) →
  name_rmap (build_rmaps c) !! ruleset_root rs = Some root →
  ruleset_steps rs = [mkRulesetStep "choose" locality n1; mkRulesetStep "chooseleaf" fd n2] →
  type_rmap (build_rmaps c) !! locality = Some ty1 → 0 < ty1 → type_rmap (build_rmaps c) !! fd = Some ty2 → 0 < ty2 →
  let rno := lowest_free_ruleno c in
  rno < CRUSH_MAX_RULES → ruleset_exists c rno = false → 3 ≤ chunk_count < 256 →
  0 < n1 → 0 < n2 → n1 * n2 ≤ chunk_count →
  ∃ c', create_ruleset rs chunk_count name c = Ret (rno, c')
    ∧ ∀ map rank choose_args wgt x, map_rules map = rules c' → sound map rank choose_args root →
      crush_find_rule map rno TYPE_ERASURE chunk_count = rno
      ∧ ∃ localities groups, rule_gives map wgt x choose_args chunk_count rno (concat groups)
        ∧ Z.of_nat (length localities) = n1 ∧ distinct localities ∧ distinct (concat groups)
        ∧ Forall (λ l, l = CRUSH_ITEM_NONE ∨ type_of map l = Some ty1 ∧ below map root l) localities
        ∧ Forall2 (group_in map wgt x ty2 n2) localities groups
        ∧ (CRUSH_ITEM_NONE ∉ localities → ∀ i g, groups !! i = Some g → take (Z.to_nat n2) (drop (i * Z.to_nat n2) (concat groups)) = g).
Proof.
  intros Hwf Hn Hroot Hsteps Hty1 Hp1 Hty2 Hp2 rno Hroom Hfresh Hcc Hn1 Hn2 Hprod.
  destruct (created_ruleset rs chunk_count name c root [ty1; ty2]) as (c' & Hcreate & Hrule); try done.
  { rewrite Hsteps. cbn. unfold step_type. cbn [s_type]. rewrite Hty1, Hty2. cbn. by rewrite !bool_decide_false by lia. }
  { rewrite Hsteps. cbn. lia. }
  exists c'. split; [done|]. intros map rank choose_args wgt x Hrules Hsound. destruct (Hrule map Hrules) as [Hfind Hat]. split; [done|].
  rewrite Hsteps in Hat.
  change (zip_with crush_step _ _) with [mkStep CRUSH_RULE_CHOOSE_INDEP n1 ty1; mkStep CRUSH_RULE_CHOOSELEAF_INDEP n2 ty2] in Hat.
  pose proof small. destruct (erasure_rule_runs map rank choose_args root wgt x _ chunk_count _ Hsound ltac:(lia) Hat) as (out & Hgives & Hsel).
  { apply Forall_cons_2; [constructor; cbn; [nia|done]|]. apply Forall_singleton. constructor; cbn; [nia|done]. }
  { apply Forall_cons_2; [|apply Forall_singleton]; unfold is_choose; cbn; by repeat constructor. }
  destruct Hsound as [Hmap _ _ Hier [b Hb]].
  destruct (two_levels map rank wgt x chunk_count root b n1 ty1 n2 ty2 out) as (locs & groups & -> & Hlen & Hd & Hlocs & Hg); [done..|].
  exists locs, groups. assert (Forall (λ g, (length g ≤ Z.to_nat n2)%nat) groups) as Hshort.
  { eapply Forall2_Forall_r; [exact Hg|]. apply Forall_true. intros l g. unfold group_in. destruct (bucket_of map l); [lia|intros ->; cbn; lia]. }
  assert (Z.of_nat (length (concat groups)) ≤ n1 * n2) as Hcl.
  { pose proof (Forall2_length _ _ _ Hg) as Hlg. rewrite <-Hlen, Hlg. clear -Hshort Hn2.
    induction Hshort as [|g gs Hl _ IH]; cbn [concat length]; [lia|]. rewrite length_app. nia. }
  rewrite take_ge in Hgives by lia. split_and!; [done|done|done| |done|done|].
  - eapply groups_distinct; [done|done| |done|exact Hg]. eapply Forall_impl; [exact Hlocs|]. cbn. intros l [->|[Ht _]]; [by left|by right].
  - intros Hnone i g. apply concat_window. apply Forall_lookup. intros k g' Hk. destruct (Forall2_lookup_r _ _ _ _ _ Hg Hk) as (l & Hl & Hgl).
    pose proof (proj1 (Forall_lookup _ _) Hlocs k l Hl) as [->|[Ht _]]; [exfalso; by apply Hnone, (list_elem_of_lookup_2 _ k)|].
    unfold group_in in Hgl. unfold type_of in Ht. case_bool_decide; [injection Ht as Ht; lia|]. destruct (bucket_of map l); [|done]. lia.
Qed.

(** ** Devices as failure domains *)

Lemma device_type map rank d : map_ok map rank → type_of map d = Some 0 → 0 ≤ d.
Proof.
  intros Hmap. unfold type_of. case_bool_decide; [lia|]. destruct (bucket_of map d) as [b|] eqn:Hb; [|done].
  destruct (map_bucket _ _ Hmap _ _ Hb) as (_ & Hpos & _). cbn. intros [= E]. lia.
Qed.

Lemma slot_device map rank wgt x root o d :
  map_ok map rank → slot map wgt x 0 true root o d →
  (d = CRUSH_ITEM_NONE ∨ type_of map d = Some 0 ∧ below map root d) ∧ (o = d ∨ d = CRUSH_ITEM_NONE ∨ is_out wgt d x = Ret true).
Proof.
  intros Hmap [[[-> ->]|([Ht _] & Hb & Hl)]|(-> & _ & _ & Ht & Hb & Ho)]; [by split; left| |split; [by right|by right; right]].
  destruct (Hl eq_refl) as [[Ht' _] Hod]. split; [right; split; [done|]; unfold below in *; by transitivity o|].
  left. symmetry. apply (below_device map); [by eapply device_type|done].
Qed.

(** C36. The failure domain of a locally repairable code can be the device
    itself, and then the one step of its rule is chooseleaf over type 0. The
    rule gives one position per chunk, each nothing or a device below the
    root, and no device that is in twice. But [crush_choose_indep] notes a
    device as the leaf before it asks whether the device is out, and does not
    take it back: a position may hold a device that is out, and when all are
    out, and no bucket is empty, every position does. Nothing is reported. *)
Theorem lrc_device_domain rs chunk_count name c root fd :
  crush_wf c → (∀ i, rule_name_map c !! i ≠ Some name) →
  name_rmap (build_rmaps c) !! ruleset_root rs = Some root →
  ruleset_steps rs = [mkRulesetStep "chooseleaf" fd 0] → type_rmap (build_rmaps c) !! fd = Some 0 →
  let rno := lowest_free_ruleno c in
  rno < CRUSH_MAX_RULES → ruleset_exists c rno = false → 3 ≤ chunk_count < 256 →
  ∃ c', create_ruleset rs chunk_count name c = Ret (rno, c')
    ∧ ∀ map rank choose_args wgt x, map_rules map = rules c' → sound map rank choose_args root →
      crush_find_rule map rno TYPE_ERASURE chunk_count = rno
      ∧ ∃ devices, rule_gives map wgt x choose_args chunk_count rno devices ∧ Z.of_nat (length devices) = chunk_count
        ∧ Forall (λ d, d = CRUSH_ITEM_NONE ∨ type_of map d = Some 0 ∧ below map root d) devices
        ∧ (∀ i j d, devices !! i = Some d → devices !! j = Some d → i ≠ j → d = CRUSH_ITEM_NONE ∨ is_out wgt d x = Ret true)
        ∧ (all_out map wgt x root → Forall (λ d, type_of map d = Some 0 ∧ is_out wgt d x = Ret true) devices).
Proof.
  intros Hwf Hn Hroot Hsteps Hty rno Hroom Hfresh Hcc.
  destruct (created_ruleset rs chunk_count name c root [0]) as (c' & Hcreate & Hrule); try done.
  { rewrite Hsteps. cbn. unfold step_type. cbn [s_type]. by rewrite Hty. }
  { rewrite Hsteps. cbn. lia. }
  exists c'. split; [done|]. intros map rank choose_args wgt x Hrules Hsound. destruct (Hrule map Hrules) as [Hfind Hat]. split; [done|].
  rewrite Hsteps in Hat. pose proof small.
  destruct (erasure_rule_runs map rank choose_args root wgt x _ chunk_count _ Hsound ltac:(lia) Hat) as (out & Hgives & Hsel).
  { apply Forall_singleton. constructor; cbn; [lia|done]. }
  { apply Forall_singleton. unfold is_choose. cbn. by repeat constructor. }
  destruct Hsound as [Hmap _ _ _ [b Hb]].
  destruct (selection_one map wgt x chunk_count (mkStep CRUSH_RULE_CHOOSELEAF_INDEP 0 0) false true root b out eq_refl Hb ltac:(change (0 < 0 + chunk_count); lia) Hsel)
    as (domains & devices & -> & Hl & Hf & Hd & Hall). change (numrep_of _ _) with (0 + chunk_count) in Hl. cbn [arg2] in *.
  pose proof (Forall2_length _ _ _ Hf) as Hlen. rewrite take_ge in Hgives by lia.
  assert (Forall (λ d, d = CRUSH_ITEM_NONE ∨ type_of map d = Some 0 ∧ below map root d) devices) as Hdev.
  { eapply Forall2_Forall_r; [exact Hf|]. apply Forall_true. intros o d Hs. by apply (slot_device _ _ _ _ _ _ _ Hmap Hs). }
  exists devices. split_and!; [done|lia|done| |].
  - intros i j d Hi Hj Hne. destruct (Forall2_lookup_r _ _ _ _ _ Hf Hi) as (o & Ho & Hs), (Forall2_lookup_r _ _ _ _ _ Hf Hj) as (o' & Ho' & Hs').
    destruct (slot_device _ _ _ _ _ _ _ Hmap Hs) as [_ [->|[->|]]]; [|by left|by right].
    destruct (slot_device _ _ _ _ _ _ _ Hmap Hs') as [_ [->|[->|]]]; [|by left|by right]. left. by apply (Hd i j).
  - intros Hao. specialize (Hall eq_refl eq_refl Hao). apply Forall_lookup. intros i d Hi.
    pose proof (proj1 (Forall_lookup _ _) Hall i d Hi) as Ht. split; [done|]. pose proof (proj1 (Forall_lookup _ _) Hdev i d Hi) as [->|[_ Hbe]]; [|by apply Hao].
    unfold type_of in Ht. pose proof (map_devices _ _ Hmap). unfold CRUSH_ITEM_UNDEF, CRUSH_ITEM_NONE in *. by rewrite bool_decide_false in Ht by lia.
Qed.

(** ** The small cluster *)

Definition cluster_names : CrushWrapper := {|
  rules := [];
  type_map := {[0 := "osd"; 1 := "host"; 2 := "rack"; 3 := "root"]};
  name_map := {[-1 := "default"]};
  rule_name_map := ∅;
  have_rmaps := false;
  type_rmap := ∅; name_rmap := ∅; rule_name_rmap := ∅;
|}.

Lemma cluster_names_wf : crush_wf cluster_names.
Proof. by constructor. Qed.

Lemma cluster_sound rules : sound (cluster_of rules) cluster_rank None (-1).
Proof. constructor; [apply cluster_ok|apply cluster_tunables|intros args [=]|apply cluster_hierarchy|by eexists]. Qed.

Lemma lrc_chunks_placed_witness : ∃ c', create_ruleset host_ruleset 4 "ecrule" cluster_names = Ret (0, c')
  ∧ crush_find_rule (cluster_of (rules c')) 0 TYPE_ERASURE 4 = 0
  ∧ ∃ domains devices, rule_gives (cluster_of (rules c')) cluster_weights 7 None 4 0 devices
    ∧ Z.of_nat (length devices) = 4 ∧ spread (cluster_of (rules c')) cluster_weights 7 (-1) 1 domains devices.
Proof.
  destruct (lrc_chunks_placed host_ruleset 4 "ecrule" cluster_names (-1) "host" 1) as (c' & Hc & Hall);
    [apply cluster_names_wf|done|vm_compute; reflexivity..|lia|].
  exists c'. split; [exact Hc|]. apply (Hall _ cluster_rank); [reflexivity|apply cluster_sound].
Defined.

Definition racks_ruleset : Ruleset :=
  mkRuleset "default" [mkRulesetStep "choose" "rack" 2; mkRulesetStep "chooseleaf" "host" 2].

Lemma lrc_local_groups_placed_witness : ∃ c', create_ruleset racks_ruleset 4 "ecrule" cluster_names = Ret (0, c')
  ∧ crush_find_rule (cluster_of (rules c')) 0 TYPE_ERASURE 4 = 0
  ∧ ∃ localities groups, rule_gives (cluster_of (rules c')) cluster_weights 7 None 4 0 (concat groups)
    ∧ Z.of_nat (length localities) = 2
    ∧ Forall2 (group_in (cluster_of (rules c')) cluster_weights 7 1 2) localities groups.
Proof.
  destruct (lrc_local_groups_placed racks_ruleset 4 "ecrule" cluster_names (-1) "rack" 2 2 "host" 1 2) as (c' & Hc & Hall);
    [apply cluster_names_wf|done|vm_compute; reflexivity..|lia|lia|lia|lia|].
  exists c'. split; [exact Hc|].
  destruct (Hall (cluster_of (rules c')) cluster_rank None cluster_weights 7 eq_refl (cluster_sound _)) as (Hf & locs & groups & Hg & Hl & _ & _ & _ & Hgr & _).
  split; [exact Hf|]. by exists locs, groups.
Defined.

Definition osd_ruleset : Ruleset := mkRuleset "default" [mkRulesetStep "chooseleaf" "osd" 0].

Lemma cluster_all_out rules x : all_out (cluster_of rules) (replicate 8 0) x (-1).
Proof.
  intros i _. split.
  - intros b Hb. unfold bucket_of in Hb. case_bool_decide; [|done].
    assert (Forall (λ ob : option crush_bucket, match ob with Some b => 0 < size b | None => True end) (buckets (cluster_of rules))) as Hall by (cbn; by repeat constructor).
    destruct (buckets (cluster_of rules) !! Z.to_nat (-1 - i)) as [[b'|]|] eqn:E; [|done..]. cbn in Hb. injection Hb as ->.
    apply (proj1 (Forall_lookup _ _) Hall _ _ E).
  - intros Ht%(device_type _ cluster_rank); [|apply cluster_ok]. unfold is_out. case_bool_decide as Hi; [done|].
    destruct (at_index_lt (replicate 8 0) i) as (w & Hw & ->); [lia|]. apply lookup_replicate in Hw as [-> _]. done.
Qed.

Lemma lrc_device_domain_witness : ∃ c', create_ruleset osd_ruleset 4 "ecrule" cluster_names = Ret (0, c')
  ∧ ∃ devices, rule_gives (cluster_of (rules c')) (replicate 8 0) 7 None 4 0 devices
    ∧ Z.of_nat (length devices) = 4 ∧ Forall (λ d, type_of (cluster_of (rules c')) d = Some 0 ∧ is_out (replicate 8 0) d 7 = Ret true) devices.
Proof.
  destruct (lrc_device_domain osd_ruleset 4 "ecrule" cluster_names (-1) "osd") as (c' & Hc & Hall);
    [apply cluster_names_wf|done|vm_compute; reflexivity..|lia|].
  exists c'. split; [exact Hc|].
  destruct (Hall (cluster_of (rules c')) cluster_rank None (replicate 8 0) 7 eq_refl (cluster_sound _)) as (_ & devices & Hg & Hl & _ & _ & Ho).
  exists devices. split; [exact Hg|]. split; [exact Hl|]. apply Ho, cluster_all_out.
Defined.
