(* ===== verification/CrushBuilder.v ===== *)
(** * Building CRUSH maps

    src/src/crush/builder.c: buckets of the five algorithms are made, get
    items, lose items and change weights; buckets are put into a map. And the
    search by which CrushWrapper::insert_item avoids loops. An array
    that is allocated with [malloc] and filled is the list of its elements;
    allocation succeeds. A function that changes a bucket returns the new
    one beside its result. *)

From S2P Require Import Prelude CrushRules CrushTables CrushHash CrushMap CrushMapper.

Import Crush Mapper.

Module Builder.

Definition u16 (x : Z) : Z := x mod 2 ^ 16.
Definition ERANGE : Z := 34.

(** ** Safe arithmetic *)

Definition crush_addition_is_unsafe (a b : Z) : bool := bool_decide (u32 (0xffffffff - b) < a).

Definition crush_multiplication_is_unsafe (a b : Z) : bool :=
  if bool_decide (a = 0) then false
  else if bool_decide (b = 0) then true
  else bool_decide (0xffffffff / b < a).

(** ** Nodes of a tree *)

Definition crush_calc_tree_node (i : Z) : Z := Z.shiftl (i + 1) 1 - 1.

Definition on_right (n h : Z) : bool := bool_decide (Z.land n (Z.shiftl 1 (h + 1)) ≠ 0).

Definition parent (n : Z) : outcome Z :=
  h ← height n;
  Ret (if on_right n h then n - Z.shiftl 1 h else n + Z.shiftl 1 h).

(** The loop halves a number below 2^31. *)
Fixpoint depth_loop (fuel : nat) (t depth : Z) : outcome Z :=
  match fuel with
  | O => Abort OutOfFuel
  | S fuel => if bool_decide (t = 0) then Ret depth else depth_loop fuel (Z.shiftr t 1) (depth + 1)
  end.

Definition calc_depth (size : Z) : outcome Z :=
  if bool_decide (size = 0) then Ret 0 else depth_loop 32 (size - 1) 1.

(** [num_nodes] is a byte. *)
Definition num_nodes_of (depth : Z) : outcome Z := if bool_decide (31 ≤ depth) then Abort Undefined else Ret (u8 (Z.shiftl 1 depth)).

(** ** Making buckets *)

(** A product of [int]s. *)
Definition mul_int (a b : Z) : outcome Z := if bool_decide (- 2 ^ 31 ≤ a * b < 2 ^ 31) then Ret (a * b) else Abort SignedOverflow.

(** The first [n] elements of an array. *)
Definition first_of (l : list Z) (n : nat) : outcome (list Z) := if decide (n ≤ length l)%nat then Ret (take n l) else Abort OutOfBounds.

(** A null pointer is returned where the sum of the weights overflows. *)
Definition crush_make_uniform_bucket (hash type : Z) (items : list Z) (item_weight : Z) : outcome (option crush_bucket) :=
  let size := Z.of_nat (length items) in
  if crush_multiplication_is_unsafe size (u32 item_weight) then Ret None else
  weight ← mul_int size item_weight;
  Ret (Some (mkBucket 0 (u16 type) (u8 hash) (u32 weight) items (CRUSH_BUCKET_UNIFORM (u32 item_weight)))).

(** The loop over the weights; [w] is an [int]. *)
Fixpoint list_sums (weights : list Z) (w : Z) (sums : list Z) : outcome (option (Z * list Z)) :=
  match weights with
  | [] => Ret (Some (w, sums))
  | x :: weights =>
    if crush_addition_is_unsafe (u32 w) (u32 x) then Ret None else
    w ← add_int w x; list_sums weights w (sums ++ [u32 w])
  end.

Definition crush_make_list_bucket (hash type : Z) (items weights : list Z) : outcome (option crush_bucket) :=
  weights ← first_of weights (length items);
  sums ← list_sums weights 0 [];
  Ret (match sums with
       | None => None
       | Some (w, sums) => Some (mkBucket 0 (u16 type) (u8 hash) (u32 w) items (CRUSH_BUCKET_LIST (u32 <$> weights) sums))
       end).

(** The loop from a leaf to the root: [f] changes the weight of a node; [None] is
    an overflow, with the weights so far. *)
Fixpoint climb (n : nat) (node : Z) (f : Z → option Z) (nw : list Z) : outcome (bool * list Z) :=
  match n with
  | O => Ret (true, nw)
  | S n =>
    node ← parent node;
    v ← at_index nw node;
    match f v with
    | None => Ret (false, nw)
    | Some v => nw ← store_at nw node v; climb n node f nw
    end
  end.

(** [node_weights[node] += weight], checked. *)
Definition add_checked (weight v : Z) : option Z :=
  if crush_addition_is_unsafe v (u32 weight) then None else Some (u32 (v + weight)).

(** The loop over the items of a tree: the nodes and the weight. *)
Fixpoint tree_fill (weights : list Z) (i depth : Z) (nw : list Z) (weight : Z) : outcome (option (list Z * Z)) :=
  match weights with
  | [] => Ret (Some (nw, weight))
  | x :: weights =>
    let node := crush_calc_tree_node i in
    nw ← store_at nw node (u32 x);
    match add_checked x weight with
    | None => Ret None
    | Some weight =>
      '(ok, nw) ← climb (Z.to_nat (depth - 1)) node (add_checked x) nw;
      if ok : bool then tree_fill weights (i + 1) depth nw weight else Ret None
    end
  end.

Definition crush_make_tree_bucket (hash type : Z) (items weights : list Z) : outcome (option crush_bucket) :=
  let size := Z.of_nat (length items) in
  if bool_decide (size = 0) then Ret (Some (mkBucket 0 (u16 type) (u8 hash) 0 [] (CRUSH_BUCKET_TREE 0 []))) else
  depth ← calc_depth size;
  num_nodes ← num_nodes_of depth;
  weights ← first_of weights (length items);
  filled ← tree_fill weights 0 depth (replicate (Z.to_nat num_nodes) 0) 0;
  match filled with
  | None => Ret None
  | Some (nw, weight) =>
    root ← at_index nw (num_nodes / 2);
    _ ← assert_that (bool_decide (root = weight));
    Ret (Some (mkBucket 0 (u16 type) (u8 hash) weight items (CRUSH_BUCKET_TREE num_nodes nw)))
  end.

Definition crush_make_straw2_bucket (hash type : Z) (items weights : list Z) : outcome (option crush_bucket) :=
  weights ← first_of weights (length items);
  Ret (Some (mkBucket 0 (u16 type) (u8 hash) (foldl (λ w x, u32 (w + x)) 0 weights) items (CRUSH_BUCKET_STRAW2 (u32 <$> weights)))).

(** The numbers of the algorithms. *)
Inductive algorithm := UNIFORM | LIST | TREE | STRAW | STRAW2.

(** The lengths of straws are computed with floating-point numbers and [pow];
    [calc_straw] gives them for the weights of the items. *)
Section straws.
Context (calc_straw : list Z → list Z).

Definition crush_make_straw_bucket (hash type : Z) (items weights : list Z) : outcome (option crush_bucket) :=
  weights ← first_of weights (length items);
  let item_weights := u32 <$> weights in
  Ret (Some (mkBucket 0 (u16 type) (u8 hash) (foldl (λ w x, u32 (w + x)) 0 weights) items
    (CRUSH_BUCKET_STRAW item_weights (calc_straw item_weights)))).

(** [weights] may be a null pointer. *)
Definition crush_make_bucket (a : algorithm) (hash type : Z) (items : list Z) (weights : option (list Z)) : outcome (option crush_bucket) :=
  match a with
  | UNIFORM =>
    item_weight ← match weights with
                  | Some ws => if decide (items = []) then Ret 0 else at_index ws 0
                  | None => Ret 0
                  end;
    crush_make_uniform_bucket hash type items item_weight
  | _ =>
    ws ← match weights with Some ws => Ret ws | None => if decide (items = []) then Ret [] else Abort NullPointer end;
    match a with
    | LIST => crush_make_list_bucket hash type items ws
    | TREE => crush_make_tree_bucket hash type items ws
    | STRAW => crush_make_straw_bucket hash type items ws
    | _ => crush_make_straw2_bucket hash type items ws
    end
  end.

(** ** Adding items *)

(** The tree is made larger first: new nodes have the values [fresh] that the
    memory has. *)
Definition resize_nodes (fresh : Z → Z) (nw : list Z) (n : Z) : list Z :=
  if bool_decide (n ≤ Z.of_nat (length nw)) then take (Z.to_nat n) nw
  else nw ++ (fresh <$> seqZ (Z.of_nat (length nw)) (n - Z.of_nat (length nw))).

Definition set_alg (b : crush_bucket) (a : bucket_alg) : crush_bucket := mkBucket (id b) (type b) (hash b) (weight b) (items b) a.
Definition grown (b : crush_bucket) (item w : Z) (a : bucket_alg) : crush_bucket :=
  mkBucket (id b) (type b) (hash b) (u32 (weight b + w)) (items b ++ [item]) a.

Definition crush_add_tree_bucket_item (fresh : Z → Z) (b : crush_bucket) (nw : list Z) (item w : Z) : outcome (Z * crush_bucket) :=
  let newsize := size b + 1 in
  depth ← calc_depth newsize;
  num_nodes ← num_nodes_of depth;
  let nw := resize_nodes fresh nw num_nodes in
  let node := crush_calc_tree_node (newsize - 1) in
  nw ← store_at nw node (u32 w);
  let root := num_nodes / 2 in
  nw ← (if bool_decide (2 ≤ depth ∧ node - 1 = root) then v ← at_index nw (root / 2); store_at nw root v else Ret nw);
  '(ok, nw) ← climb (Z.to_nat (depth - 1)) node (add_checked w) nw;
  if negb ok || crush_addition_is_unsafe (weight b) (u32 w) then Ret (- ERANGE, set_alg b (CRUSH_BUCKET_TREE num_nodes nw))
  else Ret (0, grown b item w (CRUSH_BUCKET_TREE num_nodes nw)).

Definition crush_add_uniform_bucket_item (b : crush_bucket) (item_weight item w : Z) : Z * crush_bucket :=
  if bool_decide (item_weight ≠ u32 w) then (- EINVAL, b) else
  if crush_addition_is_unsafe (weight b) (u32 w) then (- ERANGE, b)
  else (0, grown b item w (CRUSH_BUCKET_UNIFORM item_weight)).

(** An array that is made as long as [items] will be, with its last element. *)
Definition put_last (b : crush_bucket) (l : list Z) (v : Z) : list Z := take (length (items b)) l ++ [v].

Definition crush_add_list_bucket_item (b : crush_bucket) (iw sw : list Z) (item w : Z) : outcome (Z * crush_bucket) :=
  sum ← (if bool_decide (1 < size b + 1) then
           last ← at_index sw (size b - 1);
           Ret (if crush_addition_is_unsafe last (u32 w) then None else Some (u32 (last + w)))
         else Ret (Some (u32 w)));
  Ret (match sum with
       | None => (- ERANGE, b)
       | Some sum => (0, grown b item w (CRUSH_BUCKET_LIST (put_last b iw (u32 w)) (put_last b sw sum)))
       end).

Definition crush_add_straw_bucket_item (b : crush_bucket) (iw : list Z) (item w : Z) : Z * crush_bucket :=
  if crush_addition_is_unsafe (weight b) (u32 w) then (- ERANGE, b) else
  let iw := put_last b iw (u32 w) in (0, grown b item w (CRUSH_BUCKET_STRAW iw (calc_straw iw))).

Definition crush_add_straw2_bucket_item (b : crush_bucket) (iw : list Z) (item w : Z) : Z * crush_bucket :=
  if crush_addition_is_unsafe (weight b) (u32 w) then (- ERANGE, b)
  else (0, grown b item w (CRUSH_BUCKET_STRAW2 (put_last b iw (u32 w)))).

Definition crush_bucket_add_item (fresh : Z → Z) (b : crush_bucket) (item w : Z) : outcome (Z * crush_bucket) :=
  match alg b with
  | CRUSH_BUCKET_UNIFORM item_weight => Ret (crush_add_uniform_bucket_item b item_weight item w)
  | CRUSH_BUCKET_LIST iw sw => crush_add_list_bucket_item b iw sw item w
  | CRUSH_BUCKET_TREE _ nw => crush_add_tree_bucket_item fresh b nw item w
  | CRUSH_BUCKET_STRAW iw _ => Ret (crush_add_straw_bucket_item b iw item w)
  | CRUSH_BUCKET_STRAW2 iw => Ret (crush_add_straw2_bucket_item b iw item w)
  | UNKNOWN_ALG _ => Ret (-1, b)
  end.

(** ** Removing items *)

(** The first place of an item. *)
Definition index_of (b : crush_bucket) (item : Z) : option Z := (λ '(i, _), Z.of_nat i) <$> list_find (λ x, x = item) (items b).

(** [l[j] = l[j+1]] for [j] from [i] up to, but without, [n]. *)
Definition shift_left (l : list Z) (i n : Z) : outcome (list Z) :=
  foldM (λ l j, v ← at_index l (j + 1); store_at l j v) l (seqZ i (n - i)).

(** The weight of a bucket without [w]. *)
Definition less_weight (b : crush_bucket) (w : Z) : Z := if bool_decide (w < weight b) then weight b - w else 0.

Definition shrunk (b : crush_bucket) (weight : Z) (items : list Z) (n : Z) (a : bucket_alg) : crush_bucket :=
  mkBucket (id b) (type b) (hash b) weight (take (Z.to_nat n) items) a.

Definition crush_remove_uniform_bucket_item (b : crush_bucket) (item_weight item : Z) : outcome (Z * crush_bucket) :=
  match index_of b item with
  | None => Ret (- ENOENT, b)
  | Some i =>
    its ← shift_left (items b) i (size b);
    Ret (0, shrunk b (less_weight b item_weight) its (size b - 1) (alg b))
  end.

Definition crush_remove_list_bucket_item (b : crush_bucket) (iw sw : list Z) (item : Z) : outcome (Z * crush_bucket) :=
  match index_of b item with
  | None => Ret (- ENOENT, b)
  | Some i =>
    w ← at_index iw i;
    '(its, iw, sw) ← foldM (λ '(its, iw, sw) j,
        v ← at_index its (j + 1); its ← store_at its j v;
        v ← at_index iw (j + 1); iw ← store_at iw j v;
        v ← at_index sw (j + 1); sw ← store_at sw j (u32 (v - w));
        Ret (its, iw, sw)) (items b, iw, sw) (seqZ i (size b - i));
    let n := Z.to_nat (size b - 1) in
    Ret (0, shrunk b (less_weight b w) its (size b - 1) (CRUSH_BUCKET_LIST (take n iw) (take n sw)))
  end.

(** The size of a tree without the leaves of weight 0 at its end. *)
Fixpoint trailing (nw : list Z) (n : nat) : outcome nat :=
  match n with
  | O => Ret O
  | S n' => v ← at_index nw (crush_calc_tree_node (Z.of_nat n')); if bool_decide (v ≠ 0) then Ret n else trailing nw n'
  end.

Definition crush_remove_tree_bucket_item (b : crush_bucket) (num_nodes : Z) (nw : list Z) (item : Z) : outcome (Z * crush_bucket) :=
  match index_of b item with
  | None => Ret (- ENOENT, b)
  | Some i =>
    depth ← calc_depth (size b);
    let its := <[Z.to_nat i := 0]> (items b) in
    let node := crush_calc_tree_node i in
    w ← at_index nw node;
    nw ← store_at nw node 0;
    '(_, nw) ← climb (Z.to_nat (depth - 1)) node (λ v, Some (u32 (v - w))) nw;
    newsize ← trailing nw (length its);
    let newsize := Z.of_nat newsize in
    newdepth ← calc_depth newsize;
    '(num_nodes, nw) ← (if bool_decide (newsize ≠ size b ∧ depth ≠ newdepth) then
                          n ← num_nodes_of newdepth; Ret (n, take (Z.to_nat n) nw)
                        else Ret (num_nodes, nw));
    Ret (0, shrunk b (less_weight b w) its newsize (CRUSH_BUCKET_TREE num_nodes nw))
  end.

(** The size goes down before the loops, and the place of the item is compared
    with it afterwards; only then are the arrays made smaller. *)
Definition crush_remove_straw2_bucket_item (b : crush_bucket) (iw : list Z) (item : Z) : outcome (Z * crush_bucket) :=
  match index_of b item with
  | None => Ret (- ENOENT, b)
  | Some i =>
    let newsize := size b - 1 in
    w ← at_index iw i;
    its ← shift_left (items b) i newsize;
    iw ← shift_left iw i newsize;
    if bool_decide (i = newsize) then Ret (- ENOENT, shrunk b (less_weight b w) its newsize (CRUSH_BUCKET_STRAW2 iw))
    else Ret (0, shrunk b (less_weight b w) its newsize (CRUSH_BUCKET_STRAW2 (take (Z.to_nat newsize) iw)))
  end.

Definition crush_remove_straw_bucket_item (b : crush_bucket) (iw straws : list Z) (item : Z) : outcome (Z * crush_bucket) :=
  match index_of b item with
  | None => Ret (- ENOENT, b)
  | Some i =>
    let newsize := size b - 1 in
    w ← at_index iw i;
    its ← shift_left (items b) i newsize;
    iw ← shift_left iw i newsize;
    if bool_decide (i = newsize) then Ret (- ENOENT, shrunk b (less_weight b w) its newsize (CRUSH_BUCKET_STRAW iw straws))
    else
      let iw := take (Z.to_nat newsize) iw in
      Ret (0, shrunk b (less_weight b w) its newsize (CRUSH_BUCKET_STRAW iw (calc_straw iw)))
  end.

Definition crush_bucket_remove_item (b : crush_bucket) (item : Z) : outcome (Z * crush_bucket) :=
  match alg b with
  | CRUSH_BUCKET_UNIFORM item_weight => crush_remove_uniform_bucket_item b item_weight item
  | CRUSH_BUCKET_LIST iw sw => crush_remove_list_bucket_item b iw sw item
  | CRUSH_BUCKET_TREE num_nodes nw => crush_remove_tree_bucket_item b num_nodes nw item
  | CRUSH_BUCKET_STRAW iw straws => crush_remove_straw_bucket_item b iw straws item
  | CRUSH_BUCKET_STRAW2 iw => crush_remove_straw2_bucket_item b iw item
  | UNKNOWN_ALG _ => Ret (-1, b)
  end.

(** ** Weights of items *)

Definition with_weight (b : crush_bucket) (w : Z) (a : bucket_alg) : crush_bucket := mkBucket (id b) (type b) (hash b) (u32 w) (items b) a.

(** All items have the same weight. *)
Definition crush_adjust_uniform_bucket_item_weight (b : crush_bucket) (item_weight w : Z) : Z * crush_bucket :=
  (s32 ((w - item_weight) * size b), with_weight b (u32 w * size b) (CRUSH_BUCKET_UNIFORM (u32 w))).

Definition crush_adjust_list_bucket_item_weight (b : crush_bucket) (iw sw : list Z) (item w : Z) : outcome (Z * crush_bucket) :=
  match index_of b item with
  | None => Ret (0, b)
  | Some i =>
    old ← at_index iw i;
    let diff := s32 (w - old) in
    iw ← store_at iw i (u32 w);
    sw ← foldM (λ sw j, v ← at_index sw j; store_at sw j (u32 (v + diff))) sw (seqZ i (size b - i));
    Ret (diff, with_weight b (weight b + diff) (CRUSH_BUCKET_LIST iw sw))
  end.

Definition crush_adjust_tree_bucket_item_weight (b : crush_bucket) (num_nodes : Z) (nw : list Z) (item w : Z) : outcome (Z * crush_bucket) :=
  depth ← calc_depth (size b);
  match index_of b item with
  | None => Ret (0, b)
  | Some i =>
    let node := crush_calc_tree_node i in
    old ← at_index nw node;
    let diff := s32 (w - old) in
    nw ← store_at nw node (u32 w);
    '(_, nw) ← climb (Z.to_nat (depth - 1)) node (λ v, Some (u32 (v + diff))) nw;
    Ret (diff, with_weight b (weight b + diff) (CRUSH_BUCKET_TREE num_nodes nw))
  end.

Definition crush_adjust_straw_bucket_item_weight (b : crush_bucket) (iw straws : list Z) (item w : Z) : outcome (Z * crush_bucket) :=
  match index_of b item with
  | None => Ret (0, b)
  | Some i =>
    old ← at_index iw i;
    let diff := s32 (w - old) in
    iw ← store_at iw i (u32 w);
    Ret (diff, with_weight b (weight b + diff) (CRUSH_BUCKET_STRAW iw (calc_straw iw)))
  end.

Definition crush_adjust_straw2_bucket_item_weight (b : crush_bucket) (iw : list Z) (item w : Z) : outcome (Z * crush_bucket) :=
  match index_of b item with
  | None => Ret (0, b)
  | Some i =>
    old ← at_index iw i;
    let diff := s32 (w - old) in
    iw ← store_at iw i (u32 w);
    Ret (diff, with_weight b (weight b + diff) (CRUSH_BUCKET_STRAW2 iw))
  end.

Definition crush_bucket_adjust_item_weight (b : crush_bucket) (item w : Z) : outcome (Z * crush_bucket) :=
  match alg b with
  | CRUSH_BUCKET_UNIFORM item_weight => Ret (crush_adjust_uniform_bucket_item_weight b item_weight w)
  | CRUSH_BUCKET_LIST iw sw => crush_adjust_list_bucket_item_weight b iw sw item w
  | CRUSH_BUCKET_TREE num_nodes nw => crush_adjust_tree_bucket_item_weight b num_nodes nw item w
  | CRUSH_BUCKET_STRAW iw straws => crush_adjust_straw_bucket_item_weight b iw straws item w
  | CRUSH_BUCKET_STRAW2 iw => crush_adjust_straw2_bucket_item_weight b iw item w
  | UNKNOWN_ALG _ => Ret (-1, b)
  end.

Definition crush_get_bucket_item_weight (b : crush_bucket) (p : Z) : outcome Z :=
  if bool_decide (size b ≤ u32 p) then Ret 0 else
  match alg b with
  | CRUSH_BUCKET_UNIFORM item_weight => Ret (s32 item_weight)
  | CRUSH_BUCKET_LIST iw _ | CRUSH_BUCKET_STRAW iw _ | CRUSH_BUCKET_STRAW2 iw => v ← at_index iw p; Ret (s32 v)
  | CRUSH_BUCKET_TREE _ nw => v ← at_index nw (crush_calc_tree_node p); Ret (s32 v)
  | UNKNOWN_ALG _ => Ret 0
  end.

(** ** Weights of buckets *)

(** The buckets of a map, changed at one place. *)
Definition put_bucket (bs : list (option crush_bucket)) (pos : Z) (b : crush_bucket) : list (option crush_bucket) := <[Z.to_nat pos := Some b]> bs.
Definition bucket_deref (bs : list (option crush_bucket)) (pos : Z) : outcome crush_bucket := b ← at_index bs pos; need NullPointer b.

(** The arrays in which a bucket has the weights of its items, and where. *)
Definition set_item_weight (b : crush_bucket) (i w : Z) : outcome crush_bucket :=
  match alg b with
  | CRUSH_BUCKET_LIST iw sw => iw ← store_at iw i w; Ret (set_alg b (CRUSH_BUCKET_LIST iw sw))
  | CRUSH_BUCKET_TREE n nw => nw ← store_at nw (crush_calc_tree_node i) w; Ret (set_alg b (CRUSH_BUCKET_TREE n nw))
  | CRUSH_BUCKET_STRAW iw straws => iw ← store_at iw i w; Ret (set_alg b (CRUSH_BUCKET_STRAW iw straws))
  | CRUSH_BUCKET_STRAW2 iw => iw ← store_at iw i w; Ret (set_alg b (CRUSH_BUCKET_STRAW2 iw))
  | _ => Ret b
  end.

Definition item_weight_at (b : crush_bucket) (i : Z) : outcome Z :=
  match alg b with
  | CRUSH_BUCKET_LIST iw _ | CRUSH_BUCKET_STRAW iw _ | CRUSH_BUCKET_STRAW2 iw => at_index iw i
  | CRUSH_BUCKET_TREE _ nw => at_index nw (crush_calc_tree_node i)
  | _ => Ret 0
  end.

Section reweight.
Context (again : list (option crush_bucket) → Z → outcome (Z * list (option crush_bucket))).

(** One round of the loop of a list, a tree, or one of straws: the weight of a
    child, which is computed first, and the sum. *)
Definition reweight_item (pos : Z) (st : Z * list (option crush_bucket)) (i : Z) : outcome (Z * list (option crush_bucket)) :=
  let '(r, bs) := st in
  if bool_decide (r ≠ 0) then Ret st else
  b ← bucket_deref bs pos;
  it ← at_index (items b) i;
  bs ← (if bool_decide (it < 0) then
          '(_, bs) ← again bs (-1 - it);
          c ← bucket_deref bs (-1 - it);
          b ← bucket_deref bs pos;
          b ← set_item_weight b i (weight c);
          Ret (put_bucket bs pos b)
        else Ret bs);
  b ← bucket_deref bs pos;
  w ← item_weight_at b i;
  Ret (if crush_addition_is_unsafe (weight b) w then (- ERANGE, bs) else (0, put_bucket bs pos (with_weight b (weight b + w) (alg b)))).

(** The same for a uniform bucket: the sum, the children and the devices. *)
Definition reweight_uniform_item (pos : Z) (st : Z * list (option crush_bucket) * Z * Z * Z) (i : Z)
    : outcome (Z * list (option crush_bucket) * Z * Z * Z) :=
  let '(r, bs, sum, n, leaves) := st in
  if bool_decide (r ≠ 0) then Ret st else
  b ← bucket_deref bs pos;
  it ← at_index (items b) i;
  if bool_decide (it < 0) then
    '(_, bs) ← again bs (-1 - it);
    c ← bucket_deref bs (-1 - it);
    Ret (if crush_addition_is_unsafe sum (weight c) then (- ERANGE, bs, sum, n, leaves) else (0, bs, u32 (sum + weight c), n + 1, leaves))
  else Ret (0, bs, sum, n, leaves + 1).

Definition reweight_body (bs : list (option crush_bucket)) (pos : Z) : outcome (Z * list (option crush_bucket)) :=
  b ← bucket_deref bs pos;
  match alg b with
  | CRUSH_BUCKET_UNIFORM _ =>
    '(r, bs, sum, n, leaves) ← foldM (reweight_uniform_item pos) (0, bs, 0, 0, 0) (seqZ 0 (size b));
    if bool_decide (r ≠ 0) then Ret (r, bs) else
    b ← bucket_deref bs pos;
    item_weight ← match alg b with CRUSH_BUCKET_UNIFORM w => Ret (if bool_decide (leaves < n) then sum / n else w) | _ => Abort Undefined end;
    Ret (0, put_bucket bs pos (with_weight b (item_weight * size b) (CRUSH_BUCKET_UNIFORM item_weight)))
  | UNKNOWN_ALG _ => Ret (-1, bs)
  | _ =>
    '(r, bs) ← foldM (reweight_item pos) (0, put_bucket bs pos (with_weight b 0 (alg b))) (seqZ 0 (size b));
    b ← bucket_deref bs pos;
    match alg b with
    | CRUSH_BUCKET_STRAW iw _ => Ret (r, if bool_decide (r = 0) then put_bucket bs pos (set_alg b (CRUSH_BUCKET_STRAW iw (calc_straw iw))) else bs)
    | _ => Ret (r, bs)
    end
  end.

End reweight.

(** The recursion goes down the buckets of a map. *)
Fixpoint crush_reweight_bucket (fuel : nat) (bs : list (option crush_bucket)) (pos : Z) : outcome (Z * list (option crush_bucket)) :=
  match fuel with
  | O => Abort OutOfFuel
  | S fuel => reweight_body (crush_reweight_bucket fuel) bs pos
  end.

End straws.

(** ** Buckets of a map *)

(** An empty map, with the tunables of [set_optimal_crush_map]. *)
Definition crush_create : crush_map := mkMap [] [] 0 0 0 50 1 1 1.

Definition with_buckets (m : crush_map) (bs : list (option crush_bucket)) (devices : Z) : crush_map :=
  mkMap bs (map_rules m) devices (choose_local_tries m) (choose_local_fallback_tries m) (choose_total_tries m)
    (chooseleaf_descend_once m) (chooseleaf_vary_r m) (chooseleaf_stable m).

Definition crush_get_next_bucket_id (m : crush_map) : Z :=
  -1 - Z.of_nat (match list_find (λ b, b = None) (buckets m) with Some (pos, _) => pos | None => length (buckets m) end).

(** The array is doubled until it has the place. *)
Fixpoint grow_buckets (fuel : nat) (bs : list (option crush_bucket)) (pos : Z) : outcome (list (option crush_bucket)) :=
  match fuel with
  | O => Abort OutOfFuel
  | S fuel =>
    let n := Z.of_nat (length bs) in
    if bool_decide (pos < n) then Ret bs else
    n' ← (if bool_decide (n ≠ 0) then mul_int n 2 else Ret 8);
    grow_buckets fuel (bs ++ replicate (Z.to_nat (n' - n)) None) pos
  end.

(** The result, the identifier and the map. *)
Definition crush_add_bucket (m : crush_map) (id : Z) (b : crush_bucket) : outcome (Z * Z * crush_map) :=
  let id := if bool_decide (id = 0) then crush_get_next_bucket_id m else id in
  let pos := -1 - id in
  bs ← grow_buckets 32 (buckets m) pos;
  old ← at_index bs pos;
  match old with
  | Some _ => Ret (- EEXIST, id, with_buckets m bs (max_devices m))
  | None => Ret (0, id, with_buckets m (put_bucket bs pos (mkBucket id (type b) (hash b) (weight b) (items b) (alg b))) (max_devices m))
  end.

Definition crush_remove_bucket (m : crush_map) (b : crush_bucket) : outcome (Z * crush_map) :=
  let pos := -1 - id b in
  _ ← assert_that (bool_decide (pos < max_buckets m));
  bs ← store_at (buckets m) pos None;
  Ret (0, with_buckets m bs (max_devices m)).

(** The number of devices is one more than the largest; the size of the working
    store is that of [crush_init_workspace]. *)
Definition crush_finalize (m : crush_map) : outcome crush_map :=
  devices ← foldM (λ devices b,
      match b with
      | None => Ret devices
      | Some b => foldM (λ devices i, if bool_decide (devices ≤ i) then add_int i 1 else Ret devices) devices (items b)
      end) 0 (buckets m);
  Ret (with_buckets m (buckets m) devices).

(** ** Loops *)

Definition get_bucket (m : crush_map) (id : Z) : option crush_bucket :=
  let pos := u32 (-1 - id) in
  if bool_decide (max_buckets m ≤ pos) then None else mjoin (buckets m !! Z.to_nat pos).

Fixpoint any_of (test : Z → outcome bool) (its : list Z) : outcome bool :=
  match its with
  | [] => Ret false
  | i :: its => found ← test i; if found : bool then Ret true else any_of test its
  end.

(** The recursion is as deep as the buckets, without end if they form a loop. *)
Fixpoint subtree_contains (fuel : nat) (m : crush_map) (root item : Z) : outcome bool :=
  match fuel with
  | O => Abort StackOverflow
  | S fuel =>
    if bool_decide (root = item) then Ret true
    else if bool_decide (0 ≤ root) then Ret false
    else
      match get_bucket m root with
      | None => Ret false
      | Some b => any_of (λ i, subtree_contains fuel m i item) (items b)
      end
  end.

End Builder.
