(* ===== verification/CrushTrees.v ===== *)
(** * The trees of tree buckets

    How src/src/crush/builder.c keeps the weights of the nodes of a tree: a
    node has the sum of the weights of the leaves below it, and the loop from
    a leaf to the root keeps it so. *)

From S2P Require Import Prelude CrushRules CrushTables CrushHash CrushMap CrushMapper CrushPerm CrushLn CrushBuckets CrushBuilder.

Import Crush Mapper Builder.

(** ** Sums *)

Definition total (ws : list Z) : Z := foldr Z.add 0 ws.

Lemma totals_app l k : total (l ++ k) = total l + total k.
Proof. induction l as [|x l IH]; cbn; [done|]. unfold total in *. lia. Qed.

Lemma total_zeros n : total (replicate n 0) = 0.
Proof. induction n as [|n IH]; cbn; [done|]. unfold total in *. lia. Qed.

Lemma totals_nonneg ws : Forall (λ w, 0 ≤ w) ws → 0 ≤ total ws.
Proof. induction 1; cbn; [done|]. unfold total in *. lia. Qed.

Lemma total_insert ws i v x : ws !! i = Some x → total (<[i := v]> ws) = total ws - x + v.
Proof.
  intros Hi. rewrite insert_take_drop by (by eapply lookup_lt_Some). rewrite <-(take_drop_middle ws i x Hi) at 3.
  rewrite !totals_app. cbn. unfold total. lia.
Qed.

Lemma total_take_le ws n : Forall (λ w, 0 ≤ w) ws → total (take n ws) ≤ total ws.
Proof.
  intros Hp. rewrite <-(take_drop n ws) at 2. rewrite totals_app. pose proof (totals_nonneg (drop n ws) (Forall_drop _ n ws Hp)). lia.
Qed.

Lemma total_drop_le ws n : Forall (λ w, 0 ≤ w) ws → total (drop n ws) ≤ total ws.
Proof.
  intros Hp. rewrite <-(take_drop n ws) at 2. rewrite totals_app. pose proof (totals_nonneg (take n ws) (Forall_take _ n ws Hp)). lia.
Qed.

Lemma total_lookup_le ws i x : Forall (λ w, 0 ≤ w) ws → ws !! i = Some x → 0 ≤ x ≤ total ws.
Proof.
  intros Hp Hi. pose proof (total_insert ws i 0 x Hi). assert (0 ≤ x) by (by apply (proj1 (Forall_lookup _ _) Hp i)).
  assert (0 ≤ total (<[i := 0]> ws)) by (apply totals_nonneg, Forall_insert; [done|lia]). lia.
Qed.

(** The weights below node [j] of height [h]. *)
Definition block (ws : list Z) (h j : Z) : Z := total (take (Z.to_nat (2 ^ h)) (drop (Z.to_nat (j * 2 ^ h)) ws)).

Lemma pow2_pos h : 0 ≤ h → 0 < 2 ^ h.
Proof. intros. by apply Z.pow_pos_nonneg. Qed.

Lemma block_leaf ws j x : 0 ≤ j → ws !! Z.to_nat j = Some x → block ws 0 j = x.
Proof.
  intros Hj Hx. unfold block. change (2 ^ 0) with 1. rewrite Z.mul_1_r. rewrite (drop_S _ x _ Hx). change (Z.to_nat 1) with 1%nat. cbn [take]. rewrite ?take_0. cbn. lia.
Qed.

Lemma block_split ws h j : 0 < h → 0 ≤ j → block ws h j = block ws (h - 1) (2 * j) + block ws (h - 1) (2 * j + 1).
Proof.
  intros Hh Hj. unfold block. pose proof (pow2_pos (h - 1) ltac:(lia)). rewrite (pow2_pred h) by done.
  set (n := Z.to_nat (2 ^ (h - 1))). assert (Z.to_nat (2 * 2 ^ (h - 1)) = n + n)%nat as -> by (unfold n; lia).
  assert (Z.to_nat (j * (2 * 2 ^ (h - 1))) = Z.to_nat (2 * j * 2 ^ (h - 1))) as -> by (f_equal; lia).
  assert (Z.to_nat ((2 * j + 1) * 2 ^ (h - 1)) = Z.to_nat (2 * j * 2 ^ (h - 1)) + n)%nat as -> by (unfold n; nia).
  rewrite <-drop_drop. set (l := drop _ ws). rewrite <-(take_drop n l) at 1. rewrite <-totals_app. f_equal.
  rewrite take_app. rewrite (take_ge (take n l)) by (rewrite length_take; lia). f_equal. rewrite length_take. destruct (decide (n ≤ length l)%nat).
  - f_equal. lia.
  - by rewrite drop_ge, !take_nil by lia.
Qed.

Lemma block_all ws d : Z.of_nat (length ws) = 2 ^ d → block ws d 0 = total ws.
Proof. intros Hl. unfold block. cbn [Z.mul]. change (Z.to_nat 0) with 0%nat. rewrite drop_0, take_ge by lia. done. Qed.

Lemma block_range ws h j : Forall (λ w, 0 ≤ w) ws → 0 ≤ block ws h j ≤ total ws.
Proof.
  intros Hp. unfold block. set (l := drop _ ws). assert (Forall (λ w, 0 ≤ w) l) as Hl by by apply Forall_drop.
  split; [apply totals_nonneg; by apply Forall_take|]. etrans; [by apply total_take_le|]. by apply total_drop_le.
Qed.

(** A new weight of a leaf counts in the nodes above it. *)
Lemma block_insert ws i v x h j :
  0 ≤ i → 0 ≤ h → 0 ≤ j → ws !! Z.to_nat i = Some x →
  block (<[Z.to_nat i := v]> ws) h j = if bool_decide (j = i / 2 ^ h) then block ws h j - x + v else block ws h j.
Proof.
  intros Hi Hh Hj Hx. unfold block. pose proof (pow2_pos h Hh). set (n := Z.to_nat (2 ^ h)). set (o := Z.to_nat (j * 2 ^ h)).
  pose proof (Z.div_mod i (2 ^ h) ltac:(lia)). pose proof (Z.mod_pos_bound i (2 ^ h) ltac:(lia)). case_bool_decide as Hb.
  - rewrite drop_insert_ge by (unfold o; subst j; nia). rewrite take_insert_lt by (unfold o, n; subst j; nia).
    apply total_insert. rewrite lookup_take_lt by (unfold o, n; subst j; nia). rewrite lookup_drop. rewrite <-Hx. f_equal. unfold o. subst j. nia.
  - destruct (decide (i < j * 2 ^ h)).
    + by rewrite drop_insert_lt by (unfold o; lia).
    + rewrite drop_insert_ge by (unfold o; lia). rewrite take_insert_ge; [done|]. unfold o, n.
      assert (j < i / 2 ^ h) by (apply Z.le_neq; split; [apply Z.div_le_lower_bound; lia|done]). nia.
Qed.

(** ** Nodes *)

Lemma tree_node_inj h j h' j' : 0 ≤ h → 0 ≤ j → 0 ≤ h' → 0 ≤ j' → tree_node h j = tree_node h' j' → h = h' ∧ j = j'.
Proof.
  intros Hh Hj Hh' Hj' E. assert (h = h') as ->.
  { pose proof (height_loop_spec (S (Z.to_nat (h + h'))) h j Hh Hj ltac:(lia)) as E1.
    pose proof (height_loop_spec (S (Z.to_nat (h + h'))) h' j' Hh' Hj' ltac:(lia)) as E2. rewrite E in E1. rewrite E1 in E2. by injection E2. }
  split; [done|]. unfold tree_node in E. pose proof (pow2_pos h' Hh'). apply Z.mul_reg_l in E; lia.
Qed.

Lemma tree_node_lt h j d : 0 ≤ h ≤ d → 0 ≤ j < 2 ^ (d - h) → 0 < tree_node h j < 2 ^ (d + 1).
Proof.
  intros Hh Hj. unfold tree_node. pose proof (pow2_pos h ltac:(lia)). replace (d + 1) with (h + (d - h) + 1) by lia.
  rewrite !Z.pow_add_r by lia. change (2 ^ 1) with 2. nia.
Qed.

Lemma calc_tree_node_leaf i : crush_calc_tree_node i = tree_node 0 i.
Proof. unfold crush_calc_tree_node, tree_node. rewrite Z.shiftl_mul_pow2 by lia. change (2 ^ 0) with 1. change (2 ^ 1) with 2. lia. Qed.

Lemma parent_spec h j : 0 ≤ h < 31 → 0 ≤ j → parent (tree_node h j) = Ret (tree_node (h + 1) (j / 2)).
Proof.
  intros Hh Hj. unfold parent, height. rewrite height_loop_spec by lia. cbn [mbind outcome_bind]. f_equal.
  assert (on_right (tree_node h j) h = Z.odd j) as ->.
  { unfold on_right. rewrite Z.shiftl_mul_pow2, Z.mul_1_l by lia. unfold tree_node. rewrite Z.mul_comm, <-Z.shiftl_mul_pow2 by lia.
    assert (Z.testbit (Z.shiftl (2 * j + 1) h) (h + 1) = Z.odd j) as Hb.
    { rewrite Z.shiftl_spec by lia. replace (h + 1 - h) with (Z.succ 0) by lia. rewrite Z.testbit_odd_succ by lia. by rewrite Z.bit0_odd. }
    case_bool_decide as Hl; symmetry.
    - destruct (Z.odd j) eqn:E; [done|]. destruct Hl. apply Z.bits_inj'. intros k Hk. rewrite Z.land_spec, Z.pow2_bits_eqb, Z.bits_0 by lia.
      destruct (Z.eqb_spec (h + 1) k) as [<-|]; [by rewrite Hb|apply andb_false_r].
    - destruct (Z.odd j) eqn:E; [|done]. apply (f_equal (λ z, Z.testbit z (h + 1))) in Hl.
      rewrite Z.land_spec, Hb, Z.pow2_bits_true, Z.bits_0 in Hl by lia. done. }
  rewrite Z.shiftl_mul_pow2, Z.mul_1_l by lia. unfold tree_node. rewrite Z.pow_add_r by lia. change (2 ^ 1) with 2.
  pose proof (Z.div_mod j 2 ltac:(lia)) as Hdiv. rewrite Zmod_odd in Hdiv. destruct (Z.odd j); nia.
Qed.

(** ** Trees and the weights of their leaves *)

(** Node by node; the leaves that are no items have weight 0 in [ws]. *)
Record tree_rep (d : Z) (nw ws : list Z) : Prop := {
  rep_depth : 0 ≤ d < 30;
  rep_nodes : Z.of_nat (length nw) = 2 ^ (d + 1);
  rep_leaves : Z.of_nat (length ws) = 2 ^ d;
  rep_u32 : Forall (λ w, 0 ≤ w < 2 ^ 32) nw;
  rep_sum h j : 0 ≤ h ≤ d → 0 ≤ j < 2 ^ (d - h) → nw !! Z.to_nat (tree_node h j) = Some (block ws h j);
}.

Lemma div_pow2_lt i d h : 0 ≤ h ≤ d → 0 ≤ i < 2 ^ d → 0 ≤ i / 2 ^ h < 2 ^ (d - h).
Proof.
  intros Hh Hi. pose proof (pow2_pos h ltac:(lia)). split; [apply Z.div_pos; lia|]. apply Z.div_lt_upper_bound; [lia|].
  rewrite <-Z.pow_add_r by lia. replace (h + (d - h)) with d by lia. lia.
Qed.

(** The loop from leaf [i] to the root: the nodes up to height [k] have the
    new weights. *)
Lemma climb_spec d ws ws' i f n k nw :
  0 ≤ d < 30 → 0 ≤ i < 2 ^ d → 0 ≤ k → Z.of_nat n = d - k →
  (∀ h j, 0 ≤ h ≤ d → 0 ≤ j → j ≠ i / 2 ^ h → block ws' h j = block ws h j) →
  (∀ h, 0 < h ≤ d → f (block ws h (i / 2 ^ h)) = Some (block ws' h (i / 2 ^ h)) ∧ 0 ≤ block ws' h (i / 2 ^ h) < 2 ^ 32) →
  Z.of_nat (length nw) = 2 ^ (d + 1) → Forall (λ w, 0 ≤ w < 2 ^ 32) nw →
  (∀ h j, 0 ≤ h ≤ d → 0 ≤ j < 2 ^ (d - h) → nw !! Z.to_nat (tree_node h j) = Some (block (if bool_decide (h ≤ k) then ws' else ws) h j)) →
  ∃ nw', climb n (tree_node k (i / 2 ^ k)) f nw = Ret (true, nw') ∧ Z.of_nat (length nw') = 2 ^ (d + 1) ∧ Forall (λ w, 0 ≤ w < 2 ^ 32) nw'
    ∧ ∀ h j, 0 ≤ h ≤ d → 0 ≤ j < 2 ^ (d - h) → nw' !! Z.to_nat (tree_node h j) = Some (block ws' h j).
Proof.
  intros Hd Hi Hk Hn Hsame Hf. revert k nw Hk Hn. induction n as [|n IH]; intros k nw Hk Hn Hlen Hall Hrep; cbn [climb].
  - exists nw. split_and!; [done..|]. intros h j Hh Hj. rewrite Hrep by done. by rewrite bool_decide_true by lia.
  - pose proof (div_pow2_lt i d k ltac:(lia) Hi). rewrite parent_spec by lia. cbn [mbind outcome_bind].
    assert (i / 2 ^ k / 2 = i / 2 ^ (k + 1)) as ->. { rewrite Z.pow_add_r by lia. rewrite Z.div_div; [done|pose proof (pow2_pos k Hk); lia|lia]. }
    pose proof (div_pow2_lt i d (k + 1) ltac:(lia) Hi) as Hj. pose proof (tree_node_lt (k + 1) _ d ltac:(lia) Hj) as Hlt.
    rewrite (at_index_ok nw _ (block ws (k + 1) (i / 2 ^ (k + 1)))); [|lia|rewrite Hrep by lia; by rewrite bool_decide_false by lia].
    cbn [mbind outcome_bind]. destruct (Hf (k + 1) ltac:(lia)) as [-> Hr]. rewrite store_at_ok by lia. cbn [mbind outcome_bind].
    apply IH; [lia|lia|by rewrite length_insert|by apply Forall_insert|]. intros h j Hh Hjj.
    destruct (decide (h = k + 1 ∧ j = i / 2 ^ (k + 1))) as [[-> ->]|Hne].
    + rewrite list_lookup_insert_eq by lia. by rewrite bool_decide_true by lia.
    + pose proof (tree_node_lt h j d ltac:(lia) Hjj). rewrite list_lookup_insert_ne.
      2:{ intros E. apply Hne. apply tree_node_inj; lia. }
      rewrite Hrep by done. destruct (decide (h = k + 1)) as [->|].
      * rewrite bool_decide_false, bool_decide_true by lia. rewrite Hsame; [done|lia|lia|]. intros ->. by apply Hne.
      * by rewrite (bool_decide_ext (h ≤ k + 1) (h ≤ k)) by lia.
Qed.

(** A leaf gets another weight, and the loop to the root changes the sums by
    the same. *)
Lemma change_leaf d nw ws i x v f :
  tree_rep d nw ws → Forall (λ w, 0 ≤ w) ws → 0 ≤ i < 2 ^ d → ws !! Z.to_nat i = Some x → 0 ≤ v → total ws - x + v < 2 ^ 32 →
  (∀ y, x ≤ y ≤ total ws → f y = Some (y - x + v)) →
  ∃ nw1 nw', store_at nw (crush_calc_tree_node i) v = Ret nw1 ∧ climb (Z.to_nat d) (crush_calc_tree_node i) f nw1 = Ret (true, nw')
    ∧ tree_rep d nw' (<[Z.to_nat i := v]> ws).
Proof.
  intros [Hd Hn Hl Hu Hs] Hp Hi Hx Hv Ht Hf. rewrite calc_tree_node_leaf. set (ws' := <[Z.to_nat i := v]> ws).
  pose proof (total_lookup_le _ _ _ Hp Hx) as Hxr.
  pose proof (tree_node_lt 0 i d ltac:(lia) ltac:(rewrite Z.sub_0_r; lia)) as Hlt. rewrite store_at_ok by lia.
  destruct (climb_spec d ws ws' i f (Z.to_nat d) 0 (<[Z.to_nat (tree_node 0 i) := v]> nw)) as (nw' & Hc & Hn' & Hu' & Hs');
    [lia|lia|lia|lia|..|by rewrite length_insert|apply Forall_insert; [done|lia]| |].
  - intros h j Hh Hj Hne. unfold ws'. rewrite (block_insert _ _ _ x) by lia || done. by rewrite bool_decide_false.
  - intros h Hh. pose proof (Z.div_pos i (2 ^ h) ltac:(lia) (pow2_pos h ltac:(lia))) as Hj. unfold ws'. pose proof (block_range ws h (i / 2 ^ h) Hp) as Hr.
    assert (x ≤ block ws h (i / 2 ^ h)) as Hxb.
    { pose proof (block_insert ws i 0 x h (i / 2 ^ h) ltac:(lia) ltac:(lia) Hj Hx) as E. rewrite bool_decide_true in E by done.
      pose proof (block_range (<[Z.to_nat i := 0]> ws) h (i / 2 ^ h) ltac:(by apply Forall_insert)). lia. }
    rewrite (block_insert _ _ _ x) by lia || done. rewrite bool_decide_true by done. rewrite Hf by lia. split; [done|lia].
  - intros h j Hh Hj. destruct (decide (h = 0 ∧ j = i)) as [[-> ->]|Hne].
    + rewrite list_lookup_insert_eq by lia. rewrite bool_decide_true by lia. f_equal. symmetry. apply block_leaf; [lia|].
      apply list_lookup_insert_eq. by eapply lookup_lt_Some.
    + pose proof (tree_node_lt h j d ltac:(lia) Hj). rewrite list_lookup_insert_ne by (intros E; apply Hne; apply tree_node_inj; lia).
      rewrite Hs by done. case_bool_decide as Hb; [|done]. assert (h = 0) as -> by lia. unfold ws'. rewrite (block_insert _ _ _ x) by lia || done.
      rewrite bool_decide_false; [done|]. change (2 ^ 0) with 1. rewrite Z.div_1_r. intros ->. by apply Hne.
  - change (2 ^ 0) with 1 in Hc. rewrite Z.div_1_r in Hc. eexists _, nw'. split; [reflexivity|]. split; [done|].
    constructor; [lia|done| |done|done]. unfold ws'. by rewrite length_insert.
Qed.

(** A tree as the placement needs it. *)
Lemma tree_rep_ok d nw ws n :
  tree_rep d nw ws → d < 7 → Forall (λ w, 0 ≤ w) ws → 0 < total ws → (∀ i, n ≤ i → 0 ≤ i < 2 ^ d → ws !! Z.to_nat i = Some 0) →
  tree_ok (2 ^ (d + 1)) nw n.
Proof.
  intros [Hd Hn Hl Hu Hs] Hd7 Hp Ht Hz.
  assert (∀ h j, 0 ≤ h ≤ d → 0 ≤ j < 2 ^ (d - h) → node_weight nw h j = block ws h j) as Hw by (intros h j Hh Hj; unfold node_weight; by rewrite Hs).
  constructor; [|done|done| |].
  - exists d. split_and!; [lia|done|done|]. left. rewrite Hw by (rewrite ?Z.sub_diag; lia). by rewrite block_all.
  - intros h j Hh Hj Hlt. assert (h ≤ d ∧ j < 2 ^ (d - h)) as [Hhd Hjd].
    { unfold tree_node in Hlt. pose proof (pow2_pos h ltac:(lia)). assert (2 ^ h < 2 ^ (d + 1)) as Hpow by nia.
      apply Z.pow_lt_mono_r_iff in Hpow; [|lia|lia]. split; [lia|]. replace (d + 1) with (h + (d - h) + 1) in Hlt by lia.
      rewrite !Z.pow_add_r in Hlt by lia. change (2 ^ 1) with 2 in Hlt. nia. }
    assert (2 ^ (d - (h - 1)) = 2 * 2 ^ (d - h)) as E by (rewrite <-Z.pow_succ_r by lia; f_equal; lia).
    rewrite !Hw by lia. by apply block_split.
  - intros j Hj Hpos. destruct (decide (j < 2 ^ d)) as [Hlt|Hge].
    + rewrite Hw in Hpos by (rewrite ?Z.sub_0_r; lia). destruct (decide (j < n)) as [|Hjn]; [done|]. rewrite (block_leaf _ _ 0) in Hpos; [lia|done|].
      apply Hz; lia.
    + unfold node_weight in Hpos. rewrite lookup_ge_None_2 in Hpos; [done|]. unfold tree_node. change (2 ^ 0) with 1.
      rewrite Z.pow_add_r in Hn by lia. change (2 ^ 1) with 2 in Hn. lia.
Qed.

(** ** Depths *)

Lemma depth_loop_spec fuel t depth :
  0 ≤ t < 2 ^ Z.of_nat fuel → depth_loop (S fuel) t depth = Ret (depth + if bool_decide (t = 0) then 0 else Z.log2 t + 1).
Proof.
  revert t depth. induction fuel as [|fuel IH]; intros t depth Ht.
  - change (2 ^ Z.of_nat 0) with 1 in Ht. assert (t = 0) as -> by lia. cbn [depth_loop]. rewrite !bool_decide_true by done. f_equal. lia.
  - cbn [depth_loop]. case_bool_decide as H0; [f_equal; lia|]. rewrite <-Z.div2_spec. rewrite Nat2Z.inj_succ, Z.pow_succ_r in Ht by lia.
    pose proof (Z.div2_odd t) as Ho. assert (0 ≤ Z.b2z (Z.odd t) ≤ 1) by (destruct (Z.odd t); cbn; lia).
    specialize (IH (Z.div2 t) (depth + 1) ltac:(lia)). cbn [depth_loop] in IH. rewrite IH. f_equal. case_bool_decide as H1.
    + assert (t = 1) as -> by lia. cbn. lia.
    + rewrite (Z.div2_odd t) at 2. clear IH. destruct (Z.odd t); cbn [Z.b2z].
      * rewrite Z.log2_succ_double by lia. lia.
      * rewrite Z.add_0_r, Z.log2_double by lia. lia.
Qed.

Lemma calc_depth_spec size : 0 < size < 2 ^ 31 → calc_depth size = Ret (Z.log2_up size + 1).
Proof.
  intros Hs. unfold calc_depth. rewrite bool_decide_false by lia. rewrite depth_loop_spec by (change (Z.of_nat 31) with 31; lia). f_equal.
  destruct (decide (size = 1)) as [->|]; [done|]. rewrite bool_decide_false by lia. rewrite Z.log2_up_eqn by lia. rewrite <-Z.sub_1_r. lia.
Qed.

Lemma num_nodes_spec d : 0 ≤ d < 7 → num_nodes_of (d + 1) = Ret (2 ^ (d + 1)).
Proof.
  intros Hd. unfold num_nodes_of. rewrite bool_decide_false by lia. rewrite Z.shiftl_mul_pow2, Z.mul_1_l by lia. f_equal. unfold u8.
  apply Z.mod_small. split; [apply Z.pow_nonneg; lia|]. apply Z.pow_lt_mono_r; lia.
Qed.
