(* ===== verification/CrushBuilderFacts.v ===== *)
(** * Facts about building CRUSH maps

    What the functions of src/src/crush/builder.c do to the weights of
    buckets: a bucket [weighs] a list of weights, one for each item, when its
    own weight is their sum and its arrays are made from them. *)

From S2P Require Import Prelude CrushRules CrushTables CrushHash CrushMap CrushMapper CrushPerm CrushLn CrushBuckets CrushBuilder CrushTrees.

Import Crush Mapper Builder.

Abbreviation nonneg := (Forall (λ w, 0 ≤ w)).

(** ** Safe additions *)

Lemma unsafe_spec a b : 0 ≤ a → 0 ≤ b < 2 ^ 32 → crush_addition_is_unsafe a b = bool_decide (2 ^ 32 ≤ a + b).
Proof. intros Ha Hb. unfold crush_addition_is_unsafe. rewrite u32_small by lia. apply bool_decide_ext. lia. Qed.

Lemma add_checked_spec x y : 0 ≤ x → 0 ≤ y → x + y < 2 ^ 32 → add_checked x y = Some (y + x).
Proof.
  intros Hx Hy Hs. unfold add_checked. rewrite (u32_small x) by lia. rewrite unsafe_spec, bool_decide_false by lia.
  by rewrite u32_small by lia.
Qed.

(** ** Trees *)

Definition padded (d : Z) (ws : list Z) : list Z := ws ++ replicate (Z.to_nat (2 ^ d) - length ws) 0.

Lemma total_padded d ws : total (padded d ws) = total ws.
Proof. unfold padded. rewrite totals_app, total_zeros. lia. Qed.

Lemma nonneg_padded d ws : nonneg ws → nonneg (padded d ws).
Proof. intros. apply Forall_app_2; [done|]. by apply Forall_replicate. Qed.

Lemma lookup_padded d ws i : Z.of_nat (length ws) ≤ i < 2 ^ d → padded d ws !! Z.to_nat i = Some 0.
Proof. intros Hi. unfold padded. rewrite lookup_app_r by lia. apply lookup_replicate_2. lia. Qed.

Lemma padded_snoc d ws x : Z.of_nat (length ws) < 2 ^ d → <[length ws := x]> (padded d ws) = padded d (ws ++ [x]).
Proof.
  intros Hl. unfold padded. rewrite length_app. cbn [length]. replace (Z.to_nat (2 ^ d) - length ws)%nat with (S (Z.to_nat (2 ^ d) - (length ws + 1))) by lia.
  cbn [replicate]. rewrite insert_app_r_alt by lia. rewrite Nat.sub_diag. cbn. by rewrite <-app_assoc.
Qed.

Lemma padded_insert d ws i x : (i < length ws)%nat → <[i := x]> (padded d ws) = padded d (<[i := x]> ws).
Proof. intros Hi. unfold padded. rewrite insert_app_l by done. by rewrite length_insert. Qed.

Lemma tree_fill_spec d weights : ∀ ws nw,
  tree_rep d nw (padded d ws) → nonneg ws → nonneg weights → Z.of_nat (length (ws ++ weights)) ≤ 2 ^ d → total (ws ++ weights) < 2 ^ 32 →
  ∃ nw', tree_fill weights (Z.of_nat (length ws)) (d + 1) nw (total ws) = Ret (Some (nw', total (ws ++ weights)))
    ∧ tree_rep d nw' (padded d (ws ++ weights)).
Proof.
  induction weights as [|x weights IH]; intros ws nw Hrep Hp Hq Hl Ht; cbn [tree_fill].
  { rewrite app_nil_r in *. by exists nw. }
  apply Forall_cons in Hq as [Hx Hq]. pose proof (totals_nonneg _ Hp). pose proof (totals_nonneg _ Hq).
  rewrite length_app in Hl. rewrite totals_app in Ht. cbn [length total foldr] in *. fold (total weights) in *.
  rewrite add_checked_spec by lia. rewrite (u32_small x) by lia. replace (d + 1 - 1) with d by lia.
  destruct (change_leaf d nw (padded d ws) (Z.of_nat (length ws)) 0 x (add_checked x)) as (nw1 & nw2 & -> & Hc & Hrep2);
    [done|by apply nonneg_padded|lia|apply lookup_padded; lia|lia|rewrite total_padded; lia| |].
  { intros y Hy. rewrite total_padded in Hy. rewrite add_checked_spec by lia. f_equal. lia. }
  cbn [mbind outcome_bind]. rewrite Hc. cbn [mbind outcome_bind]. rewrite Nat2Z.id, padded_snoc in Hrep2 by lia.
  destruct (IH (ws ++ [x]) nw2) as (nw' & E & Hrep'); [done|by apply Forall_app_2; [|repeat constructor]|done|..].
  { rewrite !length_app. cbn [length]. lia. } { rewrite !totals_app. cbn. fold (total weights). lia. }
  exists nw'. rewrite <-app_assoc in *. cbn [app] in *. split; [|done]. rewrite <-E. f_equal; [rewrite length_app; cbn; lia|rewrite totals_app; cbn; lia].
Qed.

Lemma empty_tree d : 0 ≤ d < 30 → tree_rep d (replicate (Z.to_nat (2 ^ (d + 1))) 0) (padded d []).
Proof.
  intros Hd. pose proof (pow2_pos d ltac:(lia)). pose proof (pow2_pos (d + 1) ltac:(lia)). constructor; [done|rewrite length_replicate; lia| | |].
  - unfold padded. cbn. rewrite length_replicate. lia.
  - apply Forall_replicate. lia.
  - intros h j Hh Hj. pose proof (tree_node_lt h j d ltac:(lia) Hj). rewrite lookup_replicate_2 by lia. f_equal. unfold block, padded. cbn [app length].
    rewrite drop_replicate, take_replicate. by rewrite total_zeros.
Qed.

(** ** Buckets and the weights of their items *)

(** The sums of the first weights. *)
Definition running (ws sw : list Z) : Prop := length sw = length ws ∧ ∀ i, (i < length ws)%nat → sw !! i = Some (total (take (S i) ws)).

Definition weighs (b : crush_bucket) (ws : list Z) : Prop :=
  length ws = length (items b) ∧ nonneg ws ∧ weight b = total ws ∧ total ws < 2 ^ 32
  ∧ match alg b with
    | CRUSH_BUCKET_UNIFORM w => 0 ≤ w < 2 ^ 32 ∧ ws = replicate (length (items b)) w
    | CRUSH_BUCKET_LIST iw sw => iw = ws ∧ running ws sw
    | CRUSH_BUCKET_TREE n nw =>
        items b = [] ∧ nw = [] ∨ 0 < size b ≤ 64 ∧ let d := Z.log2_up (size b) in n = 2 ^ (d + 1) ∧ tree_rep d nw (padded d ws)
    | CRUSH_BUCKET_STRAW iw straws => iw = ws ∧ length straws = length ws
    | CRUSH_BUCKET_STRAW2 iw => iw = ws
    | UNKNOWN_ALG _ => False
    end.

Lemma log2_up_range n : 0 < n ≤ 64 → 0 ≤ Z.log2_up n < 7 ∧ n ≤ 2 ^ Z.log2_up n.
Proof.
  intros Hn. split; [split; [apply Z.log2_up_nonneg|]|].
  - pose proof (Z.log2_up_le_mono n 64 ltac:(lia)). change (Z.log2_up 64) with 6 in *. lia.
  - destruct (decide (n = 1)) as [->|]; [done|]. apply Z.log2_up_spec. lia.
Qed.

(** What the placement needs; a tree needs a weight, too. *)
Lemma weighs_ok b ws : weighs b ws → size b < 0xffff → (match alg b with CRUSH_BUCKET_TREE _ _ => 0 < total ws | _ => True end) → bucket_ok b.
Proof.
  intros (Hl & Hp & Hw & Ht & Ha) Hs Hpos. split; [done|]. intros Hsz. unfold alg_ok. destruct (alg b) as [w|iw sw|n nw|iw st|iw|]; [done|..|done].
  - destruct Ha as [-> [Hr _]]. split; lia.
  - destruct Ha as [[Hi _]|(Hb & -> & Hrep)]; [unfold size in Hsz; rewrite Hi in Hsz; cbn in Hsz; lia|].
    pose proof (log2_up_range _ Hb). eapply tree_rep_ok; [done|lia|by apply nonneg_padded|by rewrite total_padded|].
    intros i Hi Hlt. apply lookup_padded. unfold size in Hi. lia.
  - destruct Ha as [-> E]. lia.
  - by subst iw.
Qed.

(** ** Making buckets *)

Fixpoint prefix_sums (w : Z) (ws : list Z) : list Z :=
  match ws with [] => [] | x :: ws => (w + x) :: prefix_sums (w + x) ws end.

Lemma prefix_sums_running ws : running ws (prefix_sums 0 ws).
Proof.
  assert (∀ w, length (prefix_sums w ws) = length ws ∧ ∀ i, (i < length ws)%nat → prefix_sums w ws !! i = Some (w + total (take (S i) ws))) as H.
  { induction ws as [|x ws IH]; intros w; cbn; [split; [done|lia]|]. destruct (IH (w + x)) as [IHl IHi]. split; [by rewrite IHl|].
    intros [|i] Hi; cbn; [rewrite take_0; cbn; f_equal; lia|]. rewrite IHi by lia. f_equal. cbn. unfold total. lia. }
  apply H.
Qed.

Lemma list_sums_spec ws w sums :
  nonneg ws → 0 ≤ w → w + total ws < 2 ^ 31 → list_sums ws w sums = Ret (Some (w + total ws, sums ++ prefix_sums w ws)).
Proof.
  intros Hp. revert w sums. induction Hp as [|x ws Hx Hp IH]; intros w sums Hw Ht; cbn [list_sums prefix_sums].
  { rewrite app_nil_r. do 3 f_equal. cbn. lia. }
  cbn [total foldr] in Ht. fold (total ws) in Ht. pose proof (totals_nonneg _ Hp). rewrite !u32_small by lia. rewrite unsafe_spec, bool_decide_false by lia.
  unfold add_int. rewrite bool_decide_true by lia. cbn [mbind outcome_bind]. rewrite IH by lia. rewrite u32_small by lia. do 3 f_equal; [cbn; unfold total; lia|].
  by rewrite <-app_assoc.
Qed.

Lemma first_of_all (ws : list Z) n : length ws = n → first_of ws n = Ret ws.
Proof. intros <-. unfold first_of. destruct (decide _); [|lia]. by rewrite take_ge. Qed.

Lemma u32_weights ws : nonneg ws → total ws < 2 ^ 32 → u32 <$> ws = ws.
Proof.
  intros Hp Ht. transitivity (Datatypes.id <$> ws); [|apply list_fmap_id]. apply list_fmap_ext. intros i x Hx.
  pose proof (total_lookup_le _ _ _ Hp Hx). change (u32 x = x). apply u32_small. lia.
Qed.

Lemma sum_loop ws w : nonneg ws → 0 ≤ w → w + total ws < 2 ^ 32 → foldl (λ w x, u32 (w + x)) w ws = w + total ws.
Proof.
  intros Hp. revert w. induction Hp as [|x ws Hx Hp IH]; intros w Hw Ht; cbn; [lia|]. cbn in Ht. fold (total ws) in *.
  pose proof (totals_nonneg _ Hp). rewrite u32_small by lia. rewrite IH by lia. lia.
Qed.

Lemma total_replicate n w : total (replicate n w) = Z.of_nat n * w.
Proof. induction n as [|n IH]; cbn [replicate total foldr]; [done|]. unfold total in IH. rewrite IH. lia. Qed.

Lemma multiplication_safe a b : 0 ≤ a → 0 ≤ b → a * b < 2 ^ 32 → a = 0 ∨ b ≠ 0 → crush_multiplication_is_unsafe a b = false.
Proof.
  intros Ha Hb Hm Hz. unfold crush_multiplication_is_unsafe. case_bool_decide; [done|]. rewrite bool_decide_false by naive_solver.
  rewrite bool_decide_false; [done|]. assert (b ≠ 0) by naive_solver. assert (a ≤ 0xffffffff / b) by (apply Z.div_le_lower_bound; lia). lia.
Qed.

(** The arguments with which a bucket is made: trees have at most 64 items, the
    items of a uniform bucket have the same weight, which is not 0. *)
Definition make_args (a : algorithm) (items ws : list Z) : Prop :=
  length ws = length items ∧ nonneg ws ∧ total ws < 2 ^ 31
  ∧ match a with
    | UNIFORM => ∃ w, ws = replicate (length items) w ∧ 0 ≤ w ∧ (items = [] ∨ w ≠ 0)
    | TREE => (length items ≤ 64)%nat
    | _ => True
    end.

Definition same_alg (a : algorithm) (b : bucket_alg) : Prop :=
  match a, b with
  | UNIFORM, CRUSH_BUCKET_UNIFORM _ | LIST, CRUSH_BUCKET_LIST _ _ | TREE, CRUSH_BUCKET_TREE _ _
  | STRAW, CRUSH_BUCKET_STRAW _ _ | STRAW2, CRUSH_BUCKET_STRAW2 _ => True
  | _, _ => False
  end.

Section make.
Context (calc_straw : list Z → list Z) (Hstraw : ∀ ws, length (calc_straw ws) = length ws).

Lemma make_uniform_ok h t its w :
  0 ≤ w → Z.of_nat (length its) * w < 2 ^ 31 → its = [] ∨ w ≠ 0 → w < 2 ^ 31 →
  ∃ b, crush_make_uniform_bucket h t its w = Ret (Some b) ∧ items b = its ∧ type b = u16 t ∧ same_alg UNIFORM (alg b) ∧ weighs b (replicate (length its) w).
Proof.
  intros Hw Hm Hz Hlt. unfold crush_make_uniform_bucket. rewrite (u32_small w) by lia.
  rewrite multiplication_safe; [|lia|lia|lia|destruct Hz as [->|]; [by left|by right]].
  unfold mul_int. rewrite bool_decide_true by nia. cbn [mbind outcome_bind]. eexists. split; [reflexivity|]. split_and!; [done..|].
  unfold weighs. cbn [items alg weight]. rewrite length_replicate, total_replicate, u32_small by nia. split_and!; [done|by apply Forall_replicate|done|lia|lia|lia|done].
Qed.

Lemma make_tree_ok h t its ws :
  length ws = length its → nonneg ws → total ws < 2 ^ 31 → (length its ≤ 64)%nat →
  ∃ b, crush_make_tree_bucket h t its ws = Ret (Some b) ∧ items b = its ∧ type b = u16 t ∧ same_alg TREE (alg b) ∧ weighs b ws.
Proof.
  intros Hl Hp Ht H64. unfold crush_make_tree_bucket. case_bool_decide as H0.
  { assert (its = []) as -> by (apply length_zero_iff_nil; lia). apply length_zero_iff_nil in Hl as ->. eexists. split; [reflexivity|].
    split_and!; [done..|]. unfold weighs. cbn. split_and!; [done|constructor|done|done|]. by left. }
  rewrite calc_depth_spec by lia. cbn [mbind outcome_bind]. set (d := Z.log2_up _). destruct (log2_up_range (Z.of_nat (length its)) ltac:(lia)) as [Hd Hsz].
  fold d in Hd, Hsz. rewrite num_nodes_spec by done. cbn [mbind outcome_bind]. rewrite first_of_all by done. cbn [mbind outcome_bind].
  destruct (tree_fill_spec d ws [] (replicate (Z.to_nat (2 ^ (d + 1))) 0)) as (nw & E & Hrep); [apply empty_tree; lia|done|done|cbn [app]; lia|cbn [app]; lia|].
  cbn [app length total foldr] in E. change (Z.of_nat 0) with 0 in E. rewrite E. cbn [mbind outcome_bind app] in *.
  assert (2 ^ (d + 1) / 2 = tree_node d 0) as ->.
  { unfold tree_node. rewrite Z.pow_add_r by lia. change (2 ^ 1) with 2. rewrite Z.div_mul by lia. lia. }
  pose proof (tree_node_lt d 0 d ltac:(lia) ltac:(rewrite Z.sub_diag; lia)).
  rewrite (at_index_ok nw _ (total ws)); [|lia|rewrite (rep_sum _ _ _ Hrep) by (rewrite ?Z.sub_diag; lia); f_equal; rewrite block_all by apply (rep_leaves _ _ _ Hrep); apply total_padded].
  cbn [mbind outcome_bind assert_that]. rewrite bool_decide_true by done. cbn [mbind outcome_bind]. eexists. split; [reflexivity|]. split_and!; [done..|].
  unfold weighs. cbn [items alg weight]. split_and!; [done|done|done|lia|]. right. unfold size. cbn [items]. fold d. split; [lia|]. by split.
Qed.

Lemma make_bucket_ok a h t its ws :
  make_args a its ws →
  ∃ b, crush_make_bucket calc_straw a h t its (Some ws) = Ret (Some b) ∧ items b = its ∧ type b = u16 t ∧ same_alg a (alg b) ∧ weighs b ws.
Proof.
  intros (Hl & Hp & Ht & Ha). destruct a; cbn [crush_make_bucket].
  - destruct Ha as (w & -> & Hw & Hz). rewrite total_replicate in Ht. destruct (decide (its = [])) as [->|Hne].
    + cbn [mbind outcome_bind]. destruct (make_uniform_ok h t [] 0) as (b & H); [done..|by left|done|]. exists b. exact H.
    + destruct its as [|i its]; [done|]. cbn. apply make_uniform_ok; [done|lia|done|cbn [length] in Ht; nia].
  - cbn [mbind outcome_bind]. unfold crush_make_list_bucket. rewrite first_of_all by done. cbn [mbind outcome_bind]. rewrite list_sums_spec by lia || done.
    cbn [mbind outcome_bind]. eexists. split; [reflexivity|]. split_and!; [done..|]. unfold weighs. cbn [items alg weight].
    rewrite u32_weights, u32_small by (done || (pose proof (totals_nonneg _ Hp); lia)). split_and!; [done|done|lia|lia|done|]. apply prefix_sums_running.
  - cbn [mbind outcome_bind]. by apply make_tree_ok.
  - cbn [mbind outcome_bind]. unfold crush_make_straw_bucket. rewrite first_of_all by done. cbn [mbind outcome_bind]. rewrite sum_loop, u32_weights by (done || lia).
    eexists. split; [reflexivity|]. split_and!; [done..|]. unfold weighs. cbn [items alg weight]. split_and!; [done|done|lia|lia|done|]. by rewrite Hstraw.
  - cbn [mbind outcome_bind]. unfold crush_make_straw2_bucket. rewrite first_of_all by done. cbn [mbind outcome_bind]. rewrite sum_loop, u32_weights by (done || lia).
    eexists. split; [reflexivity|]. split_and!; [done..|]. unfold weighs. cbn [items alg weight]. split_and!; [done|done|lia|lia|done].
Qed.

End make.
