(* ===== verification/CrushBuilderItems.v ===== *)
(** * Items and their weights

    Adding, removing and reweighting items of buckets (src/src/crush/builder.c):
    what the functions do to a bucket that [weighs] a list of weights. *)

From S2P Require Import Prelude CrushRules CrushTables CrushHash CrushMap CrushMapper CrushPerm CrushLn CrushBuckets CrushBuilder CrushTrees CrushBuilderFacts.

Import Crush Mapper Builder.

Lemma index_of_Some b item i : index_of b item = Some i → 0 ≤ i < size b ∧ items b !! Z.to_nat i = Some item.
Proof.
  unfold index_of. intros ([n x] & Hf & ->)%fmap_Some. apply list_find_Some in Hf as (Hx & -> & _). pose proof (lookup_lt_Some _ _ _ Hx).
  unfold size. rewrite Nat2Z.id. split; [lia|done].
Qed.

Lemma index_of_None b item : index_of b item = None ↔ item ∉ items b.
Proof.
  unfold index_of. rewrite fmap_None, list_find_None. rewrite Forall_forall. split; [intros H Hin; by apply (H _ Hin)|intros H x Hx ->; done].
Qed.

Lemma weighs_lookup b ws i : weighs b ws → 0 ≤ i < size b → ∃ x, ws !! Z.to_nat i = Some x ∧ 0 ≤ x ≤ total ws.
Proof.
  intros (Hl & Hp & _) Hi. destruct (lookup_lt_is_Some_2 ws (Z.to_nat i)) as [x Hx]; [unfold size in Hi; lia|]. exists x. split; [done|].
  by eapply total_lookup_le.
Qed.

(** ** New weights *)

(** The loop over the sums of a list. *)
Lemma adjust_sums ws sw i x w :
  running ws sw → nonneg ws → total ws < 2 ^ 31 → ws !! Z.to_nat i = Some x → 0 ≤ i → 0 ≤ w → total ws - x + w < 2 ^ 31 →
  ∃ sw', foldM (λ sw j, v ← at_index sw j; store_at sw j (u32 (v + (w - x)))) sw (seqZ i (Z.of_nat (length ws) - i)) = Ret sw'
    ∧ running (<[Z.to_nat i := w]> ws) sw'.
Proof.
  intros [Hsl Hs] Hp Ht Hx Hi Hw Ht'. pose proof (lookup_lt_Some _ _ _ Hx) as Hlt. set (ws' := <[Z.to_nat i := w]> ws). set (n := Z.of_nat (length ws)) in *.
  assert (nonneg ws') as Hp' by (by apply Forall_insert).
  destruct (foldM_inv (λ sw j, v ← at_index sw j; store_at sw j (u32 (v + (w - x)))) (λ l sw', length sw' = length ws
      ∧ ∀ j, (j < length ws)%nat → sw' !! j = Some (total (take (S j) (if decide (j < Z.to_nat i + length l)%nat then ws' else ws))))
    (seqZ i (n - i)) sw) as (sw' & -> & Hl' & Hs').
  - split; [done|]. intros j Hj. rewrite Hs by done. rewrite Nat.add_0_r. case_decide; [|done]. unfold ws'. by rewrite take_insert_ge by lia.
  - intros l1 j l2 sw1 E [Hl1 Hs1]. assert (j = i + Z.of_nat (length l1) ∧ i ≤ j < n) as [-> Hj].
    { assert (seqZ i (n - i) !! length l1 = Some j) as Hk by (rewrite E; by apply list_lookup_middle). apply lookup_seqZ in Hk. lia. }
    set (k := Z.to_nat (i + Z.of_nat (length l1))). rewrite (at_index_ok sw1 _ (total (take (S k) ws))); [|lia|fold k; rewrite Hs1 by lia; by destruct (decide _); [lia|]].
    cbn [mbind outcome_bind]. rewrite store_at_ok by lia. eexists. split; [reflexivity|]. rewrite length_insert. split; [done|]. intros j Hjl.
    assert (total (take (S k) ws') = total (take (S k) ws) - x + w) as Hk.
    { unfold ws'. rewrite take_insert_lt by lia. apply total_insert. by rewrite lookup_take_lt by lia. }
    assert (0 ≤ total (take (S k) ws') < 2 ^ 32).
    { split; [by apply totals_nonneg, Forall_take|]. pose proof (total_take_le ws' (S k) Hp'). unfold ws' in *. rewrite (total_insert ws _ w x Hx) in *. lia. }
    fold k. rewrite length_app. cbn [length]. destruct (decide (j = k)) as [->|Hne].
    + rewrite list_lookup_insert_eq by lia. rewrite decide_True by lia. f_equal. rewrite Hk. rewrite u32_small; lia.
    + rewrite list_lookup_insert_ne by done. rewrite Hs1 by done. do 2 destruct (decide _); done || lia.
  - exists sw'. split; [done|]. unfold ws'. split; [by rewrite length_insert|]. rewrite length_insert. intros j Hj. rewrite Hs' by done.
    rewrite decide_True; [done|]. rewrite length_seqZ. lia.
Qed.

Section items.
Context (calc_straw : list Z → list Z) (Hstraw : ∀ ws, length (calc_straw ws) = length ws).

(** The item gets the weight, and the weight of the bucket changes by the
    number that is returned. *)
Lemma adjust_ok b ws item i x w :
  weighs b ws → index_of b item = Some i → ws !! Z.to_nat i = Some x → 0 ≤ w → total ws < 2 ^ 31 → total ws - x + w < 2 ^ 31 →
  (∀ v, alg b ≠ CRUSH_BUCKET_UNIFORM v) →
  ∃ b', crush_bucket_adjust_item_weight calc_straw b item w = Ret (w - x, b')
    ∧ id b' = id b ∧ type b' = type b ∧ items b' = items b ∧ weighs b' (<[Z.to_nat i := w]> ws)
    ∧ (∀ a, same_alg a (alg b) → same_alg a (alg b')).
Proof.
  intros (Hl & Hp & Hwt & Ht & Ha) Hi Hx Hw Hlt Hlt' Hu. destruct (index_of_Some _ _ _ Hi) as [Hir _]. pose proof (total_lookup_le _ _ _ Hp Hx) as Hxr.
  pose proof (total_insert ws _ w x Hx) as Hti. assert (nonneg (<[Z.to_nat i := w]> ws)) as Hp' by (by apply Forall_insert).
  assert (at_index ws i = Ret x) as Hat by (apply at_index_ok; [lia|done]). assert (s32 (w - x) = w - x) as Hd by (apply s32_small; lia).
  assert (u32 (weight b + (w - x)) = total (<[Z.to_nat i := w]> ws)) as Hb by (rewrite u32_small; [lia|pose proof (totals_nonneg _ Hp'); lia]).
  unfold crush_bucket_adjust_item_weight. destruct (alg b) as [v|iw sw|n nw|iw st|iw|] eqn:Halg; [by destruct (Hu v)|..|done].
  - destruct Ha as [-> Hr]. unfold crush_adjust_list_bucket_item_weight. rewrite Hi, Hat. cbn [mbind outcome_bind]. rewrite Hd, store_at_ok by (unfold size in Hir; lia).
    cbn [mbind outcome_bind]. destruct (adjust_sums ws sw i x w Hr Hp Hlt Hx) as (sw' & E & Hr'); [lia..|]. unfold size. rewrite <-Hl, E. cbn [mbind outcome_bind].
    eexists. split; [reflexivity|]. split_and!; [done..| |by intros []]. unfold weighs. cbn [with_weight items alg weight]. rewrite length_insert, (u32_small w) by lia.
    split; [done|]. split; [done|]. split; [done|]. split; [lia|]. by split.
  - destruct Ha as [[Hnil _]|(Hs & -> & Hrep)]; [unfold size in Hir; rewrite Hnil in Hir; cbn in Hir; lia|].
    unfold crush_adjust_tree_bucket_item_weight. rewrite calc_depth_spec by lia. cbn [mbind outcome_bind]. rewrite Hi.
    set (d := Z.log2_up (size b)) in *. destruct (log2_up_range (size b) Hs) as [Hdr Hsz]. fold d in Hdr, Hsz.
    assert (padded d ws !! Z.to_nat i = Some x) as Hpx by (unfold padded; by rewrite lookup_app_l by (by eapply lookup_lt_Some)).
    rewrite calc_tree_node_leaf. pose proof (tree_node_lt 0 i d ltac:(lia) ltac:(rewrite Z.sub_0_r; lia)).
    rewrite (at_index_ok nw _ x); [|lia|rewrite (rep_sum _ _ _ Hrep) by (rewrite ?Z.sub_0_r; lia); f_equal; by apply block_leaf; [lia|]].
    cbn [mbind outcome_bind]. rewrite <-calc_tree_node_leaf, Hd, (u32_small w) by lia. replace (d + 1 - 1) with d by lia.
    destruct (change_leaf d nw (padded d ws) i x w (λ v, Some (u32 (v + (w - x))))) as (nw1 & nw2 & -> & E & Hrep');
      [done|by apply nonneg_padded|lia|done|done|rewrite total_padded; lia| |].
    { intros y Hy. rewrite total_padded in Hy. f_equal. rewrite u32_small; lia. }
    cbn [mbind outcome_bind]. rewrite E. cbn [mbind outcome_bind]. eexists. split; [reflexivity|]. split_and!; [done..| |by intros []].
    unfold weighs. cbn [with_weight items alg weight]. rewrite length_insert. split_and!; [done|done|done|lia|]. right. split; [done|]. split; [done|].
    rewrite padded_insert in Hrep' by (by eapply lookup_lt_Some). exact Hrep'.
  - destruct Ha as [-> Hs]. unfold crush_adjust_straw_bucket_item_weight. rewrite Hi, Hat. cbn [mbind outcome_bind]. rewrite Hd, store_at_ok by (unfold size in Hir; lia).
    cbn [mbind outcome_bind]. eexists. split; [reflexivity|]. split_and!; [done..| |by intros []]. unfold weighs. cbn [with_weight items alg weight].
    rewrite length_insert, (u32_small w) by lia. split_and!; [done|done|done|lia|done|]. by rewrite Hstraw, ?length_insert.
  - subst iw. unfold crush_adjust_straw2_bucket_item_weight. rewrite Hi, Hat. cbn [mbind outcome_bind]. rewrite Hd, store_at_ok by (unfold size in Hir; lia).
    cbn [mbind outcome_bind]. eexists. split; [reflexivity|]. split_and!; [done..| |by intros []]. unfold weighs. cbn [with_weight items alg weight].
    rewrite length_insert, (u32_small w) by lia. split_and!; [done|done|done|lia|done].
Qed.

(** All items of a uniform bucket get the weight, whichever is named. *)
Lemma adjust_uniform_ok b ws v item w :
  alg b = CRUSH_BUCKET_UNIFORM v → weighs b ws → total ws < 2 ^ 31 → 0 ≤ w < 2 ^ 31 → total (replicate (length (items b)) w) < 2 ^ 31 →
  ∃ b', crush_bucket_adjust_item_weight calc_straw b item w = Ret (total (replicate (length (items b)) w) - total ws, b')
    ∧ id b' = id b ∧ type b' = type b ∧ items b' = items b ∧ weighs b' (replicate (length (items b)) w) ∧ same_alg UNIFORM (alg b').
Proof.
  intros Halg (Hl & Hp & Hwt & _ & Ha) Ht Hw Ht'. rewrite Halg in Ha. destruct Ha as [Hv ->]. unfold crush_bucket_adjust_item_weight, crush_adjust_uniform_bucket_item_weight.
  rewrite Halg. rewrite !total_replicate in *. unfold size. set (n := length (items b)) in *. rewrite (u32_small w) by lia.
  assert (0 ≤ Z.of_nat n * v ∧ 0 ≤ Z.of_nat n * w) as [Hvn Hwn] by nia. eexists. replace ((w - v) * Z.of_nat n) with (Z.of_nat n * w - Z.of_nat n * v) by ring.
  rewrite (Z.mul_comm w), s32_small by lia. split; [reflexivity|].
  split_and!; [done..| |done]. unfold weighs. cbn [with_weight items alg weight]. fold n. rewrite total_replicate, length_replicate.
  split; [done|]. split; [apply Forall_replicate; lia|]. split; [rewrite u32_small by lia; done|]. split; [lia|]. split; [lia|done].
Qed.

(** ** New items *)

(** A tree bucket can take another item when the tree is deep enough for
    it, or has at most one. *)
Definition room (b : crush_bucket) (w : Z) : Prop :=
  match alg b with
  | CRUSH_BUCKET_UNIFORM v => w = v
  | CRUSH_BUCKET_TREE _ _ => size b + 1 ≤ 64 ∧ (size b ≤ 1 ∨ Z.log2_up (size b + 1) = Z.log2_up (size b))
  | _ => True
  end.

Context (fresh : Z → Z) (Hfresh : ∀ i, 0 ≤ fresh i < 2 ^ 32).

(** The first and the second item of a tree. *)
Lemma first_leaf w a : 0 ≤ w < 2 ^ 32 → 0 ≤ a < 2 ^ 32 → tree_rep 0 [a; w] (padded 0 [w]).
Proof.
  intros Hw Ha. constructor; [lia|done|done|rewrite !Forall_cons, Forall_nil; lia|]. intros h j Hh Hj. assert (h = 0 ∧ j = 0) as [-> ->].
  { assert (h = 0) as -> by lia. split; [done|]. change (2 ^ (0 - 0)) with 1 in Hj. lia. }
  change (Some w = Some (w + 0)). f_equal. lia.
Qed.

Lemma second_leaf v w a : 0 ≤ v → 0 ≤ w → v + w < 2 ^ 32 → 0 ≤ a < 2 ^ 32 → tree_rep 1 [a; v; v + w; w] (padded 1 [v; w]).
Proof.
  intros Hv Hw Hs Ha. constructor; [lia|done|done|rewrite !Forall_cons, Forall_nil; lia|]. intros h j Hh Hj.
  assert (h = 0 ∧ j = 0 ∨ h = 0 ∧ j = 1 ∨ h = 1 ∧ j = 0) as [[-> ->]|[[-> ->]|[-> ->]]].
  { assert (h = 0 ∨ h = 1) as [-> | ->] by lia; [change (2 ^ (1 - 0)) with 2 in Hj|change (2 ^ (1 - 1)) with 1 in Hj]; lia. }
  - change (Some v = Some (v + 0)). f_equal. lia.
  - change (Some w = Some (w + 0)). f_equal. lia.
  - change (Some (v + w) = Some (v + (w + 0))). f_equal. lia.
Qed.

Lemma tree_rep_two nw ws v : tree_rep 0 nw (padded 0 ws) → ws = [v] → ∃ a, nw = [a; v] ∧ 0 ≤ a < 2 ^ 32.
Proof.
  intros [_ Hn _ Hu Hs] ->. destruct nw as [|a [|v' [|]]]; cbn in Hn; try lia. specialize (Hs 0 0 ltac:(lia) ltac:(cbn; lia)). change (Some v' = Some (v + 0)) in Hs.
  injection Hs as ->. exists a. apply Forall_cons in Hu as [Ha _]. split; [|done]. do 2 f_equal. lia.
Qed.

Lemma add_tree_ok b n nw ws item w :
  alg b = CRUSH_BUCKET_TREE n nw → weighs b ws → 0 ≤ w → total ws + w < 2 ^ 31 → room b w →
  ∃ b', crush_add_tree_bucket_item fresh b nw item w = Ret (0, b')
    ∧ id b' = id b ∧ type b' = type b ∧ items b' = items b ++ [item] ∧ weighs b' (ws ++ [w]) ∧ same_alg TREE (alg b').
Proof.
  intros Halg (Hl & Hp & Hwt & Ht & Ha) Hw Hlt Hroom. unfold room in Hroom. rewrite Halg in Ha, Hroom. destruct Hroom as [H64 Hgrow].
  pose proof (totals_nonneg _ Hp) as Hnn. assert (0 ≤ size b) by (unfold size; lia). unfold crush_add_tree_bucket_item. rewrite calc_depth_spec by lia. cbn [mbind outcome_bind].
  destruct (log2_up_range (size b + 1) ltac:(lia)) as [Hd Hsz]. set (d := Z.log2_up (size b + 1)) in *. rewrite num_nodes_spec by done. cbn [mbind outcome_bind].
  replace (size b + 1 - 1) with (size b) by lia. rewrite (u32_small w) by lia.
  assert (∃ nw1 nw2 nw3, store_at (resize_nodes fresh nw (2 ^ (d + 1))) (crush_calc_tree_node (size b)) w = Ret nw1
    ∧ (if bool_decide (2 ≤ d + 1 ∧ crush_calc_tree_node (size b) - 1 = 2 ^ (d + 1) / 2) then v ← at_index nw1 (2 ^ (d + 1) / 2 / 2); store_at nw1 (2 ^ (d + 1) / 2) v else Ret nw1) = Ret nw2
    ∧ climb (Z.to_nat (d + 1 - 1)) (crush_calc_tree_node (size b)) (add_checked w) nw2 = Ret (true, nw3) ∧ tree_rep d nw3 (padded d (ws ++ [w]))) as (nw1 & nw2 & nw3 & -> & E2 & E3 & Hrep).
  { unfold size in *. destruct (decide (length (items b) = 0)%nat) as [H0|H0]; [|destruct (decide (length (items b) = 1)%nat) as [H1|H1]].
    - assert (d = 0) as -> by (unfold d; by rewrite H0). rewrite H0 in Hl. apply length_zero_iff_nil in Hl as ->. destruct Ha as [[_ ->]|[Hs _]]; [|lia].
      rewrite H0. eexists _, _, _. split; [reflexivity|]. split; [reflexivity|]. split; [reflexivity|]. cbn. apply first_leaf; [lia|apply Hfresh].
    - assert (d = 1) as -> by (unfold d; by rewrite H1). destruct ws as [|v [|]]; cbn in Hl; try lia. destruct Ha as [[Hnil _]|(_ & _ & Hrep)]; [by rewrite Hnil in H1|].
      rewrite H1 in Hrep. change (Z.log2_up (Z.of_nat 1)) with 0 in Hrep. destruct (tree_rep_two _ _ v Hrep eq_refl) as (a & -> & Hav). rewrite H1.
      cbn [total foldr] in Hlt. apply Forall_cons in Hp as [Hv _]. eexists _, _, _. split; [reflexivity|]. split; [reflexivity|].
      split; [|apply (second_leaf v w a); [done|done|lia|done]]. change (match add_checked w v with None => Ret (false, [a; v; v; w]) | Some y => Ret (true, [a; v; y; w]) end = Ret (true, [a; v; v + w; w])).
      by rewrite add_checked_spec by lia.
    - destruct Hgrow as [Hgrow|Hgrow]; [lia|]. destruct Ha as [[Hnil _]|(Hs & -> & Hrep)]; [by rewrite Hnil in H0|]. rewrite <-Hgrow in Hrep. fold d in Hrep, Hgrow.
      assert (2 ^ (d - 1) < Z.of_nat (length (items b)) ∧ 0 < d) as [Hpred Hd0].
      { rewrite Hgrow. pose proof (Z.log2_up_spec (Z.of_nat (length (items b))) ltac:(lia)) as Hspec. rewrite <-Z.sub_1_r in Hspec. split; [lia|]. apply Z.log2_up_pos. lia. }
      rewrite <-Hl in *. destruct (change_leaf d nw (padded d ws) (Z.of_nat (length ws)) 0 w (add_checked w)) as (nw1 & nw2 & H2 & H3 & Hrep');
        [done|by apply nonneg_padded|lia|apply lookup_padded; lia|lia|rewrite total_padded; lia|intros y Hy; rewrite total_padded in Hy; rewrite add_checked_spec by lia; f_equal; lia|].
      rewrite Nat2Z.id, padded_snoc in Hrep' by lia. exists nw1, nw1, nw2. pose proof (rep_nodes _ _ _ Hrep) as Hn. split_and!; [| |by replace (d + 1 - 1) with d by lia|done].
      + unfold resize_nodes. rewrite bool_decide_true by lia. rewrite take_ge by lia. done.
      + rewrite bool_decide_false; [done|]. intros [_ E]. rewrite calc_tree_node_leaf in E. unfold tree_node in E. change (2 ^ 0) with 1 in E.
        rewrite Z.pow_add_r in E by lia. change (2 ^ 1) with 2 in E. rewrite Z.div_mul in E by lia. rewrite (pow2_pred d) in E by lia. lia. }
  cbn [mbind outcome_bind]. rewrite E2. cbn [mbind outcome_bind]. rewrite E3. cbn [mbind outcome_bind negb orb].
  rewrite unsafe_spec, bool_decide_false by lia. eexists. split; [reflexivity|]. split_and!; [done..| |done]. unfold weighs. cbn [grown items alg weight].
  rewrite !length_app, totals_app, u32_small by lia. cbn [total foldr length]. split_and!; [lia|by apply Forall_app_2; [|repeat constructor]|lia|lia|]. right.
  unfold size. cbn [items grown]. rewrite length_app. cbn [length]. unfold size in *. replace (Z.of_nat (length (items b) + 1)) with (Z.of_nat (length (items b)) + 1) by lia.
  fold d. by split; [lia|].
Qed.

Lemma put_last_all b (l : list Z) v : length l = length (items b) → put_last b l v = l ++ [v].
Proof. intros E. unfold put_last. by rewrite take_ge by lia. Qed.

Lemma running_snoc ws sw w : running ws sw → running (ws ++ [w]) (sw ++ [total ws + w]).
Proof.
  intros [Hl Hs]. split; [rewrite !length_app, Hl; done|]. rewrite length_app. cbn [length]. intros i Hi. destruct (decide (i < length ws)%nat).
  - rewrite lookup_app_l by lia. rewrite Hs by done. by rewrite take_app_le by lia.
  - assert (i = length ws) as -> by lia. rewrite <-Hl at 1. rewrite list_lookup_middle by done. rewrite take_ge by (rewrite length_app; cbn; lia).
    rewrite totals_app. cbn. do 2 f_equal. lia.
Qed.

(** The item is the last one, with its weight. *)
Lemma add_ok b ws item w :
  weighs b ws → 0 ≤ w → total ws + w < 2 ^ 31 → room b w →
  ∃ b', crush_bucket_add_item calc_straw fresh b item w = Ret (0, b')
    ∧ id b' = id b ∧ type b' = type b ∧ items b' = items b ++ [item] ∧ weighs b' (ws ++ [w])
    ∧ (∀ a, same_alg a (alg b) → same_alg a (alg b')).
Proof.
  intros Hweighs Hw Hlt Hroom. pose proof Hweighs as (Hl & Hp & Hwt & Ht & Ha). pose proof (totals_nonneg _ Hp) as Hnn.
  assert (crush_addition_is_unsafe (weight b) (u32 w) = false) as Hsafe by (rewrite (u32_small w), unsafe_spec, bool_decide_false by lia; done).
  assert (nonneg (ws ++ [w])) as Hp' by (apply Forall_app_2; [done|by repeat constructor]).
  assert (∀ a, u32 (weight b + w) = total (ws ++ [w]) ∧ total (ws ++ [w]) < 2 ^ 32 ∧ length (ws ++ [w]) = length (items (grown b item w a))) as Hg.
  { intros a. rewrite totals_app. cbn [grown items total foldr]. rewrite !length_app, u32_small by lia. cbn. lia. }
  unfold crush_bucket_add_item, room in *. destruct (alg b) as [v|iw sw|n nw|iw st|iw|] eqn:Halg; [..|done].
  - destruct Ha as [Hv ->]. subst w. unfold crush_add_uniform_bucket_item. rewrite bool_decide_false by (rewrite u32_small by lia; tauto). rewrite Hsafe.
    eexists. split; [reflexivity|]. split_and!; [done..| |by intros []]. destruct (Hg (CRUSH_BUCKET_UNIFORM v)) as (H1 & H2 & H3). do 4 (split; [done|]). split; [done|].
    cbn [grown items]. rewrite length_app. cbn. by rewrite replicate_add.
  - destruct Ha as [-> Hr]. unfold crush_add_list_bucket_item. rewrite (u32_small w) by lia.
    assert ((if bool_decide (1 < size b + 1) then last ← at_index sw (size b - 1); Ret (if crush_addition_is_unsafe last w then None else Some (u32 (last + w))) else Ret (Some w))
      = Ret (Some (total ws + w))) as E.
    { unfold size. case_bool_decide as Hz.
      - rewrite (at_index_ok sw _ (total ws)); [|lia|rewrite (proj2 Hr) by lia; by rewrite take_ge by lia]. cbn [mbind outcome_bind].
        rewrite unsafe_spec, bool_decide_false by lia. by rewrite u32_small by lia.
      - destruct ws; [done|cbn in Hl; lia]. }
    rewrite E. cbn [mbind outcome_bind]. rewrite !put_last_all by (destruct Hr; lia). eexists. split; [reflexivity|]. split_and!; [done..| |by intros []].
    destruct (Hg (CRUSH_BUCKET_LIST (ws ++ [w]) (sw ++ [total ws + w]))) as (H1 & H2 & H3). do 4 (split; [done|]). split; [done|]. by apply running_snoc.
  - destruct (add_tree_ok b n nw ws item w Halg Hweighs Hw Hlt) as (b' & H); [unfold room; by rewrite Halg|]. exists b'. destruct H as (? & ? & ? & ? & ? & ?). split_and!; [done..|]. by intros [].
  - destruct Ha as [-> Hs]. unfold crush_add_straw_bucket_item. rewrite Hsafe, (u32_small w), put_last_all by lia. eexists. split; [reflexivity|]. split_and!; [done..| |by intros []].
    destruct (Hg (CRUSH_BUCKET_STRAW (ws ++ [w]) (calc_straw (ws ++ [w])))) as (H1 & H2 & H3). do 4 (split; [done|]). by split; [|rewrite Hstraw].
  - subst iw. unfold crush_add_straw2_bucket_item. rewrite Hsafe, (u32_small w), put_last_all by lia. eexists. split; [reflexivity|]. split_and!; [done..| |by intros []].
    destruct (Hg (CRUSH_BUCKET_STRAW2 (ws ++ [w]))) as (H1 & H2 & H3). by do 4 (split; [done|]).
Qed.

(** ** Items that are removed *)

Lemma shift_left_spec (l : list Z) i n :
  0 ≤ i ≤ n → n < Z.of_nat (length l) → ∃ l', shift_left l i n = Ret l' ∧ take (Z.to_nat n) l' = take (Z.to_nat n) (delete (Z.to_nat i) l) ∧ length l' = length l.
Proof.
  intros Hi Hn. unfold shift_left. set (body := λ l j, _).
  destruct (foldM_inv body (λ k l', length l' = length l ∧ ∀ m, l' !! m = if decide (Z.to_nat i ≤ m < Z.to_nat i + length k)%nat then l !! S m else l !! m)
    (seqZ i (n - i)) l) as (l' & -> & Hl' & Hm).
  - split; [done|]. intros m. rewrite decide_False; [done|]. cbn. lia.
  - intros k j k2 l1 E [Hl1 Hm1]. assert (j = i + Z.of_nat (length k) ∧ i ≤ j < n) as [-> Hj].
    { assert (seqZ i (n - i) !! length k = Some j) as Hk by (rewrite E; by apply list_lookup_middle). apply lookup_seqZ in Hk. lia. }
    unfold body. destruct (at_index_lt l1 (i + Z.of_nat (length k) + 1)) as (v & Hv & ->); [lia|]. cbn [mbind outcome_bind]. rewrite store_at_ok by lia.
    eexists. split; [reflexivity|]. rewrite length_insert, length_app. split; [done|]. intros m. cbn [length].
    rewrite Hm1 in Hv. rewrite decide_False in Hv by lia. destruct (decide (m = Z.to_nat (i + Z.of_nat (length k)))) as [->|Hne].
    + rewrite list_lookup_insert_eq by lia. rewrite decide_True by lia. rewrite <-Hv. f_equal. lia.
    + rewrite list_lookup_insert_ne by done. rewrite Hm1. do 2 destruct (decide _); done || lia.
  - exists l'. split; [done|]. split; [|done]. apply list_eq. intros m. destruct (decide (m < Z.to_nat n)%nat) as [Hlt|Hge].
    + rewrite !lookup_take_lt by done. rewrite Hm, length_seqZ. destruct (decide (m < Z.to_nat i)%nat).
      * rewrite decide_False by lia. by rewrite list_lookup_delete_lt.
      * rewrite decide_True by lia. by rewrite list_lookup_delete_ge by lia.
    + by rewrite !lookup_take_ge by lia.
Qed.

End items.
