(* ===== verification/CrushBuilderMap.v ===== *)
(** * Buckets put into a map

    [crush_add_bucket] and [crush_finalize] of src/src/crush/builder.c,
    [subtree_contains] of src/src/crush/CrushWrapper.cc, and the
    invariant of maps that are built with them. *)

From S2P Require Import Prelude CrushRules CrushTables CrushHash CrushMap CrushMapper CrushPerm CrushLn CrushBuckets CrushPlacement CrushRule CrushBuilder CrushTrees CrushBuilderFacts CrushBuilderItems.

Import Crush Mapper Builder.

(** ** The array of buckets *)

Lemma grow_buckets_spec fuel bs pos bs' :
  grow_buckets fuel bs pos = Ret bs' → Z.of_nat (length bs) < 2 ^ 31 → ∃ n, bs' = bs ++ replicate n None ∧ pos < Z.of_nat (length bs') < 2 ^ 31.
Proof.
  revert bs. induction fuel as [|fuel IH]; intros bs; [done|]. cbn [grow_buckets]. case_bool_decide as Hp.
  { intros [= <-] Hb. exists O. cbn. rewrite app_nil_r. done. }
  unfold mul_int. destruct (bool_decide (Z.of_nat (length bs) ≠ 0)); [case_bool_decide as Hm; [|done]|]; cbn [mbind outcome_bind]; intros H Hb.
  all: apply IH in H as (n & -> & Hn); [|rewrite length_app, length_replicate; lia].
  all: eexists; split; [rewrite <-app_assoc, <-replicate_add; reflexivity|]; exact Hn.
Qed.

Lemma grow_ends k bs pos :
  0 ≤ pos < 2 ^ 30 → 0 < Z.of_nat (length bs) → pos < Z.of_nat (length bs) * 2 ^ Z.of_nat k → ∃ bs', grow_buckets (S k) bs pos = Ret bs'.
Proof.
  intros Hp. revert bs. induction k as [|k IH]; intros bs Hb Hk; cbn [grow_buckets]; (case_bool_decide as Hlt; [by eexists|]).
  { change (2 ^ Z.of_nat 0) with 1 in Hk. lia. }
  rewrite bool_decide_true by lia. unfold mul_int. rewrite bool_decide_true by lia. cbn [mbind outcome_bind]. apply IH; rewrite length_app, length_replicate; [lia|].
  rewrite Nat2Z.inj_succ, Z.pow_succ_r in Hk by lia. rewrite Nat2Z.inj_add, Z2Nat.id by lia. lia.
Qed.

Lemma grow_start k pos : 0 ≤ pos → grow_buckets (S k) [] pos = grow_buckets k (replicate 8 None) pos.
Proof. intros Hp. cbn [grow_buckets length]. by rewrite bool_decide_false by lia. Qed.

Lemma grow_total bs pos : 0 ≤ pos < 2 ^ 30 → ∃ bs', grow_buckets 32 bs pos = Ret bs'.
Proof.
  intros Hp. destruct bs as [|b bs].
  - rewrite grow_start by lia. apply (grow_ends 30); [done|done|]. rewrite length_replicate. lia.
  - apply (grow_ends 31); [done|cbn [length]; lia|]. cbn [length]. nia.
Qed.

Definition bucket_in (bs : list (option crush_bucket)) (item : Z) : option crush_bucket :=
  if bool_decide (item < 0) then mjoin (bs !! Z.to_nat (-1 - item)) else None.

Lemma bucket_of_in m item : bucket_of m item = bucket_in (buckets m) item.
Proof. done. Qed.

Lemma bucket_in_grown bs n item : bucket_in (bs ++ replicate n None) item = bucket_in bs item.
Proof.
  unfold bucket_in. case_bool_decide; [|done]. destruct (decide (Z.to_nat (-1 - item) < length bs)%nat).
  - by rewrite lookup_app_l.
  - rewrite lookup_app_r by lia. rewrite (lookup_ge_None_2 bs) by lia. destruct (replicate _ _ !! _) as [x|] eqn:E; [|done]. by apply lookup_replicate in E as [-> _].
Qed.

Lemma bucket_in_put bs pos b item :
  0 ≤ pos < Z.of_nat (length bs) → bucket_in (put_bucket bs pos b) item = if bool_decide (item = -1 - pos) then Some b else bucket_in bs item.
Proof.
  intros Hp. unfold bucket_in, put_bucket. case_bool_decide as Hi; case_bool_decide as Hb; try done; [| |lia].
  - subst item. replace (-1 - (-1 - pos)) with pos by lia. by rewrite list_lookup_insert_eq by lia.
  - by rewrite list_lookup_insert_ne by lia.
Qed.

Lemma next_id_free m : max_buckets m < 2 ^ 31 →
  let id := crush_get_next_bucket_id m in id < 0 ∧ -1 - id ≤ max_buckets m.
Proof.
  intros Hm. unfold crush_get_next_bucket_id, max_buckets. destruct (list_find _ _) as [[pos x]|] eqn:E; [|lia].
  apply list_find_Some in E as (Hp & _). pose proof (lookup_lt_Some _ _ _ Hp). lia.
Qed.

#[local] Opaque grow_buckets.

(** What [crush_add_bucket] returns when it adds a bucket: the map has it under
    its number, and all others as before. *)
Lemma add_bucket_spec m id b id' m' :
  crush_add_bucket m id b = Ret (0, id', m') → max_buckets m < 2 ^ 31 → id ≤ 0 →
  let b' := mkBucket id' (type b) (hash b) (weight b) (items b) (alg b) in
  id' < 0 ∧ bucket_of m id' = None ∧ max_buckets m' < 2 ^ 31 ∧ (id ≠ 0 → id' = id)
  ∧ (∀ item, bucket_of m' item = if bool_decide (item = id') then Some b' else bucket_of m item)
  ∧ m' = with_buckets m (buckets m') (max_devices m).
Proof.
  intros H Hm Hid b'. unfold crush_add_bucket in H. set (i := if bool_decide (id = 0) then _ else id) in *. set (pos := -1 - i) in *.
  assert (i < 0) as Hi. { unfold i. case_bool_decide; [apply (next_id_free m Hm)|lia]. }
  assert (id ≠ 0 → i = id) as Hsame by (intros Hne; unfold i; by rewrite bool_decide_false). clearbody i.
  destruct (grow_buckets 32 (buckets m) pos) as [bs|] eqn:Hg; [|done]. cbn [mbind outcome_bind] in H. apply grow_buckets_spec in Hg as (n & -> & Hpos & Hlen); [|exact Hm].
  unfold at_index in H. rewrite bool_decide_false in H by lia. destruct (_ !! Z.to_nat pos) as [[old|]|] eqn:Hold; cbn [need mbind outcome_bind] in H; [discriminate H| |discriminate H].
  injection H as <- <-. fold pos in Hold. split; [done|]. assert (bucket_in (buckets m ++ replicate n None) i = None) as Hnone.
  { unfold bucket_in. rewrite bool_decide_true by done. unfold pos in Hold. by rewrite Hold. }
  rewrite bucket_in_grown in Hnone. split; [done|]. split; [unfold max_buckets, put_bucket; cbn; rewrite length_insert; lia|].
  split; [done|]. split; [|done]. intros item. rewrite !bucket_of_in. cbn [with_buckets buckets].
  rewrite bucket_in_put by lia. unfold pos. replace (-1 - (-1 - i)) with i by lia.
  destruct (bool_decide (item = i)); [reflexivity|]. apply bucket_in_grown.
Qed.

(** ** Maps that are built *)

(** A device, or a bucket that is there. *)
Definition known_item (m : crush_map) (i : Z) : Prop := 0 ≤ i < CRUSH_ITEM_UNDEF ∨ is_Some (bucket_of m i).

Definition is_tree (b : crush_bucket) : Prop := same_alg TREE (alg b).

(** A bucket as it should be, in a map whose other buckets have lower ranks
    where they are its items. *)
Record bucket_inv (m : crush_map) (rank : Z → nat) (item : Z) (b : crush_bucket) : Prop := {
  binv_id : id b = item;
  binv_type : 0 < type b;
  binv_size : size b < 0xffff;
  binv_weighs : ∃ ws, weighs b ws ∧ total ws < 2 ^ 31 ∧ (is_tree b → 0 < total ws);
  binv_items i : i ∈ items b → 0 ≤ i < CRUSH_ITEM_UNDEF ∨ is_Some (bucket_of m i) ∧ (rank i < rank item)%nat;
}.

Record map_inv (m : crush_map) (rank : Z → nat) : Prop := {
  minv_bucket item b : bucket_of m item = Some b → bucket_inv m rank item b;
  minv_max : max_buckets m < 2 ^ 31;
  minv_tunables : tunables_map_ok m;
}.

Lemma with_buckets_tunables m bs n : tunables_map_ok m → tunables_map_ok (with_buckets m bs n).
Proof. intros []. by constructor. Qed.

(** A new bucket has a higher rank than its items. *)
Definition rank_with (rank : Z → nat) (id : Z) (its : list Z) : Z → nat := λ i, if bool_decide (i = id) then S (max_list (rank <$> its)) else rank i.

Lemma max_list_ge (l : list nat) x : x ∈ l → (x ≤ max_list l)%nat.
Proof. induction 1; cbn; lia. Qed.

Lemma add_bucket_inv m rank id b id' m' :
  map_inv m rank → crush_add_bucket m id b = Ret (0, id', m') → id ≤ 0 → 0 < type b → size b < 0xffff →
  (∃ ws, weighs b ws ∧ total ws < 2 ^ 31 ∧ (is_tree b → 0 < total ws)) → (∀ i, i ∈ items b → known_item m i) →
  map_inv m' (rank_with rank id' (items b)).
Proof.
  intros Hm Hadd Hid Ht Hs Hw Hits. destruct (add_bucket_spec _ _ _ _ _ Hadd (minv_max _ _ Hm) Hid) as (Hneg & Hnone & Hmax & _ & Hb & E).
  assert (∀ i, is_Some (bucket_of m i) → i ≠ id') as Hdiff by (intros i Hi ->; rewrite Hnone in Hi; by destruct Hi).
  assert (∀ i, is_Some (bucket_of m i) → is_Some (bucket_of m' i)) as Hkeep. { intros i Hi. rewrite Hb. case_bool_decide; [by eexists|done]. }
  constructor; [|done|rewrite E; apply with_buckets_tunables, Hm]. intros item c. rewrite Hb. case_bool_decide as Heq.
  - intros [= <-]. subst item. constructor; [done|done|done|done|]. cbn [items]. intros i Hi. destruct (Hits i Hi) as [Hd|Hk]; [by left|]. right. split; [by apply Hkeep|].
    unfold rank_with. rewrite bool_decide_false by (by apply Hdiff). rewrite bool_decide_true by done. apply Nat.lt_succ_r, max_list_ge. apply list_elem_of_fmap. eauto.
  - intros Hc. destruct (minv_bucket _ _ Hm item c Hc) as [H1 H2 H3 H4 H5]. constructor; [done..|]. intros i Hi. destruct (H5 i Hi) as [Hd|[Hk Hr]]; [by left|]. right.
    split; [by apply Hkeep|]. unfold rank_with. by rewrite !bool_decide_false by (done || by apply Hdiff).
Qed.

(** A bucket is replaced by one with other items or weights, and the ranks by
    ones that are in order. *)
Lemma put_bucket_inv m rank rank' item b b' :
  map_inv m rank → bucket_of m item = Some b → id b' = id b → type b' = type b → size b' < 0xffff →
  (∃ ws, weighs b' ws ∧ total ws < 2 ^ 31 ∧ (is_tree b' → 0 < total ws)) →
  (∀ i, i ∈ items b' → i ∈ items b ∨ 0 ≤ i < CRUSH_ITEM_UNDEF ∨ is_Some (bucket_of m i) ∧ (rank' i < rank' item)%nat) →
  (∀ p i, child m p i → is_Some (bucket_of m i) → (rank i < rank p)%nat → (rank' i < rank' p)%nat) →
  map_inv (with_buckets m (put_bucket (buckets m) (-1 - item) b') (max_devices m)) rank'.
Proof.
  intros Hm Hb Hid Ht Hs Hw Hits Hord. assert (item < 0 ∧ 0 ≤ -1 - item < Z.of_nat (length (buckets m))) as [Hneg Hpos].
  { rewrite bucket_of_in in Hb. unfold bucket_in in Hb. case_bool_decide; [|done]. destruct (buckets m !! _) eqn:E; [|done]. apply lookup_lt_Some in E. lia. }
  set (m' := with_buckets _ _ _). assert (∀ i, bucket_of m' i = if bool_decide (i = item) then Some b' else bucket_of m i) as Hof.
  { intros i. rewrite bucket_of_in. unfold m'. cbn [with_buckets buckets]. rewrite bucket_in_put by done. by replace (-1 - (-1 - item)) with item by lia. }
  assert (∀ i, is_Some (bucket_of m i) → is_Some (bucket_of m' i)) as Hkeep. { intros i Hi. rewrite Hof. case_bool_decide; [by eexists|done]. }
  destruct (minv_bucket _ _ Hm item b Hb) as [H1 H2 H3 H4 H5].
  constructor; [|unfold max_buckets, m', put_bucket; cbn; rewrite length_insert; apply Hm|apply with_buckets_tunables, Hm].
  intros i c. rewrite Hof. case_bool_decide as Heq.
  - intros [= <-]. subst i. constructor; [congruence|by rewrite Ht|done|done|]. intros i Hi. destruct (Hits i Hi) as [Hold|[Hd|[Hk Hr]]]; [|by left|right; by auto].
    destruct (H5 i Hold) as [Hd|[Hk Hr]]; [by left|]. right. split; [by apply Hkeep|]. apply Hord; [by exists b|done|done].
  - intros Hc. destruct (minv_bucket _ _ Hm i c Hc) as [K1 K2 K3 K4 K5]. constructor; [done..|]. intros j Hj. destruct (K5 j Hj) as [Hd|[Hk Hr]]; [by left|]. right.
    split; [by apply Hkeep|]. apply Hord; [by exists c|done|done].
Qed.

(** ** Loops *)

Lemma get_bucket_of m i b : max_buckets m < 2 ^ 31 → bucket_of m i = Some b → get_bucket m i = Some b.
Proof.
  intros Hmax. unfold bucket_of, get_bucket. case_bool_decide as Hi; [|done]. intros Hb. destruct (buckets m !! _) as [ob|] eqn:E; [|done].
  pose proof (lookup_lt_Some _ _ _ E) as Hlt. unfold max_buckets in *. rewrite u32_small by lia. rewrite bool_decide_false by lia. by rewrite E.
Qed.

Lemma any_of_spec (test : Z → outcome bool) (P : Z → Prop) its :
  (∀ i, i ∈ its → ∃ r, test i = Ret r ∧ (r = true ↔ P i)) → ∃ r, any_of test its = Ret r ∧ (r = true ↔ ∃ i, i ∈ its ∧ P i).
Proof.
  induction its as [|i its IH]; intros Hall; cbn [any_of].
  { exists false. split; [done|]. split; [done|]. intros (i & Hi & _). by apply elem_of_nil in Hi. }
  destruct (Hall i) as (r & -> & Hr); [left|]. cbn [mbind outcome_bind]. destruct r.
  - exists true. split; [done|]. split; [|done]. intros _. exists i. split; [left|by apply Hr].
  - destruct IH as (r & -> & Hr'); [intros j Hj; apply Hall; by right|]. exists r. split; [done|]. rewrite Hr'. split.
    + intros (j & Hj & HP). exists j. split; [by right|done].
    + intros (j & [->|Hj]%elem_of_cons & HP); [by apply Hr in HP|by exists j].
Qed.

(** On a map without loops, with more stack than the rank says, the search
    answers whether the item is below the root. *)
Lemma subtree_contains_spec m rank root item fuel :
  map_inv m rank → known_item m root → (S (rank root) < fuel)%nat →
  ∃ r, subtree_contains fuel m root item = Ret r ∧ (r = true ↔ below m root item).
Proof.
  intros Hm. revert root. induction fuel as [|fuel IH]; intros root Hk Hf; [lia|]. cbn [subtree_contains].
  case_bool_decide as Heq; [exists true; split; [done|]; subst; by split; [reflexivity|]|].
  case_bool_decide as Hd.
  { exists false. split; [done|]. split; [done|]. intros Hb. apply (below_device m) in Hb; [|done]. by subst. }
  destruct Hk as [|[b Hb]]; [lia|]. rewrite (get_bucket_of _ _ _ (minv_max _ _ Hm) Hb).
  destruct (any_of_spec (λ i, subtree_contains fuel m i item) (λ i, below m i item) (items b)) as (r & -> & Hr).
  - intros i Hi. destruct (binv_items _ _ _ _ (minv_bucket _ _ Hm _ _ Hb) i Hi) as [Hdev|[Hk Hlt]].
    + destruct fuel as [|fuel']; [lia|]. cbn [subtree_contains]. rewrite (bool_decide_true (0 ≤ i)) by lia.
      case_bool_decide as E; [exists true; subst; by split; [|split; [reflexivity|]]|]. exists false. split; [done|]. split; [done|].
      intros Hb'. apply (below_device m) in Hb'; [|lia]. by subst.
    + apply IH; [by right|lia].
  - exists r. split; [done|]. rewrite Hr. split.
    + intros (i & Hi & Hbe). eapply rtc_l; [by exists b|done].
    + intros Hbe. inversion Hbe as [|? i ? (b' & Hb' & Hi) Hrest]; [done|]; subst. rewrite Hb in Hb'. injection Hb' as <-. by exists i.
Qed.

Lemma subtree_contains_fuel fuel m root item r :
  subtree_contains fuel m root item = Ret r → ∀ fuel', (fuel ≤ fuel')%nat → subtree_contains fuel' m root item = Ret r.
Proof.
  revert root r. induction fuel as [|fuel IH]; intros root r; [done|]. intros H fuel' Hle. destruct fuel' as [|fuel']; [lia|]. cbn [subtree_contains] in *.
  do 2 (case_bool_decide; [done|]). destruct (get_bucket m root) as [b|]; [|done]. revert H. generalize (items b). intros its.
  induction its as [|i its IHi]; cbn [any_of]; [done|]. destruct (subtree_contains fuel m i item) as [r'|] eqn:E; [|done].
  rewrite (IH _ _ E) by lia. cbn [mbind outcome_bind]. destruct r'; [done|exact IHi].
Qed.

(** What holds of a bucket that gets an item which does not contain it: all
    above it move up. *)
Definition raised (m : crush_map) (rank : Z → nat) (id item : Z) : Z → nat := λ x,
  match subtree_contains (S (S (rank x))) m x id with Ret true => (rank x + rank item + 1)%nat | _ => rank x end.

Lemma raised_item m rank id item fuel :
  map_inv m rank → known_item m id → known_item m item → subtree_contains fuel m item id = Ret false →
  (raised m rank id item item < raised m rank id item id)%nat.
Proof.
  intros Hm Hid Hitem Hno. unfold raised. cbn [subtree_contains]. rewrite (bool_decide_true (id = id)) by done.
  fold (subtree_contains (S (S (rank item))) m item id).
  destruct (subtree_contains_spec m rank item id (S (S (rank item))) Hm Hitem) as (r & E & _); [lia|].
  pose proof (subtree_contains_fuel _ _ _ _ _ E (S (S (rank item)) + fuel) ltac:(lia)) as E1.
  pose proof (subtree_contains_fuel _ _ _ _ _ Hno (S (S (rank item)) + fuel) ltac:(lia)) as E2. rewrite E1 in E2. injection E2 as ->.
  cbn [subtree_contains] in E. rewrite E. lia.
Qed.

Lemma raised_child m rank id item p i :
  map_inv m rank → child m p i → is_Some (bucket_of m i) → (rank i < rank p)%nat → (raised m rank id item i < raised m rank id item p)%nat.
Proof.
  intros Hm Hc Hi Hlt. pose proof Hc as (b & Hb & _). unfold raised.
  destruct (subtree_contains_spec m rank i id (S (S (rank i))) Hm) as (r & -> & Hr); [by right|lia|].
  destruct (subtree_contains_spec m rank p id (S (S (rank p))) Hm) as (r' & -> & Hr'); [right; by eexists|lia|].
  destruct r, r'; [lia| |lia|lia]. assert (false = true) as [=]. apply Hr'. eapply rtc_l; [exact Hc|by apply Hr].
Qed.

(** ** The last step *)

Lemma finalize_items its devices :
  0 ≤ devices ≤ CRUSH_ITEM_UNDEF → Forall (λ i, i < CRUSH_ITEM_UNDEF) its →
  ∃ devices', foldM (λ devices i, if bool_decide (devices ≤ i) then add_int i 1 else Ret devices) devices its = Ret devices'
    ∧ devices ≤ devices' ≤ CRUSH_ITEM_UNDEF ∧ Forall (λ i, i < devices') its.
Proof.
  intros Hd Hi. revert devices Hd. induction Hi as [|i its Hi _ IH]; intros devices Hd; cbn [foldM]; [exists devices; split_and!; [done|lia|lia|constructor]|].
  unfold CRUSH_ITEM_UNDEF in *. case_bool_decide as Hc.
  - assert (add_int i 1 = Ret (i + 1)) as -> by (unfold add_int; by rewrite bool_decide_true by lia). cbn [mbind outcome_bind]. destruct (IH (i + 1) ltac:(lia)) as (d & -> & Hr & Hall). exists d. split_and!; [done|lia|lia|].
    constructor; [lia|done].
  - cbn [mbind outcome_bind]. destruct (IH devices Hd) as (d & -> & Hr & Hall). exists d. split_and!; [done|lia|lia|]. constructor; [lia|done].
Qed.

Lemma finalize_spec m :
  (∀ pos b, buckets m !! pos = Some (Some b) → Forall (λ i, i < CRUSH_ITEM_UNDEF) (items b)) →
  ∃ devices, crush_finalize m = Ret (with_buckets m (buckets m) devices) ∧ 0 ≤ devices ≤ CRUSH_ITEM_UNDEF
    ∧ ∀ pos b, buckets m !! pos = Some (Some b) → Forall (λ i, i < devices) (items b).
Proof.
  intros Hb. unfold crush_finalize. match goal with |- context [foldM ?f _ _] => set (body := f) end.
  destruct (foldM_inv body (λ l d, 0 ≤ d ≤ CRUSH_ITEM_UNDEF ∧ ∀ b, Some b ∈ l → Forall (λ i, i < d) (items b)) (buckets m) 0) as (d & -> & Hd & Hall).
  - split; [done|]. intros b Hin. by apply elem_of_nil in Hin.
  - intros l1 ob l2 d E [Hd Hall]. destruct ob as [b|]; cbn [body].
    + destruct (finalize_items (items b) d Hd) as (d' & -> & Hr & Hi). { apply (Hb (length l1)). rewrite E. by apply list_lookup_middle. }
      exists d'. split; [done|]. split; [lia|]. intros c [Hc|Hc%list_elem_of_singleton]%elem_of_app; [|by injection Hc as ->].
      eapply Forall_impl; [by apply Hall|]. cbn. lia.
    + exists d. split; [done|]. split; [done|]. intros c [Hc|Hc%list_elem_of_singleton]%elem_of_app; [by apply Hall|done].
  - cbn [mbind outcome_bind]. exists d. split; [done|]. split; [done|]. intros pos b Hp. apply Hall. by eapply list_elem_of_lookup_2.
Qed.

Lemma map_inv_ok m rank : map_inv m rank → ∃ m', crush_finalize m = Ret m' ∧ map_ok m' rank ∧ tunables_map_ok m' ∧ buckets m' = buckets m.
Proof.
  intros Hm. assert (∀ pos b, buckets m !! pos = Some (Some b) → bucket_of m (-1 - Z.of_nat pos) = Some b) as Hat.
  { intros pos b Hp. unfold bucket_of. rewrite bool_decide_true by lia. replace (Z.to_nat (-1 - (-1 - Z.of_nat pos))) with pos by lia. by rewrite Hp. }
  destruct (finalize_spec m) as (devices & -> & Hd & Hall).
  { intros pos b Hp. apply Forall_forall. intros i Hi. destruct (binv_items _ _ _ _ (minv_bucket _ _ Hm _ _ (Hat _ _ Hp)) i Hi) as [|[[c Hc] _]]; [lia|].
    unfold bucket_of in Hc. case_bool_decide; [unfold CRUSH_ITEM_UNDEF; lia|done]. }
  eexists. split; [reflexivity|]. split; [|split; [by apply with_buckets_tunables, Hm|done]]. constructor; [| |done|apply Hm].
  - intros item b Hb. destruct (minv_bucket _ _ Hm item b Hb) as [H1 H2 H3 (ws & H4 & _ & H5) _]. split_and!; [done|done|]. eapply weighs_ok; [done|done|].
    unfold is_tree in H5. destruct (alg b); try done. by apply H5.
  - intros item b i Hb Hi. destruct (binv_items _ _ _ _ (minv_bucket _ _ Hm item b Hb) i Hi) as [Hdev|[[c Hc] Hr]]; [left|right; by exists c]. cbn [with_buckets max_devices].
    split; [lia|]. change (bucket_of m item = Some b) in Hb. unfold bucket_of in Hb. case_bool_decide; [|done]. destruct (buckets m !! _) as [[b'|]|] eqn:E; [|done..].
    injection Hb as ->. specialize (Hall _ _ E). rewrite Forall_forall in Hall. by apply Hall.
Qed.
