(* ===== verification/CrushBuilderCorrect.v ===== *)
(** * Building CRUSH maps: the theorems

    What src/src/crush/builder.c promises: buckets are lists of items with
    weights, whatever their algorithm, and the maps that are built from them
    are such that every placement ends. And where it breaks its promises. *)

From S2P Require Import Prelude CrushRules CrushTables CrushHash CrushMap CrushMapper CrushPerm CrushLn CrushBuckets CrushPlacement CrushRule CrushBuilder CrushTrees CrushBuilderFacts CrushBuilderItems CrushBuilderMap.

Import Crush Mapper Builder.

(** ** Buckets as lists of items with weights *)

Lemma item_weight_ok b ws i x :
  weighs b ws → total ws < 2 ^ 31 → size b < 2 ^ 32 → ws !! i = Some x → crush_get_bucket_item_weight b (Z.of_nat i) = Ret x.
Proof.
  intros (Hl & Hp & _ & _ & Ha) Ht Hs Hx. pose proof (lookup_lt_Some _ _ _ Hx) as Hi. pose proof (total_lookup_le _ _ _ Hp Hx) as Hr.
  unfold crush_get_bucket_item_weight. rewrite u32_small by (unfold size in Hs; lia). rewrite bool_decide_false by (unfold size; lia).
  assert (at_index ws (Z.of_nat i) = Ret x) as Hat by (apply at_index_ok; [lia|by rewrite Nat2Z.id]). destruct (alg b) as [v|iw sw|n nw|iw st|iw|]; [..|done].
  - destruct Ha as [_ ->]. apply lookup_replicate in Hx as [-> _]. by rewrite s32_small by lia.
  - destruct Ha as [-> _]. rewrite Hat. cbn. by rewrite s32_small by lia.
  - destruct Ha as [[Hnil _]|(Hsz & _ & Hrep)]; [rewrite Hnil in Hl; cbn in Hl; lia|]. set (d := Z.log2_up (size b)) in *. destruct (log2_up_range _ Hsz) as [Hd H2].
    fold d in Hd, H2. unfold size in *. rewrite calc_tree_node_leaf. pose proof (tree_node_lt 0 (Z.of_nat i) d ltac:(lia) ltac:(rewrite Z.sub_0_r; lia)).
    rewrite (at_index_ok nw _ x); [cbn; by rewrite s32_small by lia|lia|]. rewrite (rep_sum _ _ _ Hrep) by (rewrite ?Z.sub_0_r; lia). f_equal. apply block_leaf; [lia|].
    unfold padded. by rewrite Nat2Z.id, lookup_app_l by lia.
  - destruct Ha as [-> _]. rewrite Hat. cbn. by rewrite s32_small by lia.
  - subst iw. rewrite Hat. cbn. by rewrite s32_small by lia.
Qed.

(** The operations on a bucket, and on a list of items with weights. *)
Inductive bucket_op := AddItem (item w : Z) | AdjustWeight (item w : Z).

(** In a uniform bucket a new weight is that of all items, even when the item
    that is named is not there. *)
Definition abstract_op (a : algorithm) (l : list (Z * Z)) (op : bucket_op) : list (Z * Z) :=
  match op with
  | AddItem item w => l ++ [(item, w)]
  | AdjustWeight item w =>
      match a with
      | UNIFORM => (λ '(i, _), (i, w)) <$> l
      | _ => match list_find (λ x, x = item) l.*1 with Some (i, _) => <[i := (item, w)]> l | None => l end
      end
  end.

(** The arguments of an operation: the sum stays below 2^31, an item that is
    added to a uniform bucket has the weight of the others, a tree has at most
    64 items and gets no deeper by an item, except by the first two. *)
Definition op_args (a : algorithm) (l : list (Z * Z)) (op : bucket_op) : Prop :=
  total (abstract_op a l op).*2 < 2 ^ 31
  ∧ match op with
    | AddItem item w => 0 ≤ w
        ∧ match a with
          | UNIFORM => ∀ x, x ∈ l.*2 → x = w
          | TREE => let n := Z.of_nat (length l) in n + 1 ≤ 64 ∧ (n ≤ 1 ∨ Z.log2_up (n + 1) = Z.log2_up n)
          | _ => True
          end
    | AdjustWeight item w => 0 ≤ w
    end.

Fixpoint ops_args (a : algorithm) (l : list (Z * Z)) (ops : list bucket_op) : Prop :=
  match ops with [] => True | op :: ops => op_args a l op ∧ ops_args a (abstract_op a l op) ops end.

Section buckets.
Context (calc_straw : list Z → list Z) (Hstraw : ∀ ws, length (calc_straw ws) = length ws).
Context (fresh : Z → Z) (Hfresh : ∀ i, 0 ≤ fresh i < 2 ^ 32).

Definition run_op (b : crush_bucket) (op : bucket_op) : outcome crush_bucket :=
  match op with
  | AddItem item w => '(r, b) ← crush_bucket_add_item calc_straw fresh b item w; _ ← assert_that (bool_decide (r = 0)); Ret b
  | AdjustWeight item w => '(_, b) ← crush_bucket_adjust_item_weight calc_straw b item w; Ret b
  end.

(** A bucket is a list of items with weights. *)
Definition holds (a : algorithm) (b : crush_bucket) (l : list (Z * Z)) : Prop :=
  items b = l.*1 ∧ weighs b l.*2 ∧ total l.*2 < 2 ^ 31 ∧ same_alg a (alg b) ∧ (a = UNIFORM → l ≠ []).

Lemma holds_nonneg a b l : holds a b l → nonneg l.*2 ∧ length (items b) = length l.
Proof. intros (Hi & (_ & Hp & _) & _). split; [done|]. by rewrite Hi, length_fmap. Qed.

Lemma add_item_holds a b l item w : holds a b l → op_args a l (AddItem item w) → ∃ b', run_op b (AddItem item w) = Ret b' ∧ holds a b' (l ++ [(item, w)]).
Proof.
  intros Hb [Ht [Hw Ha]]. destruct (holds_nonneg _ _ _ Hb) as [Hp Hlen]. destruct Hb as (Hi & Hweighs & Hlt & Hsame & Hne). cbn in Ht. rewrite fmap_app, totals_app in Ht. cbn in Ht.
  assert (room b w) as Hroom.
  { unfold room. destruct a, (alg b) as [v| | | | |] eqn:E; try done; [|by unfold size; rewrite Hlen]. destruct Hweighs as (_ & _ & _ & _ & Hm). rewrite E in Hm. destruct Hm as [_ Hm].
    destruct l as [|[i x] l]; [by destruct Hne|]. rewrite Hi in Hm. cbn in Hm, Ha. injection Hm as -> _. symmetry. apply Ha. left. }
  destruct (add_ok calc_straw Hstraw fresh Hfresh b l.*2 item w Hweighs Hw ltac:(lia) Hroom) as (b' & E & _ & _ & Hi' & Hw' & Halg).
  cbn [run_op]. rewrite E. cbn [mbind outcome_bind assert_that]. rewrite bool_decide_true by done. exists b'. split; [done|]. unfold holds. rewrite !fmap_app. cbn [fmap list_fmap fst snd].
  split_and!; [by rewrite Hi', Hi|done|rewrite totals_app; cbn; lia|by apply Halg|by destruct l].
Qed.

Lemma abstract_adjust (l : list (Z * Z)) item w i :
  list_find (λ x, x = item) l.*1 = Some (i, item) → (<[i := (item, w)]> l).*1 = l.*1 ∧ (<[i := (item, w)]> l).*2 = <[i := w]> l.*2.
Proof.
  intros H. apply list_find_Some in H as (Hi & _ & _). rewrite !list_fmap_insert. cbn. split; [|done]. by apply list_insert_id.
Qed.

Lemma adjust_uniform_holds b l item w :
  holds UNIFORM b l → op_args UNIFORM l (AdjustWeight item w) →
  ∃ b', run_op b (AdjustWeight item w) = Ret b' ∧ holds UNIFORM b' (abstract_op UNIFORM l (AdjustWeight item w)).
Proof.
  intros Hb [Ht Hw]. destruct (holds_nonneg _ _ _ Hb) as [Hp Hlen]. destruct Hb as (Hi & Hweighs & Hlt & Hsame & Hne). cbn [run_op abstract_op] in *.
  assert (((λ '(i, _), (i, w)) <$> l).*1 = l.*1 ∧ ((λ '(i, _), (i, w)) <$> l).*2 = replicate (length l) w) as [E1 E2].
  { clear. induction l as [|[i x] l [IH1 IH2]]; [done|]. cbn. by rewrite IH1, IH2. }
  rewrite E2 in Ht. assert (w < 2 ^ 31). { destruct l as [|y l]; [by destruct Hne|]. rewrite total_replicate in Ht. cbn [length] in Ht. nia. }
  destruct (alg b) as [v| | | | |] eqn:Halg; try done. rewrite <-Hlen in Ht, E2.
  destruct (adjust_uniform_ok calc_straw b l.*2 v item w Halg Hweighs Hlt ltac:(lia) Ht) as (b' & -> & _ & _ & Hi' & Hw' & Hs').
  cbn [mbind outcome_bind]. exists b'. split; [done|]. unfold holds. rewrite E1, E2. split_and!; [by rewrite Hi', Hi|done|done|done|]. intros _. by destruct l; [destruct Hne|].
Qed.

Lemma adjust_holds a b l item w :
  holds a b l → op_args a l (AdjustWeight item w) → ∃ b', run_op b (AdjustWeight item w) = Ret b' ∧ holds a b' (abstract_op a l (AdjustWeight item w)).
Proof.
  assert (a = UNIFORM ∨ a ≠ UNIFORM) as [->|Hu] by (destruct a; auto); [apply adjust_uniform_holds|].
  intros Hb [Ht Hw]. destruct (holds_nonneg _ _ _ Hb) as [Hp Hlen]. destruct Hb as (Hi & Hweighs & Hlt & Hsame & Hne).
  assert (abstract_op a l (AdjustWeight item w) = match list_find (λ x, x = item) l.*1 with Some (i, _) => <[i := (item, w)]> l | None => l end) as Habs by (by destruct a).
  rewrite Habs in Ht |- *. cbn [run_op]. clear Habs.
  destruct (list_find (λ x, x = item) l.*1) as [[i y]|] eqn:Hf.
  - assert (y = item) as -> by (by apply list_find_Some in Hf as (_ & -> & _)). destruct (abstract_adjust l item w i Hf) as [E1 E2]. rewrite E2 in Ht.
    assert (index_of b item = Some (Z.of_nat i)) as Hidx by (unfold index_of; by rewrite Hi, Hf).
    destruct (weighs_lookup b l.*2 (Z.of_nat i) Hweighs) as (x & Hx & Hxr). { destruct (index_of_Some _ _ _ Hidx). done. }
    rewrite Nat2Z.id in Hx. pose proof (total_insert _ _ w x Hx) as Hti.
    destruct (adjust_ok calc_straw Hstraw b l.*2 item (Z.of_nat i) x w) as (b' & -> & _ & _ & Hi' & Hw' & Halg);
      [done|done|by rewrite Nat2Z.id|done|done|lia|intros v E; rewrite E in Hsame; by destruct a|].
    cbn. exists b'. split; [done|]. rewrite Nat2Z.id, <-E2 in Hw'. split_and!; [by rewrite Hi', Hi|done|by rewrite E2|by apply Halg|done].
  - exists b. assert (index_of b item = None) as Hidx by (unfold index_of; by rewrite Hi, Hf). split; [|done].
    pose proof Hweighs as (_ & _ & _ & _ & Hm). unfold crush_bucket_adjust_item_weight, crush_adjust_list_bucket_item_weight, crush_adjust_straw_bucket_item_weight,
      crush_adjust_straw2_bucket_item_weight, crush_adjust_tree_bucket_item_weight. rewrite Hidx. destruct (alg b) as [v|iw sw|n nw|iw st|iw|]; [by destruct a|done| |done..].
    destruct Hm as [[Hnil _]|(Hs & _)]; [unfold size; by rewrite Hnil|]. by rewrite calc_depth_spec by lia.
Qed.

Lemma run_ops_holds a ops b l : holds a b l → ops_args a l ops → ∃ b', foldM run_op b ops = Ret b' ∧ holds a b' (foldl (abstract_op a) l ops).
Proof.
  revert b l. induction ops as [|op ops IH]; intros b l Hb Ha; [by exists b|]. destruct Ha as [H1 H2]. cbn [foldM foldl].
  assert (∃ b1, run_op b op = Ret b1 ∧ holds a b1 (abstract_op a l op)) as (b1 & -> & Hb1) by (destruct op; [by apply add_item_holds|by apply adjust_holds]).
  cbn [mbind outcome_bind]. by apply IH.
Qed.

End buckets.

(** C20. A bucket of any algorithm is a list of items with weights. It is made
    from one, and after any sequence of added items and changed weights its
    items are those of the list, [crush_get_bucket_item_weight] gives the
    weight of each, and the weight of the bucket is their sum. In a uniform
    bucket all items have one weight, and a changed weight is that of all.
    The sums are below 2^31; uniform buckets are not empty, and what is added
    to them has their weight; trees have at most 64 items, and get no deeper by
    an item but by the first two, since the sums break otherwise.
    [calc_straw] stands for the floating-point lengths of
    straws, [fresh] for the contents of new memory. *)
Theorem bucket_refines calc_straw fresh a h t l ops :
  (∀ ws, length (calc_straw ws) = length ws) → (∀ i, 0 ≤ fresh i < 2 ^ 32) →
  make_args a l.*1 l.*2 → (a = UNIFORM → l ≠ []) → ops_args a l ops → Z.of_nat (length (foldl (abstract_op a) l ops)) < 2 ^ 32 →
  let l' := foldl (abstract_op a) l ops in
  ∃ b b', crush_make_bucket calc_straw a h t l.*1 (Some l.*2) = Ret (Some b) ∧ foldM (run_op calc_straw fresh) b ops = Ret b'
    ∧ items b' = l'.*1 ∧ weight b' = total l'.*2
    ∧ ∀ i item w, l' !! i = Some (item, w) → crush_get_bucket_item_weight b' (Z.of_nat i) = Ret w.
Proof.
  intros Hstraw Hfresh Hmake Hne Hops Hlen l'. destruct (make_bucket_ok calc_straw Hstraw a h t l.*1 l.*2 Hmake) as (b & -> & Hi & _ & Hs & Hw). exists b.
  destruct (run_ops_holds calc_straw Hstraw fresh Hfresh a ops b l) as (b' & -> & Hb'); [split_and!; [done|done|apply Hmake|done|done]|done|]. fold l' in Hb'.
  exists b'. split; [done|]. split; [done|]. pose proof (holds_nonneg _ _ _ Hb') as [_ Hl]. destruct Hb' as (Hi' & Hw' & Ht & _). split; [done|]. split; [apply Hw'|].
  intros i item w Hlook. eapply item_weight_ok; [done|done|unfold size; rewrite Hl; exact Hlen|]. by rewrite list_lookup_fmap, Hlook.
Qed.

(** A tree that gets an item and another weight, and a uniform bucket. *)
Lemma bucket_refines_witness : let l := [(3, 5); (4, 7); (9, 1)] in let ops := [AddItem 12 2; AdjustWeight 4 20] in
  let l' := foldl (abstract_op TREE) l ops in
  (l' = [(3, 5); (4, 20); (9, 1); (12, 2)]
  ∧ ∃ b b', crush_make_bucket (λ ws, ws) TREE 0 1 l.*1 (Some l.*2) = Ret (Some b) ∧ foldM (run_op (λ ws, ws) (λ _, 77)) b ops = Ret b'
    ∧ items b' = l'.*1 ∧ weight b' = total l'.*2
    ∧ ∀ i item w, l' !! i = Some (item, w) → crush_get_bucket_item_weight b' (Z.of_nat i) = Ret w)
  ∧ ∃ b b', crush_make_bucket (λ ws, ws) UNIFORM 0 1 [3; 4] (Some [5; 5]) = Ret (Some b)
      ∧ foldM (run_op (λ ws, ws) (λ _, 77)) b [AdjustWeight 4 7; AddItem 9 7] = Ret b' ∧ items b' = [3; 4; 9] ∧ weight b' = 21.
Proof.
  split; [split; [done|]|].
  - apply (bucket_refines (λ ws, ws) (λ _, 77) TREE 0 1); [done|done| |done| |done].
    + split; [done|]. split; [cbn; rewrite !Forall_cons, Forall_nil; lia|]. split; [done|]. cbn. lia.
    + repeat split; cbn; try lia; try done. right. reflexivity.
  - destruct (bucket_refines (λ ws, ws) (λ _, 77) UNIFORM 0 1 [(3, 5); (4, 5)] [AdjustWeight 4 7; AddItem 9 7]) as (b & b' & H1 & H2 & H3 & H4 & _);
      [done|done| |done| |done|by exists b, b'].
    + split; [done|]. split; [cbn; rewrite !Forall_cons, Forall_nil; lia|]. split; [done|]. exists 5. split; [done|]. split; [lia|]. right. done.
    + repeat split; cbn; try lia; try done. set_solver.
Defined.

(** ** Maps *)

(** The maps that are built: from an empty one, by making buckets of devices and
    of buckets that are there, by adding devices to a bucket, or buckets that
    do not contain it, and by changing the weights of items. *)
Inductive built (calc_straw : list Z → list Z) (fresh : Z → Z) : crush_map → Prop :=
| built_new : built calc_straw fresh crush_create
| built_bucket m a h t its ws b id id' m' :
    built calc_straw fresh m → make_args a its ws → (a = TREE → 0 < total ws) → 0 < u16 t → Z.of_nat (length its) < 0xffff →
    (∀ i, i ∈ its → known_item m i) → id ≤ 0 →
    crush_make_bucket calc_straw a h t its (Some ws) = Ret (Some b) → crush_add_bucket m id b = Ret (0, id', m') →
    built calc_straw fresh m'
| built_item m id b item w b' :
    built calc_straw fresh m → bucket_of m id = Some b → size b + 1 < 0xffff →
    (0 ≤ item < CRUSH_ITEM_UNDEF ∨ is_Some (bucket_of m item) ∧ ∃ fuel, subtree_contains fuel m item id = Ret false) →
    0 ≤ w → weight b + w < 2 ^ 31 → room b w → (is_tree b → 0 < weight b + w) →
    crush_bucket_add_item calc_straw fresh b item w = Ret (0, b') →
    built calc_straw fresh (with_buckets m (put_bucket (buckets m) (-1 - id) b') (max_devices m))
| built_weight m id b item i old w r b' :
    built calc_straw fresh m → bucket_of m id = Some b → index_of b item = Some i → crush_get_bucket_item_weight b i = Ret old →
    0 ≤ w → weight b - old + w < 2 ^ 31 → (is_tree b → 0 < weight b - old + w) → (∀ v, alg b ≠ CRUSH_BUCKET_UNIFORM v) →
    crush_bucket_adjust_item_weight calc_straw b item w = Ret (r, b') →
    built calc_straw fresh (with_buckets m (put_bucket (buckets m) (-1 - id) b') (max_devices m))
| built_weights m id b v item w r b' :
    built calc_straw fresh m → bucket_of m id = Some b → alg b = CRUSH_BUCKET_UNIFORM v → 0 ≤ w < 2 ^ 31 → size b * w < 2 ^ 31 →
    crush_bucket_adjust_item_weight calc_straw b item w = Ret (r, b') →
    built calc_straw fresh (with_buckets m (put_bucket (buckets m) (-1 - id) b') (max_devices m)).

Lemma created_inv : map_inv crush_create (λ _, O).
Proof.
  constructor; [|done|by constructor]. intros item b H. unfold bucket_of in H. case_bool_decide; [|done]. cbn in H. by rewrite lookup_nil in H.
Qed.

Section maps.
Context (calc_straw : list Z → list Z) (Hstraw : ∀ ws, length (calc_straw ws) = length ws).
Context (fresh : Z → Z) (Hfresh : ∀ i, 0 ≤ fresh i < 2 ^ 32).

Lemma same_tree b b' ws : weighs b ws → (∀ a, same_alg a (alg b) → same_alg a (alg b')) → is_tree b' → is_tree b.
Proof.
  intros (_ & _ & _ & _ & Ha) H Htree. unfold is_tree in *.
  destruct (alg b) eqn:Eb; [specialize (H UNIFORM I)|specialize (H LIST I)|done|specialize (H STRAW I)|specialize (H STRAW2 I)|done]; by destruct (alg b').
Qed.

Lemma built_item_inv m rank id b item w b' :
  map_inv m rank → bucket_of m id = Some b → size b + 1 < 0xffff →
  (0 ≤ item < CRUSH_ITEM_UNDEF ∨ is_Some (bucket_of m item) ∧ ∃ fuel, subtree_contains fuel m item id = Ret false) →
  0 ≤ w → weight b + w < 2 ^ 31 → room b w → (is_tree b → 0 < weight b + w) → crush_bucket_add_item calc_straw fresh b item w = Ret (0, b') →
  ∃ rank', map_inv (with_buckets m (put_bucket (buckets m) (-1 - id) b') (max_devices m)) rank'.
Proof.
  intros Hm Hb Hsz Hitem Hw Hlt Hroom Hpos E. destruct (minv_bucket _ _ Hm id b Hb) as [_ _ _ (ws & Hweighs & Ht & _) _].
  assert (weight b = total ws) as Hwt by apply Hweighs.
  destruct (add_ok calc_straw Hstraw fresh Hfresh b ws item w Hweighs Hw ltac:(lia) Hroom) as (b1 & E1 & H1 & H2 & H3 & H4 & H5). rewrite E1 in E. injection E as ->.
  exists (raised m rank id item).
  eapply put_bucket_inv; [done|done|done|done|unfold size in *; rewrite H3, length_app; cbn; lia| | |intros p i; by apply raised_child].
  - exists (ws ++ [w]). rewrite totals_app. cbn. split_and!; [done|lia|]. intros Htree%(same_tree _ _ _ Hweighs); [specialize (Hpos Htree); lia|done].
  - intros i. rewrite H3, elem_of_app, list_elem_of_singleton. intros [?| ->]; [by left|]. right. destruct Hitem as [|[Hk [fuel Hno]]]; [by left|right].
    split; [done|]. eapply raised_item; [done|right; by eexists|by right|done].
Qed.

Lemma built_weight_inv m rank id b item i old w r b' :
  map_inv m rank → bucket_of m id = Some b → index_of b item = Some i → crush_get_bucket_item_weight b i = Ret old →
  0 ≤ w → weight b - old + w < 2 ^ 31 → (is_tree b → 0 < weight b - old + w) → (∀ v, alg b ≠ CRUSH_BUCKET_UNIFORM v) →
  crush_bucket_adjust_item_weight calc_straw b item w = Ret (r, b') →
  map_inv (with_buckets m (put_bucket (buckets m) (-1 - id) b') (max_devices m)) rank.
Proof.
  intros Hm Hb Hi Hold Hw Hr Hpos Hu E. destruct (minv_bucket _ _ Hm id b Hb) as [_ _ Hsz (ws & Hweighs & Ht & _) _]. assert (weight b = total ws) as Hwt by apply Hweighs.
  destruct (index_of_Some _ _ _ Hi) as [Hir _]. destruct (weighs_lookup b ws i Hweighs Hir) as (x & Hx & Hxr).
  assert (old = x) as ->. { pose proof (item_weight_ok b ws (Z.to_nat i) x Hweighs Ht ltac:(lia) Hx) as E1. rewrite Z2Nat.id in E1 by lia. congruence. }
  destruct (adjust_ok calc_straw Hstraw b ws item i x w Hweighs Hi Hx Hw Ht ltac:(lia) Hu) as (b1 & E1 & H1 & H2 & H3 & H4 & H5). rewrite E1 in E. injection E as <- ->.
  eapply put_bucket_inv; [done|done|done|done|unfold size in *; rewrite H3; lia| | |done].
  - exists (<[Z.to_nat i := w]> ws). rewrite (total_insert _ _ w x Hx). split_and!; [done|lia|]. intros Htree%(same_tree _ _ _ Hweighs); [specialize (Hpos Htree); lia|done].
  - intros j. rewrite H3. by left.
Qed.

Lemma built_weights_inv m rank id b v item w r b' :
  map_inv m rank → bucket_of m id = Some b → alg b = CRUSH_BUCKET_UNIFORM v → 0 ≤ w < 2 ^ 31 → size b * w < 2 ^ 31 →
  crush_bucket_adjust_item_weight calc_straw b item w = Ret (r, b') →
  map_inv (with_buckets m (put_bucket (buckets m) (-1 - id) b') (max_devices m)) rank.
Proof.
  intros Hm Hb Halg Hw Hs E. destruct (minv_bucket _ _ Hm id b Hb) as [_ _ Hsz (ws & Hweighs & Ht & _) _].
  assert (total (replicate (length (items b)) w) < 2 ^ 31) as Ht' by (rewrite total_replicate; unfold size in Hs; lia).
  destruct (adjust_uniform_ok calc_straw b ws v item w Halg Hweighs Ht Hw Ht') as (b1 & E1 & H1 & H2 & H3 & H4 & H5). rewrite E1 in E. injection E as <- ->.
  eapply put_bucket_inv; [done|done|done|done|unfold size in *; rewrite H3; lia| | |done].
  - eexists. split_and!; [exact H4|done|]. unfold is_tree. by destruct (alg b').
  - intros j. rewrite H3. by left.
Qed.

Lemma built_inv m : built calc_straw fresh m → ∃ rank, map_inv m rank.
Proof.
  induction 1 as [|m a h t its ws b id id' m' _ [rank IH] Hargs Hpos Ht Hlen Hits Hid Hmake Hadd|m id b item w b' _ [rank IH] Hb Hsz Hitem Hw Hlt Hroom Hpos E
    |m id b item i old w r b' _ [rank IH] Hb Hi Hold Hw Hr Hpos Hu E|m id b v item w r b' _ [rank IH] Hb Halg Hw Hs E].
  - exists (λ _, O). exact created_inv.
  - destruct (make_bucket_ok calc_straw Hstraw a h t its ws Hargs) as (b1 & E & Hi & Hty & Hs & Hw). rewrite Hmake in E. injection E as <-.
    exists (rank_with rank id' (items b)). eapply add_bucket_inv; [done|done|done|by rewrite Hty|unfold size; rewrite Hi; lia| |by rewrite Hi].
    exists ws. split; [done|]. split; [apply Hargs|]. intros Htree. apply Hpos. unfold is_tree in Htree. by destruct a, (alg b).
  - by eapply built_item_inv.
  - exists rank. by eapply built_weight_inv.
  - exists rank. by eapply built_weights_inv.
Qed.

End maps.

(** C19. Every map that is built bucket by bucket, by items (devices, or
    buckets in whose subtree the bucket is not, as [subtree_contains] finds)
    and by weights, is one on which all placements end: [crush_finalize]
    returns, with the number of devices above all that occur; then every bucket
    is under its own number, the arrays of its algorithm fit its items, its
    items are devices or buckets of the map, and no bucket is below itself. A
    further bucket can always be added. The weights of a bucket add up to
    less than 2^31; what is added to a uniform bucket has its weight; a tree
    bucket has a positive weight and at most 64 items, and gets no deeper by
    an item but by the first two. *)
Theorem built_map_ok calc_straw fresh m :
  (∀ ws, length (calc_straw ws) = length ws) → (∀ i, 0 ≤ fresh i < 2 ^ 32) → built calc_straw fresh m →
  ∃ rank m', crush_finalize m = Ret m' ∧ map_ok m' rank ∧ tunables_map_ok m' ∧ buckets m' = buckets m
    ∧ ∀ id b, - 2 ^ 30 ≤ id < 0 → ∃ r id' m'', crush_add_bucket m id b = Ret (r, id', m'') ∧ (r = 0 ∨ r = - EEXIST).
Proof.
  intros Hstraw Hfresh [rank Hm]%built_inv; [|done..]. destruct (map_inv_ok m rank Hm) as (m' & Hf & Hok & Htun & Hbs). exists rank, m'. split_and!; [done..|].
  intros id b Hid. unfold crush_add_bucket. rewrite bool_decide_false by lia. destruct (grow_total (buckets m) (-1 - id)) as [bs Hg]; [lia|]. rewrite Hg. cbn [mbind outcome_bind].
  apply grow_buckets_spec in Hg as (n & -> & Hpos); [|apply Hm]. destruct (at_index_lt (buckets m ++ replicate n None) (-1 - id)) as (old & _ & ->); [lia|]. cbn [mbind outcome_bind].
  destruct old; eexists _, _, _; (split; [reflexivity|]); [by right|by left].
Qed.

(** Two hosts, one of straws and one list, in a tree; then a device more, and
    another weight. *)
Definition with_new (m : crush_map) (a : algorithm) (t : Z) (its ws : list Z) : crush_map :=
  match crush_make_bucket (λ ws, ws) a 0 t its (Some ws) with
  | Ret (Some b) => match crush_add_bucket m 0 b with Ret (_, _, m') => m' | _ => m end
  | _ => m
  end.
Definition two_hosts : crush_map :=
  with_new (with_new (with_new crush_create STRAW2 1 [0; 1] [0x10000; 0x10000]) LIST 1 [2; 3] [0x10000; 0x20000]) TREE 2 [-1; -2] [0x20000; 0x30000].

Lemma with_new_built m a t its ws id' m' :
  built (λ ws, ws) (λ _, 0) m → make_args a its ws → (a = TREE → 0 < total ws) → 0 < u16 t → Z.of_nat (length its) < 0xffff → (∀ i, i ∈ its → known_item m i) →
  (∀ b, crush_make_bucket (λ ws, ws) a 0 t its (Some ws) = Ret (Some b) → crush_add_bucket m 0 b = Ret (0, id', m')) → built (λ ws, ws) (λ _, 0) m'.
Proof.
  intros Hm Hargs Hp Ht Hl Hits Hadd. destruct (make_bucket_ok (λ ws, ws) (λ ws, eq_refl) a 0 t its ws Hargs) as (b & Hb & _).
  by apply (built_bucket _ _ m a 0 t its ws b 0 id' m'), Hadd.
Qed.

Lemma two_hosts_built : built (λ ws, ws) (λ _, 0) two_hosts.
Proof.
  apply (with_new_built (with_new (with_new crush_create STRAW2 1 [0; 1] [0x10000; 0x10000]) LIST 1 [2; 3] [0x10000; 0x20000]) TREE 2 [-1; -2] [0x20000; 0x30000] (-3)).
  - apply (with_new_built (with_new crush_create STRAW2 1 [0; 1] [0x10000; 0x10000]) LIST 1 [2; 3] [0x10000; 0x20000] (-2)).
    + apply (with_new_built crush_create STRAW2 1 [0; 1] [0x10000; 0x10000] (-1)); [constructor| |done|done|done| |].
      * split; [done|]. split; [rewrite !Forall_cons, Forall_nil; lia|]. by split.
      * intros i Hi. left. unfold CRUSH_ITEM_UNDEF. set_solver by lia.
      * intros b [= <-]. vm_compute. reflexivity.
    + split; [done|]. split; [rewrite !Forall_cons, Forall_nil; lia|]. by split.
    + done.
    + done.
    + done.
    + intros i Hi. left. unfold CRUSH_ITEM_UNDEF. set_solver by lia.
    + intros b [= <-]. vm_compute. reflexivity.
  - split; [done|]. split; [rewrite !Forall_cons, Forall_nil; lia|]. split; [done|]. cbn. lia.
  - done.
  - done.
  - done.
  - intros i Hi. right. apply elem_of_cons in Hi as [->|Hi]; [vm_compute; eauto|]. apply list_elem_of_singleton in Hi as ->. vm_compute. eauto.
  - intros b Hb. vm_compute in Hb. injection Hb as <-. vm_compute. reflexivity.
Qed.

(** The tree is linked below another bucket. *)
Definition with_item (m : crush_map) (id item w : Z) : crush_map :=
  match bucket_of m id with
  | Some b =>
    match crush_bucket_add_item (λ ws, ws) (λ _, 0) b item w with
    | Ret (_, b') => with_buckets m (put_bucket (buckets m) (-1 - id) b') (max_devices m)
    | _ => m
    end
  | None => m
  end.
Definition linked : crush_map := with_item (with_new two_hosts STRAW2 3 [4] [0x10000]) (-4) (-3) 0x50000.

Lemma linked_built : built (λ ws, ws) (λ _, 0) linked.
Proof.
  assert (built (λ ws, ws) (λ _, 0) (with_new two_hosts STRAW2 3 [4] [0x10000])) as Hb.
  { apply (with_new_built two_hosts STRAW2 3 [4] [0x10000] (-4)); [apply two_hosts_built| |done|done|done| |].
    - split; [done|]. split; [rewrite !Forall_cons, Forall_nil; lia|]. by split.
    - intros i ->%list_elem_of_singleton. left. unfold CRUSH_ITEM_UNDEF. lia.
    - intros b [= <-]. vm_compute. reflexivity. }
  eapply (built_item _ _ _ (-4) _ (-3) 0x50000); [exact Hb|vm_compute; reflexivity|..].
  - done.
  - right. split; [vm_compute; eauto|]. exists 5%nat. vm_compute. reflexivity.
  - done.
  - done.
  - done.
  - done.
  - vm_compute. reflexivity.
Qed.

Lemma built_map_ok_witness : max_buckets linked = 8 ∧ ∃ rank m', crush_finalize linked = Ret m' ∧ map_ok m' rank ∧ tunables_map_ok m' ∧ buckets m' = buckets linked
    ∧ ∀ id b, - 2 ^ 30 ≤ id < 0 → ∃ r id' m'', crush_add_bucket linked id b = Ret (r, id', m'') ∧ (r = 0 ∨ r = - EEXIST).
Proof. split; [vm_compute; reflexivity|]. apply (built_map_ok (λ ws, ws) (λ _, 0) linked); [done|done|exact linked_built]. Defined.

(** ** Faults *)

(** The number of nodes of a tree is a byte. *)
Lemma tree_too_large h t its ws :
  64 < Z.of_nat (length its) ≤ 128 → length ws = length its → crush_make_tree_bucket h t its ws = Abort OutOfBounds.
Proof.
  intros Hn Hl. unfold crush_make_tree_bucket. rewrite bool_decide_false by lia. rewrite calc_depth_spec by lia. cbn [mbind outcome_bind].
  assert (Z.log2_up (Z.of_nat (length its)) = 7) as ->.
  { pose proof (Z.log2_up_le_mono (Z.of_nat (length its)) 128 ltac:(lia)). pose proof (Z.log2_up_le_mono 65 (Z.of_nat (length its)) ltac:(lia)).
    change (Z.log2_up 128) with 7 in *. change (Z.log2_up 65) with 7 in *. lia. }
  change (num_nodes_of (7 + 1)) with (Ret 0 : outcome Z). cbn [mbind outcome_bind]. rewrite first_of_all by done. cbn [mbind outcome_bind].
  destruct ws as [|w ws]; [cbn in Hl; lia|]. done.
Qed.

(** C34. The sums of weights break in three ways. A tree bucket of 65 to 128 items is written out of
    bounds when it is made, since its number of nodes, 256, is 0 as a byte.
    And when a tree of two items gets a third, the sum above the new leaf is
    added to whatever the memory that [realloc] returned holds. And when
    [crush_reweight_bucket] gives an item of a list bucket the weight that its
    bucket has, the sums of the list stay as they were. *)
Theorem weight_sum_faults :
  (∀ h t its ws, 64 < Z.of_nat (length its) ≤ 128 → length ws = length its → crush_make_tree_bucket h t its ws = Abort OutOfBounds)
  ∧ (∃ b, crush_make_tree_bucket 0 1 [0; 1] [0x10000; 0x10000] = Ret (Some b)
    ∧ (∃ b', crush_bucket_add_item (λ ws, ws) (λ _, 0) b 2 0x10000 = Ret (0, b')
        ∧ alg b' = CRUSH_BUCKET_TREE 8 [0; 0x10000; 0x20000; 0x10000; 0x30000; 0x10000; 0x10000; 0])
    ∧ ∃ b', crush_bucket_add_item (λ ws, ws) (λ _, 77) b 2 0x10000 = Ret (0, b')
        ∧ alg b' = CRUSH_BUCKET_TREE 8 [0; 0x10000; 0x20000; 0x10000; 0x30000; 0x10000; 0x1004d; 77])
  ∧ let host := mkBucket (-1) 1 0 0x20000 [0] (CRUSH_BUCKET_STRAW2 [0x20000]) in
    let root w := mkBucket (-2) 2 0 w [-1] (CRUSH_BUCKET_LIST [w] [0x10000]) in
    crush_reweight_bucket (λ ws, ws) 2 [Some host; Some (root 0x10000)] 1 = Ret (0, [Some host; Some (root 0x20000)]).
Proof.
  split; [exact tree_too_large|]. split; [|vm_compute; reflexivity]. eexists. split; [reflexivity|]. split; eexists; (split; [vm_compute; reflexivity|]); reflexivity.
Qed.

Lemma seqZ_one n : seqZ n 1 = [n].
Proof. unfold seqZ. cbn. f_equal. Qed.

(** The loops of uniform and list buckets go one too far. *)
Lemma shift_past_end (l : list Z) i : 0 ≤ i < Z.of_nat (length l) → shift_left l i (Z.of_nat (length l)) = Abort OutOfBounds.
Proof.
  intros Hi. unfold shift_left. set (n := Z.of_nat (length l)) in *. replace (n - i) with ((n - 1 - i) + 1) by lia. rewrite seqZ_app by lia. rewrite foldM_app.
  destruct (shift_left_spec l i (n - 1)) as (l' & E & _ & Hl'); [lia|lia|]. unfold shift_left in E. rewrite E. cbn [mbind outcome_bind]. replace (i + (n - 1 - i)) with (n - 1) by lia.
  rewrite (seqZ_one (n - 1)). cbn [foldM]. replace (n - 1 + 1) with n by lia. unfold at_index. rewrite bool_decide_false by lia.
  by rewrite lookup_ge_None_2 by lia.
Qed.

Lemma remove_list_past_end b iw sw item i :
  length iw = length (items b) → length sw = length (items b) → index_of b item = Some i → crush_remove_list_bucket_item b iw sw item = Abort OutOfBounds.
Proof.
  intros Hiw Hsw Hi. destruct (index_of_Some _ _ _ Hi) as [Hir _]. unfold crush_remove_list_bucket_item. rewrite Hi. unfold size in *. set (n := Z.of_nat (length (items b))) in *.
  destruct (at_index_lt iw i) as (w & _ & ->); [lia|]. cbn [mbind outcome_bind]. replace (n - i) with ((n - 1 - i) + 1) by lia. rewrite seqZ_app by lia. rewrite foldM_app.
  match goal with |- context [foldM ?f _ (seqZ i (n - 1 - i))] => set (body := f) end.
  destruct (foldM_inv body (λ _ '(a, b, c), Z.of_nat (length a) = n ∧ Z.of_nat (length b) = n ∧ Z.of_nat (length c) = n) (seqZ i (n - 1 - i)) (items b, iw, sw))
    as ([[a c] e] & -> & Ha & Hc & He); [lia| |].
  - intros l1 j l2 [[a c] e] E (Ha & Hc & He). assert (i ≤ j < n - 1) as Hj. { assert (j ∈ seqZ i (n - 1 - i)) as Hin by (rewrite E; set_solver). apply elem_of_seqZ in Hin. lia. }
    unfold body. destruct (at_index_lt a (j + 1)) as (? & _ & ->); [lia|]. destruct (at_index_lt c (j + 1)) as (? & _ & Hc1); [lia|].
    destruct (at_index_lt e (j + 1)) as (? & _ & He1); [lia|]. cbn [mbind outcome_bind]. rewrite store_at_ok by lia. cbn [mbind outcome_bind]. rewrite Hc1. cbn [mbind outcome_bind].
    rewrite store_at_ok by lia. cbn [mbind outcome_bind]. rewrite He1. cbn [mbind outcome_bind]. rewrite store_at_ok by lia. cbn [mbind outcome_bind].
    eexists. split; [reflexivity|]. cbv beta iota. rewrite !length_insert. lia.
  - cbn [mbind outcome_bind]. replace (i + (n - 1 - i)) with (n - 1) by lia. rewrite (seqZ_one (n - 1)). cbn [foldM]. unfold body.
    replace (n - 1 + 1) with n by lia. unfold at_index. rewrite bool_decide_false by lia. by rewrite (lookup_ge_None_2 a) by lia.
Qed.

(** C35. Removing an item breaks in two ways. From a uniform or a list bucket, no
    item is removed without a read past the end of its arrays. From a straw2
    bucket, the last item is removed, and its weight taken from the bucket, but
    the result is that there was no such item. *)
Theorem remove_item_faults calc_straw b ws item i :
  weighs b ws → index_of b item = Some i →
  match alg b with
  | CRUSH_BUCKET_UNIFORM _ | CRUSH_BUCKET_LIST _ _ => crush_bucket_remove_item calc_straw b item = Abort OutOfBounds
  | CRUSH_BUCKET_STRAW2 _ =>
      i = size b - 1 → ∃ b' its w, crush_bucket_remove_item calc_straw b item = Ret (- ENOENT, b')
        ∧ items b = its ++ [item] ∧ items b' = its ∧ ws !! Z.to_nat i = Some w ∧ weight b' = weight b - w
  | _ => True
  end.
Proof.
  intros Hw Hi. destruct (index_of_Some _ _ _ Hi) as [Hir Hitem]. destruct (weighs_lookup b ws i Hw Hir) as (x & Hx & Hxr). destruct Hw as (Hl & Hp & Hwt & _ & Ha).
  unfold crush_bucket_remove_item. destruct (alg b) as [v|iw sw|n nw|iw st|iw|] eqn:Halg; [| |done|done| |done].
  - unfold crush_remove_uniform_bucket_item. rewrite Hi. unfold size in *. by rewrite shift_past_end by lia.
  - destruct Ha as [-> [Hr _]]. by apply (remove_list_past_end b ws sw item i); [|lia|].
  - subst iw. intros Hlast. unfold crush_remove_straw2_bucket_item. rewrite Hi. rewrite (at_index_ok ws i x) by (lia || done). cbn [mbind outcome_bind].
    unfold size in *. set (n := Z.of_nat (length (items b))) in *.
    assert (∀ l : list Z, shift_left l i (n - 1) = Ret l) as Hnone by (intros l; unfold shift_left; rewrite Hlast, Z.sub_diag; done).
    rewrite !Hnone. cbn [mbind outcome_bind]. rewrite bool_decide_true by lia. eexists _, (take (Z.to_nat (n - 1)) (items b)), x. split; [reflexivity|].
    cbn [shrunk items weight]. split_and!; [|done|done|unfold less_weight; case_bool_decide; lia].
    rewrite <-(take_drop (Z.to_nat (n - 1)) (items b)) at 1. f_equal. rewrite Hlast in Hitem. rewrite (drop_S _ item _ Hitem). by rewrite drop_ge by lia.
Qed.

Lemma remove_item_faults_witness : let b := mkBucket (-1) 1 0 0x50000 [4; 7] (CRUSH_BUCKET_STRAW2 [0x20000; 0x30000]) in
  ∃ b' its w, crush_bucket_remove_item (λ ws, ws) b 7 = Ret (- ENOENT, b') ∧ items b = its ++ [7] ∧ items b' = its ∧ [0x20000; 0x30000] !! 1%nat = Some w ∧ weight b' = weight b - w.
Proof.
  intros b. assert (weighs b [0x20000; 0x30000]) as Hw. { split; [done|]. split; [rewrite !Forall_cons, Forall_nil; lia|]. by split_and!. }
  exact (remove_item_faults (λ ws, ws) b [0x20000; 0x30000] 7 1 Hw eq_refl eq_refl).
Defined.
