(* ===== verification/PlacementGroup.v ===== *)
(** * Placement groups

    Objects are hashed into the placement groups of a pool: the string hashes
    of src/src/common/ceph_hash.cc, [ceph_stable_mod] of
    src/src/include/rados.h, and [pg_t] and [pg_pool_t] of
    src/src/osd/osd_types.h and osd_types.cc, with the number of groups of a
    pool growing by splits. *)

From S2P Require Import Prelude CrushHash.

(** ** Hashes of names *)

Definition CEPH_STR_HASH_LINUX : Z := 1.
Definition CEPH_STR_HASH_RJENKINS : Z := 2.

(** [mix] has the text of [crush_hashmix]. *)
Definition mix : Z → Z → Z → Z * Z * Z := crush_hashmix.

Definition byte_at (k : bytes) (i : nat) : outcome Z := need OutOfBounds (k !! i).

(** Four bytes from an offset on, the lowest first. *)
Definition word_at (k : bytes) (i : nat) : outcome Z :=
  b0 ← byte_at k i;
  b1 ← byte_at k (i + 1);
  b2 ← byte_at k (i + 2);
  b3 ← byte_at k (i + 3);
  Ret (u32 (b0 + u32 (Z.shiftl b1 8) + u32 (Z.shiftl b2 16) + u32 (Z.shiftl b3 24))).

(** The groups of twelve bytes; what is left of the string. *)
Fixpoint rjenkins_loop (fuel : nat) (k : bytes) (a b c : Z) : outcome (bytes * Z * Z * Z) :=
  if bool_decide (blen k < 12) then Ret (k, a, b, c) else
  match fuel with
  | O => Abort OutOfFuel
  | S fuel =>
    wa ← word_at k 0;
    wb ← word_at k 4;
    wc ← word_at k 8;
    let '(a, b, c) := mix (u32 (a + wa)) (u32 (b + wb)) (u32 (c + wc)) in
    rjenkins_loop fuel (drop 12 k) a b c
  end.

(** A case of the [switch] over the rest: done when there are as many bytes. *)
Definition rest_byte (k : bytes) (i : nat) (shift v : Z) : outcome Z :=
  if bool_decide (Z.of_nat i < blen k) then b ← byte_at k i; Ret (u32 (v + u32 (Z.shiftl b shift))) else Ret v.

Definition ceph_str_hash_rjenkins (k : bytes) : outcome Z :=
  let a := 0x9e3779b9 in
  '(r, a, b, c) ← rjenkins_loop (length k) k a a 0;
  let c := u32 (c + u32 (blen k)) in
  c ← rest_byte r 10 24 c;
  c ← rest_byte r 9 16 c;
  c ← rest_byte r 8 8 c;
  b ← rest_byte r 7 24 b;
  b ← rest_byte r 6 16 b;
  b ← rest_byte r 5 8 b;
  b ← rest_byte r 4 0 b;
  a ← rest_byte r 3 24 a;
  a ← rest_byte r 2 16 a;
  a ← rest_byte r 1 8 a;
  a ← rest_byte r 0 0 a;
  let '(_, _, c) := mix a b c in
  Ret c.

Definition ceph_str_hash_linux (str : bytes) : Z :=
  foldl (λ hash c, u32 (u32 (hash + Z.shiftl c 4 + Z.shiftr c 4) * 11)) 0 str.

Definition ceph_str_hash (type : Z) (s : bytes) : outcome Z :=
  if bool_decide (type = CEPH_STR_HASH_LINUX) then Ret (ceph_str_hash_linux s)
  else if bool_decide (type = CEPH_STR_HASH_RJENKINS) then ceph_str_hash_rjenkins s
  else Ret (u32 (-1)).

Definition ceph_str_hash_name (type : Z) : string :=
  if bool_decide (type = CEPH_STR_HASH_LINUX) then "linux"
  else if bool_decide (type = CEPH_STR_HASH_RJENKINS) then "rjenkins" else "unknown".

Definition ceph_str_hash_valid (type : Z) : bool :=
  bool_decide (type = CEPH_STR_HASH_LINUX ∨ type = CEPH_STR_HASH_RJENKINS).

(** ** Groups *)

Definition ceph_stable_mod (x b bmask : Z) : Z :=
  if bool_decide (Z.land x bmask < b) then Z.land x bmask else Z.land x (Z.shiftr bmask 1).

(** The number of bits of an [unsigned]. *)
Definition cbits (v : Z) : Z := if bool_decide (v = 0) then 0 else 32 - (31 - Z.log2 v).

(** [(1 << bits) - 1] at type [int]. *)
Definition mask_of (bits : Z) : outcome Z :=
  if bool_decide (0 ≤ bits < 31) then Ret (Z.shiftl 1 bits - 1) else Abort Undefined.

Record pg_t := mkPg { m_pool : Z; m_seed : Z; m_preferred : Z }.

#[global] Instance pg_t_eq_dec : EqDecision pg_t.
Proof. solve_decision. Defined.

#[global] Instance pg_t_countable : Countable pg_t.
Proof.
  refine (inj_countable' (λ pg, (m_pool pg, m_seed pg, m_preferred pg)) (λ '(p, s, f), mkPg p s f) _).
  by intros [].
Defined.

Definition set_ps (pg : pg_t) (p : Z) : pg_t := mkPg (m_pool pg) p (m_preferred pg).

Definition get_ancestor (pg : pg_t) (old_pg_num : Z) : outcome pg_t :=
  old_mask ← mask_of (cbits old_pg_num);
  Ret (set_ps pg (u32 (ceph_stable_mod (s32 (m_seed pg)) (s32 old_pg_num) old_mask))).

Section split.
Context (pg : pg_t) (old_pg_num new_pg_num : Z).

(** The loop over [n]: the children so far. *)
Fixpoint split_loop (fuel : nat) (old_bits old_mask n : Z) (children : gset pg_t) : outcome (gset pg_t) :=
  match fuel with
  | O => Abort OutOfFuel
  | S fuel =>
    let next_bit := u32 (Z.shiftl n (old_bits - 1)) in
    let s := Z.lor next_bit (m_seed pg) in
    if bool_decide (s < old_pg_num ∨ s = m_seed pg) then split_loop fuel old_bits old_mask (u32 (n + 1)) children
    else if bool_decide (new_pg_num ≤ s) then Ret children
    else
      let children := if bool_decide (u32 (ceph_stable_mod (s32 s) (s32 old_pg_num) old_mask) = m_seed pg)
                      then children ∪ {[set_ps pg s]} else children in
      split_loop fuel old_bits old_mask (u32 (n + 1)) children
  end.

(** Whether the group splits, and its children. *)
Definition is_split (fuel : nat) : outcome (bool * gset pg_t) :=
  _ ← assert_that (bool_decide (m_seed pg < old_pg_num));
  if bool_decide (new_pg_num ≤ old_pg_num) then Ret (false, ∅) else
  let old_bits := cbits old_pg_num in
  old_mask ← mask_of old_bits;
  children ← split_loop fuel old_bits old_mask 1 ∅;
  Ret (bool_decide (children ≠ ∅), children).

(** The loop marked as brute force, which is switched off. *)
Definition is_split_brute_force : outcome (bool * gset pg_t) :=
  old_mask ← mask_of (cbits old_pg_num);
  children ← foldM (λ children x,
      let o := u32 (ceph_stable_mod (s32 x) (s32 old_pg_num) old_mask) in
      Ret (if bool_decide (o = m_seed pg) then children ∪ {[set_ps pg x]} else children))
    ∅ (seqZ old_pg_num (new_pg_num - old_pg_num));
  Ret (bool_decide (children ≠ ∅), children).

End split.

Definition get_split_bits (pg : pg_t) (pg_num : Z) : outcome Z :=
  if bool_decide (pg_num = 1) then Ret 0 else
  _ ← assert_that (bool_decide (1 < pg_num));
  let p := cbits pg_num in
  _ ← assert_that (bool_decide (p ≠ 0));
  if bool_decide (31 ≤ p - 1) then Abort Undefined else
  let half := Z.shiftl 1 (p - 1) in
  if bool_decide (m_seed pg mod half < pg_num mod half) then Ret p else Ret (p - 1).

Definition get_parent (pg : pg_t) : outcome pg_t :=
  let bits := cbits (m_seed pg) in
  _ ← assert_that (bool_decide (bits ≠ 0));
  Ret (set_ps pg (Z.land (m_seed pg) (u32 (Z.lnot (Z.shiftl (-1) (bits - 1)))))).

(** ** Objects in the order of their reversed hashes *)

Definition _reverse_bits (v : Z) : Z :=
  if bool_decide (v = 0) then v else
  let v := Z.lor (Z.land (Z.shiftr v 1) 0x55555555) (u32 (Z.shiftl (Z.land v 0x55555555) 1)) in
  let v := Z.lor (Z.land (Z.shiftr v 2) 0x33333333) (u32 (Z.shiftl (Z.land v 0x33333333) 2)) in
  let v := Z.lor (Z.land (Z.shiftr v 4) 0x0F0F0F0F) (u32 (Z.shiftl (Z.land v 0x0F0F0F0F) 4)) in
  let v := Z.lor (Z.land (Z.shiftr v 8) 0x00FF00FF) (u32 (Z.shiftl (Z.land v 0x00FF00FF) 8)) in
  Z.lor (Z.shiftr v 16) (u32 (Z.shiftl v 16)).

(** The members of [hobject_t] that bounds of groups have: the other ones are
    empty. *)
Record hobject_t := mkHobject { h_max : bool; h_pool : Z; h_hash : Z }.

Definition get_max : hobject_t := mkHobject true (- 2 ^ 63) 0.

Definition get_bitwise_key (h : hobject_t) : Z := if h_max h then 0x100000000 else _reverse_bits (h_hash h).

Definition get_hobj_start (pg : pg_t) : hobject_t := mkHobject false (m_pool pg) (m_seed pg).

Definition get_hobj_end (pg : pg_t) (pg_num : Z) : outcome hobject_t :=
  bits ← get_split_bits pg pg_num;
  let rev_start := _reverse_bits (m_seed pg) in
  let rev_end := Z.lor rev_start (Z.shiftr 0xffffffff bits) + 1 in
  if bool_decide (0x100000000 ≤ rev_end) then
    _ ← assert_that (bool_decide (rev_end = 0x100000000));
    Ret get_max
  else Ret (mkHobject false (m_pool pg) (_reverse_bits rev_end)).

(** ** Pools *)

Definition FLAG_HASHPSPOOL : Z := 1.

Record pg_pool_t := mkPool {
  pool_flags : Z;
  pool_type : Z;
  pool_size : Z;
  pool_crush_ruleset : Z;
  pool_object_hash : Z;
  pool_pg_num : Z;
  pool_pgp_num : Z;
  pool_pg_num_mask : Z;
  pool_pgp_num_mask : Z;
}.

Definition calc_pg_masks (p : pg_pool_t) : outcome pg_pool_t :=
  pg_num_mask ← mask_of (cbits (u32 (pool_pg_num p - 1)));
  pgp_num_mask ← mask_of (cbits (u32 (pool_pgp_num p - 1)));
  Ret (mkPool (pool_flags p) (pool_type p) (pool_size p) (pool_crush_ruleset p) (pool_object_hash p)
         (pool_pg_num p) (pool_pgp_num p) pg_num_mask pgp_num_mask).

Definition set_pg_num (p : pg_pool_t) (n : Z) : outcome pg_pool_t :=
  calc_pg_masks (mkPool (pool_flags p) (pool_type p) (pool_size p) (pool_crush_ruleset p) (pool_object_hash p)
    (u32 n) (pool_pgp_num p) (pool_pg_num_mask p) (pool_pgp_num_mask p)).

Definition set_pgp_num (p : pg_pool_t) (n : Z) : outcome pg_pool_t :=
  calc_pg_masks (mkPool (pool_flags p) (pool_type p) (pool_size p) (pool_crush_ruleset p) (pool_object_hash p)
    (pool_pg_num p) (u32 n) (pool_pg_num_mask p) (pool_pgp_num_mask p)).

Definition get_pg_num_divisor (p : pg_pool_t) (pgid : pg_t) : Z :=
  if bool_decide (pool_pg_num p = u32 (pool_pg_num_mask p + 1)) then pool_pg_num p else
  let mask := Z.shiftr (pool_pg_num_mask p) 1 in
  if bool_decide (Z.land (m_seed pgid) mask < Z.land (pool_pg_num p) mask) then u32 (pool_pg_num_mask p + 1)
  else Z.shiftr (u32 (pool_pg_num_mask p + 1)) 1.

Definition hash_key (p : pg_pool_t) (key ns : bytes) : outcome Z :=
  if bool_decide (ns = []) then ceph_str_hash (pool_object_hash p) key
  else ceph_str_hash (pool_object_hash p) (ns ++ [0x1f] ++ key).

Definition raw_hash_to_pg (p : pg_pool_t) (v : Z) : Z :=
  u32 (ceph_stable_mod (s32 v) (s32 (pool_pg_num p)) (s32 (pool_pg_num_mask p))).

Definition raw_pg_to_pg (p : pg_pool_t) (pg : pg_t) : pg_t :=
  set_ps pg (u32 (ceph_stable_mod (s32 (m_seed pg)) (s32 (pool_pg_num p)) (s32 (pool_pg_num_mask p)))).

Definition raw_pg_to_pps (p : pg_pool_t) (pg : pg_t) : Z :=
  let ps := ceph_stable_mod (s32 (m_seed pg)) (s32 (pool_pgp_num p)) (s32 (pool_pgp_num_mask p)) in
  if bool_decide (Z.land (pool_flags p) FLAG_HASHPSPOOL ≠ 0) then
    crush_hash32_2 CRUSH_HASH_RJENKINS1 (u32 ps) (u32 (m_pool pg))
  else u32 (ps + m_pool pg).

Definition get_random_pg_position (p : pg_pool_t) (pg : pg_t) (seed : Z) : Z :=
  let r := crush_hash32_2 CRUSH_HASH_RJENKINS1 seed 123 in
  let clear mask := Z.land r (u32 (Z.lnot mask)) in
  let r :=
    if bool_decide (pool_pg_num p = u32 (pool_pg_num_mask p + 1)) then clear (pool_pg_num_mask p)
    else
      let smaller_mask := Z.shiftr (pool_pg_num_mask p) 1 in
      if bool_decide (Z.land (m_seed pg) smaller_mask < Z.land (pool_pg_num p) smaller_mask) then clear (pool_pg_num_mask p)
      else clear smaller_mask in
  Z.lor r (m_seed pg).
