(* ===== verification/PlacementGroupFacts.v ===== *)
(** * Facts about placement groups

    Which hashes fall into which group, by the bits of the hash. *)

From S2P Require Import Prelude CrushHash PlacementGroup.

(** ** Numbers of bits *)

Lemma cbits_spec v : 0 < v → 0 < cbits v ∧ 2 ^ (cbits v - 1) ≤ v < 2 ^ cbits v.
Proof.
  intros Hv. unfold cbits. rewrite bool_decide_false by lia. replace (32 - (31 - Z.log2 v)) with (Z.log2 v + 1) by lia.
  pose proof (Z.log2_nonneg v). rewrite Z.add_simpl_r. split; [lia|]. pose proof (Z.log2_spec v Hv). by rewrite <-Z.add_1_r in *.
Qed.

Lemma cbits_le v n : 0 ≤ n → 0 ≤ v < 2 ^ n → 0 ≤ cbits v ≤ n.
Proof.
  intros Hn Hv. unfold cbits. case_bool_decide; [lia|]. pose proof (Z.log2_nonneg v). pose proof (Z.log2_lt_pow2 v n ltac:(lia)). lia.
Qed.

Lemma mask_of_ok bits : 0 ≤ bits < 31 → mask_of bits = Ret (Z.ones bits).
Proof. intros Hb. unfold mask_of. by rewrite bool_decide_true. Qed.

Lemma shiftr_ones n : 0 < n → Z.shiftr (Z.ones n) 1 = Z.ones (n - 1).
Proof. intros Hn. rewrite Z.shiftr_div_pow2, Z.ones_div_pow2 by lia. done. Qed.

Lemma land_ones_s32 x n : 0 ≤ n < 31 → Z.land (s32 x) (Z.ones n) = x mod 2 ^ n.
Proof.
  intros Hn. rewrite Z.land_ones by lia. unfold s32. pose proof (Z.pow_pos_nonneg 2 n).
  assert (2 ^ 32 = 2 ^ (32 - n) * 2 ^ n) as E32 by (rewrite <-Z.pow_add_r by lia; f_equal; lia).
  assert (2 ^ 31 = 2 ^ (31 - n) * 2 ^ n) as E31 by (rewrite <-Z.pow_add_r by lia; f_equal; lia).
  pose proof (Z.div_mod (x + 2 ^ 31) (2 ^ 32) ltac:(lia)) as Hd. set (q := (x + 2 ^ 31) / 2 ^ 32) in *.
  replace ((x + 2 ^ 31) mod 2 ^ 32 - 2 ^ 31) with (x + (- q * 2 ^ (32 - n)) * 2 ^ n) by (rewrite E32 in *; lia).
  by rewrite Z.mod_add by lia.
Qed.

(** ** The stable modulus *)

(** The group of a hash, among [b] groups of which [2^p] is the first power
    of two that is not smaller. *)
Definition stable (h b p : Z) : Z := if bool_decide (h mod 2 ^ p < b) then h mod 2 ^ p else h mod 2 ^ (p - 1).

Lemma stable_mod_spec h b p :
  0 < p < 31 → 0 ≤ b < 2 ^ 31 → ceph_stable_mod (s32 h) (s32 b) (Z.ones p) = stable h b p.
Proof.
  intros Hp Hb. unfold ceph_stable_mod, stable. rewrite shiftr_ones, !land_ones_s32 by lia. by rewrite (s32_small b) by lia.
Qed.

Lemma stable_range h b p : 0 < p → 2 ^ (p - 1) ≤ b → 0 ≤ stable h b p < b.
Proof.
  intros Hp Hb. unfold stable. pose proof (Z.mod_pos_bound h (2 ^ p)). pose proof (Z.mod_pos_bound h (2 ^ (p - 1))).
  pose proof (Z.pow_pos_nonneg 2 p). pose proof (Z.pow_pos_nonneg 2 (p - 1)). case_bool_decide; lia.
Qed.

Lemma pow2_double p : 0 < p → 2 ^ p = 2 * 2 ^ (p - 1).
Proof. intros Hp. rewrite <-Z.pow_succ_r by lia. f_equal. lia. Qed.

Lemma mod_mod_pow h p q : 0 ≤ q ≤ p → (h mod 2 ^ p) mod 2 ^ q = h mod 2 ^ q.
Proof. intros Hq. apply Z.mod_mod_divide. exists (2 ^ (p - q)). rewrite <-Z.pow_add_r by lia. f_equal. lia. Qed.

(** For a power of two it does not matter which mask is taken. *)
Lemma stable_power h p : 0 < p → stable h (2 ^ p) (p + 1) = stable h (2 ^ p) p.
Proof.
  intros Hp. unfold stable. rewrite Z.add_simpl_r. pose proof (Z.pow_pos_nonneg 2 p) as Hpos.
  rewrite (bool_decide_true (h mod 2 ^ p < 2 ^ p)) by (apply Z.mod_pos_bound; lia). case_bool_decide as Hlt; [|done].
  rewrite <-(mod_mod_pow h (p + 1) p) by lia. pose proof (Z.mod_pos_bound h (2 ^ (p + 1))). symmetry. apply Z.mod_small. split; [|done]. apply Z.mod_pos_bound, Z.pow_pos_nonneg; lia.
Qed.

Lemma cbits_pred b : 1 < b → let q := cbits (b - 1) in 0 < q ∧ (b = 2 ^ q ∧ cbits b = q + 1 ∨ 2 ^ (q - 1) ≤ b < 2 ^ q ∧ cbits b = q).
Proof.
  intros Hb q. unfold q. destruct (cbits_spec b ltac:(lia)) as [Hp Hr]. destruct (cbits_spec (b - 1) ltac:(lia)) as [Hp' Hr']. split; [done|].
  set (c := cbits b) in *. set (d := cbits (b - 1)) in *. assert (d ≤ c) as Hle.
  { destruct (decide (c < d)); [|lia]. assert (2 ^ c ≤ 2 ^ (d - 1)) by (apply Z.pow_le_mono_r; lia). lia. }
  assert (c ≤ d + 1) as Hle'.
  { destruct (decide (d + 1 < c)); [|lia]. assert (2 ^ (d + 1) ≤ 2 ^ (c - 1)) by (apply Z.pow_le_mono_r; lia). rewrite Z.pow_add_r in * by lia. lia. }
  destruct (decide (c = d)) as [E|]; [right; rewrite E in *; lia|left]. assert (c = d + 1) as E by lia. rewrite E, Z.add_simpl_r in *. lia.
Qed.

(** The groups of [b] groups: [cbits b] bits or [cbits (b - 1)] bits. *)
Lemma stable_cbits h b : 1 < b → stable h b (cbits b) = stable h b (cbits (b - 1)).
Proof.
  intros Hb. destruct (cbits_pred b Hb) as [Hq [[E ->]|[_ ->]]]; [|done]. rewrite E at 1 3. by apply stable_power.
Qed.

(** Splitting in one step or in several makes no difference. *)
Lemma stable_stable h b p b' p' :
  0 < p → 2 ^ (p - 1) ≤ b < 2 ^ p → b ≤ b' → 0 < p' → 2 ^ (p' - 1) ≤ b' < 2 ^ p' →
  stable (stable h b' p') b p = stable h b p.
Proof.
  intros Hp Hb Hle Hp' Hb'. assert (p ≤ p') as Hpp.
  { destruct (decide (p ≤ p')); [done|]. assert (2 ^ p' ≤ 2 ^ (p - 1)) by (apply Z.pow_le_mono_r; lia). lia. }
  pose proof (Z.pow_pos_nonneg 2 (p - 1)) as Hpos. assert (∀ e, p ≤ e → stable (h mod 2 ^ e) b p = stable h b p) as Hsame.
  { intros e He. unfold stable. by rewrite !mod_mod_pow by lia. }
  unfold stable at 2. case_bool_decide as Hlt; [by apply Hsame|]. destruct (decide (p = p')) as [<-|]; [|apply Hsame; lia].
  pose proof (Z.mod_pos_bound h (2 ^ (p - 1)) ltac:(lia)). unfold stable. rewrite (Z.mod_small (h mod 2 ^ (p - 1)) (2 ^ p)) by lia.
  rewrite bool_decide_true by lia. by rewrite bool_decide_false by lia.
Qed.

(** ** The bits that decide on the group *)

(** How many low bits the hashes of group [s] of [b] have in common. *)
Definition group_bits (s b p : Z) : Z := if bool_decide (s mod 2 ^ (p - 1) < b - 2 ^ (p - 1)) then p else p - 1.

Lemma half_cases m H : 0 ≤ m < 2 * H → m < H ∧ m mod H = m ∨ H ≤ m ∧ m mod H = m - H.
Proof.
  intros Hm. destruct (decide (m < H)); [left; by rewrite Z.mod_small by lia|right]. split; [lia|].
  rewrite <-(Z.mod_small (m - H) H) by lia. replace (m - H) with (m + (-1) * H) by lia. by rewrite Z.mod_add by lia.
Qed.

Lemma stable_bits h s b p :
  0 < p → 2 ^ (p - 1) ≤ b < 2 ^ p → 0 ≤ s < b → stable h b p = s ↔ h mod 2 ^ group_bits s b p = s.
Proof.
  intros Hp Hb Hs. unfold stable, group_bits. set (H := 2 ^ (p - 1)) in *. pose proof (pow2_double p Hp) as E. fold H in E.
  assert (0 < H) as Hpos by (apply Z.pow_pos_nonneg; lia).
  pose proof (Z.mod_pos_bound h (2 ^ p) ltac:(lia)) as Hm. pose proof (Z.mod_pos_bound h H ltac:(lia)) as Hm'.
  pose proof (half_cases (h mod 2 ^ p) H ltac:(lia)) as Hh. pose proof (half_cases s H ltac:(lia)) as Hsh.
  assert ((h mod 2 ^ p) mod H = h mod H) as Hmm by (apply mod_mod_pow; lia). rewrite Hmm in Hh.
  repeat case_bool_decide; fold H; lia.
Qed.

(** ** Reversing the bits *)

Lemma bits_range v n : 0 ≤ n → 0 ≤ v → (∀ i, n ≤ i → Z.testbit v i = false) → v < 2 ^ n.
Proof.
  intros Hn Hv Hi. assert (v = v mod 2 ^ n) as ->; [|apply Z.mod_pos_bound, Z.pow_pos_nonneg; lia].
  apply Z.bits_inj'. intros i Hi0. destruct (decide (i < n)); [by rewrite Z.mod_pow2_bits_low by lia|].
  rewrite Z.mod_pow2_bits_high by lia. apply Hi. lia.
Qed.

Lemma range_bits v n i : 0 ≤ v < 2 ^ n → n ≤ i → Z.testbit v i = false.
Proof.
  intros Hv Hi. destruct (decide (0 ≤ n)); [|rewrite Z.pow_neg_r in Hv by lia; lia].
  rewrite <-(Z.mod_small v (2 ^ n)) by lia. apply Z.mod_pow2_bits_high. lia.
Qed.

(** Swapping neighbours at distance [s], where [m] has the lower ones. *)
Definition swap_level (v s m : Z) : Z := Z.lor (Z.land (Z.shiftr v s) m) (u32 (Z.shiftl (Z.land v m) s)).

Definition level_check (s m : Z) : bool :=
  forallb (λ i, if Z.testbit m i then bool_decide (Z.lxor i s = i + s) && negb (Z.testbit m (i - s))
                else bool_decide (Z.lxor i s = i - s) && Z.testbit m (i - s)) (seqZ 0 32).

Lemma swap_level_bit v s m i :
  level_check s m = true → 0 ≤ s → 0 ≤ i < 32 → Z.testbit (swap_level v s m) i = Z.testbit v (Z.lxor i s).
Proof.
  intros Hc Hs Hi. apply (forallb_range _ 32 i) in Hc; [|done]. cbv beta in Hc. unfold swap_level, u32.
  rewrite Z.lor_spec, Z.land_spec, Z.shiftr_spec, Z.mod_pow2_bits_low, Z.shiftl_spec, Z.land_spec by lia.
  destruct (Z.testbit m i); apply andb_true_iff in Hc as [He%bool_decide_eq_true Hm]; rewrite He.
  - apply negb_true_iff in Hm. rewrite Hm. by rewrite andb_true_r, andb_false_r, orb_false_r.
  - rewrite Hm. by rewrite andb_false_r, andb_true_r.
Qed.

Lemma swap_level_range v s m : 0 ≤ m < 2 ^ 32 → 0 ≤ s → 0 ≤ swap_level v s m < 2 ^ 32.
Proof.
  intros Hm Hs. assert (0 ≤ swap_level v s m) as H0.
  { apply Z.lor_nonneg. split; [apply Z.land_nonneg; lia|apply u32_range]. }
  split; [done|]. apply bits_range; [lia|done|]. intros i Hi. unfold swap_level, u32.
  by rewrite Z.lor_spec, Z.land_spec, (range_bits m 32 i), Z.mod_pow2_bits_high, andb_false_r by lia.
Qed.

Definition index_check (i : Z) : bool :=
  (31 - i =? Z.lxor (Z.lxor (Z.lxor (Z.lxor (Z.lxor i 16) 8) 4) 2) 1) && (Z.lxor i 16 =? if bool_decide (i < 16) then i + 16 else i - 16).

Lemma reversed_index i :
  0 ≤ i < 32 → 31 - i = Z.lxor (Z.lxor (Z.lxor (Z.lxor (Z.lxor i 16) 8) 4) 2) 1
    ∧ Z.lxor i 16 = if bool_decide (i < 16) then i + 16 else i - 16.
Proof.
  intros Hi. assert (index_check i = true) as Hc by (apply (forallb_range _ 32); [by vm_compute|done]).
  apply andb_true_iff in Hc as [H1 H2]. split; by apply Z.eqb_eq.
Qed.

Lemma reverse_bits_spec v :
  0 ≤ v < 2 ^ 32 → 0 ≤ _reverse_bits v < 2 ^ 32 ∧ ∀ i, 0 ≤ i < 32 → Z.testbit (_reverse_bits v) i = Z.testbit v (31 - i).
Proof.
  intros Hv. unfold _reverse_bits. case_bool_decide as Hz; [subst v; split; [lia|]; intros i _; by rewrite !Z.bits_0|].
  cbv zeta. fold (swap_level v 1 0x55555555). set (v1 := swap_level v 1 _). fold (swap_level v1 2 0x33333333). set (v2 := swap_level v1 2 _).
  fold (swap_level v2 4 0x0F0F0F0F). set (v3 := swap_level v2 4 _). fold (swap_level v3 8 0x00FF00FF). set (v4 := swap_level v3 8 _).
  assert (∀ i, 0 ≤ i < 32 → 0 ≤ Z.lxor i 8 < 32 ∧ 0 ≤ Z.lxor i 4 < 32 ∧ 0 ≤ Z.lxor i 2 < 32) as Hx.
  { intros i Hi. split_and!; apply (lxor_range 5); lia. }
  assert (∀ i, 0 ≤ i < 32 → Z.testbit v4 i = Z.testbit v (Z.lxor (Z.lxor (Z.lxor (Z.lxor i 8) 4) 2) 1)) as H4.
  { intros i Hi. unfold v4, v3, v2, v1. rewrite !swap_level_bit; try done; repeat (lia || apply Hx). }
  assert (0 ≤ v4 < 2 ^ 32) as Hr by (apply swap_level_range; lia).
  assert (0 ≤ Z.lor (Z.shiftr v4 16) (u32 (Z.shiftl v4 16))) as H0.
  { apply Z.lor_nonneg. split; [apply Z.shiftr_nonneg; lia|apply u32_range]. }
  split; [split; [done|]|].
  - apply bits_range; [lia|done|]. intros i Hi. unfold u32. rewrite Z.lor_spec, Z.shiftr_spec, Z.mod_pow2_bits_high by lia.
    by rewrite (range_bits v4 32) by lia.
  - intros i Hi. unfold u32. rewrite Z.lor_spec, Z.shiftr_spec, Z.mod_pow2_bits_low, Z.shiftl_spec by lia.
    destruct (reversed_index i Hi) as [-> Hs]. rewrite Hs. case_bool_decide.
    + rewrite (Z.testbit_neg_r _ (i - 16)), orb_false_r by lia. apply H4. lia.
    + rewrite (range_bits v4 32 (i + 16)) by lia. apply H4. lia.
Qed.

Lemma reverse_bits_involutive v : 0 ≤ v < 2 ^ 32 → _reverse_bits (_reverse_bits v) = v.
Proof.
  intros Hv. destruct (reverse_bits_spec v Hv) as [Hr Hb]. destruct (reverse_bits_spec _ Hr) as [Hr' Hb'].
  apply Z.bits_inj'. intros i Hi. destruct (decide (i < 32)).
  - rewrite Hb' by lia. rewrite Hb by lia. f_equal. lia.
  - by rewrite !(range_bits _ 32) by lia.
Qed.

(** Numbers with the same [e] low bits are a range, when the bits are
    reversed. *)
Section ranges.
Context (s e : Z) (He : 0 ≤ e ≤ 32) (Hs : 0 ≤ s < 2 ^ e).

Lemma prefix_range : 0 ≤ s < 2 ^ 32.
Proof. assert (2 ^ e ≤ 2 ^ 32) by (apply Z.pow_le_mono_r; lia). lia. Qed.

Lemma reversed_low : _reverse_bits s mod 2 ^ (32 - e) = 0.
Proof.
  destruct (reverse_bits_spec s prefix_range) as [Hr Hb]. apply Z.bits_inj'. intros i Hi. rewrite Z.bits_0.
  destruct (decide (i < 32 - e)); [|apply Z.mod_pow2_bits_high; lia]. rewrite Z.mod_pow2_bits_low, Hb by lia. apply (range_bits s e); lia.
Qed.

Lemma same_low_bits h :
  0 ≤ h < 2 ^ 32 → h mod 2 ^ e = s ↔ _reverse_bits h / 2 ^ (32 - e) = _reverse_bits s / 2 ^ (32 - e).
Proof.
  intros Hh. destruct (reverse_bits_spec s prefix_range) as [Hr Hb]. destruct (reverse_bits_spec h Hh) as [Hr' Hb']. split.
  - intros Heq. apply Z.bits_inj'. intros i Hi. rewrite !Z.div_pow2_bits by lia. destruct (decide (i + (32 - e) < 32)).
    + rewrite Hb, Hb' by lia. rewrite <-Heq, Z.mod_pow2_bits_low by lia. done.
    + by rewrite !(range_bits _ 32) by lia.
  - intros Heq. apply Z.bits_inj'. intros i Hi. destruct (decide (i < e)).
    + rewrite Z.mod_pow2_bits_low by lia. apply (f_equal (λ v, Z.testbit v (e - 1 - i))) in Heq. rewrite !Z.div_pow2_bits, Hb, Hb' in Heq by lia.
      replace (31 - (e - 1 - i + (32 - e))) with i in Heq by lia. done.
    + rewrite Z.mod_pow2_bits_high by lia. by rewrite (range_bits s e) by lia.
Qed.

Lemma reversed_end : Z.lor (_reverse_bits s) (Z.shiftr 0xffffffff e) + 1 = _reverse_bits s + 2 ^ (32 - e).
Proof.
  change 0xffffffff with (Z.ones 32). rewrite Z.shiftr_div_pow2, Z.ones_div_pow2 by lia.
  pose proof (Z.add_lor_land (_reverse_bits s) (Z.ones (32 - e))) as Ha. rewrite Z.land_ones, reversed_low in Ha by lia.
  rewrite Z.add_0_r in Ha. rewrite Ha, Z.ones_equiv. lia.
Qed.

Lemma reversed_range h :
  0 ≤ h < 2 ^ 32 → h mod 2 ^ e = s ↔ _reverse_bits s ≤ _reverse_bits h < _reverse_bits s + 2 ^ (32 - e).
Proof.
  intros Hh. rewrite same_low_bits by done. set (R := _reverse_bits h). set (S := _reverse_bits s). set (W := 2 ^ (32 - e)).
  assert (0 < W) as HW by (apply Z.pow_pos_nonneg; lia). pose proof reversed_low as Hlow. fold S W in Hlow.
  pose proof (Z.div_mod S W ltac:(lia)). pose proof (Z.div_mod R W ltac:(lia)). pose proof (Z.mod_pos_bound R W HW). split; [nia|].
  intros HR. apply Z.le_antisymm; [apply Z.lt_succ_r, Z.div_lt_upper_bound; nia|apply Z.div_le_lower_bound; nia].
Qed.

End ranges.

(** ** The group and its bounds *)

Lemma get_split_bits_spec pg b :
  0 ≤ m_seed pg < b → b < 2 ^ 31 → get_split_bits pg b = Ret (if bool_decide (b = 1) then 0 else group_bits (m_seed pg) b (cbits b)).
Proof.
  intros Hs Hb. unfold get_split_bits. case_bool_decide; [done|]. destruct (cbits_spec b ltac:(lia)) as [Hp Hr].
  rewrite (bool_decide_true (1 < b)) by lia. cbn [assert_that mbind outcome_bind].
  rewrite (bool_decide_true (cbits b ≠ 0)) by lia. cbn [assert_that mbind outcome_bind].
  pose proof (cbits_le b 31 ltac:(lia) ltac:(lia)). rewrite (bool_decide_false (31 ≤ _)) by lia. rewrite Z.shiftl_1_l. unfold group_bits.
  assert (b mod 2 ^ (cbits b - 1) = b - 2 ^ (cbits b - 1)) as ->; [|by case_bool_decide].
  pose proof (pow2_double (cbits b) Hp). destruct (half_cases b (2 ^ (cbits b - 1))) as [|[_ ?]]; lia.
Qed.

Lemma group_bits_range s b p : 0 < p → 2 ^ (p - 1) ≤ b < 2 ^ p → 0 ≤ s < b → 0 ≤ group_bits s b p ≤ p ∧ s < 2 ^ group_bits s b p.
Proof.
  intros Hp Hb Hs. unfold group_bits. pose proof (pow2_double p Hp). pose proof (half_cases s (2 ^ (p - 1)) ltac:(lia)). case_bool_decide; lia.
Qed.

(** The group of a hash, in words of the code. *)
Definition group_of (h b : Z) : Z := if bool_decide (b = 1) then 0 else stable h b (cbits b).

Lemma group_of_range h b : 0 < b → 0 ≤ group_of h b < b.
Proof.
  intros Hb. unfold group_of. case_bool_decide; [lia|]. destruct (cbits_spec b ltac:(lia)). by apply stable_range; lia.
Qed.

Lemma group_of_bits h s b e pg :
  get_split_bits pg b = Ret e → m_seed pg = s → 0 ≤ s < b → b < 2 ^ 31 → 0 ≤ e ≤ 31 ∧ s < 2 ^ e ∧ (group_of h b = s ↔ h mod 2 ^ e = s).
Proof.
  intros He <- Hs Hb. rewrite get_split_bits_spec in He by lia. injection He as <-. unfold group_of. case_bool_decide.
  - split_and!; [lia|lia|lia|]. rewrite Z.pow_0_r, Z.mod_1_r. done.
  - destruct (cbits_spec b ltac:(lia)) as [Hp Hr]. pose proof (cbits_le b 31 ltac:(lia) ltac:(lia)).
    destruct (group_bits_range (m_seed pg) b (cbits b)) as [? ?]; [lia..|]. split_and!; [lia|lia|lia|]. by apply stable_bits; lia.
Qed.

(** ** Pools *)

Record pool_ok (p : pg_pool_t) : Prop := {
  ok_pg_num : 0 < pool_pg_num p < 2 ^ 30;
  ok_pgp_num : 0 < pool_pgp_num p < 2 ^ 30;
  ok_pg_mask : pool_pg_num_mask p = Z.ones (cbits (pool_pg_num p - 1));
  ok_pgp_mask : pool_pgp_num_mask p = Z.ones (cbits (pool_pgp_num p - 1));
}.

Lemma ones_small p : 0 ≤ p < 31 → 0 ≤ Z.ones p < 2 ^ 31.
Proof.
  intros Hp. rewrite Z.ones_equiv. pose proof (Z.pow_pos_nonneg 2 p). assert (2 ^ p ≤ 2 ^ 30) by (apply Z.pow_le_mono_r; lia). lia.
Qed.

Lemma pool_mod h b :
  0 < b < 2 ^ 30 → u32 (ceph_stable_mod (s32 h) (s32 b) (s32 (Z.ones (cbits (b - 1))))) = group_of h b.
Proof.
  intros Hb. pose proof (group_of_range h b ltac:(lia)) as Hr. pose proof (cbits_le (b - 1) 30 ltac:(lia) ltac:(lia)).
  rewrite (s32_small (Z.ones _)) by (pose proof (ones_small (cbits (b - 1))); lia). unfold group_of in *. case_bool_decide as E.
  - subst b. unfold ceph_stable_mod. rewrite bool_decide_true; [by rewrite Z.land_0_r|]. by rewrite Z.land_0_r.
  - destruct (cbits_spec (b - 1) ltac:(lia)) as [Hp _]. rewrite stable_mod_spec by lia. rewrite <-stable_cbits by lia. by rewrite u32_small by lia.
Qed.

Lemma ancestor_mod h b : 0 < b < 2 ^ 30 → u32 (ceph_stable_mod (s32 h) (s32 b) (Z.ones (cbits b))) = group_of h b.
Proof.
  intros Hb. pose proof (group_of_range h b ltac:(lia)) as Hr. destruct (cbits_spec b ltac:(lia)) as [Hp _].
  pose proof (cbits_le b 30 ltac:(lia) ltac:(lia)). rewrite stable_mod_spec by lia. unfold group_of in *.
  case_bool_decide as E; [|by rewrite u32_small by lia]. subst b. unfold stable. change (cbits 1) with 1. change (2 ^ (1 - 1)) with 1.
  rewrite Z.mod_1_r. case_bool_decide; [|done]. pose proof (Z.mod_pos_bound h (2 ^ 1)). rewrite u32_small; lia.
Qed.

Lemma get_ancestor_spec pg b : 0 < b < 2 ^ 30 → get_ancestor pg b = Ret (set_ps pg (group_of (m_seed pg) b)).
Proof.
  intros Hb. unfold get_ancestor. pose proof (cbits_le b 30 ltac:(lia) ltac:(lia)). rewrite mask_of_ok by lia. cbn [mbind outcome_bind].
  by rewrite ancestor_mod.
Qed.

Lemma raw_pg_to_pg_spec p pg : pool_ok p → raw_pg_to_pg p pg = set_ps pg (group_of (m_seed pg) (pool_pg_num p)).
Proof. intros [Hn _ Hm _]. unfold raw_pg_to_pg. by rewrite Hm, pool_mod. Qed.

Lemma group_of_group_of h b b' : 0 < b ≤ b' → group_of (group_of h b') b = group_of h b.
Proof.
  intros Hb. unfold group_of. case_bool_decide; [done|]. destruct (decide (b' = 1)) as [->|Hb']; [lia|]. rewrite bool_decide_false by done.
  destruct (cbits_spec b ltac:(lia)), (cbits_spec b' ltac:(lia)). apply stable_stable; lia.
Qed.

Lemma calc_pg_masks_spec p :
  0 < pool_pg_num p < 2 ^ 30 → 0 < pool_pgp_num p < 2 ^ 30 →
  ∃ p', calc_pg_masks p = Ret p' ∧ pool_ok p' ∧ pool_pg_num p' = pool_pg_num p ∧ pool_pgp_num p' = pool_pgp_num p.
Proof.
  intros Hn Hnp. unfold calc_pg_masks. rewrite !u32_small by lia.
  pose proof (cbits_le (pool_pg_num p - 1) 30 ltac:(lia) ltac:(lia)). pose proof (cbits_le (pool_pgp_num p - 1) 30 ltac:(lia) ltac:(lia)).
  rewrite !mask_of_ok by lia. cbn [mbind outcome_bind]. eexists. split; [reflexivity|]. split; [|done]. by constructor.
Qed.

(** ** The children of a group *)

Lemma lor_add m k r : 0 ≤ k → 0 ≤ r < 2 ^ k → Z.lor (Z.shiftl m k) r = m * 2 ^ k + r.
Proof.
  intros Hk Hr. pose proof (Z.add_lor_land (Z.shiftl m k) r) as Ha. assert (Z.land (Z.shiftl m k) r = 0) as E.
  { apply Z.bits_inj'. intros i Hi. rewrite Z.land_spec, Z.bits_0. destruct (decide (i < k)).
    - by rewrite Z.shiftl_spec, Z.testbit_neg_r by lia.
    - by rewrite (range_bits r k), andb_false_r by lia. }
  rewrite E, Z.shiftl_mul_pow2 in Ha by lia. rewrite Z.shiftl_mul_pow2 by lia. lia.
Qed.

Lemma lor_seed n seed k : 0 ≤ k → 0 ≤ seed → Z.lor (Z.shiftl n k) seed = Z.lor n (seed / 2 ^ k) * 2 ^ k + seed mod 2 ^ k.
Proof.
  intros Hk Hs. pose proof (Z.pow_pos_nonneg 2 k). pose proof (Z.mod_pos_bound seed (2 ^ k) ltac:(lia)) as Hm.
  transitivity (Z.lor (Z.shiftl n k) (Z.lor (Z.shiftl (seed / 2 ^ k) k) (seed mod 2 ^ k))).
  - f_equal. rewrite lor_add, Z.mul_comm by lia. apply Z.div_mod. lia.
  - by rewrite Z.lor_assoc, <-Z.shiftl_lor, lor_add by lia.
Qed.

Lemma lor_1 n : Z.lor n 1 = 2 * (n / 2) + 1.
Proof.
  apply Z.bits_inj'. intros i Hi. rewrite Z.lor_spec. destruct (decide (i = 0)) as [->|].
  - rewrite Z.testbit_odd_0. by rewrite orb_true_r.
  - replace i with (Z.succ (i - 1)) by lia. rewrite Z.testbit_odd_succ by lia. rewrite Z.div2_bits by lia.
    assert (Z.testbit 1 (Z.succ (i - 1)) = false) as -> by (apply (range_bits 1 1); lia). by rewrite orb_false_r.
Qed.

Section children.
Context (pg : pg_t) (old new : Z) (Hseed : 0 ≤ m_seed pg < old) (Hnew : old < new < 2 ^ 30).
#[local] Abbreviation k := (cbits old - 1).
#[local] Abbreviation seed := (m_seed pg).

Lemma old_bits : 0 ≤ k ∧ 2 ^ k ≤ old < 2 * 2 ^ k.
Proof. destruct (cbits_spec old ltac:(lia)) as [Hp Hr]. pose proof (pow2_double (cbits old) Hp). lia. Qed.

Definition s_at (n : Z) : Z := Z.lor (Z.shiftl n k) seed.

Lemma s_at_bounds n : 0 ≤ n → n * 2 ^ k ≤ s_at n.
Proof.
  intros Hn. destruct old_bits as [Hk Ho]. unfold s_at. rewrite lor_seed by lia. pose proof (Z.mod_pos_bound seed (2 ^ k) ltac:(lia)).
  assert (0 ≤ seed / 2 ^ k < 2) as Ht by (split; [apply Z.div_pos; lia|apply Z.div_lt_upper_bound; lia]).
  assert (n ≤ Z.lor n (seed / 2 ^ k)); [|nia]. assert (seed / 2 ^ k = 0 ∨ seed / 2 ^ k = 1) as [-> | ->] by lia; [rewrite Z.lor_0_r; lia|].
  rewrite lor_1. pose proof (Z.div_mod n 2 ltac:(lia)). pose proof (Z.mod_pos_bound n 2). lia.
Qed.

Lemma s_at_mono n m : 0 ≤ n ≤ m → s_at n ≤ s_at m.
Proof.
  intros Hn. destruct old_bits as [Hk Ho]. unfold s_at. rewrite !lor_seed by lia.
  assert (0 ≤ seed / 2 ^ k < 2) as Ht by (split; [apply Z.div_pos; lia|apply Z.div_lt_upper_bound; lia]).
  assert (Z.lor n (seed / 2 ^ k) ≤ Z.lor m (seed / 2 ^ k)); [|nia].
  assert (seed / 2 ^ k = 0 ∨ seed / 2 ^ k = 1) as [-> | ->] by lia; [rewrite !Z.lor_0_r; lia|].
  rewrite !lor_1. pose proof (Z.div_le_mono n m 2). lia.
Qed.

(** The hashes of a group have its seed in their low bits. *)
Lemma s_at_group x : 0 ≤ x → group_of x old = seed → s_at (x / 2 ^ k) = x.
Proof.
  intros Hx Hg. destruct old_bits as [Hk Ho]. unfold s_at. rewrite lor_seed by lia. unfold group_of in Hg.
  destruct (decide (old = 1)) as [->|Hne].
  { change (cbits 1 - 1) with 0. rewrite Z.pow_0_r, Z.mod_1_r, !Z.div_1_r. assert (seed = 0) as -> by lia. rewrite Z.lor_0_r. lia. }
  rewrite bool_decide_false in Hg by done. unfold stable in Hg. pose proof (Z.div_mod x (2 ^ k) ltac:(lia)) as Hdiv.
  case_bool_decide as Hc.
  2:{ rewrite <-Hg, Z.mod_mod, (Z.div_small (x mod 2 ^ k)) by (lia || (apply Z.mod_pos_bound; lia)). rewrite Z.lor_0_r. lia. }
  rewrite <-Hg, mod_mod_pow by lia. pose proof (pow2_double (cbits old) ltac:(lia)) as E. rewrite E at 1. rewrite (Z.mul_comm 2).
  rewrite Z.rem_mul_r by lia. rewrite (Z.mul_comm (2 ^ k) (_ mod 2)), Z.div_add by lia.
  rewrite (Z.div_small (x mod 2 ^ k)) by (apply Z.mod_pos_bound; lia). rewrite Z.add_0_l.
  assert (Z.lor (x / 2 ^ k) ((x / 2 ^ k) mod 2) = x / 2 ^ k) as ->; [|lia]. set (q := x / 2 ^ k). pose proof (Z.div_mod q 2 ltac:(lia)).
  pose proof (Z.mod_pos_bound q 2 ltac:(lia)). assert (q mod 2 = 0 ∨ q mod 2 = 1) as [Hq|Hq] by lia; rewrite Hq; [apply Z.lor_0_r|rewrite lor_1; lia].
Qed.

Definition child_seed (x : Z) : Prop := old ≤ x < new ∧ group_of x old = seed.

Lemma split_loop_spec fuel n children :
  1 ≤ n → (n - 1) * 2 ^ k < new → (Z.to_nat (new + 1 - n) < fuel)%nat →
  (∀ q, q ∈ children → ∃ x, q = set_ps pg x ∧ child_seed x) →
  (∀ x, child_seed x → x / 2 ^ k < n → set_ps pg x ∈ children) →
  ∃ children', split_loop pg old new fuel (cbits old) (Z.ones (cbits old)) n children = Ret children'
    ∧ ∀ q, q ∈ children' ↔ ∃ x, q = set_ps pg x ∧ child_seed x.
Proof.
  revert n children. induction fuel as [|fuel IH]; intros n children Hn Hb Hf Hin Hall; [lia|]. destruct old_bits as [Hk Ho].
  cbn [split_loop]. assert (0 ≤ Z.shiftl n k < 2 ^ 32) as Hsh by (rewrite Z.shiftl_mul_pow2 by lia; nia).
  rewrite (u32_small (Z.shiftl n k)) by lia. fold (s_at n). pose proof (s_at_bounds n ltac:(lia)) as Hge.
  assert (∀ x, child_seed x → x / 2 ^ k = n → x = s_at n) as Heq.
  { intros x [Hx Hg] <-. symmetry. apply s_at_group; [lia|done]. }
  rewrite (u32_small (n + 1)) by nia.
  assert (∀ c, (∀ q, q ∈ c → ∃ x, q = set_ps pg x ∧ child_seed x) → (∀ x, child_seed x → x / 2 ^ k < n + 1 → set_ps pg x ∈ c) → n * 2 ^ k < new →
    ∃ children', split_loop pg old new fuel (cbits old) (Z.ones (cbits old)) (n + 1) c = Ret children'
      ∧ ∀ q, q ∈ children' ↔ ∃ x, q = set_ps pg x ∧ child_seed x) as Hnext.
  { intros c H1 H2 H3. apply IH; [lia|by rewrite Z.add_simpl_r| |done|done]. assert (n < new) by nia. lia. }
  case_bool_decide as Hskip.
  - apply Hnext; [done| |lia]. intros x Hx Hlt. destruct (decide (x / 2 ^ k = n)) as [E|]; [|apply Hall; [done|lia]].
    rewrite (Heq x Hx E) in Hx. destruct Hx as [Hx _]. lia.
  - case_bool_decide as Hend.
    + eexists. split; [done|]. intros q. split; [apply Hin|]. intros (x & -> & Hx). apply Hall; [done|].
      destruct (decide (x / 2 ^ k < n)); [done|]. pose proof (s_at_mono n (x / 2 ^ k) ltac:(lia)). destruct Hx as [Hx Hg].
      rewrite (s_at_group x) in * by (done || lia). lia.
    + rewrite ancestor_mod by lia. apply Hnext; [| |lia].
      * intros q Hq. case_bool_decide as Hg; [|by apply Hin]. apply elem_of_union in Hq as [Hq| ->%elem_of_singleton]; [by apply Hin|].
        exists (s_at n). split; [done|]. split; [lia|done].
      * intros x Hx Hlt. destruct (decide (x / 2 ^ k = n)) as [E|].
        -- rewrite (Heq x Hx E) in Hx |- *. destruct Hx as [_ Hg]. rewrite bool_decide_true by done. set_solver.
        -- assert (set_ps pg x ∈ children) by (apply Hall; [done|lia]). case_bool_decide; set_solver.
Qed.

End children.
