(* ===== verification/PlacementGroupCorrect.v ===== *)
(** * What placement groups promise

    Theorems about the placement groups of a pool (src/src/osd/osd_types.cc):
    their splits, and the ranges of hashes that they hold. *)

From S2P Require Import Prelude CrushHash PlacementGroup PlacementGroupFacts.

Lemma group_of_small s b : 0 ≤ s < b → group_of s b = s.
Proof.
  intros Hs. unfold group_of. case_bool_decide; [lia|]. destruct (cbits_spec b ltac:(lia)). unfold stable.
  rewrite (Z.mod_small s (2 ^ cbits b)) by lia. by rewrite bool_decide_true by lia.
Qed.

Lemma is_split_spec pg old new :
  0 ≤ m_seed pg < old → old < new < 2 ^ 30 →
  ∃ N children, (∀ fuel, (N ≤ fuel)%nat → is_split pg old new fuel = Ret (bool_decide (children ≠ ∅), children))
    ∧ ∀ q, q ∈ children ↔ ∃ x, q = set_ps pg x ∧ child_seed pg old new x.
Proof.
  intros Hs Hn. pose proof (cbits_le old 30 ltac:(lia) ltac:(lia)). destruct (old_bits pg old Hs) as [Hk Ho].
  assert (∀ fuel, (Z.to_nat (new + 1) ≤ fuel)%nat → ∃ children', split_loop pg old new fuel (cbits old) (Z.ones (cbits old)) 1 ∅ = Ret children'
    ∧ ∀ q, q ∈ children' ↔ ∃ x, q = set_ps pg x ∧ child_seed pg old new x) as Hloop.
  { intros fuel Hf. apply split_loop_spec; [done|done|lia|lia|lia|set_solver|].
    intros x [Hx _] Hlt. assert (1 ≤ x / 2 ^ (cbits old - 1)) by (apply Z.div_le_lower_bound; lia). lia. }
  destruct (Hloop _ (le_n _)) as (children & _ & Hc). exists (Z.to_nat (new + 1)), children. split; [|done]. intros fuel Hf.
  destruct (Hloop fuel Hf) as (children' & Hrun & Hc'). assert (children' = children) as -> by (apply set_eq; intros q; by rewrite Hc, Hc').
  unfold is_split. rewrite (bool_decide_true (m_seed pg < old)) by lia. cbn [assert_that mbind outcome_bind]. rewrite (bool_decide_false (new ≤ old)) by lia.
  rewrite mask_of_ok by lia. cbn [mbind outcome_bind]. rewrite Hrun. done.
Qed.

Lemma brute_force_spec pg old new :
  0 ≤ m_seed pg < old → old < new < 2 ^ 30 →
  ∃ children, is_split_brute_force pg old new = Ret (bool_decide (children ≠ ∅), children)
    ∧ ∀ q, q ∈ children ↔ ∃ x, q = set_ps pg x ∧ child_seed pg old new x.
Proof.
  intros Hs Hn. unfold is_split_brute_force. pose proof (cbits_le old 30 ltac:(lia) ltac:(lia)). rewrite mask_of_ok by lia. cbn [mbind outcome_bind].
  match goal with |- context [foldM ?f _ _] => set (body := f) end.
  destruct (foldM_inv body (λ l c, ∀ q, q ∈ c ↔ ∃ x, q = set_ps pg x ∧ x ∈ l ∧ group_of x old = m_seed pg) (seqZ old (new - old)) ∅)
    as (children & -> & Hc).
  - intros q. split; [by intros ?%elem_of_empty|]. intros (x & _ & []%elem_of_nil & _).
  - intros l1 x l2 c Hl Hc. eexists. split; [reflexivity|]. intros q. rewrite ancestor_mod by lia.
    setoid_rewrite elem_of_app. setoid_rewrite list_elem_of_singleton. case_bool_decide as Hg.
    + rewrite elem_of_union, elem_of_singleton, Hc. split; [|naive_solver]. intros [(y & -> & ? & ?)| ->]; [exists y; tauto|exists x; tauto].
    + rewrite Hc. split; [naive_solver|]. intros (y & -> & [?| ->] & ?); [by exists y|done].
  - cbn [mbind outcome_bind]. exists children. split; [done|]. intros q. rewrite Hc. unfold child_seed. setoid_rewrite elem_of_seqZ_range.
    split; intros (x & -> & Hx & Hg); exists x; (split; [done|]); split; lia || done.
Qed.

(** C12. When the number of groups of a pool grows, groups split and nothing
    else moves. The loop of [is_split] ends, and finds the same children as
    the search through all new groups that the source has beside it. An object
    that was in a group is afterwards in that group or in one of its children,
    and [get_ancestor] leads from its new group to the old one. *)
Theorem pg_split p p' raw :
  pool_ok p → pool_ok p' → pool_pg_num p < pool_pg_num p' → 0 ≤ m_seed raw →
  let pg := raw_pg_to_pg p raw in
  let pg' := raw_pg_to_pg p' raw in
  get_ancestor pg' (pool_pg_num p) = Ret pg
  ∧ ∃ N children, (∀ fuel, (N ≤ fuel)%nat →
        is_split pg (pool_pg_num p) (pool_pg_num p') fuel = Ret (bool_decide (children ≠ ∅), children))
    ∧ is_split_brute_force pg (pool_pg_num p) (pool_pg_num p') = Ret (bool_decide (children ≠ ∅), children)
    ∧ (pg' = pg ∨ pg' ∈ children) ∧ pg ∉ children.
Proof.
  intros Hp Hp' Hlt Hraw pg pg'. unfold pg, pg'. rewrite !raw_pg_to_pg_spec by done. destruct Hp as [Hn _ _ _], Hp' as [Hn' _ _ _].
  set (b := pool_pg_num p) in *. set (b' := pool_pg_num p') in *. set (h := m_seed raw) in *.
  pose proof (group_of_range h b ltac:(lia)) as Hr. pose proof (group_of_range h b' ltac:(lia)) as Hr'.
  pose proof (group_of_group_of h b b' ltac:(lia)) as Hgg. split; [by rewrite get_ancestor_spec, <-Hgg by lia|].
  destruct (is_split_spec (set_ps raw (group_of h b)) b b') as (N & children & Hs & Hc); [done|lia|].
  destruct (brute_force_spec (set_ps raw (group_of h b)) b b') as (children' & Hbf & Hc'); [done|lia|].
  assert (children' = children) as -> by (apply set_eq; intros q; by rewrite Hc, Hc'). exists N, children. split_and!; [done|done| |].
  - destruct (decide (group_of h b' < b)) as [Hsm|Hbig].
    + left. rewrite <-Hgg, (group_of_small (group_of h b')) by lia. done.
    + right. apply Hc. exists (group_of h b'). split; [done|]. split; [lia|done].
  - rewrite Hc. intros (x & E & [Hx _]). apply (f_equal m_seed) in E. cbn in E. lia.
Qed.

Definition pool_of (n mask : Z) : pg_pool_t := mkPool 1 1 3 0 CEPH_STR_HASH_RJENKINS n n mask mask.

Lemma pool_of_ok n mask : 0 < n < 2 ^ 30 → mask = Z.ones (cbits (n - 1)) → pool_ok (pool_of n mask).
Proof. intros Hn ->. by constructor. Qed.

Lemma pg_split_witness : let raw := mkPg 5 1234567 (-1) in
  let pg := raw_pg_to_pg (pool_of 12 15) raw in
  let pg' := raw_pg_to_pg (pool_of 40 63) raw in
  get_ancestor pg' 12 = Ret pg
  ∧ ∃ N children, (∀ fuel, (N ≤ fuel)%nat → is_split pg 12 40 fuel = Ret (bool_decide (children ≠ ∅), children))
    ∧ is_split_brute_force pg 12 40 = Ret (bool_decide (children ≠ ∅), children)
    ∧ (pg' = pg ∨ pg' ∈ children) ∧ pg ∉ children.
Proof.
  apply (pg_split (pool_of 12 15) (pool_of 40 63) (mkPg 5 1234567 (-1))); [by apply pool_of_ok|by apply pool_of_ok|done|done].
Defined.

(** ** Ranges of hashes *)

Lemma raw_hash_to_pg_spec p h : pool_ok p → raw_hash_to_pg p h = group_of h (pool_pg_num p).
Proof. intros [Hn _ Hm _]. unfold raw_hash_to_pg. by rewrite Hm, pool_mod. Qed.

Lemma get_pg_num_divisor_spec p pg e :
  pool_ok p → 0 ≤ m_seed pg < pool_pg_num p → get_split_bits pg (pool_pg_num p) = Ret e → get_pg_num_divisor p pg = 2 ^ e.
Proof.
  intros [Hn _ Hm _] Hs He. rewrite get_split_bits_spec in He by lia. injection He as <-. unfold get_pg_num_divisor. rewrite Hm.
  set (n := pool_pg_num p) in *. destruct (decide (n = 1)) as [E|Hne]; [by rewrite E|]. rewrite (bool_decide_false (n = 1)) by done.
  destruct (cbits_pred n ltac:(lia)) as [Hq Hcase]. pose proof (cbits_le (n - 1) 30 ltac:(lia) ltac:(lia)) as Hle. set (q := cbits (n - 1)) in *.
  assert (2 ^ q ≤ 2 ^ 30) by (apply Z.pow_le_mono_r; lia). rewrite shiftr_ones, !Z.land_ones by lia. rewrite Z.ones_equiv, Z.add_1_r, Z.succ_pred.
  rewrite u32_small by lia. unfold group_bits. destruct Hcase as [[E ->]|[Hr ->]].
  - rewrite bool_decide_true by done. rewrite Z.add_simpl_r, <-E, bool_decide_false; [done|]. pose proof (Z.mod_pos_bound (m_seed pg) n). lia.
  - rewrite bool_decide_false by lia. pose proof (pow2_double q Hq). destruct (half_cases n (2 ^ (q - 1))) as [|[_ ->]]; [lia..|].
    case_bool_decide; [done|]. rewrite Z.shiftr_div_pow2, Z.pow_1_r by lia. symmetry. apply Z.div_unique_exact; lia.
Qed.

(** C13. The objects of a group are a range. For every group of a pool,
    [get_split_bits] gives the number of low bits that the hashes of its
    objects share, and [get_pg_num_divisor] the share of the pool that it
    holds; and a hash belongs to the group exactly when, with its bits
    reversed, it is between [get_hobj_start] and [get_hobj_end], where it
    is listed. *)
Theorem pg_range p pg :
  pool_ok p → 0 ≤ m_seed pg < pool_pg_num p →
  ∃ bits last, get_split_bits pg (pool_pg_num p) = Ret bits ∧ get_hobj_end pg (pool_pg_num p) = Ret last
    ∧ 0 ≤ bits < 32 ∧ get_pg_num_divisor p pg = 2 ^ bits
    ∧ ∀ h, 0 ≤ h < 2 ^ 32 →
      (raw_hash_to_pg p h = m_seed pg ↔ h mod 2 ^ bits = m_seed pg)
      ∧ (raw_hash_to_pg p h = m_seed pg ↔ get_bitwise_key (get_hobj_start pg) ≤ _reverse_bits h < get_bitwise_key last).
Proof.
  intros Hp Hs. pose proof (ok_pg_num _ Hp) as Hn. eexists. assert (get_split_bits pg (pool_pg_num p) = Ret _) as He by (apply get_split_bits_spec; lia).
  set (e := if bool_decide _ then _ else _) in *. destruct (group_of_bits 0 _ _ _ pg He eq_refl Hs ltac:(lia)) as (Hr & Hlt & _).
  assert (0 ≤ m_seed pg < 2 ^ e) as Hse by lia. assert (0 ≤ m_seed pg < 2 ^ 32) as Hs32 by lia.
  destruct (reverse_bits_spec (m_seed pg) Hs32) as [Hrev _]. pose proof (Z.pow_pos_nonneg 2 (32 - e) ltac:(lia) ltac:(lia)) as Hw.
  assert (_reverse_bits (m_seed pg) + 2 ^ (32 - e) ≤ 2 ^ 32) as Hend.
  { pose proof (reversed_low (m_seed pg) e ltac:(lia) Hse) as Hlow. assert (2 ^ 32 = 2 ^ e * 2 ^ (32 - e)) as E by (rewrite <-Z.pow_add_r by lia; f_equal; lia).
    pose proof (Z.div_mod (_reverse_bits (m_seed pg)) (2 ^ (32 - e)) ltac:(lia)) as Hdiv. rewrite Hlow in Hdiv. rewrite E in Hrev |- *.
    set (W := 2 ^ (32 - e)) in *. set (q := _ / W) in *. assert (q < 2 ^ e) by nia. nia. }
  assert (∃ last, get_hobj_end pg (pool_pg_num p) = Ret last ∧ get_bitwise_key last = _reverse_bits (m_seed pg) + 2 ^ (32 - e)) as (last & Hlast & Hkey).
  { unfold get_hobj_end. rewrite He. cbn [mbind outcome_bind]. rewrite reversed_end by (lia || done). change 0x100000000 with (2 ^ 32). case_bool_decide as Hmax.
    - rewrite bool_decide_true by lia. eexists. split; [reflexivity|]. cbn. lia.
    - eexists. split; [reflexivity|]. cbn. apply reverse_bits_involutive. lia. }
  exists last. split_and!; [done|done|lia|lia|by apply get_pg_num_divisor_spec|]. intros h Hh.
  destruct (group_of_bits h _ _ _ pg He eq_refl Hs ltac:(lia)) as (_ & _ & Hiff). rewrite raw_hash_to_pg_spec by done. split; [done|].
  rewrite Hiff, Hkey. cbn [get_bitwise_key get_hobj_start h_max h_hash]. apply reversed_range; [lia|done|done].
Qed.

Lemma pg_range_witness : ∃ bits last, get_split_bits (mkPg 5 9 (-1)) 12 = Ret bits ∧ get_hobj_end (mkPg 5 9 (-1)) 12 = Ret last
  ∧ 0 ≤ bits < 32 ∧ get_pg_num_divisor (pool_of 12 15) (mkPg 5 9 (-1)) = 2 ^ bits
  ∧ ∀ h, 0 ≤ h < 2 ^ 32 →
    (raw_hash_to_pg (pool_of 12 15) h = 9 ↔ h mod 2 ^ bits = 9)
    ∧ (raw_hash_to_pg (pool_of 12 15) h = 9 ↔ get_bitwise_key (get_hobj_start (mkPg 5 9 (-1))) ≤ _reverse_bits h < get_bitwise_key last).
Proof. apply (pg_range (pool_of 12 15) (mkPg 5 9 (-1))); [by apply pool_of_ok|done]. Defined.

Lemma lor_mod r s e : 0 ≤ e → r mod 2 ^ e = 0 → 0 ≤ s < 2 ^ e → Z.lor r s mod 2 ^ e = s.
Proof.
  intros He Hr Hs. rewrite <-Z.land_ones by done. rewrite Z.land_lor_distr_l, !Z.land_ones by done. rewrite Hr, Z.lor_0_l. by apply Z.mod_small.
Qed.

Lemma clear_mod r n e : 0 ≤ e ≤ n → n ≤ 32 → Z.land r (u32 (Z.lnot (Z.ones n))) mod 2 ^ e = 0.
Proof.
  intros He Hn. apply Z.bits_inj'. intros i Hi. rewrite Z.bits_0. destruct (decide (i < e)); [|apply Z.mod_pow2_bits_high; lia].
  rewrite Z.mod_pow2_bits_low, Z.land_spec by lia. unfold u32. rewrite Z.mod_pow2_bits_low, Z.lnot_spec, Z.ones_spec_low by lia. apply andb_false_r.
Qed.

(** [get_random_pg_position] returns a hash that belongs to the group,
    also in pools whose number of groups is not a power of two. *)
Theorem random_position_in_pg p pg seed :
  pool_ok p → 0 ≤ m_seed pg < pool_pg_num p → raw_hash_to_pg p (get_random_pg_position p pg seed) = m_seed pg.
Proof.
  intros Hp Hs. pose proof (ok_pg_num _ Hp) as Hn. rewrite raw_hash_to_pg_spec by done.
  assert (get_split_bits pg (pool_pg_num p) = Ret _) as He by (apply get_split_bits_spec; lia).
  set (e := if bool_decide _ then _ else _) in *. destruct (group_of_bits (get_random_pg_position p pg seed) _ _ _ pg He eq_refl Hs ltac:(lia)) as (Hr & Hlt & ->).
  pose proof (get_pg_num_divisor_spec p pg e Hp Hs He) as Hdiv. unfold get_random_pg_position, get_pg_num_divisor in *. rewrite (ok_pg_mask _ Hp) in *.
  set (n := pool_pg_num p) in *. pose proof (cbits_le (n - 1) 30 ltac:(lia) ltac:(lia)) as Hq. set (q := cbits (n - 1)) in *.
  assert (2 ^ q ≤ 2 ^ 30) by (apply Z.pow_le_mono_r; lia). assert (u32 (Z.ones q + 1) = 2 ^ q) as Hu by (rewrite Z.ones_equiv, u32_small; lia).
  rewrite Hu in Hdiv |- *.
  cbv zeta in *. apply lor_mod; [lia| |lia].
  assert (∀ a, 0 ≤ a → 2 ^ a = 2 ^ e → a = e) as Hinj by (intros a Ha E; apply (Z.pow_inj_r 2); lia).
  case_bool_decide as E1; [|case_bool_decide as E2].
  - apply clear_mod; [|lia]. rewrite E1 in Hdiv. rewrite (Hinj q) by (lia || done). lia.
  - apply clear_mod; [|lia]. rewrite (Hinj q) by (lia || done). lia.
  - assert (0 < q) as Hq0.
    { destruct (decide (n = 1)) as [->|]; [done|]. by destruct (cbits_pred n ltac:(lia)). }
    rewrite shiftr_ones by lia. apply clear_mod; [|lia]. rewrite Z.shiftr_div_pow2, Z.pow_1_r in Hdiv by lia. rewrite (pow2_double q) in Hdiv by lia.
    rewrite Z.mul_comm, Z.div_mul in Hdiv by lia. rewrite (Hinj (q - 1)) by (lia || done). lia.
Qed.

Lemma random_position_in_pg_witness :
  raw_hash_to_pg (pool_of 12 15) (get_random_pg_position (pool_of 12 15) (mkPg 5 9 (-1)) 77) = 9.
Proof. apply (random_position_in_pg (pool_of 12 15) (mkPg 5 9 (-1)) 77); [by apply pool_of_ok|done]. Defined.

(** ** Names *)

Lemma word_at_ok k i : (i + 4 ≤ length k)%nat → ∃ w, word_at k i = Ret w.
Proof.
  intros Hi. unfold word_at, byte_at. destruct (lookup_lt_is_Some_2 k i) as [b0 ->]; [lia|]. destruct (lookup_lt_is_Some_2 k (i + 1)) as [b1 ->]; [lia|].
  destruct (lookup_lt_is_Some_2 k (i + 2)) as [b2 ->]; [lia|]. destruct (lookup_lt_is_Some_2 k (i + 3)) as [b3 ->]; [lia|]. by eexists.
Qed.

Lemma rjenkins_loop_ok fuel k a b c : (length k ≤ 12 * fuel + 11)%nat → ∃ r, rjenkins_loop fuel k a b c = Ret r.
Proof.
  revert k a b c. induction fuel as [|fuel IH]; intros k a b c Hl; cbn [rjenkins_loop]; unfold blen in *; case_bool_decide; [by eexists|lia|by eexists|].
  destruct (word_at_ok k 0) as [wa ->]; [lia|]. destruct (word_at_ok k 4) as [wb ->]; [lia|]. destruct (word_at_ok k 8) as [wc ->]; [lia|].
  cbn [mbind outcome_bind]. destruct (mix _ _ _) as [[a' b'] c']. apply IH. rewrite length_drop. lia.
Qed.

Lemma rest_byte_ok k i shift v : ∃ w, rest_byte k i shift v = Ret w.
Proof.
  unfold rest_byte, byte_at, blen. case_bool_decide; [|by eexists]. destruct (lookup_lt_is_Some_2 k i) as [b ->]; [lia|]. by eexists.
Qed.

(** The hash of a name reads only the name, and has a value. *)
Lemma ceph_str_hash_total t s : ∃ h, ceph_str_hash t s = Ret h.
Proof.
  unfold ceph_str_hash, ceph_str_hash_rjenkins. repeat case_bool_decide; [by eexists| |by eexists].
  destruct (rjenkins_loop_ok (length s) s 0x9e3779b9 0x9e3779b9 0) as [[[[r a] b] c] ->]; [lia|]. cbn [mbind outcome_bind].
  repeat (match goal with |- context [rest_byte ?k ?i ?sh ?v] => destruct (rest_byte_ok k i sh v) as [? ->]; cbn [mbind outcome_bind] end).
  destruct (mix _ _ _) as [[? ?] h]. by exists h.
Qed.
