(* ===== verification/OSDMap.v ===== *)
(** * From objects to devices

    The mapping functions of src/src/osd/OSDMap.cc: the placement group of an
    object, the devices that CRUSH gives to the group, the overrides of the
    operator, and which of the devices are up; and [CrushWrapper::do_rule] of
    src/src/crush/CrushWrapper.h. *)

From S2P Require Import Prelude CrushRules CrushTables CrushHash CrushMap CrushMapper CrushBuilder PlacementGroup.

Import Crush Mapper.

Module OSDMap.

Definition CEPH_OSD_EXISTS : Z := 1.
Definition CEPH_OSD_UP : Z := 2.
Definition CEPH_OSD_IN : Z := 0x10000.
Definition CEPH_OSD_OUT : Z := 0.
Definition CEPH_OSD_MAX_PRIMARY_AFFINITY : Z := 0x10000.
Definition CEPH_OSD_DEFAULT_PRIMARY_AFFINITY : Z := 0x10000.

(** The members that the mapping depends on, with the names of the pools and
    the numbers of devices. *)
Record t := mkOSDMap {
  fsid : Z;
  epoch : Z;
  pool_max : Z;
  num_osd : Z;
  num_up_osd : Z;
  num_in_osd : Z;
  max_osd : Z;
  osd_state : list Z;
  osd_weight : list Z;
  osd_primary_affinity : option (list Z);
  pools : gmap Z pg_pool_t;
  pool_name : gmap Z string;
  name_pool : gmap string Z;
  pg_temp : gmap pg_t (list Z);
  primary_temp : gmap pg_t Z;
  pg_upmap : gmap pg_t (list Z);
  pg_upmap_items : gmap pg_t (list (Z * Z));
  crush : crush_map;
  crush_choose_args : gmap Z (list crush_choose_arg);
}.

Section map.
Context (m : t).

Definition has_state (osd flag : Z) : outcome bool :=
  s ← at_index (osd_state m) osd;
  Ret (bool_decide (Z.land s flag ≠ 0)).

Definition exists_ (osd : Z) : outcome bool :=
  if bool_decide (0 ≤ osd < max_osd m) then has_state osd CEPH_OSD_EXISTS else Ret false.

Definition is_up (osd : Z) : outcome bool :=
  e ← exists_ osd;
  if e : bool then has_state osd CEPH_OSD_UP else Ret false.

Definition is_down (osd : Z) : outcome bool := u ← is_up osd; Ret (negb u).

Definition get_pg_pool (p : Z) : option pg_pool_t := pools m !! p.

(** Pools of the two types; the assertion for others. *)
Definition can_shift_osds (pool : pg_pool_t) : outcome bool :=
  if bool_decide (pool_type pool = TYPE_REPLICATED) then Ret true
  else if bool_decide (pool_type pool = TYPE_ERASURE) then Ret false
  else Abort AssertFailed.

(** ** Objects *)

(** An error code, and the group with the whole hash. *)
Definition map_to_pg (poolid : Z) (name key nspace : bytes) : outcome (Z * option pg_t) :=
  match get_pg_pool poolid with
  | None => Ret (- ENOENT, None)
  | Some pool =>
    ps ← (if bool_decide (key ≠ []) then hash_key pool key nspace else hash_key pool name nspace);
    Ret (0, Some (mkPg (u64 poolid) ps (-1)))
  end.

(** [loc]: its pool, key, namespace and hash. *)
Definition object_locator_to_pg (name : bytes) (loc_pool : Z) (loc_key loc_nspace : bytes) (loc_hash : Z)
    : outcome (Z * option pg_t) :=
  if bool_decide (0 ≤ loc_hash) then
    match get_pg_pool loc_pool with
    | None => Ret (- ENOENT, None)
    | Some _ => Ret (0, Some (mkPg (u64 loc_pool) (u32 loc_hash) (-1)))
    end
  else map_to_pg loc_pool name loc_key loc_nspace.

(** ** Devices *)

(** One index of the loop that moves the existing devices to the front. *)
Definition shift_one (st : list Z * Z) (i : Z) : outcome (list Z * Z) :=
  let '(osds, removed) := st in
  osd ← at_index osds i;
  e ← exists_ osd;
  if negb e then Ret (osds, removed + 1)
  else if bool_decide (removed ≠ 0) then osds ← store_at osds (i - removed) osd; Ret (osds, removed)
  else Ret (osds, removed).

Definition _remove_nonexistent_osds (pool : pg_pool_t) (osds : list Z) : outcome (list Z) :=
  shift ← can_shift_osds pool;
  if shift : bool then
    '(osds, removed) ← foldM shift_one (osds, 0) (seqZ 0 (Z.of_nat (length osds)));
    Ret (if bool_decide (removed ≠ 0) then take (length osds - Z.to_nat removed) osds else osds)
  else
    foldM (λ out osd, e ← exists_ osd; Ret (out ++ [if e : bool then osd else CRUSH_ITEM_NONE])) [] osds.

(** [CrushWrapper::do_rule], with a working store of its own. *)
Definition do_rule (fuel : nat) (rule x maxout : Z) (weight : list Z) (choose_args_index : Z) : outcome (list Z) :=
  '(out, _) ← crush_do_rule (crush m) weight x (crush_choose_args m !! choose_args_index) fuel maxout rule (crush_init_workspace (crush m));
  Ret out.

(** The devices, and the placement seed. *)
Definition _pg_to_raw_osds (fuel : nat) (pool : pg_pool_t) (pg : pg_t) : outcome (list Z * Z) :=
  let pps := raw_pg_to_pps pool pg in
  let ruleno := crush_find_rule (crush m) (pool_crush_ruleset pool) (pool_type pool) (pool_size pool) in
  osds ← (if bool_decide (0 ≤ ruleno) then do_rule fuel ruleno (s32 pps) (pool_size pool) (osd_weight m) (m_pool pg) else Ret []);
  osds ← _remove_nonexistent_osds pool osds;
  Ret (osds, pps).

Definition _pick_primary (osds : list Z) : Z :=
  match list_find (λ osd, osd ≠ CRUSH_ITEM_NONE) osds with Some (_, osd) => osd | None => -1 end.

(** Whether a device is marked out, where an override names it. *)
Definition marked_out (osd : Z) : outcome bool :=
  if bool_decide (osd ≠ CRUSH_ITEM_NONE ∧ osd < max_osd m) then w ← at_index (osd_weight m) osd; Ret (bool_decide (w = 0)) else Ret false.

(** The search of [from] and [to] in the devices: whether [to] occurs, and
    the first place of [from] if [to] is not out. *)
Fixpoint find_item (raw : list Z) (i : nat) (from to : Z) (pos : option nat) : outcome (bool * option nat) :=
  match raw with
  | [] => Ret (false, pos)
  | osd :: raw =>
    if bool_decide (osd = to) then Ret (true, pos) else
    pos ← (if bool_decide (osd = from ∧ pos = None) then
             out ← marked_out to; Ret (if out : bool then None else Some i)
           else Ret pos);
    find_item raw (S i) from to pos
  end.

(** The pairs in turn, up to the first that applies. *)
Fixpoint apply_items (items : list (Z * Z)) (raw : list Z) : outcome (list Z) :=
  match items with
  | [] => Ret raw
  | (from, to) :: items =>
    '(found, pos) ← find_item raw 0 from to None;
    match pos with
    | Some i => if found : bool then apply_items items raw else Ret (<[i := to]> raw)
    | None => apply_items items raw
    end
  end.

Definition _apply_remap (pool : pg_pool_t) (raw_pg : pg_t) (raw : list Z) : outcome (list Z) :=
  let pg := raw_pg_to_pg pool raw_pg in
  match pg_upmap m !! pg with
  | Some osds =>
    rejected ← foldM (λ (rejected : bool) osd, if rejected then Ret true else marked_out osd) false osds;
    Ret (if rejected : bool then raw else osds)
  | None =>
    match pg_upmap_items m !! pg with
    | Some items => apply_items items raw
    | None => Ret raw
    end
  end.

(** Not there or not up. *)
Definition unusable (osd : Z) : outcome bool :=
  e ← exists_ osd;
  if negb e then Ret true else is_down osd.

Definition _raw_to_up_osds (pool : pg_pool_t) (raw : list Z) : outcome (list Z) :=
  shift ← can_shift_osds pool;
  foldM (λ up osd,
    gone ← unusable osd;
    Ret (if gone : bool then if shift : bool then up else up ++ [CRUSH_ITEM_NONE] else up ++ [osd])) [] raw.

(** ** Primaries *)

(** Whether a device has a primary affinity other than the default. *)
Definition any_affinity (affinity osds : list Z) : outcome bool :=
  foldM (λ (any : bool) osd,
    if any then Ret true else
    if bool_decide (osd = CRUSH_ITEM_NONE) then Ret false else
    a ← at_index affinity osd; Ret (bool_decide (a ≠ CEPH_OSD_DEFAULT_PRIMARY_AFFINITY))) false osds.

(** The loop that picks a primary: [pos] is the first one that was passed
    over. *)
Fixpoint pick_by_affinity (affinity : list Z) (seed : Z) (osds : list Z) (i : nat) (pos : option nat) : outcome (option nat) :=
  match osds with
  | [] => Ret pos
  | o :: osds =>
    if bool_decide (o = CRUSH_ITEM_NONE) then pick_by_affinity affinity seed osds (S i) pos else
    a ← at_index affinity o;
    if bool_decide (a < CEPH_OSD_MAX_PRIMARY_AFFINITY ∧ a ≤ Z.shiftr (crush_hash32_2 CRUSH_HASH_RJENKINS1 seed o) 16)
    then pick_by_affinity affinity seed osds (S i) (match pos with None => Some i | Some _ => pos end)
    else Ret (Some i)
  end.

(** The loop that moves the entries before [pos] back by one. *)
Definition shift_back (osds : list Z) (pos : Z) : outcome (list Z) :=
  foldM (λ osds i, v ← at_index osds (i - 1); store_at osds i v) osds (reverse (seqZ 1 pos)).

Definition _apply_primary_affinity (seed : Z) (pool : pg_pool_t) (osds : list Z) (primary : Z) : outcome (list Z * Z) :=
  match osd_primary_affinity m with
  | None => Ret (osds, primary)
  | Some affinity =>
    any ← any_affinity affinity osds;
    if negb any then Ret (osds, primary) else
    pos ← pick_by_affinity affinity seed osds 0 None;
    match pos with
    | None => Ret (osds, primary)
    | Some pos =>
      primary ← at_index osds (Z.of_nat pos);
      shift ← can_shift_osds pool;
      if shift && bool_decide (0 < pos)%nat then
        osds ← shift_back osds (Z.of_nat pos);
        osds ← store_at osds 0 primary;
        Ret (osds, primary)
      else Ret (osds, primary)
    end
  end.

Definition _get_temp_osds (pool : pg_pool_t) (pg : pg_t) : outcome (list Z * Z) :=
  let pg := raw_pg_to_pg pool pg in
  temp_pg ← match pg_temp m !! pg with
            | Some osds => foldM (λ temp_pg osd,
                gone ← unusable osd;
                if gone : bool then
                  shift ← can_shift_osds pool;
                  Ret (if shift : bool then temp_pg else temp_pg ++ [CRUSH_ITEM_NONE])
                else Ret (temp_pg ++ [osd])) [] osds
            | None => Ret []
            end;
  Ret (temp_pg, match primary_temp m !! pg with Some p => p | None => _pick_primary temp_pg end).

(** ** The mappings *)

Definition pg_to_raw_osds (fuel : nat) (pg : pg_t) : outcome (list Z * Z) :=
  match get_pg_pool (s64 (m_pool pg)) with
  | None => Ret ([], -1)
  | Some pool => '(raw, _) ← _pg_to_raw_osds fuel pool pg; Ret (raw, _pick_primary raw)
  end.

Definition pg_to_raw_up (fuel : nat) (pg : pg_t) : outcome (list Z * Z) :=
  match get_pg_pool (s64 (m_pool pg)) with
  | None => Ret ([], -1)
  | Some pool =>
    '(raw, pps) ← _pg_to_raw_osds fuel pool pg;
    raw ← _apply_remap pool pg raw;
    up ← _raw_to_up_osds pool raw;
    _apply_primary_affinity pps pool up (_pick_primary raw)
  end.

(** [_up] and [_up_primary]. *)
Definition up_osds (fuel : nat) (pool : pg_pool_t) (pg : pg_t) : outcome (list Z * Z) :=
  '(raw, pps) ← _pg_to_raw_osds fuel pool pg;
  raw ← _apply_remap pool pg raw;
  up ← _raw_to_up_osds pool raw;
  _apply_primary_affinity pps pool up (_pick_primary up).

(** The up set, if it is computed, and the acting set, each with its primary;
    [want_up] when the caller passes [up] or [up_primary]. *)
Definition _pg_to_up_acting_osds (fuel : nat) (pg : pg_t) (want_up raw_pg_to_pg : bool)
    : outcome (option (list Z * Z) * (list Z * Z)) :=
  match get_pg_pool (s64 (m_pool pg)) with
  | None => Ret (Some ([], -1), ([], -1))
  | Some pool =>
    if negb raw_pg_to_pg && bool_decide (pool_pg_num pool ≤ m_seed pg) then Ret (Some ([], -1), ([], -1)) else
    '(acting, acting_primary) ← _get_temp_osds pool pg;
    if bool_decide (acting = []) || want_up then
      '(up, up_primary) ← up_osds fuel pool pg;
      let '(acting, acting_primary) :=
        if bool_decide (acting = []) then (up, if bool_decide (acting_primary = -1) then up_primary else acting_primary)
        else (acting, acting_primary) in
      Ret (Some (up, up_primary), (acting, acting_primary))
    else Ret (None, (acting, acting_primary))
  end.

Definition pg_to_up_acting_osds (fuel : nat) (pg : pg_t) : outcome ((list Z * Z) * (list Z * Z)) :=
  '(up, acting) ← _pg_to_up_acting_osds fuel pg true true;
  Ret (default ([], -1) up, acting).

End map.

Definition calc_pg_rank (osd : Z) (acting : list Z) (nrep : Z) : outcome Z :=
  let nrep := if bool_decide (nrep = 0) then s32 (Z.of_nat (length acting)) else nrep in
  foldM (λ found i, if bool_decide (found ≠ -1) then Ret found else
    a ← at_index acting i; Ret (if bool_decide (a = osd) then i else -1)) (-1) (seqZ 0 nrep).

Definition primary_changed (oldprimary : Z) (oldacting : list Z) (newprimary : Z) (newacting : list Z) : outcome bool :=
  if bool_decide (oldacting = [] ∧ newacting = []) then Ret false
  else if bool_decide (oldacting = [] ∨ newacting = []) then Ret true
  else if bool_decide (oldprimary ≠ newprimary) then Ret true
  else
    r ← calc_pg_rank oldprimary oldacting 0;
    r' ← calc_pg_rank newprimary newacting 0;
    Ret (bool_decide (r ≠ r')).

(** ** Changes *)

Section setters.
Context (m : t).

Definition with_osds (max : Z) (state weight : list Z) (affinity : option (list Z)) : t :=
  mkOSDMap (fsid m) (epoch m) (pool_max m) (num_osd m) (num_up_osd m) (num_in_osd m) max state weight affinity (pools m)
    (pool_name m) (name_pool m) (pg_temp m) (primary_temp m) (pg_upmap m) (pg_upmap_items m) (crush m) (crush_choose_args m).

Definition with_pools (max : Z) (ps : gmap Z pg_pool_t) (names : gmap Z string) (by_name : gmap string Z) : t :=
  mkOSDMap (fsid m) (epoch m) max (num_osd m) (num_up_osd m) (num_in_osd m) (max_osd m) (osd_state m) (osd_weight m)
    (osd_primary_affinity m) ps names by_name (pg_temp m) (primary_temp m) (pg_upmap m) (pg_upmap_items m) (crush m) (crush_choose_args m).

Definition with_overrides (temp : gmap pg_t (list Z)) (primary : gmap pg_t Z) (upmap : gmap pg_t (list Z))
    (items : gmap pg_t (list (Z * Z))) : t :=
  mkOSDMap (fsid m) (epoch m) (pool_max m) (num_osd m) (num_up_osd m) (num_in_osd m) (max_osd m) (osd_state m) (osd_weight m)
    (osd_primary_affinity m) (pools m) (pool_name m) (name_pool m) temp primary upmap items (crush m) (crush_choose_args m).

(** [vector::resize], with a value for new elements. *)
Definition resize_vector (l : list Z) (n : Z) (v : Z) : list Z := resize (Z.to_nat n) v l.

(** The number of devices counted by a predicate on state and weight. *)
Definition count_osds (p : Z → Z → bool) : outcome Z :=
  foldM (λ n i,
    s ← at_index (osd_state m) i;
    if bool_decide (Z.land s CEPH_OSD_EXISTS ≠ 0) then
      w ← at_index (osd_weight m) i; Ret (if p s w then n + 1 else n)
    else Ret n) 0 (seqZ 0 (max_osd m)).

Definition calc_num_osds : outcome t :=
  num ← count_osds (λ _ _, true);
  num_up ← count_osds (λ s _, bool_decide (Z.land s CEPH_OSD_UP ≠ 0));
  num_in ← count_osds (λ _ w, bool_decide (w ≠ CEPH_OSD_OUT));
  Ret (mkOSDMap (fsid m) (epoch m) (pool_max m) num num_up num_in (max_osd m) (osd_state m) (osd_weight m)
    (osd_primary_affinity m) (pools m) (pool_name m) (name_pool m) (pg_temp m) (primary_temp m) (pg_upmap m) (pg_upmap_items m)
    (crush m) (crush_choose_args m)).

Definition set_state (o s : Z) : outcome t :=
  _ ← assert_that (bool_decide (o < max_osd m));
  state ← store_at (osd_state m) o (u8 s);
  Ret (with_osds (max_osd m) state (osd_weight m) (osd_primary_affinity m)).

Definition set_weight (o w : Z) : outcome t :=
  _ ← assert_that (bool_decide (o < max_osd m));
  weight ← store_at (osd_weight m) o w;
  state ← (if bool_decide (w ≠ 0) then s ← at_index (osd_state m) o; store_at (osd_state m) o (Z.lor s CEPH_OSD_EXISTS) else Ret (osd_state m));
  Ret (with_osds (max_osd m) state weight (osd_primary_affinity m)).

Definition set_primary_affinity (o w : Z) : outcome t :=
  _ ← assert_that (bool_decide (o < max_osd m));
  let affinity := default (replicate (Z.to_nat (max_osd m)) CEPH_OSD_DEFAULT_PRIMARY_AFFINITY) (osd_primary_affinity m) in
  affinity ← store_at affinity o (u32 w);
  Ret (with_osds (max_osd m) (osd_state m) (osd_weight m) (Some affinity)).

End setters.

(** The new entries are cleared once more by the loop. *)
Definition set_max_osd (m : t) (n : Z) : outcome t :=
  let state := resize_vector (osd_state m) n 0 in
  let weight := resize_vector (osd_weight m) n 0 in
  '(state, weight) ← foldM (λ '(state, weight) o,
      state ← store_at state o 0; weight ← store_at weight o CEPH_OSD_OUT; Ret (state, weight))
    (state, weight) (seqZ (max_osd m) (n - max_osd m));
  calc_num_osds (with_osds m n state weight
    ((λ a, resize_vector a n CEPH_OSD_DEFAULT_PRIMARY_AFFINITY) <$> osd_primary_affinity m)).

(** A map before the first incremental one, with an empty CRUSH map. *)
Definition new_OSDMap : t := mkOSDMap 0 0 (-1) 0 0 0 0 [] [] None ∅ ∅ ∅ ∅ ∅ ∅ ∅ Builder.crush_create ∅.

(** The members of an incremental map that concern them. *)
Record Incremental := mkIncremental {
  inc_fsid : Z;
  inc_epoch : Z;
  inc_fullmap : option t;
  new_max_osd : Z;
  new_pool_max : Z;
  new_pools : gmap Z pg_pool_t;
  new_pool_names : gmap Z string;
  old_pools : gset Z;
  new_weight : gmap Z Z;
  new_primary_affinity : gmap Z Z;
  new_state : gmap Z Z;
  new_up_client : gset Z;
  new_pg_temp : gmap pg_t (list Z);
  new_primary_temp : gmap pg_t Z;
  new_pg_upmap : gmap pg_t (list Z);
  old_pg_upmap : gset pg_t;
  new_pg_upmap_items : gmap pg_t (list (Z * Z));
  old_pg_upmap_items : gset pg_t;
  inc_crush : option (crush_map * gmap Z (list crush_choose_arg));
}.

(** New names: the old name of a renamed pool is forgotten. *)
Definition apply_pool_name (st : gmap Z string * gmap string Z) (pool : Z) (name : string) : gmap Z string * gmap string Z :=
  let '(names, by_name) := st in
  let by_name := match names !! pool with Some old => delete old by_name | None => by_name end in
  (<[pool := name]> names, <[name := pool]> by_name).

(** [pool_name[pool]] makes an entry with an empty name where there is none. *)
Definition remove_pool (st : gmap Z pg_pool_t * gmap Z string * gmap string Z) (pool : Z)
    : gmap Z pg_pool_t * gmap Z string * gmap string Z :=
  let '(ps, names, by_name) := st in
  (delete pool ps, delete pool names, delete (default "" (names !! pool)) by_name).

Definition apply_pools (m : t) (inc : Incremental) : t :=
  let max := if bool_decide (new_pool_max inc ≠ -1) then s32 (new_pool_max inc) else pool_max m in
  let ps := new_pools inc ∪ pools m in
  let '(names, by_name) := foldl (λ st pool, match new_pool_names inc !! pool with Some name => apply_pool_name st pool name | None => st end)
    (pool_name m, name_pool m) (ascending (dom (new_pool_names inc))) in
  let '(ps, names, by_name) := foldl remove_pool (ps, names, by_name) (ascending (old_pools inc)) in
  with_pools m max ps names by_name.

(** For the entries of a map, in the order of the keys. *)
Definition for_osds {A} (f : t → Z → A → outcome t) (changes : gmap Z A) (m : t) : outcome t :=
  foldM (λ m o, match changes !! o with Some a => f m o a | None => Ret m end) m (ascending (dom changes)).

Definition CEPH_OSD_AUTOOUT : Z := 4.
Definition CEPH_OSD_NEW : Z := 8.

Definition apply_weight (m : t) (o w : Z) : outcome t :=
  m ← set_weight m o w;
  if bool_decide (w ≠ 0) then
    s ← at_index (osd_state m) o;
    state ← store_at (osd_state m) o (u8 (Z.land s (Z.lnot (Z.lor CEPH_OSD_AUTOOUT CEPH_OSD_NEW))));
    Ret (with_osds m (max_osd m) state (osd_weight m) (osd_primary_affinity m))
  else Ret m.

Definition apply_state (m : t) (o st : Z) : outcome t :=
  let s := if bool_decide (st ≠ 0) then st else CEPH_OSD_UP in
  old ← at_index (osd_state m) o;
  if bool_decide (Z.land old CEPH_OSD_EXISTS ≠ 0 ∧ Z.land s CEPH_OSD_EXISTS ≠ 0) then
    m ← set_primary_affinity m o CEPH_OSD_DEFAULT_PRIMARY_AFFINITY;
    state ← store_at (osd_state m) o 0;
    Ret (with_osds m (max_osd m) state (osd_weight m) (osd_primary_affinity m))
  else
    state ← store_at (osd_state m) o (u8 (Z.lxor old s));
    Ret (with_osds m (max_osd m) state (osd_weight m) (osd_primary_affinity m)).

Definition apply_up (m : t) (o : Z) : outcome t :=
  s ← at_index (osd_state m) o;
  state ← store_at (osd_state m) o (Z.lor s (Z.lor CEPH_OSD_EXISTS CEPH_OSD_UP));
  Ret (with_osds m (max_osd m) state (osd_weight m) (osd_primary_affinity m)).

(** An empty vector removes the entry, and [-1] that of a primary. *)
Definition apply_overrides (m : t) (inc : Incremental) : t :=
  let unchanged {A} (new : gmap pg_t A) (old : gmap pg_t A) : gmap pg_t A := filter (λ '(pg, _), new !! pg = None) old in
  with_overrides m
    (filter (λ '(_, osds), osds ≠ []) (new_pg_temp inc) ∪ unchanged (new_pg_temp inc) (pg_temp m))
    (filter (λ '(_, o), o ≠ -1) (new_primary_temp inc) ∪ unchanged (new_primary_temp inc) (primary_temp m))
    (filter (λ '(pg, _), pg ∉ old_pg_upmap inc) (new_pg_upmap inc ∪ pg_upmap m))
    (filter (λ '(pg, _), pg ∉ old_pg_upmap_items inc) (new_pg_upmap_items inc ∪ pg_upmap_items m)).

Definition apply_crush (m : t) (inc : Incremental) : t :=
  match inc_crush inc with
  | None => m
  | Some (c, args) =>
    mkOSDMap (fsid m) (epoch m) (pool_max m) (num_osd m) (num_up_osd m) (num_in_osd m) (max_osd m) (osd_state m) (osd_weight m)
      (osd_primary_affinity m) (pools m) (pool_name m) (name_pool m) (pg_temp m) (primary_temp m) (pg_upmap m) (pg_upmap_items m) c args
  end.

Definition at_epoch (m : t) (f e : Z) : t :=
  mkOSDMap f e (pool_max m) (num_osd m) (num_up_osd m) (num_in_osd m) (max_osd m) (osd_state m) (osd_weight m)
    (osd_primary_affinity m) (pools m) (pool_name m) (name_pool m) (pg_temp m) (primary_temp m) (pg_upmap m) (pg_upmap_items m)
    (crush m) (crush_choose_args m).

(** The members that no mapping reads are left out, and with them the
    statements that set them: flags and releases, erasure code profiles,
    addresses, osd_info and osd_xinfo, uuids, the blacklist, the cluster
    snapshot, the full ratios and the last_change of a pool. A full map is
    what it decodes to. *)
Definition apply_incremental (m : t) (inc : Incremental) : outcome (Z * t) :=
  if bool_decide (inc_epoch inc ≠ 1 ∧ inc_fsid inc ≠ fsid m) then Ret (- EINVAL, m) else
  let f := if bool_decide (inc_epoch inc = 1) then inc_fsid inc else fsid m in
  _ ← assert_that (bool_decide (inc_epoch inc = u32 (epoch m + 1)));
  let m := at_epoch m f (u32 (epoch m + 1)) in
  match inc_fullmap inc with
  | Some full => Ret (0, full)
  | None =>
    m ← (if bool_decide (0 ≤ new_max_osd inc) then set_max_osd m (new_max_osd inc) else Ret m);
    let m := apply_pools m inc in
    m ← for_osds apply_weight (new_weight inc) m;
    m ← for_osds set_primary_affinity (new_primary_affinity inc) m;
    m ← for_osds apply_state (new_state inc) m;
    m ← foldM apply_up m (ascending (new_up_client inc));
    let m := apply_crush (apply_overrides m inc) inc in
    m ← calc_num_osds m;
    Ret (0, m)
  end.

End OSDMap.
