(* ===== verification/OSDMapFacts.v ===== *)
(** * Facts about the mapping to devices

    What the loops of src/src/osd/OSDMap.cc compute on a map whose vectors
    have the size they should have. *)

From S2P Require Import Prelude CrushRules CrushTables CrushHash CrushMap CrushMapper CrushPerm PlacementGroup PlacementGroupFacts OSDMap.

Import Crush Mapper OSDMap.

(** The vectors have [max_osd] entries, the pools are as they should be, and
    overrides do not name negative devices. *)
Record osdmap_ok (m : OSDMap.t) : Prop := {
  ok_max : 0 ≤ max_osd m < 2 ^ 31;
  ok_state : Z.of_nat (length (osd_state m)) = max_osd m;
  ok_weight : Z.of_nat (length (osd_weight m)) = max_osd m;
  ok_affinity a : osd_primary_affinity m = Some a → Z.of_nat (length a) = max_osd m;
  ok_pools i pool : pools m !! i = Some pool →
    pool_ok pool ∧ (pool_type pool = TYPE_REPLICATED ∨ pool_type pool = TYPE_ERASURE) ∧ 0 < pool_size pool < 256;
  ok_upmap pg osds : pg_upmap m !! pg = Some osds → Forall (λ o, 0 ≤ o) osds;
  ok_upmap_items pg items : pg_upmap_items m !! pg = Some items → Forall (λ '(_, to), 0 ≤ to) items;
}.

Section facts.
Context (m : OSDMap.t) (Hm : osdmap_ok m).

Definition flagged (osd flag : Z) : bool := bool_decide (Z.land (default 0 (osd_state m !! Z.to_nat osd)) flag ≠ 0).
Definition there (osd : Z) : bool := bool_decide (0 ≤ osd < max_osd m) && flagged osd CEPH_OSD_EXISTS.
Definition live (osd : Z) : bool := there osd && flagged osd CEPH_OSD_UP.

Lemma has_state_ok osd flag : 0 ≤ osd < max_osd m → has_state m osd flag = Ret (flagged osd flag).
Proof.
  intros Ho. pose proof (ok_state _ Hm). unfold has_state, flagged.
  destruct (at_index_lt (osd_state m) osd) as (s & -> & ->); [lia|]. done.
Qed.

Lemma exists_ok osd : exists_ m osd = Ret (there osd).
Proof. unfold exists_, there. case_bool_decide; [|done]. by rewrite has_state_ok. Qed.

Lemma is_up_ok osd : is_up m osd = Ret (live osd).
Proof.
  unfold is_up, live. rewrite exists_ok. cbn [mbind outcome_bind]. destruct (there osd) eqn:E; [|done].
  apply andb_true_iff in E as [E%bool_decide_eq_true _]. by rewrite has_state_ok.
Qed.

Lemma unusable_ok osd : unusable m osd = Ret (negb (live osd)).
Proof.
  unfold unusable, is_down. rewrite exists_ok, is_up_ok. cbn [mbind outcome_bind]. unfold live. by destruct (there osd).
Qed.

Lemma live_there osd : live osd = true → there osd = true.
Proof. by intros [? _]%andb_true_iff. Qed.

Lemma none_not_there : there CRUSH_ITEM_NONE = false.
Proof. unfold there. pose proof (ok_max _ Hm). rewrite bool_decide_false; [done|]. unfold CRUSH_ITEM_NONE. lia. Qed.

Lemma none_not_live : live CRUSH_ITEM_NONE = false.
Proof. unfold live. by rewrite none_not_there. Qed.

(** ** Leaving out devices *)

(** Positions of an erasure-coded pool stay, those of a replicated one close
    up. *)
Definition keep (shift : bool) (p : Z → bool) (osds : list Z) : list Z :=
  if shift then filter (λ o, p o = true) osds else (λ o, if p o then o else CRUSH_ITEM_NONE) <$> osds.

Lemma shift_loop osds :
  ∃ osds' removed, foldM (shift_one m) (osds, 0) (seqZ 0 (Z.of_nat (length osds))) = Ret (osds', removed)
    ∧ length osds' = length osds ∧ removed = Z.of_nat (length osds - length (filter (λ o, there o = true) osds))
    ∧ take (length (filter (λ o, there o = true) osds)) osds' = filter (λ o, there o = true) osds.
Proof.
  set (P := λ o, there o = true).
  destruct (foldM_inv (shift_one m) (λ l '(osds', removed), length osds' = length osds
      ∧ removed = Z.of_nat (length l - length (filter P (take (length l) osds)))
      ∧ take (length (filter P (take (length l) osds))) osds' = filter P (take (length l) osds)
      ∧ drop (length l) osds' = drop (length l) osds) (seqZ 0 (Z.of_nat (length osds))) (osds, 0)) as ([osds' removed] & -> & Hl & -> & Ht & _).
  - done.
  - intros l1 i l2 [osds' removed] Hl (Hlen & -> & Ht & Hd). assert (i = Z.of_nat (length l1) ∧ i < Z.of_nat (length osds)) as [-> Hi].
    { assert (seqZ 0 (Z.of_nat (length osds)) !! length l1 = Some i) as Hs by (rewrite Hl; by apply list_lookup_middle). apply lookup_seqZ in Hs. lia. }
    destruct (lookup_lt_is_Some_2 osds (length l1)) as [o Ho]; [lia|].
    assert (osds' !! length l1 = Some o) as Ho'. { rewrite <-(Nat.add_0_r (length l1)), <-lookup_drop, Hd, lookup_drop, Nat.add_0_r. done. }
    rewrite length_app. cbn [length]. rewrite Nat.add_1_r, (take_S_r _ _ o) by done. rewrite filter_app. set (F := filter P (take (length l1) osds)) in *.
    assert (length F ≤ length l1)%nat as HF.
    { unfold F. etransitivity; [apply length_filter|]. rewrite length_take. lia. }
    assert (drop (S (length l1)) osds' = drop (S (length l1)) osds) as Hd1.
    { rewrite <-(Nat.add_1_r (length l1)), <-!drop_drop, Hd. done. }
    unfold shift_one. rewrite (at_index_ok _ _ o) by (lia || by rewrite Nat2Z.id). cbn [mbind outcome_bind]. rewrite exists_ok. cbn [mbind outcome_bind].
    rewrite filter_cons, filter_nil. destruct (decide (P o)) as [E|E]; [change (there o = true) in E|apply not_true_is_false in E]; rewrite E; cbn [negb].
    + case_bool_decide as Hz.
      * rewrite store_at_ok by lia. cbn [mbind outcome_bind]. eexists. split; [reflexivity|].
        replace (Z.to_nat (Z.of_nat (length l1) - Z.of_nat (length l1 - length F))) with (length F) by lia.
        rewrite length_insert, length_app. cbn [length]. split_and!; [done|lia| |].
        -- rewrite Nat.add_1_r, (take_S_r _ _ o) by (apply list_lookup_insert_eq; lia). rewrite take_insert_ge by lia. by rewrite Ht.
        -- by rewrite drop_insert_lt by lia.
      * eexists. split; [reflexivity|]. rewrite length_app. cbn [length]. split_and!; [done|lia| |done].
        assert (length F = length l1) as HFl by lia. rewrite Nat.add_1_r, HFl, (take_S_r _ _ o) by done. rewrite <-HFl at 1. by rewrite Ht.
    + rewrite app_nil_r. eexists. split; [reflexivity|]. split_and!; [done|lia|done|done].
  - rewrite length_seqZ, Nat2Z.id, (take_ge osds) in * by lia. by exists osds', (Z.of_nat (length osds - length (filter P osds))).
Qed.

Definition shifts (pool : pg_pool_t) : bool := bool_decide (pool_type pool = TYPE_REPLICATED).

Definition type_ok (pool : pg_pool_t) : Prop := pool_type pool = TYPE_REPLICATED ∨ pool_type pool = TYPE_ERASURE.

Lemma can_shift_ok pool : type_ok pool → can_shift_osds pool = Ret (shifts pool).
Proof. unfold can_shift_osds, shifts. intros [->| ->]; done. Qed.

Lemma foldM_append {A} (f : A → outcome Z) (g : A → Z) l :
  (∀ a, f a = Ret (g a)) → foldM (λ out a, v ← f a; Ret (out ++ [v])) [] l = Ret (g <$> l).
Proof.
  intros Hf. destruct (foldM_inv (λ out a, v ← f a; Ret (out ++ [v])) (λ l out, out = g <$> l) l []) as (out & -> & ->); [done| |done].
  intros l1 a l2 out _ ->. rewrite Hf. eexists. split; [reflexivity|]. by rewrite fmap_app.
Qed.

Lemma remove_nonexistent_ok pool osds :
  type_ok pool → _remove_nonexistent_osds m pool osds = Ret (keep (shifts pool) there osds).
Proof.
  intros Ht. unfold _remove_nonexistent_osds. rewrite can_shift_ok by done. cbn [mbind outcome_bind]. unfold keep. destruct (shifts pool).
  - destruct (shift_loop osds) as (osds' & removed & -> & Hl & -> & Htake). cbn [mbind outcome_bind].
    pose proof (length_filter (λ o, there o = true) osds). f_equal. case_bool_decide as Hz.
    + rewrite Hl. replace (length osds - Z.to_nat _)%nat with (length (filter (λ o, there o = true) osds)) by lia. done.
    + rewrite <-Htake. by rewrite take_ge by lia.
  - destruct (foldM_inv (λ out osd, e ← exists_ m osd; Ret (out ++ [if e : bool then osd else CRUSH_ITEM_NONE]))
      (λ l out, out = (λ o, if there o then o else CRUSH_ITEM_NONE) <$> l) osds []) as (out & -> & ->); [done| |done].
    intros l1 o l2 out _ ->. rewrite exists_ok. eexists. split; [reflexivity|]. by rewrite fmap_app.
Qed.

Lemma raw_to_up_ok pool raw : type_ok pool → _raw_to_up_osds m pool raw = Ret (keep (shifts pool) live raw).
Proof.
  intros Ht. unfold _raw_to_up_osds. rewrite can_shift_ok by done. cbn [mbind outcome_bind].
  match goal with |- foldM ?f _ _ = _ => set (body := f) end.
  destruct (foldM_inv body (λ l up, up = keep (shifts pool) live l) raw []) as (up & -> & ->); [by destruct (shifts pool)| |done].
  intros l1 o l2 up _ ->. unfold body. rewrite unusable_ok. eexists. split; [reflexivity|]. unfold keep. destruct (shifts pool).
  - rewrite filter_app, filter_cons, filter_nil. destruct (decide (live o = true)) as [E|E%not_true_is_false]; rewrite E; [done|]. cbn. by rewrite app_nil_r.
  - rewrite fmap_app. cbn. destruct (live o); cbn; reflexivity.
Qed.

Lemma keep_elem shift p osds o : o ∈ keep shift p osds → o = CRUSH_ITEM_NONE ∨ o ∈ osds ∧ p o = true.
Proof.
  unfold keep. destruct shift; [rewrite list_elem_of_filter; tauto|]. rewrite list_elem_of_fmap. intros (o' & -> & Hin). destruct (p o') eqn:E; tauto.
Qed.

Lemma keep_keep shift osds : keep shift live (keep shift there osds) = keep shift live osds.
Proof.
  unfold keep. destruct shift.
  - rewrite list_filter_filter. apply list_filter_iff. intros o. split; [tauto|]. intros Hl. split; [done|by apply live_there].
  - rewrite <-list_fmap_compose. apply list_fmap_ext. intros i o _. cbn. destruct (there o) eqn:E; [done|].
    rewrite none_not_live. unfold live. by rewrite E.
Qed.

(** ** Primaries *)

Lemma pick_primary_spec osds :
  _pick_primary osds = -1 ∧ Forall (λ o, o = CRUSH_ITEM_NONE) osds ∨ _pick_primary osds ∈ osds ∧ _pick_primary osds ≠ CRUSH_ITEM_NONE.
Proof.
  unfold _pick_primary. destruct (list_find _ osds) as [[i o]|] eqn:E.
  - apply list_find_Some in E as (Hl & Hn & _). right. split; [by eapply list_elem_of_lookup_2|done].
  - apply list_find_None in E. left. split; [done|]. eapply Forall_impl; [exact E|]. cbn. intros o Ho. by destruct (decide (o = CRUSH_ITEM_NONE)).
Qed.

Lemma shift_back_ok (osds : list Z) (pos : nat) :
  (pos < length osds)%nat → shift_back osds (Z.of_nat pos) = Ret (take 1 osds ++ take pos osds ++ drop (S pos) osds).
Proof.
  unfold shift_back. revert osds. induction pos as [|p IH]; intros osds Hp.
  { rewrite take_0, app_nil_l, take_drop. done. }
  rewrite seqZ_S, reverse_app. cbn [reverse rev_append app foldM].
  destruct (lookup_lt_is_Some_2 osds p) as [v Hv]; [lia|].
  rewrite (at_index_ok _ _ v) by (lia || (replace (Z.to_nat _) with p by lia; done)). cbn [mbind outcome_bind].
  rewrite store_at_ok by lia. cbn [mbind outcome_bind]. replace (Z.to_nat (1 + Z.of_nat p)) with (S p) by lia.
  rewrite IH by (rewrite length_insert; lia). f_equal. rewrite !take_insert_ge by lia. rewrite (take_S_r osds p v) by done. rewrite <-app_assoc. do 2 f_equal.
  rewrite (drop_S _ v _) by (apply list_lookup_insert_eq; lia). by rewrite drop_insert_lt by lia.
Qed.

(** A set of devices that are up, and its primary. *)
Definition usable (o : Z) : Prop := o = CRUSH_ITEM_NONE ∨ live o = true.

Definition primary_of (osds : list Z) (primary : Z) : Prop :=
  primary = -1 ∧ Forall (λ o, o = CRUSH_ITEM_NONE) osds ∨ primary ∈ osds ∧ primary ≠ CRUSH_ITEM_NONE.

Lemma live_range o : live o = true → 0 ≤ o < max_osd m.
Proof. intros [[H%bool_decide_eq_true _]%andb_true_iff _]%andb_true_iff. done. Qed.

Lemma affinity_at a o : osd_primary_affinity m = Some a → usable o → o ≠ CRUSH_ITEM_NONE → ∃ v, at_index a o = Ret v.
Proof.
  intros Ha [|Hl] Hn; [done|]. pose proof (ok_affinity _ Hm a Ha). pose proof (live_range o Hl). destruct (at_index_lt a o) as (v & _ & ->); [lia|]. by exists v.
Qed.

Lemma any_affinity_ok a osds : osd_primary_affinity m = Some a → Forall usable osds → ∃ any, any_affinity a osds = Ret any.
Proof.
  intros Ha Hu. unfold any_affinity. match goal with |- ∃ any, foldM ?f _ _ = _ => set (body := f) end.
  destruct (foldM_inv body (λ _ _, True) osds false) as (any & -> & _); [done| |by exists any].
  intros l1 o l2 any Hl _. unfold body. destruct any; [by eexists|]. case_bool_decide as Hn; [by eexists|].
  assert (usable o) as Hus. { rewrite Forall_forall in Hu. apply Hu. rewrite Hl. set_solver. }
  destruct (affinity_at a o Ha Hus Hn) as [v ->]. by eexists.
Qed.

Lemma pick_by_affinity_ok a seed all osds i pos :
  osd_primary_affinity m = Some a → Forall usable osds → drop i all = osds →
  (∀ k, pos = Some k → ∃ o, all !! k = Some o ∧ o ≠ CRUSH_ITEM_NONE) →
  ∃ pos', pick_by_affinity a seed osds i pos = Ret pos' ∧ ∀ k, pos' = Some k → ∃ o, all !! k = Some o ∧ o ≠ CRUSH_ITEM_NONE.
Proof.
  intros Ha. revert i pos. induction osds as [|o osds IH]; intros i pos Hu Hd Hpos; cbn [pick_by_affinity]; [by exists pos|].
  apply Forall_cons in Hu as [Ho Hu]. assert (all !! i = Some o) as Hi by (rewrite <-(Nat.add_0_r i), <-lookup_drop, Hd; done).
  assert (drop (S i) all = osds) as Hd' by (rewrite <-Nat.add_1_r, <-drop_drop, Hd; done).
  case_bool_decide as Hn; [by apply IH|]. destruct (affinity_at a o Ha Ho Hn) as [v ->]. cbn [mbind outcome_bind]. case_bool_decide.
  - apply IH; [done|done|]. destruct pos; [done|]. intros k [= <-]. by exists o.
  - eexists. split; [done|]. intros k [= <-]. by exists o.
Qed.

Lemma apply_affinity_ok seed pool osds primary :
  type_ok pool → Forall usable osds → primary_of osds primary →
  ∃ osds' primary', _apply_primary_affinity m seed pool osds primary = Ret (osds', primary')
    ∧ osds' ≡ₚ osds ∧ (shifts pool = false → osds' = osds) ∧ primary_of osds' primary'.
Proof.
  intros Ht Hu Hp. unfold _apply_primary_affinity. destruct (osd_primary_affinity m) as [a|] eqn:Ha; [|by exists osds, primary].
  destruct (any_affinity_ok a osds Ha Hu) as [any ->]. cbn [mbind outcome_bind]. destruct any; cbn [negb]; [|by exists osds, primary].
  destruct (pick_by_affinity_ok a seed osds osds 0 None Ha Hu) as (pos & -> & Hpos); [done|done|]. cbn [mbind outcome_bind].
  destruct pos as [pos|]; [|by exists osds, primary]. destruct (Hpos pos eq_refl) as (o & Ho & Hn). pose proof (lookup_lt_Some _ _ _ Ho) as Hlt.
  rewrite (at_index_ok _ _ o) by (lia || by rewrite Nat2Z.id). cbn [mbind outcome_bind]. rewrite can_shift_ok by done. cbn [mbind outcome_bind].
  assert (o ∈ osds) as Hin by (by eapply list_elem_of_lookup_2).
  destruct (shifts pool && bool_decide (0 < pos)%nat) eqn:E; [|by exists osds, o; split_and!; [done|done|done|right]].
  apply andb_true_iff in E as [E Epos%bool_decide_eq_true]. rewrite shift_back_ok by done. cbn [mbind outcome_bind].
  destruct osds as [|o0 osds]; [done|]. cbn [take app]. rewrite store_at_ok by (cbn [length]; lia). cbn [mbind outcome_bind Z.to_nat insert list_insert].
  eexists _, o. split; [reflexivity|]. rewrite E. split_and!; [|done|].
  - change (o :: take pos (o0 :: osds) ++ drop (S pos) (o0 :: osds) ≡ₚ o0 :: osds).
    rewrite Permutation_middle. by rewrite (take_drop_middle _ pos o Ho).
  - right. split; [by left|done].
Qed.

(** ** Overrides *)

Lemma marked_out_ok o : 0 ≤ o → ∃ b, marked_out m o = Ret b.
Proof.
  intros Ho. unfold marked_out. case_bool_decide as Hc; [|by eexists]. pose proof (ok_weight _ Hm).
  destruct (at_index_lt (osd_weight m) o) as (w & _ & ->); [lia|]. by eexists.
Qed.

Lemma find_item_ok all raw i from to pos :
  0 ≤ to → drop i all = raw → (∀ k, pos = Some k → all !! k = Some from) → to ∉ take i all →
  ∃ found pos', find_item m raw i from to pos = Ret (found, pos') ∧ (∀ k, pos' = Some k → all !! k = Some from)
    ∧ (found = false → to ∉ all).
Proof.
  intros Hto. revert i pos. induction raw as [|o raw IH]; intros i pos Hd Hpos Hnot; cbn [find_item].
  { exists false, pos. split_and!; [done|done|]. intros _. rewrite <-(take_drop i all), Hd, app_nil_r. done. }
  assert (all !! i = Some o) as Hi by (rewrite <-(Nat.add_0_r i), <-lookup_drop, Hd; done).
  assert (drop (S i) all = raw) as Hd' by (rewrite <-Nat.add_1_r, <-drop_drop, Hd; done).
  case_bool_decide as Heq; [by exists true, pos|].
  assert (to ∉ take (S i) all) as Hnot' by (rewrite (take_S_r _ _ o) by done; rewrite elem_of_app, list_elem_of_singleton; intros [|]; congruence).
  case_bool_decide as Hf.
  - destruct (marked_out_ok to Hto) as [out ->]. cbn [mbind outcome_bind]. apply IH; [done| |done]. destruct out; [done|]. intros k [= <-]. destruct Hf as [-> _]. done.
  - cbn [mbind outcome_bind]. by apply IH.
Qed.

(** The first pair that applies replaces one device by one that is not there
    yet; the others are ignored. *)
Lemma apply_items_ok items raw :
  Forall (λ '(_, to), 0 ≤ to) items →
  ∃ raw', apply_items m items raw = Ret raw'
    ∧ (raw' = raw ∨ ∃ i from to, (from, to) ∈ items ∧ raw !! i = Some from ∧ to ∉ raw ∧ raw' = <[i := to]> raw).
Proof.
  induction items as [|[from to] items IH]; intros Hall; cbn [apply_items]; [exists raw; by split; [|left]|].
  apply Forall_cons in Hall as [Hto Hall]. destruct (IH Hall) as (raw' & Hr & Hc).
  assert (∃ raw', apply_items m items raw = Ret raw' ∧ (raw' = raw ∨ ∃ i from0 to0, (from0, to0) ∈ (from, to) :: items ∧ raw !! i = Some from0 ∧ to0 ∉ raw
    ∧ raw' = <[i := to0]> raw)) as Hrest.
  { exists raw'. split; [done|]. destruct Hc as [->|(i & f & t & ? & ? & ? & ->)]; [by left|right]. exists i, f, t. split_and!; [by right|done..]. }
  destruct (find_item_ok raw raw 0 from to None) as (found & pos & -> & Hpos & Hnot); [done|done|done|by intros ?%elem_of_nil|]. cbn [mbind outcome_bind].
  destruct pos as [i|]; [|done]. destruct found; [done|]. eexists. split; [done|]. right. exists i, from, to. split_and!; [by left|by apply Hpos|by apply Hnot|done].
Qed.

Lemma apply_remap_ok pool pg raw : ∃ raw', _apply_remap m pool pg raw = Ret raw'.
Proof.
  unfold _apply_remap. destruct (pg_upmap m !! _) as [osds|] eqn:Hu.
  - pose proof (ok_upmap _ Hm _ _ Hu) as Hall. match goal with |- context [foldM ?f _ _] => set (body := f) end.
    destruct (foldM_inv body (λ _ _, True) osds false) as (r & -> & _); [done| |by eexists].
    intros l1 o l2 r Hl _. unfold body. destruct r; [by eexists|]. destruct (marked_out_ok o) as [b ->]; [|by eexists].
    rewrite Forall_forall in Hall. apply Hall. rewrite Hl. set_solver.
  - destruct (pg_upmap_items m !! _) as [items|] eqn:Hi; [|by eexists].
    destruct (apply_items_ok items raw (ok_upmap_items _ Hm _ _ Hi)) as (raw' & -> & _). by eexists.
Qed.

Lemma get_temp_ok pool pg :
  type_ok pool → let q := raw_pg_to_pg pool pg in
  let temp := keep (shifts pool) live (default [] (pg_temp m !! q)) in
  _get_temp_osds m pool pg = Ret (temp, default (_pick_primary temp) (primary_temp m !! q)).
Proof.
  intros Ht q temp. unfold _get_temp_osds. fold q. unfold temp. destruct (pg_temp m !! q) as [osds|]; cbn [default from_option Datatypes.id].
  - match goal with |- context [foldM ?f _ _] => set (body := f) end.
    destruct (foldM_inv body (λ l t, t = keep (shifts pool) live l) osds []) as (t & -> & ->); [by destruct (shifts pool)| |].
    + intros l1 o l2 t _ ->. unfold body. rewrite unusable_ok, can_shift_ok by done. cbn [mbind outcome_bind]. unfold keep.
      destruct (decide (live o = true)) as [E|E%not_true_is_false]; rewrite E; cbn [negb]; (eexists; split; [reflexivity|]); destruct (shifts pool);
        rewrite ?filter_app, ?filter_cons, ?filter_nil, ?fmap_app, ?E; cbn; by rewrite ?E, ?app_nil_r.
    + cbn [mbind outcome_bind]. by destruct (primary_temp m !! q).
  - cbn [mbind outcome_bind]. unfold keep. destruct (primary_temp m !! q), (shifts pool); done.
Qed.

End facts.
