(* ===== verification/OSDMapCorrect.v ===== *)
(** * Where the placement groups are

    Theorems about the mapping of placement groups to devices
    (src/src/osd/OSDMap.cc): that it always returns, that the devices are up,
    and, for the pools of the locally repairable codes, where the chunks of
    an object are. *)

From S2P Require Import Prelude StrMap CrushRules Ruleset CrushTables CrushHash CrushMap CrushMapper CrushPerm CrushLn CrushBuckets CrushPlacement CrushIndep CrushRule CrushCorrect CrushPools PlacementGroup PlacementGroupFacts PlacementGroupCorrect OSDMap OSDMapFacts.

Import Crush Mapper OSDMap.

(** The CRUSH map of a cluster: without cycles, with rules of small numbers. *)
Record crush_ok (c : crush_map) (args : gmap Z (list crush_choose_arg)) : Prop := {
  crush_acyclic : ∃ rank, map_ok c rank;
  crush_tunables : tunables_map_ok c;
  crush_args i a : args !! i = Some a → args_ok c (Some a);
  crush_rules i r : map_rules c !! i = Some (Some r) →
    ∃ steps, rule_steps r = Some <$> steps ∧ rule_len r = Z.of_nat (length steps) ∧ Forall step_ok steps;
  crush_max_rules : Z.of_nat (length (map_rules c)) < 2 ^ 32;
}.

Lemma crush_args_ok c args i : crush_ok c args → args_ok c (args !! i).
Proof. intros Hc. destruct (args !! i) as [a|] eqn:E; [by eapply crush_args|]. intros a [=]. Qed.

Lemma found_rule c args rs ty size :
  crush_ok c args → let n := crush_find_rule c rs ty size in 0 ≤ n → ∃ steps, rule_at c n steps ∧ Forall step_ok steps.
Proof.
  intros Hc n. unfold n, crush_find_rule. match goal with |- context [list_find ?P _] => destruct (list_find P (map_rules c)) as [[i r]|] eqn:E end; [|lia].
  intros _. apply list_find_Some in E as (Hi & Hfit & _). destruct r as [r|]; [|done]. destruct (crush_rules _ _ Hc i r Hi) as (steps & Hs & Hl & Hok).
  exists steps. split; [|done]. pose proof (crush_max_rules _ _ Hc). pose proof (lookup_lt_Some _ _ _ Hi). split; [lia|]. exists r. by rewrite Nat2Z.id.
Qed.

Section mapping.
Context (m : OSDMap.t) (Hm : osdmap_ok m) (Hc : crush_ok (crush m) (crush_choose_args m)).

(** The rule of a pool, and what CRUSH gives for a group. *)
Definition rule_of_pool (pool : pg_pool_t) : Z := crush_find_rule (crush m) (pool_crush_ruleset pool) (pool_type pool) (pool_size pool).

Definition crush_gives (pool : pg_pool_t) (pg : pg_t) (raw : list Z) : Prop :=
  if bool_decide (0 ≤ rule_of_pool pool)
  then rule_gives (crush m) (osd_weight m) (s32 (raw_pg_to_pps pool pg)) (crush_choose_args m !! m_pool pg) (pool_size pool) (rule_of_pool pool) raw
  else raw = [].

Lemma crush_gives_some pool pg : 0 < pool_size pool < 256 → ∃ raw, crush_gives pool pg raw.
Proof.
  intros Hs. unfold crush_gives. case_bool_decide as Hn; [|by exists []]. destruct (found_rule _ _ _ _ _ Hc Hn) as (steps & Hat & Hok).
  destruct (crush_acyclic _ _ Hc) as [rank Hmap]. pose proof small.
  destruct (do_rule_spec (crush m) rank Hmap (crush_tunables _ _ Hc) (osd_weight m) (s32 (raw_pg_to_pps pool pg)) (crush_choose_args m !! m_pool pg)
    (crush_args_ok _ _ _ Hc) (pool_size pool) ltac:(lia) _ _ Hat Hok) as (raw & Hr & _). exists raw. by apply runs_gives.
Qed.

Lemma raw_osds_ok rank pool pg raw :
  map_ok (crush m) rank → type_ok pool → crush_gives pool pg raw →
  ∃ N, ∀ fuel, (N ≤ fuel)%nat → _pg_to_raw_osds m fuel pool pg = Ret (keep (shifts pool) (there m) raw, raw_pg_to_pps pool pg).
Proof.
  intros Hmap Ht. unfold crush_gives, _pg_to_raw_osds. fold (rule_of_pool pool). case_bool_decide as Hn.
  - intros [N HN]. exists N. intros fuel Hf. unfold do_rule.
    destruct (HN fuel (crush_init_workspace (crush m)) Hf (init_workspace_ok _ _ Hmap)) as (w & -> & _). cbn [mbind outcome_bind].
    by rewrite remove_nonexistent_ok.
  - intros ->. exists 0%nat. intros fuel _. cbn [mbind outcome_bind]. by rewrite remove_nonexistent_ok.
Qed.

Lemma keep_usable shift l : Forall (usable m) (keep shift (live m) l).
Proof. apply Forall_forall. intros o Ho. destruct (keep_elem _ _ _ _ Ho) as [->|[_ Hl]]; [by left|by right]. Qed.

Lemma up_osds_ok pool pg :
  type_ok pool → 0 < pool_size pool < 256 →
  ∃ N up primary, (∀ fuel, (N ≤ fuel)%nat → up_osds m fuel pool pg = Ret (up, primary)) ∧ Forall (usable m) up ∧ primary_of up primary.
Proof.
  intros Ht Hs. destruct (crush_gives_some pool pg Hs) as [raw Hraw]. destruct (crush_acyclic _ _ Hc) as [rank Hmap].
  destruct (raw_osds_ok rank pool pg raw Hmap Ht Hraw) as [N HN].
  destruct (apply_remap_ok m Hm pool pg (keep (shifts pool) (there m) raw)) as [raw' Hremap].
  destruct (apply_affinity_ok m Hm (raw_pg_to_pps pool pg) pool (keep (shifts pool) (live m) raw') (_pick_primary (keep (shifts pool) (live m) raw')))
    as (up & primary & Haff & Hperm & _ & Hp); [done|apply keep_usable|apply pick_primary_spec|].
  exists N, up, primary. split_and!; [|rewrite Hperm; apply keep_usable|done]. intros fuel Hf. unfold up_osds. rewrite HN by done.
  cbn [mbind outcome_bind]. rewrite Hremap. cbn [mbind outcome_bind]. rewrite raw_to_up_ok by done. cbn [mbind outcome_bind]. exact Haff.
Qed.

(** Without overrides of the operator: what CRUSH gives, where it is up. *)
Lemma up_osds_exact rank pool pg raw :
  map_ok (crush m) rank → type_ok pool → crush_gives pool pg raw → pg_upmap m !! raw_pg_to_pg pool pg = None → pg_upmap_items m !! raw_pg_to_pg pool pg = None →
  ∃ N up primary, (∀ fuel, (N ≤ fuel)%nat → up_osds m fuel pool pg = Ret (up, primary)) ∧ up ≡ₚ keep (shifts pool) (live m) raw
    ∧ (shifts pool = false → up = keep (shifts pool) (live m) raw) ∧ primary_of up primary.
Proof.
  intros Hmap Ht Hraw Hu Hi. destruct (raw_osds_ok rank pool pg raw Hmap Ht Hraw) as [N HN].
  destruct (apply_affinity_ok m Hm (raw_pg_to_pps pool pg) pool (keep (shifts pool) (live m) raw) (_pick_primary (keep (shifts pool) (live m) raw)))
    as (up & primary & Haff & Hperm & Heq & Hp); [done|apply keep_usable|apply pick_primary_spec|].
  exists N, up, primary. split_and!; [|done|done|done]. intros fuel Hf. unfold up_osds. rewrite HN by done. cbn [mbind outcome_bind].
  unfold _apply_remap. rewrite Hu, Hi. cbn [mbind outcome_bind]. rewrite raw_to_up_ok by done. cbn [mbind outcome_bind]. by rewrite keep_keep.
Qed.

End mapping.

(** Every placement group has an up set and an acting set: on a map whose
    vectors have the right sizes, with a CRUSH map without cycles,
    [pg_to_up_acting_osds] returns for every group, of any pool. All devices of
    both sets exist and are up, or are holes ([CRUSH_ITEM_NONE]). The
    primary of the up set is one of its devices, or -1 when there is none;
    so is that of the acting set, when no primary is set for the group. *)
Lemma up_acting_live m pg :
  osdmap_ok m → crush_ok (crush m) (crush_choose_args m) →
  ∃ N up up_primary acting acting_primary,
    (∀ fuel, (N ≤ fuel)%nat → pg_to_up_acting_osds m fuel pg = Ret ((up, up_primary), (acting, acting_primary)))
    ∧ Forall (usable m) up ∧ primary_of up up_primary ∧ Forall (usable m) acting
    ∧ ((∀ q, primary_temp m !! q = None) → primary_of acting acting_primary).
Proof.
  intros Hm Hc. unfold pg_to_up_acting_osds, _pg_to_up_acting_osds, get_pg_pool. destruct (pools m !! s64 (m_pool pg)) as [pool|] eqn:Hpool.
  2:{ exists 0%nat, [], (-1), [], (-1). split_and!; [done|constructor|by left|constructor|by left]. }
  destruct (ok_pools _ Hm _ _ Hpool) as (Hpok & Ht & Hs). destruct (up_osds_ok m Hm Hc pool pg Ht Hs) as (N & up & primary & HN & Hu & Hp).
  rewrite get_temp_ok by done. cbn [negb andb mbind outcome_bind]. rewrite orb_true_r.
  set (temp := keep _ _ _). assert (Forall (usable m) temp) as Htemp by apply keep_usable.
  exists N, up, primary. case_bool_decide as He.
  - eexists up, _. split; [intros fuel Hf; rewrite HN by done; reflexivity|]. split_and!; [done|done|done|]. intros Hq. rewrite Hq. cbn [default from_option].
    rewrite He. cbn. done.
  - eexists temp, _. split; [intros fuel Hf; rewrite HN by done; reflexivity|]. split_and!; [done|done|done|]. intros Hq. rewrite Hq. apply pick_primary_spec.
Qed.

(** ** Erasure-coded pools *)

Lemma s64_u64 i : - 2 ^ 63 ≤ i < 2 ^ 63 → s64 (u64 i) = i.
Proof.
  intros Hi. unfold s64, u64. destruct (decide (0 ≤ i)).
  - rewrite (Z.mod_small i) by lia. rewrite Z.mod_small by lia. lia.
  - assert (i mod 2 ^ 64 = i + 2 ^ 64) as ->; [|replace (i + 2 ^ 64 + 2 ^ 63) with (i + 2 ^ 63 + 1 * 2 ^ 64) by lia; rewrite Z.mod_add, Z.mod_small by lia; lia].
    symmetry. apply (Z.mod_unique_pos _ _ (-1)); lia.
Qed.

Lemma map_to_pg_ok m id pool name key nspace :
  pools m !! id = Some pool → ∃ ps, map_to_pg m id name key nspace = Ret (0, Some (mkPg (u64 id) ps (-1))).
Proof.
  intros Hp. unfold map_to_pg, get_pg_pool. rewrite Hp. assert (∀ k, ∃ h, hash_key pool k nspace = Ret h) as Hh.
  { intros k. unfold hash_key. case_bool_decide; apply ceph_str_hash_total. }
  destruct (Hh key) as [h1 H1], (Hh name) as [h2 H2]. case_bool_decide; rewrite ?H1, ?H2; by eexists.
Qed.

(** What the position of a chunk holds. *)
Definition position (m : OSDMap.t) (x root ty domain osd : Z) : Prop :=
  osd = CRUSH_ITEM_NONE ∨ live m osd = true ∧ filled (crush m) (osd_weight m) x ty true root domain osd.

Lemma distinct_keep m l : osdmap_ok m → distinct l → distinct (keep false (live m) l).
Proof.
  intros Hm. unfold distinct, keep. induction l as [|o l IH]; [done|]. intros Hd. cbn [fmap list_fmap]. rewrite filter_cons in Hd |- *.
  destruct (decide (live m o = true)) as [E|E%not_true_is_false]; rewrite E.
  - case_decide as Hn; [|by apply IH]. apply NoDup_cons in Hd as [Hnot Hd]. apply NoDup_cons. split; [|by apply IH].
    intros (Hne & (o' & Heq & Hin)%list_elem_of_fmap)%list_elem_of_filter. apply Hnot, list_elem_of_filter. split; [done|].
    destruct (live m o'); congruence.
  - rewrite decide_False by tauto. apply IH. case_decide; [by apply NoDup_cons in Hd as [_ Hd]|done].
Qed.

(** C5. From the name of an object to the devices of its chunks, for a pool
    with a rule that [create_ruleset] of a locally repairable code made of one
    step, chooseleaf over a failure domain above the devices, on a map without
    overrides of the placement by the operator ([pg_upmap]): the
    object has a placement group, and the up set of the group has one position
    for each chunk. A position is a hole, or a device that is up, that is not
    out at its weight, and that is below a failure domain of its own; no
    device has two positions. *)
Theorem lrc_object_placed rs chunk_count rule_name c root fd ty m rank id pool name key nspace :
  crush_wf c → (∀ i, rule_name_map c !! i ≠ Some rule_name) →
  name_rmap (build_rmaps c) !! ruleset_root rs = Some root →
  ruleset_steps rs = [mkRulesetStep "chooseleaf" fd 0] → type_rmap (build_rmaps c) !! fd = Some ty → 0 < ty →
  let rno := lowest_free_ruleno c in
  rno < CRUSH_MAX_RULES → ruleset_exists c rno = false → 3 ≤ chunk_count < 256 →
  osdmap_ok m → sound (crush m) rank (crush_choose_args m !! u64 id) root → pg_upmap m = ∅ → pg_upmap_items m = ∅ →
  - 2 ^ 63 ≤ id < 2 ^ 63 → pools m !! id = Some pool → pool_type pool = TYPE_ERASURE → pool_size pool = chunk_count → pool_crush_ruleset pool = rno →
  ∃ c', create_ruleset rs chunk_count rule_name c = Ret (rno, c')
    ∧ (map_rules (crush m) = rules c' →
       ∃ pg N domains up up_primary acting, map_to_pg m id name key nspace = Ret (0, Some pg)
         ∧ (∀ fuel, (N ≤ fuel)%nat → pg_to_up_acting_osds m fuel pg = Ret ((up, up_primary), acting))
         ∧ Z.of_nat (length up) = chunk_count ∧ distinct up ∧ distinct domains ∧ primary_of up up_primary
         ∧ Forall2 (position m (s32 (raw_pg_to_pps pool pg)) root ty) domains up).
Proof.
  intros Hwf Hn Hroot Hsteps Hty Hpos rno Hroom Hfresh Hcc Hm Hsound Hup Hitems Hid Hpool Htype Hsize Hset.
  destruct (created_ruleset rs chunk_count rule_name c root [ty]) as (c' & Hcreate & Hrule); try done.
  { rewrite Hsteps. cbn. unfold step_type. cbn [s_type]. rewrite Hty. cbn. by rewrite bool_decide_false by lia. }
  { rewrite Hsteps. cbn. lia. }
  exists c'. split; [done|]. intros Hrules. destruct (Hrule (crush m) Hrules) as [Hfind Hat]. rewrite Hsteps in Hat.
  destruct (map_to_pg_ok m id pool name key nspace Hpool) as [ps Hpg]. set (pg := mkPg (u64 id) ps (-1)) in *.
  destruct (chooseleaf_indep_places (crush m) rank (crush_choose_args m !! u64 id) root (osd_weight m) (s32 (raw_pg_to_pps pool pg)) _ chunk_count ty Hsound
    ltac:(lia) Hpos Hat) as (domains & raw & Hgives & Hlen & Hspread).
  assert (rule_of_pool m pool = lowest_free_ruleno c) as Hrno by (unfold rule_of_pool; by rewrite Hset, Htype, Hsize).
  assert (crush_gives m pool pg raw) as Hraw.
  { unfold crush_gives. rewrite Hrno, Hsize. destruct (lowest_free_ruleno_spec c) as [? _]. by rewrite bool_decide_true by lia. }
  assert (type_ok pool) as Ht by (by right). assert (shifts pool = false) as Hsh by (unfold shifts; by rewrite Htype).
  destruct (up_osds_exact m Hm rank pool pg raw (sound_map _ _ _ _ Hsound) Ht Hraw) as (N & up & primary & HN & _ & Hupeq & Hp);
    [by rewrite Hup, lookup_empty|by rewrite Hitems, lookup_empty|]. rewrite Hsh in Hupeq. specialize (Hupeq eq_refl).
  assert (∃ acting, ∀ fuel, (N ≤ fuel)%nat → pg_to_up_acting_osds m fuel pg = Ret ((up, primary), acting)) as [acting Hact].
  { unfold pg_to_up_acting_osds, _pg_to_up_acting_osds, get_pg_pool. cbn [m_pool pg]. rewrite s64_u64, Hpool by done. rewrite get_temp_ok by done.
    cbn [negb andb mbind outcome_bind]. rewrite orb_true_r. case_bool_decide; eexists; intros fuel Hf; rewrite HN by done; reflexivity. }
  destruct Hspread as (Hf & Hd1 & Hd2). exists pg, N, domains, up, primary, acting. rewrite Hupeq. split_and!; [done|by rewrite <-Hupeq| | |done|by rewrite <-Hupeq|].
  - unfold keep. by rewrite length_fmap.
  - by apply distinct_keep.
  - unfold keep. apply Forall2_fmap_r. eapply Forall2_impl; [exact Hf|]. intros d o Ho. unfold position, compose.
    destruct (live m o) eqn:E; [by right|by left].
Qed.

(** The small cluster as an OSD map: all devices are up but one; a
    replicated pool and one for an erasure code of four chunks. *)
Definition erasure_pool : pg_pool_t := mkPool 1 TYPE_ERASURE 4 0 CEPH_STR_HASH_RJENKINS 12 12 15 15.
Definition replicated_pool : pg_pool_t := mkPool 1 TYPE_REPLICATED 3 0 CEPH_STR_HASH_RJENKINS 12 12 15 15.

Definition cluster_osdmap (rules : list (option crush_rule)) : OSDMap.t :=
  mkOSDMap 7 20 6 8 7 7 8 [3; 3; 3; 1; 3; 3; 3; 3] cluster_weights None
    {[5 := erasure_pool; 6 := replicated_pool]} {[5 := "ec"; 6 := "rep"]} {["ec" := 5; "rep" := 6]} ∅ ∅ ∅ ∅ (cluster_of rules) ∅.

Lemma cluster_osdmap_ok rules : osdmap_ok (cluster_osdmap rules).
Proof.
  constructor; try done. intros i pool Hp. cbn in Hp. apply lookup_insert_Some in Hp as [[_ <-]|[_ Hp]].
  - split_and!; [by constructor|by right|done|done].
  - apply lookup_singleton_Some in Hp as [_ <-]. split_and!; [by constructor|by left|done|done].
Qed.

Lemma cluster_crush_ok : crush_ok (crush (cluster_osdmap (map_rules cluster))) ∅.
Proof.
  constructor; [exists cluster_rank; apply cluster_ok|apply cluster_tunables|done| |done].
  intros i r Hi. cbn in Hi. destruct i as [|[|i]]; cbn in Hi; [injection Hi as <-; exists replicated_rule|injection Hi as <-; exists erasure_rule|done];
    (split; [reflexivity|]); (split; [reflexivity|]); solve_steps.
Qed.

Lemma lrc_object_placed_witness : ∃ c', create_ruleset host_ruleset 4 "ecrule" cluster_names = Ret (0, c')
  ∧ let m := cluster_osdmap (rules c') in
    ∃ pg N domains up up_primary acting, map_to_pg m 5 [111; 98; 106] [] [] = Ret (0, Some pg)
      ∧ (∀ fuel, (N ≤ fuel)%nat → pg_to_up_acting_osds m fuel pg = Ret ((up, up_primary), acting))
      ∧ Z.of_nat (length up) = 4 ∧ distinct up ∧ distinct domains ∧ primary_of up up_primary
      ∧ Forall2 (position m (s32 (raw_pg_to_pps erasure_pool pg)) (-1) 1) domains up.
Proof.
  assert (∃ c', create_ruleset host_ruleset 4 "ecrule" cluster_names = Ret (0, c')) as [c1 Hc1] by (eexists; vm_compute; reflexivity).
  destruct (lrc_object_placed host_ruleset 4 "ecrule" cluster_names (-1) "host" 1 (cluster_osdmap (rules c1)) cluster_rank 5 erasure_pool [111; 98; 106] [] [])
    as (c' & Hc & Hall); [apply cluster_names_wf|done|vm_compute; reflexivity..|lia|apply cluster_osdmap_ok|apply cluster_sound|done|done|lia|done|done|done|done|].
  exists c1. split; [exact Hc1|]. apply Hall. assert (c' = c1) as -> by (rewrite Hc1 in Hc; congruence). done.
Defined.

(** C14. The positions of an erasure-coded pool are stable. When devices go
    down or come up, or are created or destroyed, and nothing else changes,
    a position of the up set changes only where the device that CRUSH gives
    for this position has come up or gone down: the chunks at all other
    positions stay where they are. *)
Theorem erasure_positions_stable m m' rank pool pg raw :
  osdmap_ok m → osdmap_ok m' → map_ok (crush m) rank →
  crush m' = crush m → crush_choose_args m' = crush_choose_args m → osd_weight m' = osd_weight m →
  pg_upmap m = ∅ → pg_upmap_items m = ∅ → pg_upmap m' = ∅ → pg_upmap_items m' = ∅ →
  pool_type pool = TYPE_ERASURE → crush_gives m pool pg raw →
  ∃ N up up' primary primary', (∀ fuel, (N ≤ fuel)%nat → up_osds m fuel pool pg = Ret (up, primary) ∧ up_osds m' fuel pool pg = Ret (up', primary'))
    ∧ length up = length raw ∧ length up' = length raw
    ∧ ∀ i d, raw !! i = Some d → live m d = live m' d → up !! i = up' !! i.
Proof.
  intros Hm Hm' Hmap Hc Ha Hw Hu Hi Hu' Hi' Hty Hraw. assert (type_ok pool) as Ht by (by right). assert (shifts pool = false) as Hsh by (unfold shifts; by rewrite Hty).
  assert (crush_gives m' pool pg raw) as Hraw' by (unfold crush_gives, rule_of_pool in *; by rewrite Hc, Ha, Hw).
  destruct (up_osds_exact m Hm rank pool pg raw Hmap Ht Hraw) as (N & up & primary & HN & _ & Hup & _); [by rewrite Hu, lookup_empty|by rewrite Hi, lookup_empty|].
  destruct (up_osds_exact m' Hm' rank pool pg raw) as (N' & up' & primary' & HN' & _ & Hup' & _); [by rewrite Hc|done|done|by rewrite Hu', lookup_empty|by rewrite Hi', lookup_empty|].
  rewrite Hsh in Hup, Hup'. rewrite (Hup eq_refl) in *. rewrite (Hup' eq_refl) in *. exists (N + N')%nat. do 4 eexists. split; [intros fuel Hf; split; [apply HN|apply HN']; lia|].
  unfold keep. rewrite !length_fmap. split_and!; [done|done|]. intros i d Hd Hl. rewrite !list_lookup_fmap, Hd. cbn. by rewrite Hl.
Qed.

(** Device 3 has come up, and device 6 gone down. *)
Definition cluster_later (rules : list (option crush_rule)) : OSDMap.t :=
  with_osds (cluster_osdmap rules) 8 [3; 3; 3; 3; 3; 3; 1; 3] cluster_weights None.

Lemma cluster_later_ok rules : osdmap_ok (cluster_later rules).
Proof. pose proof (ok_pools _ (cluster_osdmap_ok rules)) as Hp. by constructor. Qed.

Lemma erasure_positions_stable_witness : let m := cluster_osdmap (map_rules cluster) in let m' := cluster_later (map_rules cluster) in
  ∃ raw N up up' primary primary', (∀ fuel, (N ≤ fuel)%nat → up_osds m fuel erasure_pool (mkPg 5 3 (-1)) = Ret (up, primary)
      ∧ up_osds m' fuel erasure_pool (mkPg 5 3 (-1)) = Ret (up', primary'))
    ∧ length up = length raw ∧ length up' = length raw
    ∧ ∀ i d, raw !! i = Some d → live m d = live m' d → up !! i = up' !! i.
Proof.
  destruct (crush_gives_some (cluster_osdmap (map_rules cluster)) cluster_crush_ok erasure_pool (mkPg 5 3 (-1))) as [raw Hraw]; [done|]. exists raw.
  apply (erasure_positions_stable (cluster_osdmap (map_rules cluster)) (cluster_later (map_rules cluster)) cluster_rank);
    [apply cluster_osdmap_ok|apply cluster_later_ok|apply cluster_ok|done..|exact Hraw].
Defined.

(** The first device of a list that exists, or -1. *)
Definition first_there (m : OSDMap.t) (raw : list Z) : Z :=
  match list_find (λ o, there m o = true) raw with Some (_, o) => o | None => -1 end.

Lemma pick_there m shift raw : osdmap_ok m → _pick_primary (keep shift (there m) raw) = first_there m raw.
Proof.
  intros Hm. assert (∀ o, there m o = true → o ≠ CRUSH_ITEM_NONE) as Hne by (intros o Ho ->; by rewrite none_not_there in Ho).
  unfold first_there, _pick_primary, keep. induction raw as [|o raw IH]; [by destruct shift|]. cbn [list_find]. destruct (there m o) eqn:E.
  - destruct shift; [rewrite filter_cons_True by done|cbn; rewrite E]; cbn [list_find]; rewrite decide_True by (by apply Hne); by rewrite decide_True.
  - rewrite (decide_False (P := false = true)) by done. destruct shift.
    + rewrite filter_cons_False by (by rewrite E). rewrite IH. by destruct (list_find _ raw) as [[]|].
    + cbn. rewrite E. rewrite decide_False by (intros Hn; by apply Hn). destruct (list_find (λ osd, osd ≠ CRUSH_ITEM_NONE) _) as [[]|], (list_find _ raw) as [[]|]; done.
Qed.

(** C33. [pg_to_raw_up] takes the primary from the devices that CRUSH gives, not
    from those that are up. Without overrides of the operator and without
    primary affinities it returns the up set that [pg_to_up_acting_osds]
    computes, but as the primary the first device of CRUSH that exists: when
    this one is down, the primary is not in the up set, and differs from the
    primary of the group. *)
Theorem raw_up_primary m rank pool pg raw :
  osdmap_ok m → map_ok (crush m) rank → pools m !! s64 (m_pool pg) = Some pool →
  pg_upmap m = ∅ → pg_upmap_items m = ∅ → osd_primary_affinity m = None → crush_gives m pool pg raw →
  ∃ N up, (∀ fuel, (N ≤ fuel)%nat →
      pg_to_raw_up m fuel pg = Ret (up, first_there m raw) ∧ up_osds m fuel pool pg = Ret (up, _pick_primary up))
    ∧ (there m (first_there m raw) = true → live m (first_there m raw) = false →
       first_there m raw ∉ up ∧ first_there m raw ≠ _pick_primary up).
Proof.
  intros Hm Hmap Hpool Hu Hi Ha Hraw. destruct (ok_pools _ Hm _ _ Hpool) as (_ & Ht & _).
  destruct (raw_osds_ok m Hm rank pool pg raw Hmap Ht Hraw) as [N HN]. exists N, (keep (shifts pool) (live m) raw). split.
  - intros fuel Hf. unfold pg_to_raw_up, get_pg_pool, up_osds. rewrite Hpool, HN by done. cbn [mbind outcome_bind].
    unfold _apply_remap. rewrite Hu, Hi, !lookup_empty. cbn [mbind outcome_bind]. rewrite raw_to_up_ok by done. cbn [mbind outcome_bind].
    unfold _apply_primary_affinity. by rewrite Ha, keep_keep, pick_there.
  - intros Hth Hl. set (o := first_there m raw) in *. assert (o ≠ CRUSH_ITEM_NONE) as Hn by (intros E; by rewrite E, none_not_there in Hth).
    assert (o ∉ keep (shifts pool) (live m) raw) as Hnin by (intros [?|[_ ?]]%keep_elem; [done|congruence]). split; [done|].
    intros E. destruct (pick_primary_spec (keep (shifts pool) (live m) raw)) as [[E1 _]|[Hin _]]; [|by rewrite <-E in Hin].
    rewrite E1 in E. rewrite E in Hth. done.
Qed.

(** Three devices, the first one down. *)
Definition devices_rule : list crush_rule_step :=
  [mkStep CRUSH_RULE_TAKE (-1) 0; mkStep CRUSH_RULE_CHOOSE_FIRSTN 0 0; mkStep CRUSH_RULE_EMIT 0 0].
Definition one_down : OSDMap.t :=
  let bucket := mkBucket (-1) 3 0 0x30000 [0; 1; 2] (CRUSH_BUCKET_UNIFORM 0x10000) in
  mkOSDMap 7 20 6 3 2 3 3 [1; 3; 3] [0x10000; 0x10000; 0x10000] None {[6 := replicated_pool]} ∅ ∅ ∅ ∅ ∅ ∅
    (mkMap [Some bucket] [rule_of 0 TYPE_REPLICATED devices_rule] 3 0 0 50 1 1 1) ∅.

Lemma one_down_ok : osdmap_ok one_down.
Proof.
  constructor; try done. intros i pool Hp. cbn in Hp. apply lookup_singleton_Some in Hp as [_ <-]. split_and!; [by constructor|by left|done|done].
Qed.

Lemma one_down_map : map_ok (crush one_down) (λ _, O).
Proof. apply map_check_ok. by vm_compute. Qed.

Lemma one_down_crush : crush_ok (crush one_down) (crush_choose_args one_down).
Proof.
  constructor; [eexists; apply one_down_map|by constructor|done| |done].
  intros i r Hi. cbn in Hi. destruct i as [|i]; cbn in Hi; [injection Hi as <-|done]. exists devices_rule. split; [reflexivity|]. split; [reflexivity|]. solve_steps.
Qed.

Lemma raw_up_primary_witness :
  let pg := mkPg 6 2 (-1) in
  (∃ raw N up, crush_gives one_down replicated_pool pg raw
    ∧ (∀ fuel, (N ≤ fuel)%nat →
        pg_to_raw_up one_down fuel pg = Ret (up, first_there one_down raw) ∧ up_osds one_down fuel replicated_pool pg = Ret (up, _pick_primary up)))
  ∧ pg_to_raw_up one_down 100 pg = Ret ([2; 1], 0) ∧ is_up one_down 0 = Ret false.
Proof.
  intros pg. split; [|split; vm_compute; reflexivity].
  destruct (crush_gives_some one_down one_down_crush replicated_pool pg) as [raw Hraw]; [done|].
  destruct (raw_up_primary one_down (λ _, O) replicated_pool pg raw one_down_ok one_down_map) as (N & up & HN & _);
    [vm_compute; reflexivity|reflexivity|reflexivity|reflexivity|exact Hraw|].
  by exists raw, N, up.
Defined.
