(* ===== verification/OSDMapUpdates.v ===== *)
(** * Incremental OSD maps

    [apply_incremental] of src/src/osd/OSDMap.cc: the maps that a cluster goes
    through keep their invariant, and so every one of them maps all placement
    groups to devices that are up. *)

From S2P Require Import Prelude CrushRules CrushTables CrushHash CrushMap CrushMapper CrushPerm CrushLn CrushBuckets CrushPlacement CrushIndep CrushRule PlacementGroup PlacementGroupFacts OSDMap OSDMapFacts OSDMapCorrect.

Import Crush Mapper OSDMap.

(** ** The invariant *)

(** The devices with a property. *)
Definition osds_with (m : OSDMap.t) (p : Z → bool) : Z := Z.of_nat (length (filter (λ o, p o = true) (seqZ 0 (max_osd m)))).

Definition weight_of (m : OSDMap.t) (o : Z) : Z := default 0 (osd_weight m !! Z.to_nat o).
Definition inside (m : OSDMap.t) (o : Z) : bool := there m o && bool_decide (weight_of m o ≠ CEPH_OSD_OUT).

Record osdmap_inv (m : OSDMap.t) : Prop := {
  inv_ok : osdmap_ok m;
  inv_crush : crush_ok (crush m) (crush_choose_args m);
  inv_num : num_osd m = osds_with m (there m);
  inv_num_up : num_up_osd m = osds_with m (live m);
  inv_num_in : num_in_osd m = osds_with m (inside m);
  inv_names id name : pool_name m !! id = Some name ↔ name_pool m !! name = Some id;
  inv_epoch : 0 ≤ epoch m;
}.

(** ** Numbers of devices *)

Lemma count_osds_ok m p :
  osdmap_ok m →
  count_osds m p = Ret (osds_with m (λ o, there m o && p (default 0 (osd_state m !! Z.to_nat o)) (weight_of m o))).
Proof.
  intros Hm. unfold count_osds, osds_with. match goal with |- foldM ?f _ _ = _ => set (body := f) end. set (q := λ o, there m o && p (default 0 (osd_state m !! Z.to_nat o)) (weight_of m o)).
  destruct (foldM_inv body (λ l n, n = Z.of_nat (length (filter (λ o, q o = true) l))) (seqZ 0 (max_osd m)) 0) as (n & -> & ->); [done| |done].
  intros l1 i l2 n Hl ->. assert (0 ≤ i < max_osd m) as Hi.
  { assert (i ∈ seqZ 0 (max_osd m)) as Hin by (rewrite Hl; set_solver). by apply elem_of_seqZ_range in Hin. }
  unfold body. destruct (at_index_lt (osd_state m) i) as (s & Hs & ->); [pose proof (ok_state _ Hm); lia|]. cbn [mbind outcome_bind].
  destruct (at_index_lt (osd_weight m) i) as (w & Hw & ->); [pose proof (ok_weight _ Hm); lia|]. cbn [mbind outcome_bind].
  assert (q i = bool_decide (Z.land s CEPH_OSD_EXISTS ≠ 0) && p s w) as Hq.
  { unfold q, there, flagged, weight_of. rewrite Hs, Hw. by rewrite (bool_decide_true (0 ≤ i < _)) by done. }
  rewrite filter_app, length_app, filter_cons, filter_nil. rewrite Hq. case_bool_decide; cbn [andb].
  - eexists. split; [reflexivity|]. destruct (p s w); case_decide; try done; cbn; lia.
  - eexists. split; [reflexivity|]. case_decide; [done|]. cbn. lia.
Qed.

Lemma osds_with_ext m p q : (∀ o, p o = q o) → osds_with m p = osds_with m q.
Proof. intros H. unfold osds_with. do 2 f_equal. apply list_filter_iff. intros o. by rewrite H. Qed.

(** Everything but the numbers. *)
Record same_but_counts (m m' : OSDMap.t) : Prop := {
  same_epoch : epoch m' = epoch m;
  same_fsid : fsid m' = fsid m;
  same_osds : (max_osd m', osd_state m', osd_weight m', osd_primary_affinity m') = (max_osd m, osd_state m, osd_weight m, osd_primary_affinity m);
  same_pools : (pools m', pool_name m', name_pool m') = (pools m, pool_name m, name_pool m);
  same_overrides : (pg_temp m', primary_temp m', pg_upmap m', pg_upmap_items m') = (pg_temp m, primary_temp m, pg_upmap m, pg_upmap_items m);
  same_crush : (crush m', crush_choose_args m') = (crush m, crush_choose_args m);
}.

Lemma calc_num_osds_ok m :
  osdmap_ok m → ∃ m', calc_num_osds m = Ret m' ∧ same_but_counts m m'
    ∧ num_osd m' = osds_with m (there m) ∧ num_up_osd m' = osds_with m (live m) ∧ num_in_osd m' = osds_with m (inside m).
Proof.
  intros Hm. unfold calc_num_osds. rewrite !count_osds_ok by done. cbn [mbind outcome_bind]. eexists. split; [reflexivity|]. split; [by constructor|].
  split_and!; cbn; apply osds_with_ext; intros o; [apply andb_true_r|done|done].
Qed.

Lemma same_ok m m' : same_but_counts m m' → osdmap_ok m → osdmap_ok m'.
Proof.
  intros [_ _ [= E1 E2 E3 E4] [= E5 E6 E7] [= E8 E9 E10 E11] _] [].
  constructor; rewrite ?E1, ?E2, ?E3, ?E4, ?E5, ?E10, ?E11; done.
Qed.

Lemma same_live m m' : same_but_counts m m' → (∀ o, there m' o = there m o) ∧ (∀ o, live m' o = live m o) ∧ (∀ o, inside m' o = inside m o)
  ∧ (∀ p, osds_with m' p = osds_with m p).
Proof.
  intros [_ _ [= E1 E2 E3 E4] _ _ _]. unfold inside, live, there, flagged, weight_of, osds_with. rewrite E1, E2, E3. done.
Qed.

(** ** Devices *)

(** What a map says of a device: its state, weight and primary affinity. *)
Definition device (m : OSDMap.t) (o : Z) : Z * Z * Z :=
  (default 0 (osd_state m !! Z.to_nat o), weight_of m o,
   match osd_primary_affinity m with
   | Some a => default CEPH_OSD_DEFAULT_PRIMARY_AFFINITY (a !! Z.to_nat o)
   | None => CEPH_OSD_DEFAULT_PRIMARY_AFFINITY
   end).

(** [m'] differs from [m] in its vectors of devices only, which have the
    same size. *)
Definition revised (m m' : OSDMap.t) : Prop :=
  ∃ state weight affinity, m' = with_osds m (max_osd m) state weight affinity
    ∧ Z.of_nat (length state) = max_osd m ∧ Z.of_nat (length weight) = max_osd m
    ∧ (∀ a, affinity = Some a → Z.of_nat (length a) = max_osd m).

Lemma revised_refl m : osdmap_ok m → revised m m.
Proof. intros []. exists (osd_state m), (osd_weight m), (osd_primary_affinity m). by destruct m. Qed.

Lemma revised_trans m1 m2 m3 : revised m1 m2 → revised m2 m3 → revised m1 m3.
Proof. intros (s & w & a & -> & _) (s' & w' & a' & -> & H). exists s', w', a'. by split. Qed.

Lemma revised_ok m m' : osdmap_ok m → revised m m' → osdmap_ok m'.
Proof. intros [] (s & w & a & -> & Hs & Hw & Ha). by constructor. Qed.

Lemma revised_max m m' : revised m m' → max_osd m' = max_osd m.
Proof. by intros (? & ? & ? & -> & _). Qed.

(** An operation on one device. *)
Definition changes_device (f : OSDMap.t → Z → outcome OSDMap.t) (g : Z → Z * Z * Z → Z * Z * Z) (o : Z) : Prop :=
  ∀ m, osdmap_ok m → 0 ≤ o < max_osd m → ∃ m', f m o = Ret m' ∧ revised m m' ∧ device m' o = g o (device m o)
    ∧ ∀ o', 0 ≤ o' → o' ≠ o → device m' o' = device m o'.

Lemma devices_loop f g l m :
  osdmap_ok m → NoDup l → Forall (λ o, 0 ≤ o < max_osd m ∧ changes_device f g o) l →
  ∃ m', foldM f m l = Ret m' ∧ revised m m'
    ∧ ∀ o, 0 ≤ o → device m' o = if bool_decide (o ∈ l) then g o (device m o) else device m o.
Proof.
  intros Hm Hnd Hl. rewrite Forall_forall in Hl.
  destruct (foldM_inv f (λ l1 m1, revised m m1 ∧ ∀ o, 0 ≤ o → device m1 o = if bool_decide (o ∈ l1) then g o (device m o) else device m o) l m)
    as (m' & Hfold & Hr & Hd); [| |by exists m'].
  - split; [by apply revised_refl|]. intros o Ho. by rewrite bool_decide_false by set_solver.
  - intros l1 x l2 m1 E [Hr Hd]. destruct (Hl x) as [Hx Hf]; [rewrite E; set_solver|].
    destruct (Hf m1) as (m2 & H2 & Hr2 & Hg & Ho); [by eapply revised_ok|by rewrite (revised_max m)|].
    exists m2. split; [done|]. split; [by eapply revised_trans|]. intros o Hpos.
    assert (x ∉ l1) as Hn. { rewrite E in Hnd. apply NoDup_app in Hnd as (_ & Hdis & _). intros Hin. apply (Hdis x Hin). set_solver. }
    destruct (decide (o = x)) as [->|Hox].
    + rewrite Hg, Hd by done. rewrite bool_decide_false by done. by rewrite bool_decide_true by set_solver.
    + rewrite Ho, Hd by done. by rewrite (bool_decide_ext (o ∈ l1 ++ [x]) (o ∈ l1)) by set_solver.
Qed.

Lemma for_osds_ok {A} (f : OSDMap.t → Z → A → outcome OSDMap.t) (g : A → Z * Z * Z → Z * Z * Z) changes m :
  osdmap_ok m → (∀ o a, changes !! o = Some a → 0 ≤ o < max_osd m) →
  (∀ o a, changes_device (λ m o, f m o a) (λ _, g a) o) →
  ∃ m', for_osds f changes m = Ret m' ∧ revised m m'
    ∧ ∀ o, 0 ≤ o → device m' o = match changes !! o with Some a => g a (device m o) | None => device m o end.
Proof.
  intros Hm Hin Hf. set (g' := λ o d, match changes !! o with Some a => g a d | None => d end).
  destruct (devices_loop (λ m o, match changes !! o with Some a => f m o a | None => Ret m end) g' (ascending (dom changes)) m)
    as (m' & H & Hr & Hd); [done|apply NoDup_ascending| |].
  - apply Forall_forall. intros o (a & Ha)%elem_of_ascending%elem_of_dom. split; [by eapply Hin|].
    intros m1 Hm1 Ho. unfold g'. rewrite Ha. by apply Hf.
  - exists m'. split; [done|]. split; [done|]. intros o Ho. rewrite Hd by done. unfold g'. case_bool_decide as Hb; [done|].
    rewrite elem_of_ascending, not_elem_of_dom in Hb. by rewrite Hb.
Qed.

(** ** The changes of an incremental map *)

Definition weigh (w : Z) : Z * Z * Z → Z * Z * Z := λ '(s, _, a),
  (if bool_decide (w ≠ 0) then u8 (Z.land (Z.lor s CEPH_OSD_EXISTS) (Z.lnot (Z.lor CEPH_OSD_AUTOOUT CEPH_OSD_NEW))) else s, w, a).
Definition favour (a : Z) : Z * Z * Z → Z * Z * Z := λ '(s, w, _), (s, w, u32 a).
Definition toggle (st : Z) : Z * Z * Z → Z * Z * Z := λ '(s, w, a),
  let x := if bool_decide (st ≠ 0) then st else CEPH_OSD_UP in
  if bool_decide (Z.land s CEPH_OSD_EXISTS ≠ 0 ∧ Z.land x CEPH_OSD_EXISTS ≠ 0) then (0, w, u32 CEPH_OSD_DEFAULT_PRIMARY_AFFINITY)
  else (u8 (Z.lxor s x), w, a).
Definition raise : Z * Z * Z → Z * Z * Z := λ '(s, w, a), (Z.lor s (Z.lor CEPH_OSD_EXISTS CEPH_OSD_UP), w, a).

Lemma lookup_stored (l : list Z) o v : 0 ≤ o < Z.of_nat (length l) → <[Z.to_nat o := v]> l !! Z.to_nat o = Some v.
Proof. intros Ho. apply list_lookup_insert_eq. lia. Qed.

Lemma lookup_elsewhere (l : list Z) o o' v : 0 ≤ o → 0 ≤ o' → o' ≠ o → <[Z.to_nat o := v]> l !! Z.to_nat o' = l !! Z.to_nat o'.
Proof. intros ???. apply list_lookup_insert_ne. lia. Qed.

(** The vectors of [m] at device [o]. *)
Ltac at_device m o x Hx Hat :=
  let Hs := fresh "Hs" in let Hw := fresh "Hw" in
  pose proof (ok_state m ltac:(assumption)) as Hs; pose proof (ok_weight m ltac:(assumption)) as Hw;
  destruct (at_index_lt (osd_state m) o) as (x & Hx & Hat); [lia|].

Ltac rewrite_device :=
  unfold device, weight_of; cbn [with_osds max_osd osd_state osd_weight osd_primary_affinity];
  rewrite ?lookup_stored, ?lookup_elsewhere by (rewrite ?length_insert; lia); cbn [default from_option].

Lemma set_primary_affinity_device w o : changes_device (λ m o, set_primary_affinity m o w) (λ _, favour w) o.
Proof.
  intros m Hm Ho. at_device m o x Hx Hat. unfold set_primary_affinity, assert_that. rewrite bool_decide_true by lia. cbn [mbind outcome_bind].
  set (l := default _ _). assert (Z.of_nat (length l) = max_osd m) as Hl.
  { unfold l. destruct (osd_primary_affinity m) as [a|] eqn:E; cbn; [by apply (ok_affinity _ Hm)|rewrite length_replicate; lia]. }
  rewrite store_at_ok by lia. cbn [mbind outcome_bind]. eexists. split; [reflexivity|]. split.
  { eexists _, _, _. split; [reflexivity|]. split_and!; [done|done|]. intros a [= <-]. by rewrite length_insert. }
  split; [by rewrite_device|]. intros o' Hpos Hne. rewrite_device. f_equal. unfold l. destruct (osd_primary_affinity m) as [a|]; cbn; [done|].
  destruct (replicate _ _ !! _) as [y|] eqn:E; [|done]. by apply lookup_replicate in E as [-> _].
Qed.

Lemma apply_weight_device w o : changes_device (λ m o, apply_weight m o w) (λ _, weigh w) o.
Proof.
  intros m Hm Ho. at_device m o x Hx Hat. unfold apply_weight, set_weight, assert_that. rewrite (bool_decide_true (o < max_osd m)) by lia. cbn [mbind outcome_bind].
  rewrite store_at_ok by lia. cbn [mbind outcome_bind]. unfold weigh, device at 2. rewrite Hx. cbn [default from_option]. case_bool_decide as Hw0.
  - rewrite Hat. cbn [mbind outcome_bind]. rewrite store_at_ok by lia. cbn [mbind outcome_bind with_osds osd_state].
    erewrite at_index_ok; [|lia|by apply lookup_stored; lia]. cbn [mbind outcome_bind].
    rewrite store_at_ok by (rewrite length_insert; lia). cbn [mbind outcome_bind]. eexists. split; [reflexivity|]. split.
    { eexists _, _, _. split; [reflexivity|]. cbn [with_osds osd_weight osd_primary_affinity]. rewrite !length_insert. split_and!; [done|done|apply (ok_affinity _ Hm)]. }
    split; [by rewrite_device|]. intros o' Hpos Hne. by rewrite_device.
  - cbn [mbind outcome_bind]. eexists. split; [reflexivity|]. split.
    { eexists _, _, _. split; [reflexivity|]. cbn [with_osds osd_weight osd_primary_affinity]. rewrite !length_insert. split_and!; [done|done|apply (ok_affinity _ Hm)]. }
    split; [by rewrite_device; rewrite Hx|]. intros o' Hpos Hne. by rewrite_device.
Qed.

(** A value stored in the vector of states. *)
Lemma store_state_device m o v :
  osdmap_ok m → 0 ≤ o < max_osd m →
  ∃ state, store_at (osd_state m) o v = Ret state
    ∧ let m' := with_osds m (max_osd m) state (osd_weight m) (osd_primary_affinity m) in
      revised m m' ∧ device m' o = (v, (device m o).1.2, (device m o).2) ∧ ∀ o', 0 ≤ o' → o' ≠ o → device m' o' = device m o'.
Proof.
  intros Hm Ho. at_device m o x Hx Hat. rewrite store_at_ok by lia. eexists. split; [reflexivity|]. split.
  { eexists _, _, _. split; [reflexivity|]. cbn [with_osds osd_weight osd_primary_affinity]. rewrite !length_insert. split_and!; [done|done|apply (ok_affinity _ Hm)]. }
  split; [by rewrite_device|]. intros o' Hpos Hne. by rewrite_device.
Qed.

Lemma apply_up_device o : changes_device apply_up (λ _, raise) o.
Proof.
  intros m Hm Ho. at_device m o x Hx Hat. unfold apply_up. rewrite Hat. cbn [mbind outcome_bind].
  destruct (store_state_device m o (Z.lor x (Z.lor CEPH_OSD_EXISTS CEPH_OSD_UP)) Hm Ho) as (state & -> & Hr & Hd & He). cbn [mbind outcome_bind].
  eexists. split; [reflexivity|]. split; [done|]. split; [|done]. rewrite Hd. unfold device, raise. by rewrite Hx.
Qed.

Lemma apply_state_device st o : changes_device (λ m o, apply_state m o st) (λ _, toggle st) o.
Proof.
  intros m Hm Ho. at_device m o x Hx Hat. unfold apply_state. rewrite Hat. cbn [mbind outcome_bind]. set (s := if bool_decide (st ≠ 0) then _ else _).
  assert (device m o = (x, (device m o).1.2, (device m o).2)) as Hdev by (unfold device; by rewrite Hx).
  rewrite Hdev. unfold toggle. fold s. case_bool_decide as Hb.
  - destruct (set_primary_affinity_device CEPH_OSD_DEFAULT_PRIMARY_AFFINITY o m Hm Ho) as (m1 & -> & Hr1 & Hd1 & He1). cbn [mbind outcome_bind].
    destruct (store_state_device m1 o 0) as (state & -> & Hr & Hd & He); [by eapply revised_ok|by rewrite (revised_max m)|]. cbn [mbind outcome_bind].
    eexists. split; [reflexivity|]. split; [by eapply revised_trans|]. split; [rewrite Hd, Hd1, Hdev; done|]. intros o' Hp Hne. by rewrite He, He1.
  - destruct (store_state_device m o (u8 (Z.lxor x s)) Hm Ho) as (state & -> & Hr & Hd & He). cbn [mbind outcome_bind].
    eexists. split; [reflexivity|]. split; [done|]. split; [|done]. by rewrite Hd.
Qed.

(** ** The number of devices *)

(** What is not about devices. *)
Definition rest (m : OSDMap.t) :=
  (fsid m, epoch m, (pools m, pool_name m, name_pool m), (pg_temp m, primary_temp m, pg_upmap m, pg_upmap_items m), (crush m, crush_choose_args m)).

Lemma revised_rest m m' : revised m m' → rest m' = rest m.
Proof. by intros (s & w & a & -> & _). Qed.

Lemma same_rest m m' : same_but_counts m m' → rest m' = rest m.
Proof. intros [E1 E2 _ E3 E4 E5]. unfold rest. by rewrite E1, E2, E3, E4, E5. Qed.

Lemma same_device m m' o : same_but_counts m m' → device m' o = device m o.
Proof. intros [_ _ [= _ E1 E2 E3] _ _ _]. unfold device, weight_of. by rewrite E1, E2, E3. Qed.

(** A device that has never been seen. *)
Definition new_device : Z * Z * Z := (0, CEPH_OSD_OUT, CEPH_OSD_DEFAULT_PRIMARY_AFFINITY).

Lemma resized_lookup (l : list Z) max n v o :
  Z.of_nat (length l) = max → 0 ≤ o < n → default v (resize_vector l n v !! Z.to_nat o) = if bool_decide (o < max) then default v (l !! Z.to_nat o) else v.
Proof.
  intros Hl Ho. unfold resize_vector. case_bool_decide; [rewrite lookup_resize by lia; done|]. by rewrite lookup_resize_new by lia.
Qed.

Lemma clear_loop n max (state weight : list Z) :
  Z.of_nat (length state) = max → Z.of_nat (length weight) = max → 0 ≤ max →
  let s := resize_vector state n 0 in let w := resize_vector weight n 0 in
  foldM (λ '(state, weight) o, state ← store_at state o 0; weight ← store_at weight o CEPH_OSD_OUT; Ret (state, weight)) (s, w) (seqZ max (n - max))
  = Ret (s, w).
Proof.
  intros Hs Hw Hmax s w. match goal with |- foldM ?f _ _ = _ => set (body := f) end.
  destruct (foldM_inv body (λ _ st, st = (s, w)) (seqZ max (n - max)) (s, w)) as (st & -> & ->); [done| |done].
  intros l1 o l2 ? E ->. assert (max ≤ o < n) as Ho.
  { assert (o ∈ seqZ max (n - max)) as Hin by (rewrite E; set_solver). apply elem_of_seqZ in Hin. lia. }
  unfold body. rewrite !store_at_ok by (unfold s, w, resize_vector; rewrite length_resize; lia). cbn [mbind outcome_bind].
  eexists. split; [reflexivity|]. unfold s, w, resize_vector.
  rewrite !list_insert_id; [done|apply lookup_resize_new; lia|apply lookup_resize_new; lia].
Qed.

Lemma set_max_osd_ok m n :
  osdmap_ok m → 0 ≤ n < 2 ^ 31 →
  ∃ m', set_max_osd m n = Ret m' ∧ osdmap_ok m' ∧ max_osd m' = n ∧ rest m' = rest m
    ∧ ∀ o, 0 ≤ o < n → device m' o = if bool_decide (o < max_osd m) then device m o else new_device.
Proof.
  intros Hm Hn. pose proof (ok_state _ Hm) as Hs. pose proof (ok_weight _ Hm) as Hw. pose proof (ok_max _ Hm). unfold set_max_osd.
  rewrite clear_loop by (done || lia). cbn [mbind outcome_bind]. set (m1 := with_osds _ _ _ _ _).
  assert (osdmap_ok m1) as H1.
  { destruct Hm. constructor; try done; unfold m1; cbn; unfold resize_vector; rewrite ?length_resize; try lia.
    intros a (b & _ & ->)%fmap_Some. rewrite length_resize. lia. }
  destruct (calc_num_osds_ok m1 H1) as (m' & -> & Hsame & _). exists m'. split; [done|]. split; [by eapply same_ok|].
  split; [by destruct Hsame as [_ _ [= -> _ _ _] _ _ _]|]. split; [by rewrite (same_rest m1)|]. intros o Ho. rewrite (same_device m1) by done.
  unfold m1, device, weight_of, new_device. cbn [with_osds max_osd osd_state osd_weight osd_primary_affinity].
  rewrite (resized_lookup _ (max_osd m)), (resized_lookup (osd_weight m) (max_osd m)) by done.
  destruct (osd_primary_affinity m) as [a|] eqn:Ha; cbn; [|by case_bool_decide].
  rewrite (resized_lookup a (max_osd m)) by (done || by apply (ok_affinity _ Hm)). by case_bool_decide.
Qed.

(** ** Pools and their names *)

Definition names_agree (names : gmap Z string) (by_name : gmap string Z) : Prop :=
  ∀ id name, names !! id = Some name ↔ by_name !! name = Some id.

Lemma apply_pool_name_agree names by_name pool name :
  names_agree names by_name → (∀ id, names !! id = Some name → id = pool) →
  let '(names', by_name') := apply_pool_name (names, by_name) pool name in names_agree names' by_name'.
Proof.
  intros Ha Hfresh. cbn. intros id n. destruct (decide (id = pool)) as [->|Hid].
  - rewrite lookup_insert_eq. split; [intros [= ->]; by rewrite lookup_insert_eq|].
    destruct (decide (n = name)) as [->|Hn]; [done|]. rewrite lookup_insert_ne by done. intros Hb.
    destruct (names !! pool) as [old|] eqn:E; [|apply Ha in Hb; congruence].
    apply lookup_delete_Some in Hb as [Hne Hb%Ha]. congruence.
  - rewrite lookup_insert_ne by done. destruct (decide (n = name)) as [->|Hn].
    + rewrite lookup_insert_eq. split; [intros H%Hfresh|intros [= ->]]; done.
    + rewrite lookup_insert_ne by done. rewrite (Ha id n). destruct (names !! pool) as [old|] eqn:E; [|done].
      rewrite lookup_delete_Some. apply Ha in E. split; [intros H|by intros [_ ?]]. split; [|done]. intros ->. congruence.
Qed.

Lemma remove_pool_agree ps names by_name pool :
  names_agree names by_name → is_Some (names !! pool) →
  let '(_, names', by_name') := remove_pool (ps, names, by_name) pool in names_agree names' by_name'.
Proof.
  intros Ha [old Hold]. cbn. rewrite Hold. cbn. intros id n. rewrite !lookup_delete_Some. pose proof (proj1 (Ha pool old) Hold).
  split; intros [H1 H2]; apply Ha in H2 as H3; (split; [|done]); intros ->; congruence.
Qed.

(** The names of an incremental map: different pools have different names,
    a name that is in use is not taken by another pool, and a pool that is
    removed has one. *)
Record names_ok (m : OSDMap.t) (inc : Incremental) : Prop := {
  names_distinct i j name : new_pool_names inc !! i = Some name → new_pool_names inc !! j = Some name → i = j;
  names_fresh i j name : new_pool_names inc !! i = Some name → pool_name m !! j = Some name → i = j;
  names_removed i : i ∈ old_pools inc → is_Some (pool_name m !! i);
}.

Lemma names_loop m inc l :
  names_ok m inc → names_agree (pool_name m) (name_pool m) →
  (∀ i, i ∈ l → is_Some (new_pool_names inc !! i)) →
  let '(names, by_name) := foldl (λ st pool, match new_pool_names inc !! pool with Some name => apply_pool_name st pool name | None => st end)
    (pool_name m, name_pool m) l in
  names_agree names by_name ∧ ∀ i, names !! i = if bool_decide (i ∈ l) then new_pool_names inc !! i else pool_name m !! i.
Proof.
  intros Hn Ha. induction l as [|x l IH] using rev_ind; intros Hl; cbn.
  { split; [done|]. intros i. by rewrite bool_decide_false by set_solver. }
  rewrite foldl_app. cbn [foldl]. specialize (IH ltac:(set_solver)). destruct (foldl _ _ l) as [names by_name]. destruct IH as [IHa IHn].
  destruct (Hl x) as [name Hx]; [set_solver|]. rewrite Hx. split.
  - apply (apply_pool_name_agree names by_name x name IHa). intros id. rewrite IHn. case_bool_decide; intros Hid.
    + by apply (names_distinct _ _ Hn id x name).
    + symmetry. by apply (names_fresh _ _ Hn x id name).
  - intros i. destruct (decide (i = x)) as [->|Hi].
    + rewrite lookup_insert_eq, bool_decide_true by set_solver. done.
    + rewrite lookup_insert_ne by done. rewrite IHn. by rewrite (bool_decide_ext (i ∈ l ++ [x]) (i ∈ l)) by set_solver.
Qed.

Lemma remove_loop (ps0 : gmap Z pg_pool_t) names0 by_name0 l :
  names_agree names0 by_name0 → NoDup l → (∀ i, i ∈ l → is_Some (names0 !! i)) →
  let '(ps, names, by_name) := foldl remove_pool (ps0, names0, by_name0) l in
  names_agree names by_name ∧ (∀ i, names !! i = if bool_decide (i ∈ l) then None else names0 !! i)
    ∧ ∀ i, ps !! i = if bool_decide (i ∈ l) then None else ps0 !! i.
Proof.
  intros Ha. induction l as [|x l IH] using rev_ind; intros Hnd Hl; cbn.
  { split_and!; [done| |]; intros i; by rewrite bool_decide_false by set_solver. }
  apply NoDup_app in Hnd as (Hnd & Hdis & _). rewrite foldl_app. cbn [foldl]. specialize (IH Hnd ltac:(set_solver)).
  destruct (foldl _ _ l) as [[ps names] by_name]. destruct IH as (IHa & IHn & IHp).
  assert (∀ A (f g : gmap Z A), (∀ i, f !! i = if bool_decide (i ∈ l) then None else g !! i) →
    ∀ i, delete x f !! i = if bool_decide (i ∈ l ++ [x]) then None else g !! i) as Hdel.
  { intros A f g H i. destruct (decide (i = x)) as [->|Hi]; [by rewrite lookup_delete_eq, bool_decide_true by set_solver|].
    rewrite lookup_delete_ne by done. rewrite H. by rewrite (bool_decide_ext (i ∈ l ++ [x]) (i ∈ l)) by set_solver. }
  split_and!; [|by apply Hdel|by apply Hdel]. apply (remove_pool_agree ps names by_name x IHa).
  rewrite IHn, bool_decide_false by (intros Hx; apply (Hdis x Hx); set_solver). apply Hl. set_solver.
Qed.

Lemma apply_pools_ok m inc :
  names_ok m inc → names_agree (pool_name m) (name_pool m) →
  ∃ max ps names by_name, apply_pools m inc = with_pools m max ps names by_name ∧ names_agree names by_name
    ∧ (∀ i, names !! i = if bool_decide (i ∈ old_pools inc) then None else (new_pool_names inc ∪ pool_name m) !! i)
    ∧ (∀ i, ps !! i = if bool_decide (i ∈ old_pools inc) then None else (new_pools inc ∪ pools m) !! i).
Proof.
  intros Hn Ha. unfold apply_pools.
  assert (∀ i, i ∈ ascending (dom (new_pool_names inc)) → is_Some (new_pool_names inc !! i)) as Hin by (intros i; by rewrite elem_of_ascending, elem_of_dom).
  pose proof (names_loop m inc (ascending (dom (new_pool_names inc))) Hn Ha Hin) as H1. destruct (foldl _ _ _) as [names by_name]. destruct H1 as [Ha1 Hn1].
  assert (∀ i, names !! i = (new_pool_names inc ∪ pool_name m) !! i) as Hu.
  { intros i. rewrite Hn1, lookup_union. case_bool_decide as Hb; [destruct (Hin i Hb) as [? ->]; by destruct (pool_name m !! i)|].
    rewrite elem_of_ascending, not_elem_of_dom in Hb. rewrite Hb. by destruct (pool_name m !! i). }
  pose proof (remove_loop (new_pools inc ∪ pools m) names by_name (ascending (old_pools inc)) Ha1 (NoDup_ascending _)) as H2.
  destruct (foldl _ _ (ascending (old_pools inc))) as [[ps' names'] by_name']. destruct H2 as (Ha2 & Hn2 & Hp2).
  { intros i Hi%elem_of_ascending. rewrite Hu, lookup_union. destruct (names_removed _ _ Hn i Hi) as [? ->]. by destruct (new_pool_names inc !! i). }
  eexists _, ps', names', by_name'. split; [reflexivity|]. split_and!; [done| |]; intros i.
  - rewrite Hn2, Hu. by rewrite (bool_decide_ext _ (i ∈ old_pools inc)) by apply elem_of_ascending.
  - rewrite Hp2. by rewrite (bool_decide_ext _ (i ∈ old_pools inc)) by apply elem_of_ascending.
Qed.
