(* ===== verification/OSDMapHistory.v ===== *)
(** * The maps of a cluster

    The incremental maps of src/src/osd/OSDMap.cc as the steps of a state
    machine: what one of them does to each device, and what holds of all maps
    that are reached. *)

From S2P Require Import Prelude CrushRules CrushTables CrushHash CrushMap CrushMapper CrushPerm CrushLn CrushBuckets CrushPlacement CrushIndep CrushRule CrushCorrect CrushPools PlacementGroup PlacementGroupFacts OSDMap OSDMapFacts OSDMapCorrect OSDMapUpdates.

Import Crush Mapper OSDMap.

(** ** Well-formed incremental maps *)

Definition max_after (m : OSDMap.t) (inc : Incremental) : Z := if bool_decide (0 ≤ new_max_osd inc) then new_max_osd inc else max_osd m.

(** The devices that an incremental map names. *)
Definition touches (inc : Incremental) (o : Z) : Prop :=
  is_Some (new_weight inc !! o) ∨ is_Some (new_primary_affinity inc !! o) ∨ is_Some (new_state inc !! o) ∨ o ∈ new_up_client inc.

Record inc_ok (m : OSDMap.t) (inc : Incremental) : Prop := {
  inc_next : inc_epoch inc = epoch m + 1 ∧ inc_epoch inc < 2 ^ 32;
  inc_cluster : inc_epoch inc = 1 ∨ inc_fsid inc = fsid m;
  inc_max : new_max_osd inc < 2 ^ 31;
  inc_devices o : touches inc o → 0 ≤ o < max_after m inc;
  inc_names : names_ok m inc;
  inc_pools i pool : new_pools inc !! i = Some pool →
    pool_ok pool ∧ (pool_type pool = TYPE_REPLICATED ∨ pool_type pool = TYPE_ERASURE) ∧ 0 < pool_size pool < 256;
  inc_upmap pg osds : new_pg_upmap inc !! pg = Some osds → Forall (λ o, 0 ≤ o) osds;
  inc_upmap_items pg items : new_pg_upmap_items inc !! pg = Some items → Forall (λ '(_, to), 0 ≤ to) items;
  inc_crush_ok c args : inc_crush inc = Some (c, args) → crush_ok c args;
  inc_full full : inc_fullmap inc = Some full → osdmap_inv full ∧ epoch full = inc_epoch inc;
}.

(** What becomes of a device: its own entries decide. *)
Definition device_after (inc : Incremental) (o : Z) (d : Z * Z * Z) : Z * Z * Z :=
  let d := match new_weight inc !! o with Some w => weigh w d | None => d end in
  let d := match new_primary_affinity inc !! o with Some a => favour a d | None => d end in
  let d := match new_state inc !! o with Some st => toggle st d | None => d end in
  if bool_decide (o ∈ new_up_client inc) then raise d else d.

Definition device_before (m : OSDMap.t) (o : Z) : Z * Z * Z := if bool_decide (o < max_osd m) then device m o else new_device.

(** ** One incremental map *)

Section step.
Context (m : OSDMap.t) (inc : Incremental) (Hinv : osdmap_inv m) (Hinc : inc_ok m inc).

(** The four loops over devices. *)
Lemma device_loops m1 :
  osdmap_ok m1 → max_osd m1 = max_after m inc →
  ∃ m', (∀ (k : OSDMap.t → outcome (Z * OSDMap.t)),
         (m ← for_osds apply_weight (new_weight inc) m1; m ← for_osds set_primary_affinity (new_primary_affinity inc) m;
          m ← for_osds apply_state (new_state inc) m; m ← foldM apply_up m (ascending (new_up_client inc)); k m) = k m')
    ∧ revised m1 m' ∧ ∀ o, 0 ≤ o → device m' o = device_after inc o (device m1 o).
Proof.
  intros H1 Hmax. pose proof (inc_devices _ _ Hinc) as Hd. unfold touches in Hd.
  destruct (for_osds_ok apply_weight weigh (new_weight inc) m1) as (m2 & E2 & R2 & D2);
    [done|intros o a Ha; rewrite Hmax; apply Hd; naive_solver|intros; apply apply_weight_device|].
  destruct (for_osds_ok set_primary_affinity favour (new_primary_affinity inc) m2) as (m3 & E3 & R3 & D3);
    [by eapply revised_ok|intros o a Ha; rewrite (revised_max m1), Hmax by done; apply Hd; naive_solver|intros; apply set_primary_affinity_device|].
  pose proof (revised_trans _ _ _ R2 R3).
  destruct (for_osds_ok apply_state toggle (new_state inc) m3) as (m4 & E4 & R4 & D4);
    [by eapply revised_ok|intros o a Ha; rewrite (revised_max m1), Hmax by done; apply Hd; naive_solver|intros; apply apply_state_device|].
  assert (revised m1 m4) by by eapply revised_trans.
  destruct (devices_loop apply_up (λ _, raise) (ascending (new_up_client inc)) m4) as (m5 & E5 & R5 & D5); [by eapply revised_ok|apply NoDup_ascending| |].
  { apply Forall_forall. intros o Ho%elem_of_ascending. split; [|apply apply_up_device]. rewrite (revised_max m1), Hmax by done. apply Hd. auto. }
  exists m5. split; [intros k; do 4 (rewrite ?E2, ?E3, ?E4, ?E5; cbn [mbind outcome_bind]); done|]. split; [by eapply revised_trans|]. intros o Ho. unfold device_after.
  rewrite D5, D4, D3, D2 by done. by rewrite (bool_decide_ext _ (o ∈ new_up_client inc)) by apply elem_of_ascending.
Qed.

(** The number of devices. *)
Lemma resized m1 :
  osdmap_ok m1 → max_osd m1 = max_osd m → (∀ o, device m1 o = device m o) →
  ∃ m', (if bool_decide (0 ≤ new_max_osd inc) then set_max_osd m1 (new_max_osd inc) else Ret m1) = Ret m'
    ∧ osdmap_ok m' ∧ max_osd m' = max_after m inc ∧ rest m' = rest m1 ∧ ∀ o, 0 ≤ o < max_after m inc → device m' o = device_before m o.
Proof.
  intros H1 Hmax Hd. unfold max_after, device_before. case_bool_decide as Hn.
  - destruct (set_max_osd_ok m1 (new_max_osd inc) H1) as (m' & -> & Hok & Hmax' & Hr & Hd'); [split; [done|apply (inc_max _ _ Hinc)]|].
    exists m'. split_and!; [done..|]. intros o Ho. by rewrite Hd', Hmax, Hd.
  - exists m1. split_and!; [done..|]. intros o Ho. rewrite bool_decide_true by lia. apply Hd.
Qed.

(** What is not about devices. *)
Lemma pools_step m1 :
  osdmap_ok m1 → rest m1 = rest (at_epoch m (fsid m1) (epoch m1)) →
  ∃ max ps names by_name, apply_pools m1 inc = with_pools m1 max ps names by_name ∧ names_agree names by_name ∧ osdmap_ok (apply_pools m1 inc).
Proof.
  intros H1 [= Hp Hpn Hnp _ _ _ _ _ _].
  assert (names_ok m1 inc) as Hn. { destruct (inc_names _ _ Hinc). constructor; rewrite ?Hpn; done. }
  destruct (apply_pools_ok m1 inc Hn) as (max & ps & names & by_name & -> & Ha & _ & Hps).
  { rewrite Hpn, Hnp. exact (inv_names _ Hinv). }
  exists max, ps, names, by_name. split; [done|]. split; [done|]. destruct H1. constructor; try done. cbn. intros i pool. rewrite Hps.
  case_bool_decide; [done|]. intros [Hi|[_ Hi]]%lookup_union_Some_raw; [by apply (inc_pools _ _ Hinc i)|by apply (ok_pools i)].
Qed.

Lemma overrides_ok m1 : osdmap_ok m1 → osdmap_ok (apply_overrides m1 inc).
Proof.
  intros []. constructor; try done; cbn; intros pg x [Hx _]%map_lookup_filter_Some.
  - apply lookup_union_Some_raw in Hx as [Hx|[_ Hx]]; [by apply (inc_upmap _ _ Hinc pg)|by apply (ok_upmap pg)].
  - apply lookup_union_Some_raw in Hx as [Hx|[_ Hx]]; [by apply (inc_upmap_items _ _ Hinc pg)|by apply (ok_upmap_items pg)].
Qed.

Lemma apply_crush_ok m1 :
  osdmap_ok m1 → crush_ok (crush m1) (crush_choose_args m1) →
  let m' := apply_crush m1 inc in osdmap_ok m' ∧ crush_ok (crush m') (crush_choose_args m').
Proof.
  intros H1 Hc. unfold apply_crush. destruct (inc_crush inc) as [[c args]|] eqn:E; [|done].
  split; [by destruct H1; constructor|apply (inc_crush_ok _ _ Hinc _ _ E)].
Qed.

(** The numbers are counted last. *)
Lemma counted m1 :
  osdmap_ok m1 → crush_ok (crush m1) (crush_choose_args m1) → names_agree (pool_name m1) (name_pool m1) → 0 ≤ epoch m1 →
  ∃ m', calc_num_osds m1 = Ret m' ∧ osdmap_inv m' ∧ same_but_counts m1 m'.
Proof.
  intros H1 Hc Hn He. destruct (calc_num_osds_ok m1 H1) as (m' & -> & Hs & Hnum & Hup & Hi). exists m'. split; [done|]. split; [|done].
  destruct (same_live _ _ Hs) as (Ht & Hl & Hin & Hw). pose proof (same_ok _ _ Hs H1).
  destruct Hs as [Ee _ _ [= Ep En Eb] _ [= Ec Ea]]. constructor; [done|by rewrite Ec, Ea| | | |by rewrite En, Eb|by rewrite Ee].
  - rewrite Hw, Hnum. by apply osds_with_ext.
  - rewrite Hw, Hup. by apply osds_with_ext.
  - rewrite Hw, Hi. by apply osds_with_ext.
Qed.

Lemma apply_crush_device m1 o :
  let m' := apply_crush (apply_overrides m1 inc) inc in
  device m' o = device m1 o ∧ max_osd m' = max_osd m1 ∧ epoch m' = epoch m1 ∧ pool_name m' = pool_name m1 ∧ name_pool m' = name_pool m1.
Proof. unfold apply_crush. by destruct (inc_crush inc) as [[c args]|]. Qed.

Lemma apply_incremental_ok :
  inc_fullmap inc = None →
  ∃ m', apply_incremental m inc = Ret (0, m') ∧ osdmap_inv m' ∧ epoch m' = epoch m + 1 ∧ max_osd m' = max_after m inc
    ∧ ∀ o, 0 ≤ o < max_osd m' → device m' o = device_after inc o (device_before m o).
Proof.
  intros Hfull. destruct (inc_next _ _ Hinc) as [He Hlt]. pose proof (inv_epoch _ Hinv). unfold apply_incremental. rewrite bool_decide_false.
  2:{ intros [H1 H2]. by destruct (inc_cluster _ _ Hinc). }
  assert (u32 (epoch m + 1) = epoch m + 1) as Hu by (unfold u32; rewrite Z.mod_small; lia).
  rewrite Hu, He. unfold assert_that. rewrite (bool_decide_true (epoch m + 1 = epoch m + 1)) by done. cbn [mbind outcome_bind]. rewrite Hfull.
  set (m0 := at_epoch m _ (epoch m + 1)). destruct (resized m0) as (m1 & -> & Hok1 & Hmax1 & Hr1 & Hd1); [by destruct (inv_ok _ Hinv)|done|done|].
  cbn [mbind outcome_bind]. injection Hr1 as Hf1 He1 Hp1 Hpn1 Hnp1 Ht1 Hpt1 Hup1 Hui1 Hc1 Ha1.
  destruct (pools_step m1 Hok1) as (max & ps & names & by_name & E & Hagree & Hok2). { unfold rest. cbn. by rewrite Hp1, Hpn1, Hnp1, Ht1, Hpt1, Hup1, Hui1, Hc1, Ha1. }
  rewrite E in *. destruct (device_loops _ Hok2) as (m3 & Hk & Hrev & Hd3); [done|]. rewrite Hk.
  pose proof (revised_ok _ _ Hok2 Hrev) as Hok3. pose proof (revised_max _ _ Hrev) as Hmax3. pose proof (revised_rest _ _ Hrev) as Hr3.
  injection Hr3 as _ He3 _ Hpn3 Hnp3 _ _ _ _ Hc3 Ha3. cbn in Hmax3.
  destruct (apply_crush_ok (apply_overrides m3 inc)) as [Hok4 Hc4]; [by apply overrides_ok|cbn; rewrite Hc3, Ha3, Hc1, Ha1; exact (inv_crush _ Hinv)|].
  destruct (apply_crush_device m3 0) as (_ & Hmax4 & He4 & Hpn4 & Hnp4).
  destruct (counted _ Hok4 Hc4) as (m' & -> & Hinv' & Hs); [by rewrite Hpn4, Hnp4, Hpn3, Hnp3|rewrite He4, He3; cbn; rewrite He1; cbn; lia|].
  cbn [mbind outcome_bind]. exists m'. destruct Hs as [Ee Ef Eo Ep Eov Ec]. assert (max_osd m' = max_after m inc) as Hmax'.
  { injection Eo as -> _ _ _. by rewrite Hmax4, Hmax3. }
  split_and!; [done|done|by rewrite Ee, He4, He3; cbn; rewrite He1|done|]. intros o Ho. rewrite Hmax' in Ho.
  rewrite (same_device (apply_crush (apply_overrides m3 inc) inc) m') by by constructor. rewrite (proj1 (apply_crush_device m3 o)), Hd3 by lia.
  f_equal. by apply Hd1.
Qed.

End step.

(** ** Up and down *)

Lemma land_bit x k : 0 ≤ k → Z.land x (2 ^ k) ≠ 0 ↔ Z.testbit x k = true.
Proof.
  intros Hk. split; intros H.
  - destruct (Z.testbit x k) eqn:E; [done|]. destruct H. apply Z.bits_inj'. intros i Hi. rewrite Z.land_spec, Z.pow2_bits_eqb, Z.bits_0 by done.
    destruct (Z.eqb_spec k i) as [<-|]; [by rewrite E|apply andb_false_r].
  - intros H0. assert (Z.testbit (Z.land x (2 ^ k)) k = false) as H1 by (rewrite H0; apply Z.bits_0).
    rewrite Z.land_spec, H, Z.pow2_bits_true in H1 by done. done.
Qed.

Lemma flagged_bit m o f k : 0 ≤ k → f = 2 ^ k → flagged m o f = Z.testbit (device m o).1.1 k.
Proof.
  intros Hk ->. unfold flagged, device. cbn [fst]. rewrite (bool_decide_ext _ _ (land_bit _ _ Hk)). by destruct (Z.testbit _ _).
Qed.

Lemma live_bits m o : live m o = bool_decide (0 ≤ o < max_osd m) && Z.testbit (device m o).1.1 0 && Z.testbit (device m o).1.1 1.
Proof. unfold live, there. by rewrite (flagged_bit m o CEPH_OSD_EXISTS 0), (flagged_bit m o CEPH_OSD_UP 1). Qed.

Lemma raise_bits d : Z.testbit (raise d).1.1 0 = true ∧ Z.testbit (raise d).1.1 1 = true.
Proof. destruct d as [[s w] a]. unfold raise. cbn [fst]. rewrite !Z.lor_spec. split; apply orb_true_r. Qed.

(** Without an entry of its own, or with one that only changes its weight,
    a device that exists stays as up or as down as it was. *)
Lemma weigh_bits w d k : 0 ≤ k < 2 → Z.testbit d.1.1 0 = true → Z.testbit (weigh w d).1.1 k = Z.testbit d.1.1 k.
Proof.
  destruct d as [[s w0] a]. unfold weigh. cbn [fst]. intros Hk H0. case_bool_decide; [|done]. unfold u8. rewrite Z.mod_pow2_bits_low by lia.
  rewrite Z.land_spec, Z.lor_spec. assert (k = 0 ∨ k = 1) as [-> | ->] by lia; [by rewrite H0|]. cbn. by rewrite orb_false_r, andb_true_r.
Qed.

(** Down: the state of a device that is up is toggled. *)
Lemma toggle_down st s w a : st = 0 ∨ st = CEPH_OSD_UP → Z.testbit s 1 = true → Z.testbit (toggle st (s, w, a)).1.1 1 = false.
Proof.
  intros Hst Hs. unfold toggle. assert ((if bool_decide (st ≠ 0) then st else CEPH_OSD_UP) = CEPH_OSD_UP) as -> by by destruct Hst as [->| ->].
  rewrite bool_decide_false by (intros [_ H]; by apply H). cbn [fst]. unfold u8. rewrite Z.mod_pow2_bits_low by lia.
  by rewrite Z.lxor_spec, Hs.
Qed.

(** C11. An incremental map changes every device by its own entries: on a map that
    satisfies the invariant, [apply_incremental] returns 0, the epoch is
    the next one, and the state, weight and primary affinity of each device
    are those that its entries of new_weight, new_primary_affinity, new_state
    and new_up_client, in this order, make of the old ones, whatever the
    other devices do. A device that boots is up; one that was up and is
    marked down, and does not boot, is not. *)
Theorem apply_incremental_devices m inc :
  osdmap_inv m → inc_ok m inc → inc_fullmap inc = None →
  ∃ m', apply_incremental m inc = Ret (0, m') ∧ epoch m' = epoch m + 1 ∧ max_osd m' = max_after m inc
    ∧ (∀ o, 0 ≤ o < max_osd m' → device m' o = device_after inc o (device_before m o))
    ∧ (∀ o, o ∈ new_up_client inc → live m' o = true)
    ∧ (∀ o st, live m o = true → new_state inc !! o = Some st → st = 0 ∨ st = CEPH_OSD_UP → o ∉ new_up_client inc → live m' o = false).
Proof.
  intros Hm Hinc Hf. destruct (apply_incremental_ok m inc Hm Hinc Hf) as (m' & -> & _ & He & Hmax & Hd). exists m'. split_and!; [done..| |].
  - intros o Ho. assert (0 ≤ o < max_osd m') as Hr by (rewrite Hmax; apply (inc_devices _ _ Hinc); do 3 right; done).
    rewrite live_bits, Hd by done. unfold device_after. rewrite (bool_decide_true (o ∈ _)) by done.
    match goal with |- context [raise ?d] => destruct (raise_bits d) as [-> ->] end. by rewrite bool_decide_true.
  - intros o st Hl Hst Hdown Hup. assert (0 ≤ o < max_osd m') as Hr by (rewrite Hmax; apply (inc_devices _ _ Hinc); do 2 right; left; by eexists).
    rewrite live_bits in Hl. apply andb_true_iff in Hl as [[Hrange%bool_decide_eq_true H0]%andb_true_iff H1]. rewrite live_bits, Hd by done.
    unfold device_after, device_before. rewrite (bool_decide_true (o < _)), (bool_decide_false (o ∈ _)), Hst by (done || lia).
    match goal with |- context [toggle st ?d] => assert (Z.testbit d.1.1 1 = true) as Hb; [|destruct d as [[s w] a]; rewrite (toggle_down st s w a Hdown Hb); apply andb_false_r] end.
    destruct (new_weight inc !! o) as [w|]; [pose proof (weigh_bits w (device m o) 1 ltac:(lia) H0) as Hw|pose proof H1 as Hw];
      (destruct (new_primary_affinity inc !! o) as [x|]; [|congruence]).
    + destruct (weigh w (device m o)) as [[s' w'] a']. cbn in *. congruence.
    + destruct (device m o) as [[s' w'] a']. done.
Qed.

(** ** All maps *)

(** The maps that a cluster goes through, from the empty one. *)
Inductive reached : OSDMap.t → Prop :=
| reached_new : reached new_OSDMap
| reached_next m inc m' : reached m → inc_ok m inc → apply_incremental m inc = Ret (0, m') → reached m'.

Lemma new_OSDMap_inv : osdmap_inv new_OSDMap.
Proof.
  constructor; try done. constructor; try done. exists (λ _, 0%nat). constructor; try done; intros item b; unfold bucket_of; cbn.
  - case_match; done.
  - case_match; done.
Qed.

Lemma full_map_step m inc full :
  osdmap_inv m → inc_ok m inc → inc_fullmap inc = Some full → apply_incremental m inc = Ret (0, full).
Proof.
  intros Hm Hinc Hf. destruct (inc_next _ _ Hinc) as [He Hlt]. pose proof (inv_epoch _ Hm). unfold apply_incremental.
  rewrite bool_decide_false by (intros [H1 H2]; by destruct (inc_cluster _ _ Hinc)).
  rewrite Hf. unfold assert_that. rewrite (bool_decide_true (inc_epoch inc = _)); [done|]. unfold u32. rewrite Z.mod_small; lia.
Qed.

Lemma step_inv m inc :
  osdmap_inv m → inc_ok m inc → ∃ m', apply_incremental m inc = Ret (0, m') ∧ osdmap_inv m' ∧ epoch m' = epoch m + 1.
Proof.
  intros Hm Hinc. destruct (inc_fullmap inc) as [full|] eqn:Hf.
  - exists full. destruct (inc_full _ _ Hinc full Hf) as [Hi He]. split; [by apply full_map_step|]. split; [done|].
    rewrite He. apply (inc_next _ _ Hinc).
  - destruct (apply_incremental_ok m inc Hm Hinc Hf) as (m' & ? & ? & ? & _). by exists m'.
Qed.

Lemma reached_inv m : reached m → osdmap_inv m.
Proof.
  induction 1 as [|m inc m' _ IH Hinc Hs]; [apply new_OSDMap_inv|]. destruct (step_inv m inc IH Hinc) as (m'' & Hs' & Hi & _). congruence.
Qed.

(** C6. Every map that a cluster reaches from the empty one by well-formed
    incremental maps has vectors of the right sizes, the numbers of devices
    that exist, are up and are in, and the names of its pools in both
    directions; the next well-formed incremental map applies to it; and it
    gives every placement group an up set and an acting set of devices that
    exist and are up, or holes, with the primary of the up set among its
    devices. *)
Theorem osdmap_history m :
  reached m →
  osdmap_inv m
  ∧ (∀ inc, inc_ok m inc → ∃ m', apply_incremental m inc = Ret (0, m') ∧ epoch m' = epoch m + 1)
  ∧ ∀ pg, ∃ N up up_primary acting acting_primary,
      (∀ fuel, (N ≤ fuel)%nat → pg_to_up_acting_osds m fuel pg = Ret ((up, up_primary), (acting, acting_primary)))
      ∧ Forall (usable m) up ∧ primary_of up up_primary ∧ Forall (usable m) acting
      ∧ ((∀ q, primary_temp m !! q = None) → primary_of acting acting_primary).
Proof.
  intros Hr%reached_inv. split; [done|]. split; [intros inc Hinc; destruct (step_inv m inc Hr Hinc) as (m' & ? & _ & ?); by exists m'|].
  intros pg. apply up_acting_live; [apply (inv_ok _ Hr)|apply (inv_crush _ Hr)].
Qed.

(** ** A small cluster *)

(** The first map of the small cluster: eight devices boot, and its pools
    and its CRUSH map are made. *)
Definition cluster_first : Incremental :=
  mkIncremental 7 1 None 8 6 {[5 := erasure_pool; 6 := replicated_pool]} {[5 := "ec"; 6 := "rep"]} ∅
    (gset_to_gmap 0x10000 (list_to_set (seqZ 0 8))) ∅ ∅ (list_to_set (seqZ 0 8)) ∅ ∅ ∅ ∅ ∅ ∅ (Some (cluster, ∅)).

(** Then device 6 goes down, device 2 is out, and the replicated pool has
    another name. *)
Definition cluster_second : Incremental :=
  mkIncremental 7 2 None (-1) (-1) ∅ {[6 := "data"]} ∅ {[2 := 0]} ∅ {[6 := 0]} ∅ ∅ ∅ ∅ ∅ ∅ ∅ None.

Definition applied (m : OSDMap.t) (inc : Incremental) : OSDMap.t :=
  match apply_incremental m inc with Ret (_, m') => m' | _ => m end.

Lemma cluster_first_ok : inc_ok new_OSDMap cluster_first.
Proof.
  constructor; try done.
  - by left.
  - intros o Ho. change (0 ≤ o < 8). unfold touches in Ho. cbn in Ho. destruct Ho as [[x H]|[[x H]|[[x H]|H]]]; try done.
    + apply lookup_gset_to_gmap_Some in H as [H%elem_of_list_to_set _]. apply elem_of_seqZ in H. lia.
    + apply elem_of_list_to_set, elem_of_seqZ in H. lia.
  - constructor; cbn; try done. intros i j name Hi Hj.
    apply lookup_insert_Some in Hi as [[<- <-]|[_ [<- <-]%lookup_singleton_Some]]; apply lookup_insert_Some in Hj as [[<- ?]|[_ [<- ?]%lookup_singleton_Some]]; done.
  - intros i pool Hp. apply (ok_pools _ (cluster_osdmap_ok []) i). exact Hp.
  - intros c args [= <- <-]. exact cluster_crush_ok.
Qed.

Lemma cluster_second_ok_at m : epoch m = 1 → fsid m = 7 → max_osd m = 8 → pool_name m = {[5 := "ec"; 6 := "rep"]} → inc_ok m cluster_second.
Proof.
  intros He Hf Hmax Hn. constructor; try done.
  - by rewrite He.
  - by right.
  - intros o Ho. unfold max_after. rewrite bool_decide_false, Hmax by (cbn; lia). unfold touches in Ho. cbn in Ho.
    destruct Ho as [[x H]|[[x H]|[[x H]|H]]]; try done; apply lookup_singleton_Some in H as [<- _]; lia.
  - constructor; cbn [cluster_second new_pool_names old_pools]; try done.
    + intros i j name [<- _]%lookup_singleton_Some [<- _]%lookup_singleton_Some. done.
    + intros i j name [<- <-]%lookup_singleton_Some Hj. rewrite Hn in Hj.
      by apply lookup_insert_Some in Hj as [[<- ?]|[_ [<- ?]%lookup_singleton_Some]].
Qed.

Lemma cluster_second_ok : inc_ok (applied new_OSDMap cluster_first) cluster_second.
Proof. apply cluster_second_ok_at; vm_compute; reflexivity. Qed.

Lemma cluster_reached : reached (applied (applied new_OSDMap cluster_first) cluster_second).
Proof.
  apply (reached_next (applied new_OSDMap cluster_first) cluster_second); [|exact cluster_second_ok|vm_compute; reflexivity].
  apply (reached_next new_OSDMap cluster_first); [constructor|exact cluster_first_ok|vm_compute; reflexivity].
Qed.

Lemma apply_incremental_devices_witness : let m := applied new_OSDMap cluster_first in
  osdmap_inv m ∧ (live m 6 = true) ∧ ∃ m', apply_incremental m cluster_second = Ret (0, m') ∧ epoch m' = epoch m + 1 ∧ max_osd m' = max_after m cluster_second
    ∧ (∀ o, 0 ≤ o < max_osd m' → device m' o = device_after cluster_second o (device_before m o))
    ∧ (∀ o, o ∈ new_up_client cluster_second → live m' o = true)
    ∧ (∀ o st, live m o = true → new_state cluster_second !! o = Some st → st = 0 ∨ st = CEPH_OSD_UP → o ∉ new_up_client cluster_second → live m' o = false).
Proof.
  assert (osdmap_inv (applied new_OSDMap cluster_first)) as Hi.
  { apply reached_inv, (reached_next new_OSDMap cluster_first); [constructor|exact cluster_first_ok|vm_compute; reflexivity]. }
  split; [exact Hi|]. split; [vm_compute; reflexivity|].
  exact (apply_incremental_devices (applied new_OSDMap cluster_first) cluster_second Hi cluster_second_ok eq_refl).
Defined.

Lemma osdmap_history_witness : let m := applied (applied new_OSDMap cluster_first) cluster_second in
  num_osd m = 8 ∧ num_up_osd m = 7 ∧ num_in_osd m = 7 ∧ name_pool m !! "data" = Some 6
  ∧ osdmap_inv m
  ∧ (∀ inc, inc_ok m inc → ∃ m', apply_incremental m inc = Ret (0, m') ∧ epoch m' = epoch m + 1)
  ∧ ∀ pg, ∃ N up up_primary acting acting_primary,
      (∀ fuel, (N ≤ fuel)%nat → pg_to_up_acting_osds m fuel pg = Ret ((up, up_primary), (acting, acting_primary)))
      ∧ Forall (usable m) up ∧ primary_of up up_primary ∧ Forall (usable m) acting
      ∧ ((∀ q, primary_temp m !! q = None) → primary_of acting acting_primary).
Proof. do 4 (split; [vm_compute; reflexivity|]). exact (osdmap_history _ cluster_reached). Defined.
