(* ===== verification/OptLrc.v ===== *)
(** * The Optimal-LRC plugin: encoding and decoding

    src/src/erasure-code/optlrc/ErasureCodeOptLrc.{h,cc}. The chunks of a
    stripe are cut into local groups of [r + 1] consecutive chunks (the last
    one may be shorter); a lost chunk is the XOR of the rest of its group. The
    parsing of the profile and the CRUSH rule are in OptLrcInit. *)

From S2P Require Import Prelude Galois OptLrcConfigs ErasureCode.

Module OptLrc.

(** The members that [init] sets and the operations below read. *)
Record t := mk {
  n : Z;
  k : Z;
  r : Z;
  mapping : list Z;
  base_mapping : list Z;   (* [ErasureCode::chunk_mapping] *)
}.

Definition get_alignment (s : t) : Z := u32 (k s * 8 * 4).

Definition get_chunk_size (s : t) (object_size : Z) : outcome Z :=
  let alignment := get_alignment s in
  let data_chunk_count := u32 (k s) in
  if bool_decide (data_chunk_count = 0) then Abort DivByZero else
  let chunk_size := u32 (object_size + data_chunk_count - 1) / data_chunk_count in
  if bool_decide (alignment = 0) then Abort DivByZero else
  let modulo := chunk_size mod alignment in
  Ret (if bool_decide (modulo ≠ 0) then u32 (chunk_size + alignment - modulo)
       else chunk_size).

(** The rows of the generator matrix that the coding chunks take, in the
    format of [jerasure_matrix_encode]. *)
Definition coding_matrix (s : t) (g : OptLRC) : outcome (list Z) :=
  foldM (λ matrix i,
      foldM (λ matrix j, x ← encode_entry g i j; Ret (matrix ++ [x]))
        matrix (seqZ 0 (k s)))
    [] (drop (Z.to_nat (k s)) (mapping s)).

Definition optlrc_encode `{Jerasure} (s : t) (data : list bytes) (blocksize : Z)
    : outcome (list bytes) :=
  pOptLRC_G ← configs (n s) (k s) (r s);
  matrix ← coding_matrix s pOptLRC_G;
  Ret (jerasure_matrix_encode (k s) (n s - k s) 8 matrix data blocksize).

(** A region of [blocksize] bytes written at the start of buffer [i]. *)
Definition overwrite (blocksize : Z) (enc : gmap Z bytes) (ib : Z * bytes)
    : gmap Z bytes :=
  <[ib.1 := ib.2 ++ drop (Z.to_nat blocksize) (buf enc ib.1)]> enc.

(** The array [chunks] has [n] pointers, one per entry of [mapping]; every
    buffer behind it has to hold [blocksize] bytes. *)
Definition encode_chunks `{Jerasure} (s : t) (want_to_encode : gset Z)
    (encoded : gmap Z bytes) : outcome (Z * gmap Z bytes) :=
  if bool_decide (n s < Z.of_nat (length (mapping s))) then Abort OutOfBounds else
  if bool_decide (Z.of_nat (length (mapping s)) < n s) then Abort Uninitialised else
  let encoded := foldl touch encoded (mapping s) in
  let chunks := buf encoded <$> mapping s in
  first ← need EmptyContainer (map_first encoded);
  let blocksize := blen first in
  if bool_decide (Forall (λ b, blocksize ≤ blen b) chunks) then
    coding ← optlrc_encode s (take (Z.to_nat blocksize) <$> take (Z.to_nat (k s)) chunks)
               blocksize;
    Ret (0, foldl (overwrite blocksize) encoded
              (zip (drop (Z.to_nat (k s)) (mapping s)) coding))
  else Abort OutOfBounds.

Definition minimum_to_decode (s : t) (want_to_read available_chunks minimum : gset Z)
    : outcome (Z * gset Z) :=
  _ ← configs_slot (n s) (k s) (r s);
  let erasures_total := ids_where (λ i, bool_decide (i ∉ available_chunks)) (n s) in
  let erasures_want :=
    ids_where (λ i, bool_decide (i ∉ available_chunks) && bool_decide (i ∈ want_to_read))
      (n s) in
  if bool_decide (erasures_want = ∅) then Ret (0, want_to_read) else
  let group i := i `quot` (r s + 1) in
  let loop := for_each (λ '(failed_groups, minimum) it,
      if bool_decide (group it ∈ (failed_groups : gset Z)) then
        Done (- EIO, minimum)
      else
        let failed_groups := failed_groups ∪ {[group it]} in
        (* Case 2 *)
        let minimum := foldl (λ minimum it1,
            foldl (λ minimum it2,
                if bool_decide (group it2 = it1) then minimum ∪ {[it2]} else minimum)
              minimum (ascending available_chunks))
          minimum (ascending failed_groups) in
        Next (failed_groups, minimum))
    (∅, minimum) (ascending erasures_want) in
  match loop with
  | Done result => Ret result
  | Next (_, minimum) =>
      let minimum := minimum ∪ want_to_read in
      Ret (0, foldl (λ minimum i, minimum ∖ {[i]}) minimum (ascending erasures_total))
  end.

(** [memcpy (dst, src, len)]. *)
Definition memcpy (dst src : bytes) (len : Z) : outcome bytes :=
  if bool_decide (len ≤ blen src ∧ len ≤ blen dst) then
    Ret (take (Z.to_nat len) src ++ drop (Z.to_nat len) dst)
  else Abort OutOfBounds.

(** [local] is an array of pointers to the buffers of [decoded]: the chunk
    whose buffer each one points to. *)
Definition optlrc_decode_local `{Galois} (s : t) (erased : Z) (local : gmap Z Z)
    (group_size blocksize : Z) (decoded : gmap Z bytes) : outcome (gmap Z bytes) :=
  _ ← configs_slot (n s) (k s) (r s);
  let loc_erased := erased `rem` (r s + 1) in
  dst ← need Uninitialised (local !! loc_erased);
  '(decoded, _) ← foldM (λ '(decoded, init) i,
      if bool_decide (i ≠ loc_erased) then
        src ← need Uninitialised (local !! i);
        if bool_decide (init = 0) then
          b ← memcpy (buf decoded dst) (buf decoded src) blocksize;
          Ret (<[dst := b]> decoded, 1)
        else if bool_decide (blocksize ≤ blen (buf decoded src)
                             ∧ blocksize ≤ blen (buf decoded dst)) then
          Ret (<[dst := galois_region_xor (buf decoded src) (buf decoded dst) blocksize]>
                 decoded, init)
        else Abort OutOfBounds
      else Ret (decoded, init))
    (decoded, 0) (seqZ 0 group_size);
  Ret decoded.

(** The chunks of the local group [failed_group] that exist, in order. *)
Definition collect_group (s : t) (failed_group : Z) (local : gmap Z Z)
    (decoded : gmap Z bytes) : Z * gmap Z Z * gmap Z bytes :=
  foldl (λ '(group_size, local, decoded) i,
      if bool_decide (i `quot` (r s + 1) = failed_group) then
        (group_size + 1, <[i `rem` (r s + 1) := i]> local, touch decoded i)
      else (group_size, local, decoded))
    (0, local, decoded) (seqZ 0 (n s)).

Definition decode_chunks `{Galois} (s : t) (want_to_read : gset Z)
    (chunks decoded : gmap Z bytes) : outcome (Z * gmap Z bytes) :=
  first ← need EmptyContainer (map_first chunks);
  let blocksize := blen first in
  _ ← configs_slot (n s) (k s) (r s);
  let erasures :=
    ids_where (λ i, bool_decide (i ∉ dom chunks) && bool_decide (i ∈ want_to_read)) (n s) in
  let erasures_init := Z.of_nat (size erasures) in
  '(decoded, _, erasures_init) ← foldM (λ '(decoded, local, erasures_init) erased,
      let failed_group := erased `quot` (r s + 1) in
      let '(group_size, local, decoded) := collect_group s failed_group local decoded in
      decoded ← optlrc_decode_local s erased local group_size blocksize decoded;
      Ret (decoded, local, erasures_init - 1))
    (decoded, ∅, erasures_init) (ascending erasures);
  Ret (if bool_decide (0 < erasures_init) then - EIO else 0, decoded).

(** The plugin as the base class sees it. *)
Definition codec `{Galois} `{Jerasure} (s : t) : Codec := {|
  get_chunk_count := n s;
  get_data_chunk_count := k s;
  chunk_mapping := base_mapping s;
  ErasureCode.get_chunk_size := get_chunk_size s;
  codec_minimum_to_decode := minimum_to_decode s;
  ErasureCode.encode_chunks := encode_chunks s;
  ErasureCode.decode_chunks := decode_chunks s;
|}.

End OptLrc.
