(* ===== verification/OptLrcFacts.v ===== *)
(** * The Optimal-LRC plugin: local repair

    A chunk is the XOR of the rest of its local group, because the rows of a
    group of the generator matrix add up to zero. From this follow the
    correctness of [decode_chunks], of [encode_chunks] and of the sets
    [minimum_to_decode] asks for, and the instance of [CodecSpec]. *)

From S2P Require Import Prelude Galois OptLrcConfigs ErasureCode OptLrc.

Import OptLrc.

(** ** Local groups *)

(** First chunk of the group of [e]. *)
Definition group_base (r e : Z) : Z := (e `quot` (r + 1)) * (r + 1).

Section groups.
Context (n r e : Z) (Hr : 0 < r) (He : 0 ≤ e < n).
#[local] Abbreviation base := (group_base r e).
#[local] Abbreviation sz := (Z.min (r + 1) (n - base)).

Lemma group_base_split : e = base + e `rem` (r + 1) ∧ 0 ≤ e `rem` (r + 1) < r + 1.
Proof.
  unfold group_base. pose proof (Z.quot_rem' e (r + 1)).
  pose proof (Z.rem_bound_pos e (r + 1)). lia.
Qed.

Lemma in_group_iff i :
  0 ≤ i → i `quot` (r + 1) = e `quot` (r + 1) ↔ base ≤ i < base + (r + 1).
Proof.
  intros Hi. unfold group_base. rewrite !Z.quot_div_nonneg by lia.
  pose proof (Z.div_mod i (r + 1)). pose proof (Z.mod_pos_bound i (r + 1)).
  split; [nia|]. intros Hb. symmetry. apply (Z.div_unique_pos i (r + 1) _ (i - e / (r + 1) * (r + 1))); lia.
Qed.

Lemma group_base_nonneg : 0 ≤ base.
Proof. unfold group_base. pose proof (Z.quot_pos e (r + 1)). nia. Qed.

Lemma group_ids_seqZ : group_ids n r e = seqZ base sz.
Proof.
  pose proof group_base_split. pose proof group_base_nonneg.
  unfold group_ids. rewrite (seqZ_split base n) by lia.
  replace (n - base) with (sz + (n - base - sz)) at 1 by lia.
  rewrite seqZ_app by lia. rewrite !filter_app.
  rewrite (filter_none _ (seqZ 0 base)), (filter_all _ (seqZ base sz)),
    (filter_none _ (seqZ (base + sz) _)); [by rewrite app_nil_r|..];
    intros i Hi%elem_of_seqZ; rewrite in_group_iff by lia; lia.
Qed.

Lemma group_ids_base : group_ids n r e = (λ j, base + j) <$> seqZ 0 sz.
Proof.
  rewrite group_ids_seqZ. change (λ j, base + j) with (Z.add base).
  rewrite fmap_add_seqZ. f_equal. lia.
Qed.

End groups.

Lemma elem_of_group_ids n r e i :
  i ∈ group_ids n r e ↔ 0 ≤ i < n ∧ i `quot` (r + 1) = e `quot` (r + 1).
Proof. unfold group_ids. rewrite list_elem_of_filter, elem_of_seqZ. naive_solver lia. Qed.

Lemma group_ids_self n r e : 0 ≤ e < n → e ∈ group_ids n r e.
Proof. intros. unfold group_ids. rewrite list_elem_of_filter, elem_of_seqZ. lia. Qed.

Lemma group_ids_perm n r e :
  0 ≤ e < n →
  group_ids n r e ≡ₚ e :: filter (λ i, i ≠ e) (group_ids n r e).
Proof.
  intros He. assert (NoDup (group_ids n r e)) as Hnd
    by (apply NoDup_filter, NoDup_seqZ).
  apply NoDup_Permutation; [done| |].
  - apply NoDup_cons. split; [|by apply NoDup_filter].
    rewrite list_elem_of_filter. tauto.
  - intros i. rewrite elem_of_cons, list_elem_of_filter.
    pose proof (group_ids_self n r e He). destruct (decide (i = e)); naive_solver.
Qed.

Lemma collect_group_foldl s fg (local : gmap Z Z) decoded l sz0 :
  foldl (λ '(group_size, local, decoded) i,
      if bool_decide (i `quot` (r s + 1) = fg) then
        (group_size + 1, <[i `rem` (r s + 1) := i]> local, touch decoded i)
      else (group_size, local, decoded)) (sz0, local, decoded) l
  = (sz0 + Z.of_nat (length (filter (λ i, i `quot` (r s + 1) = fg) l)),
     foldl (λ (local : gmap Z Z) i, <[i `rem` (r s + 1) := i]> local) local
       (filter (λ i, i `quot` (r s + 1) = fg) l),
     foldl touch decoded (filter (λ i, i `quot` (r s + 1) = fg) l)).
Proof.
  revert sz0 local decoded. induction l as [|i l IH]; intros sz0 local decoded; simpl.
  - do 2 f_equal. lia.
  - rewrite filter_cons. case_bool_decide as Hi.
    + rewrite decide_True by done. rewrite IH. simpl. do 2 f_equal. lia.
    + rewrite decide_False by done. apply IH.
Qed.

(** The pointers [decode_chunks] collects: the group in order. *)
Lemma collect_group_spec s e local decoded :
  0 < r s → 0 ≤ e < n s → (∀ i, 0 ≤ i < n s → i ∈ dom decoded) →
  ∃ local', collect_group s (e `quot` (r s + 1)) local decoded
      = (Z.min (r s + 1) (n s - group_base (r s) e), local', decoded)
    ∧ ∀ j, 0 ≤ j < Z.min (r s + 1) (n s - group_base (r s) e) →
        local' !! j = Some (group_base (r s) e + j).
Proof.
  intros Hr He Hdom. pose proof (group_base_split (n s) (r s) e Hr He).
  eexists. unfold collect_group. rewrite collect_group_foldl.
  change (filter _ (seqZ 0 (n s))) with (group_ids (n s) (r s) e).
  rewrite foldl_touch_id by (intros i [? _]%elem_of_group_ids; by apply Hdom).
  rewrite group_ids_base by done. rewrite length_fmap, length_seqZ.
  split; [do 2 f_equal; lia|].
  set (sz := Z.min _ _). set (b := group_base _ _) in *.
  assert (∀ j, 0 ≤ j < r s + 1 → (b + j) `rem` (r s + 1) = j) as Hrem.
  { intros j Hj. assert (0 ≤ e `quot` (r s + 1)) by (apply Z.quot_pos; lia).
    unfold b, group_base. rewrite Z.rem_mod_nonneg by nia.
    rewrite Z.add_comm, Z_mod_plus_full. by apply Z.mod_small. }
  assert (∀ m, 0 ≤ m ≤ sz → ∀ j, 0 ≤ j < m →
    foldl (λ (local : gmap Z Z) i, <[i `rem` (r s + 1) := i]> local) local
      ((λ j, b + j) <$> seqZ 0 m) !! j = Some (b + j)) as Hgen; [|apply Hgen; lia].
  intros m [Hm Hms]. revert Hms. pattern m.
  apply natlike_ind; [lia| |exact Hm]. clear m Hm.
  intros m Hm IH Hms j Hj. rewrite <-Z.add_1_r, seqZ_app_snoc by done.
  rewrite fmap_app, foldl_app. simpl. rewrite Hrem by lia.
  destruct (decide (j = m)) as [->|]; [apply lookup_insert_eq|].
  rewrite lookup_insert_ne by done. apply IH; lia.
Qed.

(** ** Local repair *)

Section repair.
Context `{GaloisSpec}.

(** The loop state of [optlrc_decode_local] after the chunks [l]. *)
Definition repair_state (decoded : gmap Z bytes) (e : Z) (bs : nat) (l : list Z)
    : gmap Z bytes * Z :=
  if decide (l = []) then (decoded, 0)
  else (<[e := xor_all bs (buf decoded <$> l)]> decoded, 1).

Lemma repair_step decoded e bs l i dec init :
  i ≠ e → length (buf decoded i) = bs → length (buf decoded e) = bs →
  Forall (λ i, length (buf decoded i) = bs) l →
  repair_state decoded e bs l = (dec, init) →
  (if bool_decide (init = 0) then
     b ← memcpy (buf dec e) (buf dec i) (Z.of_nat bs);
     Ret (<[e := b]> dec, 1)
   else if bool_decide (Z.of_nat bs ≤ blen (buf dec i)
                        ∧ Z.of_nat bs ≤ blen (buf dec e)) then
     Ret (<[e := galois_region_xor (buf dec i) (buf dec e) (Z.of_nat bs)]> dec, init)
   else Abort OutOfBounds)
  = Ret (repair_state decoded e bs (l ++ [i])).
Proof.
  intros Hie Hi He Hl. unfold repair_state.
  rewrite (decide_False (P := l ++ [i] = [])) by (by destruct l).
  rewrite fmap_app. case_decide as Hnil; intros [= <- <-].
  - subst l. unfold memcpy, blen. rewrite Hi, He, !bool_decide_true by lia.
    simpl. rewrite Nat2Z.id, take_ge, drop_ge, app_nil_r by lia.
    by rewrite xor_all_singleton.
  - assert (length (xor_all bs (buf decoded <$> l)) = bs) as Hx
      by (by apply length_xor_all, Forall_fmap).
    rewrite bool_decide_false by lia.
    rewrite buf_insert_ne, buf_insert_eq by done.
    unfold blen. rewrite Hi, Hx, bool_decide_true by lia.
    rewrite galois_region_xor_spec by (unfold blen; lia).
    rewrite Nat2Z.id, !take_ge, drop_ge, app_nil_r by lia.
    rewrite insert_insert_eq, xor_all_app; [|by apply Forall_fmap|by repeat constructor].
    simpl. by rewrite xor_all_singleton, xor_bytes_comm.
Qed.

(** [optlrc_decode_local] leaves in the buffer of the erased chunk the XOR of
    the buffers of the rest of its group. *)
Lemma optlrc_decode_local_spec s g e local bs decoded :
  configs_slot (n s) (k s) (r s) = Ret g →
  0 < r s → 0 ≤ e < n s →
  (∀ j, 0 ≤ j < Z.min (r s + 1) (n s - group_base (r s) e) →
     local !! j = Some (group_base (r s) e + j)) →
  (∀ i, i ∈ group_ids (n s) (r s) e → length (buf decoded i) = bs) →
  (2 ≤ length (group_ids (n s) (r s) e))%nat →
  optlrc_decode_local s e local (Z.min (r s + 1) (n s - group_base (r s) e))
    (Z.of_nat bs) decoded
  = Ret (<[e := xor_all bs (buf decoded
             <$> filter (λ i, i ≠ e) (group_ids (n s) (r s) e))]> decoded).
Proof.
  intros Hslot Hr He Hlocal Hlen H2.
  pose proof (group_base_split (n s) (r s) e Hr He) as [Hsplit Hrem].
  pose proof (group_ids_self (n s) (r s) e He) as Hself.
  assert (filter (λ i, i ≠ e) (group_ids (n s) (r s) e) ≠ []) as Hne.
  { intros E. apply (f_equal length) in E.
    rewrite (group_ids_perm _ _ _ He) in H2. simpl in H2, E. lia. }
  rewrite group_ids_base in * by done.
  set (b := group_base _ _) in *. set (sz := Z.min _ _) in *.
  set (loc := e `rem` _) in *.
  assert (0 ≤ loc < sz) as Hloc by lia.
  unfold optlrc_decode_local. rewrite Hslot. simpl. fold loc. rewrite Hlocal by done. simpl.
  rewrite <-Hsplit.
  match goal with |- context [foldM ?f _ _] =>
    destruct (foldM_inv f (λ l st, st = repair_state decoded e bs
      (filter (λ i, i ≠ e) ((λ j, b + j) <$> l)))
      (seqZ 0 sz) (decoded, 0)) as (st & -> & ->)
  end; [done| |].
  2: { simpl. unfold repair_state. by rewrite decide_False. }
  intros l1 x l2 [dec init] Hl Hst.
  assert (0 ≤ x < sz) as Hx
    by (apply (elem_of_seqZ_range x 0 sz); rewrite Hl; set_solver).
  rewrite fmap_app, filter_app. simpl. rewrite filter_cons, filter_nil.
  case_bool_decide as Hxl.
  - rewrite Hlocal by done. simpl. rewrite decide_True by lia.
    eexists; split; [|done]. eapply repair_step; [lia|..|done].
    + apply Hlen, list_elem_of_fmap_2, elem_of_seqZ_range. lia.
    + by apply Hlen.
    + apply Forall_forall. intros j [_ (y & -> & Hy)%list_elem_of_fmap]%list_elem_of_filter.
      apply Hlen, list_elem_of_fmap_2. rewrite Hl. set_solver.
  - rewrite decide_False by lia. rewrite app_nil_r. eauto.
Qed.

(** [decode] for one chunk that is not there: whatever is there of the other
    chunks, it succeeds with the XOR of the buffers of the rest of the group,
    of which those of lost chunks are new memory. *)
Lemma decode_single `{AllocatorSpec} `{!Jerasure} s g e bs chunks :
  configs_slot (n s) (k s) (r s) = Ret g → 0 < r s → 0 ≤ e < n s → (2 ≤ length (group_ids (n s) (r s) e))%nat →
  chunks ≠ ∅ → (∀ i b, chunks !! i = Some b → 0 ≤ i < n s ∧ length b = bs) → e ∉ dom chunks →
  ∃ dec, decode (codec s) {[e]} chunks ∅ = Ret (0, dec)
    ∧ dec !! e = Some (xor_all bs ((λ i, default (create_aligned i (Z.of_nat bs)) (chunks !! i))
        <$> filter (λ i, i ≠ e) (group_ids (n s) (r s) e))).
Proof.
  intros Hslot Hr He Hsz2 Hne Hch Hnin. unfold decode. rewrite bool_decide_false by set_solver.
  destruct (map_first_Some chunks Hne) as (i0 & b0 & Hb0 & Hi0). rewrite Hb0. cbn [need mbind outcome_bind].
  destruct (Hch i0 b0 Hi0) as [_ Hl0]. assert (blen b0 = Z.of_nat bs) as Hbl by (unfold blen; lia). rewrite Hbl.
  set (decoded := foldl _ _ _).
  assert (∀ i, 0 ≤ i < n s → decoded !! i = Some (default (create_aligned i (Z.of_nat bs)) (chunks !! i))) as Hlook.
  { intros i Hi. unfold decoded. rewrite decode_fill_lookup by (by try apply NoDup_seqZ; intros; apply lookup_empty).
    by rewrite bool_decide_true by (apply elem_of_seqZ; cbn; lia). }
  assert (∀ i, 0 ≤ i < n s → length (buf decoded i) = bs) as Hlen.
  { intros i Hi. unfold buf. rewrite Hlook by done. cbn. destruct (chunks !! i) as [b|] eqn:Hb; cbn; [by destruct (Hch i b Hb)|].
    pose proof (create_aligned_len i (Z.of_nat bs)). unfold blen in *. lia. }
  change (ErasureCode.decode_chunks (codec s)) with (decode_chunks s). unfold decode_chunks. rewrite Hb0, Hslot. cbn [need mbind outcome_bind]. rewrite Hbl.
  set (er := ids_where _ _). assert (er = {[e]}) as ->.
  { apply set_eq. intros i. unfold er, ids_where. rewrite elem_of_list_to_set, list_elem_of_filter, andb_true_iff, !bool_decide_eq_true, elem_of_seqZ_range. set_solver by lia. }
  assert (ascending {[e]} = [e]) as ->.
  { apply Permutation_singleton_r. apply NoDup_Permutation; [apply NoDup_ascending|apply NoDup_singleton|]. intros i. rewrite elem_of_ascending. set_solver. }
  destruct (collect_group_spec s e ∅ decoded Hr He) as (local & Hc & Hloc).
  { intros i Hi. apply elem_of_dom. rewrite Hlook by done. by eexists. }
  cbn [foldM]. rewrite Hc. rewrite (optlrc_decode_local_spec s g e local bs decoded Hslot Hr He Hloc); [|intros i [Hi _]%elem_of_group_ids; by apply Hlen|done].
  cbn [mbind outcome_bind foldM]. rewrite size_singleton. eexists. split; [reflexivity|]. rewrite lookup_insert_eq. do 2 f_equal.
  apply list_fmap_ext. intros j i [_ [Hi _]%elem_of_group_ids]%list_elem_of_lookup_2%list_elem_of_filter. unfold buf. by rewrite Hlook.
Qed.

(** ** Codewords *)

(** A configured plugin: the parameters select a generator matrix whose groups
    add up, and the mapping puts data chunk [j] where that matrix has the unit
    row [j]. *)
Record state_ok (s : t) (g : OptLRC) : Prop := {
  ok_configs : configs (n s) (k s) (r s) = Ret g;
  ok_groups : config_ok (n s) (k s) (r s) g;
  ok_mapping : mapping s ≡ₚ seqZ 0 (n s);
  ok_base_mapping : base_mapping s = mapping s;
  ok_systematic : Forall (λ j, config_row g (chunk_index (mapping s) j)
                    = unit_row (Z.to_nat (k s)) (Z.to_nat j)) (seqZ 0 (k s));
}.

(** The chunks are the rows of the generator matrix times [k] data regions. *)
Definition codeword (s : t) (g : OptLRC) (bs : nat) (w : gmap Z bytes) : Prop :=
  ∃ ds, length ds = Z.to_nat (k s) ∧ regions_ok bs ds ∧
    ∀ i, 0 ≤ i < n s → w !! i = Some (row_region (config_row g i) ds bs).

(** Every wanted chunk is there or all the rest of its local group is. *)
Definition recoverable (s : t) (have want : gset Z) : Prop :=
  ∀ e i, e ∈ want → e ∉ have → i ∈ group_ids (n s) (r s) e → i ≠ e → i ∈ have.

Section codewords.
Context (s : t) (g : OptLRC) (Hok : state_ok s g).

Lemma config_row_length i :
  0 ≤ i < n s →
  length (config_row g i) = Z.to_nat (k s) ∧ bytes_ok (config_row g i).
Proof.
  intros Hi. destruct (ok_groups _ _ Hok) as [? Hrows Hrow _].
  destruct (lookup_lt_is_Some_2 (OptLrcConfigs.optlrc_encode g) (Z.to_nat i))
    as [row Hl]; [lia|].
  unfold config_row. rewrite Hl. simpl.
  destruct (Forall_lookup_1 _ _ _ _ Hrow Hl). split; [lia|done].
Qed.

Lemma codeword_stripe bs w : codeword s g bs w → stripe (n s) bs w.
Proof.
  intros (ds & Hlen & Hds & Hw) i Hi. rewrite Hw by done.
  destruct (config_row_length i Hi).
  eexists; split; [done|]. split; [by apply length_row_region|by apply row_region_ok].
Qed.

(** A chunk of a codeword is the XOR of the rest of its local group. *)
Lemma codeword_group bs w e :
  codeword s g bs w → 0 ≤ e < n s →
  xor_all bs (buf w <$> filter (λ i, i ≠ e) (group_ids (n s) (r s) e)) = buf w e.
Proof.
  intros Hcw He. pose proof (codeword_stripe _ _ Hcw) as Hst.
  assert (∀ i, i ∈ group_ids (n s) (r s) e → 0 ≤ i < n s) as Hin
    by (intros i Hi%elem_of_group_ids; tauto).
  assert (xor_all bs (buf w <$> group_ids (n s) (r s) e) = zeros bs) as Hz.
  { destruct Hcw as (ds & Hlen & Hds & Hw).
    assert (buf w <$> group_ids (n s) (r s) e
      = (λ row, row_region row ds bs) <$> (config_row g <$> group_ids (n s) (r s) e)) as ->.
    { rewrite <-list_fmap_compose. apply list_fmap_ext.
      intros j i Hi%list_elem_of_lookup_2. unfold buf. by rewrite Hw by auto. }
    rewrite row_region_xor_all; [|apply Forall_fmap, Forall_forall|done].
    2: { intros i Hi. rewrite Hlen. by apply config_row_length, Hin. }
    pose proof (config_groups _ _ _ _ (ok_groups _ _ Hok)) as Hg.
    rewrite Forall_forall in Hg. rewrite Hlen.
    destruct (Hg e) as [-> _]; [by apply elem_of_seqZ_range|].
    rewrite <-Hlen. by apply row_region_zeros. }
  rewrite (group_ids_perm _ _ _ He), fmap_cons in Hz.
  apply xor_bytes_eq_zeros in Hz; [done| |].
  - by apply (stripe_buf _ _ _ _ Hst).
  - apply length_xor_all, Forall_fmap, Forall_forall.
    intros i [_ Hi]%list_elem_of_filter. by apply (stripe_buf _ _ _ _ Hst), Hin.
Qed.

Lemma elem_of_mapping i : i ∈ mapping s ↔ 0 ≤ i < n s.
Proof. rewrite (ok_mapping _ _ Hok), elem_of_seqZ_range. lia. Qed.

Lemma mapping_take p i : i ∈ take p (mapping s) → 0 ≤ i < n s.
Proof. intros Hi. apply elem_of_mapping. rewrite <-(take_drop p (mapping s)). set_solver. Qed.
Lemma mapping_drop p i : i ∈ drop p (mapping s) → 0 ≤ i < n s.
Proof. intros Hi. apply elem_of_mapping. rewrite <-(take_drop p (mapping s)). set_solver. Qed.

Lemma encode_entry_row matrix i m :
  0 ≤ i < n s → 0 ≤ m ≤ k s →
  foldM (λ matrix j, x ← encode_entry g i j; Ret (matrix ++ [x])) matrix (seqZ 0 m)
  = Ret (matrix ++ take (Z.to_nat m) (config_row g i)).
Proof.
  intros Hi [Hm Hmk]. destruct (config_counts _ _ _ _ (ok_groups _ _ Hok)) as (? & ? & ? & ?).
  destruct (config_row_length i Hi) as [Hl _].
  revert Hmk. pattern m. apply natlike_ind; [by rewrite app_nil_r| |exact Hm].
  clear m Hm. intros m Hm IH Hmk.
  rewrite <-Z.add_1_r, seqZ_app_snoc, foldM_app, IH by lia. simpl.
  unfold encode_entry, MAX_MATRIX, MAX_CHUNKS, MAX_DATA_CHUNKS in *.
  rewrite bool_decide_true by lia. simpl. fold (config_row g i).
  destruct (lookup_lt_is_Some_2 (config_row g i) (Z.to_nat m)) as [x Hx]; [lia|].
  rewrite Hx, <-app_assoc. simpl. do 2 f_equal.
  rewrite Z2Nat.inj_add, Nat.add_1_r by lia. by rewrite (take_S_r _ _ x).
Qed.

(** The matrix given to jerasure: the rows of the coding chunks in turn. *)
Lemma coding_matrix_spec :
  coding_matrix s g
  = Ret (concat (config_row g <$> drop (Z.to_nat (k s)) (mapping s))).
Proof.
  assert (∀ l acc, (∀ i, i ∈ l → 0 ≤ i < n s) →
    foldM (λ matrix i,
      foldM (λ matrix j, x ← encode_entry g i j; Ret (matrix ++ [x]))
        matrix (seqZ 0 (k s))) acc l = Ret (acc ++ concat (config_row g <$> l))) as Hgen.
  { destruct (config_counts _ _ _ _ (ok_groups _ _ Hok)) as (? & ? & ? & ?).
    induction l as [|i l IH]; intros acc Hl; cbn [foldM].
    - by rewrite app_nil_r.
    - assert (0 ≤ i < n s) as Hi by (apply Hl; left).
      rewrite encode_entry_row by (auto with lia).
      simpl. rewrite IH by (intros; apply Hl; by right).
      destruct (config_row_length i Hi) as [Hlen _].
      by rewrite take_ge, <-app_assoc by lia. }
  apply Hgen. intros i. apply mapping_drop.
Qed.

(** Writing the coding regions changes the coding chunks only. *)
Lemma overwrite_other bs ids bufs enc i :
  i ∉ ids → foldl (overwrite bs) enc (zip ids bufs) !! i = enc !! i.
Proof.
  revert bufs enc. induction ids as [|j ids IH]; intros [|b bufs] enc Hi; try done.
  apply not_elem_of_cons in Hi as [??]. simpl. rewrite IH by done.
  by apply lookup_insert_ne.
Qed.

Lemma overwrite_coding bs ids bufs enc i b p :
  NoDup ids → Forall (λ j, length (buf enc j) = bs) ids →
  ids !! p = Some i → bufs !! p = Some b →
  foldl (overwrite (Z.of_nat bs)) enc (zip ids bufs) !! i = Some b.
Proof.
  intros Hnd. revert p bufs enc. induction Hnd as [|j ids Hj Hnd IH];
    intros [|p] [|b' bufs] enc Hl Hi Hb; simplify_eq/=;
    apply Forall_cons in Hl as [Hlj Hl].
  - rewrite overwrite_other by done. unfold overwrite. simpl.
    rewrite lookup_insert_eq, drop_ge, app_nil_r by lia. done.
  - apply (IH p); [|done..]. rewrite Forall_forall in Hl |- *. intros x Hx.
    unfold overwrite; simpl. rewrite buf_insert_ne by (by intros ->). by apply Hl.
Qed.

Lemma overwrite_dom bs ids bufs enc :
  (∀ i, i ∈ ids → i ∈ dom enc) → dom (foldl (overwrite bs) enc (zip ids bufs)) = dom enc.
Proof.
  revert bufs enc. induction ids as [|j ids IH]; intros [|b bufs] enc Hi; try done.
  simpl. assert (dom (overwrite bs enc (j, b)) = dom enc) as Hd.
  { unfold overwrite. rewrite dom_insert_L. specialize (Hi j). set_solver. }
  rewrite IH, Hd; [done|]. intros i ?. rewrite Hd. apply Hi. by right.
Qed.

Lemma mapping_lookup i :
  0 ≤ i < n s → mapping s !! Z.to_nat i = Some (chunk_index (mapping s) i).
Proof.
  intros Hi. pose proof (Permutation_length (ok_mapping _ _ Hok)) as Hl.
  rewrite length_seqZ in Hl. unfold chunk_index. rewrite bool_decide_true by lia.
  destruct (lookup_lt_is_Some_2 (mapping s) (Z.to_nat i)) as [x Hx]; [lia|]. by rewrite Hx.
Qed.

Lemma group_size_2 e :
  0 ≤ e < n s → (2 ≤ length (group_ids (n s) (r s) e))%nat.
Proof.
  intros He. pose proof (config_groups _ _ _ _ (ok_groups _ _ Hok)) as Hg.
  rewrite Forall_forall in Hg.
  destruct (Hg e) as [_ ?]; [by apply elem_of_seqZ_range|lia].
Qed.

(** One iteration of the loop of [decode_chunks] restores the erased chunk. *)
Lemma decode_one bs w decoded local e :
  codeword s g bs w → 0 ≤ e < n s →
  stripe (n s) bs decoded →
  (∀ i, i ∈ group_ids (n s) (r s) e → i ≠ e → decoded !! i = w !! i) →
  ∃ local' sz, collect_group s (e `quot` (r s + 1)) local decoded = (sz, local', decoded)
    ∧ optlrc_decode_local s e local' sz (Z.of_nat bs) decoded
      = Ret (<[e := buf w e]> decoded).
Proof.
  intros Hcw He Hst Hgrp.
  destruct (config_counts _ _ _ _ (ok_groups _ _ Hok)) as (_ & _ & _ & Hr).
  destruct (collect_group_spec s e local decoded Hr He) as (local' & Hc & Hl).
  { intros i Hi. destruct (Hst i Hi) as (b & Hb & _). by apply elem_of_dom_2 in Hb. }
  eexists _, _. split; [exact Hc|].
  rewrite (optlrc_decode_local_spec s (Some g) e local' bs decoded);
    [|by apply configs_slot_Some, ok_configs|done..| |].
  - do 2 f_equal. rewrite <-(codeword_group bs w e) by done. f_equal.
    apply list_fmap_ext. intros j i [Hi ?]%list_elem_of_lookup_2%list_elem_of_filter.
    unfold buf. by rewrite Hgrp.
  - intros i [Hi _]%elem_of_group_ids. by apply (stripe_buf _ _ _ _ Hst).
  - by apply group_size_2.
Qed.

Lemma decode_chunks_spec want chunks decoded w bs :
  codeword s g bs w → chunks ⊆ w → chunks ≠ ∅ →
  want ⊆ list_to_set (seqZ 0 (n s)) → dom chunks ⊆ list_to_set (seqZ 0 (n s)) →
  stripe (n s) bs decoded → chunks ⊆ decoded →
  recoverable s (dom chunks) want →
  ∃ decoded', decode_chunks s want chunks decoded = Ret (0, decoded')
    ∧ ∀ i, i ∈ want → decoded' !! i = w !! i.
Proof.
  intros Hcw Hsub Hne Hwant Hdom Hst Hdec Hrec.
  destruct (config_counts _ _ _ _ (ok_groups _ _ Hok)) as (_ & _ & _ & Hr).
  pose proof (codeword_stripe _ _ Hcw) as Hstw.
  unfold decode_chunks.
  destruct (map_first_Some chunks Hne) as (i0 & b0 & -> & Hi0). simpl.
  assert (blen b0 = Z.of_nat bs) as ->.
  { destruct (stripe_buf _ _ _ i0 Hstw) as (Hb & Hl & _).
    - apply elem_of_ids, Hdom. by apply elem_of_dom_2 in Hi0.
    - rewrite (lookup_weaken _ _ _ _ Hi0 Hsub) in Hb. unfold blen. naive_solver lia. }
  rewrite (configs_slot_Some _ _ _ _ (ok_configs _ _ Hok)). simpl.
  set (er := ids_where _ _).
  assert (∀ i, i ∈ er ↔ i ∈ want ∧ i ∉ dom chunks) as Her.
  { intros i. unfold er, ids_where.
    rewrite elem_of_list_to_set, list_elem_of_filter, andb_true_iff, !bool_decide_eq_true.
    specialize (Hwant i). rewrite elem_of_ids in Hwant. rewrite elem_of_seqZ_range.
    naive_solver lia. }
  match goal with |- context [foldM ?f _ _] =>
    destruct (foldM_inv f (λ l st, let '(dec, _, cnt) := st in
        stripe (n s) bs dec ∧ chunks ⊆ dec ∧ cnt = Z.of_nat (size er) - Z.of_nat (length l)
        ∧ ∀ i, i ∈ l → dec !! i = w !! i)
      (ascending er) (decoded, ∅, Z.of_nat (size er)))
      as ([[dec loc] cnt] & -> & Hst' & Hdec' & Hcnt & Hall)
  end.
  - split_and!; [done..|simpl; lia|]. intros i []%elem_of_nil.
  - intros l1 e l2 [[dec loc] cnt] Hl (Hst1 & Hdec1 & Hcnt1 & Hall1).
    assert (e ∈ er) as He by (apply elem_of_ascending; rewrite Hl; set_solver).
    apply Her in He as [Hew Hed].
    assert (0 ≤ e < n s) as Hrange by (apply elem_of_ids; set_solver).
    assert (∀ i, i ∈ dom chunks → dec !! i = w !! i) as Hpres.
    { intros i [b Hb]%elem_of_dom.
      by rewrite (lookup_weaken _ _ _ _ Hb Hdec1), (lookup_weaken _ _ _ _ Hb Hsub). }
    destruct (decode_one bs w dec loc e) as (loc' & sz & -> & ->); [done..| |].
    { intros i Hi Hie. apply Hpres. by apply (Hrec e i). }
    destruct (stripe_buf _ _ _ e Hstw Hrange) as (Hwe & Hle & Hbe).
    eexists; split; [done|]. cbn beta iota. split_and!.
    + by apply stripe_insert.
    + apply insert_subseteq_r; [by apply not_elem_of_dom|done].
    + rewrite length_app. simpl. lia.
    + intros i [Hi| ->%list_elem_of_singleton]%elem_of_app.
      * destruct (decide (e = i)) as [->|]; [by rewrite lookup_insert_eq|].
        rewrite lookup_insert_ne by done. by apply Hall1.
      * by rewrite lookup_insert_eq.
  - cbn. rewrite length_ascending in Hcnt. rewrite bool_decide_false by lia.
    eexists; split; [done|]. intros i Hi.
    destruct (decide (i ∈ dom chunks)) as [[b Hb]%elem_of_dom|].
    + by rewrite (lookup_weaken _ _ _ _ Hb Hdec'), (lookup_weaken _ _ _ _ Hb Hsub).
    + apply Hall, elem_of_ascending, Her. done.
Qed.

Section encoding.
Context `{HJ : !Jerasure} `{HJS : !JerasureSpec}.

(** The coding regions that [optlrc_encode] computes. *)
Lemma optlrc_encode_spec ds bs :
  length ds = Z.to_nat (k s) → regions_ok bs ds →
  optlrc_encode s ds (Z.of_nat bs)
  = Ret ((λ i, row_region (config_row g i) ds bs) <$> drop (Z.to_nat (k s)) (mapping s)).
Proof.
  intros Hlen Hds. destruct (config_counts _ _ _ _ (ok_groups _ _ Hok)) as (? & ? & ? & ?).
  pose proof (Permutation_length (ok_mapping _ _ Hok)) as Hlm. rewrite length_seqZ in Hlm.
  set (ids := drop (Z.to_nat (k s)) (mapping s)).
  assert (length ids = Z.to_nat (n s - k s)) as Hids
    by (unfold ids; rewrite length_drop; lia).
  assert (Forall (λ row, length row = Z.to_nat (k s)) (config_row g <$> ids)) as Hrows.
  { apply Forall_fmap, Forall_forall. intros i Hi%mapping_drop. by apply config_row_length. }
  unfold optlrc_encode. rewrite (ok_configs _ _ Hok). simpl.
  rewrite coding_matrix_spec. fold ids. simpl. f_equal.
  rewrite jerasure_matrix_encode_spec; [|lia..| |lia|].
  - rewrite Nat2Z.id. apply list_eq. intros p. rewrite !list_lookup_fmap.
    destruct (decide (p < length ids)%nat) as [Hp|Hp].
    + rewrite lookup_seqZ_lt by lia. destruct (lookup_lt_is_Some_2 _ _ Hp) as [i Hi].
      rewrite Hi. simpl. rewrite (matrix_row_concat _ _ p (config_row g i)); [done|lia|done|].
      by rewrite list_lookup_fmap, Hi.
    + rewrite lookup_seqZ_ge, lookup_ge_None_2 by lia. done.
  - assert (∀ l : list (list Z), Forall (λ row, length row = Z.to_nat (k s)) l →
      length (concat l) = (length l * Z.to_nat (k s))%nat) as Hc.
    { induction 1; simpl; [done|]. rewrite length_app. lia. }
    rewrite Hc, length_fmap, Hids by done. nia.
  - eapply Forall_impl; [exact Hds|]. intros d [? _]. unfold blen. lia.
Qed.

(** The data regions of a stripe, in the order of the mapping. *)
Definition data_regions (enc : gmap Z bytes) : list bytes :=
  buf enc <$> take (Z.to_nat (k s)) (mapping s).

Lemma data_regions_ok enc bs :
  stripe (n s) bs enc →
  length (data_regions enc) = Z.to_nat (k s) ∧ regions_ok bs (data_regions enc).
Proof.
  intros Hst. destruct (config_counts _ _ _ _ (ok_groups _ _ Hok)) as (? & ? & ? & ?).
  pose proof (Permutation_length (ok_mapping _ _ Hok)) as Hlm. rewrite length_seqZ in Hlm.
  split; [unfold data_regions; rewrite length_fmap, length_take; lia|].
  apply Forall_fmap, Forall_forall. intros i Hi%mapping_take. by apply (stripe_buf _ _ _ _ Hst).
Qed.

(** [encode_chunks] computes the coding regions from the data regions and
    writes them to the coding chunks. *)
Lemma encode_chunks_eq want enc bs :
  stripe (n s) bs enc → dom enc = list_to_set (seqZ 0 (n s)) →
  encode_chunks s want enc
  = Ret (0, let ids := drop (Z.to_nat (k s)) (mapping s) in
            foldl (overwrite (Z.of_nat bs)) enc
              (zip ids ((λ i, row_region (config_row g i) (data_regions enc) bs) <$> ids))).
Proof.
  intros Hst Hdom. destruct (config_counts _ _ _ _ (ok_groups _ _ Hok)) as (? & ? & ? & ?).
  pose proof (Permutation_length (ok_mapping _ _ Hok)) as Hlm. rewrite length_seqZ in Hlm.
  destruct (data_regions_ok enc bs Hst) as [Hdl Hds].
  unfold encode_chunks. rewrite !bool_decide_false by lia.
  rewrite foldl_touch_id by
    (intros i Hi%elem_of_mapping; rewrite Hdom; by apply elem_of_ids).
  destruct (map_first_Some enc) as (i0 & b0 & -> & Hi0).
  { intros ->. assert (0 ∈ (list_to_set (seqZ 0 (n s)) : gset Z))
      by (apply elem_of_ids; lia). set_solver. }
  simpl. assert (blen b0 = Z.of_nat bs) as ->.
  { destruct (stripe_buf _ _ _ i0 Hst) as (Hb & Hl & _).
    - apply elem_of_ids. rewrite <-Hdom. by apply elem_of_dom_2 in Hi0.
    - unfold blen. naive_solver lia. }
  rewrite bool_decide_true.
  2: { apply Forall_fmap, Forall_forall. intros i Hi%elem_of_mapping. unfold blen; simpl.
       destruct (stripe_buf _ _ _ i Hst Hi) as (_ & Hl & _). lia. }
  rewrite <-fmap_take. fold (data_regions enc).
  assert (take (Z.to_nat (Z.of_nat bs)) <$> data_regions enc = data_regions enc) as ->.
  { rewrite <-(list_fmap_id (data_regions enc)) at 2. apply list_fmap_ext.
    intros p d Hd. destruct (Forall_lookup_1 _ _ _ _ Hds Hd) as [? _].
    simpl. rewrite take_ge by lia. done. }
  by rewrite optlrc_encode_spec.
Qed.

Lemma encode_chunks_spec want enc bs :
  stripe (n s) bs enc → dom enc = list_to_set (seqZ 0 (n s)) →
  ∃ enc', encode_chunks s want enc = Ret (0, enc')
    ∧ dom enc' = dom enc ∧ codeword s g bs enc'
    ∧ ∀ i, 0 ≤ i < k s →
        enc' !! chunk_index (mapping s) i = enc !! chunk_index (mapping s) i.
Proof.
  intros Hst Hdom. destruct (config_counts _ _ _ _ (ok_groups _ _ Hok)) as (? & ? & ? & ?).
  destruct (data_regions_ok enc bs Hst) as [Hdl Hds].
  pose proof (NoDup_seqZ 0 (n s)) as Hnd. rewrite <-(ok_mapping _ _ Hok) in Hnd.
  rewrite (encode_chunks_eq want enc bs Hst Hdom). eexists; split; [done|]. cbv zeta.
  set (ids := drop _ _).
  assert (∀ i, i ∈ ids → 0 ≤ i < n s) as Hids.
  { intros i. apply mapping_drop. }
  assert (∀ i, 0 ≤ i < k s → chunk_index (mapping s) i ∉ ids) as Hdata.
  { intros i Hi [p Hp]%list_elem_of_lookup. unfold ids in Hp. rewrite lookup_drop in Hp.
    pose proof (mapping_lookup i ltac:(lia)) as Hi'.
    pose proof (NoDup_lookup _ _ _ _ Hnd Hp Hi'). lia. }
  split_and!.
  - apply overwrite_dom. intros i Hi%Hids. rewrite Hdom. by apply elem_of_ids.
  - exists (data_regions enc). split_and!; [done..|]. intros i Hi.
    destruct (chunk_index_surj (mapping s) (n s) (or_intror (ok_mapping _ _ Hok)) i Hi)
      as (j & Hj & <-).
    pose proof (mapping_lookup j Hj) as Hjm.
    destruct (decide (j < k s)) as [Hjk|Hjk].
    + rewrite overwrite_other by (apply Hdata; lia).
      pose proof (ok_systematic _ _ Hok) as Hsys. rewrite Forall_forall in Hsys.
      rewrite Hsys by (apply elem_of_seqZ_range; lia). rewrite <-Hdl.
      rewrite (row_region_unit _ _ _ (buf enc (chunk_index (mapping s) j)));
        [by apply (stripe_buf _ _ _ _ Hst)|done|].
      unfold data_regions. rewrite list_lookup_fmap, lookup_take_lt, Hjm by lia. done.
    + assert (ids !! (Z.to_nat j - Z.to_nat (k s))%nat = Some (chunk_index (mapping s) j))
        as Hp by (unfold ids; rewrite lookup_drop, <-Hjm; f_equal; lia).
      eapply overwrite_coding; [| |exact Hp|by rewrite list_lookup_fmap, Hp].
      * rewrite <-(take_drop (Z.to_nat (k s)) (mapping s)) in Hnd.
        by apply NoDup_app in Hnd as (_ & _ & ?).
      * apply Forall_forall. intros x Hx%Hids. by apply (stripe_buf _ _ _ _ Hst).
  - intros i Hi. apply overwrite_other. by apply Hdata.
Qed.

Lemma get_chunk_size_spec len :
  0 < len ≤ MAX_OBJECT →
  ∃ bs, get_chunk_size s len = Ret bs ∧ 0 < bs ∧ bs mod get_alignment s = 0
    ∧ len ≤ k s * bs < 2 ^ 32.
Proof.
  intros Hlen. destruct (config_counts _ _ _ _ (ok_groups _ _ Hok)) as (? & ? & ? & ?).
  unfold MAX_OBJECT, MAX_DATA_CHUNKS, MAX_CHUNKS in *.
  unfold get_chunk_size, get_alignment. rewrite !(u32_small (k s)), !(u32_small (k s * 8 * 4)) by lia.
  rewrite !bool_decide_false by lia. rewrite (u32_small (len + k s - 1)) by lia.
  pose proof (padded_chunk (k s) (k s * 8 * 4) len ltac:(lia) ltac:(lia) ltac:(lia) ltac:(nia)) as Hp.
  cbv zeta in Hp. eexists. split; [done|]. exact Hp.
Qed.

(** The plugin keeps what the base class asks of it. *)
Lemma codec_spec :
  CodecSpec (codec s) MAX_OBJECT any_size (codeword s g) (recoverable s).
Proof.
  destruct (config_counts _ _ _ _ (ok_groups _ _ Hok)) as (? & Hn & ? & ?).
  unfold MAX_CHUNKS in Hn. split; simpl.
  - lia.
  - lia.
  - right. rewrite (ok_base_mapping _ _ Hok). apply (ok_mapping _ _ Hok).
  - intros len Hlen. destruct (get_chunk_size_spec len Hlen) as (bs & ? & ? & _ & ?). by exists bs.
  - apply codeword_stripe.
  - intros want enc bs _ Hst _ _ Hdom. rewrite (ok_base_mapping _ _ Hok).
    by apply encode_chunks_spec.
  - intros. by apply decode_chunks_spec with bs.
Qed.

End encoding.
End codewords.
End repair.

(** ** The chunks to read *)

Lemma elem_of_foldl_insert (P : Z → Prop) `{∀ x, Decision (P x)} (m : gset Z) l i :
  i ∈ foldl (λ m x, if bool_decide (P x) then m ∪ {[x]} else m) m l
  ↔ i ∈ m ∨ (i ∈ l ∧ P i).
Proof.
  revert m. induction l as [|x l IH]; intros m; cbn [foldl]; [set_solver|].
  rewrite IH. case_bool_decide; set_solver.
Qed.

Lemma elem_of_foldl_groups (group : Z → Z) (avail m : gset Z) gs i :
  i ∈ foldl (λ m it1,
        foldl (λ m it2, if bool_decide (group it2 = it1) then m ∪ {[it2]} else m)
          m (ascending avail)) m gs
  ↔ i ∈ m ∨ (i ∈ avail ∧ group i ∈ gs).
Proof.
  revert m. induction gs as [|g gs IH]; intros m; cbn [foldl]; [set_solver|].
  rewrite IH, (elem_of_foldl_insert (λ it, group it = g)), elem_of_ascending. set_solver.
Qed.

Section minimum.
Context (s : t) (want avail : gset Z).

(** A chunk of the stripe that is not available. *)
Definition lost (i : Z) : Prop := 0 ≤ i < n s ∧ i ∉ avail.
Definition same_group (i j : Z) : Prop := i `quot` (r s + 1) = j `quot` (r s + 1).

(** The loop over the wanted erasures: it stops at the second one in a group,
    and otherwise has collected what is available of their groups. *)
Lemma failed_groups_loop (ew minimum : gset Z) :
  match for_each (λ '(failed_groups, minimum) it,
      if bool_decide (it `quot` (r s + 1) ∈ (failed_groups : gset Z)) then
        Done (- EIO, minimum)
      else
        Next (failed_groups ∪ {[it `quot` (r s + 1)]},
          foldl (λ minimum it1,
            foldl (λ minimum it2,
                if bool_decide (it2 `quot` (r s + 1) = it1) then minimum ∪ {[it2]}
                else minimum) minimum (ascending avail))
          minimum (ascending (failed_groups ∪ {[it `quot` (r s + 1)]}))))
    (∅, minimum) (ascending ew) with
  | Next (_, result) =>
      (∀ i j, i ∈ ew → j ∈ ew → same_group i j → i = j)
      ∧ ∀ i, i ∈ result ↔ i ∈ minimum ∨ (i ∈ avail ∧ ∃ e, e ∈ ew ∧ same_group i e)
  | Done (err, _) => err = - EIO ∧ ∃ i j, i ∈ ew ∧ j ∈ ew ∧ i ≠ j ∧ same_group i j
  end.
Proof.
  match goal with |- context [for_each ?f ?s0 ?l0] =>
    unshelve epose proof (for_each_inv f (λ l st,
      (∀ x, x ∈ st.1 ↔ ∃ e, e ∈ l ∧ x = e `quot` (r s + 1))
      ∧ (∀ i j, i ∈ l → j ∈ l → same_group i j → i = j)
      ∧ ∀ i, i ∈ st.2 ↔ i ∈ minimum ∨ (i ∈ avail ∧ ∃ e, e ∈ l ∧ same_group i e))
      (λ res, res.1 = - EIO ∧ ∃ i j, i ∈ ew ∧ j ∈ ew ∧ i ≠ j ∧ same_group i j)
      l0 s0 _ _) as Hloop; [..|destruct (for_each f s0 l0) as [[fg m]|[err m]]]
  end; [set_solver| | |done].
  - intros l1 x l2 [fg m] Hl (Hfg & Huniq & Hm); simpl in Hfg, Hm |- *.
    assert (∀ y, y ∈ l1 ∨ y = x → y ∈ ew) as Hin
      by (intros y Hy; apply elem_of_ascending; rewrite Hl; set_solver).
    assert (x ∉ l1) as Hx.
    { pose proof (NoDup_ascending ew) as Hnd. rewrite Hl in Hnd.
      apply NoDup_app in Hnd. set_solver. }
    case_bool_decide as Hg; rewrite Hfg in Hg; simpl.
    + destruct Hg as (e & He & Heq). split; [done|]. exists x, e.
      split_and!; [by apply Hin; right|by apply Hin; left|by intros ->|done].
    + split_and!.
      * intros y. rewrite elem_of_union, Hfg. set_solver.
      * intros i j. setoid_rewrite elem_of_app. setoid_rewrite list_elem_of_singleton.
        unfold same_group in *. intros [Hi| ->] [Hj| ->] Heq; [by apply Huniq|..|done];
          destruct Hg; eauto.
      * intros i. rewrite elem_of_foldl_groups, Hm, elem_of_ascending, elem_of_union, Hfg.
        unfold same_group. set_solver.
  - destruct Hloop as (_ & Huniq & Hm). setoid_rewrite elem_of_ascending in Huniq.
    setoid_rewrite elem_of_ascending in Hm. done.
Qed.

Lemma minimum_to_decode_cases minimum :
  (∃ g, configs_slot (n s) (k s) (r s) = Ret g) →
  ∃ err result, minimum_to_decode s want avail minimum = Ret (err, result) ∧
    ((∀ i, lost i → i ∉ want) ∧ err = 0 ∧ result = want
     ∨ (∃ i j, lost i ∧ lost j ∧ i ∈ want ∧ j ∈ want ∧ i ≠ j ∧ same_group i j)
       ∧ err = - EIO
     ∨ (∃ i, lost i ∧ i ∈ want)
       ∧ (∀ i j, lost i → lost j → i ∈ want → j ∈ want → same_group i j → i = j)
       ∧ err = 0
       ∧ ∀ i, i ∈ result ↔ ¬ lost i
           ∧ (i ∈ minimum ∨ i ∈ want
              ∨ i ∈ avail ∧ ∃ e, lost e ∧ e ∈ want ∧ same_group i e)).
Proof.
  intros [g Hg]. unfold minimum_to_decode. rewrite Hg. simpl.
  set (ew := ids_where _ _). set (total := ids_where _ _).
  assert (∀ i, i ∈ total ↔ lost i) as Htotal.
  { intros i. unfold total. rewrite elem_of_ids_where; cbv beta.
    by rewrite bool_decide_eq_true. }
  assert (∀ i, i ∈ ew ↔ lost i ∧ i ∈ want) as Hew.
  { intros i. unfold ew, lost. rewrite elem_of_ids_where; cbv beta.
    rewrite andb_true_iff, !bool_decide_eq_true. tauto. }
  case_bool_decide as Hempty.
  { eexists _, _. split; [done|]. left. set_solver. }
  pose proof (failed_groups_loop ew minimum) as Hloop.
  destruct (for_each _ _ _) as [[fg m]|[err m]]; (eexists _, _; split; [done|]); right.
  - right. destruct Hloop as [Huniq Hm]. split_and!.
    + apply set_choose_L in Hempty as [i Hi%Hew]. eauto.
    + intros i j ????. apply Huniq; by apply Hew.
    + done.
    + intros i. rewrite elem_of_foldl_difference, elem_of_ascending, Htotal.
      rewrite elem_of_union, Hm. setoid_rewrite Hew. naive_solver.
  - left. destruct Hloop as [-> (i & j & [??]%Hew & [??]%Hew & ? & ?)].
    split; [|done]. by exists i, j.
Qed.
End minimum.

(** ** The read path *)

Section read.
Context `{GaloisSpec} `{HJ : !Jerasure} `{HJS : !JerasureSpec} `{AllocatorSpec}.
Context (s : t) (g : OptLRC) (Hok : state_ok s g).

Lemma codeword_dom bs w :
  codeword s g bs w → list_to_set (seqZ 0 (n s)) ⊆ dom w.
Proof.
  intros Hcw i Hi%elem_of_ids. apply elem_of_dom.
  destruct (codeword_stripe s g Hok bs w Hcw i Hi) as (b & Hb & _). eauto.
Qed.

(** What [minimum_to_decode] answers is enough whenever what is available is. *)
Lemma minimum_to_decode_enough want avail :
  want ⊆ list_to_set (seqZ 0 (n s)) → recoverable s avail want →
  ∃ minimum, minimum_to_decode s want avail ∅ = Ret (0, minimum)
    ∧ minimum ⊆ avail ∧ recoverable s minimum want ∧ (want ≠ ∅ → minimum ≠ ∅).
Proof.
  intros Hwant Hrec.
  destruct (config_counts _ _ _ _ (ok_groups _ _ Hok)) as (_ & _ & _ & Hr).
  assert (∀ i, i ∈ want → 0 ≤ i < n s) as Hw by (intros i Hi%Hwant; by apply elem_of_ids).
  destruct (minimum_to_decode_cases s want avail ∅
    (ex_intro _ _ (configs_slot_Some _ _ _ _ (ok_configs _ _ Hok))))
    as (err & result & -> & [(Hno & -> & ->)|[[Htwo _]|(Hsome & _ & -> & Hres)]]).
  - exists want. split_and!; [done| |by intros e i ??|done].
    intros i Hi. destruct (decide (i ∈ avail)) as [?|Hni]; [done|].
    destruct (Hno i (conj (Hw i Hi) Hni) Hi).
  - destruct Htwo as (i & j & [Hi ?] & [Hj ?] & ? & ? & ? & ?).
    assert (j ∈ avail) as ?; [|done].
    apply (Hrec i j); [done..| |done]. apply elem_of_group_ids. done.
  - exists result. split_and!; [done|..].
    + intros i (Hnl & Hi)%Hres. destruct (decide (i ∈ avail)) as [?|Hni]; [done|].
      destruct Hi as [Hi|[Hi|[? _]]]; [set_solver| |done].
      destruct Hnl. split; [by apply Hw|done].
    + intros e i He Her Hi Hie. assert (lost s avail e) as Hl.
      { split; [by apply Hw|]. intros Ha. apply Her, Hres. split; [intros [_ ?]; done|auto]. }
      apply Hres. assert (i ∈ avail) as Hia by (apply (Hrec e i); try done; apply Hl).
      split; [intros [_ ?]; done|]. right; right. split; [done|].
      exists e. split_and!; [done..|]. by apply elem_of_group_ids in Hi as [_ ?].
    + intros _ ->. destruct Hsome as (e & Hl & He).
      pose proof (group_size_2 s g Hok e (Hw e He)) as Hsz.
      rewrite (group_ids_perm _ _ _ (Hw e He)) in Hsz. simpl in Hsz.
      destruct (filter _ (group_ids (n s) (r s) e)) as [|i l] eqn:E; simpl in Hsz; [lia|].
      assert (i ∈ group_ids (n s) (r s) e ∧ i ≠ e) as [Hi Hie].
      { assert (i ∈ i :: l) as Hin by left. rewrite <-E in Hin.
        apply list_elem_of_filter in Hin. tauto. }
      assert (i ∈ avail) as Hia by (apply (Hrec e i); try done; apply Hl).
      assert (i ∈ (∅ : gset Z)) as []%not_elem_of_empty.
      apply Hres. split; [intros [_ ?]; done|]. right; right. split; [done|].
      exists e. split_and!; [done..|]. by apply elem_of_group_ids in Hi as [_ ?].
Qed.

End read.

