(* ===== verification/OptLrcCorrect.v ===== *)
(** * The Optimal-LRC plugin: theorems

    Round trip and read path of the plugin under the base class, the answers
    of [minimum_to_decode], the generator matrices, and what goes wrong where
    the local groups of a matrix do not add up. *)

From S2P Require Import Prelude Galois OptLrcConfigs ErasureCode OptLrc OptLrcFacts.

Import OptLrc.

(** ** Concrete plugins *)

(** The mapping that a generator matrix calls for: the chunks with unit rows,
    then the others. *)
Definition is_unit_row (row : list Z) : bool :=
  bool_decide (length (filter (λ x, x ≠ 0) row) = 1%nat ∧ 1 ∈ row).
Definition natural_mapping (n : Z) (g : OptLRC) : list Z :=
  filter (λ i, is_unit_row (config_row g i) = true) (seqZ 0 n)
  ++ filter (λ i, is_unit_row (config_row g i) = false) (seqZ 0 n).
Definition natural (n k r : Z) (g : OptLRC) : t :=
  mk n k r (natural_mapping n g) (natural_mapping n g).

Lemma natural_mapping_perm n g : natural_mapping n g ≡ₚ seqZ 0 n.
Proof.
  unfold natural_mapping. induction (seqZ 0 n) as [|i l IH]; [done|].
  rewrite !filter_cons. destruct (is_unit_row (config_row g i)); simpl; [by rewrite IH|].
  by rewrite <-Permutation_middle, IH.
Qed.

Definition systematic_check (n k : Z) (g : OptLRC) : bool :=
  bool_decide (Forall (λ j, config_row g (chunk_index (natural_mapping n g) j)
    = unit_row (Z.to_nat k) (Z.to_nat j)) (seqZ 0 k)).

Lemma systematic_checked :
  forallb (λ e, systematic_check e.1.1.1 e.1.1.2 e.2) config_entries = true.
Proof. vm_compute. reflexivity. Qed.

Lemma natural_state_ok n k r g :
  configs n k r = Ret g → (n, k, r) ≠ broken_config → state_ok (natural n k r g) g.
Proof.
  intros Hg Hne. split; simpl; [done|by apply configs_ok|apply natural_mapping_perm|done|].
  pose proof systematic_checked as Hall. rewrite forallb_forall in Hall.
  apply configs_inv, list_elem_of_In, Hall in Hg.
  by apply bool_decide_eq_true in Hg.
Qed.

Definition recoverable_check (s : t) (have want : gset Z) : bool :=
  forallb (λ e, bool_decide (e ∈ have)
    || forallb (λ i, bool_decide (i = e ∨ i ∈ have)) (group_ids (n s) (r s) e))
    (elements want).

Lemma recoverable_check_ok s have want :
  recoverable_check s have want = true → recoverable s have want.
Proof.
  unfold recoverable_check. rewrite forallb_forall. intros Hall e i He Hne Hi Hie.
  specialize (Hall e). rewrite <-list_elem_of_In, elem_of_elements in Hall.
  apply Hall in He. rewrite bool_decide_false in He by done. simpl in He.
  rewrite forallb_forall in He. apply list_elem_of_In, He, bool_decide_eq_true in Hi.
  tauto.
Qed.

Definition s942 : t := natural 9 4 2 optlrc_9_4_2.
Lemma s942_ok : state_ok s942 optlrc_9_4_2.
Proof. apply natural_state_ok; [vm_compute; reflexivity|done]. Qed.

(** ** Theorems *)

(** The chunks of a stripe. *)
Abbreviation ids s := (list_to_set (seqZ 0 (n s)) : gset Z).

Section theorems.
Context `{GaloisSpec} `{HJ : !Jerasure} `{HJS : !JerasureSpec} `{AllocatorSpec}.

(** At most one chunk of each local group. *)
Definition one_per_group (s : t) (lost : gset Z) : Prop :=
  ∀ i j, i ∈ lost → j ∈ lost → same_group s i j → i = j.

Lemma one_per_group_recoverable s lost want :
  one_per_group s lost → want ⊆ ids s → recoverable s (ids s ∖ lost) want.
Proof.
  intros Hone Hwant e i He Hel [Hi Hg]%elem_of_group_ids Hie.
  apply elem_of_difference. split; [by apply elem_of_ids|]. intros Hil.
  apply Hie, Hone; [done| |done].
  destruct (decide (e ∈ lost)); [done|]. set_solver.
Qed.

Lemma one_per_group_nonempty s g lost :
  state_ok s g → one_per_group s lost → ids s ∖ lost ≠ ∅.
Proof.
  intros Hok Hone Hempty.
  destruct (config_counts _ _ _ _ (ok_groups _ _ Hok)) as (? & _ & _ & _).
  pose proof (group_size_2 s g Hok 0 ltac:(lia)) as Hsz.
  assert (∀ i, i ∈ group_ids (n s) (r s) 0 → i = 0) as Hall.
  { intros i [Hi Hg]%elem_of_group_ids.
    apply (Hone i 0); [..|done]; apply dec_stable; intros Hn.
    - assert (i ∈ ids s ∖ lost) by (rewrite elem_of_difference, elem_of_ids; tauto). set_solver.
    - assert (0 ∈ ids s ∖ lost) by (rewrite elem_of_difference, elem_of_ids; auto with lia). set_solver. }
  assert (NoDup (group_ids (n s) (r s) 0)) as Hnd by (apply NoDup_filter, NoDup_seqZ).
  destruct (group_ids (n s) (r s) 0) as [|x [|y l]]; simpl in Hsz; [lia..|].
  rewrite (Hall x), (Hall y) in Hnd by set_solver.
  apply NoDup_cons in Hnd as [[] _]. left.
Qed.

(** C1. Round trip of the Optimal-LRC plugin. A configured plugin encodes an
    object of up to 2^32 - 2^13 bytes into [n] chunks; after the loss of any
    chunks, at most one in each local group, [decode_concat] on the remaining
    ones returns the object followed by the zero padding of the last data
    chunks. *)
Theorem optlrc_roundtrip s g raw lost :
  state_ok s g → bytes_ok raw → 0 < blen raw ≤ MAX_OBJECT → one_per_group s lost →
  ∃ enc bs, encode (codec s) (ids s) raw ∅ = Ret (0, enc)
    ∧ get_chunk_size s (blen raw) = Ret bs
    ∧ decode_concat (codec s) (select (ids s ∖ lost) enc)
      = Ret (0, raw ++ zeros (Z.to_nat (k s * bs - blen raw))).
Proof.
  intros Hok Hraw Hlen Hone.
  destruct (decode_concat_encode (codec s) MAX_OBJECT any_size (codeword s g) (recoverable s) raw)
    as (enc & bs & Henc & Hbs & Hdom & Hdec); [by apply codec_spec|done..|].
  exists enc, bs. split_and!; [done..|]. simpl in Hdom.
  assert (dom (select (ids s ∖ lost) enc) = ids s ∖ lost) as Hd
    by (apply dom_select; set_solver).
  apply Hdec; [apply select_subseteq| |right; rewrite Hd].
  - intros E. apply (one_per_group_nonempty s g lost Hok Hone). by rewrite <-Hd, E.
  - apply one_per_group_recoverable; [done|].
    intros i. unfold data_positions. simpl.
    rewrite elem_of_list_to_set, list_elem_of_fmap, elem_of_ids.
    intros (j & -> & Hj%elem_of_seqZ_range).
    destruct (config_counts _ _ _ _ (ok_groups _ _ Hok)) as (? & _ & _ & _).
    rewrite (ok_base_mapping _ _ Hok).
    apply (chunk_index_range _ (n s)); [right; apply (ok_mapping _ _ Hok)|lia].
Qed.

(** C27. The read path of a configured plugin: its matrix is one whose local
    groups add up to zero, as all built-in ones but that of (17, 12, 6) do,
    and the mapping puts the data where the matrix has unit rows. For any chunks that are available of a stripe, and any
    wanted chunks each of which is available or has all the rest of its local
    group available, [minimum_to_decode] succeeds with available chunks only,
    and [decode] on exactly these restores every wanted chunk. *)
Theorem optlrc_read s g bs w want avail :
  state_ok s g → codeword s g bs w → (0 < bs)%nat →
  want ⊆ ids s → avail ⊆ ids s → recoverable s avail want →
  ∃ minimum dec, minimum_to_decode s want avail ∅ = Ret (0, minimum)
    ∧ minimum ⊆ avail
    ∧ decode (codec s) want (select minimum w) ∅ = Ret (0, dec)
    ∧ ∀ i, i ∈ want → dec !! i = w !! i.
Proof.
  intros Hok Hcw Hbs Hwant Havail Hrec.
  destruct (minimum_to_decode_enough s g Hok want avail Hwant Hrec)
    as (minimum & Hmin & Hsub & Hrec' & Hne).
  destruct (decide (want = ∅)) as [->|Hw].
  { exists minimum, ∅. split_and!; [done..| |set_solver].
    unfold decode. rewrite bool_decide_true by set_solver. done. }
  assert (dom (select minimum w) = minimum) as Hd.
  { apply dom_select. pose proof (codeword_dom s g Hok bs w Hcw). set_solver. }
  pose proof (codec_spec s g Hok) as Hspec.
  destruct (decode_spec (codec s) MAX_OBJECT any_size (codeword s g) (recoverable s)
    want (select minimum w) w bs) as (dec & Hdec & Hall);
    [done|done|apply select_subseteq| |done|rewrite Hd; set_solver|rewrite Hd; auto|].
  - intros E. apply Hne; [done|]. by rewrite <-Hd, E.
  - by exists minimum, dec.
Qed.

(** [minimum_to_decode] on every branch, for any sets and any parameters
    within the bounds of the table of matrices: when no wanted
    chunk is lost it answers the wanted chunks; when two lost chunks that are
    wanted share a local group it fails with [-EIO]; otherwise it answers the
    chunks that are not lost among what [minimum] held, the wanted ones, and
    the available members of the groups of the wanted lost chunks. *)
Theorem optlrc_minimum_to_decode s want avail minimum :
  0 ≤ n s < MAX_CHUNKS → 0 ≤ k s < MAX_DATA_CHUNKS → 0 ≤ r s < MAX_LOCALITY_CHUNKS →
  ∃ err result, minimum_to_decode s want avail minimum = Ret (err, result) ∧
    ((∀ i, lost s avail i → i ∉ want) ∧ err = 0 ∧ result = want
     ∨ (∃ i j, lost s avail i ∧ lost s avail j ∧ i ∈ want ∧ j ∈ want ∧ i ≠ j
         ∧ same_group s i j) ∧ err = - EIO
     ∨ (∃ i, lost s avail i ∧ i ∈ want)
       ∧ (∀ i j, lost s avail i → lost s avail j → i ∈ want → j ∈ want →
            same_group s i j → i = j)
       ∧ err = 0
       ∧ ∀ i, i ∈ result ↔ ¬ lost s avail i
           ∧ (i ∈ minimum ∨ i ∈ want
              ∨ i ∈ avail ∧ ∃ e, lost s avail e ∧ e ∈ want ∧ same_group s i e)).
Proof.
  intros Hn Hk Hr. apply minimum_to_decode_cases.
  eexists. unfold configs_slot. by rewrite bool_decide_true.
Qed.

End theorems.

(** C31. The generator matrices. Every (n, k, r) that [OptLRC_Configs] knows,
    with the exception of (17, 12, 6), comes with a matrix of [n] rows of [k]
    field elements, in which the rows of every local group of at least two
    chunks add up to zero and the chunks with unit rows hold the data in
    order: the plugin is sound with the mapping these rows give. *)
Theorem configs_sound n k r g :
  configs n k r = Ret g → (n, k, r) ≠ broken_config →
  state_ok (natural n k r g) g.
Proof. apply natural_state_ok. Qed.

Section repairs.
Context `{GaloisSpec} `{HJ : !Jerasure} `{AllocatorSpec}.

(** C37. What [decode] does for one lost chunk, with any of the matrices and
    whatever else is lost: it succeeds, and returns the XOR of the buffers of
    the other chunks of its local group. The buffer of a chunk that is lost as
    well is newly allocated memory, so that the result is the chunk only when
    no other of its group is lost, as README.txt presupposes; nothing else is
    reported in other cases. *)
Theorem optlrc_repair_exact s g e bs chunks :
  configs (n s) (k s) (r s) = Ret g → 0 < r s → 0 ≤ e < n s → (2 ≤ length (group_ids (n s) (r s) e))%nat →
  chunks ≠ ∅ → (∀ i b, chunks !! i = Some b → 0 ≤ i < n s ∧ length b = bs) → e ∉ dom chunks →
  ∃ dec, decode (codec s) {[e]} chunks ∅ = Ret (0, dec)
    ∧ dec !! e = Some (xor_all bs ((λ i, default (create_aligned i (Z.of_nat bs)) (chunks !! i))
        <$> filter (λ i, i ≠ e) (group_ids (n s) (r s) e))).
Proof. intros Hg. by apply (decode_single s (Some g)), configs_slot_Some. Qed.

(** The last local group of (17, 12, 6), and the sum of its rows. *)
Definition last_group : gset Z := {[14; 15; 16]}.
Definition last_sum : list Z := [104; 194; 30; 124; 99; 251; 102; 48; 86; 163; 18; 181].

Lemma last_group_sum bs ds :
  length ds = 12%nat → regions_ok bs ds →
  xor_all bs ((λ i, row_region (config_row optlrc_17_12_6 i) ds bs) <$> [14; 15; 16]) = row_region last_sum ds bs.
Proof.
  intros Hl Hds. pose proof (row_region_xor_all (config_row optlrc_17_12_6 <$> [14; 15; 16]) ds bs) as E. rewrite <-list_fmap_compose in E.
  etransitivity; [apply E; [|done]|]; rewrite Hl; [|by vm_compute]. repeat constructor; by vm_compute.
Qed.

(** C32. The matrix of (17, 12, 6) is wrong in its last local group, whose rows
    do not add up to zero: when a chunk of the group is lost,
    [minimum_to_decode] asks for the two others and [decode] on these reports
    success, but the chunk it returns is the one that was written only if the
    data times the sum of the rows is zero. *)
Theorem config_17_12_6_repair ds bs w e :
  let s := natural 17 12 6 optlrc_17_12_6 in
  length ds = 12%nat → regions_ok bs ds →
  (∀ i, 0 ≤ i < 17 → w !! i = Some (row_region (config_row optlrc_17_12_6 i) ds bs)) → e ∈ [14; 15; 16] →
  minimum_to_decode s {[e]} (ids s ∖ {[e]}) ∅ = Ret (0, last_group ∖ {[e]})
  ∧ ∃ dec, decode (codec s) {[e]} (select (last_group ∖ {[e]}) w) ∅ = Ret (0, dec)
    ∧ (dec !! e = w !! e ↔ row_region last_sum ds bs = zeros bs).
Proof.
  intros s Hl Hds Hw He. assert (0 ≤ e < 17) as Her by set_solver by lia.
  split; [repeat (apply elem_of_cons in He as [->|He]; [by vm_compute|]); by apply elem_of_nil in He|].
  assert (group_ids 17 6 e = [14; 15; 16]) as Hgrp by (repeat (apply elem_of_cons in He as [->|He]; [by vm_compute|]); by apply elem_of_nil in He).
  set (row i := row_region (config_row optlrc_17_12_6 i) ds bs) in *.
  assert (∀ i, i ∈ [14; 15; 16] → length (config_row optlrc_17_12_6 i) = length ds) as Hrows.
  { intros i Hi. rewrite Hl. repeat (apply elem_of_cons in Hi as [->|Hi]; [by vm_compute|]). by apply elem_of_nil in Hi. }
  assert (∀ i, i ∈ [14; 15; 16] → length (row i) = bs) as Hlen by (intros i Hi; by apply length_row_region).
  assert (∀ i, i ∈ last_group ↔ i ∈ [14; 15; 16]) as Hlast by (intros i; unfold last_group; set_solver).
  assert (∀ i, i ∈ [14; 15; 16] → 0 ≤ i < 17) as Hrange by (intros i Hi; set_solver by lia).
  assert (dom (select (last_group ∖ {[e]}) w) = last_group ∖ {[e]}) as Hdom.
  { apply dom_select. intros i [Hi%Hlast _]%elem_of_difference. apply elem_of_dom. rewrite Hw by auto. by eexists. }
  destruct (decode_single s (Some optlrc_17_12_6) e bs (select (last_group ∖ {[e]}) w)) as (dec & Hdec & Hd).
  - by vm_compute.
  - done.
  - exact Her.
  - change (n s) with 17. change (r s) with 6. rewrite Hgrp. cbn. lia.
  - intros E. rewrite E, dom_empty_L in Hdom. assert ({[14; 15; 16]} ∖ {[e]} ≠ (∅ : gset Z)) as Hne; [|by apply Hne].
    repeat (apply elem_of_cons in He as [->|He]; [by vm_compute|]). by apply elem_of_nil in He.
  - intros i b Hb. assert (i ∈ [14; 15; 16]) as Hi. { apply elem_of_dom_2 in Hb. rewrite Hdom in Hb. apply Hlast. set_solver. }
    split; [by apply Hrange|]. apply (lookup_weaken _ w) in Hb; [|apply select_subseteq]. rewrite Hw in Hb by auto. injection Hb as <-. by apply Hlen.
  - rewrite Hdom. set_solver.
  - exists dec. split; [exact Hdec|]. rewrite Hd, Hw by done. change (n s) with 17. change (r s) with 6. fold (row e).
    rewrite <-(last_group_sum bs ds Hl Hds). fold row. rewrite <-Hgrp.
    pose proof (group_ids_perm 17 6 e Her) as Hperm. set (rest := filter _ (group_ids 17 6 e)) in *.
    assert (∀ i, i ∈ rest → i ∈ [14; 15; 16] ∧ i ≠ e) as Hrest by (intros i [? Hi]%list_elem_of_filter; by rewrite Hgrp in Hi).
    assert (((λ i, default (create_aligned i (Z.of_nat bs)) (select (last_group ∖ {[e]}) w !! i)) <$> rest) = row <$> rest) as ->.
    { apply list_fmap_ext. intros j i [Hi Hie]%list_elem_of_lookup_2%Hrest. unfold select. rewrite map_lookup_filter, Hw by auto. cbn.
      rewrite option_guard_True; [done|]. apply elem_of_difference. split; [by apply Hlast|set_solver]. }
    assert (length (xor_all bs (row <$> rest)) = bs) as Hlr.
    { apply length_xor_all, Forall_fmap, Forall_forall. intros i [Hi _]%Hrest. by apply Hlen. }
    rewrite Hperm, fmap_cons, xor_all_cons. specialize (Hlen e He). split.
    + intros [= ->]. rewrite <-Hlen. apply xor_bytes_self.
    + intros Hz. f_equal. symmetry. by apply (xor_bytes_eq_zeros _ _ bs).
Qed.

End repairs.

(** ** Witnesses *)

Lemma optlrc_roundtrip_witness :
  ∃ enc bs, encode (codec s942) (ids s942) sample ∅ = Ret (0, enc)
    ∧ get_chunk_size s942 (blen sample) = Ret bs
    ∧ decode_concat (codec s942) (select (ids s942 ∖ {[0; 4; 8]}) enc)
      = Ret (0, sample ++ zeros (Z.to_nat (k s942 * bs - blen sample))).
Proof.
  apply (optlrc_roundtrip s942 optlrc_9_4_2 sample {[0; 4; 8]}).
  - apply s942_ok.
  - apply sample_ok.
  - vm_compute. split; congruence.
  - intros i j Hi Hj Hs. set_unfold. destruct_or!; subst; try done;
      vm_compute in Hs; congruence.
Defined.

(** A codeword of one-byte chunks. *)
Definition word942 : gmap Z bytes :=
  list_to_map ((λ i, (i, row_region (config_row optlrc_9_4_2 i) [[1]; [2]; [3]; [4]] 1))
    <$> seqZ 0 9).

Lemma word942_codeword : codeword s942 optlrc_9_4_2 1 word942.
Proof.
  exists [[1]; [2]; [3]; [4]]. split_and!; [done| |].
  - repeat (constructor; [split; [done|by repeat constructor]|]). constructor.
  - intros i Hi. change (n s942) with 9 in Hi.
    assert (i ∈ seqZ 0 9) as Hin by (apply elem_of_seqZ_range; lia).
    apply elem_of_list_to_map_1; [|apply list_elem_of_fmap; by exists i].
    rewrite <-list_fmap_compose. apply NoDup_fmap_2; [by intros ??|apply NoDup_seqZ].
Qed.

Lemma optlrc_read_witness :
  ∃ minimum dec, minimum_to_decode s942 {[1; 3]} {[0; 2; 4; 5; 8]} ∅ = Ret (0, minimum)
    ∧ minimum ⊆ {[0; 2; 4; 5; 8]}
    ∧ decode (codec s942) {[1; 3]} (select minimum word942) ∅ = Ret (0, dec)
    ∧ ∀ i, i ∈ ({[1; 3]} : gset Z) → dec !! i = word942 !! i.
Proof.
  apply (optlrc_read s942 optlrc_9_4_2 1 word942 {[1; 3]} {[0; 2; 4; 5; 8]}).
  - apply s942_ok.
  - apply word942_codeword.
  - lia.
  - apply (bool_decide_unpack _). vm_compute. exact I.
  - apply (bool_decide_unpack _). vm_compute. exact I.
  - apply recoverable_check_ok. vm_compute. reflexivity.
Defined.

Lemma optlrc_minimum_to_decode_witness :
  ∃ err result, minimum_to_decode s942 {[1; 3]} {[0; 2]} ∅ = Ret (err, result).
Proof.
  destruct (optlrc_minimum_to_decode s942 {[1; 3]} {[0; 2]} ∅) as (err & res & Heq & _);
    [vm_compute; split; congruence..|].
  by exists err, res.
Defined.

Lemma configs_sound_witness :
  configs 9 4 2 = Ret optlrc_9_4_2 ∧ state_ok (natural 9 4 2 optlrc_9_4_2) optlrc_9_4_2.
Proof.
  split; [vm_compute; reflexivity|].
  apply (configs_sound 9 4 2 optlrc_9_4_2); [vm_compute; reflexivity|done].
Defined.

(** Chunk 0 of (9, 4, 2) is wanted and only chunk 2 of its group is there: the
    result is made of chunk 2 and of what the buffer of chunk 1 holds. *)
Lemma optlrc_repair_exact_witness :
  ∃ dec, decode (codec s942) {[0]} {[2 := [3]]} ∅ = Ret (0, dec) ∧ dec !! 0 = Some [169] ∧ word942 !! 0 = Some [1].
Proof.
  destruct (optlrc_repair_exact s942 optlrc_9_4_2 0 1 {[2 := [3]]}) as (dec & Hdec & He).
  - by vm_compute.
  - done.
  - done.
  - apply (bool_decide_unpack _). vm_compute. exact I.
  - done.
  - intros i b [<- <-]%lookup_singleton_Some. by split.
  - by vm_compute.
  - exists dec. split; [exact Hdec|]. split; [rewrite He; by vm_compute|by vm_compute].
Defined.

Definition data17 : list bytes := [1] :: replicate 11 [0].
Definition word17 : gmap Z bytes :=
  list_to_map ((λ i, (i, row_region (config_row optlrc_17_12_6 i) data17 1)) <$> seqZ 0 17).

Lemma config_17_12_6_repair_witness :
  ∃ dec, decode (codec (natural 17 12 6 optlrc_17_12_6)) {[14]} (select (last_group ∖ {[14]}) word17) ∅ = Ret (0, dec)
    ∧ dec !! 14 ≠ word17 !! 14.
Proof.
  destruct (config_17_12_6_repair data17 1 word17 14) as (_ & dec & Hdec & Hiff).
  - done.
  - repeat (constructor; [split; [done|by repeat constructor]|]). constructor.
  - intros i Hi. assert (i ∈ seqZ 0 17) as Hin by (apply elem_of_seqZ_range; lia).
    apply elem_of_list_to_map_1; [|apply list_elem_of_fmap; by exists i].
    rewrite <-list_fmap_compose. apply NoDup_fmap_2; [by intros ??|apply NoDup_seqZ].
  - left.
  - exists dec. split; [exact Hdec|]. intros E%Hiff. vm_compute in E. discriminate.
Defined.
