(* ===== verification/ECUtil.v ===== *)
(** * Striping and shard hashes

    src/src/osd/ECUtil.{h,cc}: how the OSD cuts what it writes into stripes,
    encodes them one by one and appends the chunks to the shards, how it reads
    them back, and the running checksum of every shard. Bufferlists are their
    contents; [bufferlist::crc32c] is what crc32c_spec of BufferReads shows it
    to be. *)

From S2P Require Import Prelude ErasureCode Crc32c Crc32cFacts Buffer BufferFacts BufferHeap Encoding.

Module ECUtil.

(** ** Stripes *)

Record stripe_info_t := mkStripeInfo { stripe_width : Z; chunk_size : Z }.

(** Division of unsigned integers. *)
Definition div_u64 (a b : Z) : outcome Z := if bool_decide (b = 0) then Abort DivByZero else Ret (a / b).
Definition mod_u64 (a b : Z) : outcome Z := if bool_decide (b = 0) then Abort DivByZero else Ret (a mod b).

Definition stripe_info (stripe_size width : Z) : outcome stripe_info_t :=
  size ← div_u64 width stripe_size;
  r ← mod_u64 width stripe_size;
  _ ← assert_that (bool_decide (r = 0));
  Ret (mkStripeInfo width size).

Section stripe_info.
Context (sinfo : stripe_info_t).

Definition logical_offset_is_stripe_aligned (logical : Z) : outcome bool :=
  r ← mod_u64 logical (stripe_width sinfo); Ret (bool_decide (r = 0)).
Definition logical_to_prev_chunk_offset (offset : Z) : outcome Z :=
  q ← div_u64 offset (stripe_width sinfo); Ret (u64 (q * chunk_size sinfo)).
Definition logical_to_next_chunk_offset (offset : Z) : outcome Z :=
  q ← div_u64 (u64 (offset + stripe_width sinfo - 1)) (stripe_width sinfo); Ret (u64 (q * chunk_size sinfo)).
Definition logical_to_prev_stripe_offset (offset : Z) : outcome Z :=
  r ← mod_u64 offset (stripe_width sinfo); Ret (u64 (offset - r)).
Definition logical_to_next_stripe_offset (offset : Z) : outcome Z :=
  r ← mod_u64 offset (stripe_width sinfo);
  Ret (if bool_decide (r ≠ 0) then u64 (offset - r + stripe_width sinfo) else offset).
Definition aligned_logical_offset_to_chunk_offset (offset : Z) : outcome Z :=
  r ← mod_u64 offset (stripe_width sinfo);
  _ ← assert_that (bool_decide (r = 0));
  q ← div_u64 offset (stripe_width sinfo);
  Ret (u64 (q * chunk_size sinfo)).
Definition aligned_chunk_offset_to_logical_offset (offset : Z) : outcome Z :=
  r ← mod_u64 offset (chunk_size sinfo);
  _ ← assert_that (bool_decide (r = 0));
  q ← div_u64 offset (chunk_size sinfo);
  Ret (u64 (q * stripe_width sinfo)).
Definition aligned_offset_len_to_chunk (i : Z * Z) : outcome (Z * Z) :=
  off ← aligned_logical_offset_to_chunk_offset i.1;
  len ← aligned_logical_offset_to_chunk_offset i.2;
  Ret (off, len).
Definition offset_len_to_stripe_bounds (i : Z * Z) : outcome (Z * Z) :=
  off ← logical_to_prev_stripe_offset i.1;
  len ← logical_to_next_stripe_offset (u64 (u64 (i.1 - off) + i.2));
  Ret (off, len).

(** ** Encoding and decoding

    The loops run over the multiples of the step below the total size, which
    is a multiple of the step. *)

Definition steps (total step : Z) : list Z := (λ j, j * step) <$> seqZ 0 (total / step).

Context `{HA : Allocator}.

(** The part of every shard that belongs to one stripe. *)
Definition stripe_chunks (shards : gmap Z bytes) (i : Z) : outcome (gmap Z bytes) :=
  foldM (λ chunks j, b ← substr_of (buf shards j) i (chunk_size sinfo); Ret (<[j := b]> chunks))
    ∅ (ascending (dom shards)).

(** All shards have the same length. *)
Definition same_length (shards : gmap Z bytes) (size : Z) : outcome () :=
  foldM (λ _ j, assert_that (bool_decide (blen (buf shards j) = size))) () (ascending (dom shards)).

(** [decode(sinfo, ec_impl, to_decode, bufferlist *out)]. *)
Definition decode_concat (ec_impl : Codec) (to_decode : gmap Z bytes) (out : bytes) : outcome (Z * bytes) :=
  first ← need AssertFailed (map_first to_decode);
  let total_data_size := blen first in
  r ← mod_u64 total_data_size (chunk_size sinfo);
  _ ← assert_that (bool_decide (r = 0));
  _ ← assert_that (bool_decide (blen out = 0));
  _ ← same_length to_decode total_data_size;
  if bool_decide (total_data_size = 0) then Ret (0, out) else
  out ← foldM (λ out i,
      chunks ← stripe_chunks to_decode i;
      '(r, bl) ← ErasureCode.decode_concat ec_impl chunks;
      _ ← assert_that (bool_decide (blen bl = stripe_width sinfo));
      _ ← assert_that (bool_decide (r = 0));
      Ret (out ++ bl)) out (steps total_data_size (chunk_size sinfo));
  Ret (0, out).

(** [decode(sinfo, ec_impl, to_decode, map<int, bufferlist *> &out)]. *)
Definition decode (ec_impl : Codec) (to_decode out : gmap Z bytes) : outcome (Z * gmap Z bytes) :=
  first ← need AssertFailed (map_first to_decode);
  let total_data_size := blen first in
  r ← mod_u64 total_data_size (chunk_size sinfo);
  _ ← assert_that (bool_decide (r = 0));
  _ ← same_length to_decode total_data_size;
  if bool_decide (total_data_size = 0) then Ret (0, out) else
  _ ← same_length out 0;
  let need_set := dom out in
  out ← foldM (λ out i,
      chunks ← stripe_chunks to_decode i;
      '(r, out_bls) ← ErasureCode.decode ec_impl need_set chunks ∅;
      _ ← assert_that (bool_decide (r = 0));
      foldM (λ out j,
          b ← need AssertFailed (out_bls !! j);
          _ ← assert_that (bool_decide (blen b = chunk_size sinfo));
          Ret (<[j := buf out j ++ b]> out)) out (ascending (dom out)))
    out (steps total_data_size (chunk_size sinfo));
  _ ← same_length out total_data_size;
  Ret (0, out).

Definition encode (ec_impl : Codec) (input : bytes) (want : gset Z) (out : gmap Z bytes)
    : outcome (Z * gmap Z bytes) :=
  let logical_size := blen input in
  r ← mod_u64 logical_size (stripe_width sinfo);
  _ ← assert_that (bool_decide (r = 0));
  _ ← assert_that (bool_decide (out = ∅));
  if bool_decide (logical_size = 0) then Ret (0, out) else
  out ← foldM (λ out i,
      b ← substr_of input i (stripe_width sinfo);
      '(r, encoded) ← ErasureCode.encode ec_impl want b ∅;
      _ ← assert_that (bool_decide (r = 0));
      foldM (λ out j,
          _ ← assert_that (bool_decide (blen (buf encoded j) = chunk_size sinfo));
          Ret (<[j := buf out j ++ buf encoded j]> out)) out (ascending (dom encoded)))
    out (steps logical_size (stripe_width sinfo));
  _ ← foldM (λ _ j,
      r ← mod_u64 (blen (buf out j)) (chunk_size sinfo);
      _ ← assert_that (bool_decide (r = 0));
      off ← aligned_chunk_offset_to_logical_offset (blen (buf out j));
      assert_that (bool_decide (off = logical_size))) () (ascending (dom out));
  Ret (0, out).

End stripe_info.

(** ** Hashes of the shards *)

Record HashInfo := mkHashInfo {
  total_chunk_size : Z;
  cumulative_shard_hashes : list Z;
  projected_total_chunk_size : Z;
}.

(** [uint32_t(-1)]. *)
Definition initial_hash : Z := u32 (-1).

Definition new_hash_info (num_chunks : nat) : HashInfo := mkHashInfo 0 (replicate num_chunks initial_hash) 0.

Definition has_chunk_hash (h : HashInfo) : bool := bool_decide (cumulative_shard_hashes h ≠ []).

(** [(unsigned)i]. *)
Definition shard_slot (h : HashInfo) (i : Z) : outcome nat :=
  _ ← assert_that (bool_decide (u32 i < Z.of_nat (length (cumulative_shard_hashes h))));
  Ret (Z.to_nat (u32 i)).

Definition append_shards (size_to_append : Z) (h : HashInfo) (to_append : gmap Z bytes) : outcome HashInfo :=
  foldM (λ h i,
      _ ← assert_that (bool_decide (size_to_append = blen (buf to_append i)));
      slot ← shard_slot h i;
      old ← need OutOfBounds (cumulative_shard_hashes h !! slot);
      let new_hash := crc_bytes old (buf to_append i) in
      Ret (mkHashInfo (total_chunk_size h) (<[slot := new_hash]> (cumulative_shard_hashes h)) (projected_total_chunk_size h)))
    h (ascending (dom to_append)).

Definition append (h : HashInfo) (old_size : Z) (to_append : gmap Z bytes) : outcome HashInfo :=
  _ ← assert_that (bool_decide (old_size = total_chunk_size h));
  first ← need EmptyContainer (map_first to_append);
  let size_to_append := blen first in
  h ← (if has_chunk_hash h then
         _ ← assert_that (bool_decide (size to_append = length (cumulative_shard_hashes h)));
         append_shards size_to_append h to_append
       else Ret h);
  Ret (mkHashInfo (u64 (total_chunk_size h + size_to_append)) (cumulative_shard_hashes h) (projected_total_chunk_size h)).

Definition clear (h : HashInfo) : HashInfo :=
  mkHashInfo 0 (replicate (length (cumulative_shard_hashes h)) initial_hash) (projected_total_chunk_size h).

Definition get_chunk_hash (h : HashInfo) (shard : Z) : outcome Z :=
  slot ← shard_slot h shard; need OutOfBounds (cumulative_shard_hashes h !! slot).

Definition get_total_logical_size (h : HashInfo) (sinfo : stripe_info_t) : outcome Z :=
  q ← div_u64 (stripe_width sinfo) (chunk_size sinfo); Ret (u64 (total_chunk_size h * q)).
Definition get_projected_total_logical_size (h : HashInfo) (sinfo : stripe_info_t) : outcome Z :=
  q ← div_u64 (stripe_width sinfo) (chunk_size sinfo); Ret (u64 (projected_total_chunk_size h * q)).
Definition set_projected_total_logical_size (h : HashInfo) (sinfo : stripe_info_t) (logical_size : Z) : outcome HashInfo :=
  aligned ← logical_offset_is_stripe_aligned sinfo logical_size;
  _ ← assert_that aligned;
  off ← aligned_logical_offset_to_chunk_offset sinfo logical_size;
  Ret (mkHashInfo (total_chunk_size h) (cumulative_shard_hashes h) off).

Definition set_total_chunk_size_clear_hash (h : HashInfo) (new_chunk_size : Z) : HashInfo :=
  mkHashInfo new_chunk_size [] (projected_total_chunk_size h).

Definition update_to (h rhs : HashInfo) : HashInfo :=
  mkHashInfo (total_chunk_size rhs) (cumulative_shard_hashes rhs) (projected_total_chunk_size h).

Definition hash_info_members : Encoding.Encoder (Z * list Z) :=
  Encoding.pair_enc Encoding.u64_enc (Encoding.list_enc Encoding.u32_enc).
Definition hash_info_struct : Encoding.Struct HashInfo := {|
  Encoding.struct_version := 1;
  Encoding.struct_compat := 1;
  Encoding.members h := Encoding.encode hash_info_members (total_chunk_size h, cumulative_shard_hashes h);
  Encoding.read_members _ :=
    '(total, hashes) ← Encoding.decode hash_info_members;
    mret (mkHashInfo total hashes total);
|}.
Definition encode_hash_info (h : HashInfo) (bl : bytes) : bytes := Encoding.encode_struct hash_info_struct h bl.
Definition decode_hash_info : Encoding.reader HashInfo := Encoding.decode_struct hash_info_struct.

Definition HINFO_KEY : string := "hinfo_key".
Definition is_hinfo_key_string (key : string) : bool := bool_decide (key = HINFO_KEY).

End ECUtil.
