(* ===== verification/ECUtilFacts.v ===== *)
(** * Striping: facts

    A shard is the concatenation of its chunks of the stripes, each stripe a
    codeword of the plugin; what is decoded from a stripe of some shards is the
    stripe of the input. *)

From S2P Require Import Prelude ErasureCode Crc32c Crc32cFacts Buffer BufferFacts BufferHeap Encoding ECUtil.

(** ** Chunks in a row *)

Lemma length_concat_equal {A} (n : nat) (bs : list (list A)) :
  Forall (λ b, length b = n) bs → length (concat bs) = (length bs * n)%nat.
Proof. induction 1 as [|b bs Hb Hbs IH]; [done|]. cbn. rewrite length_app, Hb, IH. done. Qed.

Lemma drop_concat_equal (s : nat) (ls : list bytes) (n : nat) :
  Forall (λ l, length l = s) ls → drop (n * s) (concat ls) = concat (drop n ls).
Proof.
  intros Hls. revert n. induction Hls as [|l ls Hl Hls IH]; intros n; [cbn [concat]; by rewrite !drop_nil|].
  destruct n as [|n]; [done|]. cbn [concat drop Nat.mul]. rewrite <-Hl at 1. rewrite <-drop_drop, drop_app_length. apply IH.
Qed.

Lemma take_concat_equal (s : nat) (ls : list bytes) (n : nat) :
  Forall (λ l, length l = s) ls → take (n * s) (concat ls) = concat (take n ls).
Proof.
  intros Hls. revert n. induction Hls as [|l ls Hl Hls IH]; intros n; [cbn [concat]; by rewrite !take_nil|].
  destruct n as [|n]; [done|]. cbn [concat take Nat.mul]. rewrite <-Hl at 1. rewrite take_app_add. by rewrite IH.
Qed.

Lemma substr_concat (bs : list bytes) cs j b :
  0 ≤ cs → Forall (λ b, length b = Z.to_nat cs) bs → bs !! j = Some b →
  substr (concat bs) (Z.of_nat j * cs) cs = b.
Proof.
  intros Hcs Hall Hj. rewrite <-(take_drop_middle bs j b Hj) in *.
  apply Forall_app in Hall as [Hl [Hb Hr]%Forall_cons]. pose proof (lookup_lt_Some _ _ _ Hj).
  rewrite concat_app. cbn [concat]. assert (blen b = cs) as Hbl by (unfold blen; lia).
  pose proof (substr_middle (concat (take j bs)) b (concat (drop (S j) bs)) 0 cs) as Hm.
  assert (blen (concat (take j bs)) = Z.of_nat j * cs) as Hlen.
  { unfold blen. rewrite (length_concat_equal (Z.to_nat cs)), length_take by done. nia. }
  rewrite Hlen, Z.add_0_r in Hm. rewrite Hm by lia. rewrite <-Hbl. apply substr_all.
Qed.

Lemma elem_of_steps total step i : i ∈ ECUtil.steps total step ↔ ∃ j, i = j * step ∧ 0 ≤ j < total / step.
Proof. unfold ECUtil.steps. rewrite list_elem_of_fmap. setoid_rewrite elem_of_seqZ. split; intros (j & ? & ?); exists j; (split; [done|lia]). Qed.

Lemma lookup_steps total step (j : nat) :
  (Z.of_nat j < total / step) → ECUtil.steps total step !! j = Some (Z.of_nat j * step).
Proof.
  intros Hj. unfold ECUtil.steps. rewrite list_lookup_fmap.
  by rewrite (proj2 (lookup_seqZ 0 (total / step) j (Z.of_nat j))) by lia.
Qed.

Lemma length_steps total step : 0 ≤ total / step → length (ECUtil.steps total step) = Z.to_nat (total / step).
Proof. intros. unfold ECUtil.steps. by rewrite length_fmap, length_seqZ. Qed.

(** ** Loops over maps *)

Lemma same_length_spec (m : gmap Z bytes) size :
  (∀ i b, m !! i = Some b → blen b = size) → ECUtil.same_length m size = Ret ().
Proof.
  intros Hm. unfold ECUtil.same_length.
  destruct (foldM_inv (λ (_ : ()) j, assert_that (bool_decide (blen (buf m j) = size))) (λ _ _, True) (ascending (dom m)) ()) as ([] & Hf & _);
    [done| |done].
  intros l1 j l2 [] Hl _. exists (). split; [|done].
  assert (j ∈ dom m) as [b Hb]%elem_of_dom by (apply elem_of_ascending; rewrite Hl; set_solver).
  unfold buf. rewrite Hb. cbn. by rewrite bool_decide_true by (by apply (Hm j)).
Qed.

(** Appending to every entry of a map. *)
Lemma append_each_spec (out : gmap Z bytes) (get : Z → option bytes) (size : Z) (l : list Z) :
  NoDup l → (∀ j, j ∈ l → ∃ b, get j = Some b ∧ blen b = size) →
  ∃ out', foldM (λ out j,
      b ← need AssertFailed (get j);
      _ ← assert_that (bool_decide (blen b = size));
      Ret (<[j := buf out j ++ b]> out)) out l = Ret out'
    ∧ ∀ j, out' !! j = if bool_decide (j ∈ l) then Some (buf out j ++ default [] (get j)) else out !! j.
Proof.
  intros Hnd Hget.
  destruct (foldM_inv (λ out j, b ← need AssertFailed (get j); _ ← assert_that (bool_decide (blen b = size));
      Ret (<[j := buf out j ++ b]> out))
    (λ l1 out', ∀ j, out' !! j = if bool_decide (j ∈ l1) then Some (buf out j ++ default [] (get j)) else out !! j) l out)
    as (out' & Hf & Hout'); [intros j; by rewrite bool_decide_false by set_solver| |by exists out'].
  intros l1 x l2 out1 -> Hout1. destruct (Hget x) as (b & Hb & Hlen); [set_solver|].
  rewrite Hb. cbn [need mbind outcome_bind]. rewrite bool_decide_true by done. cbn [assert_that mbind outcome_bind].
  eexists. split; [reflexivity|]. intros j.
  assert (x ∉ l1) as Hx by (apply NoDup_app in Hnd; set_solver).
  destruct (decide (j = x)) as [->|Hne].
  - rewrite lookup_insert_eq, bool_decide_true by set_solver. unfold buf at 1. rewrite Hout1, bool_decide_false by done.
    by rewrite Hb.
  - rewrite lookup_insert_ne, Hout1 by done. apply bool_decide_ext_iff_if. set_solver.
Qed.

Lemma substr_of_ok b off len : off + len ≤ blen b → substr_of b off len = Ret (substr b off len).
Proof. intros. unfold substr_of. by rewrite bool_decide_true. Qed.

Lemma stripe_chunks_spec sinfo (shards : gmap Z bytes) i :
  (∀ j b, shards !! j = Some b → i + ECUtil.chunk_size sinfo ≤ blen b) →
  ECUtil.stripe_chunks sinfo shards i = Ret ((λ b, substr b i (ECUtil.chunk_size sinfo)) <$> shards).
Proof.
  intros Hs. unfold ECUtil.stripe_chunks.
  destruct (foldM_inv (λ chunks j, b ← substr_of (buf shards j) i (ECUtil.chunk_size sinfo); Ret (<[j := b]> chunks))
    (λ l1 (chunks : gmap Z bytes), ∀ j, chunks !! j = if bool_decide (j ∈ l1) then (λ b, substr b i (ECUtil.chunk_size sinfo)) <$> shards !! j else None)
    (ascending (dom shards)) ∅) as (chunks & Hf & Hc).
  - intros j. rewrite lookup_empty. by rewrite bool_decide_false by set_solver.
  - intros l1 x l2 chunks Hl Hc.
    assert (x ∈ dom shards) as [b Hb]%elem_of_dom by (apply elem_of_ascending; rewrite Hl; set_solver).
    unfold buf. rewrite Hb. cbn [default from_option id]. rewrite substr_of_ok by (by apply (Hs x)). cbn [mbind outcome_bind].
    eexists. split; [reflexivity|]. intros j. destruct (decide (j = x)) as [->|Hne].
    + rewrite lookup_insert_eq, bool_decide_true by set_solver. by rewrite Hb.
    + rewrite lookup_insert_ne, Hc by done. apply bool_decide_ext_iff_if. set_solver.
  - rewrite Hf. f_equal. apply map_eq. intros j. rewrite Hc, lookup_fmap. case_bool_decide as Hj; [done|].
    rewrite elem_of_ascending, not_elem_of_dom in Hj. by rewrite Hj.
Qed.

(** ** Stripes of a codec *)

Section stripes.
Context `{HA : Allocator} `{HAS : !AllocatorSpec} (c : Codec) (max_len : Z) (sizes : nat → Prop).
Context (codeword : nat → gmap Z bytes → Prop) (recoverable : gset Z → gset Z → Prop).
Context `{HC : !CodecSpec c max_len sizes codeword recoverable}.
Context (sinfo : ECUtil.stripe_info_t).
#[local] Abbreviation n := (get_chunk_count c).
#[local] Abbreviation k := (get_data_chunk_count c).
#[local] Abbreviation idx := (chunk_index (chunk_mapping c)).
#[local] Abbreviation sw := (ECUtil.stripe_width sinfo).
#[local] Abbreviation cs := (ECUtil.chunk_size sinfo).

(** A stripe is [k] chunks of the size that the plugin chooses for it. *)
Context (Hsw : sw = k * cs) (Hcs : 0 < cs) (Hsize : get_chunk_size c sw = Ret cs) (Hmax : sw ≤ max_len).

Definition all_chunks : gset Z := list_to_set (seqZ 0 n).

Context (input : bytes) (Hin : bytes_ok input) (Hmult : blen input mod sw = 0).

Lemma sw_pos : 0 < sw.
Proof. pose proof (codec_counts (c:=c)). rewrite Hsw. nia. Qed.

Lemma input_stripes : blen input = blen input / sw * sw.
Proof. pose proof sw_pos. pose proof (Z.div_mod (blen input) sw ltac:(lia)). lia. Qed.

(** A codeword of the stripe at an offset. *)
Definition stripe_word (i : Z) (w : gmap Z bytes) : Prop :=
  codeword (Z.to_nat cs) w ∧ dom w = all_chunks
  ∧ ∀ p, 0 ≤ p < k → w !! idx p = Some (data_chunk k cs (substr input i sw) p).

Lemma step_range i : i ∈ ECUtil.steps (blen input) sw → 0 ≤ i ∧ i + sw ≤ blen input.
Proof. intros (j & -> & Hj)%elem_of_steps. pose proof sw_pos. pose proof input_stripes. nia. Qed.

Lemma blen_stripe i : i ∈ ECUtil.steps (blen input) sw → blen (substr input i sw) = sw.
Proof.
  intros Hi%step_range. pose proof sw_pos. unfold blen at 1. rewrite length_substr; lia.
Qed.

Lemma encode_stripe_spec i :
  i ∈ ECUtil.steps (blen input) sw →
  ∃ w, ErasureCode.encode c all_chunks (substr input i sw) ∅ = Ret (0, w) ∧ stripe_word i w.
Proof.
  intros Hi. pose proof (blen_stripe i Hi) as Hlen. pose proof sw_pos.
  destruct (encode_spec c max_len sizes codeword recoverable all_chunks (substr input i sw))
    as (enc & bs & w & Henc & Hbs & _ & _ & Hcw & Hdw & Hdata & Hlook); [done|by apply bytes_ok_substr|lia|].
  rewrite Hlen, Hsize in Hbs. injection Hbs as <-. exists w. split; [|by split_and!].
  rewrite Henc. do 2 f_equal. apply map_eq. intros j. rewrite Hlook. case_bool_decide as Hj; [done|].
  symmetry. apply not_elem_of_dom. by rewrite Hdw.
Qed.

Lemma word_chunk i w j : stripe_word i w → j ∈ all_chunks → ∃ b, w !! j = Some b ∧ blen b = cs.
Proof.
  intros (Hcw & Hdw & _) Hj. pose proof (codec_codeword _ _ Hcw j) as Hst.
  destruct Hst as (b & Hb & Hl & _); [unfold all_chunks in Hj; set_solver|]. exists b. split; [done|]. unfold blen. lia.
Qed.

(** The shards of some stripes. *)
Definition shard (ws : list (gmap Z bytes)) (j : Z) : bytes := concat ((λ w, buf w j) <$> ws).
Definition shards_of (ws : list (gmap Z bytes)) (out : gmap Z bytes) : Prop :=
  ∀ j, out !! j = if bool_decide (j ∈ all_chunks ∧ ws ≠ []) then Some (shard ws j) else None.

Lemma shard_chunks offs ws j :
  Forall2 stripe_word offs ws → j ∈ all_chunks → Forall (λ b, length b = Z.to_nat cs) ((λ w, buf w j) <$> ws).
Proof.
  intros Hws Hj. apply Forall_fmap. induction Hws as [|i w offs ws Hw Hws IH]; constructor; [|done].
  destruct (word_chunk i w j Hw Hj) as (b & Hb & Hl). cbn. unfold buf. rewrite Hb. cbn. unfold blen in Hl. lia.
Qed.

Lemma blen_shard offs ws j : Forall2 stripe_word offs ws → j ∈ all_chunks → blen (shard ws j) = Z.of_nat (length ws) * cs.
Proof.
  intros Hws Hj. unfold shard, blen. rewrite (length_concat_equal (Z.to_nat cs)) by (by eapply shard_chunks).
  rewrite length_fmap. nia.
Qed.

Lemma encode_loop_step offs ws out i w :
  Forall2 stripe_word offs ws → shards_of ws out → stripe_word i w →
  ∃ out', foldM (λ out j,
      _ ← assert_that (bool_decide (blen (buf w j) = cs));
      Ret (<[j := buf out j ++ buf w j]> out)) out (ascending (dom w)) = Ret out'
    ∧ shards_of (ws ++ [w]) out'.
Proof.
  intros Hws Hout Hw. pose proof Hw as (_ & Hdw & _).
  destruct (append_each_spec out (λ j, Some (buf w j)) cs (ascending (dom w)) (NoDup_ascending _)) as (out' & Hf & Hlook).
  { intros j Hj%elem_of_ascending. rewrite Hdw in Hj. destruct (word_chunk i w j Hw Hj) as (b & Hb & Hl).
    eexists. split; [done|]. unfold buf. by rewrite Hb. }
  exists out'. split; [exact Hf|]. intros j. rewrite Hlook. rewrite (bool_decide_ext _ (j ∈ all_chunks)) by (by rewrite elem_of_ascending, Hdw).
  destruct (decide (j ∈ all_chunks)) as [Hj|Hj].
  - rewrite (bool_decide_true (j ∈ _)), bool_decide_true by (by (split; [|by destruct ws]) || done). f_equal.
    unfold shard. rewrite fmap_app, concat_app. cbn. rewrite app_nil_r. f_equal. unfold buf. rewrite Hout.
    case_bool_decide as Hne; [done|]. assert (ws = []) as -> by (apply dec_stable; naive_solver). done.
  - rewrite (bool_decide_false (j ∈ _)), bool_decide_false by naive_solver. rewrite Hout. by rewrite bool_decide_false by naive_solver.
Qed.

Context (Hlen32 : blen input < 2 ^ 32).

Lemma shards_empty : shards_of [] ∅.
Proof. intros j. rewrite bool_decide_false; [done|naive_solver]. Qed.

Lemma ec_encode_spec :
  ∃ out ws, ECUtil.encode sinfo c input all_chunks ∅ = Ret (0, out)
    ∧ Forall2 stripe_word (ECUtil.steps (blen input) sw) ws ∧ shards_of ws out.
Proof.
  pose proof sw_pos. pose proof input_stripes as Hst. assert (0 ≤ blen input) by (unfold blen; lia).
  unfold ECUtil.encode, ECUtil.mod_u64. rewrite !(bool_decide_false (sw = 0)) by lia. cbn [mbind outcome_bind].
  rewrite Hmult, (bool_decide_true (0 = 0)), (bool_decide_true (∅ = ∅)) by done.
  cbn [assert_that mbind outcome_bind]. case_bool_decide as Hz.
  { exists ∅, []. split; [done|]. split; [|apply shards_empty]. unfold ECUtil.steps. rewrite Hz. constructor. }
  match goal with |- context [foldM ?f ∅ (ECUtil.steps _ _)] => set (body := f) end.
  destruct (foldM_inv body (λ l out, ∃ ws, Forall2 stripe_word l ws ∧ shards_of ws out) (ECUtil.steps (blen input) sw) ∅)
    as (out & -> & ws & Hws & Hout).
  { exists []. split; [constructor|apply shards_empty]. }
  { intros l1 i l2 out1 Hl (ws & Hws & Hout). assert (i ∈ ECUtil.steps (blen input) sw) as Hi by (rewrite Hl; set_solver).
    destruct (encode_stripe_spec i Hi) as (w & Henc & Hw). destruct (encode_loop_step l1 ws out1 i w Hws Hout Hw) as (out2 & Hf & Hout2).
    exists out2. split; [|exists (ws ++ [w]); split; [by apply Forall2_app; [|constructor]|done]].
    unfold body. rewrite substr_of_ok by (by apply step_range). cbn [mbind outcome_bind]. rewrite Henc. cbn [mbind outcome_bind].
    rewrite bool_decide_true by done. cbn [assert_that mbind outcome_bind]. exact Hf. }
  cbn [mbind outcome_bind]. exists out, ws. split; [|done].
  pose proof (Forall2_length _ _ _ Hws) as Hlen. rewrite length_steps in Hlen by (apply Z.div_pos; lia).
  match goal with |- context [foldM ?f () ?l] => set (check := f); set (js := l) end.
  destruct (foldM_inv check (λ _ _, True) js ()) as ([] & -> & _); [done| |done].
  intros l1 j l2 [] Hj _. exists (). split; [|done]. unfold check, ECUtil.aligned_chunk_offset_to_logical_offset, ECUtil.mod_u64, ECUtil.div_u64.
  assert (j ∈ dom out) as [b Hb]%elem_of_dom by (apply elem_of_ascending; fold js; rewrite Hj; set_solver).
  unfold buf. rewrite Hb. cbn [default from_option id]. rewrite Hout in Hb. case_bool_decide as Hd; [|done]. injection Hb as <-.
  rewrite (blen_shard _ ws j Hws) by naive_solver. rewrite <-Hlen, !(bool_decide_false (cs = 0)) by lia. cbn [mbind outcome_bind].
  assert (0 ≤ blen input / sw) by (apply Z.div_pos; lia). rewrite Z2Nat.id by done.
  rewrite Z.mod_mul, Z.div_mul, !bool_decide_true by lia. cbn [assert_that mbind outcome_bind].
  rewrite <-Hst, u64_small by lia. by rewrite bool_decide_true.
Qed.

(** ** Reading *)

Context (out : gmap Z bytes) (ws : list (gmap Z bytes)).
Context (Hws : Forall2 stripe_word (ECUtil.steps (blen input) sw) ws) (Hout : shards_of ws out).
Context (chunks : gmap Z bytes) (Hsub : chunks ⊆ out) (Hne : chunks ≠ ∅).

Lemma length_ws : Z.of_nat (length ws) = blen input / sw.
Proof.
  pose proof sw_pos. pose proof (Forall2_length _ _ _ Hws) as Hlen. assert (0 ≤ blen input / sw) by (apply Z.div_pos; unfold blen; lia).
  rewrite length_steps in Hlen by done. lia.
Qed.

Lemma shard_in j b : chunks !! j = Some b → j ∈ all_chunks ∧ b = shard ws j ∧ blen b = blen input / sw * cs.
Proof.
  intros Hb. pose proof (lookup_weaken _ _ _ _ Hb Hsub) as Ho. rewrite Hout in Ho. case_bool_decide as Hd; [|done].
  injection Ho as <-. split_and!; [naive_solver|done|]. rewrite (blen_shard _ ws j Hws) by naive_solver. by rewrite length_ws.
Qed.

Lemma chunks_dom : dom chunks ⊆ all_chunks.
Proof. intros j [b Hb]%elem_of_dom. by apply (shard_in j b). Qed.

(** The chunks of a stripe belong to its codeword. *)
Lemma stripe_chunks_word (j : nat) w :
  ws !! j = Some w →
  ECUtil.stripe_chunks sinfo chunks (Z.of_nat j * cs) = Ret ((λ b, substr b (Z.of_nat j * cs) cs) <$> chunks)
  ∧ (λ b, substr b (Z.of_nat j * cs) cs) <$> chunks ⊆ w
  ∧ stripe_word (Z.of_nat j * sw) w ∧ 0 ≤ Z.of_nat j < blen input / sw.
Proof.
  intros Hj. pose proof (lookup_lt_Some _ _ _ Hj) as Hlt. pose proof length_ws as Hlen. split_and!; [| | |lia|lia].
  - apply stripe_chunks_spec. intros i b Hb. destruct (shard_in i b Hb) as (_ & _ & ->). nia.
  - apply map_subseteq_spec. intros i b. rewrite lookup_fmap, fmap_Some. intros (b' & Hb' & ->).
    destruct (shard_in i b' Hb') as (Hi & -> & _). unfold shard.
    rewrite (substr_concat ((λ w, buf w i) <$> ws) cs j (buf w i)).
    + destruct (Forall2_lookup_r _ _ _ _ _ Hws Hj) as (i' & _ & Hw).
      destruct (word_chunk i' w i Hw Hi) as (b & Hb & _). unfold buf. by rewrite Hb.
    + lia.
    + by eapply shard_chunks.
    + by rewrite list_lookup_fmap, Hj.
  - destruct (Forall2_lookup_r _ _ _ _ _ Hws Hj) as (i & Hi & Hw). rewrite lookup_steps in Hi by lia. by injection Hi as <-.
Qed.

Lemma first_chunk : ∃ b, map_first chunks = Some b ∧ blen b = blen input / sw * cs.
Proof.
  destruct (map_first_Some chunks Hne) as (i & b & Hf & Hb). exists b. split; [done|]. by apply (shard_in i b).
Qed.

(** What a stripe decodes to. *)
Lemma concat_word i w :
  i ∈ ECUtil.steps (blen input) sw → stripe_word i w →
  concat ((λ p, buf w (idx p)) <$> seqZ 0 k) = substr input i sw.
Proof.
  intros Hi (_ & _ & Hdata). pose proof (codec_counts (c:=c)). pose proof (blen_stripe i Hi) as Hlen.
  transitivity (concat (data_chunk k cs (substr input i sw) <$> seqZ 0 k)).
  - f_equal. apply list_fmap_ext. intros q p Hp%lookup_seqZ. unfold buf. by rewrite Hdata by lia.
  - rewrite concat_data_chunks by lia. rewrite Hlen, Hsw, Z.sub_diag. by rewrite app_nil_r.
Qed.

Lemma foldM_appending {X} (body : bytes → X → outcome bytes) (g : X → bytes) acc l :
  (∀ acc x, x ∈ l → body acc x = Ret (acc ++ g x)) → foldM body acc l = Ret (acc ++ concat (g <$> l)).
Proof.
  revert acc. induction l as [|x l IH]; intros acc Hl; cbn; [by rewrite app_nil_r|].
  rewrite Hl by left. cbn. rewrite IH, <-app_assoc; [done|]. intros acc' y Hy. apply Hl. by right.
Qed.

Lemma chunks_nonempty i : (λ b, substr b i cs) <$> chunks ≠ ∅.
Proof. by rewrite fmap_empty_iff. Qed.

(** The input is its stripes. *)
Lemma concat_stripes : concat ((λ j, substr input (j * sw) sw) <$> seqZ 0 (blen input / sw)) = input.
Proof.
  pose proof sw_pos. pose proof input_stripes. assert (0 ≤ blen input / sw) by (apply Z.div_pos; unfold blen; lia).
  rewrite concat_blocks by lia. rewrite <-input_stripes. unfold blen. rewrite Nat2Z.id. by apply take_ge.
Qed.

Lemma nth_word j : 0 ≤ j < blen input / sw → ∃ w, ws !! Z.to_nat j = Some w.
Proof. intros Hj. pose proof length_ws. apply lookup_lt_is_Some_2. lia. Qed.

(** The shards that [decode] rebuilds, after some of the stripes. *)
Definition rebuilt (wanted : gset Z) (ws : list (gmap Z bytes)) (m : gmap Z bytes) : Prop :=
  dom m = wanted ∧ ∀ i, i ∈ wanted → m !! i = Some (shard ws i).

Lemma shard_snoc ws' w i : shard (ws' ++ [w]) i = shard ws' i ++ buf w i.
Proof. unfold shard. rewrite fmap_app, concat_app. cbn. by rewrite app_nil_r. Qed.

Lemma rebuild_step wanted ws' m w i (dec : gmap Z bytes) :
  wanted ⊆ all_chunks → stripe_word i w → rebuilt wanted ws' m → (∀ j, j ∈ wanted → dec !! j = w !! j) →
  ∃ m', foldM (λ out j,
      b ← need AssertFailed (dec !! j);
      _ ← assert_that (bool_decide (blen b = cs));
      Ret (<[j := buf out j ++ b]> out)) m (ascending (dom m)) = Ret m'
    ∧ rebuilt wanted (ws' ++ [w]) m'.
Proof.
  intros Hwant Hw (Hdom & Hm) Hdec.
  destruct (append_each_spec m (λ j, dec !! j) cs (ascending (dom m)) (NoDup_ascending _)) as (m' & Hf & Hlook).
  { intros j Hj%elem_of_ascending. rewrite Hdom in Hj. rewrite Hdec by done. apply (word_chunk i); [done|set_solver]. }
  exists m'. split; [exact Hf|]. assert (∀ j, j ∈ wanted → m' !! j = Some (shard (ws' ++ [w]) j)) as Hm'.
  { intros j Hj. rewrite Hlook, bool_decide_true by (by rewrite elem_of_ascending, Hdom).
    rewrite shard_snoc, Hdec by done. unfold buf. by rewrite Hm. }
  split; [|done]. apply set_eq. intros j. split; [|by intros Hj; apply elem_of_dom; rewrite Hm'].
  intros [b Hb]%elem_of_dom. rewrite Hlook in Hb. case_bool_decide as Hj; [|by rewrite <-Hdom; apply elem_of_dom].
  by rewrite elem_of_ascending, Hdom in Hj.
Qed.

Lemma ec_decode_spec (wanted : gset Z) (m : gmap Z bytes) :
  wanted ⊆ all_chunks → rebuilt wanted [] m → wanted ⊆ dom chunks ∨ recoverable (dom chunks) wanted →
  ∃ m', ECUtil.decode sinfo c chunks m = Ret (0, m') ∧ rebuilt wanted ws m'.
Proof.
  intros Hwant Hm Hrec. pose proof sw_pos. pose proof length_ws as Hlen. unfold ECUtil.decode.
  destruct first_chunk as (b0 & -> & Hb0). cbn [need mbind outcome_bind]. rewrite Hb0. unfold ECUtil.mod_u64.
  rewrite (bool_decide_false (cs = 0)) by lia. cbn [mbind outcome_bind]. rewrite Z.mod_mul by lia.
  rewrite !(bool_decide_true (0 = 0)) by done. cbn [assert_that mbind outcome_bind].
  rewrite (same_length_spec chunks) by (intros i b Hb; by apply (shard_in i b)). cbn [mbind outcome_bind].
  case_bool_decide as Hz.
  { exists m. split; [done|]. assert (ws = []) as ->; [|done]. apply nil_length_inv. nia. }
  pose proof Hm as (Hdom & Hempty). rewrite (same_length_spec m); cycle 1.
  { intros i b Hb. rewrite Hempty in Hb by (rewrite <-Hdom; by apply elem_of_dom_2 in Hb). by injection Hb as <-. }
  cbn [mbind outcome_bind]. rewrite Hdom.
  match goal with |- context [foldM ?f m ?l] => set (body := f); set (offs := l) end.
  destruct (foldM_inv body (λ l m', rebuilt wanted (take (length l) ws) m') offs m) as (m' & -> & Hm'); [done| |].
  - intros l1 i l2 m1 Hl Hm1. assert (offs !! length l1 = Some i) as Hi by (rewrite Hl; by apply list_lookup_middle).
    pose proof (lookup_lt_Some _ _ _ Hi) as Hlt. subst offs. rewrite length_steps in Hlt by (rewrite Z.div_mul; lia).
    rewrite Z.div_mul in Hlt by lia. rewrite lookup_steps in Hi by (rewrite Z.div_mul; lia). injection Hi as <-.
    destruct (lookup_lt_is_Some_2 ws (length l1)) as (w & Hw); [lia|].
    destruct (stripe_chunks_word _ w Hw) as (Hch & Hsubw & Hword & _).
    destruct (decode_spec c max_len sizes codeword recoverable wanted ((λ b, substr b (Z.of_nat (length l1) * cs) cs) <$> chunks) w (Z.to_nat cs))
      as (dec & Hdec & Hlook); [apply Hword|lia|done|apply chunks_nonempty|done|rewrite dom_fmap_L; apply chunks_dom|by rewrite dom_fmap_L|].
    destruct (rebuild_step wanted _ m1 w _ dec Hwant Hword Hm1 Hlook) as (m2 & Hf & Hm2). exists m2. split.
    + unfold body. rewrite Hch. cbn [mbind outcome_bind]. rewrite Hdec. cbn [mbind outcome_bind].
      rewrite bool_decide_true by done. cbn [assert_that mbind outcome_bind]. exact Hf.
    + rewrite length_app. cbn [length]. rewrite Nat.add_1_r. by rewrite (take_S_r _ _ w).
  - cbn [mbind outcome_bind]. subst offs. rewrite take_ge in Hm' by (rewrite length_steps; rewrite ?Z.div_mul; lia).
    rewrite (same_length_spec m'); [by exists m'|]. intros i b Hb. destruct Hm' as (Hdm & Hm').
    assert (i ∈ wanted) as Hi by (rewrite <-Hdm; by apply elem_of_dom_2 in Hb).
    rewrite Hm' in Hb by done. injection Hb as <-. rewrite (blen_shard _ ws i Hws) by set_solver. by rewrite Hlen.
Qed.

Context (Hrec : data_positions c ⊆ dom chunks ∨ recoverable (dom chunks) (data_positions c)).

Lemma ec_decode_concat_spec : ECUtil.decode_concat sinfo c chunks [] = Ret (0, input).
Proof.
  pose proof sw_pos. pose proof input_stripes as Hst. unfold ECUtil.decode_concat.
  destruct first_chunk as (b0 & -> & Hb0). cbn [need mbind outcome_bind]. rewrite Hb0. unfold ECUtil.mod_u64.
  rewrite (bool_decide_false (cs = 0)) by lia. cbn [mbind outcome_bind]. rewrite Z.mod_mul by lia.
  change (blen []) with 0. rewrite !(bool_decide_true (0 = 0)) by done. cbn [assert_that mbind outcome_bind].
  rewrite (same_length_spec chunks) by (intros i b Hb; by apply (shard_in i b)). cbn [mbind outcome_bind].
  assert (0 ≤ blen input / sw) by (apply Z.div_pos; unfold blen; lia).
  case_bool_decide as Hz.
  { assert (input = []) as ->; [|done]. destruct input; [done|]. unfold blen in *. cbn in *. nia. }
  rewrite (foldM_appending _ (λ i, substr input (i / cs * sw) sw)).
  - cbn [mbind outcome_bind app]. do 2 f_equal. rewrite <-concat_stripes at 2. unfold ECUtil.steps. rewrite Z.div_mul by lia.
    rewrite <-list_fmap_compose. f_equal. apply list_fmap_ext. intros q j Hj. cbn. by rewrite Z.div_mul by lia.
  - intros acc i (j & -> & Hj)%elem_of_steps. rewrite Z.div_mul in * by lia. destruct (nth_word j Hj) as (w & Hw).
    destruct (stripe_chunks_word _ w Hw) as (Hch & Hsubw & Hword & _). rewrite Z2Nat.id in * by lia.
    rewrite Hch. cbn [mbind outcome_bind].
    assert (j * sw ∈ ECUtil.steps (blen input) sw) as Hin' by (apply elem_of_steps; by exists j).
    rewrite (decode_concat_spec c max_len sizes codeword recoverable _ w (Z.to_nat cs));
      [|apply Hword|lia|done|apply chunks_nonempty|rewrite dom_fmap_L; apply chunks_dom|by rewrite dom_fmap_L].
    cbn [mbind outcome_bind]. rewrite (concat_word (j * sw)) by done.
    rewrite blen_stripe by done. rewrite !bool_decide_true by done. done.
Qed.

End stripes.

(** ** A range of stripes *)

Section range.
Context `{HA : Allocator} `{HAS : !AllocatorSpec} (c : Codec) (max_len : Z) (sizes : nat → Prop).
Context (codeword : nat → gmap Z bytes → Prop) (recoverable : gset Z → gset Z → Prop).
Context `{HC : !CodecSpec c max_len sizes codeword recoverable}.
Context (sinfo : ECUtil.stripe_info_t).
#[local] Abbreviation k := (get_data_chunk_count c).
#[local] Abbreviation sw := (ECUtil.stripe_width sinfo).
#[local] Abbreviation cs := (ECUtil.chunk_size sinfo).
Context (Hsw : sw = k * cs) (Hcs : 0 < cs) (Hsize : get_chunk_size c sw = Ret cs) (Hmax : sw ≤ max_len).
Context (input : bytes) (Hin : bytes_ok input) (Hmult : blen input mod sw = 0).
Context (ws : list (gmap Z bytes)) (Hws : Forall2 (stripe_word c codeword sinfo input) (ECUtil.steps (blen input) sw) ws).
Context (a b : nat) (Hb : (0 < b)%nat) (Hab : Z.of_nat (a + b) * sw ≤ blen input).

#[local] Abbreviation part := (substr input (Z.of_nat a * sw) (Z.of_nat b * sw)).

Lemma range_sw_pos : 0 < sw.
Proof. by eapply sw_pos. Qed.

Lemma blen_part : blen part = Z.of_nat b * sw.
Proof. pose proof range_sw_pos. unfold blen. rewrite length_substr by (unfold blen in *; nia). nia. Qed.

Lemma range_count : Z.of_nat (a + b) ≤ blen input / sw.
Proof. pose proof range_sw_pos. apply Z.div_le_lower_bound; lia. Qed.

Lemma part_words :
  Forall2 (stripe_word c codeword sinfo part) (ECUtil.steps (blen part) sw) (take b (drop a ws)).
Proof.
  pose proof range_sw_pos. pose proof range_count. rewrite blen_part.
  apply Forall2_same_length_lookup_2.
  { rewrite length_steps by (rewrite Z.div_mul; lia). rewrite Z.div_mul by lia.
    pose proof (Forall2_length _ _ _ Hws) as Hl. rewrite length_steps in Hl by lia. rewrite length_take, length_drop. lia. }
  intros j i w Hi Hw. apply lookup_take_Some in Hw as (Hw & Hj). rewrite lookup_drop in Hw.
  rewrite lookup_steps in Hi by (rewrite Z.div_mul; lia). injection Hi as <-.
  destruct (Forall2_lookup_r _ _ _ _ _ Hws Hw) as (i & Hi & Hcw & Hdom & Hdata).
  rewrite lookup_steps in Hi by lia. injection Hi as <-. split_and!; [done|done|]. intros p Hp. rewrite Hdata by done.
  do 2 f_equal. rewrite substr_substr by nia. f_equal. lia.
Qed.

Lemma part_shard j :
  j ∈ all_chunks c → substr (shard ws j) (Z.of_nat a * cs) (Z.of_nat b * cs) = shard (take b (drop a ws)) j.
Proof.
  intros Hj. unfold shard, substr.
  replace (Z.to_nat (Z.of_nat a * cs)) with (a * Z.to_nat cs)%nat by nia.
  replace (Z.to_nat (Z.of_nat b * cs)) with (b * Z.to_nat cs)%nat by nia.
  assert (Forall (λ x, length x = Z.to_nat cs) ((λ w, buf w j) <$> ws)) as Hall by (by eapply shard_chunks).
  rewrite drop_concat_equal by done. rewrite take_concat_equal by (by apply Forall_drop). by rewrite fmap_take, fmap_drop.
Qed.

Lemma part_shards out :
  shards_of c ws out → shards_of c (take b (drop a ws)) ((λ x, substr x (Z.of_nat a * cs) (Z.of_nat b * cs)) <$> out).
Proof.
  intros Hout j. rewrite lookup_fmap, Hout.
  pose proof range_count. pose proof (Forall2_length _ _ _ Hws) as Hl. rewrite length_steps in Hl by lia.
  assert (ws ≠ []) by (intros ->; cbn in Hl; lia).
  assert (take b (drop a ws) ≠ []) by (intros E%(f_equal length); rewrite length_take, length_drop in E; cbn in E; lia).
  rewrite (bool_decide_ext (j ∈ all_chunks c ∧ ws ≠ []) (j ∈ all_chunks c ∧ take b (drop a ws) ≠ [])) by naive_solver.
  case_bool_decide as Hj; [|done]. cbn. f_equal. apply part_shard. naive_solver.
Qed.

Lemma part_decode out chunks :
  shards_of c ws out → chunks ⊆ out → chunks ≠ ∅ → blen input < 2 ^ 32 →
  data_positions c ⊆ dom chunks ∨ recoverable (dom chunks) (data_positions c) →
  ECUtil.decode_concat sinfo c ((λ x, substr x (Z.of_nat a * cs) (Z.of_nat b * cs)) <$> chunks) [] = Ret (0, part).
Proof.
  intros Hout Hsub Hne H32 Hrec. pose proof blen_part as Hlen. pose proof range_sw_pos.
  apply (ec_decode_concat_spec c max_len sizes codeword recoverable) with (ws := take b (drop a ws))
    (out := (λ x, substr x (Z.of_nat a * cs) (Z.of_nat b * cs)) <$> out); try done.
  - by apply bytes_ok_substr.
  - rewrite Hlen. by apply Z.mod_mul; lia.
  - nia.
  - apply part_words.
  - by apply part_shards.
  - by apply map_fmap_mono.
  - by rewrite fmap_empty_iff.
  - by rewrite dom_fmap_L.
Qed.

End range.
