(* ===== verification/ECUtilCorrect.v ===== *)
(** * Striping and shard hashes: theorems

    An object that was written in stripes is read back from any shards that
    the code can decode, and lost shards are rebuilt as they were; the hashes
    of a shard are the checksum of all that was appended to it, and survive
    being stored; the offset arithmetic on stripes covers what it should. *)

From S2P Require Import Prelude Galois OptLrcConfigs ErasureCode Crc32c Crc32cFacts Buffer BufferFacts BufferHeap Encoding ECUtil ECUtilFacts OptLrc OptLrcFacts OptLrcCorrect.

(** ** Shard hashes *)

(** A shard map as a write produces it: all shards, with chunks of one size. *)
Definition full_write (n : nat) (m : gmap Z bytes) : Prop :=
  dom m = list_to_set (seqZ 0 (Z.of_nat n))
  ∧ ∃ size, ∀ i b, m !! i = Some b → blen b = size ∧ bytes_ok b.

(** All that was appended to a shard. *)
Definition appended (writes : list (gmap Z bytes)) (i : Z) : bytes := concat ((λ m, buf m i) <$> writes).

(** The hashes and the size follow what was appended. *)
Definition tracks (n : nat) (content : Z → bytes) (h : ECUtil.HashInfo) : Prop :=
  length (ECUtil.cumulative_shard_hashes h) = n
  ∧ ∀ i : nat, (i < n)%nat →
      ECUtil.cumulative_shard_hashes h !! i = Some (crc_bytes ECUtil.initial_hash (content (Z.of_nat i)))
      ∧ ECUtil.total_chunk_size h = u64 (blen (content (Z.of_nat i))).

Definition appends (h : ECUtil.HashInfo) (writes : list (gmap Z bytes)) : outcome ECUtil.HashInfo :=
  foldM (λ h m, ECUtil.append h (ECUtil.total_chunk_size h) m) h writes.

Section hashes.
Context (n : nat) (Hn : (0 < n)%nat) (Hn32 : Z.of_nat n < 2 ^ 32).

Lemma full_write_shard m (i : nat) : full_write n m → (i < n)%nat → ∃ b, m !! Z.of_nat i = Some b.
Proof.
  intros (Hdom & _) Hi. apply elem_of_dom. rewrite Hdom. apply elem_of_list_to_set, elem_of_seqZ_range. lia.
Qed.

Lemma append_shards_spec h content m size :
  tracks n content h → full_write n m → (∀ i b, m !! i = Some b → blen b = size) →
  ∃ hashes, ECUtil.append_shards size h m
      = Ret (ECUtil.mkHashInfo (ECUtil.total_chunk_size h) hashes (ECUtil.projected_total_chunk_size h))
    ∧ length hashes = n
    ∧ ∀ i : nat, (i < n)%nat → hashes !! i = Some (crc_bytes ECUtil.initial_hash (content (Z.of_nat i) ++ buf m (Z.of_nat i))).
Proof.
  intros (Hlen & Ht) (Hdom & _) Hsize. unfold ECUtil.append_shards.
  match goal with |- context [foldM ?f h ?l] => set (body := f); set (ids := l) end.
  destruct (foldM_inv body (λ l h', ECUtil.total_chunk_size h' = ECUtil.total_chunk_size h
      ∧ ECUtil.projected_total_chunk_size h' = ECUtil.projected_total_chunk_size h
      ∧ length (ECUtil.cumulative_shard_hashes h') = n
      ∧ ∀ i : nat, (i < n)%nat → ECUtil.cumulative_shard_hashes h' !! i
          = Some (crc_bytes ECUtil.initial_hash (content (Z.of_nat i) ++ if bool_decide (Z.of_nat i ∈ l) then buf m (Z.of_nat i) else [])))
    ids h) as (h' & -> & Ht' & Hp' & Hlen' & Hh').
  - split_and!; [done..|]. intros i Hi. rewrite bool_decide_false by set_solver. rewrite app_nil_r. by apply Ht.
  - intros l1 i l2 h1 Hl (Ht1 & Hp1 & Hlen1 & Hh1). assert (i ∈ ids) as Hi by (rewrite Hl; set_solver).
    assert (NoDup (l1 ++ i :: l2)) as Hnd by (rewrite <-Hl; apply NoDup_ascending).
    apply elem_of_ascending in Hi. pose proof Hi as [b Hb]%elem_of_dom. rewrite Hdom, elem_of_list_to_set, elem_of_seqZ_range in Hi.
    assert (i ∉ l1) as Hi1 by (apply NoDup_app in Hnd as (_ & Hnd & _); intros Hx; apply (Hnd _ Hx); left).
    unfold body, ECUtil.shard_slot. rewrite (bool_decide_true (size = _)) by (unfold buf; rewrite Hb; symmetry; by apply (Hsize i)).
    cbn [assert_that mbind outcome_bind]. rewrite u32_small by lia. rewrite bool_decide_true by lia. cbn [assert_that mbind outcome_bind].
    rewrite Hh1 by lia. cbn [need mbind outcome_bind]. eexists. split; [reflexivity|]. cbn. split_and!; [done|done|by rewrite length_insert|].
    intros j Hj. destruct (decide (j = Z.to_nat i)) as [->|Hne].
    + rewrite list_lookup_insert_eq by lia. rewrite !Z2Nat.id by lia.
      rewrite (bool_decide_false (i ∈ l1)), (bool_decide_true (i ∈ l1 ++ [i])) by set_solver. by rewrite app_nil_r, crc_bytes_app.
    + rewrite list_lookup_insert_ne, Hh1 by done. rewrite (bool_decide_ext (Z.of_nat j ∈ l1 ++ [i]) (Z.of_nat j ∈ l1)); [done|].
      rewrite elem_of_app, list_elem_of_singleton. split; [|by left]. intros [?|?]; [done|lia].
  - exists (ECUtil.cumulative_shard_hashes h'). split; [f_equal; destruct h'; cbn in *; congruence|]. split; [done|].
    intros i Hi. rewrite Hh' by done. rewrite bool_decide_true; [done|]. apply elem_of_ascending. rewrite Hdom.
    apply elem_of_list_to_set, elem_of_seqZ_range. lia.
Qed.

Lemma append_tracks h content m :
  tracks n content h → full_write n m →
  ∃ h', ECUtil.append h (ECUtil.total_chunk_size h) m = Ret h' ∧ tracks n (λ i, content i ++ buf m i) h'
    ∧ ECUtil.projected_total_chunk_size h' = ECUtil.projected_total_chunk_size h.
Proof.
  intros Hh Hm. pose proof Hm as (Hdom & size & Hsize). pose proof Hh as (Hlen & Ht).
  assert (m ≠ ∅) as Hne. { intros ->. destruct (full_write_shard _ 0%nat Hm Hn) as (b & Hb). by rewrite lookup_empty in Hb. }
  destruct (map_first_Some m Hne) as (i0 & b0 & Hf & Hb0). destruct (Hsize i0 b0 Hb0) as [Hs0 _].
  destruct (append_shards_spec h content m size) as (hashes & Hap & Hlen' & Hhash); [done|done|intros i b Hb; by apply (Hsize i)|].
  unfold ECUtil.append. rewrite (bool_decide_true (ECUtil.total_chunk_size h = _)) by done. cbn [assert_that mbind outcome_bind]. rewrite Hf.
  cbn [need mbind outcome_bind]. rewrite Hs0. unfold ECUtil.has_chunk_hash. rewrite (bool_decide_true (_ ≠ [])).
  2:{ intros E. rewrite E in Hlen. cbn in Hlen. lia. }
  rewrite bool_decide_true.
  2:{ rewrite Hlen, <-size_dom, Hdom, size_list_to_set by apply NoDup_seqZ. rewrite length_seqZ. lia. }
  cbn [assert_that mbind outcome_bind]. rewrite Hap. cbn [mbind outcome_bind].
  eexists. split; [reflexivity|]. split; [|done]. split; [done|]. intros i Hi. cbn. split; [by apply Hhash|].
  destruct (Ht i Hi) as (_ & ->). rewrite blen_app. destruct (full_write_shard m i Hm Hi) as (b & Hb).
  unfold buf at 1. rewrite Hb. destruct (Hsize _ _ Hb) as [<- _]. cbn. unfold u64. by rewrite Zplus_mod_idemp_l.
Qed.

Lemma appends_tracks writes h content :
  tracks n content h → Forall (full_write n) writes →
  ∃ h', appends h writes = Ret h' ∧ tracks n (λ i, content i ++ appended writes i) h'
    ∧ ECUtil.projected_total_chunk_size h' = ECUtil.projected_total_chunk_size h.
Proof.
  intros Hh Hw. revert h content Hh. induction Hw as [|m writes Hm Hw IH]; intros h content Hh.
  - exists h. split; [done|]. split; [|done]. destruct Hh as (Hlen & Hh). split; [done|]. intros i Hi.
    unfold appended. cbn. rewrite app_nil_r. by apply Hh.
  - destruct (append_tracks h content m Hh Hm) as (h1 & Hap & Hh1 & Hp1). destruct (IH h1 _ Hh1) as (h2 & Haps & Hh2 & Hp2).
    exists h2. split_and!; [|..|by rewrite Hp2].
    + unfold appends in *. cbn [foldM]. rewrite Hap. exact Haps.
    + destruct Hh2 as (Hlen2 & Hh2). split; [done|]. intros i Hi. destruct (Hh2 i Hi) as (-> & ->).
      unfold appended. cbn. by rewrite <-app_assoc.
Qed.

Lemma new_tracks : tracks n (λ _, []) (ECUtil.new_hash_info n).
Proof.
  split; [cbn; by rewrite length_replicate|]. intros i Hi. cbn. split; [by apply lookup_replicate_2|done].
Qed.

Lemma appended_bytes_ok writes (i : nat) : Forall (full_write n) writes → (i < n)%nat → bytes_ok (appended writes (Z.of_nat i)).
Proof.
  intros Hw Hi. unfold appended. induction Hw as [|m writes Hm Hw IH]; [constructor|]. cbn. apply Forall_app. split; [|done].
  destruct (full_write_shard m i Hm Hi) as (b & Hb). unfold buf. rewrite Hb. destruct Hm as (_ & size & Hs). by apply (Hs (Z.of_nat i)).
Qed.

End hashes.

(** ** Storing the hashes *)

Lemma blen_hash_members total hashes :
  blen (Encoding.encode ECUtil.hash_info_members (total, hashes)) = 12 + 4 * Z.of_nat (length hashes).
Proof.
  cbn [ECUtil.hash_info_members Encoding.pair_enc Encoding.list_enc Encoding.encode fst snd].
  unfold Encoding.u64_enc, Encoding.u32_enc. rewrite !blen_app, !Encoding.blen_uint.
  assert (blen (Encoding.encode_all (Encoding.uint 4) hashes) = 4 * Z.of_nat (length hashes)) as ->; [|lia].
  unfold Encoding.encode_all. induction hashes as [|x l IH]; [done|]. cbn [fmap list_fmap concat length].
  rewrite blen_app, Encoding.blen_uint, IH. lia.
Qed.

Lemma hash_info_roundtrip h :
  0 ≤ ECUtil.total_chunk_size h < 2 ^ 64 → Z.of_nat (length (ECUtil.cumulative_shard_hashes h)) < 2 ^ 29 →
  Forall (λ c, 0 ≤ c < 2 ^ 32) (ECUtil.cumulative_shard_hashes h) →
  let enc := ECUtil.encode_hash_info h [] in
  ECUtil.decode_hash_info enc 0
  = Ret (ECUtil.mkHashInfo (ECUtil.total_chunk_size h) (ECUtil.cumulative_shard_hashes h) (ECUtil.total_chunk_size h), blen enc).
Proof.
  intros Htot Hlen Hall enc. set (x := (ECUtil.total_chunk_size h, ECUtil.cumulative_shard_hashes h)).
  assert (Encoding.encodable ECUtil.hash_info_members x) as Hx by (split; [done|]; split; [cbn; lia|done]).
  assert (blen (Encoding.members ECUtil.hash_info_struct h) = 12 + 4 * Z.of_nat (length (ECUtil.cumulative_shard_hashes h))) as Hb
    by apply blen_hash_members.
  assert (enc = [] ++ Encoding.envelope 1 1 (Encoding.members ECUtil.hash_info_struct h) ++ []) as ->.
  { unfold enc, ECUtil.encode_hash_info. rewrite Encoding.encode_struct_envelope by lia. by rewrite app_nil_r. }
  unfold ECUtil.decode_hash_info. change 0 with (blen []) at 1.
  rewrite (Encoding.decode_struct_spec ECUtil.hash_info_struct 1 1 _
    (ECUtil.mkHashInfo (ECUtil.total_chunk_size h) (ECUtil.cumulative_shard_hashes h) (ECUtil.total_chunk_size h))
    (blen (Encoding.members ECUtil.hash_info_struct h)));
    [by rewrite app_nil_r|done|done|done|change (blen []) with 0; lia|unfold blen; lia|].
  intros pre suf. cbn [ECUtil.hash_info_struct Encoding.read_members Encoding.members].
  rewrite (Encoding.decode_then ECUtil.hash_info_members) by (exact Hx). unfold mret, Encoding.reader_ret. by rewrite blen_app.
Qed.

(** C25. Shard hashes. Whatever is appended to the shards of an object, write
    after write, the hash of a shard is the crc32c of all its bytes, from -1,
    and the recorded size is theirs modulo 2^64; stored as an attribute and
    read again the record is the same, with the projected size reset to the
    recorded one. *)
Theorem shard_hashes (n : nat) (writes : list (gmap Z bytes)) :
  (0 < n)%nat → Z.of_nat n < 2 ^ 29 → Forall (full_write n) writes →
  ∃ h, appends (ECUtil.new_hash_info n) writes = Ret h
    ∧ (∀ i, 0 ≤ i < Z.of_nat n →
         ECUtil.get_chunk_hash h i = Ret (crc_bytes ECUtil.initial_hash (appended writes i))
         ∧ ECUtil.total_chunk_size h = u64 (blen (appended writes i)))
    ∧ ECUtil.decode_hash_info (ECUtil.encode_hash_info h []) 0
      = Ret (ECUtil.mkHashInfo (ECUtil.total_chunk_size h) (ECUtil.cumulative_shard_hashes h) (ECUtil.total_chunk_size h),
             blen (ECUtil.encode_hash_info h [])).
Proof.
  intros Hn Hn29 Hw. destruct (appends_tracks n Hn ltac:(lia) writes _ _ (new_tracks n) Hw) as (h & Hap & (Hlen & Hh) & _).
  exists h. split; [done|]. split.
  - intros i Hi. destruct (Hh (Z.to_nat i)) as [Hi1 Hi2]; [lia|]. rewrite Z2Nat.id in * by lia. split; [|done].
    unfold ECUtil.get_chunk_hash, ECUtil.shard_slot. rewrite u32_small, Hlen by lia. rewrite bool_decide_true by lia.
    cbn [assert_that mbind outcome_bind]. by rewrite Hi1.
  - apply hash_info_roundtrip; [|by rewrite Hlen|].
    + destruct (Hh 0%nat Hn) as (_ & ->). apply u64_range.
    + apply Forall_lookup. intros i c Hc. pose proof (lookup_lt_Some _ _ _ Hc) as Hi. rewrite Hlen in Hi.
      destruct (Hh i Hi) as (Hci & _). rewrite Hci in Hc. injection Hc as <-.
      apply crc_bytes_range; [done|]. by apply (appended_bytes_ok n).
Qed.

(** ** Offsets *)

Section offsets.
Context (sinfo : ECUtil.stripe_info_t).
#[local] Abbreviation sw := (ECUtil.stripe_width sinfo).
#[local] Abbreviation cs := (ECUtil.chunk_size sinfo).
Context (Hsw : 0 < sw) (Hcs : 0 < cs ≤ sw).

Lemma stripe_bounds_spec off len :
  0 ≤ off → 0 ≤ len → off + len + sw ≤ 2 ^ 64 →
  ∃ o l, ECUtil.offset_len_to_stripe_bounds sinfo (off, len) = Ret (o, l)
    ∧ 0 ≤ o ∧ 0 ≤ l ∧ o mod sw = 0 ∧ l mod sw = 0
    ∧ off - sw < o ≤ off ∧ off + len ≤ o + l < off + len + sw.
Proof.
  intros Hoff Hlen Hmax. unfold ECUtil.offset_len_to_stripe_bounds, ECUtil.logical_to_prev_stripe_offset,
    ECUtil.logical_to_next_stripe_offset, ECUtil.mod_u64. rewrite !(bool_decide_false (sw = 0)) by lia.
  cbn [mbind outcome_bind fst snd]. pose proof (Z.mod_pos_bound off sw Hsw). pose proof (Z.div_mod off sw ltac:(lia)) as Hdm.
  assert (off - off mod sw = off / sw * sw) as Ho by lia. assert (0 ≤ off / sw * sw) by (pose proof (Z.div_pos off sw); nia).
  rewrite Ho, (u64_small (off / sw * sw)) by lia. replace (off - off / sw * sw) with (off mod sw) by lia.
  rewrite (u64_small (off mod sw)), (u64_small (off mod sw + len)) by lia.
  set (x := off mod sw + len). pose proof (Z.mod_pos_bound x sw Hsw). pose proof (Z.div_mod x sw ltac:(lia)) as Hdx.
  assert (x - x mod sw = x / sw * sw) as Hx by lia. assert (0 ≤ x / sw * sw) by (pose proof (Z.div_pos x sw); unfold x in *; nia).
  exists (off / sw * sw). assert (off / sw * sw mod sw = 0) as Hom by (apply Z.mod_mul; lia).
  case_bool_decide as Hr; eexists; (split; [reflexivity|]).
  - rewrite Hx, u64_small by (unfold x in *; lia). replace (x / sw * sw + sw) with ((x / sw + 1) * sw) by lia.
    assert ((x / sw + 1) * sw mod sw = 0) by (apply Z.mod_mul; lia). unfold x in *. split_and!; lia.
  - split_and!; try (unfold x in *; lia).
Qed.

Lemma to_chunk_spec o l :
  0 ≤ o < 2 ^ 64 → 0 ≤ l < 2 ^ 64 → o mod sw = 0 → l mod sw = 0 →
  ECUtil.aligned_offset_len_to_chunk sinfo (o, l) = Ret (o / sw * cs, l / sw * cs)
  ∧ ECUtil.aligned_chunk_offset_to_logical_offset sinfo (o / sw * cs) = Ret o.
Proof.
  intros Ho Hl Hom Hlm. unfold ECUtil.aligned_offset_len_to_chunk, ECUtil.aligned_logical_offset_to_chunk_offset,
    ECUtil.aligned_chunk_offset_to_logical_offset, ECUtil.mod_u64, ECUtil.div_u64.
  rewrite !(bool_decide_false (sw = 0)), !(bool_decide_false (cs = 0)) by lia. cbn [mbind outcome_bind fst snd].
  rewrite Hom, Hlm, Z.mod_mul, !(bool_decide_true (0 = 0)) by lia. cbn [assert_that mbind outcome_bind].
  rewrite Z.div_mul by lia. pose proof (Z.div_mod o sw ltac:(lia)). pose proof (Z.div_mod l sw ltac:(lia)).
  assert (0 ≤ o / sw) by (apply Z.div_pos; lia). assert (0 ≤ l / sw) by (apply Z.div_pos; lia).
  rewrite (u64_small (o / sw * cs)), (u64_small (l / sw * cs)), u64_small by nia. split; [done|]. f_equal. lia.
Qed.

End offsets.

(** ** Objects in stripes *)

Section striping.
Context `{HA : Allocator} `{HAS : !AllocatorSpec} (c : Codec) (max_len : Z) (sizes : nat → Prop).
Context (codeword : nat → gmap Z bytes → Prop) (recoverable : gset Z → gset Z → Prop).
Context `{HC : !CodecSpec c max_len sizes codeword recoverable}.
Context (sinfo : ECUtil.stripe_info_t).
#[local] Abbreviation sw := (ECUtil.stripe_width sinfo).
#[local] Abbreviation cs := (ECUtil.chunk_size sinfo).

(** The stripes of a pool suit its plugin. *)
Definition stripes_suit : Prop :=
  sw = get_data_chunk_count c * cs ∧ 0 < cs ∧ get_chunk_size c sw = Ret cs ∧ sw ≤ max_len.

Lemma encoded_shards input ws out :
  0 < cs → 0 < sw → blen input mod sw = 0 →
  Forall2 (stripe_word c codeword sinfo input) (ECUtil.steps (blen input) sw) ws → shards_of c ws out →
  dom out = if bool_decide (input = []) then ∅ else all_chunks c.
Proof.
  intros Hcs Hsw Hmult Hws Hout. pose proof (Forall2_length _ _ _ Hws) as Hl.
  assert (0 ≤ blen input / sw) by (apply Z.div_pos; unfold blen; lia). rewrite length_steps in Hl by done.
  pose proof (Z.div_mod (blen input) sw ltac:(lia)) as Hdm.
  assert (ws = [] ↔ input = []) as Hempty.
  { split; [intros ->|intros ->].
    - cbn in Hl. apply nil_length_inv. unfold blen in *. nia.
    - apply nil_length_inv. by rewrite <-Hl. }
  apply set_eq. intros j. rewrite elem_of_dom, Hout. case_bool_decide as Hj; case_bool_decide as Hi; [naive_solver|naive_solver| |].
  - split; [by intros []|set_solver].
  - split; [by intros []|]. intros Hin. destruct Hj. naive_solver.
Qed.

(** C18. Striping. An object that is a whole number of stripes is encoded to
    all shards (to none if it is empty), and from any shards that the code can decode [decode] gives the object back,
    or any set of shards exactly as they were written. *)
Theorem striping_roundtrip input :
  stripes_suit → bytes_ok input → blen input mod sw = 0 → blen input < 2 ^ 32 →
  ∃ out, ECUtil.encode sinfo c input (all_chunks c) ∅ = Ret (0, out)
    ∧ dom out = (if bool_decide (input = []) then ∅ else all_chunks c)
    ∧ ∀ chunks, chunks ⊆ out → chunks ≠ ∅ →
        (data_positions c ⊆ dom chunks ∨ recoverable (dom chunks) (data_positions c) →
           ECUtil.decode_concat sinfo c chunks [] = Ret (0, input))
        ∧ ∀ wanted lost, wanted ⊆ all_chunks c → dom lost = wanted → (∀ i, i ∈ wanted → lost !! i = Some []) →
            wanted ⊆ dom chunks ∨ recoverable (dom chunks) wanted →
            ∃ rebuilt, ECUtil.decode sinfo c chunks lost = Ret (0, rebuilt)
              ∧ dom rebuilt = wanted ∧ ∀ i, i ∈ wanted → rebuilt !! i = out !! i.
Proof.
  intros (Hsw & Hcs & Hsize & Hmax) Hin Hmult H32.
  destruct (ec_encode_spec c max_len sizes codeword recoverable sinfo) with (input := input) as (out & ws & Henc & Hws & Hout); [done..|].
  exists out. split; [done|]. split; [eapply encoded_shards; [done|pose proof (codec_counts (c:=c)); nia|done..]|]. intros chunks Hsub Hne. split.
  - intros Hrec. by apply (ec_decode_concat_spec c max_len sizes codeword recoverable) with (ws := ws) (out := out).
  - intros wanted lost Hwant Hdom Hempty Hrec.
    destruct (ec_decode_spec c max_len sizes codeword recoverable sinfo) with (input := input) (ws := ws) (out := out)
      (chunks := chunks) (wanted := wanted) (m := lost) as (m & Hdec & Hdm & Hm); [done..|].
    exists m. split_and!; [done|done|]. intros i Hi. rewrite Hm by done. rewrite Hout. rewrite bool_decide_true; [done|].
    split; [set_solver|]. intros ->. apply Hne, map_empty. intros j. apply (lookup_weaken_None _ out); [|done].
    rewrite Hout. by rewrite bool_decide_false by naive_solver.
Qed.

(** C24. Reading a range. The stripes that [offset_len_to_stripe_bounds] and
    [aligned_offset_len_to_chunk] choose for a range of the object are enough:
    these parts of any shards that the code can decode give the stripes, and
    within them the bytes of the range. *)
Theorem range_read input off len out chunks :
  stripes_suit → bytes_ok input → blen input mod sw = 0 → blen input < 2 ^ 32 →
  0 ≤ off → 0 < len → off + len ≤ blen input →
  ECUtil.encode sinfo c input (all_chunks c) ∅ = Ret (0, out) → chunks ⊆ out → chunks ≠ ∅ →
  data_positions c ⊆ dom chunks ∨ recoverable (dom chunks) (data_positions c) →
  ∃ o l co cl data, ECUtil.offset_len_to_stripe_bounds sinfo (off, len) = Ret (o, l)
    ∧ ECUtil.aligned_offset_len_to_chunk sinfo (o, l) = Ret (co, cl)
    ∧ ECUtil.decode_concat sinfo c ((λ b, substr b co cl) <$> chunks) [] = Ret (0, data)
    ∧ substr data (off - o) len = substr input off len.
Proof.
  intros (Hsw & Hcs & Hsize & Hmax) Hin Hmult H32 Hoff Hlen Hend Henc Hsub Hne Hrec.
  destruct (ec_encode_spec c max_len sizes codeword recoverable sinfo) with (input := input) as (out' & ws & Henc' & Hws & Hout); [done..|].
  rewrite Henc in Henc'. injection Henc' as <-. pose proof (codec_counts (c:=c)). assert (0 < cs ≤ sw) as Hcs' by nia.
  assert (0 < sw ≤ max_len) as Hlen' by lia. pose proof (codec_chunk_size (c := c) sw Hlen') as (bs & Hbs & _ & Hb32 & _).
  rewrite Hsize in Hbs. injection Hbs as <-.
  destruct (stripe_bounds_spec sinfo ltac:(lia) Hcs' off len) as (o & l & Hb & Ho & Hl & Hom & Hlm & Hlo & Hhi); [lia..|].
  destruct (to_chunk_spec sinfo ltac:(lia) Hcs' o l) as (Hc & _); [lia|lia|done|done|].
  assert (o = o / sw * sw) as Eo by (pose proof (Z.div_mod o sw ltac:(lia)); lia).
  assert (l = l / sw * sw) as El by (pose proof (Z.div_mod l sw ltac:(lia)); lia).
  assert (blen input = blen input / sw * sw) as Ei by (pose proof (Z.div_mod (blen input) sw ltac:(lia)); lia).
  assert (0 ≤ o / sw) by (apply Z.div_pos; lia). assert (0 < l / sw) by nia.
  eexists o, l, _, _, _. split; [done|]. split; [done|].
  assert (o / sw + l / sw ≤ blen input / sw) by nia. split.
  - pose proof (part_decode c max_len sizes codeword recoverable sinfo Hsw Hcs Hsize Hmax input Hin Hmult ws Hws
      (Z.to_nat (o / sw)) (Z.to_nat (l / sw))) as Hpart. rewrite Nat2Z.inj_add, !Z2Nat.id in Hpart by lia.
    by apply (Hpart ltac:(lia) ltac:(nia) out).
  - rewrite <-Eo, <-El. rewrite substr_substr by lia. f_equal. lia.
Qed.

End striping.

(** ** Witnesses *)

(** Two writes of two shards. *)
Lemma shard_hashes_witness :
  let writes := [ {[0 := [1; 2]; 1 := [3; 4]]}; {[0 := [5]; 1 := [6]]} ] in
  ∃ h, appends (ECUtil.new_hash_info 2) writes = Ret h
    ∧ ECUtil.get_chunk_hash h 1 = Ret (crc_bytes ECUtil.initial_hash [3; 4; 6])
    ∧ ECUtil.total_chunk_size h = 3.
Proof.
  intros writes. destruct (shard_hashes 2 writes) as (h & Hap & Hh & _); [lia|lia| |].
  - apply Forall_cons. split; [|apply Forall_singleton].
    + split; [by vm_compute|]. exists 2. intros i b Hb. rewrite lookup_insert_Some, lookup_singleton_Some in Hb.
      destruct Hb as [(<- & <-)|(_ & <- & <-)]; (split; [reflexivity|]); repeat (constructor; [unfold byte_ok; lia|]); constructor.
    + split; [by vm_compute|]. exists 1. intros i b Hb. rewrite lookup_insert_Some, lookup_singleton_Some in Hb.
      destruct Hb as [(<- & <-)|(_ & <- & <-)]; (split; [reflexivity|]); repeat (constructor; [unfold byte_ok; lia|]); constructor.
  - exists h. split; [exact Hap|]. destruct (Hh 1) as (H1 & H2); [lia|]. split; [exact H1|]. rewrite H2. reflexivity.
Defined.

(** The Optimal-LRC plugin with (9, 4, 2) and stripes of 512 bytes. *)
Definition sinfo942 : ECUtil.stripe_info_t := ECUtil.mkStripeInfo 512 128.
Definition object942 : bytes := (λ i, i mod 251) <$> seqZ 0 1024.

Lemma object942_ok : bytes_ok object942.
Proof. apply Forall_fmap, Forall_forall. intros i _. unfold byte_ok. cbn. pose proof (Z.mod_pos_bound i 251). lia. Qed.

Lemma sinfo942_suits : stripes_suit (OptLrc.codec s942) MAX_OBJECT sinfo942.
Proof. split_and!; by vm_compute. Qed.

(** Of every group one chunk is lost. *)
Definition lost942 : gset Z := {[0; 4; 8]}.

Lemma recoverable942 wanted :
  wanted ⊆ all_chunks (OptLrc.codec s942) → recoverable s942 (all_chunks (OptLrc.codec s942) ∖ lost942) wanted.
Proof.
  apply one_per_group_recoverable. intros i j Hi Hj Hs. unfold lost942 in *. set_unfold.
  destruct_or!; subst; try done; vm_compute in Hs; congruence.
Qed.

Lemma data_positions942 : data_positions (OptLrc.codec s942) ⊆ all_chunks (OptLrc.codec s942).
Proof. by apply (bool_decide_unpack _); vm_compute. Qed.

Lemma dom_survivors out : dom out = all_chunks (OptLrc.codec s942) →
  dom (select (all_chunks (OptLrc.codec s942) ∖ lost942) out) = all_chunks (OptLrc.codec s942) ∖ lost942.
Proof. intros Hd. apply dom_select. rewrite Hd. set_solver. Qed.

Lemma striping_roundtrip_witness :
  ∃ out, ECUtil.encode sinfo942 (OptLrc.codec s942) object942 (all_chunks (OptLrc.codec s942)) ∅ = Ret (0, out)
    ∧ let rest := select (all_chunks (OptLrc.codec s942) ∖ lost942) out in
      ECUtil.decode_concat sinfo942 (OptLrc.codec s942) rest [] = Ret (0, object942)
      ∧ ∃ m, ECUtil.decode sinfo942 (OptLrc.codec s942) rest {[4 := []]} = Ret (0, m) ∧ m !! 4 = out !! 4.
Proof.
  pose proof (OptLrcFacts.codec_spec s942 optlrc_9_4_2 s942_ok) as Hspec.
  destruct (striping_roundtrip (OptLrc.codec s942) MAX_OBJECT _ _ _ sinfo942 object942)
    as (out & Henc & Hd & Hdec); [apply sinfo942_suits|apply object942_ok|by vm_compute|by vm_compute|].
  exists out. split; [exact Henc|]. intros rest. pose proof (dom_survivors out Hd) as Hr. fold rest in Hr.
  destruct (Hdec rest) as (Hc & Hm); [apply select_subseteq| |].
  { intros E. rewrite E in Hr. assert (1 ∈ (∅ : gset Z)) as H1; [|set_solver].
    rewrite <-(dom_empty_L (D := gset Z) (A := bytes)), Hr. by apply (bool_decide_unpack _); vm_compute. }
  split; [apply Hc; right; rewrite Hr; apply recoverable942, data_positions942|].
  destruct (Hm {[4]} {[4 := []]}) as (m & Hdm & _ & Hlook).
  - by apply (bool_decide_unpack _); vm_compute.
  - apply dom_singleton_L.
  - intros i ->%elem_of_singleton. apply lookup_singleton_eq.
  - right. rewrite Hr. apply recoverable942. by apply (bool_decide_unpack _); vm_compute.
  - exists m. split; [exact Hdm|]. apply Hlook. set_solver.
Defined.

(** Bytes 700 to 710 of the object. *)
Lemma range_read_witness :
  ∃ out data, ECUtil.encode sinfo942 (OptLrc.codec s942) object942 (all_chunks (OptLrc.codec s942)) ∅ = Ret (0, out)
    ∧ ECUtil.decode_concat sinfo942 (OptLrc.codec s942)
        ((λ b, substr b 128 128) <$> select (all_chunks (OptLrc.codec s942) ∖ lost942) out) [] = Ret (0, data)
    ∧ substr data 188 10 = substr object942 700 10.
Proof.
  pose proof (OptLrcFacts.codec_spec s942 optlrc_9_4_2 s942_ok) as Hspec.
  assert (∃ out, ECUtil.encode sinfo942 (OptLrc.codec s942) object942 (all_chunks (OptLrc.codec s942)) ∅ = Ret (0, out)
    ∧ dom out = all_chunks (OptLrc.codec s942)) as (out & Henc & Hd).
  { destruct (ec_encode_spec (OptLrc.codec s942) MAX_OBJECT _ _ _ sinfo942) with (input := object942) as (out & ws & Henc & Hws & Hout);
      [apply sinfo942_suits..|apply object942_ok|by vm_compute|by vm_compute|].
    exists out. split; [exact Henc|]. rewrite (encoded_shards _ _ _ _ _ sinfo942 object942 ws out); [|by vm_compute..|exact Hws|exact Hout].
    rewrite bool_decide_false; [reflexivity|]. intros E%(f_equal length). discriminate E. }
  destruct (range_read (OptLrc.codec s942) MAX_OBJECT _ _ _ sinfo942 object942 700 10 out
    (select (all_chunks (OptLrc.codec s942) ∖ lost942) out)) as (o & l & co & cl & data & Hb & Hc & Hdec & Hsub);
    [apply sinfo942_suits|apply object942_ok|by vm_compute|by vm_compute|lia|lia|by vm_compute|exact Henc|apply select_subseteq| | |].
  - intros E. pose proof (dom_survivors out Hd) as Hr. rewrite E in Hr. assert (1 ∈ (∅ : gset Z)) as H1; [|set_solver].
    rewrite <-(dom_empty_L (D := gset Z) (A := bytes)), Hr. by apply (bool_decide_unpack _); vm_compute.
  - right. rewrite (dom_survivors out Hd). apply recoverable942, data_positions942.
  - vm_compute in Hb. injection Hb as <- <-. vm_compute in Hc. injection Hc as <- <-.
    exists out, data. split; [exact Henc|]. split; [exact Hdec|]. exact Hsub.
Defined.
