(* ===== verification/OptLrcInit.v ===== *)
(** * The Optimal-LRC plugin: profile and CRUSH rule

    [init], [parse_nkr], [parse], [parse_ruleset] and [create_ruleset] of
    src/src/erasure-code/optlrc/ErasureCodeOptLrc.cc, and the factory of
    ErasureCodePluginOptLrc.cc. *)

From stdpp Require Import pretty.
From S2P Require Import Prelude Strtol StrMap Galois OptLrcConfigs ErasureCode CrushRules Ruleset OptLrc OptLrcFacts OptLrcCorrect.

Module OptLrcInit.

(** The object: the members the coder reads, the ruleset and [_profile]. *)
Record object := mkObject {
  coder : OptLrc.t;
  ruleset : Ruleset;
  profile_ : Profile;
}.

Definition DEFAULT_N : string := "9".
Definition DEFAULT_K : string := "4".
Definition DEFAULT_R : string := "2".

(** The constructor; [ruleset_root] is an empty string. *)
Definition fresh : object := {|
  coder := OptLrc.mk 0 0 0 [] [];
  ruleset := mkRuleset "" [mkRulesetStep "chooseleaf" "host" 0];
  profile_ := ∅;
|}.

(** The result of a method that changes the object and the profile. *)
Record result := mkResult { r_err : Z; r_object : object; r_profile : Profile }.

Definition nkr_steps (profile : Profile) (n r : Z) (rs : Ruleset) : outcome Ruleset :=
  let ruleset_locality := default "" (profile !! "ruleset-locality") in
  let ruleset_failure_domain := default "host" (profile !! "ruleset-failure-domain") in
  if bool_decide (r + 1 = 0) then Abort DivByZero else
  let local_group_count := n `quot` (r + 1) in
  Ret (if bool_decide (ruleset_locality ≠ "") then
         mkRuleset (ruleset_root rs)
           [mkRulesetStep "choose" ruleset_locality local_group_count;
            mkRulesetStep "chooseleaf" ruleset_failure_domain (r + 1)]
       else if bool_decide (ruleset_failure_domain ≠ "") then
         mkRuleset (ruleset_root rs) [mkRulesetStep "chooseleaf" ruleset_failure_domain 0]
       else rs).

Definition parse_nkr (o : object) (profile : Profile) : outcome result :=
  let pn := to_int "n" profile DEFAULT_N in
  let pk := to_int "k" (p_profile pn) DEFAULT_K in
  let pr := to_int "r" (p_profile pk) DEFAULT_R in
  let profile := p_profile pr in
  let n := p_value pn in
  let err := err_or (err_or (err_or 0 (p_err pn)) (p_err pk)) (p_err pr) in
  let chunk_mapping := OptLrc.base_mapping (coder o) in
  let bad := bool_decide (chunk_mapping ≠ []
                          ∧ Z.of_nat (length chunk_mapping) ≠ n) in
  let chunk_mapping := if bad then [] else chunk_mapping in
  let err := if bad then - EINVAL else err in
  match profile !! "mapping" with
  | None =>
      Ret (mkResult ERROR_LRC_MAPPING
        (mkObject (OptLrc.mk n (p_value pk) (p_value pr) (OptLrc.mapping (coder o))
           chunk_mapping) (ruleset o) (profile_ o)) profile)
  | Some mapstr =>
      let mapping := OptLrc.mapping (coder o) ++ mapping_positions mapstr in
      rs ← nkr_steps profile n (p_value pr) (ruleset o);
      Ret (mkResult err
        (mkObject (OptLrc.mk n (p_value pk) (p_value pr) mapping chunk_mapping)
           rs (profile_ o)) profile)
  end.

Definition with_base_mapping (c : OptLrc.t) (m : list Z) : OptLrc.t :=
  OptLrc.mk (OptLrc.n c) (OptLrc.k c) (OptLrc.r c) (OptLrc.mapping c) m.

Definition parse `{JsonReader} (o : object) (profile : Profile) : outcome result :=
  let '(err, chunk_mapping) :=
    ErasureCode.parse profile (OptLrc.base_mapping (coder o)) in
  let o := mkObject (with_base_mapping (coder o) chunk_mapping) (ruleset o) (profile_ o) in
  let err := err_or err (sanity_check_k (OptLrc.k (coder o))) in
  if bool_decide (err ≠ 0) then Ret (mkResult err o profile) else
  '(err, rs, profile) ← parse_ruleset (ruleset o) profile;
  Ret (mkResult err (mkObject (coder o) rs (profile_ o)) profile).

Definition init `{JsonReader} (o : object) (profile : Profile) : outcome result :=
  r1 ← parse_nkr o profile;
  if bool_decide (r_err r1 ≠ 0) then Ret r1 else
  r2 ← parse (r_object r1) (r_profile r1);
  let err := err_or (r_err r1) (r_err r2) in
  if bool_decide (err ≠ 0) then Ret (mkResult err (r_object r2) (r_profile r2)) else
  let o := r_object r2 in
  Ret (mkResult err (mkObject (coder o) (ruleset o) (r_profile r2)) (r_profile r2)).

Definition create_ruleset (o : object) (name : string) (crush : CrushWrapper)
    : outcome (Z * CrushWrapper) :=
  Ruleset.create_ruleset (ruleset o) (OptLrc.n (coder o)) name crush.

(** [factory]: the object on success, and the profile with its defaults. *)
Definition factory `{JsonReader} (profile : Profile)
    : outcome (Z * option object * Profile) :=
  r ← init fresh profile;
  Ret (if bool_decide (r_err r ≠ 0) then (r_err r, None, r_profile r)
       else (0, Some (r_object r), r_profile r)).

(** ** From a profile to a sound plugin *)

(** The mapping string with a [D] where a test holds. *)
Fixpoint flags_string (l : list bool) : string :=
  match l with
  | [] => ""
  | b :: l => String (if b then "D"%char else "_"%char) (flags_string l)
  end.

Lemma positions_flags (p : ascii → bool) (f : Z → bool) (len : nat) a :
  positions p (flags_string (f <$> seqZ a (Z.of_nat len))) a
  = filter (λ i, p (if f i then "D"%char else "_"%char) = true) (seqZ a (Z.of_nat len)).
Proof.
  revert a. induction len as [|len IH]; intros a; [done|].
  rewrite seqZ_cons by lia. replace (Z.pred (Z.of_nat (S len))) with (Z.of_nat len) by lia.
  rewrite fmap_cons, filter_cons. cbn [flags_string positions].
  rewrite <-Z.add_1_r, IH. by destruct (p _).
Qed.

Definition mapping_string (n : Z) (g : OptLRC) : string :=
  flags_string ((λ i, is_unit_row (config_row g i)) <$> seqZ 0 n).

Lemma mapping_positions_natural n g :
  0 ≤ n → mapping_positions (mapping_string n g) = natural_mapping n g.
Proof.
  intros Hn. unfold mapping_positions, mapping_string, natural_mapping.
  rewrite <-(Z2Nat.id n) by done. rewrite !positions_flags.
  f_equal; apply list_filter_iff; intros i; by destruct (is_unit_row _).
Qed.

(** A profile that asks for (n, k, r) with the mapping of its matrix. *)
Definition nkr_profile (n k r : Z) (g : OptLRC) : Profile :=
  {["n" := pretty n; "k" := pretty k; "r" := pretty r; "mapping" := mapping_string n g]}.

Lemma configs_bounds n k r g :
  configs n k r = Ret g → 0 ≤ n < MAX_CHUNKS ∧ 2 ≤ k < MAX_DATA_CHUNKS
    ∧ 0 < r < MAX_LOCALITY_CHUNKS.
Proof.
  intros Hin%configs_inv. unfold config_entries in Hin.
  repeat (apply elem_of_cons in Hin as [[= -> -> -> _]|Hin]; [done|]).
  by apply elem_of_nil in Hin.
Qed.

Lemma parse_nkr_natural n k r g :
  configs n k r = Ret g →
  parse_nkr fresh (nkr_profile n k r g)
  = Ret (mkResult 0 (mkObject (OptLrc.mk n k r (natural_mapping n g) [])
      (ruleset fresh) ∅) (nkr_profile n k r g)).
Proof.
  intros Hg. pose proof (configs_bounds n k r g Hg) as (Hn & Hk & Hr).
  unfold MAX_CHUNKS, MAX_DATA_CHUNKS, MAX_LOCALITY_CHUNKS in *.
  unfold parse_nkr. set (p := nkr_profile n k r g).
  rewrite (to_int_pretty "n" p n) by (done || unfold INT_MIN, INT_MAX; lia).
  cbn [p_profile p_value p_err].
  rewrite (to_int_pretty "k" p k) by (done || unfold INT_MIN, INT_MAX; lia).
  cbn [p_profile p_value p_err].
  rewrite (to_int_pretty "r" p r) by (done || unfold INT_MIN, INT_MAX; lia).
  cbn [p_profile p_value p_err].
  assert (p !! "mapping" = Some (mapping_string n g)) as -> by done.
  unfold nkr_steps.
  assert (p !! "ruleset-locality" = None) as -> by done.
  assert (p !! "ruleset-failure-domain" = None) as -> by done.
  rewrite (bool_decide_false (r + 1 = 0)) by lia.
  rewrite mapping_positions_natural by lia. done.
Qed.

(** From the profile to the coder: for every (n, k, r) with a built-in
    matrix, [init] of a new plugin accepts the profile with these parameters
    and the mapping string of the matrix, stores the profile, and leaves the
    coder with that mapping; by [configs_sound] and [optlrc_roundtrip] it then
    encodes and repairs correctly unless (n, k, r) is (17, 12, 6). *)
Theorem init_natural `{JsonReader} n k r g :
  configs n k r = Ret g →
  ∃ o profile, init fresh (nkr_profile n k r g) = Ret (mkResult 0 o profile)
    ∧ coder o = natural n k r g ∧ profile_ o = profile.
Proof.
  intros Hg. pose proof (configs_bounds n k r g Hg) as (Hn & Hk & Hr).
  unfold MAX_CHUNKS in *. unfold init. rewrite (parse_nkr_natural n k r g Hg).
  set (p := nkr_profile n k r g). cbn [mbind outcome_bind r_err r_object r_profile].
  rewrite bool_decide_false by tauto.
  unfold parse, ErasureCode.parse, to_mapping.
  assert (p !! "mapping" = Some (mapping_string n g)) as -> by done.
  rewrite mapping_positions_natural by lia.
  cbn [coder ruleset profile_ OptLrc.base_mapping OptLrc.k with_base_mapping app].
  unfold sanity_check_k. rewrite (bool_decide_false (k < 2)) by lia.
  rewrite (bool_decide_false (err_or 0 0 ≠ 0)) by tauto.
  unfold parse_ruleset.
  assert (p_profile (to_string "ruleset-root" p "default") !! "ruleset-steps" = None)
    as -> by done.
  cbn [mbind outcome_bind r_err r_object r_profile]. rewrite bool_decide_false by tauto.
  eexists _, _. split; [done|]. done.
Qed.

(** A reader that refuses every text. *)
Definition null_reader : JsonReader := {| read_or_throw _ := None |}.

Lemma init_natural_witness :
  ∃ o profile, @init null_reader fresh (nkr_profile 9 4 2 optlrc_9_4_2)
      = Ret (mkResult 0 o profile)
    ∧ coder o = natural 9 4 2 optlrc_9_4_2 ∧ profile_ o = profile.
Proof.
  apply (@init_natural null_reader 9 4 2 optlrc_9_4_2). vm_compute. reflexivity.
Defined.

(** ** What [init] lets through *)

Definition text_profile (n k r mapping : string) : Profile :=
  {["n" := n; "k" := k; "r" := r; "mapping" := mapping]}.

(** What becomes of encoding [sample] with the plugin that [init] made. *)
Definition encode_after_init `{JsonReader} (profile : Profile) : outcome (Z * gmap Z bytes) :=
  res ← init fresh profile;
  if bool_decide (r_err res ≠ 0) then Ret (r_err res, ∅)
  else encode (OptLrc.codec (coder (r_object res)))
         (list_to_set (seqZ 0 (OptLrc.n (coder (r_object res))))) sample ∅.

(** [parse_nkr] compares the length of the mapping with [n] before the
    mapping has been read, so that [init] accepts a mapping of any length;
    encoding with a shorter one then uses uninitialised chunk pointers. *)
Theorem short_mapping_accepted `{JsonReader} :
  (∃ o profile, init fresh (text_profile "9" "4" "2" "DDDD") = Ret (mkResult 0 o profile))
  ∧ encode_after_init (text_profile "9" "4" "2" "DDDD") = Abort Uninitialised.
Proof. split; [eexists _, _; vm_compute; reflexivity|vm_compute; reflexivity]. Qed.

(** [init] does not look the parameters up in the table of matrices: it
    accepts (8, 4, 2), for which there is none, and encoding then follows a
    pointer that was never set; with [r = -1] [init] itself divides by zero. *)
Theorem unknown_parameters_accepted `{JsonReader} :
  (∃ o profile, init fresh (text_profile "8" "4" "2" "DD_DD___") = Ret (mkResult 0 o profile))
  ∧ encode_after_init (text_profile "8" "4" "2" "DD_DD___") = Abort Uninitialised
  ∧ init fresh (text_profile "9" "4" "-1" "DD_DD____") = Abort DivByZero.
Proof.
  split_and!; [eexists _, _; vm_compute; reflexivity|vm_compute; reflexivity..].
Qed.

End OptLrcInit.
