(* ===== verification/XorOp.v ===== *)
(** * Region XOR of the ISA plugin

    src/src/erasure-code/isa/xor_op.{h,cc}. A region is a block of memory: its
    address, which decides between the byte, vector and SSE2 routines, and the
    bytes it holds; the regions do not overlap. Each routine takes the destination's bytes and returns the
    new ones. The theorem of the file is that all the paths of [region_xor]
    compute the same bytewise XOR. *)

From S2P Require Import Prelude.

Definition EC_ISA_ADDRESS_ALIGNMENT : Z := 32.
Definition EC_ISA_VECTOR_SSE2_WORDSIZE : Z := 64.
Definition EC_ISA_VECTOR_OP_WORDSIZE : Z := 16.

Record region := mkRegion {
  address : Z;
  contents : bytes;
}.

Definition is_aligned (pointer byte_count : Z) : bool :=
  bool_decide (pointer mod byte_count = 0).

(** [*dw++ ^= *cw++] while [cw] has not reached its end. *)
Fixpoint byte_xor (cw dw : bytes) : outcome bytes :=
  match cw, dw with
  | [], _ => Ret dw
  | c :: cw, d :: dw => dw ← byte_xor cw dw; Ret (Z.lxor d c :: dw)
  | _ :: _, [] => Abort OutOfBounds
  end.

(** The same loop in steps of one vector; [words] is the distance between
    [cw] and [ew]. *)
Fixpoint vector_loop (words : nat) (cw dw : bytes) : outcome bytes :=
  match words with
  | O => Ret dw
  | S words =>
      let size := Z.to_nat EC_ISA_VECTOR_OP_WORDSIZE in
      if bool_decide (length cw < size ∨ length dw < size)%nat then Abort OutOfBounds else
      rest ← vector_loop words (drop size cw) (drop size dw);
      Ret (take size dw ⊻ take size cw ++ rest)
  end.

Definition vector_xor (cw : region) (dw : region) (ew : Z) : outcome bytes :=
  _ ← assert_that (is_aligned (address cw) EC_ISA_VECTOR_OP_WORDSIZE);
  _ ← assert_that (is_aligned (address dw) EC_ISA_VECTOR_OP_WORDSIZE);
  _ ← assert_that (is_aligned ew EC_ISA_VECTOR_OP_WORDSIZE);
  vector_loop (Z.to_nat ((ew - address cw) / EC_ISA_VECTOR_OP_WORDSIZE))
    (contents cw) (contents dw).

(** [movdqa (vbuf[d][i]), xmm]: 16 bytes of memory into a register. The
    instruction faults at an address that is not a multiple of 16. *)
Definition movdqa (r : region) (i : Z) : outcome bytes :=
  if negb (is_aligned (address r + i) EC_ISA_VECTOR_OP_WORDSIZE) then Abort Undefined else
  if bool_decide (i + EC_ISA_VECTOR_OP_WORDSIZE ≤ blen (contents r)) then
    Ret (substr (contents r) i EC_ISA_VECTOR_OP_WORDSIZE)
  else Abort OutOfBounds.

(** [movntdq xmm, (p[i])]: a register into memory, with the same fault. *)
Definition movntdq (p : region) (i : Z) (xmm : bytes) : outcome region :=
  if negb (is_aligned (address p + i) EC_ISA_VECTOR_OP_WORDSIZE) then Abort Undefined else
  if bool_decide (i + EC_ISA_VECTOR_OP_WORDSIZE ≤ blen (contents p)) then
    Ret (mkRegion (address p) (take (Z.to_nat i) (contents p) ++ xmm
      ++ drop (Z.to_nat (i + EC_ISA_VECTOR_OP_WORDSIZE)) (contents p)))
  else Abort OutOfBounds.

(** The four registers xmm0-3, or xmm4-7. *)
Definition load_xmm (r : region) (i : Z) : outcome (bytes * bytes * bytes * bytes) :=
  x0 ← movdqa r i; x1 ← movdqa r (i + 16); x2 ← movdqa r (i + 32); x3 ← movdqa r (i + 48);
  Ret (x0, x1, x2, x3).

Definition pxor (a b : bytes * bytes * bytes * bytes) : bytes * bytes * bytes * bytes :=
  let '(a0, a1, a2, a3) := a in let '(b0, b1, b2, b3) := b in (a0 ⊻ b0, a1 ⊻ b1, a2 ⊻ b2, a3 ⊻ b3).

(** One iteration of the SSE2 loop: the 64 bytes at [i] of the sources,
    combined in the registers xmm0-3. *)
Definition sse2_block (vbuf : list region) (i : Z) : outcome (bytes * bytes * bytes * bytes) :=
  first ← need OutOfBounds (head vbuf);
  xmm ← load_xmm first i;
  foldM (λ xmm r, x ← load_xmm r i; Ret (pxor xmm x)) xmm (tail vbuf).

Definition region_sse2_xor (src : list region) (parity : region) (size : Z) : outcome bytes :=
  _ ← assert_that (bool_decide (size mod EC_ISA_VECTOR_SSE2_WORDSIZE = 0));
  if bool_decide (256 < length src)%nat then Abort OutOfBounds else
  p ← foldM (λ p i,
      '(x0, x1, x2, x3) ← sse2_block src i;
      p ← movntdq p i x0; p ← movntdq p (i + 16) x1; p ← movntdq p (i + 32) x2; movntdq p (i + 48) x3)
    parity ((λ b, b * EC_ISA_VECTOR_SSE2_WORDSIZE)
            <$> seqZ 0 (size / EC_ISA_VECTOR_SSE2_WORDSIZE));
  Ret (contents p).

(** The part that is left over for [byte_xor]: [parity + size - size_left]. *)
Definition xor_rest (src : list region) (parity : bytes) (size size_left : Z)
    : outcome bytes :=
  let off := Z.to_nat (size - size_left) in
  first ← need OutOfBounds (head src);
  rest ← memcpy (drop off parity) (drop off (contents first)) size_left;
  rest ← foldM (λ rest s,
      if bool_decide (size ≤ blen (contents s)) then
        byte_xor (substr (contents s) (size - size_left) size_left) rest
      else Abort OutOfBounds) rest (tail src);
  Ret (take off parity ++ rest).

(** [region_xor (src, parity, src_size, size)]: the new contents of [parity].
    [ceph_arch_intel_sse2] tells whether the processor has SSE2. *)
Definition region_xor (ceph_arch_intel_sse2 : bool) (src : list region)
    (parity : region) (size : Z) : outcome bytes :=
  if bool_decide (size = 0) then Ret (contents parity) else
  match src with
  | [] => Ret (contents parity)
  | [s] => memcpy (contents parity) (contents s) size
  | first :: others =>
      let src_aligned :=
        forallb (λ s, is_aligned (address s) EC_ISA_VECTOR_OP_WORDSIZE) src in
      '(size_left, p) ←
        (if src_aligned && is_aligned (address parity) EC_ISA_VECTOR_OP_WORDSIZE then
           if ceph_arch_intel_sse2 then
             let region_size :=
               size / EC_ISA_VECTOR_SSE2_WORDSIZE * EC_ISA_VECTOR_SSE2_WORDSIZE in
             p ← region_sse2_xor src parity region_size;
             Ret (size - region_size, p)
           else
             let vector_words := size / EC_ISA_VECTOR_OP_WORDSIZE in
             let vector_size := vector_words * EC_ISA_VECTOR_OP_WORDSIZE in
             p ← memcpy (contents parity) (contents first) vector_size;
             p ← foldM (λ p s,
                 vector_xor s (mkRegion (address parity) p)
                   (address s + vector_words * EC_ISA_VECTOR_OP_WORDSIZE)) p others;
             Ret (size - vector_size, p)
         else Ret (size, contents parity));
      if bool_decide (size_left = 0) then Ret p else xor_rest src p size size_left
  end.

(** ** What the routines compute *)

Lemma byte_xor_spec cw dw :
  (length cw ≤ length dw)%nat →
  byte_xor cw dw = Ret (cw ⊻ take (length cw) dw ++ drop (length cw) dw).
Proof.
  revert dw. induction cw as [|c cw IH]; intros [|d dw] Hl; simpl in *; try lia; try done.
  rewrite IH by lia. simpl. do 2 f_equal. by rewrite Z.lxor_comm.
Qed.

Lemma xor_bytes_app a1 a2 b1 b2 :
  length a1 = length b1 → (a1 ++ a2) ⊻ (b1 ++ b2) = a1 ⊻ b1 ++ a2 ⊻ b2.
Proof. apply zip_with_app. Qed.

Lemma take_xor n a b : take n (a ⊻ b) = take n a ⊻ take n b.
Proof. apply zip_with_take. Qed.
Lemma drop_xor n a b : drop n (a ⊻ b) = drop n a ⊻ drop n b.
Proof. apply zip_with_drop. Qed.

Lemma vector_loop_spec words cw dw :
  (words * 16 ≤ length cw)%nat → (words * 16 ≤ length dw)%nat →
  vector_loop words cw dw
  = Ret (take (words * 16) cw ⊻ take (words * 16) dw ++ drop (words * 16) dw).
Proof.
  revert cw dw. induction words as [|words IH]; intros cw dw Hc Hd; [done|].
  cbn [vector_loop]. change (Z.to_nat EC_ISA_VECTOR_OP_WORDSIZE) with 16%nat.
  rewrite bool_decide_false by lia. rewrite IH by (rewrite length_drop; lia).
  cbn [mbind outcome_bind]. f_equal. rewrite app_assoc, drop_drop. f_equal.
  rewrite xor_bytes_comm, <-xor_bytes_app by (rewrite !length_take; lia).
  by rewrite !take_take_drop.
Qed.

Lemma xor_all_snoc n l b :
  Forall (λ b, length b = n) l → length b = n → xor_all n (l ++ [b]) = b ⊻ xor_all n l.
Proof.
  intros Hl Hb. rewrite xor_all_app by (done || by apply Forall_singleton).
  by rewrite xor_all_singleton, xor_bytes_comm by done.
Qed.

Section xor.
Context (size : nat).

(** Sources that hold at least [size] bytes. *)
Definition long (l : list bytes) : Prop := Forall (λ b, size ≤ length b)%nat l.

Lemma long_snoc l b : long (l ++ [b]) ↔ long l ∧ (size ≤ length b)%nat.
Proof. unfold long. by rewrite Forall_app, Forall_singleton. Qed.

(** The XOR of the bytes [off, off + n) of the sources. *)
Definition xor_part (off n : nat) (l : list bytes) : bytes :=
  xor_all n ((λ b, take n (drop off b)) <$> l).

Lemma part_lengths off n l :
  (off + n ≤ size)%nat → long l →
  Forall (λ b, length b = n) ((λ b, take n (drop off b)) <$> l).
Proof.
  intros Hn Hl. apply Forall_fmap. eapply Forall_impl; [exact Hl|]. intros b Hb. simpl in Hb |- *.
  rewrite length_take, length_drop. lia.
Qed.

Lemma length_xor_part off n l :
  (off + n ≤ size)%nat → long l → length (xor_part off n l) = n.
Proof. intros. by apply length_xor_all, part_lengths. Qed.

Lemma xor_part_snoc off n l b :
  (off + n ≤ size)%nat → long (l ++ [b]) →
  xor_part off n (l ++ [b]) = take n (drop off b) ⊻ xor_part off n l.
Proof.
  intros Hn [Hl Hb]%long_snoc. unfold xor_part. rewrite fmap_app. simpl.
  apply xor_all_snoc; [by apply part_lengths|]. rewrite length_take, length_drop. lia.
Qed.

Lemma xor_part_singleton off n b :
  (off + n ≤ size)%nat → (size ≤ length b)%nat → xor_part off n [b] = take n (drop off b).
Proof. intros. apply xor_all_singleton. rewrite length_take, length_drop. lia. Qed.

(** Adjacent parts join. *)
Lemma xor_part_app off n1 n2 l :
  (off + n1 + n2 ≤ size)%nat → long l →
  xor_part off n1 l ++ xor_part (off + n1) n2 l = xor_part off (n1 + n2) l.
Proof.
  intros Hn. induction l as [|b l IH] using rev_ind; intros Hl.
  - unfold xor_part. simpl. unfold xor_all, zeros. simpl. by rewrite replicate_add.
  - rewrite !xor_part_snoc by (done || lia). apply long_snoc in Hl as [Hl Hb].
    rewrite <-IH by done. rewrite <-xor_bytes_app.
    + f_equal. by rewrite <-drop_drop, take_take_drop.
    + rewrite length_take, length_drop, length_xor_part by (done || lia). lia.
Qed.

(** Joining a source to the first [n] bytes of the destination. *)
Lemma vector_xor_spec words s p src :
  (words * 16 ≤ size)%nat → long (src ++ [contents s]) →
  is_aligned (address s) 16 = true → is_aligned (address p) 16 = true →
  (words * 16 ≤ length (contents p))%nat →
  take (words * 16) (contents p) = xor_part 0 (words * 16) src →
  vector_xor s p (address s + Z.of_nat words * 16)
  = Ret (xor_part 0 (words * 16) (src ++ [contents s]) ++ drop (words * 16) (contents p)).
Proof.
  intros Hw Hl Ha Hp Hlen Hx. unfold vector_xor, EC_ISA_VECTOR_OP_WORDSIZE.
  rewrite Ha, Hp. unfold is_aligned in *. apply bool_decide_eq_true in Ha.
  rewrite bool_decide_true by (rewrite Z_mod_plus_full; done). simpl.
  replace (address s + Z.of_nat words * 16 - address s) with (Z.of_nat words * 16) by lia.
  rewrite Z.div_mul, Nat2Z.id by done. rewrite xor_part_snoc, <-Hx, drop_0 by (done || lia).
  apply vector_loop_spec; [|done]. apply long_snoc in Hl as [_ Hb]. lia.
Qed.

Lemma vector_sum_spec words first others parity_addr parity :
  (words * 16 ≤ size)%nat → long (contents <$> first :: others) → (size ≤ length parity)%nat →
  Forall (λ s, is_aligned (address s) 16 = true) (first :: others) →
  is_aligned parity_addr 16 = true →
  foldM (λ p s, vector_xor s (mkRegion parity_addr p) (address s + Z.of_nat words * 16))
    (take (words * 16) (contents first) ++ drop (words * 16) parity) others
  = Ret (xor_part 0 (words * 16) (contents <$> first :: others) ++ drop (words * 16) parity).
Proof.
  intros Hw Hl Hp Hal Hpal.
  edestruct (foldM_inv (λ p s, vector_xor s (mkRegion parity_addr p) (address s + Z.of_nat words * 16))
    (λ l p, p = xor_part 0 (words * 16) (contents <$> first :: l) ++ drop (words * 16) parity)
    others (take (words * 16) (contents first) ++ drop (words * 16) parity))
    as (p & -> & ->); [| |done].
  - apply Forall_cons in Hl as [Hf _]. cbn [fmap list_fmap].
    by rewrite xor_part_singleton, drop_0 by (done || lia).
  - intros l1 s l2 p -> ->. assert (long (contents <$> first :: l1) ∧ long (contents <$> first :: l1 ++ [s]))
      as [Hl1 Hl1s].
    { unfold long in *. rewrite !fmap_cons, !fmap_app in *. rewrite !Forall_cons, !Forall_app in *.
      simpl in *. rewrite Forall_cons in Hl. rewrite Forall_singleton. tauto. }
    apply Forall_cons in Hal as [_ Hal]. apply Forall_app in Hal as [_ [Has _]%Forall_cons].
    pose proof (length_xor_part 0 (words * 16) _ ltac:(lia) Hl1) as Hlen.
    eexists. split; [apply (vector_xor_spec words s _ (contents <$> first :: l1))|]; cbn [contents]; try done.
    + by rewrite app_comm_cons, fmap_app in Hl1s.
    + rewrite length_app, Hlen. lia.
    + by rewrite take_app_length' by done.
    + rewrite drop_app_length' by done. by rewrite app_comm_cons, fmap_app.
Qed.

(** ** The SSE2 loop *)

Lemma aligned_at a i : is_aligned a 16 = true → is_aligned (a + Z.of_nat (i * 16)) 16 = true.
Proof.
  unfold is_aligned. rewrite !bool_decide_eq_true. intros Ha. rewrite Nat2Z.inj_mul.
  by rewrite Z_mod_plus_full.
Qed.

Lemma movdqa_spec r i :
  is_aligned (address r) 16 = true → (i * 16 + 16 ≤ length (contents r))%nat →
  movdqa r (Z.of_nat (i * 16)) = Ret (take 16 (drop (i * 16) (contents r))).
Proof.
  intros Ha Hl. unfold movdqa, EC_ISA_VECTOR_OP_WORDSIZE. rewrite aligned_at by done. cbn [negb].
  rewrite bool_decide_true by (unfold blen; lia). unfold substr. by rewrite Nat2Z.id.
Qed.

Lemma movntdq_spec a x rest xmm i :
  is_aligned a 16 = true → length x = (i * 16)%nat → (16 ≤ length rest)%nat →
  movntdq (mkRegion a (x ++ rest)) (Z.of_nat (i * 16)) xmm = Ret (mkRegion a ((x ++ xmm) ++ drop 16 rest)).
Proof.
  intros Ha Hx Hr. unfold movntdq, EC_ISA_VECTOR_OP_WORDSIZE. cbn [address contents].
  rewrite aligned_at by done. cbn [negb]. rewrite bool_decide_true by (unfold blen; rewrite length_app; lia).
  rewrite Nat2Z.id. replace (Z.to_nat (Z.of_nat (i * 16) + 16)) with (length x + 16)%nat by lia.
  rewrite <-Hx, take_app_length, drop_app_add. by rewrite <-app_assoc.
Qed.

(** The four registers hold consecutive parts. *)
Definition parts (i : nat) (l : list bytes) : bytes * bytes * bytes * bytes :=
  (xor_part (i * 16) 16 l, xor_part ((i + 1) * 16) 16 l, xor_part ((i + 2) * 16) 16 l, xor_part ((i + 3) * 16) 16 l).

Definition aligned_regions (l : list region) : Prop := Forall (λ r, is_aligned (address r) 16 = true) l.

Lemma load_xmm_spec r i :
  is_aligned (address r) 16 = true → (i * 16 + 64 ≤ length (contents r))%nat →
  load_xmm r (Z.of_nat (i * 16))
  = Ret (take 16 (drop (i * 16) (contents r)), take 16 (drop ((i + 1) * 16) (contents r)),
         take 16 (drop ((i + 2) * 16) (contents r)), take 16 (drop ((i + 3) * 16) (contents r))).
Proof.
  intros Ha Hl. unfold load_xmm.
  replace (Z.of_nat (i * 16) + 16) with (Z.of_nat ((i + 1) * 16)) by lia.
  replace (Z.of_nat (i * 16) + 32) with (Z.of_nat ((i + 2) * 16)) by lia.
  replace (Z.of_nat (i * 16) + 48) with (Z.of_nat ((i + 3) * 16)) by lia.
  by rewrite !movdqa_spec by (done || lia).
Qed.

Lemma sse2_block_spec src i :
  src ≠ [] → long (contents <$> src) → aligned_regions src → (i * 16 + 64 ≤ size)%nat →
  sse2_block src (Z.of_nat (i * 16)) = Ret (parts i (contents <$> src)).
Proof.
  intros Hne Hl Ha Hi. destruct src as [|first others]; [done|]. unfold sse2_block.
  cbn [head hd_error tail need mbind outcome_bind].
  pose proof Hl as [Hf _]%Forall_cons. pose proof Ha as [Haf _]%Forall_cons.
  rewrite load_xmm_spec by (done || lia). cbn [mbind outcome_bind].
  edestruct (foldM_inv (λ xmm r, x ← load_xmm r (Z.of_nat (i * 16)); Ret (pxor xmm x))
      (λ l xmm, xmm = parts i (contents <$> first :: l)) others) as (x & -> & ->); [| |done].
  - unfold parts. cbn [fmap list_fmap]. by rewrite !xor_part_singleton by (done || lia).
  - intros l1 r l2 x -> ->.
    assert (long ((contents <$> first :: l1) ++ [contents r])) as Hl1.
    { unfold long in *. rewrite fmap_cons, fmap_app in Hl. rewrite fmap_cons. cbn in *.
      rewrite !Forall_cons, !Forall_app in *. rewrite Forall_cons in Hl. rewrite Forall_singleton. tauto. }
    assert (is_aligned (address r) 16 = true) as Har by (apply (proj1 (Forall_forall _ _) Ha r); set_solver).
    pose proof Hl1 as [_ Hr]%long_snoc. rewrite load_xmm_spec by (done || lia).
    eexists. split; [done|]. unfold parts, pxor. rewrite app_comm_cons, fmap_app.
    change (contents <$> [r]) with [contents r].
    rewrite !(xor_part_snoc _ _ (contents <$> first :: l1) (contents r)) by (done || lia).
    by rewrite !(xor_bytes_comm (take 16 _)).
Qed.

(** The four stores. *)
Lemma store_parts a i x rest src :
  is_aligned a 16 = true → length x = (i * 16)%nat → (64 ≤ length rest)%nat → long src → (i * 16 + 64 ≤ size)%nat →
  (let '(x0, x1, x2, x3) := parts i src in
   p ← movntdq (mkRegion a (x ++ rest)) (Z.of_nat (i * 16)) x0;
   p ← movntdq p (Z.of_nat (i * 16) + 16) x1; p ← movntdq p (Z.of_nat (i * 16) + 32) x2;
   movntdq p (Z.of_nat (i * 16) + 48) x3)
  = Ret (mkRegion a ((x ++ xor_part (i * 16) 64 src) ++ drop 64 rest)).
Proof.
  intros Ha Hx Hr Hl Hi. unfold parts.
  replace (Z.of_nat (i * 16) + 16) with (Z.of_nat ((i + 1) * 16)) by lia.
  replace (Z.of_nat (i * 16) + 32) with (Z.of_nat ((i + 2) * 16)) by lia.
  replace (Z.of_nat (i * 16) + 48) with (Z.of_nat ((i + 3) * 16)) by lia.
  assert (∀ o, (o + 16 ≤ size)%nat → length (xor_part o 16 src) = 16%nat) as Hlen by (intros; by apply length_xor_part).
  rewrite movntdq_spec by (done || lia). cbn [mbind outcome_bind].
  rewrite movntdq_spec; [|done|rewrite length_app, Hlen; lia|rewrite length_drop; lia]. cbn [mbind outcome_bind].
  rewrite movntdq_spec; [|done|rewrite !length_app, !Hlen; lia|rewrite !length_drop; lia]. cbn [mbind outcome_bind].
  rewrite movntdq_spec; [|done|rewrite !length_app, !Hlen; lia|rewrite !length_drop; lia].
  rewrite !drop_drop, <-!app_assoc. do 3 f_equal. rewrite !app_assoc. f_equal.
  replace ((i + 1) * 16)%nat with (i * 16 + 16)%nat by lia. replace ((i + 2) * 16)%nat with (i * 16 + 32)%nat by lia.
  replace ((i + 3) * 16)%nat with (i * 16 + 48)%nat by lia.
  rewrite xor_part_app by (done || lia). rewrite xor_part_app by (done || lia). by rewrite xor_part_app by (done || lia).
Qed.

Lemma region_sse2_xor_spec src parity blocks :
  src ≠ [] → (length src ≤ 256)%nat → long (contents <$> src) → aligned_regions src → is_aligned (address parity) 16 = true →
  (blocks * 64 ≤ size)%nat → (size ≤ length (contents parity))%nat →
  region_sse2_xor src parity (Z.of_nat (blocks * 64))
  = Ret (xor_part 0 (blocks * 64) (contents <$> src) ++ drop (blocks * 64) (contents parity)).
Proof.
  intros Hne H256 Hl Ha Hpa Hb Hp. unfold region_sse2_xor.
  replace (Z.of_nat (blocks * 64)) with (Z.of_nat blocks * EC_ISA_VECTOR_SSE2_WORDSIZE)
    by (unfold EC_ISA_VECTOR_SSE2_WORDSIZE; lia).
  rewrite Z.mod_mul, Z.div_mul, (bool_decide_true (0 = 0)) by done. cbn [assert_that mbind outcome_bind].
  rewrite bool_decide_false by lia. clear H256. set (body := λ p i, _).
  assert (foldM body parity ((λ b, b * EC_ISA_VECTOR_SSE2_WORDSIZE) <$> seqZ 0 (Z.of_nat blocks))
    = Ret (mkRegion (address parity) (xor_part 0 (blocks * 64) (contents <$> src) ++ drop (blocks * 64) (contents parity)))) as ->; [|done].
  induction blocks as [|j IH].
  { cbn. rewrite drop_0, (nil_length_inv (xor_part 0 0 _)) by (by apply length_xor_part; [lia|]). by destruct parity. }
  replace (Z.of_nat (S j)) with (Z.of_nat j + 1) by lia.
  rewrite seqZ_app_snoc, fmap_app, foldM_app, IH by lia. cbn [mbind outcome_bind fmap list_fmap foldM]. unfold body at 1.
  replace (Z.of_nat j * EC_ISA_VECTOR_SSE2_WORDSIZE) with (Z.of_nat (j * 4 * 16))
    by (unfold EC_ISA_VECTOR_SSE2_WORDSIZE; lia).
  pose proof (length_xor_part 0 (j * 64) _ ltac:(lia) Hl) as Hlen.
  rewrite sse2_block_spec by (done || lia). cbn [mbind outcome_bind].
  rewrite store_parts; [|done|rewrite Hlen; lia|rewrite length_drop; lia|done|lia]. cbn [mbind outcome_bind].
  rewrite drop_drop. replace (j * 4 * 16)%nat with (0 + j * 64)%nat by lia. rewrite xor_part_app by (done || lia).
  do 3 f_equal; f_equal; lia.
Qed.

(** ** The bytes that are left *)

Lemma xor_rest_spec src parity left :
  src ≠ [] → long (contents <$> src) → (left ≤ size)%nat → (size ≤ length parity)%nat →
  xor_rest src parity (Z.of_nat size) (Z.of_nat left)
  = Ret (take (size - left) parity ++ xor_part (size - left) left (contents <$> src)
         ++ drop size parity).
Proof.
  intros Hne Hl Hleft Hp. destruct src as [|first others]; [done|]. unfold xor_rest.
  replace (Z.to_nat (Z.of_nat size - Z.of_nat left)) with (size - left)%nat by lia.
  cbn [head hd_error tail need mbind outcome_bind].
  pose proof Hl as [Hf _]%Forall_cons. unfold memcpy.
  rewrite bool_decide_true by (unfold blen; rewrite !length_drop; lia).
  cbn [mbind outcome_bind]. rewrite Nat2Z.id, drop_drop.
  replace (size - left + left)%nat with size by lia.
  edestruct (foldM_inv (λ rest s,
      if bool_decide (Z.of_nat size ≤ blen (contents s)) then
        byte_xor (substr (contents s) (Z.of_nat size - Z.of_nat left) (Z.of_nat left)) rest
      else Abort OutOfBounds)
    (λ l rest, rest = xor_part (size - left) left (contents <$> first :: l) ++ drop size parity)
    others (take left (drop (size - left) (contents first)) ++ drop size parity))
    as (rest & -> & ->); [| |done].
  - cbn [fmap list_fmap]. by rewrite xor_part_singleton by (done || lia).
  - intros l1 s l2 rest -> ->.
    assert (long ((contents <$> first :: l1) ++ [contents s])) as Hl1.
    { unfold long in *. rewrite fmap_cons, fmap_app in Hl. rewrite fmap_cons. simpl in *.
      rewrite !Forall_cons, !Forall_app in *. rewrite Forall_cons in Hl.
      rewrite Forall_singleton. tauto. }
    pose proof Hl1 as [Hl1' Hs]%long_snoc.
    rewrite bool_decide_true by (unfold blen; lia).
    pose proof (length_xor_part (size - left) left _ ltac:(lia) Hl1') as Hlen.
    assert (substr (contents s) (Z.of_nat size - Z.of_nat left) (Z.of_nat left)
      = take left (drop (size - left) (contents s))) as ->.
    { unfold substr. rewrite Nat2Z.id. do 2 f_equal. lia. }
    assert (length (take left (drop (size - left) (contents s))) = left) as Hsl.
    { rewrite length_take, length_drop. lia. }
    rewrite byte_xor_spec by (rewrite length_app, Hsl, Hlen; lia).
    eexists. split; [done|]. rewrite Hsl, take_app_length', drop_app_length' by done.
    rewrite app_comm_cons, fmap_app.
    by rewrite (xor_part_snoc _ _ (contents <$> first :: l1) (contents s)) by (done || lia).
Qed.

End xor.

Lemma long_app_parts size (p : bytes) x v l :
  (v ≤ size)%nat → long size l →
  p = xor_part 0 v l ++ drop v x → (size ≤ length x)%nat →
  take v p ++ xor_part v (size - v) l ++ drop size p = xor_part 0 size l ++ drop size x.
Proof.
  intros Hv Hl -> Hx. pose proof (length_xor_part size 0 v l ltac:(lia) Hl) as Hlen.
  rewrite take_app_length' by done. rewrite drop_app_ge, Hlen, drop_drop by lia.
  rewrite app_assoc, (xor_part_app size 0) by (done || lia).
  by replace (v + (size - v))%nat with size by lia.
Qed.

Lemma region_xor_correct sse2 src parity size :
  src ≠ [] → (length src ≤ 256)%nat →
  Forall (λ s, size ≤ length (contents s))%nat src → (size ≤ length (contents parity))%nat →
  region_xor sse2 src parity (Z.of_nat size)
  = Ret (xor_all size ((λ s, take size (contents s)) <$> src) ++ drop size (contents parity)).
Proof.
  intros Hne H256 Hl Hp. unfold region_xor.
  assert (long size (contents <$> src)) as Hlong by (by apply Forall_fmap).
  assert (xor_all size ((λ s, take size (contents s)) <$> src) = xor_part 0 size (contents <$> src)) as ->.
  { unfold xor_part. by rewrite <-list_fmap_compose. }
  case_bool_decide as H0.
  { assert (size = 0%nat) as -> by lia. rewrite drop_0.
    by rewrite (nil_length_inv (xor_part 0 0 _)) by (by apply (length_xor_part 0)). }
  destruct src as [|first [|second others]]; [done| |].
  { apply Forall_cons in Hl as [Hl _]. unfold memcpy.
    rewrite bool_decide_true by (unfold blen; lia). simpl.
    by rewrite (xor_part_singleton size), Nat2Z.id, drop_0 by lia. }
  set (src := first :: second :: others) in *. set (rest := second :: others) in *.
  assert (∀ v p, (v ≤ size)%nat →
    p = xor_part 0 v (contents <$> src) ++ drop v (contents parity) →
    (if bool_decide (Z.of_nat size - Z.of_nat v = 0) then Ret p
     else xor_rest src p (Z.of_nat size) (Z.of_nat size - Z.of_nat v))
    = Ret (xor_part 0 size (contents <$> src) ++ drop size (contents parity))) as Hrest.
  { intros v p Hv Hpv. case_bool_decide as Hz.
    - assert (v = size) as -> by lia. by rewrite Hpv.
    - pose proof (length_xor_part size 0 v _ ltac:(lia) Hlong) as Hlen.
      replace (Z.of_nat size - Z.of_nat v) with (Z.of_nat (size - v)) by lia.
      rewrite xor_rest_spec; [|done|done|lia|].
      + replace (size - (size - v))%nat with v by lia. f_equal. by apply long_app_parts.
      + rewrite Hpv, length_app, Hlen, length_drop. lia. }
  destruct (forallb _ src && _) eqn:Hal.
  2: { cbn [mbind outcome_bind]. specialize (Hrest 0%nat (contents parity)).
       rewrite Z.sub_0_r in Hrest. apply Hrest; [lia|]. rewrite drop_0.
       by rewrite (nil_length_inv (xor_part 0 0 _)) by (apply (length_xor_part size); [lia|done]). }
  apply andb_true_iff in Hal as [Hal Hpal].
  assert (aligned_regions src) as Hregions.
  { apply Forall_forall. intros s Hs. rewrite forallb_forall in Hal. apply Hal. by apply list_elem_of_In. }
  destruct sse2.
  - set (b := (size / 64)%nat).
    assert (Z.of_nat size / EC_ISA_VECTOR_SSE2_WORDSIZE * EC_ISA_VECTOR_SSE2_WORDSIZE
      = Z.of_nat (b * 64)) as ->.
    { unfold EC_ISA_VECTOR_SSE2_WORDSIZE, b. rewrite Nat2Z.inj_mul, Nat2Z.inj_div. done. }
    pose proof (Nat.Div0.mul_div_le size 64).
    rewrite (region_sse2_xor_spec size); [|done|done|done|exact Hregions|done|lia|done].
    cbn [mbind outcome_bind]. apply Hrest; [lia|done].
  - set (b := (size / 16)%nat).
    assert (Z.of_nat size / EC_ISA_VECTOR_OP_WORDSIZE = Z.of_nat b) as ->.
    { unfold EC_ISA_VECTOR_OP_WORDSIZE, b. by rewrite Nat2Z.inj_div. }
    pose proof (Nat.Div0.mul_div_le size 16). unfold EC_ISA_VECTOR_OP_WORDSIZE in *.
    apply Forall_cons in Hl as [Hf Hl]. unfold memcpy.
    rewrite bool_decide_true by (unfold blen; lia). cbn [mbind outcome_bind].
    replace (Z.to_nat (Z.of_nat b * 16)) with (b * 16)%nat by lia.
    rewrite (vector_sum_spec size b first rest); [|lia|done|done| |done].
    + cbn [mbind outcome_bind].
      replace (Z.of_nat b * 16) with (Z.of_nat (b * 16)) by lia. apply Hrest; [lia|done].
    + exact Hregions.
Qed.

(** C39. Every path of [region_xor] computes the same thing: for at least one
    source (at most 256, the size of the pointer table of the SSE2 routine) of
    at least [size] bytes each, the first [size] bytes of [parity] become the
    bytewise XOR of the sources and the others stay, whether the processor has
    SSE2 or not, whatever the addresses of the regions are, and without a
    failed alignment assertion, an aligned load or store at another address,
    or an access outside the regions. The regions do not overlap. *)
Theorem region_xor_spec sse2 src parity size :
  src ≠ [] → (length src ≤ 256)%nat →
  Forall (λ s, size ≤ length (contents s))%nat src → (size ≤ length (contents parity))%nat →
  region_xor sse2 src parity (Z.of_nat size)
  = Ret (xor_all size ((λ s, take size (contents s)) <$> src) ++ drop size (contents parity)).
Proof. apply region_xor_correct. Qed.

Lemma region_xor_spec_witness :
  let a := replicate 65 1 in let b := replicate 66 7 in
  region_xor true [mkRegion 32 a; mkRegion 128 b] (mkRegion 256 (replicate 67 9)) 65 = Ret (replicate 65 6 ++ [9; 9])
  ∧ region_xor true [mkRegion 32 a; mkRegion 129 b] (mkRegion 256 (replicate 67 9)) 65 = Ret (replicate 65 6 ++ [9; 9]).
Proof.
  split; (etrans; [apply (region_xor_spec true [_; _] _ 65)|by vm_compute]); try done; try (cbn; lia); repeat constructor; cbn; lia.
Defined.
