(* ===== verification/IsaCache.v ===== *)
(** * The table cache of the ISA plugin

    src/src/erasure-code/isa/ErasureCodeIsaTableCache.{h,cc}. One cache is
    shared by all the codecs the plugin has made: the encoding tables and
    coefficients per (matrix, k, m), and per matrix type an LRU cache of
    decoding tables by erasure signature. Every public method holds the mutex
    for its whole duration, so that concurrent uses are sequences of the
    methods below.

    [std::list] nodes have an identity, which the map entries keep as
    iterators: a node is its number and the signature it holds. *)

From stdpp Require Import pretty.
From S2P Require Import Prelude.

Module IsaCache.

Definition decoding_tables_lru_length : Z := 2516.

Abbreviation node := (Z * string)%type.
Abbreviation lru_entry_t := (Z * bytes)%type.
Abbreviation lru_map_t := (gmap string lru_entry_t).
Abbreviation lru_list_t := (list node).

Record t := mk {
  encoding_coefficient : gmap (Z * Z * Z) (option bytes);
  encoding_table : gmap (Z * Z * Z) (option bytes);
  decoding_tables : gmap Z lru_map_t;
  decoding_tables_lru : gmap Z lru_list_t;
  next_node : Z;                  (* the identity of the next list node *)
}.

Definition empty : t := mk ∅ ∅ ∅ ∅ 0.

(** ** Encoding tables

    An entry [None] is a pointer that was allocated and set to null. The
    getters return the pointer that the entry holds. *)

Definition getEncodingTableNoLock (c : t) (matrix k m : Z) : option bytes * t :=
  match encoding_table c !! (matrix, k, m) with
  | Some p => (p, c)
  | None => (None, mk (encoding_coefficient c) (<[(matrix, k, m) := None]> (encoding_table c))
                      (decoding_tables c) (decoding_tables_lru c) (next_node c))
  end.

Definition getEncodingTable := getEncodingTableNoLock.

Definition getEncodingCoefficientNoLock (c : t) (matrix k m : Z) : option bytes * t :=
  match encoding_coefficient c !! (matrix, k, m) with
  | Some p => (p, c)
  | None => (None, mk (<[(matrix, k, m) := None]> (encoding_coefficient c)) (encoding_table c)
                      (decoding_tables c) (decoding_tables_lru c) (next_node c))
  end.

Definition getEncodingCoefficient := getEncodingCoefficientNoLock.

Definition setEncodingTable (c : t) (matrix k m : Z) (ec_in_table : bytes) : bytes * t :=
  let '(ec_out_table, c) := getEncodingTableNoLock c matrix k m in
  match ec_out_table with
  | Some table => (table, c)
  | None => (ec_in_table,
             mk (encoding_coefficient c) (<[(matrix, k, m) := Some ec_in_table]> (encoding_table c))
                (decoding_tables c) (decoding_tables_lru c) (next_node c))
  end.

Definition setEncodingCoefficient (c : t) (matrix k m : Z) (ec_in_coeff : bytes) : bytes * t :=
  let '(ec_out_coeff, c) := getEncodingCoefficientNoLock c matrix k m in
  match ec_out_coeff with
  | Some coeff => (coeff, c)
  | None => (ec_in_coeff,
             mk (<[(matrix, k, m) := Some ec_in_coeff]> (encoding_coefficient c)) (encoding_table c)
                (decoding_tables c) (decoding_tables_lru c) (next_node c))
  end.

(** ** Decoding tables *)

Definition getDecodingTableCacheSize (c : t) (matrixtype : Z) : Z :=
  match decoding_tables c !! matrixtype with
  | Some tables => Z.of_nat (size tables)
  | None => -1
  end.

(** The map and the list of a matrix type, created when missing. *)
Definition getDecodingTables (c : t) (matrix_type : Z) : lru_map_t :=
  default ∅ (decoding_tables c !! matrix_type).
Definition getDecodingTablesLru (c : t) (matrix_type : Z) : lru_list_t :=
  default [] (decoding_tables_lru c !! matrix_type).

Definition with_lru (c : t) (matrixtype : Z) (tables : lru_map_t) (lru : lru_list_t) (next : Z) : t :=
  mk (encoding_coefficient c) (encoding_table c)
     (<[matrixtype := tables]> (decoding_tables c))
     (<[matrixtype := lru]> (decoding_tables_lru c)) next.

(** The size of a decoding table of a (k, m) codec. *)
Definition table_size (k m : Z) : Z := k * (m + k) * 32.

(** [list.splice (list.begin (), list, it)]: undefined behaviour when the
    iterator is not one of the list. *)
Definition splice_front (it : Z) (lru : lru_list_t) : outcome lru_list_t :=
  moved ← need OutOfBounds (list_find (λ n : node, n.1 = it) lru);
  Ret (moved.2 :: filter (λ n : node, n.1 ≠ it) lru).

(** The new contents of [table], and whether it was found. *)
Definition getDecodingTableFromCache (c : t) (signature : string) (table : bytes)
    (matrixtype k m : Z) : outcome (bool * bytes * t) :=
  let decode_tbls_map := getDecodingTables c matrixtype in
  let decode_tbls_lru := getDecodingTablesLru c matrixtype in
  match decode_tbls_map !! signature with
  | Some (it, cached) =>
      table ← memcpy table cached (table_size k m);
      lru ← splice_front it decode_tbls_lru;
      Ret (true, table, with_lru c matrixtype decode_tbls_map lru (next_node c))
  | None =>
      Ret (false, table, with_lru c matrixtype decode_tbls_map decode_tbls_lru (next_node c))
  end.

(** [buffer::create (len)]: fresh memory, overwritten before it is read. *)
Definition create (len : Z) : bytes := zeros (Z.to_nat len).

Definition putDecodingTableToCache (c : t) (signature : string) (table : bytes)
    (matrixtype k m : Z) : outcome t :=
  let decode_tbls_map := getDecodingTables c matrixtype in
  let decode_tbls_lru := getDecodingTablesLru c matrixtype in
  let it := next_node c in
  if bool_decide (decoding_tables_lru_length ≤ Z.of_nat (length decode_tbls_lru)) then
    back ← need EmptyContainer (last decode_tbls_lru);
    let cachetable := default [] (snd <$> decode_tbls_map !! back.2) in
    let cachetable := if bool_decide (blen cachetable ≠ table_size k m)
                      then create (table_size k m) else cachetable in
    let decode_tbls_map := delete back.2 decode_tbls_map in
    let decode_tbls_lru := (it, signature) :: take (length decode_tbls_lru - 1) decode_tbls_lru in
    cachetable ← memcpy cachetable table (table_size k m);
    Ret (with_lru c matrixtype (<[signature := (it, cachetable)]> decode_tbls_map)
           decode_tbls_lru (it + 1))
  else
    let cachetable := create (table_size k m) in
    let decode_tbls_lru := (it, signature) :: decode_tbls_lru in
    cachetable ← memcpy cachetable table (table_size k m);
    Ret (with_lru c matrixtype (<[signature := (it, cachetable)]> decode_tbls_map)
           decode_tbls_lru (it + 1)).

(** ** The invariant of the LRU cache *)

(** Every node has its own number, every entry's iterator is a node of the
    list that holds its signature, the numbers are below the next one, and the
    list is within its length. *)
Record lru_ok (next : Z) (tables : lru_map_t) (lru : lru_list_t) : Prop := {
  lru_nodup : NoDup lru.*1;
  lru_live sig it b : tables !! sig = Some (it, b) → (it, sig) ∈ lru;
  lru_fresh n : n ∈ lru → n.1 < next;
  lru_length : Z.of_nat (length lru) ≤ decoding_tables_lru_length;
}.

Definition cache_ok (c : t) : Prop :=
  ∀ mt, lru_ok (next_node c) (getDecodingTables c mt) (getDecodingTablesLru c mt).

Lemma cache_ok_empty : cache_ok empty.
Proof.
  intros mt. unfold getDecodingTables, getDecodingTablesLru. simpl. rewrite !lookup_empty.
  split; simpl; [constructor| |set_solver|unfold decoding_tables_lru_length; lia].
  intros ???. by rewrite lookup_empty.
Qed.

Lemma with_lru_tables c mt tables lru next mt' :
  getDecodingTables (with_lru c mt tables lru next) mt'
  = if bool_decide (mt = mt') then tables else getDecodingTables c mt'.
Proof.
  unfold getDecodingTables. simpl. case_bool_decide; subst.
  - by rewrite lookup_insert_eq.
  - by rewrite lookup_insert_ne.
Qed.

Lemma with_lru_lru c mt tables lru next mt' :
  getDecodingTablesLru (with_lru c mt tables lru next) mt'
  = if bool_decide (mt = mt') then lru else getDecodingTablesLru c mt'.
Proof.
  unfold getDecodingTablesLru. simpl. case_bool_decide; subst.
  - by rewrite lookup_insert_eq.
  - by rewrite lookup_insert_ne.
Qed.

Lemma cache_ok_with_lru c mt tables lru next :
  cache_ok c → next_node c ≤ next → lru_ok next tables lru →
  cache_ok (with_lru c mt tables lru next).
Proof.
  intros Hc Hn Hl mt'. rewrite with_lru_tables, with_lru_lru. case_bool_decide; [done|].
  destruct (Hc mt') as [????]. split; [done|done| |done]. simpl. intros n Hin.
  by apply Z.lt_le_trans with (next_node c); [apply lru_fresh0|].
Qed.

(** Splicing a live node: the same nodes, the given one first. *)
Lemma splice_front_ok next tables lru it sig :
  lru_ok next tables lru → (it, sig) ∈ lru →
  splice_front it lru = Ret ((it, sig) :: filter (λ n : node, n.1 ≠ it) lru)
  ∧ (it, sig) :: filter (λ n : node, n.1 ≠ it) lru ≡ₚ lru.
Proof.
  intros [Hnd _ _ _] [i Hi]%list_elem_of_lookup. unfold splice_front.
  assert (∀ j n, lru !! j = Some n → n.1 = it → j = i) as Huniq.
  { intros j n Hj <-. apply (NoDup_lookup lru.*1 j i n.1); [done|..];
      rewrite list_lookup_fmap, ?Hj, ?Hi; done. }
  assert (list_find (λ n : node, n.1 = it) lru = Some (i, (it, sig))) as ->.
  { apply list_find_Some. split_and!; [done|done|]. intros j n Hj Hlt Hn.
    pose proof (Huniq j n Hj Hn). lia. }
  split; [done|].
  assert (∀ n, n ∈ take i lru ∨ n ∈ drop (S i) lru → n.1 ≠ it) as Hne.
  { intros n [(j & Hj & Hlt)%elem_of_take|[j Hj]%list_elem_of_lookup] Hn;
      rewrite ?lookup_drop in Hj; pose proof (Huniq _ n Hj Hn); lia. }
  pose proof (take_drop_middle lru i (it, sig) Hi) as Heq.
  set (l1 := take i lru) in *. set (l2 := drop (S i) lru) in *. clearbody l1 l2. subst lru.
  rewrite filter_app, filter_cons_False by (simpl; tauto).
  rewrite !filter_all by auto. by rewrite Permutation_middle.
Qed.

Lemma lru_ok_perm next tables lru lru' :
  lru' ≡ₚ lru → lru_ok next tables lru → lru_ok next tables lru'.
Proof.
  intros Hp [Hnd Hlive Hfresh Hlen]. split.
  - by rewrite Hp.
  - intros. rewrite Hp. by eapply Hlive.
  - intros n. rewrite Hp. apply Hfresh.
  - by rewrite (Permutation_length Hp).
Qed.

(** A lookup on a sound cache does not follow a dangling iterator. *)
Lemma get_ok c sig table mt k m :
  cache_ok c → 0 ≤ table_size k m ≤ blen table →
  (∀ it b, getDecodingTables c mt !! sig = Some (it, b) → blen b = table_size k m) →
  ∃ table' c',
    getDecodingTableFromCache c sig table mt k m
    = Ret (bool_decide (is_Some (getDecodingTables c mt !! sig)), table', c')
    ∧ cache_ok c' ∧ (∀ mt', getDecodingTables c' mt' = getDecodingTables c mt')
    ∧ (∀ mt', getDecodingTablesLru c' mt' ≡ₚ getDecodingTablesLru c mt')
    ∧ match getDecodingTables c mt !! sig with
      | Some (it, b) => table' = b ++ drop (Z.to_nat (table_size k m)) table
                        ∧ head (getDecodingTablesLru c' mt) = Some (it, sig)
      | None => table' = table ∧ getDecodingTablesLru c' mt = getDecodingTablesLru c mt
      end.
Proof.
  intros Hc Hsize Hlen. unfold getDecodingTableFromCache.
  destruct (getDecodingTables c mt !! sig) as [[it b]|] eqn:Hb.
  - specialize (Hlen _ _ eq_refl). unfold memcpy. rewrite bool_decide_true by lia. simpl.
    destruct (splice_front_ok _ _ _ it sig (Hc mt)) as [-> Hp]; [by eapply lru_live|].
    cbn [mbind outcome_bind]. eexists _, _. split; [|split_and!].
    + done.
    + apply cache_ok_with_lru; [done|lia|]. by eapply lru_ok_perm, (Hc mt).
    + intros mt'. rewrite with_lru_tables. by case_bool_decide; subst.
    + intros mt'. rewrite with_lru_lru. by case_bool_decide; subst.
    + rewrite take_ge by (unfold blen in *; lia). done.
    + by rewrite with_lru_lru, bool_decide_true.
  - eexists _, _. split; [|split_and!].
    + by rewrite bool_decide_false by (by intros [??]).
    + apply cache_ok_with_lru; [done|lia|]. apply Hc.
    + intros mt'. rewrite with_lru_tables. by case_bool_decide; subst.
    + intros mt'. rewrite with_lru_lru. by case_bool_decide; subst.
    + done.
    + by rewrite with_lru_lru, bool_decide_true.
Qed.

(** What [put] leaves: the new entry, the others but the evicted one. *)
Lemma put_ok c sig table mt k m :
  cache_ok c → 0 ≤ table_size k m → blen table = table_size k m →
  ∃ c' kept, putDecodingTableToCache c sig table mt k m = Ret c'
    ∧ cache_ok c'
    ∧ getDecodingTablesLru c' mt = (next_node c, sig) :: kept
    ∧ kept = (if bool_decide (decoding_tables_lru_length ≤ Z.of_nat (length (getDecodingTablesLru c mt)))
              then take (length (getDecodingTablesLru c mt) - 1) (getDecodingTablesLru c mt)
              else getDecodingTablesLru c mt)
    ∧ getDecodingTables c' mt !! sig = Some (next_node c, table)
    ∧ (∀ sig', sig' ≠ sig →
         getDecodingTables c' mt !! sig'
         = if bool_decide (decoding_tables_lru_length ≤ Z.of_nat (length (getDecodingTablesLru c mt))
                           ∧ (snd <$> last (getDecodingTablesLru c mt)) = Some sig')
           then None else getDecodingTables c mt !! sig')
    ∧ (∀ mt', mt' ≠ mt → getDecodingTables c' mt' = getDecodingTables c mt'
                       ∧ getDecodingTablesLru c' mt' = getDecodingTablesLru c mt').
Proof.
  intros Hc Hsize Hlen. unfold putDecodingTableToCache. destruct (Hc mt) as [Hnd Hlive Hfresh Hl].
  set (lru := getDecodingTablesLru c mt) in *. set (tables := getDecodingTables c mt) in *.
  assert (∀ b, blen b = table_size k m → memcpy b table (table_size k m) = Ret table) as Hcpy.
  { intros b Hb. unfold memcpy. rewrite bool_decide_true by lia.
    rewrite take_ge, drop_ge, app_nil_r by (unfold blen in *; lia). done. }
  assert (blen (create (table_size k m)) = table_size k m) as Hcr.
  { unfold blen, create. rewrite length_zeros. lia. }
  assert (∀ kept tables',
    (∀ n, n ∈ kept → n ∈ lru) → NoDup kept.*1 → Z.of_nat (length kept) < decoding_tables_lru_length →
    (∀ sig it b, tables' !! sig = Some (it, b) → (it, sig) ∈ kept) →
    lru_ok (next_node c + 1) (<[sig := (next_node c, table)]> tables') ((next_node c, sig) :: kept)) as Hok.
  { intros kept tables' Hin Hnd' Hkl Hlive'. split.
    - simpl. apply NoDup_cons. split; [|done]. intros (n & Hn & Hk)%list_elem_of_fmap.
      pose proof (Hfresh n (Hin _ Hk)). lia.
    - intros sig' it b. destruct (decide (sig' = sig)) as [->|].
      + rewrite lookup_insert_eq. intros [= <- <-]. left.
      + rewrite lookup_insert_ne by done. right. by eapply Hlive'.
    - intros n [->|Hk]%elem_of_cons; simpl; [lia|]. pose proof (Hfresh n (Hin _ Hk)). lia.
    - simpl. lia. }
  case_bool_decide as Hfull.
  - destruct (last lru) as [back|] eqn:Hback.
    2: { apply last_None in Hback. rewrite Hback in Hfull. by vm_compute in Hfull. }
    apply last_Some in Hback as [kept Hkept]. cbn [need mbind outcome_bind].
    rewrite Hcpy by (case_bool_decide; [done|lia]). cbn [mbind outcome_bind].
    assert (take (length lru - 1) lru = kept) as ->.
    { rewrite Hkept, length_app. simpl. by rewrite take_app_length' by lia. }
    rewrite Hkept, fmap_app in Hnd. apply NoDup_app in Hnd as (Hnd & Hdis & _).
    eexists _, kept. split; [done|]. split_and!.
    + apply cache_ok_with_lru; [done|lia|]. apply Hok; [|done| |].
      * intros n ?. rewrite Hkept. apply elem_of_app. by left.
      * rewrite Hkept, length_app in Hl. simpl in Hl. lia.
      * intros sig' it b [Hne Hs]%lookup_delete_Some. apply Hlive in Hs.
        rewrite Hkept in Hs. apply elem_of_app in Hs as [?|Hs]; [done|].
        apply list_elem_of_singleton in Hs. subst back. by simpl in Hne.
    + by rewrite with_lru_lru, bool_decide_true.
    + done.
    + by rewrite with_lru_tables, bool_decide_true, lookup_insert_eq.
    + intros sig' Hne. rewrite with_lru_tables, (bool_decide_true (mt = mt)), lookup_insert_ne by done.
      case_bool_decide as Hd.
      * destruct Hd as [_ [= <-]]. apply lookup_delete_eq.
      * apply lookup_delete_ne. intros <-. apply Hd. auto.
    + intros mt' Hne. by rewrite with_lru_tables, with_lru_lru, bool_decide_false.
  - rewrite Hcpy by done. cbn [mbind outcome_bind]. eexists _, lru. split; [done|]. split_and!.
    + apply cache_ok_with_lru; [done|lia|]. apply Hok; [done|done|lia|done].
    + by rewrite with_lru_lru, bool_decide_true.
    + done.
    + by rewrite with_lru_tables, bool_decide_true, lookup_insert_eq.
    + intros sig' Hne. rewrite with_lru_tables, (bool_decide_true (mt = mt)), lookup_insert_ne by done.
      by rewrite bool_decide_false by tauto.
    + intros mt' Hne. by rewrite with_lru_tables, with_lru_lru, bool_decide_false.
Qed.

(** ** Sequences of operations *)

(** The calls of the threads that share the cache, in the order in which they
    took the mutex. *)
Inductive op :=
  | Get (signature : string) (table : bytes) (matrixtype k m : Z)
  | Put (signature : string) (table : bytes) (matrixtype k m : Z).

Definition op_signature (o : op) : string := match o with Get s _ _ _ _ | Put s _ _ _ _ => s end.
Definition op_matrix (o : op) : Z := match o with Get _ _ mt _ _ | Put _ _ mt _ _ => mt end.

Definition do_op (c : t) (o : op) : outcome t :=
  match o with
  | Get sig table mt k m => '(_, _, c) ← getDecodingTableFromCache c sig table mt k m; Ret c
  | Put sig table mt k m => putDecodingTableToCache c sig table mt k m
  end.

(** Codecs that agree on the size of the table of each signature. *)
Section sequences.
Context (size_of : Z → string → Z) (Hpos : ∀ mt sig, 0 ≤ size_of mt sig).

Definition op_sized (o : op) : Prop :=
  match o with
  | Get sig table mt k m | Put sig table mt k m =>
      table_size k m = size_of mt sig ∧ blen table = size_of mt sig
  end.

Definition sized (c : t) : Prop :=
  ∀ mt sig it b, getDecodingTables c mt !! sig = Some (it, b) → blen b = size_of mt sig.

Lemma do_op_ok c o :
  cache_ok c → sized c → op_sized o → ∃ c', do_op c o = Ret c' ∧ cache_ok c' ∧ sized c'.
Proof.
  intros Hc Hs Ho. destruct o as [sig table mt k m|sig table mt k m]; destruct Ho as [Hk Hl]; simpl.
  - destruct (get_ok c sig table mt k m) as (table' & c' & -> & Hc' & Ht & _ & _);
      [done|rewrite Hk, Hl; auto with lia|rewrite Hk; by apply Hs|].
    cbn [mbind outcome_bind]. exists c'. split_and!; [done..|]. intros mt' sig' it b. rewrite Ht. apply Hs.
  - destruct (put_ok c sig table mt k m) as (c' & kept & -> & Hc' & _ & _ & Hnew & Hold & Hmt);
      [done|by rewrite Hk|by rewrite Hk|].
    exists c'. split_and!; [done..|]. intros mt' sig' it b Hb.
    destruct (decide (mt' = mt)) as [->|Hne]; [|rewrite (proj1 (Hmt _ Hne)) in Hb; by eapply Hs].
    destruct (decide (sig' = sig)) as [->|Hne].
    + rewrite Hnew in Hb. by injection Hb as <- <-.
    + rewrite Hold in Hb by done. case_bool_decide; [done|]. by eapply Hs.
Qed.

(** [sig] has its table, at most [p] nodes are in front of its node, and no
    other node holds [sig]. *)
Definition recent (c : t) (mt : Z) (sig : string) (table : bytes) (p : nat) : Prop :=
  ∃ it l1 l2, getDecodingTables c mt !! sig = Some (it, table)
    ∧ getDecodingTablesLru c mt = l1 ++ (it, sig) :: l2 ∧ (length l1 ≤ p)%nat
    ∧ ∀ n, n ∈ l1 ++ l2 → n.2 ≠ sig.

Lemma recent_other c c' mt sig table p :
  getDecodingTables c' mt = getDecodingTables c mt →
  getDecodingTablesLru c' mt = getDecodingTablesLru c mt →
  recent c mt sig table p → recent c' mt sig table (S p).
Proof.
  intros Ht Hl (it & l1 & l2 & H1 & H2 & H3 & H4). exists it, l1, l2. rewrite Ht, Hl. auto with lia.
Qed.

Lemma recent_get c o mt sig table p c' :
  cache_ok c → recent c mt sig table p →
  (∃ s b k m, o = Get s b mt k m) → op_signature o ≠ sig → do_op c o = Ret c' →
  recent c' mt sig table (S p).
Proof.
  intros Hc Hr (s & b & k & m & ->) Hs. simpl in *. unfold getDecodingTableFromCache.
  destruct (getDecodingTables c mt !! s) as [[it b']|] eqn:Hb.
  2: { intros [= <-]. apply (recent_other c); [..|done];
         by rewrite ?with_lru_tables, ?with_lru_lru, bool_decide_true. }
  destruct (memcpy _ _ _); [|done]. cbn [mbind outcome_bind].
  pose proof (lru_live _ _ _ (Hc mt) _ _ _ Hb) as Hin.
  destruct (splice_front_ok _ _ _ it s (Hc mt) Hin) as [-> _]. intros [= <-].
  destruct Hr as (it' & l1 & l2 & Ht & Hl & Hp & Hn).
  exists it', ((it, s) :: filter (λ n : node, n.1 ≠ it) l1), (filter (λ n : node, n.1 ≠ it) l2).
  rewrite with_lru_tables, with_lru_lru, !bool_decide_true by done. split_and!; [done|..].
  - simpl. f_equal. rewrite Hl, filter_app. f_equal. apply filter_cons_True. simpl. intros ->.
    pose proof (lru_nodup _ _ _ (Hc mt)) as Hnd.
    apply list_elem_of_lookup in Hin as [i Hi].
    assert (getDecodingTablesLru c mt !! length l1 = Some (it, sig)) as Hj by (by rewrite Hl, list_lookup_middle).
    assert (i = length l1) as ->.
    { apply (NoDup_lookup _ _ _ it Hnd); by rewrite list_lookup_fmap, ?Hi, ?Hj. }
    congruence.
  - simpl. etrans; [apply le_n_S, length_filter|lia].
  - intros n. simpl. rewrite elem_of_cons, elem_of_app, !list_elem_of_filter.
    intros [->|[[_ ?]|[_ ?]]]; [done|apply Hn, elem_of_app; auto..].
Qed.

Lemma recent_put c o mt sig table p c' :
  cache_ok c → op_sized o → recent c mt sig table p → Z.of_nat p < decoding_tables_lru_length - 1 →
  (∃ s b k m, o = Put s b mt k m) → op_signature o ≠ sig → do_op c o = Ret c' →
  recent c' mt sig table (S p).
Proof.
  intros Hc Ho (it & l1 & l2 & Ht & Hl & Hp & Hn) Hlt (s & b & k & m & ->) Hs. simpl in *.
  destruct Ho as [Hk Hlen].
  destruct (put_ok c s b mt k m) as (c1 & kept & -> & _ & Hlru & Hkept & _ & Hold & _);
    [done|by rewrite Hk|by rewrite Hk|]. intros [= <-].
  specialize (Hold sig ltac:(done)). rewrite Hl in Hold, Hkept. unfold recent.
  rewrite Hold, Hlru. clear Hold Hlru.
  case_bool_decide as Hfull; [|rewrite bool_decide_false by tauto].
  2: { exists it, ((next_node c, s) :: l1), l2. subst kept. split_and!; [done|done|simpl; lia|].
       intros n [->|?]%elem_of_cons; auto. }
  destruct l2 as [|y l2 _] using rev_ind.
  { rewrite length_app in Hfull. simpl in Hfull. lia. }
  rewrite app_comm_cons, app_assoc, last_snoc. rewrite (bool_decide_false (_ ∧ _)).
  2: { intros [_ [= Hy]]. apply (Hn y); [|done]. set_solver. }
  exists it, ((next_node c, s) :: l1), l2. split_and!; [done| |simpl; lia|].
  - rewrite Hkept. simpl. f_equal. rewrite app_comm_cons, app_assoc, length_app. simpl.
    by rewrite Nat.add_sub, take_app_length.
  - intros n. simpl. rewrite elem_of_cons. intros [->|Hin]; [done|]. apply Hn. set_solver.
Qed.

Lemma do_op_other c o mt c' :
  op_matrix o ≠ mt → do_op c o = Ret c' →
  getDecodingTables c' mt = getDecodingTables c mt
  ∧ getDecodingTablesLru c' mt = getDecodingTablesLru c mt.
Proof.
  intros Hmt Hdo. assert (∃ tables lru next, c' = with_lru c (op_matrix o) tables lru next) as (?&?&?&->).
  { destruct o; simpl in *.
    - destruct (getDecodingTableFromCache _ _ _ _ _ _) as [[[found b] c1]|] eqn:E; simplify_eq/=.
      unfold getDecodingTableFromCache in E.
      destruct (_ !! _) as [[]|]; peel_outcome; subst; eauto.
    - unfold putDecodingTableToCache in Hdo. case_bool_decide; peel_outcome; subst; eauto. }
  by rewrite with_lru_tables, with_lru_lru, bool_decide_false.
Qed.

Lemma recent_op c o mt sig table p c' :
  cache_ok c → op_sized o → recent c mt sig table p →
  Z.of_nat p < decoding_tables_lru_length - 1 →
  op_signature o ≠ sig ∨ op_matrix o ≠ mt → do_op c o = Ret c' → recent c' mt sig table (S p).
Proof.
  intros Hc Ho Hr Hp Hne Hdo. destruct (decide (op_matrix o = mt)) as [<-|Hmt].
  - destruct Hne; [|done]. destruct o.
    + eapply recent_get; eauto 10.
    + eapply recent_put; eauto 10.
  - destruct (do_op_other c o mt c' Hmt Hdo). by apply (recent_other c).
Qed.

Lemma recent_ops ops c mt sig table p :
  cache_ok c → sized c → Forall op_sized ops → recent c mt sig table p →
  Forall (λ o, op_signature o ≠ sig ∨ op_matrix o ≠ mt) ops →
  Z.of_nat (p + length ops) < decoding_tables_lru_length →
  ∃ c', foldM do_op c ops = Ret c' ∧ cache_ok c' ∧ sized c' ∧ recent c' mt sig table (p + length ops).
Proof.
  intros Hc Hs Hops. revert c p Hc Hs. induction Hops as [|o ops Ho Hops IH]; intros c p Hc Hs Hr Hne Hp.
  { exists c. by rewrite Nat.add_0_r. }
  apply Forall_cons in Hne as [Hne Hnes]. simpl in *.
  destruct (do_op_ok c o Hc Hs Ho) as (c1 & Hdo & Hc1 & Hs1). rewrite Hdo. cbn [mbind outcome_bind].
  assert (recent c1 mt sig table (S p)) as Hr1
    by (apply (recent_op c o mt sig table p c1); (done || lia)).
  destruct (IH c1 (S p) Hc1 Hs1 Hr1 Hnes ltac:(lia)) as (c2 & ? & ? & ? & ?).
  exists c2. by rewrite Nat.add_succ_r.
Qed.

End sequences.

(** ** Theorems *)

(** One method of the cache, called with arguments that fit each other. *)
Inductive step : t → t → Prop :=
  | step_get c sig table mt k m found table' c' :
      getDecodingTableFromCache c sig table mt k m = Ret (found, table', c') → step c c'
  | step_put c sig table mt k m c' :
      blen table = table_size k m → putDecodingTableToCache c sig table mt k m = Ret c' → step c c'
  | step_get_table c mt k m p c' : getEncodingTable c mt k m = (p, c') → step c c'
  | step_get_coefficient c mt k m p c' : getEncodingCoefficient c mt k m = (p, c') → step c c'
  | step_set_table c mt k m b p c' : setEncodingTable c mt k m b = (p, c') → step c c'
  | step_set_coefficient c mt k m b p c' : setEncodingCoefficient c mt k m b = (p, c') → step c c'.

Lemma step_ok c c' : step c c' → cache_ok c → cache_ok c'.
Proof.
  assert (∀ c c', decoding_tables c' = decoding_tables c →
    decoding_tables_lru c' = decoding_tables_lru c → next_node c' = next_node c →
    cache_ok c → cache_ok c') as Henc.
  { intros c1 c2 H1 H2 H3 Hc mt. specialize (Hc mt).
    unfold getDecodingTables, getDecodingTablesLru in *. by rewrite H1, H2, H3. }
  intros Hstep Hc. destruct Hstep as [c sig table mt k m found table' c' Hget|c sig table mt k m c' Hb Hput|
    c mt k m p c' He|c mt k m p c' He|c mt k m b p c' He|c mt k m b p c' He].
  - unfold getDecodingTableFromCache in Hget.
    destruct (_ !! sig) as [[it b]|] eqn:Hsig.
    + destruct (memcpy _ _ _); [|done].
      destruct (splice_front_ok _ _ _ it sig (Hc mt)) as [Heq Hp]; [by eapply lru_live|].
      cbn [mbind outcome_bind] in Hget. rewrite Heq in Hget. injection Hget as <- <- <-.
      apply cache_ok_with_lru; [done|lia|]. by eapply lru_ok_perm, (Hc mt).
    + injection Hget as <- <- <-. apply cache_ok_with_lru; [done|lia|apply Hc].
  - destruct (put_ok c sig table mt k m) as (c1 & kept & Hput' & Hc1 & _); [done|unfold blen in *; lia|done|].
    rewrite Hput in Hput'. by injection Hput' as ->.
  - revert He. unfold getEncodingTable, getEncodingTableNoLock.
    destruct (_ !! _); intros [= <- <-]; by apply (Henc c).
  - revert He. unfold getEncodingCoefficient, getEncodingCoefficientNoLock.
    destruct (_ !! _); intros [= <- <-]; by apply (Henc c).
  - revert He. unfold setEncodingTable, getEncodingTableNoLock.
    destruct (_ !! _) as [[]|]; intros [= <- <-]; by apply (Henc c).
  - revert He. unfold setEncodingCoefficient, getEncodingCoefficientNoLock.
    destruct (_ !! _) as [[]|]; intros [= <- <-]; by apply (Henc c).
Qed.

Lemma reachable_ok c : rtc step empty c → cache_ok c.
Proof.
  intros Hr. cut (cache_ok empty → cache_ok c); [intros H; apply H, cache_ok_empty|].
  induction Hr; [done|]. eauto using step_ok.
Qed.

Lemma lru_map_size next tables lru : lru_ok next tables lru → (size tables ≤ length lru)%nat.
Proof.
  intros [_ Hlive _ _]. rewrite <-(size_dom (D := gset string)). rewrite <-(length_fmap snd lru).
  etrans; [|apply size_list_to_set_le]. apply subseteq_size.
  intros sig [[it b] Hb]%elem_of_dom. apply elem_of_list_to_set, list_elem_of_fmap.
  exists (it, sig). split; [done|]. by eapply Hlive.
Qed.

(** C38. Whatever the threads do, in whatever order they get the mutex: the
    cache holds at most [decoding_tables_lru_length] tables per matrix type,
    no iterator kept in it dangles, and a lookup of a signature whose table has
    the size the caller expects returns that table and moves it to the front
    of the LRU list, while a lookup of an unknown signature leaves the caller's
    table alone. *)
Theorem cache_safe c mt k m sig table :
  rtc step empty c → 0 ≤ table_size k m → blen table = table_size k m →
  getDecodingTableCacheSize c mt ≤ decoding_tables_lru_length
  ∧ (∀ s it b, getDecodingTables c mt !! s = Some (it, b) → (it, s) ∈ getDecodingTablesLru c mt)
  ∧ match getDecodingTables c mt !! sig with
    | Some (it, b) => blen b = table_size k m →
        ∃ c', getDecodingTableFromCache c sig table mt k m = Ret (true, b, c')
          ∧ head (getDecodingTablesLru c' mt) = Some (it, sig)
    | None => ∃ c', getDecodingTableFromCache c sig table mt k m = Ret (false, table, c')
    end.
Proof.
  intros Hr Hpos Hlen. pose proof (reachable_ok c Hr) as Hc. split_and!.
  - unfold getDecodingTableCacheSize. pose proof (lru_map_size _ _ _ (Hc mt)) as Hs.
    pose proof (lru_length _ _ _ (Hc mt)) as Hl. unfold getDecodingTables in Hs.
    destruct (decoding_tables c !! mt); simpl in *; [lia|]. unfold decoding_tables_lru_length. lia.
  - intros s it b. apply (Hc mt).
  - pose proof (get_ok c sig table mt k m Hc ltac:(lia)) as Hget.
    destruct (getDecodingTables c mt !! sig) as [[it b]|] eqn:Hb.
    + intros Hbl. destruct Hget as (table' & c' & -> & _ & _ & _ & -> & Hhead); [by intros ?? [= <- <-]|].
      exists c'. rewrite drop_ge, app_nil_r by (unfold blen in *; lia). by rewrite bool_decide_true by eauto.
    + destruct Hget as (table' & c' & -> & _ & _ & _ & -> & _); [done|]. exists c'.
      by rewrite bool_decide_false by (by intros []).
Qed.

(** C40. Retention: in a cache shared by codecs that agree on the size of the
    table of each signature ([size_of]), a signature that is stored while no
    list node holds it is still found, with its table, after any sequence of
    fewer than [decoding_tables_lru_length] lookups and stores of other
    signatures, in any order and from any thread. *)
Theorem cache_retains size_of c mt k m sig table ops :
  (∀ mt sig, 0 ≤ size_of mt sig) → cache_ok c → sized size_of c →
  table_size k m = size_of mt sig → blen table = size_of mt sig →
  (∀ n, n ∈ getDecodingTablesLru c mt → n.2 ≠ sig) →
  Forall (op_sized size_of) ops → Forall (λ o, op_signature o ≠ sig ∨ op_matrix o ≠ mt) ops →
  Z.of_nat (length ops) < decoding_tables_lru_length →
  ∃ c1 c2, putDecodingTableToCache c sig table mt k m = Ret c1
    ∧ foldM do_op c1 ops = Ret c2
    ∧ ∀ out, blen out = table_size k m →
        ∃ c3, getDecodingTableFromCache c2 sig out mt k m = Ret (true, table, c3).
Proof.
  intros Hpos Hc Hs Hk Hl Hnew Hops Hne Hlen.
  destruct (put_ok c sig table mt k m) as (c1 & kept & Hput & Hc1 & Hlru & Hkept & Hsig & Hold & Hoth);
    [done|rewrite Hk; apply Hpos|congruence|].
  assert (sized size_of c1) as Hs1.
  { destruct (do_op_ok size_of Hpos c (Put sig table mt k m)) as (c1' & Hput' & _ & Hs1); [done..|].
    simpl in Hput'. rewrite Hput in Hput'. by injection Hput' as ->. }
  destruct (recent_ops size_of Hpos ops c1 mt sig table 0) as (c2 & Hrun & Hc2 & Hs2 & Hr); [done..| |done|done|].
  { exists (next_node c), [], kept. split_and!; [done|done|simpl; lia|].
    intros n Hn. apply Hnew. simpl in Hn. rewrite Hkept in Hn. revert Hn.
    case_bool_decide; [|done]. intros (j & Hj & _)%elem_of_take. by eapply list_elem_of_lookup_2. }
  destruct Hr as (it & l1 & l2 & Ht & _).
  exists c1, c2. split_and!; [done..|]. intros out Hout.
  pose proof (get_ok c2 sig out mt k m Hc2) as Hget.
  rewrite Ht in Hget. destruct Hget as (table' & c3 & -> & _ & _ & _ & -> & _);
    [rewrite Hout, Hk; auto with lia|intros ?? [= <- <-]; congruence|].
  exists c3. rewrite drop_ge, app_nil_r by (unfold blen in *; lia). by rewrite bool_decide_true by eauto.
Qed.

Definition table64 (b : Z) : bytes := replicate 64 b.

(** Two threads that miss the same signature both store it. *)
Definition both_store : list op :=
  [Get "+1-0" (table64 0) 0 1 1; Get "+1-0" (table64 0) 0 1 1;
   Put "+1-0" (table64 7) 0 1 1; Put "+1-0" (table64 7) 0 1 1].

(** [n] other signatures are stored. *)
Definition others (n : Z) : list op :=
  (λ i, Put (pretty i) (table64 1) 0 1 1) <$> seqZ 0 n.

(** After [before], is the signature found, and is it still found when another
    one has been stored right after that? *)
Definition found_twice (before : list op) : outcome (bool * bool) :=
  c ← foldM do_op empty before;
  '(found1, _, c) ← getDecodingTableFromCache c "+1-0" (table64 0) 0 1 1;
  c ← putDecodingTableToCache c "x" (table64 2) 0 1 1;
  '(found2, _, _) ← getDecodingTableFromCache c "+1-0" (table64 0) 0 1 1;
  Ret (found1, found2).

(** [putDecodingTableToCache] does not look whether the signature is in
    the cache: when two threads have missed it and both store it, the list has
    two nodes for it, and when the older one is evicted the table is dropped
    although it was the most recently used one. Stored once, it stays. *)
Theorem double_store_evicts_recent :
  found_twice (both_store ++ others 2514) = Ret (true, false)
  ∧ found_twice (take 3 both_store ++ others 2514) = Ret (true, true).
Proof. split; by vm_compute. Qed.

Lemma cache_safe_witness :
  ∃ c, rtc step empty c ∧ getDecodingTableCacheSize c 0 ≤ decoding_tables_lru_length
    ∧ ∃ c', getDecodingTableFromCache c "+1-0" (table64 0) 0 1 1 = Ret (true, table64 7, c').
Proof.
  pose (c := match putDecodingTableToCache empty "+1-0" (table64 7) 0 1 1 with Ret c => c | _ => empty end).
  assert (rtc step empty c) as Hr.
  { eapply rtc_once, (step_put _ "+1-0" (table64 7) 0 1 1); by vm_compute. }
  exists c. split; [done|].
  pose proof (cache_safe c 0 1 1 "+1-0" (table64 0) Hr ltac:(done) ltac:(done)) as (H1 & _ & H2).
  split; [done|].
  assert (getDecodingTables c 0 !! "+1-0" = Some (0, table64 7)) as Hb by (by vm_compute).
  rewrite Hb in H2. destruct (H2 ltac:(done)) as (c' & ? & _). by exists c'.
Defined.

Lemma cache_retains_witness :
  ∃ c1 c2, putDecodingTableToCache empty "+1-0" (table64 7) 0 1 1 = Ret c1
    ∧ foldM do_op c1 [Put "+0-1" (table64 3) 0 1 1; Get "+0-1" (table64 0) 0 1 1] = Ret c2
    ∧ ∀ out, blen out = table_size 1 1 →
        ∃ c3, getDecodingTableFromCache c2 "+1-0" out 0 1 1 = Ret (true, table64 7, c3).
Proof.
  apply (cache_retains (λ _ _, 64)); try done.
  - apply cache_ok_empty.
  - by intros ? ?%not_elem_of_nil.
  - repeat constructor.
  - apply Forall_cons; split; [by left|]. apply Forall_cons; split; [by left|constructor].
Defined.

End IsaCache.
