(* ===== verification/Isa.v ===== *)
(** * The ISA plugin

    src/src/erasure-code/isa/ErasureCodeIsa.{h,cc} and
    ErasureCodePluginIsa.cc. The matrix and table routines of the ISA-L library
    (a git submodule) are the class [IsaL], their documented behaviour is
    [IsaLSpec]. The table cache the codecs share is threaded through the calls
    that use it. *)

From stdpp Require Import pretty.
From S2P Require Import Prelude Strtol Galois ErasureCode CrushRules XorOp IsaCache.

(** erasure_code.h of ISA-L. [ec_init_tables k rows a] are the 32*k*rows bytes
    it writes to its last argument; [ec_encode_data len k rows tbls data] are
    the contents of the coding regions; [gf_invert_matrix a n] is the inverse,
    or nothing when it returns a negative value. *)
Class IsaL := {
  gf_mul : Z → Z → Z;
  gf_gen_rs_matrix : Z → Z → list Z;
  gf_gen_cauchy1_matrix : Z → Z → list Z;
  gf_invert_matrix : list Z → Z → option (list Z);
  ec_init_tables : Z → Z → list Z → bytes;
  ec_encode_data : Z → Z → Z → bytes → list bytes → list bytes;
}.

(** The rows of a matrix of [k] columns stored row by row. *)
Definition matrix_rows (k rows : Z) (a : list Z) : list (list Z) :=
  matrix_row k a <$> seqZ 0 rows.

(** The upper square of a generator matrix is the identity. *)
Definition systematic (k : Z) (a : list Z) : Prop :=
  ∀ i, 0 ≤ i < k → matrix_row k a i = unit_row (Z.to_nat k) (Z.to_nat i).

Class IsaLSpec `{Galois} `{IsaL} : Prop := {
  gf_mul_galois a b : byte_ok a → byte_ok b → gf_mul a b = galois_single_multiply a b 8;
  gf_gen_rs_matrix_len m k : 0 < k ≤ m → m ≤ 255 →
    Z.of_nat (length (gf_gen_rs_matrix m k)) = m * k;
  gf_gen_rs_matrix_ok m k : 0 < k ≤ m → m ≤ 255 → bytes_ok (gf_gen_rs_matrix m k);
  gf_gen_rs_matrix_systematic m k : 0 < k ≤ m → m ≤ 255 → systematic k (gf_gen_rs_matrix m k);
  (* the first row of the Vandermonde part is 1 1 ... 1 *)
  gf_gen_rs_matrix_ones m k : 0 < k < m → m ≤ 255 →
    matrix_row k (gf_gen_rs_matrix m k) k = replicate (Z.to_nat k) 1;
  gf_gen_cauchy1_matrix_len m k : 0 < k ≤ m → m ≤ 255 →
    Z.of_nat (length (gf_gen_cauchy1_matrix m k)) = m * k;
  gf_gen_cauchy1_matrix_ok m k : 0 < k ≤ m → m ≤ 255 → bytes_ok (gf_gen_cauchy1_matrix m k);
  gf_gen_cauchy1_matrix_systematic m k : 0 < k ≤ m → m ≤ 255 →
    systematic k (gf_gen_cauchy1_matrix m k);
  (* the result times the argument is the identity *)
  gf_invert_matrix_spec a n d : 0 < n → Z.of_nat (length a) = n * n → bytes_ok a →
    gf_invert_matrix a n = Some d →
    Z.of_nat (length d) = n * n ∧ bytes_ok d
    ∧ ∀ i, 0 ≤ i < n → row_region (matrix_row n d i) (matrix_rows n n a) (Z.to_nat n)
                        = unit_row (Z.to_nat n) (Z.to_nat i);
  ec_init_tables_len k rows a : 0 < k → 0 ≤ rows → Z.of_nat (length a) = k * rows →
    blen (ec_init_tables k rows a) = 32 * k * rows;
  (* the tables of a matrix, at the start of [tbls], multiply by its rows *)
  ec_encode_data_spec len k rows tbls a data : 0 < k → 0 ≤ rows → 0 ≤ len →
    Z.of_nat (length a) = k * rows → bytes_ok a →
    take (Z.to_nat (32 * k * rows)) tbls = ec_init_tables k rows a →
    Z.of_nat (length data) = k → Forall (λ d, blen d = len) data →
    ec_encode_data len k rows tbls data
    = (λ i, row_region (matrix_row k a i) data (Z.to_nat len)) <$> seqZ 0 rows;
}.

(** Where the buffers of the chunks are, what the processor has, and the
    contents of an uninitialised array of [n] bytes. *)
Class Machine := {
  chunk_address : Z → Z;
  ceph_arch_intel_sse2 : bool;
  uninitialised : Z → bytes;
}.
Class MachineSpec `{Machine} : Prop := {
  uninitialised_len n : 0 ≤ n → blen (uninitialised n) = n;
}.

Module Isa.

Definition kVandermonde : Z := 0.
Definition kCauchy : Z := 1.

Record t := mk {
  k : Z;
  m : Z;
  matrixtype : Z;
  encode_coeff : list Z;
  encode_tbls : bytes;
  base_mapping : list Z;       (* [ErasureCode::chunk_mapping] *)
  ruleset_root : string;
  ruleset_failure_domain : string;
  profile_ : Profile;
}.

Definition get_alignment : Z := EC_ISA_ADDRESS_ALIGNMENT.

Definition get_chunk_size (s : t) (object_size : Z) : outcome Z :=
  if bool_decide (k s = 0) then Abort DivByZero else
  let chunk_size := u32 (object_size + k s - 1) / u32 (k s) in
  let modulo := chunk_size mod get_alignment in
  Ret (if bool_decide (modulo ≠ 0) then u32 (chunk_size + get_alignment - modulo)
       else chunk_size).

Section machine.
Context `{IsaL} `{Machine}.

(** The buffer of chunk [i] as a region of memory. *)
Definition region_of (w : gmap Z bytes) (i : Z) : region := mkRegion (chunk_address i) (buf w i).

(** ** Encoding *)

(** [data] are chunks 0 to k-1 and [coding] chunks k to k+m-1. *)
Definition isa_encode (s : t) (w : gmap Z bytes) (blocksize : Z) : outcome (gmap Z bytes) :=
  if bool_decide (m s = 1) then
    parity ← region_xor ceph_arch_intel_sse2 (region_of w <$> seqZ 0 (k s)) (region_of w (k s)) blocksize;
    Ret (<[k s := parity]> w)
  else
    Ret (store w (seqZ (k s) (m s))
           (ec_encode_data blocksize (k s) (m s) (encode_tbls s) (buf w <$> seqZ 0 (k s)))).

Definition encode_chunks (s : t) (want_to_encode : gset Z) (encoded : gmap Z bytes)
    : outcome (Z * gmap Z bytes) :=
  let encoded := foldl touch encoded (seqZ 0 (k s + m s)) in
  let encoded := touch encoded 0 in
  encoded ← isa_encode s encoded (blen (buf encoded 0));
  Ret (0, encoded).

(** ** Decoding *)

(** [erasures] is the array up to its terminating -1. *)
Definition erasure_contains (erasures : list Z) (i : Z) : bool :=
  existsb (λ e, e =? i) erasures.

(** Source and target buffers, as chunk numbers: [r] and [s] are the numbers
    of them so far. *)
Definition assign (k m nerrs : Z) (erasures : list Z) (st : list Z * list Z) (i : Z)
    : list Z * list Z :=
  let '(source, target) := st in
  if bool_decide (Z.of_nat (length source) < k ∨ Z.of_nat (length target) < nerrs) then
    if negb (erasure_contains erasures i) then
      if bool_decide (Z.of_nat (length source) < k) then (source ++ [i], target) else st
    else
      if bool_decide (Z.of_nat (length target) < m) then (source, target ++ [i]) else st
  else st.

(** [while (erasure_contains (erasures, r)) r++]; at most all the erasures are
    skipped. *)
Fixpoint skip_erased (fuel : nat) (erasures : list Z) (r : Z) : Z :=
  match fuel with
  | O => r
  | S fuel => if erasure_contains erasures r then skip_erased fuel erasures (r + 1) else r
  end.

Fixpoint decode_indexes (count : nat) (erasures : list Z) (r : Z) : list Z :=
  match count with
  | O => []
  | S count =>
      let r := skip_erased (length erasures) erasures r in
      r :: decode_indexes count erasures (r + 1)
  end.

(** The key of a decoding table in the cache. *)
Definition erasure_signature (decode_index erasures : list Z) : string :=
  foldr String.append "" (((λ r, String.append "+" (pretty r)) <$> decode_index)
    ++ ((λ e, String.append "-" (pretty e)) <$> erasures)).

(** [a[k * r + j]] for [j] below [k]. *)
Definition read_row (a : list Z) (k r : Z) : outcome (list Z) :=
  if bool_decide (0 ≤ r ∧ k * r + k ≤ Z.of_nat (length a)) then Ret (matrix_row k a r)
  else Abort OutOfBounds.

(** The coefficients that restore chunk [e] from the sources; [d] is the
    inverse of the rows of the sources. *)
Definition recovery_row (s : t) (d : list Z) (e : Z) : outcome (list Z) :=
  if bool_decide (e < k s) then Ret (matrix_row (k s) d e)
  else
    coeff ← read_row (encode_coeff s) (k s) e;
    Ret ((λ i, foldl (λ acc j,
                 Z.lxor acc (gf_mul (d !!! Z.to_nat (j * k s + i)) (coeff !!! Z.to_nat j)))
               0 (seqZ 0 (k s))) <$> seqZ 0 (k s)).

(** The matrix [c], or nothing when the sources have no inverse. *)
Definition recovery_matrix (s : t) (decode_index erasures : list Z) : outcome (option (list Z)) :=
  b ← foldM (λ b r, row ← read_row (encode_coeff s) (k s) r; Ret (b ++ row)) [] decode_index;
  match gf_invert_matrix b (k s) with
  | None => Ret None
  | Some d =>
      c ← foldM (λ c e, row ← recovery_row s d e; Ret (c ++ row)) [] erasures;
      Ret (Some c)
  end.

(** The decoding table, from the cache or computed and stored there. *)
Definition decoding_table (s : t) (tcache : IsaCache.t) (decode_index erasures : list Z)
    : outcome (option bytes * IsaCache.t) :=
  let nerrs := Z.of_nat (length erasures) in
  let signature := erasure_signature decode_index erasures in
  let decode_tbls := uninitialised (IsaCache.table_size (k s) (m s)) in
  '(found, decode_tbls, tcache) ←
    IsaCache.getDecodingTableFromCache tcache signature decode_tbls (matrixtype s) (k s) (m s);
  if found : bool then Ret (Some decode_tbls, tcache) else
  c ← recovery_matrix s decode_index erasures;
  match c with
  | None => Ret (None, tcache)
  | Some c =>
      let tbls := ec_init_tables (k s) nerrs c in
      decode_tbls ← memcpy decode_tbls tbls (blen tbls);
      tcache ← IsaCache.putDecodingTableToCache tcache signature decode_tbls
        (matrixtype s) (k s) (m s);
      Ret (Some decode_tbls, tcache)
  end.

Definition isa_decode (s : t) (tcache : IsaCache.t) (erasures : list Z)
    (decoded : gmap Z bytes) (blocksize : Z) : outcome (Z * gmap Z bytes * IsaCache.t) :=
  let nerrs := Z.of_nat (length erasures) in
  let '(recover_source, recover_target) :=
    foldl (assign (k s) (m s) nerrs erasures) ([], []) (seqZ 0 (k s + m s)) in
  let xor_decode :=
    target ← need NullPointer (head recover_target);
    parity ← region_xor ceph_arch_intel_sse2 (region_of decoded <$> recover_source)
      (region_of decoded target) blocksize;
    Ret (0, <[target := parity]> decoded, tcache) in
  if bool_decide (m s = 1) then
    _ ← assert_that (bool_decide (1 = nerrs));
    xor_decode
  else if bool_decide (matrixtype s = kVandermonde) && bool_decide (nerrs = 1)
          && bool_decide (default 0 (head erasures) < k s + 1) then
    _ ← assert_that (bool_decide (1 = Z.of_nat (length recover_target)));
    _ ← assert_that (bool_decide (k s = Z.of_nat (length recover_source)));
    xor_decode
  else if bool_decide (m s < nerrs) then Ret (-1, decoded, tcache)
  else
    let decode_index := decode_indexes (Z.to_nat (k s)) erasures 0 in
    '(decode_tbls, tcache) ← decoding_table s tcache decode_index erasures;
    match decode_tbls with
    | None => Ret (-1, decoded, tcache)
    | Some decode_tbls =>
        Ret (0, store decoded recover_target
                  (ec_encode_data blocksize (k s) nerrs decode_tbls (buf decoded <$> recover_source)),
             tcache)
    end.

Definition decode_chunks (s : t) (tcache : IsaCache.t) (want_to_read : gset Z)
    (chunks decoded : gmap Z bytes) : outcome (Z * gmap Z bytes * IsaCache.t) :=
  first ← need EmptyContainer (map_first chunks);
  let blocksize := blen first in
  let erasures := filter (λ i, i ∉ dom chunks) (seqZ 0 (k s + m s)) in
  let decoded := foldl touch decoded (seqZ 0 (k s + m s)) in
  _ ← assert_that (bool_decide (0 < length erasures)%nat);
  isa_decode s tcache erasures decoded blocksize.

(** The plugin as the base class sees it, with the cache as it is at the
    call. *)
Definition codec (s : t) (tcache : IsaCache.t) : Codec := {|
  get_chunk_count := k s + m s;
  get_data_chunk_count := k s;
  chunk_mapping := base_mapping s;
  ErasureCode.get_chunk_size := get_chunk_size s;
  codec_minimum_to_decode want avail min :=
    Ret (ErasureCode.minimum_to_decode (u32 (k s)) want avail min);
  ErasureCode.encode_chunks := encode_chunks s;
  ErasureCode.decode_chunks want chunks decoded :=
    '(err, decoded, _) ← decode_chunks s tcache want chunks decoded; Ret (err, decoded);
|}.

(** ** Configuration *)

Definition DEFAULT_K : string := "7".
Definition DEFAULT_M : string := "3".
Definition DEFAULT_RULESET_ROOT : string := "default".
Definition DEFAULT_RULESET_FAILURE_DOMAIN : string := "host".

(** The constructor of [ErasureCodeIsaDefault]. *)
Definition fresh (matrix : Z) : t :=
  mk 0 0 matrix [] [] [] DEFAULT_RULESET_ROOT DEFAULT_RULESET_FAILURE_DOMAIN ∅.

Definition with_parameters (s : t) (k m : Z) (mapping : list Z) : t :=
  mk k m (matrixtype s) (encode_coeff s) (encode_tbls s) mapping
     (ruleset_root s) (ruleset_failure_domain s) (profile_ s).

(** The verified safe values: the values of (k, m) after the bounds for a
    Vandermonde matrix have been applied, and whether they were. *)
Definition vandermonde_bounds (k m err : Z) : Z * Z * Z :=
  let '(k, err) := if bool_decide (32 < k) then (32, - EINVAL) else (k, err) in
  let '(m, err) := if bool_decide (4 < m) then (4, - EINVAL) else (m, err) in
  let '(k, err) := if bool_decide (m = 4) && bool_decide (21 < k) then (21, - EINVAL) else (k, err) in
  (k, m, err).

Definition parse (s : t) (profile : Profile) : Z * t * Profile :=
  let '(err, mapping) := ErasureCode.parse profile (base_mapping s) in
  let pk := to_int "k" profile DEFAULT_K in
  let pm := to_int "m" (p_profile pk) DEFAULT_M in
  let err := err_or (err_or err (p_err pk)) (p_err pm) in
  let err := err_or err (sanity_check_k (p_value pk)) in
  let '(k, m, err) :=
    if bool_decide (matrixtype s = kVandermonde) then vandermonde_bounds (p_value pk) (p_value pm) err
    else (p_value pk, p_value pm, err) in
  (err, with_parameters s k m mapping, p_profile pm).

(** [malloc (k * (m + k))] filled by the generator of the matrix type. *)
Definition make_coefficients (s : t) : bytes :=
  if bool_decide (matrixtype s = kVandermonde) then gf_gen_rs_matrix (k s + m s) (k s)
  else if bool_decide (matrixtype s = kCauchy) then gf_gen_cauchy1_matrix (k s + m s) (k s)
  else uninitialised (k s * (m s + k s)).

Definition prepare (s : t) (tcache : IsaCache.t) : outcome (t * IsaCache.t) :=
  let '(enc_table, tcache) := IsaCache.getEncodingTable tcache (matrixtype s) (k s) (m s) in
  let '(enc_coeff, tcache) := IsaCache.getEncodingCoefficient tcache (matrixtype s) (k s) (m s) in
  let '(coeff, tcache) :=
    match enc_coeff with
    | None => IsaCache.setEncodingCoefficient tcache (matrixtype s) (k s) (m s) (make_coefficients s)
    | Some coeff => (coeff, tcache)
    end in
  '(tbls, tcache) ←
    match enc_table with
    | None =>
        let new := ec_init_tables (k s) (m s) (drop (Z.to_nat (k s * k s)) coeff) in
        tbls ← memcpy (uninitialised (k s * (m s + k s) * 32)) new (blen new);
        Ret (IsaCache.setEncodingTable tcache (matrixtype s) (k s) (m s) tbls)
    | Some tbls => Ret (tbls, tcache)
    end;
  _ ← assert_that (bool_decide (matrixtype s = kVandermonde) || bool_decide (matrixtype s = kCauchy));
  Ret (mk (k s) (m s) (matrixtype s) coeff tbls (base_mapping s) (ruleset_root s)
          (ruleset_failure_domain s) (profile_ s), tcache).

Definition init (s : t) (profile : Profile) (tcache : IsaCache.t)
    : outcome (Z * t * Profile * IsaCache.t) :=
  let root := to_string "ruleset-root" profile DEFAULT_RULESET_ROOT in
  let domain := to_string "ruleset-failure-domain" (p_profile root) DEFAULT_RULESET_FAILURE_DOMAIN in
  let s := mk (k s) (m s) (matrixtype s) (encode_coeff s) (encode_tbls s) (base_mapping s)
              (p_value root) (p_value domain) (profile_ s) in
  let '(err, s, profile) := parse s (p_profile domain) in
  let err := err_or (err_or (p_err root) (p_err domain)) err in
  if bool_decide (err ≠ 0) then Ret (err, s, profile, tcache) else
  '(s, tcache) ← prepare s tcache;
  Ret (err, mk (k s) (m s) (matrixtype s) (encode_coeff s) (encode_tbls s) (base_mapping s)
               (ruleset_root s) (ruleset_failure_domain s) profile, profile, tcache).

(** [ErasureCodePluginIsa::factory]: the codec on success. *)
Definition factory (profile : Profile) (tcache : IsaCache.t)
    : outcome (Z * option t * Profile * IsaCache.t) :=
  let profile := if bool_decide (profile !! "technique" = None)
                 then <["technique" := "reed_sol_van"]> profile else profile in
  let technique := default "" (profile !! "technique") in
  let make matrix :=
    '(r, s, profile, tcache) ← init (fresh matrix) profile tcache;
    Ret (if bool_decide (r ≠ 0) then (r, None, profile, tcache)
         else (0, Some s, profile, tcache)) in
  if bool_decide (technique = "reed_sol_van") then make kVandermonde
  else if bool_decide (technique = "cauchy") then make kCauchy
  else Ret (- ENOENT, None, profile, tcache).

End machine.

Definition create_ruleset (s : t) (name : string) (crush : CrushWrapper)
    : outcome (Z * CrushWrapper) :=
  create_simple_ruleset (ruleset_root s) (ruleset_failure_domain s) (u32 (k s + m s)) name crush.

End Isa.
