(* ===== verification/IsaFacts.v ===== *)
(** * The ISA plugin: correctness of encoding and decoding

    The chunks of a codeword are the products of the rows of the generator
    matrix with the data. Decoding restores the erased chunks by XOR or with
    the inverse of the rows of the surviving chunks, whether the decoding table
    is computed or found in the cache. *)

From stdpp Require Import pretty.
From S2P Require Import Prelude Strtol Galois ErasureCode CrushRules XorOp IsaCache Isa.

Import Isa.

(** ** Signatures name their index lists *)

Definition no_digit (s : chars) : Prop := match s with [] => True | a :: _ => digit a = None end.

Lemma c_str_pretty_N_go (x : N) s rest :
  no_digit (c_str rest) →
  read_digits 0 (c_str (pretty_N_go x s +:+ rest)) = read_digits (Z.of_N x) (c_str (s +:+ rest)).
Proof.
  intros Hrest. revert s. induction (N.lt_wf_0 x) as [x _ IH]; intros s.
  destruct (decide (0 < x)%N) as [Hx|]; last first.
  { assert (x = 0%N) as -> by lia. by rewrite pretty_N_go_0. }
  rewrite pretty_N_go_step by done. rewrite IH by (apply N.div_lt; lia).
  pose proof (digit_pretty_N_char (x `mod` 10) ltac:(apply N.mod_lt; lia)) as Hd.
  change ((String (pretty_N_char (x `mod` 10)) s) +:+ rest)
    with (String (pretty_N_char (x `mod` 10)) (s +:+ rest)).
  rewrite (c_str_digit _ _ _ Hd). simpl. rewrite Hd. f_equal.
  rewrite (N.div_mod x 10) at 3 by lia. lia.
Qed.

Lemma read_digits_no_digit v s : no_digit s → read_digits v s = (v, s).
Proof. destruct s as [|a s]; [done|]. simpl. by intros ->. Qed.

Lemma read_digits_pretty_app (z : Z) rest :
  0 ≤ z → no_digit (c_str rest) → read_digits 0 (c_str (pretty z +:+ rest)) = (z, c_str rest).
Proof.
  intros Hz Hrest. destruct z as [|p|p]; [| |lia].
  - simpl. by apply read_digits_no_digit.
  - change (pretty (Z.pos p)) with (pretty_N_go (N.pos p) "").
    rewrite c_str_pretty_N_go by done. by apply read_digits_no_digit.
Qed.

(** A signature is a sequence of signed numbers. *)
Definition token (t : bool * Z) : string :=
  (if t.1 then "+" else "-") +:+ pretty t.2.
Definition tokens (l : list (bool * Z)) : string := foldr String.append "" (token <$> l).

Lemma tokens_cons t l : tokens (t :: l) = token t +:+ tokens l.
Proof. done. Qed.

Lemma tokens_no_digit l : no_digit (c_str (tokens l)).
Proof. destruct l as [|[[] z] l]; done. Qed.

Lemma tokens_inj l1 l2 :
  Forall (λ t : bool * Z, 0 ≤ t.2) l1 → Forall (λ t : bool * Z, 0 ≤ t.2) l2 →
  tokens l1 = tokens l2 → l1 = l2.
Proof.
  intros H1. revert l2. induction H1 as [|[b1 z1] l1 Hz1 H1 IH]; intros l2 H2 Heq.
  { destruct H2 as [|[[] ?] ??]; done. }
  destruct H2 as [|[b2 z2] l2 Hz2 H2]; [by destruct b1|]. simpl in Hz1, Hz2.
  rewrite !tokens_cons in Heq. unfold token in Heq. cbn [fst snd] in Heq.
  assert (b1 = b2 ∧ pretty z1 +:+ tokens l1 = pretty z2 +:+ tokens l2) as [<- Heq'].
  { destruct b1, b2; simpl in Heq; simplify_eq; split; try done; congruence. }
  pose proof (read_digits_pretty_app z1 (tokens l1) Hz1 (tokens_no_digit l1)) as Hr1.
  pose proof (read_digits_pretty_app z2 (tokens l2) Hz2 (tokens_no_digit l2)) as Hr2.
  rewrite Heq', Hr2 in Hr1. injection Hr1 as <- _. f_equal. apply IH; [done|].
  by apply (inj (String.append (pretty z2))).
Qed.

Lemma erasure_signature_inj idx1 e1 idx2 e2 :
  Forall (λ i, 0 ≤ i) (idx1 ++ e1) → Forall (λ i, 0 ≤ i) (idx2 ++ e2) →
  erasure_signature idx1 e1 = erasure_signature idx2 e2 → idx1 = idx2 ∧ e1 = e2.
Proof.
  assert (∀ idx e, erasure_signature idx e = tokens ((pair true <$> idx) ++ (pair false <$> e))) as Heq.
  { intros idx e. unfold erasure_signature, tokens. by rewrite fmap_app, <-!list_fmap_compose. }
  assert (∀ idx e, Forall (λ i, 0 ≤ i) (idx ++ e) →
    Forall (λ t : bool * Z, 0 ≤ t.2) ((pair true <$> idx) ++ (pair false <$> e))) as Hpos.
  { intros idx e [??]%Forall_app. apply Forall_app. split; by apply Forall_fmap. }
  intros H1%Hpos H2%Hpos. rewrite !Heq. intros Ht%(tokens_inj _ _ H1 H2). clear -Ht. revert idx2 Ht.
  induction idx1 as [|i idx1 IH]; intros [|j idx2] Ht; simpl in Ht; simplify_eq.
  - done.
  - destruct e1; simplify_eq/=.
  - destruct e2; simplify_eq/=.
  - destruct (IH idx2) as [-> ->]; done.
Qed.

(** ** Sources and targets *)

Lemma perm_remove e (l : list Z) :
  NoDup l → e ∈ l → l ≡ₚ e :: filter (λ i, i ∉ [e]) l.
Proof.
  intros Hnd He. apply NoDup_Permutation; [done| |].
  - apply NoDup_cons. split; [|by apply NoDup_filter].
    rewrite list_elem_of_filter, list_elem_of_singleton. tauto.
  - intros i. rewrite elem_of_cons, list_elem_of_filter, list_elem_of_singleton.
    destruct (decide (i = e)) as [->|]; tauto.
Qed.

Definition survivors (n : Z) (E : list Z) : list Z := filter (λ i, i ∉ E) (seqZ 0 n).

Lemma erasure_contains_spec E i : erasure_contains E i = bool_decide (i ∈ E).
Proof.
  apply eq_true_iff_eq. unfold erasure_contains. rewrite existsb_exists, bool_decide_eq_true.
  setoid_rewrite Z.eqb_eq. setoid_rewrite <-list_elem_of_In. naive_solver.
Qed.

(** The sources are the first [k] survivors, the targets the erasures. *)
Lemma assign_spec k m n E :
  filter (λ i, i ∈ E) (seqZ 0 n) = E → Z.of_nat (length E) ≤ m → 0 ≤ k →
  foldl (assign k m (Z.of_nat (length E)) E) ([], []) (seqZ 0 n)
  = (take (Z.to_nat k) (survivors n E), E).
Proof.
  intros HE Hm Hk.
  assert (∀ l st, st = foldl (assign k m (Z.of_nat (length E)) E) ([], []) l →
    ∀ l2, seqZ 0 n = l ++ l2 →
    st = (take (Z.to_nat k) (filter (λ i, i ∉ E) l), filter (λ i, i ∈ E) l)) as Hgen.
  { induction l as [|x l IH] using rev_ind; intros st -> l2 Hl2; [by destruct (Z.to_nat k)|].
    rewrite foldl_app. simpl. rewrite (IH _ eq_refl (x :: l2)) by (by rewrite Hl2, <-app_assoc).
    assert (length (filter (λ i, i ∈ E) l) + length (filter (λ i, i ∈ E) [x]) ≤ length E)%nat as Hlen.
    { pose proof (f_equal length HE) as HEl. rewrite Hl2, !filter_app, !length_app in HEl. lia. }
    unfold assign. rewrite erasure_contains_spec, !filter_app, length_take.
    destruct (decide (x ∈ E)) as [Hx|Hx].
    - rewrite !(filter_cons_True (λ i, i ∈ E)) in Hlen |- * by done.
      rewrite (filter_cons_False (λ i, i ∉ E)) by tauto. rewrite !filter_nil, app_nil_r in *.
      simpl in Hlen. rewrite (bool_decide_true (x ∈ E)) by done. simpl.
      rewrite bool_decide_true by lia. by rewrite bool_decide_true by lia.
    - rewrite (filter_cons_False (λ i, i ∈ E)) by done.
      rewrite (filter_cons_True (λ i, i ∉ E)) by done. rewrite !filter_nil, app_nil_r.
      rewrite (bool_decide_false (x ∈ E)) by done. simpl.
      set (sv := filter (λ i, i ∉ E) l). rewrite take_app.
      destruct (decide (length sv < Z.to_nat k)%nat) as [Hsv|Hsv].
      + rewrite bool_decide_true, bool_decide_true by lia.
        rewrite !(take_ge sv) by lia. by rewrite (take_ge [x]) by (simpl; lia).
      + replace (Z.to_nat k - length sv)%nat with 0%nat by lia. rewrite take_0, app_nil_r.
        case_bool_decide; [|done]. by rewrite bool_decide_false by lia. }
  rewrite (Hgen _ _ eq_refl []) by (by rewrite app_nil_r). by rewrite HE.
Qed.

(** The number of erasures from [r] on bounds the steps of the inner loop. *)
Definition erased_from (E : list Z) (r : Z) : gset Z := filter (λ e, r ≤ e) (list_to_set E).

Lemma skip_erased_spec fuel E r :
  (size (erased_from E r) ≤ fuel)%nat →
  r ≤ skip_erased fuel E r ∧ (skip_erased fuel E r ∉ E)
  ∧ ∀ i, r ≤ i < skip_erased fuel E r → i ∈ E.
Proof.
  revert r. induction fuel as [|fuel IH]; intros r Hsize.
  - cbn [skip_erased]. split_and!; [lia| |lia]. intros Hr.
    assert (erased_from E r = ∅) as He by (apply leibniz_equiv, size_empty_inv; lia).
    assert (r ∈ erased_from E r); [|by rewrite He in *].
    apply elem_of_filter. split; [lia|]. by apply elem_of_list_to_set.
  - cbn [skip_erased]. rewrite erasure_contains_spec. case_bool_decide as Hr; [|auto with lia].
    destruct (IH (r + 1)) as (Hle & Hn & Hin).
    + assert (size (erased_from E (r + 1)) < size (erased_from E r))%nat; [|lia].
      apply subset_size. split.
      * intros i [??]%elem_of_filter. apply elem_of_filter. split; [lia|done].
      * intros Hsub. assert (r ∈ erased_from E (r + 1)) as [? _]%elem_of_filter; [|lia].
        apply Hsub, elem_of_filter. split; [lia|]. by apply elem_of_list_to_set.
    + split_and!; [lia|done|]. intros i Hi. destruct (decide (i = r)) as [->|]; [done|].
      apply Hin. lia.
Qed.

Lemma skip_erased_enough E r : (size (erased_from E r) ≤ length E)%nat.
Proof.
  etrans; [apply subseteq_size|apply (size_list_to_set_le E)].
  intros i [_ ?]%elem_of_filter. done.
Qed.

Lemma filter_seqZ_cons (P : Z → Prop) `{∀ x, Decision (P x)} r r' n :
  r ≤ r' < r + n → P r' → (∀ i, r ≤ i < r' → ¬ P i) →
  filter P (seqZ r n) = r' :: filter P (seqZ (r' + 1) (r + n - r' - 1)).
Proof.
  intros Hr Hp Hn. replace n with ((r' - r) + (1 + (r + n - r' - 1))) at 1 by lia.
  rewrite seqZ_app by lia. rewrite filter_app, filter_none.
  - replace (r + (r' - r)) with r' by lia. rewrite seqZ_app by lia. rewrite filter_app.
    change (seqZ r' 1) with ([r'] : list Z). by rewrite filter_cons_True.
  - intros x Hx%elem_of_seqZ. apply Hn. lia.
Qed.

(** The indexes of the rows are the first survivors. *)
Lemma decode_indexes_spec count E r n :
  (count ≤ length (filter (λ i, i ∉ E) (seqZ r n)))%nat →
  decode_indexes count E r = take count (filter (λ i, i ∉ E) (seqZ r n)).
Proof.
  revert r n. induction count as [|count IH]; intros r n Hcount; [done|].
  destruct (skip_erased_spec (length E) E r (skip_erased_enough E r)) as (Hle & Hn & Hin).
  cbn [decode_indexes]. set (r' := skip_erased (length E) E r) in *.
  destruct (decide (r' < r + n)) as [Hlt|Hge].
  - rewrite (filter_seqZ_cons (λ i, i ∉ E) r r' n ltac:(lia) Hn) in Hcount |- *;
      [|intros i Hi; specialize (Hin i Hi); tauto..].
    cbn [take]. f_equal. apply IH. simpl in Hcount. lia.
  - rewrite filter_none in Hcount; [simpl in Hcount; lia|].
    intros i Hi%elem_of_seqZ. specialize (Hin i ltac:(lia)). tauto.
Qed.

(** ** Configured codecs and their codewords *)

Lemma matrix_row_drop k a j i :
  0 ≤ k → 0 ≤ j → 0 ≤ i → matrix_row k (drop (Z.to_nat (k * j)) a) i = matrix_row k a (j + i).
Proof. intros. unfold matrix_row. rewrite drop_drop. do 2 f_equal. lia. Qed.

Lemma length_matrix_row k a i n :
  0 ≤ k → 0 ≤ i < n → Z.of_nat (length a) = n * k → length (matrix_row k a i) = Z.to_nat k.
Proof. intros. unfold matrix_row. rewrite length_take, length_drop. nia. Qed.

Lemma matrix_row_bytes k a i : bytes_ok a → bytes_ok (matrix_row k a i).
Proof. intros. by apply Forall_take, Forall_drop. Qed.

Section isa.
Context `{HG : Galois} `{HGF : !GaloisFieldSpec} `{HI : !IsaL} `{HIS : !IsaLSpec}.
Context `{HM : !Machine} `{HMS : !MachineSpec}.

Lemma row_region_ones ds n :
  regions_ok n ds → row_region (replicate (length ds) 1) ds n = xor_all n ds.
Proof.
  induction 1 as [|d ds [Hd Hok] Hds IH]; [done|].
  simpl replicate. by rewrite row_region_cons, IH, region_mul_1.
Qed.

Record state_ok (s : t) : Prop := {
  so_k : 0 < k s;
  so_m : 0 < m s;
  so_km : k s + m s ≤ 255;
  so_type : matrixtype s = kVandermonde ∨ matrixtype s = kCauchy;
  so_coeff : encode_coeff s = make_coefficients s;
  so_tbls : take (Z.to_nat (32 * k s * m s)) (encode_tbls s)
            = ec_init_tables (k s) (m s) (drop (Z.to_nat (k s * k s)) (encode_coeff s));
}.

(** The row of the generator matrix for chunk [i]: a single coding chunk is
    the XOR of the data whatever the matrix. *)
Definition code_row (s : t) (i : Z) : list Z :=
  if bool_decide (m s = 1 ∧ i = k s) then replicate (Z.to_nat (k s)) 1
  else matrix_row (k s) (encode_coeff s) i.

Definition data_of (s : t) (w : gmap Z bytes) : list bytes := buf w <$> seqZ 0 (k s).

Definition codeword (s : t) (bs : nat) (w : gmap Z bytes) : Prop :=
  stripe (k s + m s) bs w
  ∧ ∀ i, 0 ≤ i < k s + m s → buf w i = row_region (code_row s i) (data_of s w) bs.

Section configured.
Context (s : t) (Hs : state_ok s).

Lemma coefficients :
  Z.of_nat (length (encode_coeff s)) = (k s + m s) * k s ∧ bytes_ok (encode_coeff s)
  ∧ systematic (k s) (encode_coeff s)
  ∧ (matrixtype s = kVandermonde →
     matrix_row (k s) (encode_coeff s) (k s) = replicate (Z.to_nat (k s)) 1).
Proof.
  destruct Hs as [Hk Hm Hkm Ht -> _]. unfold make_coefficients.
  destruct Ht as [-> | ->]; simpl; split_and!; try done.
  - apply gf_gen_rs_matrix_len; lia.
  - apply gf_gen_rs_matrix_ok; lia.
  - apply gf_gen_rs_matrix_systematic; lia.
  - intros _. apply gf_gen_rs_matrix_ones; lia.
  - apply gf_gen_cauchy1_matrix_len; lia.
  - apply gf_gen_cauchy1_matrix_ok; lia.
  - apply gf_gen_cauchy1_matrix_systematic; lia.
Qed.

Lemma code_row_ok i :
  0 ≤ i < k s + m s → length (code_row s i) = Z.to_nat (k s) ∧ bytes_ok (code_row s i).
Proof.
  intros Hi. destruct coefficients as (Hl & Hok & _). pose proof (so_k _ Hs). unfold code_row.
  case_bool_decide.
  - split; [apply length_replicate|]. apply Forall_replicate. unfold byte_ok. lia.
  - split; [by apply (length_matrix_row _ _ _ (k s + m s)); lia|by apply matrix_row_bytes].
Qed.

Lemma isa_data_regions_ok w bs : stripe (k s + m s) bs w → regions_ok bs (data_of s w).
Proof.
  intros Hst. apply Forall_fmap, Forall_forall. intros i Hi%elem_of_seqZ. simpl.
  pose proof (so_m _ Hs). by apply (stripe_buf _ _ _ _ Hst); lia.
Qed.

Lemma length_data_of w : length (data_of s w) = Z.to_nat (k s).
Proof. unfold data_of. by rewrite length_fmap, length_seqZ. Qed.

Lemma data_of_lookup w i : 0 ≤ i < k s → data_of s w !! Z.to_nat i = Some (buf w i).
Proof.
  intros Hi. unfold data_of. rewrite list_lookup_fmap, lookup_seqZ_lt by lia. simpl.
  by rewrite Z2Nat.id by lia.
Qed.

(** The rows of the data chunks are units: they constrain nothing. *)
Lemma code_row_data w bs i :
  stripe (k s + m s) bs w → 0 ≤ i < k s → row_region (code_row s i) (data_of s w) bs = buf w i.
Proof.
  intros Hst Hi. unfold code_row. rewrite bool_decide_false by lia.
  destruct coefficients as (_ & _ & Hsys & _). rewrite (Hsys i Hi), <-(length_data_of w).
  apply row_region_unit; [by apply isa_data_regions_ok|by apply data_of_lookup].
Qed.

(** The XOR of chunks 0 to k is zero. *)
Lemma codeword_xor w bs :
  codeword s bs w → m s = 1 ∨ matrixtype s = kVandermonde →
  xor_all bs (buf w <$> seqZ 0 (k s + 1)) = zeros bs.
Proof.
  intros [Hst Hcw] Hone. pose proof (so_k _ Hs). pose proof (so_m _ Hs).
  pose proof (isa_data_regions_ok w bs Hst) as Hds.
  assert (code_row s (k s) = replicate (Z.to_nat (k s)) 1) as Hrow.
  { unfold code_row. case_bool_decide as Hb; [done|]. destruct Hone; [tauto|].
    by apply coefficients. }
  assert (buf w (k s) = xor_all bs (data_of s w)) as Hk.
  { rewrite Hcw, Hrow, <-(length_data_of w) by lia. by apply row_region_ones. }
  assert (Forall (λ b, length b = bs) (data_of s w)) as Hlen.
  { eapply Forall_impl; [exact Hds|]. by intros ? [??]. }
  rewrite seqZ_app_snoc, fmap_app by lia. change (fmap (buf w) [k s]) with [buf w (k s)].
  rewrite Hk. fold (data_of s w).
  assert (length (xor_all bs (data_of s w)) = bs) as Hl by (by apply length_xor_all).
  rewrite xor_all_app by (done || by apply Forall_singleton).
  rewrite xor_all_singleton by done. rewrite xor_bytes_self. congruence.
Qed.

(** ** Encoding *)

Lemma regions_of_ids w bs (ids : list Z) :
  stripe (k s + m s) bs w → (∀ i, i ∈ ids → 0 ≤ i < k s + m s) →
  Forall (λ r, bs ≤ length (contents r))%nat (region_of w <$> ids)
  ∧ (λ r, take bs (contents r)) <$> (region_of w <$> ids) = buf w <$> ids.
Proof.
  intros Hst Hids. split.
  - apply Forall_fmap, Forall_forall. intros i Hi%Hids. simpl.
    pose proof (stripe_buf _ _ _ _ Hst Hi) as (_ & -> & _). done.
  - rewrite <-list_fmap_compose. apply list_fmap_ext. intros j i Hi%list_elem_of_lookup_2%Hids. simpl.
    apply take_ge. pose proof (stripe_buf _ _ _ _ Hst Hi) as (_ & -> & _). done.
Qed.

(** The XOR of some chunks into another one. *)
Lemma region_xor_chunks w bs (ids : list Z) e :
  stripe (k s + m s) bs w → (∀ i, i ∈ ids → 0 ≤ i < k s + m s) → 0 ≤ e < k s + m s →
  ids ≠ [] → (length ids ≤ 256)%nat →
  region_xor ceph_arch_intel_sse2 (region_of w <$> ids) (region_of w e) (Z.of_nat bs)
  = Ret (xor_all bs (buf w <$> ids)).
Proof.
  intros Hst Hids He Hne H256. destruct (regions_of_ids w bs ids Hst Hids) as [Hl Hmap].
  rewrite region_xor_correct; [|by destruct ids|by rewrite length_fmap|done|].
  - rewrite Hmap, drop_ge, app_nil_r; [done|]. simpl.
    pose proof (stripe_buf _ _ _ _ Hst He) as (_ & -> & _). done.
  - simpl. pose proof (stripe_buf _ _ _ _ Hst He) as (_ & -> & _). done.
Qed.

(** What [isa_encode] writes to the coding chunks. *)
Lemma isa_encode_spec w bs :
  stripe (k s + m s) bs w →
  ∃ w', isa_encode s w (Z.of_nat bs) = Ret w'
    ∧ dom w' = dom w ∧ (∀ i, ¬ (k s ≤ i < k s + m s) → w' !! i = w !! i)
    ∧ ∀ i, k s ≤ i < k s + m s → w' !! i = Some (row_region (code_row s i) (data_of s w) bs).
Proof.
  intros Hst. pose proof (so_k _ Hs). pose proof (so_m _ Hs). pose proof (so_km _ Hs).
  pose proof (isa_data_regions_ok w bs Hst) as Hds. pose proof (stripe_dom _ _ _ Hst) as Hdom.
  unfold isa_encode. case_bool_decide as Hm1.
  - rewrite region_xor_chunks; [|done|intros i Hi%elem_of_seqZ; lia|lia| |rewrite length_seqZ; lia].
    2: { intros Heq. apply (f_equal length) in Heq. rewrite length_seqZ in Heq. simpl in Heq. lia. }
    simpl. eexists. split; [done|]. split_and!.
    + rewrite dom_insert_L. assert (k s ∈ dom w) by (apply Hdom, elem_of_ids; lia). set_solver.
    + intros i Hi. apply lookup_insert_ne. lia.
    + intros i Hi. assert (i = k s) as -> by lia. rewrite lookup_insert_eq. f_equal.
      fold (data_of s w). unfold code_row. rewrite bool_decide_true by done.
      rewrite <-(length_data_of w). symmetry. by apply row_region_ones.
  - destruct coefficients as (Hcl & Hcok & _). eexists. split; [done|]. fold (data_of s w).
    rewrite (ec_encode_data_spec _ _ _ _ (drop (Z.to_nat (k s * k s)) (encode_coeff s)));
      [|lia|lia|lia| |by apply Forall_drop|apply (so_tbls _ Hs)|by rewrite length_data_of; lia|].
    2: { rewrite length_drop. nia. }
    2: { eapply Forall_impl; [exact Hds|]. intros d [Hd _]. unfold blen. by rewrite Hd. }
    rewrite Nat2Z.id. split_and!.
    + apply store_dom. intros i Hi%elem_of_seqZ. apply Hdom, elem_of_ids. lia.
    + intros i Hi. apply store_other. rewrite elem_of_seqZ. lia.
    + intros i Hi. apply (store_in bs _ _ _ (Z.to_nat (i - k s))).
      * apply NoDup_seqZ.
      * intros j Hj%elem_of_seqZ. by apply (stripe_buf _ _ _ j Hst); lia.
      * rewrite lookup_seqZ_lt by lia. f_equal. lia.
      * rewrite list_lookup_fmap, lookup_seqZ_lt by lia. simpl. f_equal.
        rewrite matrix_row_drop by lia. unfold code_row. rewrite bool_decide_false by lia.
        do 2 f_equal. lia.
      * by apply length_row_region.
Qed.

Lemma encode_chunks_codeword want enc bs :
  stripe (k s + m s) bs enc → dom enc = list_to_set (seqZ 0 (k s + m s)) →
  ∃ enc', encode_chunks s want enc = Ret (0, enc')
    ∧ dom enc' = dom enc ∧ stripe (k s + m s) bs enc' ∧ codeword s bs enc'
    ∧ ∀ i, 0 ≤ i < k s → enc' !! i = enc !! i.
Proof.
  intros Hst Hdom. pose proof (so_k _ Hs). pose proof (so_m _ Hs). unfold encode_chunks.
  assert (∀ i, 0 ≤ i < k s + m s → i ∈ dom enc) as Hin by (intros; rewrite Hdom; by apply elem_of_ids).
  rewrite foldl_touch_id by (intros i Hi%elem_of_seqZ; apply Hin; lia).
  rewrite touch_id by (apply Hin; lia).
  assert (blen (buf enc 0) = Z.of_nat bs) as ->.
  { unfold blen. f_equal. apply (stripe_buf _ _ _ 0 Hst). lia. }
  destruct (isa_encode_spec enc bs Hst) as (w' & -> & Hd & Hother & Hnew).
  cbn [mbind outcome_bind]. exists w'. split; [done|]. split; [done|].
  pose proof (isa_data_regions_ok enc bs Hst) as Hds.
  assert (data_of s w' = data_of s enc) as Hdata.
  { apply list_fmap_ext. intros j i Hi%lookup_seqZ. unfold buf. by rewrite Hother by lia. }
  assert (stripe (k s + m s) bs w') as Hst'.
  { intros i Hi. destruct (decide (k s ≤ i)).
    - rewrite Hnew by lia. eexists. split; [done|].
      split; [by apply length_row_region|]. apply row_region_ok; [|done]. by apply code_row_ok.
    - rewrite Hother by lia. by apply Hst. }
  split_and!; [done| |intros i Hi; apply Hother; lia]. split; [done|]. intros i Hi.
  destruct (decide (k s ≤ i)).
  - unfold buf at 1. rewrite Hnew by lia. simpl. by rewrite Hdata.
  - rewrite code_row_data by (done || lia). done.
Qed.

(** ** Decoding by XOR *)

Lemma sources_xor e :
  0 ≤ e < k s + 1 →
  take (Z.to_nat (k s)) (survivors (k s + m s) [e]) = filter (λ i, i ∉ [e]) (seqZ 0 (k s + 1)).
Proof.
  intros He. pose proof (so_m _ Hs). unfold survivors.
  rewrite (seqZ_split (k s + 1) (k s + m s)), filter_app by lia.
  assert (length (filter (λ i, i ∉ [e]) (seqZ 0 (k s + 1))) = Z.to_nat (k s)) as Hl.
  { pose proof (perm_remove e (seqZ 0 (k s + 1)) (NoDup_seqZ _ _) ltac:(apply elem_of_seqZ; lia)) as Hp.
    apply Permutation_length in Hp. rewrite length_seqZ in Hp. simpl in Hp. lia. }
  by rewrite <-Hl, take_app_length.
Qed.

(** [decoded] holds the chunks of [w] but for the erasures. *)
Definition agrees (E : list Z) (decoded w : gmap Z bytes) : Prop :=
  ∀ i, 0 ≤ i < k s + m s → i ∉ E → decoded !! i = w !! i.

Lemma agrees_bufs E decoded w (ids : list Z) :
  agrees E decoded w → (∀ i, i ∈ ids → 0 ≤ i < k s + m s ∧ i ∉ E) → buf decoded <$> ids = buf w <$> ids.
Proof.
  intros Hag Hids. apply list_fmap_ext. intros j i Hi%list_elem_of_lookup_2%Hids.
  unfold buf. by rewrite Hag by tauto.
Qed.

Lemma xor_decode_spec w bs decoded e :
  codeword s bs w → stripe (k s + m s) bs decoded → agrees [e] decoded w →
  0 ≤ e < k s + 1 → m s = 1 ∨ matrixtype s = kVandermonde →
  region_xor ceph_arch_intel_sse2
    (region_of decoded <$> take (Z.to_nat (k s)) (survivors (k s + m s) [e]))
    (region_of decoded e) (Z.of_nat bs) = Ret (buf w e).
Proof.
  intros Hcw Hst Hag He Hone. pose proof (so_k _ Hs). pose proof (so_m _ Hs). pose proof (so_km _ Hs).
  rewrite sources_xor by done. set (ids := filter _ _).
  pose proof (perm_remove e (seqZ 0 (k s + 1)) (NoDup_seqZ _ _) ltac:(apply elem_of_seqZ; lia)) as Hp.
  fold ids in Hp. pose proof (Permutation_length Hp) as Hl. rewrite length_seqZ in Hl. simpl in Hl.
  assert (∀ i, i ∈ ids → 0 ≤ i < k s + m s ∧ i ∉ [e]) as Hids.
  { intros i [? Hi%elem_of_seqZ]%list_elem_of_filter. split; [lia|done]. }
  rewrite region_xor_chunks; [|done|intros i Hi%Hids; tauto|lia| |lia].
  2: { intros Heq. rewrite Heq in Hl. simpl in Hl. lia. }
  f_equal. rewrite (agrees_bufs [e] decoded w ids) by done.
  pose proof (codeword_xor w bs Hcw Hone) as Hx. destruct Hcw as [Hw _].
  rewrite Hp, fmap_cons, xor_all_cons in Hx. symmetry.
  apply (xor_bytes_eq_zeros _ _ bs); [by apply (stripe_buf _ _ _ e Hw); lia| |done].
  apply length_xor_all, Forall_fmap, Forall_forall. intros i [Hi _]%Hids.
  by apply (stripe_buf _ _ _ i Hw).
Qed.

(** ** Decoding with the inverse matrix *)

Lemma read_row_spec r :
  0 ≤ r < k s + m s → read_row (encode_coeff s) (k s) r = Ret (matrix_row (k s) (encode_coeff s) r).
Proof.
  intros Hr. destruct coefficients as (Hl & _). pose proof (so_k _ Hs). unfold read_row.
  rewrite bool_decide_true; [done|]. nia.
Qed.

(** The rows of the chunks [idx]. *)
Definition rows_of (idx : list Z) : list (list Z) := matrix_row (k s) (encode_coeff s) <$> idx.

Lemma rows_of_ok idx :
  (∀ i, i ∈ idx → 0 ≤ i < k s + m s) →
  Forall (λ r, length r = Z.to_nat (k s) ∧ bytes_ok r) (rows_of idx).
Proof.
  intros Hidx. destruct coefficients as (Hl & Hok & _). pose proof (so_k _ Hs).
  apply Forall_fmap, Forall_forall. intros i Hi%Hidx. simpl.
  split; [by apply (length_matrix_row _ _ _ (k s + m s)); lia|by apply matrix_row_bytes].
Qed.

Lemma codeword_rows w bs idx :
  codeword s bs w → m s ≠ 1 → (∀ i, i ∈ idx → 0 ≤ i < k s + m s) →
  buf w <$> idx = (λ r, row_region r (data_of s w) bs) <$> rows_of idx.
Proof.
  intros [Hst Hcw] Hm Hidx. unfold rows_of. rewrite <-list_fmap_compose. apply list_fmap_ext.
  intros j i Hi%list_elem_of_lookup_2%Hidx. rewrite Hcw by done. unfold code_row.
  by rewrite bool_decide_false by tauto.
Qed.

Lemma matrix_rows_concat (rows : list (list Z)) n :
  Forall (λ r, length r = Z.to_nat n) rows → Z.of_nat (length rows) = n → 0 ≤ n →
  matrix_rows n n (concat rows) = rows.
Proof.
  intros Hrows Hlen Hn. apply list_eq. intros i. unfold matrix_rows. rewrite list_lookup_fmap.
  destruct (decide (Z.of_nat i < n)) as [Hi|Hi].
  - rewrite lookup_seqZ_lt by done. simpl. destruct (lookup_lt_is_Some_2 rows i) as [r Hr]; [lia|].
    rewrite Hr, Z.add_0_l. f_equal. by apply matrix_row_concat.
  - rewrite lookup_seqZ_ge by lia. symmetry. apply lookup_ge_None. lia.
Qed.

Lemma length_concat_rows (rows : list (list Z)) (n : nat) :
  Forall (λ r, length r = n) rows → length (concat rows) = (n * length rows)%nat.
Proof. induction 1 as [|r rows Hr Hrows IH]; simpl; [lia|]. rewrite length_app, IH. lia. Qed.

Section inverse.
Context (idx : list Z) (Hidx : ∀ i, i ∈ idx → 0 ≤ i < k s + m s).
Context (Hlen : Z.of_nat (length idx) = k s) (d : list Z).
Context (Hd : gf_invert_matrix (concat (rows_of idx)) (k s) = Some d).

Lemma inverse_ok :
  Z.of_nat (length d) = k s * k s ∧ bytes_ok d
  ∧ ∀ i, 0 ≤ i < k s → row_region (matrix_row (k s) d i) (rows_of idx) (Z.to_nat (k s))
                        = unit_row (Z.to_nat (k s)) (Z.to_nat i).
Proof.
  pose proof (so_k _ Hs). pose proof (rows_of_ok idx Hidx) as Hrows.
  assert (Forall (λ r, length r = Z.to_nat (k s)) (rows_of idx)) as Hl.
  { eapply Forall_impl; [exact Hrows|]. by intros ? [??]. }
  assert (length (rows_of idx) = length idx) as Hli by apply length_fmap.
  destruct (gf_invert_matrix_spec (concat (rows_of idx)) (k s) d) as (H1 & H2 & H3); [lia| | |done|].
  - rewrite (length_concat_rows _ (Z.to_nat (k s))) by done. nia.
  - apply Forall_concat. eapply Forall_impl; [exact Hrows|]. by intros ? [_ ?].
  - rewrite matrix_rows_concat in H3 by (done || lia). done.
Qed.

(** The rows of the inverse applied to the sources give the data. *)
Lemma inverse_data w bs e :
  codeword s bs w → m s ≠ 1 → 0 ≤ e < k s →
  row_region (matrix_row (k s) d e) (buf w <$> idx) bs = buf w e.
Proof.
  intros Hcw Hm He. destruct inverse_ok as (_ & Hdok & Hinv).
  pose proof (isa_data_regions_ok w bs (proj1 Hcw)) as Hds.
  rewrite (codeword_rows w bs idx) by done. rewrite row_region_compose; [|by apply matrix_row_bytes| |done].
  2: { rewrite length_data_of. by apply rows_of_ok. }
  rewrite length_data_of, Hinv, <-(length_data_of w) by done.
  apply row_region_unit; [done|by apply data_of_lookup].
Qed.

Lemma inverse_all w bs :
  codeword s bs w → m s ≠ 1 →
  (λ r, row_region r (buf w <$> idx) bs) <$> matrix_rows (k s) (k s) d = data_of s w.
Proof.
  intros Hcw Hm. unfold matrix_rows, data_of. rewrite <-list_fmap_compose. apply list_fmap_ext.
  intros j i Hi%lookup_seqZ. simpl. apply inverse_data; (done || lia).
Qed.

End inverse.

Lemma foldl_lxor {A} (f : A → Z) l :
  foldl (λ acc x, Z.lxor acc (f x)) 0 l = foldr (λ x acc, Z.lxor (f x) acc) 0 l.
Proof.
  assert (∀ a, foldl (λ acc x, Z.lxor acc (f x)) a l
    = Z.lxor a (foldr (λ x acc, Z.lxor (f x) acc) 0 l)) as Hgen.
  { induction l as [|x l IH]; intros a; simpl; [by rewrite Z.lxor_0_r|].
    by rewrite IH, Z.lxor_assoc. }
  by rewrite Hgen, Z.lxor_0_l.
Qed.

Lemma xor_all_lookup n (l : list bytes) i :
  Forall (λ b, length b = n) l → (i < n)%nat →
  xor_all n l !! i = Some (foldr (λ b acc, Z.lxor (b !!! i) acc) 0 l).
Proof.
  intros Hl Hi. induction Hl as [|b l Hb Hl IH].
  - unfold xor_all, zeros. simpl. by rewrite lookup_replicate_2.
  - rewrite xor_all_cons. unfold xor_bytes. rewrite lookup_zip_with.
    rewrite (list_lookup_lookup_total_lt b i), IH by lia. done.
Qed.

Lemma matrix_row_lookup n a i j :
  0 ≤ i < n → 0 ≤ j < n → Z.of_nat (length a) = n * n →
  matrix_row n a j !!! Z.to_nat i = a !!! Z.to_nat (j * n + i).
Proof.
  intros Hi Hj Hl. rewrite !list_lookup_total_alt. f_equal. unfold matrix_row.
  rewrite lookup_take_lt, lookup_drop by lia. f_equal. nia.
Qed.

(** The coefficients of a coding chunk are its row times the inverse. *)
Lemma recovery_row_product (d coeff : list Z) :
  Z.of_nat (length d) = k s * k s → bytes_ok d →
  Z.of_nat (length coeff) = k s → bytes_ok coeff →
  (λ i, foldl (λ acc j,
       Z.lxor acc (gf_mul (d !!! Z.to_nat (j * k s + i)) (coeff !!! Z.to_nat j))) 0 (seqZ 0 (k s)))
    <$> seqZ 0 (k s)
  = row_region coeff (matrix_rows (k s) (k s) d) (Z.to_nat (k s)).
Proof.
  intros Hld Hd Hlc Hc. pose proof (so_k _ Hs). apply list_eq_same_length with (Z.to_nat (k s)).
  { rewrite length_row_region; [done|]. apply Forall_fmap, Forall_forall.
    intros j Hj%elem_of_seqZ. simpl.
    split; [by apply (length_matrix_row _ _ _ (k s)); lia|by apply matrix_row_bytes]. }
  { by rewrite length_fmap, length_seqZ. }
  intros p x y Hp Hx Hy. rewrite list_lookup_fmap, lookup_seqZ_lt in Hx by lia. simpl in Hx.
  injection Hx as <-. unfold row_region in Hy.
  assert (zip_with region_mul coeff (matrix_rows (k s) (k s) d)
    = (λ j, region_mul (coeff !!! Z.to_nat j) (matrix_row (k s) d j)) <$> seqZ 0 (k s)) as Hzip.
  { apply list_eq. intros q. unfold matrix_rows. rewrite lookup_zip_with, !list_lookup_fmap.
    destruct (decide (Z.of_nat q < k s)).
    - rewrite lookup_seqZ_lt, (list_lookup_lookup_total_lt coeff q) by lia. simpl. do 3 f_equal; lia.
    - rewrite lookup_seqZ_ge by lia. simpl. by destruct (coeff !! q). }
  rewrite Hzip, xor_all_lookup in Hy; [|apply Forall_fmap, Forall_forall|done].
  2: { intros j Hj%elem_of_seqZ. simpl. rewrite length_region_mul.
       by apply (length_matrix_row _ _ _ (k s)); lia. }
  injection Hy as <-. rewrite foldl_lxor, foldr_fmap. rewrite Z.add_0_l.
  assert (∀ j, j ∈ seqZ 0 (k s) → 0 ≤ j < k s) as Hin by (intros j Hj%elem_of_seqZ; lia).
  clear Hzip. induction (seqZ 0 (k s)) as [|j l IH]; simpl; [done|].
  rewrite IH by (intros; apply Hin; by right). f_equal.
  specialize (Hin j ltac:(left)). clear IH.
  assert (bytes_ok (matrix_row (k s) d j)) as Hrow by (by apply matrix_row_bytes).
  assert (byte_ok (coeff !!! Z.to_nat j)).
  { apply (Forall_lookup_total_1 _ _ _ Hc). lia. }
  assert (length (matrix_row (k s) d j) = Z.to_nat (k s)) as Hl.
  { by apply (length_matrix_row _ _ _ (k s)); lia. }
  unfold region_mul. rewrite (list_lookup_total_fmap _ _ p) by lia.
  rewrite <-(Nat2Z.id p) at 2. rewrite matrix_row_lookup by lia.
  assert (byte_ok (d !!! Z.to_nat (j * k s + Z.of_nat p))).
  { apply (Forall_lookup_total_1 _ _ _ Hd). nia. }
  rewrite gf_mul_galois by done. by apply gf_mul_comm.
Qed.

Lemma recovery_row_spec (idx d : list Z) e :
  (∀ i, i ∈ idx → 0 ≤ i < k s + m s) → Z.of_nat (length idx) = k s →
  gf_invert_matrix (concat (rows_of idx)) (k s) = Some d → 0 ≤ e < k s + m s →
  ∃ row, recovery_row s d e = Ret row ∧ length row = Z.to_nat (k s) ∧ bytes_ok row
    ∧ ∀ w bs, codeword s bs w → m s ≠ 1 → row_region row (buf w <$> idx) bs = buf w e.
Proof.
  intros Hidx Hlen Hd He. pose proof (so_k _ Hs).
  destruct (inverse_ok idx Hidx Hlen d Hd) as (Hld & Hdok & _).
  unfold recovery_row. case_bool_decide as Hek.
  - eexists. split; [done|]. split_and!.
    + by apply (length_matrix_row _ _ _ (k s)); lia.
    + by apply matrix_row_bytes.
    + intros. apply inverse_data; (done || lia).
  - rewrite read_row_spec by done. cbn [mbind outcome_bind]. eexists. split; [done|].
    destruct coefficients as (Hcl & Hcok & _).
    set (coeff := matrix_row (k s) (encode_coeff s) e).
    assert (length coeff = Z.to_nat (k s)) as Hlc.
    { by apply (length_matrix_row _ _ _ (k s + m s)); lia. }
    assert (bytes_ok coeff) by (by apply matrix_row_bytes).
    assert (regions_ok (Z.to_nat (k s)) (matrix_rows (k s) (k s) d)) as Hrows.
    { apply Forall_fmap, Forall_forall. intros j Hj%elem_of_seqZ. simpl.
      split; [by apply (length_matrix_row _ _ _ (k s)); lia|by apply matrix_row_bytes]. }
    rewrite recovery_row_product by (done || lia). split_and!.
    + by apply length_row_region.
    + by apply row_region_ok.
    + intros w bs Hcw Hm. pose proof Hcw as [Hst Hrow].
      assert (regions_ok bs (buf w <$> idx)) as Hsrc.
      { apply Forall_fmap, Forall_forall. intros i Hi%Hidx. by apply (stripe_buf _ _ _ i Hst). }
      assert (length (buf w <$> idx) = Z.to_nat (k s)) as Hsl by (rewrite length_fmap; lia).
      rewrite <-Hsl, <-row_region_compose; [|done|rewrite Hsl; exact Hrows|done].
      rewrite inverse_all by done. rewrite Hrow by done. unfold code_row.
      by rewrite bool_decide_false by tauto.
Qed.

(** The rows of [c], applied to the sources [idx], give the erased chunks. *)
Definition restores (idx E c : list Z) : Prop :=
  ∀ w bs p e, codeword s bs w → m s ≠ 1 → E !! p = Some e →
    row_region (matrix_row (k s) c (Z.of_nat p)) (buf w <$> idx) bs = buf w e.

Lemma recovery_matrix_spec idx E :
  (∀ i, i ∈ idx → 0 ≤ i < k s + m s) → Z.of_nat (length idx) = k s →
  (∀ e, e ∈ E → 0 ≤ e < k s + m s) →
  match gf_invert_matrix (concat (rows_of idx)) (k s) with
  | None => recovery_matrix s idx E = Ret None
  | Some d => ∃ c, recovery_matrix s idx E = Ret (Some c)
      ∧ Z.of_nat (length c) = k s * Z.of_nat (length E) ∧ bytes_ok c ∧ restores idx E c
  end.
Proof.
  intros Hidx Hlen HE. unfold recovery_matrix.
  rewrite (foldM_concat _ (matrix_row (k s) (encode_coeff s))) by (intros; by apply read_row_spec, Hidx).
  cbn [mbind outcome_bind]. simpl app. fold (rows_of idx).
  destruct (gf_invert_matrix _ _) as [d|] eqn:Hd; [|done].
  assert (∀ e, e ∈ E → ∃ row, recovery_row s d e = Ret row ∧ length row = Z.to_nat (k s) ∧ bytes_ok row
    ∧ ∀ w bs, codeword s bs w → m s ≠ 1 → row_region row (buf w <$> idx) bs = buf w e) as Hrow.
  { intros e He%HE. by apply recovery_row_spec. }
  set (g e := match recovery_row s d e with Ret row => row | Abort _ => [] end).
  rewrite (foldM_concat _ g).
  2: { intros e He. destruct (Hrow e He) as (row & Heq & _). unfold g. by rewrite Heq. }
  cbn [mbind outcome_bind]. simpl app. eexists. split; [done|].
  assert (Forall (λ r, length r = Z.to_nat (k s)) (g <$> E)) as Hgl.
  { apply Forall_fmap, Forall_forall. intros e He. destruct (Hrow e He) as (row & Heq & Hl & _).
    unfold g. simpl. by rewrite Heq. }
  pose proof (so_k _ Hs). split_and!.
  - rewrite (length_concat_rows _ (Z.to_nat (k s))), length_fmap by done. lia.
  - apply Forall_concat, Forall_fmap, Forall_forall. intros e He.
    destruct (Hrow e He) as (row & Heq & _ & Hok & _). unfold g. simpl. by rewrite Heq.
  - intros w bs p e Hcw Hm Hp.
    rewrite (matrix_row_concat _ (g <$> E) p (g e)); [|lia|done|by rewrite list_lookup_fmap, Hp].
    apply list_elem_of_lookup_2 in Hp. destruct (Hrow e Hp) as (row & Heq & _ & _ & Hrec).
    unfold g. rewrite Heq. by apply Hrec.
Qed.

(** ** The cached tables *)

(** A table that multiplies by the recovery matrix of the sources [idx] and
    the erasures [E]. *)
Definition table_ok (idx E : list Z) (tbls : bytes) : Prop :=
  ∃ c, recovery_matrix s idx E = Ret (Some c)
    ∧ take (Z.to_nat (32 * k s * Z.of_nat (length E))) tbls
      = ec_init_tables (k s) (Z.of_nat (length E)) c.

(** The tables that the cache holds for codecs with the [k], [m] and matrix of
    this one are right. *)
Definition cache_sound (tcache : IsaCache.t) : Prop :=
  IsaCache.cache_ok tcache
  ∧ ∀ idx E it b, Forall (λ i, 0 ≤ i) (idx ++ E) → Z.of_nat (length idx) = k s →
      IsaCache.getDecodingTables tcache (matrixtype s) !! erasure_signature idx E = Some (it, b) →
      blen b = IsaCache.table_size (k s) (m s) ∧ table_ok idx E b.

Lemma cache_sound_empty : cache_sound IsaCache.empty.
Proof. split; [apply IsaCache.cache_ok_empty|]. intros idx E it b _ _ H. by vm_compute in H. Qed.

Lemma decoding_table_spec tcache idx E :
  cache_sound tcache →
  (∀ i, i ∈ idx → 0 ≤ i < k s + m s) → Z.of_nat (length idx) = k s →
  (∀ e, e ∈ E → 0 ≤ e < k s + m s) → Z.of_nat (length E) ≤ m s →
  ∃ o tcache', decoding_table s tcache idx E = Ret (o, tcache') ∧ cache_sound tcache'
    ∧ match o with
      | Some tbls => table_ok idx E tbls
      | None => gf_invert_matrix (concat (rows_of idx)) (k s) = None
      end.
Proof.
  intros [Hc Hsound] Hidx Hlen HE Hm. pose proof (so_k _ Hs).
  assert (0 ≤ IsaCache.table_size (k s) (m s)) as Hpos by (unfold IsaCache.table_size; nia).
  pose proof (uninitialised_len _ Hpos) as Hul. unfold decoding_table.
  set (n := IsaCache.table_size (k s) (m s)) in *. set (sig := erasure_signature idx E).
  assert (Forall (λ i, 0 ≤ i) (idx ++ E)) as Hnn.
  { apply Forall_app. split; apply Forall_forall; [intros i Hi%Hidx|intros i Hi%HE]; lia. }
  destruct (IsaCache.get_ok tcache sig (uninitialised n) (matrixtype s) (k s) (m s))
    as (tbl & tc1 & -> & Hc1 & Htab & _ & Hres); [done|fold n; lia| |].
  { intros it b Hb. by apply (Hsound idx E it b). }
  assert (cache_sound tc1) as Hs1.
  { split; [done|]. intros idx' E' it b ?? Hb. rewrite Htab in Hb. by apply (Hsound idx' E' it b). }
  cbn [mbind outcome_bind].
  destruct (IsaCache.getDecodingTables tcache (matrixtype s) !! sig) as [[it b]|] eqn:Hb.
  { rewrite bool_decide_true by eauto. eexists _, _. split; [done|]. split; [done|].
    destruct Hres as [-> _]. destruct (Hsound idx E it b Hnn Hlen Hb) as [Hbl Hok].
    fold n. rewrite (drop_ge (uninitialised n)) by (unfold blen in *; lia). by rewrite app_nil_r. }
  rewrite bool_decide_false by (by intros []). destruct Hres as [-> _].
  pose proof (recovery_matrix_spec idx E Hidx Hlen HE) as Hrec.
  destruct (gf_invert_matrix _ _) as [d|] eqn:Hd.
  2: { rewrite Hrec. cbn [mbind outcome_bind]. eexists _, _. by split. }
  destruct Hrec as (c & Hrec & Hcl & Hcok & Hrest). rewrite Hrec. cbn [mbind outcome_bind].
  pose proof (ec_init_tables_len (k s) (Z.of_nat (length E)) c ltac:(lia) ltac:(lia) Hcl) as Htl.
  set (tbls := ec_init_tables (k s) (Z.of_nat (length E)) c) in *.
  assert (blen tbls ≤ n) as Hfit by (unfold n, IsaCache.table_size; nia).
  unfold memcpy at 1. rewrite bool_decide_true by lia. cbn [mbind outcome_bind].
  set (full := take (Z.to_nat (blen tbls)) tbls ++ drop (Z.to_nat (blen tbls)) (uninitialised n)).
  assert (full = tbls ++ drop (Z.to_nat (blen tbls)) (uninitialised n)) as Hfull.
  { unfold full. by rewrite (take_ge tbls) by (unfold blen; lia). }
  assert (blen full = n) as Hfl.
  { rewrite Hfull. unfold blen in *. rewrite length_app, length_drop. lia. }
  assert (table_ok idx E full) as Hok.
  { exists c. split; [done|]. rewrite Hfull. apply take_app_length'. fold tbls. unfold blen in Htl. lia. }
  destruct (IsaCache.put_ok tc1 sig full (matrixtype s) (k s) (m s))
    as (tc2 & kept & -> & Hc2 & _ & _ & Hnew & Hold & _); [done..|].
  cbn [mbind outcome_bind]. eexists _, _. split; [done|]. split; [|done].
  split; [done|]. intros idx' E' it b Hnn' Hlen' Hb'.
  destruct (decide (erasure_signature idx' E' = sig)) as [Heq|Hne].
  - apply erasure_signature_inj in Heq as [-> ->]; [|done..].
    fold sig in Hb'. rewrite Hnew in Hb'. injection Hb' as <- <-. done.
  - rewrite Hold in Hb' by done. revert Hb'. case_bool_decide; [done|]. by apply (proj2 Hs1).
Qed.

(** ** Decoding *)

(** The first [k] survivors have an inverse. *)
Definition invertible (E : list Z) : Prop :=
  gf_invert_matrix (concat (rows_of (take (Z.to_nat (k s)) (survivors (k s + m s) E)))) (k s) ≠ None.

Lemma sources_length E :
  filter (λ i, i ∈ E) (seqZ 0 (k s + m s)) = E → Z.of_nat (length E) ≤ m s →
  length (take (Z.to_nat (k s)) (survivors (k s + m s) E)) = Z.to_nat (k s).
Proof.
  intros HE Hm. pose proof (so_k _ Hs). pose proof (so_m _ Hs). rewrite length_take. unfold survivors.
  pose proof (Permutation_length (filter_app_complement (λ i, i ∈ E) (seqZ 0 (k s + m s)))) as Hp.
  rewrite length_app, length_seqZ, HE in Hp.
  lia.
Qed.

(** The decoding of one stripe, with any sound cache: the erased chunks are
    restored and the cache stays sound; when the matrix of the sources has no
    inverse, and only then, -1 is returned. *)
Lemma isa_decode_spec tcache E w bs decoded :
  cache_sound tcache → codeword s bs w → stripe (k s + m s) bs decoded →
  filter (λ i, i ∈ E) (seqZ 0 (k s + m s)) = E → (0 < length E)%nat → Z.of_nat (length E) ≤ m s →
  agrees E decoded w →
  ∃ err decoded' tcache', isa_decode s tcache E decoded (Z.of_nat bs) = Ret (err, decoded', tcache')
    ∧ cache_sound tcache'
    ∧ (err = 0 ∧ (∀ i, 0 ≤ i < k s + m s → decoded' !! i = w !! i)
       ∨ err = -1 ∧ m s ≠ 1 ∧ ¬ invertible E).
Proof.
  intros Hcs Hcw Hst HE Hpos Hm Hag. pose proof (so_k _ Hs). pose proof (so_m _ Hs).
  assert (∀ e, e ∈ E → 0 ≤ e < k s + m s) as HEr.
  { intros e He. rewrite <-HE in He. apply list_elem_of_filter in He as [_ He%elem_of_seqZ]. lia. }
  assert (NoDup E) as HEnd by (rewrite <-HE; apply NoDup_filter, NoDup_seqZ).
  unfold isa_decode. rewrite assign_spec by (done || lia).
  set (src := take (Z.to_nat (k s)) (survivors (k s + m s) E)).
  assert (∀ i, i ∈ src → 0 ≤ i < k s + m s ∧ i ∉ E) as Hsrc.
  { intros i (j & Hj & _)%elem_of_take. apply list_elem_of_lookup_2, list_elem_of_filter in Hj as [? Hj%elem_of_seqZ].
    split; [lia|done]. }
  assert (length src = Z.to_nat (k s)) as Hsl by (by apply sources_length).
  assert (∀ e, E = [e] → e < k s + 1 → m s = 1 ∨ matrixtype s = kVandermonde →
    ∃ err decoded' tcache',
      (target ← need NullPointer (head E);
       parity ← region_xor ceph_arch_intel_sse2 (region_of decoded <$> src) (region_of decoded target) (Z.of_nat bs);
       Ret (0, <[target := parity]> decoded, tcache)) = Ret (err, decoded', tcache')
    ∧ cache_sound tcache'
    ∧ (err = 0 ∧ (∀ i, 0 ≤ i < k s + m s → decoded' !! i = w !! i)
       ∨ err = -1 ∧ m s ≠ 1 ∧ ¬ invertible E)) as Hxor.
  { intros e -> He Hone. specialize (HEr e ltac:(left)). cbn [hd_error need mbind outcome_bind].
    unfold src. rewrite (xor_decode_spec w bs) by (done || lia). cbn [mbind outcome_bind].
    eexists _, _, _. split; [done|]. split; [done|]. left. split; [done|]. intros i Hi.
    destruct (decide (i = e)) as [->|Hne].
    - rewrite lookup_insert_eq. symmetry. by apply (stripe_buf _ _ _ _ (proj1 Hcw)).
    - rewrite lookup_insert_ne by done. apply Hag; [done|]. set_solver. }
  case_bool_decide as Hm1.
  { rewrite bool_decide_true by lia. cbn [assert_that mbind outcome_bind].
    destruct E as [|e [|]]; simpl in *; try lia. apply (Hxor e); [done| |by left].
    specialize (HEr e ltac:(left)). lia. }
  destruct (_ && _ && _) eqn:Hvan.
  { apply andb_true_iff in Hvan as [[Hv H1]%andb_true_iff He].
    apply bool_decide_eq_true in Hv, H1, He.
    destruct E as [|e [|]]; simpl in *; try lia. rewrite !bool_decide_true by lia.
    cbn [assert_that mbind outcome_bind].
    apply (Hxor e); [done|done|by right]. }
  clear Hxor. rewrite bool_decide_false by lia.
  rewrite (decode_indexes_spec _ _ _ (k s + m s)).
  2: { fold (survivors (k s + m s) E). unfold src in Hsl. rewrite length_take in Hsl. lia. }
  fold (survivors (k s + m s) E). fold src.
  destruct (decoding_table_spec tcache src E) as (o & tc' & -> & Hcs' & Ho);
    [done|intros i Hi%Hsrc; tauto|lia|done|done|].
  cbn [mbind outcome_bind]. destruct o as [tbls|].
  2: { eexists _, _, _. split; [done|]. split; [done|]. right. split_and!; [done..|].
       unfold invertible. fold src. rewrite Ho. tauto. }
  destruct Ho as (c & Hrec & Htbl).
  pose proof (recovery_matrix_spec src E ltac:(intros i Hi%Hsrc; tauto) ltac:(lia) HEr) as Hspec.
  destruct (gf_invert_matrix _ _) as [d|]; [|congruence].
  destruct Hspec as (c' & Hrec' & Hcl & Hcok & Hrest). rewrite Hrec in Hrec'. injection Hrec' as <-.
  eexists _, _, _. split; [done|]. split; [done|]. left. split; [done|].
  rewrite (agrees_bufs E decoded w src) by done.
  rewrite (ec_encode_data_spec _ _ _ _ c); [|lia|lia|lia|done|done|done|rewrite length_fmap; lia|].
  2: { apply Forall_fmap, Forall_forall. intros i [Hi _]%Hsrc. unfold blen. simpl. f_equal.
       by apply (stripe_buf _ _ _ _ (proj1 Hcw)). }
  rewrite Nat2Z.id. intros i Hi. destruct (decide (i ∈ E)) as [HiE|HiE].
  - pose proof HiE as [p Hp]%list_elem_of_lookup. pose proof (stripe_buf _ _ _ _ (proj1 Hcw) Hi) as (-> & Hbl & _).
    apply (store_in bs _ _ _ p); [done| |done| |done].
    + intros j Hj%HEr. by apply (stripe_buf _ _ _ _ Hst).
    + rewrite list_lookup_fmap, lookup_seqZ_lt by (apply lookup_lt_Some in Hp; lia). simpl.
      f_equal. by apply Hrest.
  - rewrite store_other by done. by apply Hag.
Qed.

Lemma decode_chunks_restores tcache want chunks decoded w bs :
  cache_sound tcache → codeword s bs w → chunks ⊆ w → chunks ≠ ∅ →
  dom chunks ⊆ list_to_set (seqZ 0 (k s + m s)) →
  stripe (k s + m s) bs decoded → chunks ⊆ decoded →
  let E := filter (λ i, i ∉ dom chunks) (seqZ 0 (k s + m s)) in
  (0 < length E)%nat → Z.of_nat (length E) ≤ m s →
  ∃ err decoded' tcache', decode_chunks s tcache want chunks decoded = Ret (err, decoded', tcache')
    ∧ cache_sound tcache'
    ∧ (err = 0 ∧ (∀ i, 0 ≤ i < k s + m s → decoded' !! i = w !! i)
       ∨ err = -1 ∧ m s ≠ 1 ∧ ¬ invertible E).
Proof.
  intros Hcs Hcw Hsub Hne Hdom Hst Hsubd E HEpos HEm. unfold decode_chunks.
  destruct (map_first_Some chunks Hne) as (i0 & b0 & -> & Hb0). cbn [need mbind outcome_bind].
  assert (blen b0 = Z.of_nat bs) as ->.
  { pose proof (lookup_weaken _ _ _ _ Hb0 Hsub) as Hw0.
    apply elem_of_dom_2, Hdom, elem_of_ids in Hb0.
    destruct (stripe_buf _ _ _ _ (proj1 Hcw) Hb0) as (Hl & Hbl & _). unfold blen. congruence. }
  fold E. rewrite foldl_touch_id.
  2: { intros i Hi%elem_of_seqZ. apply (stripe_dom _ _ _ Hst), elem_of_ids. lia. }
  rewrite bool_decide_true by done. cbn [assert_that mbind outcome_bind].
  apply (isa_decode_spec _ _ w); try done; [by apply filter_elem_of_filter|].
  intros i Hi HiE. assert (i ∈ dom chunks) as [b Hb]%elem_of_dom.
  { apply dec_stable. intros Hn. apply HiE, list_elem_of_filter. split; [done|]. apply elem_of_seqZ. lia. }
  rewrite (lookup_weaken _ _ _ _ Hb Hsub). by apply (lookup_weaken _ _ _ _ Hb).
Qed.

(** Every choice of [k] chunks determines the data: the matrix of their rows
    has an inverse. One coding chunk, the XOR of the data, needs no matrix. *)
Definition mds : Prop :=
  m s = 1 ∨ ∀ E, filter (λ i, i ∈ E) (seqZ 0 (k s + m s)) = E → (0 < length E)%nat →
    Z.of_nat (length E) ≤ m s → invertible E.

Lemma isa_decode_enough tcache want chunks decoded w bs :
  cache_sound tcache → mds → codeword s bs w → chunks ⊆ w →
  dom chunks ⊆ list_to_set (seqZ 0 (k s + m s)) →
  dom chunks ≠ list_to_set (seqZ 0 (k s + m s)) → k s ≤ Z.of_nat (size (dom chunks)) →
  stripe (k s + m s) bs decoded → chunks ⊆ decoded →
  ∃ decoded', ErasureCode.decode_chunks (codec s tcache) want chunks decoded = Ret (0, decoded')
    ∧ ∀ i, 0 ≤ i < k s + m s → decoded' !! i = w !! i.
Proof.
  intros Hcs Hmds Hcw Hsub Hdom Hne Hsize Hst Hsubd. pose proof (so_k _ Hs). pose proof (so_m _ Hs).
  set (E := filter (λ i, i ∉ dom chunks) (seqZ 0 (k s + m s))).
  pose proof (missing_size (dom chunks) (k s + m s) Hdom) as Hms. fold E in Hms.
  rewrite size_difference in Hms by done.
  assert (size (list_to_set (seqZ 0 (k s + m s)) : gset Z) = Z.to_nat (k s + m s)) as Hall.
  { rewrite size_list_to_set by apply NoDup_seqZ. apply length_seqZ. }
  assert (size (dom chunks) < size (list_to_set (seqZ 0 (k s + m s)) : gset Z))%nat as Hlt.
  { apply subset_size. set_solver. }
  rewrite Hall in Hms, Hlt.
  pose proof (decode_chunks_restores tcache want chunks decoded w bs Hcs Hcw Hsub) as Hd.
  cbv zeta in Hd. fold E in Hd.
  destruct Hd as (err & dec & tc & Hdec & _ & Hres); [|done..|lia|lia|].
  { intros ->. rewrite dom_empty_L, size_empty in Hsize. lia. }
  destruct Hres as [[-> Hres]|(_ & Hm1 & Hinv)].
  - exists dec. split; [|done]. simpl. by rewrite Hdec.
  - destruct Hmds as [?|Hmds]; [done|]. destruct Hinv.
    apply Hmds; [by apply filter_elem_of_filter|lia..].
Qed.

Lemma isa_mds_spec tcache :
  cache_sound tcache → mds → MdsSpec (codec s tcache) any_size (codeword s).
Proof.
  intros Hcs Hmds. pose proof (so_k _ Hs). pose proof (so_m _ Hs). pose proof (so_km _ Hs).
  split; cbn [codec get_chunk_count get_data_chunk_count].
  - lia.
  - lia.
  - intros want enc bs Hst _ _ Hdom. by apply encode_chunks_codeword.
  - intros want chunks decoded w bs Hcw _ _ Hst Hdw Hsub Hne Hsize Hstd _ Hsubd.
    pose proof (subseteq_dom _ _ Hsub) as Hdom. rewrite Hdw in *.
    rewrite size_difference in Hsize by done.
    assert (size (list_to_set (seqZ 0 (k s + m s)) : gset Z) = Z.to_nat (k s + m s)) as Hall.
    { rewrite size_list_to_set by apply NoDup_seqZ. apply length_seqZ. }
    apply (isa_decode_enough _ _ _ _ w bs); try done. lia.
Qed.

Lemma get_chunk_size_ok len :
  0 < len ≤ MAX_OBJECT →
  ∃ bs, get_chunk_size s len = Ret bs ∧ 0 < bs ∧ bs mod get_alignment = 0 ∧ len ≤ k s * bs < 2 ^ 32.
Proof.
  intros Hlen. pose proof (so_k _ Hs). pose proof (so_m _ Hs). pose proof (so_km _ Hs).
  unfold MAX_OBJECT in Hlen. unfold get_chunk_size. rewrite bool_decide_false by lia.
  rewrite !u32_small by lia. eexists. split; [done|].
  apply (padded_chunk (k s) get_alignment len); unfold get_alignment, EC_ISA_ADDRESS_ALIGNMENT; lia.
Qed.

(** Without a chunk mapping the plugin keeps what the base class asks of it:
    any [k] chunks are enough. *)
Lemma isa_codec_spec tcache :
  base_mapping s = [] → cache_sound tcache → mds →
  CodecSpec (codec s tcache) MAX_OBJECT any_size (codeword s) (λ have _, k s ≤ Z.of_nat (size have)).
Proof.
  intros Hmap Hcs Hmds. pose proof (so_k _ Hs). pose proof (so_m _ Hs). pose proof (so_km _ Hs).
  assert (∀ i, chunk_index [] i = i) as Hidx.
  { intros i. unfold chunk_index. by case_bool_decide. }
  split; cbn [codec get_chunk_count get_data_chunk_count chunk_mapping].
  - lia.
  - lia.
  - by left.
  - intros len Hlen. destruct (get_chunk_size_ok len Hlen) as (bs & ? & ? & _ & ?). by exists bs.
  - intros bs w [Hst _]. done.
  - intros want enc bs _ Hst _ _ Hdom. rewrite Hmap.
    destruct (encode_chunks_codeword want enc bs Hst Hdom) as (enc' & ? & ? & _ & ? & Hdata).
    exists enc'. split_and!; [done..|]. intros i Hi. rewrite Hidx. by apply Hdata.
  - intros want chunks decoded w bs Hcw _ Hsub Hne Hwant Hdom Hst Hsubd Hsize Hnot.
    destruct (isa_decode_enough tcache want chunks decoded w bs) as (dec & Hdec & Hres); try done.
    + intros Heq. apply Hnot. by rewrite Heq.
    + exists dec. split; [done|]. intros i Hi. apply Hres. by apply elem_of_ids, Hwant.
Qed.

End configured.
End isa.
