(* ===== verification/IsaL8.v ===== *)
(** * An implementation of the ISA-L interface

    GF(2^8) versions of the matrix and table routines the ISA plugin calls.
    They show that the laws of [IsaLSpec] can hold together, and make the
    definitions of the plugin executable. *)

From S2P Require Import Prelude Strtol Galois ErasureCode CrushRules XorOp IsaCache Isa.

(** [n] powers of [g], from 1 on. *)
Fixpoint gf8_powers (n : nat) (g p : Z) : list Z :=
  match n with O => [] | S n => p :: gf8_powers n g (gf8_mul p g) end.

Fixpoint gf8_pow2 (n : nat) : Z := match n with O => 1 | S n => gf8_mul (gf8_pow2 n) 2 end.

(** A generator matrix: the identity over the given rows. *)
Definition over_identity (k m : Z) (row : Z → list Z) : list (list Z) :=
  (λ i, if bool_decide (i < k) then unit_row (Z.to_nat k) (Z.to_nat i) else row i) <$> seqZ 0 m.

Definition gf8_rs_row (k i : Z) : list Z :=
  gf8_powers (Z.to_nat k) (gf8_pow2 (Z.to_nat (i - k))) 1.
Definition gf8_cauchy_row (k i : Z) : list Z :=
  (λ j, gf8_div 1 (Z.lxor i j)) <$> seqZ 0 k.

(** One step of Gauss-Jordan elimination on augmented rows. *)
Definition gj_step (rows : list (list Z)) (c : nat) : option (list (list Z)) :=
  '(p, pivot) ← list_find (λ r : list Z, r !!! c ≠ 0) (drop c rows);
  let pivot := gf8_mul (gf8_div 1 (pivot !!! c)) <$> pivot in
  let rest := take c rows ++ take p (drop c rows) ++ drop (S p) (drop c rows) in
  let rest := (λ r : list Z, r ⊻ (gf8_mul (r !!! c) <$> pivot)) <$> rest in
  Some (take c rest ++ [pivot] ++ drop c rest).

Definition gauss_jordan (n : nat) (rows : list (list Z)) : option (list (list Z)) :=
  foldl (λ o c, o ≫= λ rows, gj_step rows c)
    (Some (imap (λ i r, r ++ unit_row n i) rows)) (seq 0 n).

(** The inverse by elimination, when it is one. *)
Definition gf8_invert (a : list Z) (n : Z) : option (list Z) :=
  rows ← gauss_jordan (Z.to_nat n) (matrix_rows n n a);
  let d := concat (drop (Z.to_nat n) <$> rows) in
  if bool_decide (Z.of_nat (length d) = n * n ∧ Forall (λ x, 0 ≤ x < 256) d
       ∧ Forall (λ i, row_region (matrix_row n d i) (matrix_rows n n a) (Z.to_nat n)
                      = unit_row (Z.to_nat n) (Z.to_nat i)) (seqZ 0 n))
  then Some d else None.

(** The 32 products that multiply by [c] half a byte at a time. *)
Definition table32 (c : Z) : bytes :=
  gf8_mul c <$> (seqZ 0 16 ++ (Z.mul 16 <$> seqZ 0 16)).
Definition gf8_tables (a : list Z) : bytes := concat (table32 <$> a).

#[export] Instance gf8_isal : IsaL := {|
  gf_mul := gf8_mul;
  gf_gen_rs_matrix m k := concat (over_identity k m (gf8_rs_row k));
  gf_gen_cauchy1_matrix m k := concat (over_identity k m (gf8_cauchy_row k));
  gf_invert_matrix := gf8_invert;
  ec_init_tables k rows a := gf8_tables a;
  ec_encode_data len k rows tbls data :=
    (λ i, row_region ((λ j, tbls !!! Z.to_nat (32 * (k * i + j) + 1)) <$> seqZ 0 k)
            data (Z.to_nat len)) <$> seqZ 0 rows;
|}.

Lemma over_identity_spec k m row :
  0 < k ≤ m → (∀ i, k ≤ i < m → length (row i) = Z.to_nat k ∧ bytes_ok (row i)) →
  Z.of_nat (length (concat (over_identity k m row))) = m * k
  ∧ bytes_ok (concat (over_identity k m row))
  ∧ systematic k (concat (over_identity k m row))
  ∧ ∀ i, k ≤ i < m → matrix_row k (concat (over_identity k m row)) i = row i.
Proof.
  intros Hk Hrow. set (rows := over_identity k m row).
  assert (∀ i, 0 ≤ i < m → rows !! Z.to_nat i
    = Some (if bool_decide (i < k) then unit_row (Z.to_nat k) (Z.to_nat i) else row i)) as Hl.
  { intros i Hi. unfold rows, over_identity. rewrite list_lookup_fmap, lookup_seqZ_lt by lia. simpl.
    by rewrite Z.add_0_l, Z2Nat.id by lia. }
  assert (Forall (λ r, length r = Z.to_nat k ∧ bytes_ok r) rows) as Hall.
  { apply Forall_fmap, Forall_forall. intros i Hi%elem_of_seqZ. simpl. case_bool_decide.
    - unfold unit_row. split; [rewrite length_insert; apply length_zeros|].
      apply Forall_insert; [apply bytes_ok_zeros|unfold byte_ok; lia].
    - apply Hrow. lia. }
  assert (Forall (λ r, length r = Z.to_nat k) rows) as Hlen.
  { eapply Forall_impl; [exact Hall|]. by intros ? [??]. }
  assert (∀ i, 0 ≤ i < m → matrix_row k (concat rows) i
    = if bool_decide (i < k) then unit_row (Z.to_nat k) (Z.to_nat i) else row i) as Hmr.
  { intros i Hi. rewrite <-(Z2Nat.id i) at 1 by lia.
    apply matrix_row_concat; [lia|done|by apply Hl]. }
  split_and!.
  - assert (length (concat rows) = Z.to_nat k * length rows)%nat as ->.
    { clear -Hlen. induction Hlen as [|r rs Hr Hrs IH]; simpl; [lia|]. rewrite length_app, IH. lia. }
    unfold rows, over_identity. rewrite length_fmap, length_seqZ. lia.
  - apply Forall_concat. eapply Forall_impl; [exact Hall|]. by intros ? [_ ?].
  - intros i Hi. by rewrite Hmr, bool_decide_true by lia.
  - intros i Hi. by rewrite Hmr, bool_decide_false by lia.
Qed.

Lemma gf8_mul_ok a b : byte_ok b → byte_ok (gf8_mul a b).
Proof. apply gf8_mul_bits_ok. Qed.

Lemma gf8_pow2_ok n : byte_ok (gf8_pow2 n).
Proof. destruct n; [done|]. simpl. by apply gf8_mul_ok. Qed.

Lemma gf8_powers_ok n g p :
  byte_ok g → byte_ok p → length (gf8_powers n g p) = n ∧ bytes_ok (gf8_powers n g p).
Proof.
  intros Hg. revert p. induction n as [|n IH]; intros p Hp; simpl; [split; [done|constructor]|].
  destruct (IH (gf8_mul p g)) as [Hl Hok]; [by apply gf8_mul_ok|].
  split; [by f_equal|by constructor].
Qed.

Lemma gf8_powers_ones n : gf8_powers n 1 1 = replicate n 1.
Proof. induction n as [|n IH]; simpl; [done|]. by rewrite <-IH. Qed.

Lemma gf8_div_ok a b : byte_ok (gf8_div a b).
Proof.
  unfold gf8_div. destruct (list_find _ _) as [[i x]|] eqn:E; simpl; [|done].
  apply list_find_Some in E as (Hx & _). apply list_elem_of_lookup_2, elem_of_seqZ in Hx.
  unfold byte_ok. lia.
Qed.

Lemma table32_lookup c j : (j < 32)%nat → length (table32 c) = 32%nat ∧ table32 c !! 1%nat = Some (gf8_mul c 1).
Proof. done. Qed.

Lemma gf8_mul_1_r c : byte_ok c → gf8_mul c 1 = c.
Proof.
  intros Hc. rewrite gf8_mul_comm by done.
  change (galois_single_multiply 1 c 8 = c). by apply gf_mul_1_l.
Qed.

Lemma gf8_tables_lookup a i :
  bytes_ok a → (i < length a)%nat → gf8_tables a !! (32 * i + 1)%nat = Some (a !!! i).
Proof.
  intros Ha. revert i. induction Ha as [|c a Hc Ha IH]; intros i Hi; simpl in Hi; [lia|].
  change (gf8_tables (c :: a)) with (table32 c ++ gf8_tables a). destruct i as [|i].
  - rewrite lookup_app_l by (change (length (table32 c)) with 32%nat; lia).
    change (table32 c !! 1%nat = Some c).
    destruct (table32_lookup c 0) as [_ ->]; [lia|]. by rewrite gf8_mul_1_r.
  - rewrite lookup_app_r by (change (length (table32 c)) with 32%nat; lia).
    change (length (table32 c)) with 32%nat.
    replace (32 * S i + 1 - 32)%nat with (32 * i + 1)%nat by lia. by rewrite IH by lia.
Qed.

Lemma gf8_tables_length a : length (gf8_tables a) = (32 * length a)%nat.
Proof.
  induction a as [|c a IH]; [done|]. change (gf8_tables (c :: a)) with (table32 c ++ gf8_tables a).
  rewrite length_app, IH. change (length (table32 c)) with 32%nat. simpl. lia.
Qed.

#[export] Instance gf8_isal_spec : IsaLSpec.
Proof.
  assert (∀ k i, 0 ≤ k → length (gf8_rs_row k i) = Z.to_nat k ∧ bytes_ok (gf8_rs_row k i)) as Hrs.
  { intros k i Hk. apply gf8_powers_ok; [apply gf8_pow2_ok|unfold byte_ok; lia]. }
  assert (∀ k i, 0 ≤ k → length (gf8_cauchy_row k i) = Z.to_nat k ∧ bytes_ok (gf8_cauchy_row k i)) as Hca.
  { intros k i Hk. unfold gf8_cauchy_row. rewrite length_fmap, length_seqZ. split; [done|].
    apply Forall_fmap, Forall_forall. intros j _. apply gf8_div_ok. }
  split; cbn [gf_mul gf_gen_rs_matrix gf_gen_cauchy1_matrix gf_invert_matrix ec_init_tables
    ec_encode_data gf8_isal].
  - done.
  - intros m k Hk _. apply over_identity_spec; [done|]. intros. apply Hrs. lia.
  - intros m k Hk _. apply over_identity_spec; [done|]. intros. apply Hrs. lia.
  - intros m k Hk _. apply over_identity_spec; [done|]. intros. apply Hrs. lia.
  - intros m k Hk _. destruct (over_identity_spec k m (gf8_rs_row k)) as (_ & _ & _ & Hrow); [lia| |].
    + intros. apply Hrs. lia.
    + rewrite Hrow by lia. unfold gf8_rs_row. rewrite Z.sub_diag. apply gf8_powers_ones.
  - intros m k Hk _. apply over_identity_spec; [done|]. intros. apply Hca. lia.
  - intros m k Hk _. apply over_identity_spec; [done|]. intros. apply Hca. lia.
  - intros m k Hk _. apply over_identity_spec; [done|]. intros. apply Hca. lia.
  - intros a n d Hn _ _. unfold gf8_invert. intros (rows & _ & Hd)%bind_Some.
    case_bool_decide as Hok; [|done]. injection Hd as <-. destruct Hok as (H1 & H2 & H3).
    split_and!; [done|done|]. intros i Hi. rewrite Forall_forall in H3.
    apply H3, elem_of_seqZ. lia.
  - intros k rows a Hk Hr Hl. unfold blen. rewrite gf8_tables_length. lia.
  - intros len k rows tbls a data Hk Hr Hlen Hl Ha Ht Hdl Hd. apply list_fmap_ext.
    intros p i Hi%lookup_seqZ. f_equal. apply list_eq. intros j.
    rewrite list_lookup_fmap. unfold matrix_row. destruct (decide (Z.of_nat j < k)) as [Hj|Hj].
    + rewrite lookup_seqZ_lt, lookup_take_lt, lookup_drop by lia. simpl.
      assert (0 ≤ k * i + Z.of_nat j < k * rows) by nia.
      assert (a !! (Z.to_nat (k * i) + j)%nat = Some (a !!! Z.to_nat (k * i + Z.of_nat j))) as ->.
      { replace (Z.to_nat (k * i) + j)%nat with (Z.to_nat (k * i + Z.of_nat j)) by lia.
        apply list_lookup_lookup_total_lt. lia. }
      f_equal. rewrite Z.add_0_l. apply list_lookup_total_correct.
      rewrite <-(gf8_tables_lookup a), <-Ht by (done || lia).
      rewrite lookup_take_lt by lia. f_equal. lia.
    + rewrite lookup_seqZ_ge by lia. simpl. symmetry. apply lookup_take_ge. lia.
Qed.
