(* ===== verification/IsaCorrect.v ===== *)
(** * The ISA plugin: theorems

    Configuration, the round trip through a stripe, what decoding does on every
    branch, and two ways in which the code does not do what it means to. *)

From stdpp Require Import pretty.
From S2P Require Import Prelude Strtol Galois ErasureCode CrushRules XorOp IsaCache Isa IsaFacts IsaL8.

Import Isa.

(** ** Configuration *)

Section configuration.
Context `{HG : Galois} `{HGF : !GaloisFieldSpec} `{HI : !IsaL} `{HIS : !IsaLSpec}.
Context `{HM : !Machine} `{HMS : !MachineSpec}.

(** A codec with its parameters and no tables yet. *)
Definition bare (mt k m : Z) : t := with_parameters (fresh mt) k m [].

Definition coefficients_of (mt k m : Z) : list Z := make_coefficients (bare mt k m).

(** The encoding tables the cache holds are those of their parameters. *)
Definition encoding_sound (tcache : IsaCache.t) : Prop :=
  (∀ mt k m c, IsaCache.encoding_coefficient tcache !! (mt, k, m) = Some (Some c) →
     c = coefficients_of mt k m)
  ∧ ∀ mt k m tbls, IsaCache.encoding_table tcache !! (mt, k, m) = Some (Some tbls) →
     take (Z.to_nat (32 * k * m)) tbls
     = ec_init_tables k m (drop (Z.to_nat (k * k)) (coefficients_of mt k m)).

Lemma encoding_sound_empty : encoding_sound IsaCache.empty.
Proof. split; intros ???? H; simpl in H; by rewrite lookup_empty in H. Qed.

Lemma make_coefficients_of s : make_coefficients s = coefficients_of (matrixtype s) (k s) (m s).
Proof. done. Qed.

Ltac new_entry :=
  match goal with
  | H : context [<[?a := _]> _ !! ?b] |- _ =>
      destruct (decide (a = b)) as [[= <- <- <-]|?];
      [rewrite lookup_insert_eq in H|rewrite lookup_insert_ne in H by done]
  end.

(** [prepare] makes a configured codec and keeps the cache sound. *)
Lemma prepare_spec s tcache :
  0 < k s → 0 < m s → k s + m s ≤ 255 → matrixtype s = kVandermonde ∨ matrixtype s = kCauchy →
  encoding_sound tcache →
  ∃ s' tcache', prepare s tcache = Ret (s', tcache') ∧ state_ok s' ∧ encoding_sound tcache'
    ∧ k s' = k s ∧ m s' = m s ∧ matrixtype s' = matrixtype s ∧ base_mapping s' = base_mapping s
    ∧ ruleset_root s' = ruleset_root s ∧ ruleset_failure_domain s' = ruleset_failure_domain s
    ∧ IsaCache.decoding_tables tcache' = IsaCache.decoding_tables tcache
    ∧ IsaCache.decoding_tables_lru tcache' = IsaCache.decoding_tables_lru tcache
    ∧ IsaCache.next_node tcache' = IsaCache.next_node tcache.
Proof.
  intros Hk Hm Hkm Ht [Hco Htb]. set (mt := matrixtype s) in *.
  assert (Z.of_nat (length (coefficients_of mt (k s) (m s))) = (k s + m s) * k s) as Hcl.
  { unfold coefficients_of, make_coefficients. simpl.
    destruct Ht as [-> | ->]; simpl; [apply gf_gen_rs_matrix_len|apply gf_gen_cauchy1_matrix_len]; lia. }
  set (coeff := coefficients_of mt (k s) (m s)) in *.
  set (new := ec_init_tables (k s) (m s) (drop (Z.to_nat (k s * k s)) coeff)).
  assert (blen new = 32 * k s * m s) as Hnl.
  { apply ec_init_tables_len; [lia|lia|]. rewrite length_drop. nia. }
  pose proof (uninitialised_len (k s * (m s + k s) * 32) ltac:(nia)) as Hul.
  set (full := new ++ drop (Z.to_nat (blen new)) (uninitialised (k s * (m s + k s) * 32))).
  assert (memcpy (uninitialised (k s * (m s + k s) * 32)) new (blen new) = Ret full) as Hcpy.
  { unfold memcpy. rewrite bool_decide_true by nia. by rewrite take_ge by (unfold blen; lia). }
  assert (take (Z.to_nat (32 * k s * m s)) full = new) as Hfull.
  { apply take_app_length'. unfold blen in Hnl. lia. }
  assert (bool_decide (mt = kVandermonde) || bool_decide (mt = kCauchy) = true) as Has.
  { by destruct Ht as [-> | ->]. }
  assert (∀ tbls, take (Z.to_nat (32 * k s * m s)) tbls = new →
    state_ok (mk (k s) (m s) mt coeff tbls (base_mapping s) (ruleset_root s)
                 (ruleset_failure_domain s) (profile_ s))) as Hok.
  { intros tbls Htbls. by split. }
  unfold prepare, IsaCache.getEncodingTable, IsaCache.getEncodingTableNoLock.
  fold mt. rewrite make_coefficients_of. fold mt coeff.
  destruct (IsaCache.encoding_table tcache !! (mt, k s, m s)) as [[tbls|]|] eqn:Et;
    destruct (IsaCache.encoding_coefficient tcache !! (mt, k s, m s)) as [[co|]|] eqn:Ec;
    unfold IsaCache.getEncodingCoefficient, IsaCache.getEncodingCoefficientNoLock,
      IsaCache.setEncodingCoefficient, IsaCache.getEncodingCoefficientNoLock,
      IsaCache.setEncodingTable, IsaCache.getEncodingTableNoLock;
    repeat progress (cbn [IsaCache.encoding_coefficient IsaCache.encoding_table mbind outcome_bind fst snd];
      rewrite ?Et, ?Ec, ?lookup_insert_eq).
  all: try (apply Hco in Ec as ->; fold coeff).
  all: try (fold new; rewrite Hcpy; repeat progress (cbn [IsaCache.encoding_coefficient IsaCache.encoding_table mbind outcome_bind fst snd];
      rewrite ?Et, ?Ec, ?lookup_insert_eq)).
  all: rewrite Has; cbn [assert_that mbind outcome_bind]; eexists _, _; split; [done|].
  all: split; [apply Hok; first [exact Hfull|by apply Htb]|].
  all: split; [|done].
  all: split; cbn [IsaCache.encoding_coefficient IsaCache.encoding_table]; intros mt' k' m' b Hb;
    repeat new_entry; simplify_eq; eauto.
Qed.
Definition isa_profile (technique : string) (k m : Z) : Profile :=
  {["technique" := technique; "k" := pretty k; "m" := pretty m]}.

Definition matrix_of (technique : string) : Z :=
  if bool_decide (technique = "cauchy") then kCauchy else kVandermonde.

(** The values for which the matrices are known to be MDS. *)
Definition safe_values (mt k m : Z) : Prop :=
  mt = kVandermonde → k ≤ 32 ∧ m ≤ 4 ∧ (m = 4 → k ≤ 21).

Lemma vandermonde_bounds_safe k m err :
  k ≤ 32 → m ≤ 4 → (m = 4 → k ≤ 21) → vandermonde_bounds k m err = (k, m, err).
Proof.
  intros Hk Hm Hkm. unfold vandermonde_bounds. rewrite !bool_decide_false by lia.
  destruct (decide (m = 4)) as [->|].
  - by rewrite (bool_decide_false (21 < k)), andb_false_r by lia.
  - by rewrite (bool_decide_false (m = 4)) by done.
Qed.

Lemma init_valid mt technique k0 m0 tcache :
  2 ≤ k0 → 0 < m0 → k0 + m0 ≤ 255 → mt = kVandermonde ∨ mt = kCauchy → safe_values mt k0 m0 →
  encoding_sound tcache →
  ∃ s profile tcache', init (fresh mt) (isa_profile technique k0 m0) tcache = Ret (0, s, profile, tcache')
    ∧ state_ok s ∧ encoding_sound tcache' ∧ k s = k0 ∧ m s = m0 ∧ matrixtype s = mt
    ∧ base_mapping s = [] ∧ ruleset_root s = "default" ∧ ruleset_failure_domain s = "host"
    ∧ profile_ s = profile
    ∧ IsaCache.decoding_tables tcache' = IsaCache.decoding_tables tcache
    ∧ IsaCache.decoding_tables_lru tcache' = IsaCache.decoding_tables_lru tcache
    ∧ IsaCache.next_node tcache' = IsaCache.next_node tcache.
Proof.
  intros Hk Hm Hkm Ht Hsafe Hs.
  assert (INT_MIN < k0 < INT_MAX ∧ INT_MIN < m0 < INT_MAX) as [HkI HmI] by (unfold INT_MIN, INT_MAX; lia).
  unfold init. set (p0 := isa_profile technique k0 m0).
  set (p1 := <["ruleset-root" := DEFAULT_RULESET_ROOT]> p0).
  assert (to_string "ruleset-root" p0 DEFAULT_RULESET_ROOT = mkParsed 0 "default" p1) as -> by done.
  cbn [p_value p_err p_profile].
  set (p2 := <["ruleset-failure-domain" := DEFAULT_RULESET_FAILURE_DOMAIN]> p1).
  assert (to_string "ruleset-failure-domain" p1 DEFAULT_RULESET_FAILURE_DOMAIN = mkParsed 0 "host" p2) as -> by done.
  cbn [p_value p_err p_profile fresh Isa.k Isa.m matrixtype encode_coeff encode_tbls base_mapping profile_].
  unfold parse. assert (ErasureCode.parse p2 (base_mapping (mk 0 0 mt [] [] [] "default" "host" ∅)) = (0, [])) as -> by done.
  rewrite (to_int_pretty "k" p2 k0) by done. cbn [p_value p_err p_profile].
  rewrite (to_int_pretty "m" p2 m0) by done. cbn [p_value p_err p_profile matrixtype].
  assert (sanity_check_k k0 = 0) as ->.
  { unfold sanity_check_k. by rewrite bool_decide_false by lia. }
  change (err_or (err_or (err_or 0 0) 0) 0) with 0.
  assert ((if bool_decide (mt = kVandermonde) then vandermonde_bounds k0 m0 0 else (k0, m0, 0)) = (k0, m0, 0)) as ->.
  { case_bool_decide as Hv; [|done]. destruct (Hsafe Hv) as (? & ? & ?). by apply vandermonde_bounds_safe. }
  change (err_or (err_or 0 0) 0) with 0. rewrite bool_decide_false by tauto.
  destruct (prepare_spec (with_parameters (mk 0 0 mt [] [] [] "default" "host" ∅) k0 m0 []) tcache)
    as (s' & tc' & -> & Hok & Hs' & Hk' & Hm' & Hmt' & Hb' & Hr' & Hf' & ? & ? & ?);
    cbn; try done; [lia|].
  cbn in Hk', Hm', Hmt', Hb', Hr', Hf'.
  eexists _, _, _. split; [done|]. split_and!; try done.
  destruct Hok. by split.
Qed.
End configuration.

(** ** Theorems *)

Section theorems.
Context `{HG : Galois} `{HGF : !GaloisFieldSpec} `{HI : !IsaL} `{HIS : !IsaLSpec}.
Context `{HM : !Machine} `{HMS : !MachineSpec}.

Abbreviation ids s := (list_to_set (seqZ 0 (k s + m s)) : gset Z).

(** Configuration of the ISA plugin: with safe values of [k] and [m], the
    factory makes a codec with these parameters, whose coefficients and
    encoding tables are those of its matrix whether they were computed or
    found in the shared cache, and leaves the cache sound for the next codec. *)
Theorem isa_factory technique k0 m0 tcache :
  technique = "reed_sol_van" ∨ technique = "cauchy" →
  2 ≤ k0 → 0 < m0 → k0 + m0 ≤ 255 → safe_values (matrix_of technique) k0 m0 →
  encoding_sound tcache →
  ∃ s profile tcache',
    factory (isa_profile technique k0 m0) tcache = Ret (0, Some s, profile, tcache')
    ∧ state_ok s ∧ k s = k0 ∧ m s = m0 ∧ matrixtype s = matrix_of technique
    ∧ base_mapping s = [] ∧ encoding_sound tcache'
    ∧ (cache_sound s tcache → cache_sound s tcache').
Proof.
  intros Htech Hk Hm Hkm Hsafe Hs.
  destruct (init_valid (matrix_of technique) technique k0 m0 tcache)
    as (s & p & tc & Hinit & Hok & Hs' & Hk' & Hm' & Hmt & Hb & _ & _ & _ & H1 & H2 & H3); try done.
  { unfold matrix_of. case_bool_decide; auto. }
  exists s, p, tc. split_and!; try done.
  - unfold factory.
    assert (isa_profile technique k0 m0 !! "technique" = Some technique) as Ht by done.
    rewrite (bool_decide_false (_ = None)) by (rewrite Ht; congruence). rewrite Ht. simpl default.
    destruct Htech as [-> | ->]; simpl; unfold matrix_of in Hinit; simpl in Hinit; by rewrite Hinit.
  - intros [Hc1 Hc2]. split.
    + intros mt. unfold IsaCache.getDecodingTables, IsaCache.getDecodingTablesLru. rewrite H1, H2, H3.
      apply Hc1.
    + intros idx E it b. unfold IsaCache.getDecodingTables. rewrite H1. apply Hc2.
Qed.

(** Decoding by the ISA plugin, on every branch: with a sound cache and at
    least [k] chunks of a codeword, [decode_chunks] either returns 0 and every
    chunk of the stripe is restored (by XOR, or with the inverse matrix, from
    the cache or computed), or returns -1, which it does only when the matrix
    of the first [k] surviving chunks has no inverse; the cache stays sound. *)
Theorem isa_decode_chunks s tcache want chunks decoded w bs :
  state_ok s → cache_sound s tcache → codeword s bs w → chunks ⊆ w → chunks ≠ ∅ →
  dom chunks ⊆ ids s → dom chunks ≠ ids s → k s ≤ Z.of_nat (size (dom chunks)) →
  stripe (k s + m s) bs decoded → chunks ⊆ decoded →
  ∃ err decoded' tcache',
    decode_chunks s tcache want chunks decoded = Ret (err, decoded', tcache')
    ∧ cache_sound s tcache'
    ∧ (err = 0 ∧ (∀ i, 0 ≤ i < k s + m s → decoded' !! i = w !! i)
       ∨ err = -1 ∧ m s ≠ 1
         ∧ gf_invert_matrix (concat (rows_of s (take (Z.to_nat (k s))
             (filter (λ i, i ∈ dom chunks) (seqZ 0 (k s + m s)))))) (k s) = None).
Proof.
  intros Hs Hcs Hcw Hsub Hne Hdom Hnall Hsize Hst Hsubd.
  pose proof (so_k _ Hs). pose proof (so_m _ Hs).
  pose proof (missing_size (dom chunks) (k s + m s) Hdom) as Hms.
  rewrite size_difference in Hms by done.
  assert (size (ids s) = Z.to_nat (k s + m s)) as Hall.
  { rewrite size_list_to_set by apply NoDup_seqZ. apply length_seqZ. }
  assert (size (dom chunks) < size (ids s))%nat as Hlt by (apply subset_size; set_solver).
  destruct (decode_chunks_restores s Hs tcache want chunks decoded w bs)
    as (err & dec & tc & Hdec & Hcs' & Hres); try done; [lia..|].
  exists err, dec, tc. split_and!; [done..|]. destruct Hres as [?|(-> & Hm1 & Hinv)]; [by left|right].
  split_and!; [done..|]. unfold invertible, survivors in Hinv. apply dec_stable in Hinv.
  rewrite <-Hinv. do 4 f_equal. apply filter_ext. intros i Hi.
  rewrite list_elem_of_filter. split; [tauto|]. intros Hn. apply dec_stable. tauto.
Qed.

(** C3. Round trip of the ISA plugin: an object is encoded into [k + m]
    chunks, and from any [k] of them [decode_concat] returns the object
    followed by its zero padding, for every codec without a chunk mapping whose
    matrix is MDS (a single coding chunk needs no matrix), and with every sound
    cache. *)
Theorem isa_roundtrip `{HA : Allocator} `{HAS : !AllocatorSpec} s tcache raw :
  state_ok s → base_mapping s = [] → mds s → cache_sound s tcache →
  bytes_ok raw → 0 < blen raw ≤ MAX_OBJECT →
  ∃ enc bs, encode (codec s tcache) (ids s) raw ∅ = Ret (0, enc)
    ∧ get_chunk_size s (blen raw) = Ret bs ∧ dom enc = ids s
    ∧ ∀ have, have ⊆ ids s → k s ≤ Z.of_nat (size have) →
        decode_concat (codec s tcache) (select have enc)
        = Ret (0, raw ++ zeros (Z.to_nat (k s * bs - blen raw))).
Proof.
  intros Hs Hmap Hmds Hcs Hok Hlen. pose proof (so_k _ Hs).
  destruct (decode_concat_encode (codec s tcache) MAX_OBJECT any_size (codeword s) (λ have _, k s ≤ Z.of_nat (size have)) raw)
    as (enc & bs & Henc & Hbs & Hdom & Hdec); [by apply isa_codec_spec|done..|].
  exists enc, bs. split_and!; [done..|]. intros have Hhave Hsize.
  pose proof (dom_select have enc ltac:(by rewrite Hdom)) as Hds.
  apply Hdec; [apply select_subseteq| |by right; rewrite Hds].
  intros He. rewrite He, dom_empty_L in Hds. rewrite <-Hds, size_empty in Hsize. lia.
Qed.

(** The parameters that the ISA plugin accepts with a Vandermonde matrix
    are within the bounds for which the code is MDS, and everything outside
    them is refused with [-EINVAL] and replaced by the bound. *)
Theorem isa_vandermonde_bounds s profile err s' profile' :
  matrixtype s = kVandermonde → parse s profile = (err, s', profile') →
  k s' ≤ 32 ∧ m s' ≤ 4 ∧ (m s' = 4 → k s' ≤ 21)
  ∧ (err = 0 → 2 ≤ k s' ∧ k s' = p_value (to_int "k" profile DEFAULT_K)
               ∧ m s' = p_value (to_int "m" (p_profile (to_int "k" profile DEFAULT_K)) DEFAULT_M)).
Proof.
  intros Hmt. unfold parse. destruct (ErasureCode.parse _ _) as [e0 mapping].
  set (pk := to_int "k" profile DEFAULT_K). set (pm := to_int "m" _ _).
  rewrite bool_decide_true by done. set (e1 := err_or _ (sanity_check_k _)).
  assert (e1 = 0 → 2 ≤ p_value pk) as He1.
  { unfold e1, err_or, sanity_check_k. case_bool_decide; [|lia].
    intros [_ ?]%Z.lor_eq_0_iff. done. }
  clearbody e1. unfold vandermonde_bounds.
  repeat case_bool_decide; simpl; intros [= <- <- <-]; cbn [k m with_parameters];
    split_and!; try lia; unfold EINVAL; intros; split_and!; lia.
Qed.

End theorems.

(** ** Concrete codecs *)

#[export] Instance sample_machine : Machine := {|
  chunk_address i := 32 * i;
  ceph_arch_intel_sse2 := true;
  uninitialised n := replicate (Z.to_nat n) 85;
|}.
#[export] Instance sample_machine_spec : MachineSpec.
Proof. split. intros n Hn. simpl. unfold blen. rewrite length_replicate. lia. Qed.

(** What the factory makes with an empty cache. *)
Definition made (profile : Profile) : t :=
  match factory profile IsaCache.empty with
  | Ret (_, Some s, _, _) => s
  | _ => fresh 0
  end.

Definition cauchy_3_2 : t := made (isa_profile "cauchy" 3 2).

Lemma cauchy_3_2_ok : state_ok cauchy_3_2.
Proof. split; [by vm_compute|by vm_compute|by vm_compute|right; by vm_compute|by vm_compute|by vm_compute]. Qed.

(** The lists of the chunks that can be erased. *)
Fixpoint sublists (l : list Z) : list (list Z) :=
  match l with
  | [] => [[]]
  | x :: l => (cons x <$> sublists l) ++ sublists l
  end.

Lemma elem_of_sublists (P : Z → Prop) `{∀ x, Decision (P x)} l : filter P l ∈ sublists l.
Proof.
  induction l as [|x l IH]; [by left|]. rewrite filter_cons. simpl. apply elem_of_app.
  case_decide; [left|by right]. by apply list_elem_of_fmap_2.
Qed.

Definition mds_check (s : t) : bool :=
  forallb (λ E, bool_decide (length E = 0%nat) || bool_decide (m s < Z.of_nat (length E))
    || bool_decide (gf_invert_matrix (concat (rows_of s
         (take (Z.to_nat (k s)) (survivors (k s + m s) E)))) (k s) ≠ None))
    (sublists (seqZ 0 (k s + m s))).

Lemma mds_check_ok s : mds_check s = true → mds s.
Proof.
  intros Hc. right. intros E HE Hpos Hm. unfold mds_check in Hc. rewrite forallb_forall in Hc.
  specialize (Hc E). rewrite !orb_true_iff, !bool_decide_eq_true in Hc.
  destruct Hc as [[?|?]|?]; [|lia|lia|done].
  apply list_elem_of_In. rewrite <-HE at 1. apply elem_of_sublists.
Qed.

Lemma cauchy_3_2_mds : mds cauchy_3_2.
Proof. apply mds_check_ok. by vm_compute. Qed.

(** ** Where the code goes wrong *)

Definition cauchy_2_2 : t := made (isa_profile "cauchy" 2 2).
Definition cauchy_2_3 : t := made (isa_profile "cauchy" 2 3).

(** The stripe of [n] chunks of one byte that [s] makes of the data. *)
Definition stripe_of (s : t) (data : list Z) : gmap Z bytes :=
  match encode_chunks s ∅ (list_to_map (zip (seqZ 0 (k s + m s))
    (((λ b, [b]) <$> data) ++ replicate (Z.to_nat (m s)) [0]))) with
  | Ret (_, w) => w
  | Abort _ => ∅
  end.

(** Decoding after the loss of chunks 0 and 1. *)
Definition decode_without_01 (s : t) (tcache : IsaCache.t)
    : outcome (Z * gmap Z bytes * IsaCache.t) :=
  let w := stripe_of s [17; 34] in
  let chunks := delete 0 (delete 1 w) in
  decode_chunks s tcache {[0; 1]} chunks (<[0 := [0]]> (<[1 := [0]]> chunks)).

(** The cache key does not contain [m], the size of the tables does: a
    codec (2, 2) stores its table for the loss of chunks 0 and 1, and the
    decoding of the same loss by a codec (2, 3), which succeeds with an empty
    cache, then copies 320 bytes out of the 256 bytes that were stored. *)
Theorem isa_cache_overread :
  ∃ decoded tcache, decode_without_01 cauchy_2_2 IsaCache.empty = Ret (0, decoded, tcache)
    ∧ decode_without_01 cauchy_2_3 tcache = Abort OutOfBounds
    ∧ ∃ decoded' tcache', decode_without_01 cauchy_2_3 IsaCache.empty = Ret (0, decoded', tcache').
Proof.
  destruct (decode_without_01 cauchy_2_2 IsaCache.empty) as [[[err dec] tc]|] eqn:E;
    [|by vm_compute in E].
  exists dec, tc. assert (err = 0) as -> by (vm_compute in E; congruence).
  split; [done|]. split.
  - assert (decode_without_01 cauchy_2_2 IsaCache.empty ≫=
      (λ r, decode_without_01 cauchy_2_3 r.2) = Abort OutOfBounds) as Hb by (by vm_compute).
    rewrite E in Hb. done.
  - destruct (decode_without_01 cauchy_2_3 IsaCache.empty) as [[[err dec'] tc']|] eqn:E';
      [|by vm_compute in E'].
    exists dec', tc'. assert (err = 0) as -> by (vm_compute in E'; congruence). done.
Qed.

(** A profile with one coding chunk in front of the data. *)
Definition mapped : t := made (<["mapping" := "_DD"]> (isa_profile "reed_sol_van" 2 1)).

(** The plugin accepts a chunk mapping, under which the base class puts
    the data into chunks 1 and 2, but encodes chunks 0 and 1 as the data: the
    coding chunk overwrites data, and with no chunk lost the object read is not
    the object written. *)
Theorem isa_mapping_ignored :
  base_mapping mapped = [1; 2; 0]
  ∧ ∃ enc out, encode (codec mapped IsaCache.empty) {[0; 1; 2]} (replicate 40 7) ∅ = Ret (0, enc)
    ∧ decode_concat (codec mapped IsaCache.empty) enc = Ret (0, out)
    ∧ take 40 out ≠ replicate 40 7.
Proof.
  split; [by vm_compute|].
  destruct (encode (codec mapped IsaCache.empty) {[0; 1; 2]} (replicate 40 7) ∅) as [[err enc]|] eqn:E;
    [|by vm_compute in E].
  assert (∃ out, (encode (codec mapped IsaCache.empty) {[0; 1; 2]} (replicate 40 7) ∅ ≫=
    λ r, decode_concat (codec mapped IsaCache.empty) r.2) = Ret (0, out) ∧ take 40 out ≠ replicate 40 7)
    as (out & Hout & Hne).
  { eexists. split; [vm_compute; reflexivity|]. vm_compute. congruence. }
  assert (err = 0) as -> by (vm_compute in E; congruence).
  exists enc, out. rewrite E in Hout. split; [reflexivity|]. split; [exact Hout|exact Hne].
Qed.

(** ** Witnesses *)

Lemma isa_factory_witness :
  ∃ s profile tcache', factory (isa_profile "cauchy" 3 2) IsaCache.empty = Ret (0, Some s, profile, tcache')
    ∧ state_ok s ∧ k s = 3 ∧ m s = 2 ∧ matrixtype s = matrix_of "cauchy"
    ∧ base_mapping s = [] ∧ encoding_sound tcache'
    ∧ (cache_sound s IsaCache.empty → cache_sound s tcache').
Proof.
  apply (isa_factory "cauchy" 3 2); [by right|lia..| |apply encoding_sound_empty].
  by vm_compute.
Defined.

Lemma isa_roundtrip_witness :
  ∃ enc bs, encode (codec cauchy_3_2 IsaCache.empty) (list_to_set (seqZ 0 5)) sample ∅ = Ret (0, enc)
    ∧ get_chunk_size cauchy_3_2 (blen sample) = Ret bs
    ∧ decode_concat (codec cauchy_3_2 IsaCache.empty) (select {[1; 3; 4]} enc)
      = Ret (0, sample ++ zeros (Z.to_nat (3 * bs - blen sample))).
Proof.
  destruct (isa_roundtrip cauchy_3_2 IsaCache.empty sample cauchy_3_2_ok)
    as (enc & bs & H1 & H2 & _ & H3).
  - by vm_compute.
  - apply cauchy_3_2_mds.
  - apply cache_sound_empty.
  - apply sample_ok.
  - vm_compute. split; congruence.
  - exists enc, bs. split; [exact H1|]. split; [exact H2|].
    apply H3; [|by vm_compute]. intros i Hi. apply elem_of_ids.
    assert (k cauchy_3_2 + m cauchy_3_2 = 5) as -> by (by vm_compute).
    rewrite !elem_of_union, !elem_of_singleton in Hi. lia.
Defined.

Definition word_3_2 : gmap Z bytes := stripe_of cauchy_3_2 [11; 22; 33].

Definition codeword_check (s : t) (bs : nat) (w : gmap Z bytes) : bool :=
  stripe_check (k s + m s) bs w
  && forallb (λ i, bool_decide (buf w i = row_region (code_row s i) (data_of s w) bs)) (seqZ 0 (k s + m s)).

Lemma codeword_check_ok s bs w : codeword_check s bs w = true → codeword s bs w.
Proof.
  intros [Hst Hrows]%andb_true_iff. split; [by apply stripe_check_ok|]. intros i Hi.
  pose proof (forallb_range _ _ i Hrows Hi) as Hb. by apply bool_decide_eq_true in Hb.
Qed.

Lemma word_3_2_codeword : codeword cauchy_3_2 1 word_3_2.
Proof. apply codeword_check_ok. by vm_compute. Qed.

Lemma isa_decode_chunks_witness :
  ∃ err decoded' tcache',
    decode_chunks cauchy_3_2 IsaCache.empty {[0]} (delete 0 word_3_2) (<[0 := [99]]> word_3_2)
      = Ret (err, decoded', tcache')
    ∧ cache_sound cauchy_3_2 tcache'
    ∧ (err = 0 ∧ (∀ i, 0 ≤ i < 5 → decoded' !! i = word_3_2 !! i) ∨ err = -1).
Proof.
  assert (k cauchy_3_2 + m cauchy_3_2 = 5) as H5 by (by vm_compute).
  assert (dom word_3_2 = list_to_set (seqZ 0 5)) as Hdom by (by vm_compute).
  destruct (isa_decode_chunks cauchy_3_2 IsaCache.empty {[0]} (delete 0 word_3_2) (<[0 := [99]]> word_3_2)
    word_3_2 1 cauchy_3_2_ok (cache_sound_empty cauchy_3_2) word_3_2_codeword) as (err & dec & tc & Hdec & Hcs & Hres).
  - apply delete_subseteq.
  - intros H0. assert (size (delete 0 word_3_2) = 4%nat) as Hs by (by vm_compute).
    rewrite H0, map_size_empty in Hs. done.
  - rewrite H5, <-Hdom. apply subseteq_dom, delete_subseteq.
  - rewrite H5, dom_delete_L, Hdom. intros Heq. assert (0 ∈ (list_to_set (seqZ 0 5) : gset Z)) as H0 by (by apply elem_of_ids).
    rewrite <-Heq in H0. apply elem_of_difference in H0 as [_ H0]. by apply H0, elem_of_singleton.
  - by vm_compute.
  - rewrite H5. apply stripe_insert; [|done|by repeat constructor].
    destruct word_3_2_codeword as [Hst _]. by rewrite H5 in Hst.
  - apply map_subseteq_spec. intros i b [Hi Hb]%lookup_delete_Some.
    by rewrite lookup_insert_ne by done.
  - exists err, dec, tc. split; [exact Hdec|]. split; [exact Hcs|].
    destruct Hres as [[? Hres]|[? _]]; [left|by right]. split; [done|]. by rewrite H5 in Hres.
Defined.

Lemma isa_vandermonde_bounds_witness :
  ∃ err s profile, parse (fresh kVandermonde) (isa_profile "reed_sol_van" 40 4) = (err, s, profile)
    ∧ err = - EINVAL ∧ k s ≤ 32 ∧ m s ≤ 4 ∧ (m s = 4 → k s ≤ 21).
Proof.
  assert ((parse (fresh kVandermonde) (isa_profile "reed_sol_van" 40 4)).1.1 = - EINVAL) as He by (by vm_compute).
  destruct (parse (fresh kVandermonde) (isa_profile "reed_sol_van" 40 4)) as [[err s] profile] eqn:E.
  exists err, s, profile. split; [reflexivity|]. split; [exact He|].
  destruct (isa_vandermonde_bounds (fresh kVandermonde) (isa_profile "reed_sol_van" 40 4)
    err s profile eq_refl E) as (H1 & H2 & H3 & _). split; [exact H1|]. split; [exact H2|exact H3].
Defined.
