(* ===== verification/Lrc.v ===== *)
(** * The LRC plugin: layered encoding and decoding

    src/src/erasure-code/lrc/ErasureCodeLrc.{h,cc}. A layer applies an inner
    plugin to some of the chunks; chunk [layer.chunks[j]] is chunk [j] of the
    inner plugin. Layers are encoded in order and decoded in reverse order.

    The maps the inner plugins get hold copies of the [bufferlist]s of the
    outer map: the copies share the memory of the chunks, and the inner plugins
    write through pointers into it, so that what an inner [encode_chunks] or
    [decode_chunks] writes is visible in the outer map ([write_back]). The
    parsing of the profile is in LrcInit. *)

From S2P Require Import Prelude Strtol ErasureCode.

Module Lrc.

Record Layer := mkLayer {
  erasure_code : Codec;
  chunks : list Z;             (* data, then coding *)
  chunks_as_set : gset Z;
}.

Record t := mk {
  layers : list Layer;
  chunk_count : Z;
  data_chunk_count : Z;
  base_mapping : list Z;       (* [ErasureCode::chunk_mapping] *)
}.

Definition get_erasures (want available : gset Z) : gset Z := want ∖ available.

Definition get_chunk_size (s : t) (object_size : Z) : outcome Z :=
  front ← need EmptyContainer (head (layers s));
  ErasureCode.get_chunk_size (erasure_code front) object_size.

Definition coding_count (l : Layer) : Z := u32 (get_coding_chunk_count (erasure_code l)).
Definition data_count (l : Layer) : Z := u32 (get_data_chunk_count (erasure_code l)).

(** ** minimum_to_decode *)

(** The chunks of [layer_maximum] below the chunk count, in order, up to the
    one that makes the counter reach the data count of the layer. *)
Definition first_chunks (s : t) (l : Layer) (layer_maximum : gset Z) : gset Z :=
  let found := filter (λ j, j ∈ layer_maximum) (seqZ 0 (chunk_count s)) in
  list_to_set (if bool_decide (data_count l = 0) then found
               else take (Z.to_nat (data_count l)) found).

(** The sets of the second strategy. *)
Record strategy := mkStrategy {
  not_recovered : gset Z;
  wanted : gset Z;
  minimum_ : gset Z;
}.

(** One layer of the second strategy. *)
Definition strategy_layer (s : t) (want_to_read : gset Z) (st : strategy) (i : Layer)
    : strategy :=
  let layer_want := want_to_read ∩ chunks_as_set i in
  if bool_decide (layer_want = ∅) then st else
  let layer_erasures := layer_want ∩ wanted st in
  if bool_decide (layer_erasures = ∅) then
    mkStrategy (not_recovered st) (wanted st) (minimum_ st ∪ layer_want)
  else
    let erasures := chunks_as_set i ∩ not_recovered st in
    if bool_decide (coding_count i < Z.of_nat (size erasures)) then st else
    let layer_maximum := chunks_as_set i ∖ not_recovered st in
    mkStrategy (not_recovered st ∖ erasures) (wanted st ∖ erasures)
      (minimum_ st ∪ first_chunks s i layer_maximum).

(** One layer of the third strategy: what is left of the erasures. *)
Definition peel_layer (erasures_total : gset Z) (i : Layer) : gset Z :=
  let layer_erasures := chunks_as_set i ∩ erasures_total in
  if bool_decide (layer_erasures = ∅) then erasures_total else
  if bool_decide (Z.of_nat (size layer_erasures) ≤ coding_count i) then
    erasures_total ∖ layer_erasures
  else erasures_total.

Definition minimum_to_decode (s : t) (want_to_read available_chunks minimum : gset Z)
    : Z * gset Z :=
  let erasures_total :=
    ids_where (λ i, bool_decide (i ∉ available_chunks)) (chunk_count s) in
  let erasures_want :=
    ids_where (λ i, bool_decide (i ∉ available_chunks) && bool_decide (i ∈ want_to_read))
      (chunk_count s) in
  (* Case 1 *)
  if bool_decide (erasures_want = ∅) then (0, want_to_read) else
  (* Case 2 *)
  let st := foldl (strategy_layer s want_to_read)
    (mkStrategy erasures_total erasures_want minimum) (reverse (layers s)) in
  if bool_decide (wanted st = ∅) then
    (0, foldl (λ m i, m ∖ {[i]}) (minimum_ st ∪ want_to_read) (ascending erasures_total))
  else
  (* Case 3 *)
  if bool_decide (foldl peel_layer erasures_total (reverse (layers s)) = ∅) then
    (0, available_chunks)
  else (- EIO, minimum_ st).

(** ** Encoding and decoding *)

(** The map an inner plugin gets: chunk [j] is the outer chunk [chunks[j]]. *)
Definition view (cs : list Z) (w : gmap Z bytes) : gmap Z bytes :=
  list_to_map (zip (seqZ 0 (Z.of_nat (length cs))) (buf w <$> cs)).

(** The inner chunk numbers of the outer chunks in [want]. *)
Definition view_set (cs : list Z) (want : gset Z) : gset Z :=
  list_to_set (filter (λ j, default (-1) (cs !! Z.to_nat j) ∈ want)
    (seqZ 0 (Z.of_nat (length cs)))).

(** What the inner plugin left in its chunks, seen in the outer map. *)
Definition write_back (cs : list Z) (inner w : gmap Z bytes) : gmap Z bytes :=
  foldl (λ w jc, <[jc.2 := buf inner jc.1]> w) w
    (zip (seqZ 0 (Z.of_nat (length cs))) cs).

(** The layers to encode: from the last one that has all the wanted chunks,
    or all of them. [rev] is the list of layers in reverse order. *)
Fixpoint top_layer (want_to_encode : gset Z) (rev : list Layer) (top : nat) : nat :=
  match rev with
  | [] => top
  | i :: rev =>
      let top := (top - 1)%nat in
      if bool_decide (want_to_encode ⊆ chunks_as_set i) then top
      else top_layer want_to_encode rev top
  end.

Fixpoint encode_layers (want_to_encode : gset Z) (todo : list Layer)
    (encoded : gmap Z bytes) : outcome (Z * gmap Z bytes) :=
  match todo with
  | [] => Ret (0, encoded)
  | layer :: todo =>
      let encoded := foldl touch encoded (chunks layer) in
      '(err, layer_encoded) ← encode_chunks (erasure_code layer)
          (view_set (chunks layer) want_to_encode) (view (chunks layer) encoded);
      let encoded := write_back (chunks layer) layer_encoded encoded in
      if bool_decide (err ≠ 0) then Ret (err, encoded)
      else encode_layers want_to_encode todo encoded
  end.

Definition encode_chunks (s : t) (want_to_encode : gset Z) (encoded : gmap Z bytes)
    : outcome (Z * gmap Z bytes) :=
  let top := top_layer want_to_encode (reverse (layers s)) (length (layers s)) in
  encode_layers want_to_encode (drop top (layers s)) encoded.

(** The loop of [decode_chunks]: the error of an inner plugin, or the last
    value of [want_to_read_erasures]. *)
Fixpoint decode_layers (want_to_read : gset Z) (todo : list Layer)
    (erasures want_to_read_erasures : gset Z) (decoded : gmap Z bytes)
    : outcome (Z * gset Z * gmap Z bytes) :=
  match todo with
  | [] => Ret (0, want_to_read_erasures, decoded)
  | layer :: todo =>
      let layer_erasures := chunks_as_set layer ∩ erasures in
      if bool_decide (coding_count layer < Z.of_nat (size layer_erasures)) then
        decode_layers want_to_read todo erasures want_to_read_erasures decoded
      else if bool_decide (layer_erasures = ∅) then
        decode_layers want_to_read todo erasures want_to_read_erasures decoded
      else
        let decoded := foldl touch decoded (chunks layer) in
        let layer_decoded := view (chunks layer) decoded in
        let layer_chunks := filter (λ jb, default (-1) (chunks layer !! Z.to_nat jb.1) ∉ erasures)
                              layer_decoded in
        '(err, layer_decoded) ← decode_chunks (erasure_code layer)
            (view_set (chunks layer) want_to_read) layer_chunks layer_decoded;
        let decoded := write_back (chunks layer) layer_decoded decoded in
        if bool_decide (err ≠ 0) then Ret (err, want_to_read_erasures, decoded) else
        let erasures := erasures ∖ list_to_set (chunks layer) in
        let want_to_read_erasures := erasures ∩ want_to_read in
        if bool_decide (want_to_read_erasures = ∅) then Ret (0, ∅, decoded)
        else decode_layers want_to_read todo erasures want_to_read_erasures decoded
  end.

Definition decode_chunks (s : t) (want_to_read : gset Z) (chunks decoded : gmap Z bytes)
    : outcome (Z * gmap Z bytes) :=
  let erasures := ids_where (λ i, bool_decide (i ∉ dom chunks)) (chunk_count s) in
  '(err, want_to_read_erasures, decoded) ←
    decode_layers want_to_read (reverse (layers s)) erasures ∅ decoded;
  if bool_decide (err ≠ 0) then Ret (err, decoded) else
  Ret (if bool_decide (want_to_read_erasures = ∅) then 0 else - EIO, decoded).

(** The plugin as the base class sees it. *)
Definition codec (s : t) : Codec := {|
  get_chunk_count := chunk_count s;
  get_data_chunk_count := data_chunk_count s;
  chunk_mapping := base_mapping s;
  ErasureCode.get_chunk_size := get_chunk_size s;
  codec_minimum_to_decode want avail min := Ret (minimum_to_decode s want avail min);
  ErasureCode.encode_chunks := encode_chunks s;
  ErasureCode.decode_chunks := decode_chunks s;
|}.

End Lrc.
