(* ===== verification/LrcFacts.v ===== *)
(** * The LRC plugin: correctness of the layers

    The chunks of a codeword are, layer by layer, codewords of the inner
    plugins. Each layer that decodes restores all of its chunks, so that what
    is left of the erasures after the layers is what [peel_layer] computes. *)

From S2P Require Import Prelude Strtol ErasureCode Lrc.

Import Lrc.

(** ** Views *)

Section views.
Context (cs : list Z).

Lemma view_lookup w j :
  view cs w !! j = if bool_decide (0 ≤ j) then buf w <$> cs !! Z.to_nat j else None.
Proof.
  unfold view. rewrite <-(length_fmap (buf w) cs), list_to_map_zip_seqZ.
  case_bool_decide.
  - by rewrite lookup_map_seqZ_0, list_lookup_fmap by done.
  - apply lookup_map_seqZ_None. lia.
Qed.

Lemma view_lookup_Some w j c :
  cs !! j = Some c → view cs w !! Z.of_nat j = Some (buf w c).
Proof.
  intros Hj. rewrite view_lookup, bool_decide_true, Nat2Z.id, Hj by lia. done.
Qed.

(** A chunk number of the view is the position of an outer chunk. *)
Lemma view_lookup_inv w j b :
  view cs w !! j = Some b →
  ∃ c, 0 ≤ j ∧ cs !! Z.to_nat j = Some c ∧ b = buf w c.
Proof.
  rewrite view_lookup. case_bool_decide; [|done].
  intros (c & -> & Hc)%fmap_Some. eauto.
Qed.

Lemma dom_view w : dom (view cs w) = list_to_set (seqZ 0 (Z.of_nat (length cs))).
Proof.
  apply set_eq. intros j. rewrite elem_of_dom, view_lookup, elem_of_ids.
  case_bool_decide.
  - rewrite fmap_is_Some, lookup_lt_is_Some. lia.
  - split; [by intros [? [=]]|lia].
Qed.

Lemma view_ext w w' : (∀ c, c ∈ cs → buf w c = buf w' c) → view cs w = view cs w'.
Proof.
  intros Heq. unfold view. do 2 f_equal. apply list_fmap_ext.
  intros i c Hc%list_elem_of_lookup_2. by apply Heq.
Qed.

Lemma view_stripe n bs w :
  stripe n bs w → (∀ c, c ∈ cs → 0 ≤ c < n) →
  stripe (Z.of_nat (length cs)) bs (view cs w).
Proof.
  intros Hst Hcs j Hj. destruct (lookup_lt_is_Some_2 cs (Z.to_nat j)) as [c Hc]; [lia|].
  rewrite view_lookup, bool_decide_true, Hc by lia. simpl. eexists; split; [done|].
  apply list_elem_of_lookup_2, Hcs in Hc. by apply (stripe_buf _ _ _ _ Hst).
Qed.

Lemma write_back_from (inner w : gmap Z bytes) c a :
  NoDup cs →
  foldl (λ w jc, <[jc.2 := buf inner jc.1]> w) w
    (zip (seqZ a (Z.of_nat (length cs))) cs) !! c
  = match list_find (λ x, x = c) cs with
    | Some (j, _) => Some (buf inner (a + Z.of_nat j))
    | None => w !! c
    end.
Proof.
  intros Hnd. revert w a. induction Hnd as [|x l Hx Hnd IH]; intros w a; [done|].
  cbn [length]. rewrite seqZ_cons by lia.
  replace (Z.pred (Z.of_nat (S (length l)))) with (Z.of_nat (length l)) by lia.
  cbn [zip zip_with foldl]. rewrite IH. cbn [list_find].
  destruct (decide (x = c)) as [->|Hne].
  - assert (list_find (λ x, x = c) l = None) as ->.
    { apply list_find_None, Forall_forall. by intros y Hy ->. }
    cbn. rewrite lookup_insert_eq. do 2 f_equal. lia.
  - destruct (list_find _ l) as [[j y]|]; cbn.
    + do 2 f_equal. lia.
    + by rewrite lookup_insert_ne.
Qed.

Lemma write_back_in inner w j c :
  NoDup cs → cs !! j = Some c → write_back cs inner w !! c = Some (buf inner (Z.of_nat j)).
Proof.
  intros Hnd Hj. unfold write_back. rewrite write_back_from by done.
  assert (list_find (λ x, x = c) cs = Some (j, c)) as ->; [|done].
  apply list_find_Some. split_and!; [done..|]. intros i y Hi Hlt ->.
  pose proof (NoDup_lookup _ _ _ _ Hnd Hi Hj). lia.
Qed.

Lemma write_back_out inner w c :
  NoDup cs → c ∉ cs → write_back cs inner w !! c = w !! c.
Proof.
  intros Hnd Hc. unfold write_back. rewrite write_back_from by done.
  assert (list_find (λ x, x = c) cs = None) as ->; [|done].
  apply list_find_None, Forall_forall. by intros y Hy ->.
Qed.

Lemma view_write_back inner w :
  NoDup cs → dom inner = list_to_set (seqZ 0 (Z.of_nat (length cs))) →
  view cs (write_back cs inner w) = inner.
Proof.
  intros Hnd Hdom. apply map_eq. intros j. rewrite view_lookup.
  assert (is_Some (inner !! j) ↔ 0 ≤ j < Z.of_nat (length cs)) as Hj
    by (by rewrite <-elem_of_dom, Hdom, elem_of_ids).
  case_bool_decide as H0; [destruct (cs !! Z.to_nat j) as [c|] eqn:Hc|].
  - pose proof (lookup_lt_Some _ _ _ Hc). cbn. unfold buf at 1.
    rewrite (write_back_in _ _ _ _ Hnd Hc), Z2Nat.id by done. cbn.
    destruct (proj2 Hj) as [b Hb]; [lia|]. unfold buf. by rewrite Hb.
  - apply lookup_ge_None in Hc. cbn. symmetry. apply eq_None_not_Some. rewrite Hj. lia.
  - symmetry. apply eq_None_not_Some. rewrite Hj. lia.
Qed.

Lemma write_back_dom inner w :
  NoDup cs → (∀ c, c ∈ cs → c ∈ dom w) → dom (write_back cs inner w) = dom w.
Proof.
  intros Hnd Hcs. apply set_eq. intros c. rewrite !elem_of_dom.
  destruct (decide (c ∈ cs)) as [Hc|Hc].
  - pose proof (Hcs c Hc) as Hd%elem_of_dom. apply list_elem_of_lookup in Hc as [j Hj].
    rewrite (write_back_in _ _ _ _ Hnd Hj). split; eauto.
  - by rewrite write_back_out.
Qed.

End views.

(** ** Configured layers *)

(** The chunk sizes that suit every layer, and the codewords of the inner
    plugin of each layer. *)
Section layers.
Context (sizes : nat → Prop) (cw : Layer → nat → gmap Z bytes → Prop).

Record layer_ok (n : Z) (l : Layer) : Prop := {
  lo_nodup : NoDup (chunks l);
  lo_set : chunks_as_set l = list_to_set (chunks l);
  lo_range c : c ∈ chunks l → 0 ≤ c < n;
  lo_count : Z.of_nat (length (chunks l)) = get_chunk_count (erasure_code l);
  lo_mds : MdsSpec (erasure_code l) sizes (cw l);
}.

Lemma layer_counts n l :
  layer_ok n l →
  coding_count l = Z.of_nat (length (chunks l)) - get_data_chunk_count (erasure_code l)
  ∧ data_count l = get_data_chunk_count (erasure_code l)
  ∧ 0 < data_count l ≤ Z.of_nat (length (chunks l)).
Proof.
  intros Hl. pose proof (lo_count _ _ Hl) as Hc. destruct (lo_mds _ _ Hl) as [Hk Hn _ _].
  unfold coding_count, data_count, get_coding_chunk_count. rewrite !u32_small by lia. lia.
Qed.

(** The chunks of each layer form a codeword of its plugin. *)
Definition codeword (n : Z) (ls : list Layer) (bs : nat) (w : gmap Z bytes) : Prop :=
  stripe n bs w ∧ Forall (λ l, cw l bs (view (chunks l) w)) ls.

Lemma peel_layer_spec n l (E : gset Z) :
  layer_ok n l →
  peel_layer E l = if bool_decide (Z.of_nat (size (chunks_as_set l ∩ E)) ≤ coding_count l)
                   then E ∖ list_to_set (chunks l) else E.
Proof.
  intros Hl. pose proof (layer_counts _ _ Hl) as (Hcc & Hdc & Hk).
  unfold peel_layer. rewrite (lo_set _ _ Hl). case_bool_decide as He.
  - rewrite bool_decide_true by (rewrite He, size_empty; lia). set_solver.
  - case_bool_decide; [|done]. apply set_eq. set_solver.
Qed.

Lemma lost_ids (X : gset Z) n :
  ids_where (λ i, bool_decide (i ∉ X)) n = list_to_set (seqZ 0 n) ∖ X.
Proof.
  apply set_eq. intros i. rewrite elem_of_ids_where; cbv beta.
  by rewrite elem_of_difference, elem_of_ids, bool_decide_eq_true.
Qed.

(** ** Decoding *)

Section decoding.
Context (n : Z) (bs : nat) (Hbs : (0 < bs)%nat) (Hsz : sizes bs) (w : gmap Z bytes).

(** [decoded] holds the right chunk everywhere but in [E]. *)
Definition repaired (E : gset Z) (decoded : gmap Z bytes) : Prop :=
  ∀ i, 0 ≤ i < n → i ∉ E → decoded !! i = w !! i.

(** The positions in a layer of its erased chunks are as many as these. *)
Lemma view_erasures_size cs (E : gset Z) :
  NoDup cs →
  Z.of_nat (size (list_to_set (filter (λ j, default (-1) (cs !! Z.to_nat j) ∈ E)
    (seqZ 0 (Z.of_nat (length cs)))) : gset Z))
  ≤ Z.of_nat (size ((list_to_set cs : gset Z) ∩ E)).
Proof.
  intros Hnd. set (l := filter _ _).
  assert (NoDup l) as Hl by (apply NoDup_filter, NoDup_seqZ).
  rewrite (size_list_to_set l) by done.
  assert (∀ j, j ∈ l → ∃ c, cs !! Z.to_nat j = Some c ∧ c ∈ E ∧ 0 ≤ j) as Hin.
  { intros j [HE Hj%elem_of_seqZ_range]%list_elem_of_filter.
    destruct (lookup_lt_is_Some_2 cs (Z.to_nat j)) as [c Hc]; [lia|].
    rewrite Hc in HE. exists c. auto with lia. }
  rewrite <-(length_fmap (λ j, default (-1) (cs !! Z.to_nat j)) l).
  rewrite <-(size_list_to_set (C := gset Z)).
  - apply Nat2Z.inj_le, subseteq_size. intros c (j & -> & Hj)%elem_of_list_to_set%list_elem_of_fmap.
    destruct (Hin j Hj) as (c & Hc & HE & _). rewrite Hc. simpl.
    apply elem_of_intersection. split; [|done].
    by apply elem_of_list_to_set, list_elem_of_lookup_2 with (Z.to_nat j).
  - apply NoDup_fmap_2_strong; [|done]. intros i j Hi Hj.
    destruct (Hin i Hi) as (c & Hc & _ & ?), (Hin j Hj) as (c' & Hc' & _ & ?).
    rewrite Hc, Hc'. simpl. intros <-. pose proof (NoDup_lookup _ _ _ _ Hnd Hc Hc'). lia.
Qed.

(** The call of the inner plugin for one layer restores its chunks. *)
Lemma decode_layer_spec l (want E : gset Z) decoded :
  layer_ok n l → stripe n bs w → cw l bs (view (chunks l) w) →
  stripe n bs decoded → repaired E decoded →
  Z.of_nat (size (chunks_as_set l ∩ E)) ≤ coding_count l → chunks_as_set l ∩ E ≠ ∅ →
  ∃ inner, ErasureCode.decode_chunks (erasure_code l) (view_set (chunks l) want)
      (filter (λ jb, default (-1) (chunks l !! Z.to_nat jb.1) ∉ E) (view (chunks l) decoded))
      (view (chunks l) decoded) = Ret (0, inner)
    ∧ stripe n bs (write_back (chunks l) inner decoded)
    ∧ repaired (E ∖ list_to_set (chunks l)) (write_back (chunks l) inner decoded).
Proof.
  intros Hl Hw Hcw Hst Hrep Hsize Hne. pose proof (layer_counts _ _ Hl) as (Hcc & _ & _).
  destruct Hl as [Hnd Hset Hrange Hcount Hmds]. rewrite Hset in Hsize, Hne.
  set (lchunks := filter _ _).
  assert (∀ j, j ∈ dom lchunks ↔ ∃ c, 0 ≤ j ∧ chunks l !! Z.to_nat j = Some c ∧ c ∉ E) as Hdom.
  { intros j. unfold lchunks. rewrite elem_of_dom. split.
    - intros [b [(c & ? & Hc & _)%view_lookup_inv HE]%map_lookup_filter_Some].
      simpl in HE. rewrite Hc in HE. eauto.
    - intros (c & ? & Hc & HE). exists (buf decoded c). apply map_lookup_filter_Some.
      rewrite view_lookup, bool_decide_true, Hc by done. simpl. by rewrite Hc. }
  assert (lchunks ⊆ view (chunks l) w) as Hsub.
  { apply map_subseteq_spec. intros j b [(c & ? & Hc & ->)%view_lookup_inv HE]%map_lookup_filter_Some.
    rewrite view_lookup, bool_decide_true, Hc by done. simpl in HE |- *. rewrite Hc in HE.
    apply list_elem_of_lookup_2, Hrange in Hc. unfold buf. by rewrite (Hrep c). }
  destruct (mds_decode (view_set (chunks l) want) lchunks (view (chunks l) decoded)
    (view (chunks l) w) bs Hcw Hbs Hsz) as (inner & Hdec & Hin).
  { rewrite <-Hcount. by apply (view_stripe _ n). }
  { by rewrite dom_view, Hcount. }
  { done. }
  { intros Heq. apply set_choose_L in Hne as [c [Hc HE]%elem_of_intersection].
    apply elem_of_list_to_set, list_elem_of_lookup in Hc as [j Hj].
    assert (Z.of_nat j ∈ dom lchunks) as (c' & _ & Hc' & Hn)%Hdom.
    { rewrite Heq, dom_view. apply elem_of_ids. apply lookup_lt_Some in Hj. lia. }
    rewrite Nat2Z.id in Hc'. congruence. }
  { rewrite <-Hcount, <-Hcc. etrans; [|exact Hsize].
    etrans; [|apply view_erasures_size; done]. apply Nat2Z.inj_le, subseteq_size.
    intros j [Hj Hn]%elem_of_difference. rewrite dom_view in Hj. apply elem_of_ids in Hj.
    apply elem_of_list_to_set, list_elem_of_filter. split; [|by apply elem_of_seqZ_range].
    destruct (lookup_lt_is_Some_2 (chunks l) (Z.to_nat j)) as [c Hc]; [lia|].
    rewrite Hc. simpl. apply dec_stable. intros HE. apply Hn, Hdom. eauto with lia. }
  { rewrite <-Hcount. by apply (view_stripe _ n). }
  { by rewrite dom_view, Hcount. }
  { apply map_filter_subseteq. }
  exists inner. split; [done|].
  assert (∀ i, i ∈ chunks l → write_back (chunks l) inner decoded !! i = w !! i) as Hwb.
  { intros i [j Hj]%list_elem_of_lookup. rewrite (write_back_in _ _ _ _ _ Hnd Hj).
    pose proof (lookup_lt_Some _ _ _ Hj). unfold buf. rewrite Hin by lia.
    rewrite (view_lookup_Some _ _ _ _ Hj). simpl. symmetry.
    apply (stripe_buf _ _ _ _ Hw), Hrange. by apply list_elem_of_lookup_2 in Hj. }
  split.
  - intros i Hi. destruct (decide (i ∈ chunks l)); [rewrite Hwb by done; by apply Hw|].
    rewrite write_back_out by done. by apply Hst.
  - intros i Hi HE. destruct (decide (i ∈ chunks l)); [by apply Hwb|].
    rewrite write_back_out by done. apply Hrep; [done|]. set_solver.
Qed.

(** The loop over the layers: it returns without error, and either it stopped
    because no wanted chunk is missing, or it has peeled all the layers. *)
Lemma decode_layers_spec (want : gset Z) todo (E we : gset Z) decoded :
  Forall (layer_ok n) todo → stripe n bs w →
  Forall (λ l, cw l bs (view (chunks l) w)) todo →
  stripe n bs decoded → repaired E decoded →
  ∃ E' we' decoded', decode_layers want todo E we decoded = Ret (0, we', decoded')
    ∧ repaired E' decoded'
    ∧ (E' ∩ want = ∅ ∧ we' = ∅
       ∨ E' = foldl peel_layer E todo ∧ (we' = E' ∩ want ∨ we' = we ∧ E' = E)).
Proof.
  intros Hok Hw Hcw. revert E we decoded.
  induction todo as [|l todo IH]; intros E we decoded Hst Hrep; cbn [decode_layers foldl].
  { exists E, we, decoded. split; [done|]. split; [done|]. right. auto. }
  apply Forall_cons in Hok as [Hl Hok], Hcw as [Hcwl Hcw].
  specialize (IH Hok Hcw). rewrite (peel_layer_spec n l) by done.
  case_bool_decide as Hmany.
  { rewrite bool_decide_false by lia. by apply IH. }
  rewrite (bool_decide_true (Z.of_nat (size (chunks_as_set l ∩ E)) ≤ coding_count l)) by lia.
  case_bool_decide as Hnone.
  { assert (E ∖ list_to_set (chunks l) = E) as ->; [|by apply IH].
    rewrite (lo_set _ _ Hl) in Hnone. set_solver. }
  rewrite foldl_touch_id.
  2: { intros i Hi%(lo_range _ _ Hl). destruct (Hst i Hi) as (b & Hb & _).
       by apply elem_of_dom_2 in Hb. }
  destruct (decode_layer_spec l want E decoded Hl Hw Hcwl Hst Hrep) as (inner & -> & Hst' & Hrep');
    [lia|done|].
  cbn [mbind outcome_bind]. rewrite bool_decide_false by tauto.
  case_bool_decide as Hdone.
  { eexists _, _, _. split; [done|]. split; [exact Hrep'|]. left. done. }
  destruct (IH (E ∖ list_to_set (chunks l)) ((E ∖ list_to_set (chunks l)) ∩ want) _ Hst' Hrep')
    as (E' & we' & dec' & -> & Hr & Hc).
  exists E', we', dec'. split; [done|]. split; [done|].
  destruct Hc as [?|[HE [?|[-> ->]]]]; auto.
Qed.

End decoding.

(** ** The plugin *)

(** Later layers do not write to the chunks of earlier ones. *)
Definition coding (l : Layer) : list Z := drop (Z.to_nat (data_count l)) (chunks l).

Fixpoint layers_ordered (ls : list Layer) : Prop :=
  match ls with
  | [] => True
  | l :: ls => Forall (λ l', ∀ c, c ∈ coding l' → c ∉ chunks l) ls ∧ layers_ordered ls
  end.

(** A configured plugin: the mapping has the data chunks first, no layer
    overwrites a data chunk, and no layer but the first has all the chunks
    ([encode_chunks] would start there). *)
Record state_ok (s : t) : Prop := {
  so_counts : 0 < data_chunk_count s ≤ chunk_count s;
  so_counts_u32 : chunk_count s < 2 ^ 32;
  so_mapping : mapping_ok (base_mapping s) (chunk_count s);
  so_layers : Forall (layer_ok (chunk_count s)) (layers s);
  so_ordered : layers_ordered (layers s);
  so_data : Forall (λ l, ∀ i, 0 ≤ i < data_chunk_count s →
    chunk_index (base_mapping s) i ∉ coding l) (layers s);
  so_top : Forall (λ l, ¬ list_to_set (seqZ 0 (chunk_count s)) ⊆ chunks_as_set l)
    (tail (layers s));
}.

(** No wanted chunk is left among the erasures when the layers have been
    peeled. *)
Definition recoverable (s : t) (have want : gset Z) : Prop :=
  foldl peel_layer (list_to_set (seqZ 0 (chunk_count s)) ∖ have) (reverse (layers s)) ∩ want = ∅.

Lemma lrc_decode_chunks_spec s (want : gset Z) chunks decoded w bs :
  state_ok s → codeword (chunk_count s) (layers s) bs w → (0 < bs)%nat → sizes bs →
  chunks ⊆ w → stripe (chunk_count s) bs decoded → chunks ⊆ decoded →
  want ⊆ list_to_set (seqZ 0 (chunk_count s)) → recoverable s (dom chunks) want →
  ∃ decoded', decode_chunks s want chunks decoded = Ret (0, decoded')
    ∧ ∀ i, i ∈ want → decoded' !! i = w !! i.
Proof.
  intros Hs [Hw Hcw] Hbs Hsz Hsub Hst Hdec Hwant Hrec.
  unfold decode_chunks. rewrite lost_ids. set (E0 := _ ∖ _).
  destruct (decode_layers_spec (chunk_count s) bs Hbs Hsz w want (reverse (layers s)) E0 ∅ decoded)
    as (E' & we' & dec' & -> & Hrep & Hcase).
  - apply Forall_reverse, (so_layers _ Hs).
  - done.
  - by apply Forall_reverse.
  - done.
  - intros i Hi Hn. assert (i ∈ dom chunks) as [b Hb]%elem_of_dom.
    { apply dec_stable. intros ?. apply Hn. unfold E0. by rewrite elem_of_difference, elem_of_ids. }
    by rewrite (lookup_weaken _ _ _ _ Hb Hdec), (lookup_weaken _ _ _ _ Hb Hsub).
  - unfold recoverable in Hrec. fold E0 in Hrec.
    assert (E' ∩ want = ∅ ∧ we' = ∅) as [Hnone ->].
    { destruct Hcase as [?|[-> [->|[-> _]]]]; auto. }
    cbn. eexists; split; [done|]. intros i Hi. apply Hrep; [|set_solver].
    by apply elem_of_ids, Hwant.
Qed.

(** ** Encoding *)

Lemma layers_ordered_app ls1 l ls2 l' c :
  layers_ordered (ls1 ++ l :: ls2) → l' ∈ ls1 → c ∈ coding l → c ∉ chunks l'.
Proof.
  induction ls1 as [|x ls1 IH]; intros Hord Hin Hc; [by apply elem_of_nil in Hin|].
  cbn in Hord. destruct Hord as [Hx Hord].
  apply elem_of_cons in Hin as [->|Hin]; [|by apply IH].
  rewrite Forall_forall in Hx. apply (Hx l); set_solver.
Qed.

(** The call of the inner plugin for one layer makes its chunks a codeword and
    changes nothing but its coding chunks. *)
Lemma encode_layer_spec n bs l (want : gset Z) enc :
  layer_ok n l → (0 < bs)%nat → sizes bs → stripe n bs enc → dom enc = list_to_set (seqZ 0 n) →
  ∃ inner, ErasureCode.encode_chunks (erasure_code l) want (view (chunks l) enc) = Ret (0, inner)
    ∧ let enc' := write_back (chunks l) inner enc in
      dom enc' = dom enc ∧ stripe n bs enc' ∧ cw l bs (view (chunks l) enc')
      ∧ ∀ c, c ∉ coding l → enc' !! c = enc !! c.
Proof.
  intros Hl Hbs Hsz Hst Hdom. pose proof (layer_counts _ _ Hl) as (_ & Hdc & Hk).
  destruct Hl as [Hnd Hset Hrange Hcount Hmds].
  destruct (mds_encode want (view (chunks l) enc) bs) as (inner & Hinner & Hd & Hsti & Hcw & Hdata).
  { rewrite <-Hcount. by apply (view_stripe _ n). }
  { done. }
  { done. }
  { by rewrite dom_view, Hcount. }
  exists inner. split; [done|]. cbv zeta. rewrite dom_view in Hd. split_and!.
  - apply write_back_dom; [done|]. intros c Hc%Hrange. rewrite Hdom. by apply elem_of_ids.
  - intros i Hi. destruct (decide (i ∈ chunks l)) as [[j Hj]%list_elem_of_lookup|].
    + rewrite (write_back_in _ _ _ _ _ Hnd Hj). eexists; split; [done|].
      apply lookup_lt_Some in Hj. apply (stripe_buf _ _ _ _ Hsti). lia.
    + rewrite write_back_out by done. by apply Hst.
  - by rewrite view_write_back.
  - intros c Hc. destruct (decide (c ∈ chunks l)) as [[j Hj]%list_elem_of_lookup|];
      [|by rewrite write_back_out].
    rewrite (write_back_in _ _ _ _ _ Hnd Hj).
    assert (Z.of_nat j < data_count l) as Hlt.
    { apply Z.nle_gt. intros Hge. apply Hc. unfold coding.
      apply list_elem_of_lookup. exists (j - Z.to_nat (data_count l))%nat.
      rewrite lookup_drop, <-Hj. f_equal. lia. }
    unfold buf at 1. rewrite Hdata, (view_lookup_Some _ _ _ _ Hj) by lia. simpl.
    symmetry. apply (stripe_buf _ _ _ _ Hst), Hrange. by apply list_elem_of_lookup_2 in Hj.
Qed.

Lemma encode_layers_spec n bs (want : gset Z) done todo enc :
  Forall (layer_ok n) (done ++ todo) → layers_ordered (done ++ todo) → (0 < bs)%nat → sizes bs →
  stripe n bs enc → dom enc = list_to_set (seqZ 0 n) →
  Forall (λ l, cw l bs (view (chunks l) enc)) done →
  ∃ enc', encode_layers want todo enc = Ret (0, enc') ∧ dom enc' = dom enc
    ∧ codeword n (done ++ todo) bs enc'
    ∧ ∀ c, Forall (λ l, c ∉ coding l) todo → enc' !! c = enc !! c.
Proof.
  intros Hok Hord Hbs Hsz. revert done Hok Hord enc.
  induction todo as [|l todo IH]; intros done Hok Hord enc Hst Hdom Hcw; cbn [encode_layers].
  { exists enc. rewrite app_nil_r. done. }
  assert (layer_ok n l) as Hl by (rewrite Forall_forall in Hok; apply Hok; set_solver).
  rewrite foldl_touch_id
    by (intros i Hi%(lo_range _ _ Hl); rewrite Hdom; by apply elem_of_ids).
  destruct (encode_layer_spec n bs l (view_set (chunks l) want) enc)
    as (inner & -> & Hd & Hst' & Hcwl & Hsame); [done..|].
  cbn [mbind outcome_bind]. rewrite bool_decide_false by tauto.
  set (enc1 := write_back _ _ _) in *.
  destruct (IH (done ++ [l])) with enc1 as (enc' & -> & Hd' & Hcw' & Hsame').
  - by rewrite <-app_assoc.
  - by rewrite <-app_assoc.
  - done.
  - by rewrite Hd.
  - apply Forall_app. split; [|by constructor]. rewrite Forall_forall in Hcw |- *.
    intros l' Hl'. rewrite (view_ext _ _ enc); [by apply Hcw|].
    intros c Hc. unfold buf. rewrite Hsame; [done|]. intros Hcod.
    by apply (layers_ordered_app done l todo l' c Hord Hl' Hcod).
  - exists enc'. rewrite <-app_assoc in Hcw'. split_and!; [done|by rewrite Hd'|done|].
    intros c [Hcl Hct]%Forall_cons. rewrite Hsame' by done. by apply Hsame.
Qed.

Lemma top_layer_first (want : gset Z) ls :
  Forall (λ l, ¬ want ⊆ chunks_as_set l) (tail ls) →
  top_layer want (reverse ls) (length ls) = 0%nat.
Proof.
  destruct ls as [|l ls]; [done|]. cbn [tail]. intros Hall.
  rewrite reverse_cons. cbn [length].
  assert (∀ rest m, (length rest < m)%nat →
    Forall (λ l, ¬ want ⊆ chunks_as_set l) rest →
    top_layer want (rest ++ [l]) m = (m - length rest - 1)%nat) as Hgen.
  { induction rest as [|x rest IH]; intros m Hm Hr; cbn.
    - case_bool_decide; lia.
    - apply Forall_cons in Hr as [Hx Hr]. rewrite bool_decide_false by done.
      simpl in Hm. rewrite IH by (done || lia). lia. }
  rewrite Hgen; [rewrite length_reverse; lia|rewrite length_reverse; lia|by apply Forall_reverse].
Qed.

Lemma lrc_encode_chunks_spec s (want : gset Z) bs enc :
  state_ok s → list_to_set (seqZ 0 (chunk_count s)) ⊆ want → (0 < bs)%nat → sizes bs → stripe (chunk_count s) bs enc →
  dom enc = list_to_set (seqZ 0 (chunk_count s)) →
  ∃ enc', encode_chunks s want enc = Ret (0, enc')
    ∧ dom enc' = dom enc ∧ codeword (chunk_count s) (layers s) bs enc'
    ∧ ∀ i, 0 ≤ i < data_chunk_count s →
        enc' !! chunk_index (base_mapping s) i = enc !! chunk_index (base_mapping s) i.
Proof.
  intros Hs Hwant Hbs Hsz Hst Hdom. unfold encode_chunks. rewrite top_layer_first.
  2: { eapply Forall_impl; [apply (so_top _ Hs)|]. set_solver. }
  rewrite drop_0. destruct (encode_layers_spec (chunk_count s) bs want [] (layers s) enc) as (enc' & -> & Hd & Hcw & Hsame); simpl; try done.
  - apply (so_layers _ Hs).
  - apply (so_ordered _ Hs).
  - exists enc'. split_and!; [done..|]. intros i Hi. apply Hsame.
    eapply Forall_impl; [apply (so_data _ Hs)|]. intros l Hl. by apply Hl.
Qed.

(** ** The chunks to read *)

Lemma peel_layer_subseteq E l : peel_layer E l ⊆ E.
Proof. unfold peel_layer. repeat case_bool_decide; set_solver. Qed.

Lemma peel_subseteq ls E : foldl peel_layer E ls ⊆ E.
Proof.
  revert E. induction ls as [|l ls IH]; intros E; [done|]. cbn.
  etrans; [apply IH|apply peel_layer_subseteq].
Qed.

Section minimum.
Context (s : t) (want total : gset Z).

Lemma strategy_layer_mono st l : minimum_ st ⊆ minimum_ (strategy_layer s want st l).
Proof. unfold strategy_layer. repeat case_bool_decide; set_solver. Qed.

Lemma strategy_mono st ls : minimum_ st ⊆ minimum_ (foldl (strategy_layer s want) st ls).
Proof.
  revert st. induction ls as [|l ls IH]; intros st; [done|]. cbn.
  etrans; [apply (strategy_layer_mono st l)|apply IH].
Qed.

Lemma first_chunks_subseteq l m : first_chunks s l m ⊆ m ∩ list_to_set (seqZ 0 (chunk_count s)).
Proof.
  unfold first_chunks. intros i Hi%elem_of_list_to_set.
  assert (i ∈ filter (λ j, j ∈ m) (seqZ 0 (chunk_count s))) as [Hm Hs]%list_elem_of_filter.
  { case_bool_decide; [done|]. by apply elem_of_take in Hi as (j & ?%list_elem_of_lookup_2 & _). }
  set_solver.
Qed.

(** A layer that can repair what is lost reads as many chunks as it has data
    chunks. *)
Lemma first_chunks_size l (E : gset Z) :
  layer_ok (chunk_count s) l →
  Z.of_nat (size (chunks_as_set l ∩ E)) ≤ coding_count l →
  Z.of_nat (size (first_chunks s l (chunks_as_set l ∖ E))) = data_count l.
Proof.
  intros Hl Hsize. pose proof (layer_counts _ _ Hl) as (Hcc & Hdc & Hk).
  unfold first_chunks. rewrite bool_decide_false by lia.
  set (found := filter _ _).
  assert (NoDup found) as Hnd by (apply NoDup_filter, NoDup_seqZ).
  assert (length found = size (chunks_as_set l ∖ E)) as Hlen.
  { rewrite <-(size_list_to_set (C := gset Z)) by done. f_equal. apply set_eq. intros i.
    unfold found. rewrite elem_of_list_to_set, list_elem_of_filter, elem_of_seqZ_range.
    split; [tauto|]. intros Hi. split; [done|].
    apply elem_of_difference in Hi as [Hi _]. rewrite (lo_set _ _ Hl) in Hi.
    apply elem_of_list_to_set, (lo_range _ _ Hl) in Hi. lia. }
  assert (size (chunks_as_set l) = length (chunks l)) as HL
    by (rewrite (lo_set _ _ Hl); apply size_list_to_set, (lo_nodup _ _ Hl)).
  assert (size (chunks_as_set l ∖ E) + size (chunks_as_set l ∩ E) = size (chunks_as_set l))%nat
    as Hsplit.
  { rewrite <-size_union by set_solver. f_equal. apply set_eq. intros i.
    destruct (decide (i ∈ E)); set_solver. }
  rewrite size_list_to_set by (by apply NoDup_take). rewrite length_take. lia.
Qed.

(** The layers that repair wanted chunks in the second strategy also decode
    when exactly the chunks it chose are there. *)
Lemma strategy_peel ls st (M Ed : gset Z) :
  Forall (layer_ok (chunk_count s)) ls →
  (∀ i, i ∈ minimum_ (foldl (strategy_layer s want) st ls) → i ∉ total → i ∈ M) →
  (∀ i, i ∈ Ed → i ∉ M) → (∀ i, i ∈ Ed → i ∈ total → i ∈ not_recovered st) →
  ∀ i, i ∈ foldl peel_layer Ed ls → i ∈ total →
    i ∈ not_recovered (foldl (strategy_layer s want) st ls).
Proof.
  intros Hls. revert st Ed. induction Hls as [|l ls Hl Hls IH];
    intros st Ed HM HEd Hrec i Hi Ht; [by apply Hrec|]. cbn in *.
  apply (IH _ (peel_layer Ed l)); [done| | |done|done].
  { intros j Hj%peel_layer_subseteq. by apply HEd. }
  intros j Hj Hjt. pose proof (peel_layer_subseteq _ _ _ Hj) as HjE.
  remember (strategy_layer s want st l) as st1 eqn:Hst1. unfold strategy_layer in Hst1.
  repeat case_bool_decide; subst st1; try by apply Hrec.
  match goal with H : ¬ coding_count l < _ |- _ => rename H into Hmany end.
  cbn. assert (j ∉ chunks_as_set l) as Hjl.
  { rewrite (peel_layer_spec (chunk_count s)) in Hj by done.
    rewrite bool_decide_true in Hj; [rewrite (lo_set _ _ Hl); set_solver|].
    pose proof (layer_counts _ _ Hl) as (Hcc & Hdc & _).
    set (lm := first_chunks s l (chunks_as_set l ∖ not_recovered st)) in *.
    assert (Z.of_nat (size lm) = data_count l) as Hlm by (apply first_chunks_size; [done|lia]).
    assert (lm ⊆ chunks_as_set l) as Hlml.
    { pose proof (first_chunks_subseteq l (chunks_as_set l ∖ not_recovered st)). set_solver. }
    assert (size (chunks_as_set l) = length (chunks l)) as HL
      by (rewrite (lo_set _ _ Hl); apply size_list_to_set, (lo_nodup _ _ Hl)).
    assert (chunks_as_set l ∩ Ed ⊆ chunks_as_set l ∖ lm) as Hsub.
    { intros x [HxL HxE]%elem_of_intersection. apply elem_of_difference. split; [done|].
      intros Hx. destruct (decide (x ∈ total)) as [Hxt|Hxt].
      - pose proof (first_chunks_subseteq l _ _ Hx). specialize (Hrec x HxE Hxt). set_solver.
      - apply (HEd x HxE), HM; [|done]. apply strategy_mono. set_solver. }
    apply subseteq_size in Hsub.
    pose proof (size_difference (C := gset Z) (chunks_as_set l) lm Hlml). lia. }
  apply elem_of_difference. split; [by apply Hrec|]. set_solver.
Qed.

Lemma strategy_wanted ls st :
  wanted st = not_recovered st ∩ want →
  wanted (foldl (strategy_layer s want) st ls)
  = not_recovered (foldl (strategy_layer s want) st ls) ∩ want.
Proof.
  revert st. induction ls as [|l ls IH]; intros st Hst; [done|]. cbn. apply IH.
  unfold strategy_layer. repeat case_bool_decide; cbn; try done. rewrite Hst. set_solver.
Qed.

Lemma strategy_range ls st :
  want ⊆ list_to_set (seqZ 0 (chunk_count s)) →
  minimum_ st ⊆ list_to_set (seqZ 0 (chunk_count s)) →
  minimum_ (foldl (strategy_layer s want) st ls) ⊆ list_to_set (seqZ 0 (chunk_count s)).
Proof.
  intros Hw. revert st. induction ls as [|l ls IH]; intros st Hst; [done|]. cbn. apply IH.
  unfold strategy_layer. repeat case_bool_decide; cbn; try done; [set_solver|].
  pose proof (first_chunks_subseteq l (chunks_as_set l ∖ not_recovered st)). set_solver.
Qed.

End minimum.

(** What [minimum_to_decode] answers is available and enough. *)
Lemma lrc_minimum_to_decode_enough s (want avail m : gset Z) :
  state_ok s → want ⊆ list_to_set (seqZ 0 (chunk_count s)) →
  minimum_to_decode s want avail ∅ = (0, m) → m ⊆ avail ∧ recoverable s m want.
Proof.
  intros Hs Hwant. unfold minimum_to_decode.
  set (ew := ids_where _ _). set (total := ids_where _ _).
  set (ids := list_to_set (seqZ 0 (chunk_count s)) : gset Z) in *.
  assert (total = ids ∖ avail) as Htotal by apply lost_ids.
  assert (ew = total ∩ want) as Hew.
  { apply set_eq. intros i. rewrite Htotal. unfold ew. rewrite elem_of_ids_where; cbv beta.
    rewrite andb_true_iff, !bool_decide_eq_true. unfold ids.
    rewrite elem_of_intersection, elem_of_difference, elem_of_ids. tauto. }
  case_bool_decide as H1.
  { intros [= <-]. split; [set_solver|]. unfold recoverable.
    pose proof (peel_subseteq (reverse (layers s)) (ids ∖ want)). set_solver. }
  pose proof (so_layers _ Hs) as Hls. apply Forall_reverse in Hls.
  set (st0 := mkStrategy _ _ _). set (st := foldl _ _ _).
  assert (wanted st = not_recovered st ∩ want) as Hwst by (by apply strategy_wanted).
  case_bool_decide as H2.
  - set (M := foldl _ _ (ascending total)). intros [= <-].
    assert (∀ i, i ∈ M ↔ i ∈ minimum_ st ∪ want ∧ i ∉ total) as HM.
    { intros i. unfold M. by rewrite elem_of_foldl_difference, elem_of_ascending. }
    assert (minimum_ st ⊆ ids) as Hrange by (by apply strategy_range).
    split; [intros i Hi%HM; set_solver|]. unfold recoverable. fold ids.
    apply disjoint_intersection_L. intros i Hi Hiw.
    pose proof (peel_subseteq _ _ _ Hi) as HiM. apply elem_of_difference in HiM as [Hid HiM].
    destruct (decide (i ∈ total)) as [Hit|Hit]; [|set_solver].
    assert (i ∈ not_recovered st); [|set_solver].
    apply (strategy_peel s want total _ st0 M (ids ∖ M) Hls); [|set_solver..| |done].
    + intros j Hj Hjt. apply HM. set_solver.
    + done.
  - case_bool_decide as H3; [|done]. intros [= <-]. split; [done|].
    unfold recoverable. fold ids. rewrite <-Htotal, H3. set_solver.
Qed.

End layers.
