(* ===== verification/LrcCorrect.v ===== *)
(** * The LRC plugin: theorems

    Round trip and read path of the layered code under the base class, the
    locality of a repair, and three places where the code does not do what it
    means to. The theorems are proved against [MdsSpec], what a layer asks of
    its inner plugin; the examples instantiate it with the ISA plugin. *)

From S2P Require Import Prelude Galois Strtol ErasureCode IsaCache Isa IsaFacts IsaL8 IsaCorrect Lrc LrcFacts.

Import Lrc.

#[local] Abbreviation ids s := (list_to_set (seqZ 0 (chunk_count s)) : gset Z).

(** The chunk size of the first layer suits the whole code. *)
Definition chunk_size_ok (sizes : nat → Prop) (s : t) (max_len : Z) : Prop :=
  ∀ len, 0 < len ≤ max_len →
    ∃ bs, get_chunk_size s len = Ret bs ∧ 0 < bs ∧ len ≤ data_chunk_count s * bs < 2 ^ 32
      ∧ sizes (Z.to_nat bs).

Section theorems.
Context (sizes : nat → Prop) (cw : Layer → nat → gmap Z bytes → Prop).

Lemma lrc_codec_spec s max_len :
  state_ok sizes cw s → chunk_size_ok sizes s max_len →
  CodecSpec (codec s) max_len sizes
    (λ bs w, sizes bs ∧ codeword cw (chunk_count s) (layers s) bs w) (recoverable s).
Proof.
  intros Hs Hsize. split; cbn.
  - apply (so_counts _ _ _ Hs).
  - apply (so_counts_u32 _ _ _ Hs).
  - apply (so_mapping _ _ _ Hs).
  - exact Hsize.
  - by intros bs w [_ [Hst _]].
  - intros want enc bs Hwant Hst Hbs Hsz Hdom.
    destruct (lrc_encode_chunks_spec sizes cw s want bs enc) as (enc' & ? & ? & ? & ?); [done..|].
    by exists enc'.
  - intros want chunks decoded w bs [Hsz Hcw] Hbs Hsub _ Hwant _ Hst Hdec Hrec _.
    by apply (lrc_decode_chunks_spec sizes cw s want chunks decoded w bs).
Qed.

(** With no chunk at all no layer has few enough erasures. *)
Lemma peel_everything ls n :
  Forall (layer_ok sizes cw n) ls → foldl peel_layer (list_to_set (seqZ 0 n)) ls = list_to_set (seqZ 0 n).
Proof.
  induction 1 as [|l ls Hl Hls IH]; [done|]. cbn [foldl].
  rewrite (peel_layer_spec sizes cw n) by done. rewrite bool_decide_false; [done|].
  pose proof (layer_counts _ _ _ _ Hl) as (Hcc & Hdc & Hk).
  assert (chunks_as_set l ∩ list_to_set (seqZ 0 n) = list_to_set (chunks l)) as ->.
  { rewrite (lo_set _ _ _ _ Hl). apply set_eq. intros i.
    rewrite elem_of_intersection, elem_of_ids, elem_of_list_to_set.
    split; [tauto|]. intros Hi. split; [done|]. by apply (lo_range _ _ _ _ Hl). }
  rewrite size_list_to_set by apply (lo_nodup _ _ _ _ Hl). lia.
Qed.

Lemma recoverable_nonempty s (have want : gset Z) :
  state_ok sizes cw s → want ⊆ ids s → want ≠ ∅ → recoverable s have want → have ≠ ∅.
Proof.
  intros Hs Hwant Hne Hrec ->. unfold recoverable in Hrec. rewrite difference_empty_L in Hrec.
  rewrite peel_everything in Hrec by apply Forall_reverse, (so_layers _ _ _ Hs). set_solver.
Qed.

Lemma data_positions_range s : state_ok sizes cw s → data_positions (codec s) ⊆ ids s.
Proof.
  intros Hs i. unfold data_positions. rewrite elem_of_list_to_set, list_elem_of_fmap, elem_of_ids.
  intros (j & -> & Hj%elem_of_seqZ_range). cbn in *.
  pose proof (so_counts _ _ _ Hs). apply chunk_index_range; [apply (so_mapping _ _ _ Hs)|lia].
Qed.

Lemma data_positions_nonempty s : state_ok sizes cw s → data_positions (codec s) ≠ ∅.
Proof.
  intros Hs He. pose proof (so_counts _ _ _ Hs).
  assert (chunk_index (base_mapping s) 0 ∈ data_positions (codec s)) as Hin; [|set_solver].
  apply elem_of_list_to_set, list_elem_of_fmap_2, elem_of_seqZ_range. cbn. lia.
Qed.

Lemma lrc_stripe_roundtrip `{HA : Allocator} `{HAS : !AllocatorSpec} s max_len raw :
  state_ok sizes cw s → chunk_size_ok sizes s max_len → bytes_ok raw → 0 < blen raw ≤ max_len →
  ∃ enc bs, encode (codec s) (ids s) raw ∅ = Ret (0, enc)
    ∧ get_chunk_size s (blen raw) = Ret bs ∧ dom enc = ids s
    ∧ ∀ have, have ⊆ ids s → recoverable s have (data_positions (codec s)) →
        decode_concat (codec s) (select have enc)
        = Ret (0, raw ++ zeros (Z.to_nat (data_chunk_count s * bs - blen raw))).
Proof.
  intros Hs Hsize Hok Hlen.
  destruct (decode_concat_encode (codec s) max_len sizes
    (λ bs w, sizes bs ∧ codeword cw (chunk_count s) (layers s) bs w) (recoverable s) raw) as (enc & bs & Henc & Hbs & Hdom & Hdec); [by apply lrc_codec_spec|done..|].
  exists enc, bs. split_and!; [done..|]. intros have Hhave Hrec.
  pose proof (dom_select have enc ltac:(by rewrite Hdom)) as Hds.
  apply Hdec; [apply select_subseteq| |by right; rewrite Hds].
  intros He. apply (recoverable_nonempty s have (data_positions (codec s))); try done.
  - by apply data_positions_range.
  - by apply data_positions_nonempty.
  - by rewrite <-Hds, He, dom_empty_L.
Qed.



Section one_lost.
Context (s : t) (c : Z).

(** Layers without the lost chunk do nothing. *)
Lemma strategy_skip ls st :
  Forall (λ l, c ∉ chunks_as_set l) ls → foldl (strategy_layer s {[c]}) st ls = st.
Proof.
  induction 1 as [|l ls Hl Hls IH]; [done|]. cbn. unfold strategy_layer at 2.
  by rewrite bool_decide_true by set_solver.
Qed.

(** Once nothing is missing, a layer adds at most the lost chunk itself. *)
Lemma strategy_settled ls E m :
  ∃ m', foldl (strategy_layer s {[c]}) (mkStrategy E ∅ m) ls = mkStrategy E ∅ m'
    ∧ m ⊆ m' ⊆ m ∪ {[c]}.
Proof.
  revert m. induction ls as [|l ls IH]; intros m; [exists m; set_solver|]. cbn.
  unfold strategy_layer at 2. cbn. case_bool_decide; [by apply IH|].
  rewrite bool_decide_true by set_solver.
  destruct (IH (m ∪ {[c]} ∩ chunks_as_set l)) as (m' & -> & ?). exists m'. set_solver.
Qed.

End one_lost.

(** Locality of a repair: when one chunk is lost, [minimum_to_decode] reads
    from the last layer that has the chunk, and only as many chunks as this
    layer has data chunks, whatever the other layers are. *)
Lemma lrc_local_repair s ls1 l ls2 c :
  state_ok sizes cw s → layers s = ls1 ++ l :: ls2 → c ∈ chunks_as_set l →
  Forall (λ l', c ∉ chunks_as_set l') ls2 → 1 ≤ coding_count l →
  ∃ minimum, minimum_to_decode s {[c]} (ids s ∖ {[c]}) ∅ = (0, minimum)
    ∧ minimum ⊆ chunks_as_set l ∖ {[c]} ∧ Z.of_nat (size minimum) = data_count l.
Proof.
  intros Hs Hls Hc Hls2 Hcc. pose proof (so_layers _ _ _ Hs) as Hok.
  rewrite Hls in Hok. apply Forall_app in Hok as [_ [Hl _]%Forall_cons].
  assert (c ∈ ids s) as Hid.
  { rewrite (lo_set _ _ _ _ Hl), elem_of_list_to_set in Hc. by apply elem_of_ids, (lo_range _ _ _ _ Hl). }
  unfold minimum_to_decode. rewrite lost_ids.
  assert (ids s ∖ (ids s ∖ {[c]}) = {[c]}) as -> by (apply set_eq; intros i; destruct (decide (i = c)); set_solver).
  set (ew := ids_where _ _). assert (ew = {[c]}) as ->.
  { apply set_eq. intros i. unfold ew. rewrite elem_of_ids_where; cbv beta.
    rewrite andb_true_iff, !bool_decide_eq_true, <-elem_of_ids. set_solver. }
  rewrite bool_decide_false by set_solver.
  rewrite Hls, reverse_app, reverse_cons, !foldl_app.
  rewrite (strategy_skip _ _ (reverse ls2)) by (by apply Forall_reverse). cbn [foldl].
  assert (chunks_as_set l ∩ {[c]} = {[c]}) as Hint by set_solver.
  set (m := first_chunks s l (chunks_as_set l ∖ {[c]})).
  assert (strategy_layer s {[c]} (mkStrategy {[c]} {[c]} ∅) l = mkStrategy ∅ ∅ m) as ->.
  { unfold strategy_layer. cbn. rewrite !bool_decide_false by set_solver. rewrite Hint.
    rewrite bool_decide_false by (rewrite size_singleton; lia).
    f_equal; [set_solver..|]. by rewrite union_empty_l_L. }
  destruct (strategy_settled s c (reverse ls1) ∅ m) as (m' & -> & Hm'). cbn [wanted minimum_].
  rewrite bool_decide_true by done. exists m.
  assert (m ⊆ chunks_as_set l ∖ {[c]}) as Hm.
  { pose proof (first_chunks_subseteq cw s l (chunks_as_set l ∖ {[c]})). set_solver. }
  split_and!; [|done|apply (first_chunks_size sizes cw); [done|rewrite Hint, size_singleton; lia]].
  f_equal. apply set_eq. intros i. rewrite elem_of_foldl_difference, elem_of_ascending.
  destruct (decide (i = c)); set_solver.
Qed.

End theorems.

(** ** A concrete code: k = 4, m = 2, l = 3

    Eight chunks: a global layer DDc_DDc_ and two local ones, DDDc____ and
    ____DDDc, with the ISA plugin in every layer. *)

Definition global_code : Isa.t := made (isa_profile "cauchy" 4 2).
Definition local_code : Isa.t := made (isa_profile "cauchy" 3 1).

Definition layer_of (code : Isa.t) (cs : list Z) : Layer :=
  mkLayer (Isa.codec code IsaCache.empty) cs (list_to_set cs).

Definition lrc_4_2_3 : t :=
  mk [layer_of global_code [0; 1; 4; 5; 2; 6]; layer_of local_code [0; 1; 2; 3];
      layer_of local_code [4; 5; 6; 7]] 8 4 [0; 1; 4; 5; 2; 3; 6; 7].

Definition layer_codeword (l : Layer) : nat → gmap Z bytes → Prop :=
  IsaFacts.codeword (if bool_decide (length (chunks l) = 6%nat) then global_code else local_code).

Lemma global_code_ok : IsaFacts.state_ok global_code.
Proof. split; [by vm_compute|by vm_compute|by vm_compute|right; by vm_compute|by vm_compute|by vm_compute]. Qed.
Lemma local_code_ok : IsaFacts.state_ok local_code.
Proof. split; [by vm_compute|by vm_compute|by vm_compute|right; by vm_compute|by vm_compute|by vm_compute]. Qed.
Lemma global_code_mds : mds global_code.
Proof. apply mds_check_ok. by vm_compute. Qed.

Definition layer_check (n : Z) (cs : list Z) : bool :=
  bool_decide (NoDup cs) && forallb (λ c, bool_decide (0 ≤ c < n)) cs.

Lemma layer_of_ok n code cs :
  IsaFacts.state_ok code → mds code → layer_check n cs = true →
  Z.of_nat (length cs) = Isa.k code + Isa.m code →
  layer_codeword (layer_of code cs) = IsaFacts.codeword code →
  layer_ok any_size layer_codeword n (layer_of code cs).
Proof.
  intros Hok Hmds [Hnd%bool_decide_eq_true Hr]%andb_true_iff Hlen Hcw. split; cbn; try done.
  - intros c Hc%list_elem_of_In. rewrite forallb_forall in Hr. by apply Hr, bool_decide_eq_true in Hc.
  - rewrite Hcw. apply isa_mds_spec; [done|apply cache_sound_empty|done].
Qed.

Lemma global_layer_ok n cs :
  layer_check n cs = true → length cs = 6%nat → layer_ok any_size layer_codeword n (layer_of global_code cs).
Proof.
  intros Hc Hl. apply layer_of_ok; [apply global_code_ok|apply global_code_mds|exact Hc| |].
  - rewrite Hl. by vm_compute.
  - unfold layer_codeword. cbn [chunks layer_of]. rewrite (bool_decide_true _ Hl). reflexivity.
Qed.

Lemma local_layer_ok n cs :
  layer_check n cs = true → length cs = 4%nat → layer_ok any_size layer_codeword n (layer_of local_code cs).
Proof.
  intros Hc Hl. apply layer_of_ok; [apply local_code_ok|left; by vm_compute|exact Hc| |].
  - rewrite Hl. by vm_compute.
  - unfold layer_codeword. cbn [chunks layer_of]. rewrite Hl. reflexivity.
Qed.

Lemma lrc_4_2_3_layers : Forall (layer_ok any_size layer_codeword 8) (layers lrc_4_2_3).
Proof.
  unfold lrc_4_2_3. cbn [layers]. repeat (apply Forall_cons; split); [| | |apply Forall_nil; exact I].
  - apply global_layer_ok; by vm_compute.
  - apply local_layer_ok; by vm_compute.
  - apply local_layer_ok; by vm_compute.
Qed.

(** The layers of a state as far as its invariant is concerned, in a form
    that can be evaluated. *)
Fixpoint ordered_check (ls : list Layer) : bool :=
  match ls with
  | [] => true
  | l :: ls => forallb (λ l', forallb (λ c, bool_decide (c ∉ chunks l)) (coding l')) ls && ordered_check ls
  end.

Lemma ordered_check_ok ls : ordered_check ls = true → layers_ordered ls.
Proof.
  induction ls as [|l ls IH]; [done|]. cbn. intros [Hl Hls]%andb_true_iff. split; [|auto].
  apply Forall_forall. intros l' Hl' c Hc. rewrite forallb_forall in Hl.
  apply list_elem_of_In, Hl in Hl'. rewrite forallb_forall in Hl'.
  by apply list_elem_of_In, Hl', bool_decide_eq_true in Hc.
Qed.

Definition state_check (s : t) : bool :=
  ordered_check (layers s)
  && forallb (λ l, forallb (λ i, bool_decide (chunk_index (base_mapping s) i ∉ coding l))
       (seqZ 0 (data_chunk_count s))) (layers s)
  && forallb (λ l, negb (bool_decide (list_to_set (seqZ 0 (chunk_count s)) ⊆ chunks_as_set l)))
       (tail (layers s)).

Lemma state_check_ok sizes cw s :
  0 < data_chunk_count s ≤ chunk_count s → chunk_count s < 2 ^ 32 →
  mapping_ok (base_mapping s) (chunk_count s) → Forall (layer_ok sizes cw (chunk_count s)) (layers s) →
  state_check s = true → state_ok sizes cw s.
Proof.
  intros H1 H2 H3 H4 [[Ho Hd]%andb_true_iff Ht]%andb_true_iff. split; try done.
  - by apply ordered_check_ok.
  - apply Forall_forall. intros l Hl i Hi. rewrite forallb_forall in Hd.
    apply list_elem_of_In, Hd in Hl. pose proof (forallb_range _ _ i Hl Hi) as Hb.
    by apply bool_decide_eq_true in Hb.
  - apply Forall_forall. intros l Hl Hsub. rewrite forallb_forall in Ht.
    apply list_elem_of_In, Ht in Hl. by rewrite bool_decide_true in Hl.
Qed.

Lemma lrc_4_2_3_ok : state_ok any_size layer_codeword lrc_4_2_3.
Proof.
  apply state_check_ok; [by vm_compute|by vm_compute| |exact lrc_4_2_3_layers|by vm_compute].
  right. apply NoDup_Permutation; [apply (bool_decide_eq_true_1 _); by vm_compute|apply NoDup_seqZ|].
  intros i. rewrite elem_of_seqZ. unfold lrc_4_2_3. cbn [base_mapping chunk_count].
  rewrite !elem_of_cons, elem_of_nil. lia.
Qed.

Lemma lrc_4_2_3_size : chunk_size_ok any_size lrc_4_2_3 MAX_OBJECT.
Proof.
  intros len Hlen. destruct (IsaFacts.get_chunk_size_ok global_code global_code_ok len Hlen)
    as (bs & Hbs & Hpos & _ & Hle).
  exists bs. split; [exact Hbs|]. split; [exact Hpos|].
  assert (Isa.k global_code = 4) as Hk by (by vm_compute). rewrite Hk in Hle.
  split; [exact Hle|exact I].
Qed.

(** The stripe of one-byte chunks made of four data bytes. *)
Definition prepared_4 (data : list Z) : gmap Z bytes :=
  list_to_map (zip [0; 1; 4; 5; 2; 3; 6; 7] (((λ b, [b]) <$> data) ++ replicate 4 [170])).

Definition lrc_stripe (data : list Z) : gmap Z bytes :=
  match encode_chunks lrc_4_2_3 (list_to_set (seqZ 0 8)) (prepared_4 data) with
  | Ret (_, w) => w
  | Abort _ => ∅
  end.

(** ** Where the code goes wrong *)

Definition decode_after_loss (lost want : gset Z) (data : list Z) : outcome (Z * gmap Z bytes) :=
  decode (codec lrc_4_2_3) want (select (list_to_set (seqZ 0 8) ∖ lost) (lrc_stripe data)) ∅.

(** When every layer has more erasures than it can repair, no layer is
    tried, [want_to_read_erasures] stays empty and [decode] reports success: of
    a stripe that lost chunks 0, 1, 4 and 5, chunk 0 comes back as what the
    memory happened to hold. *)
Theorem lrc_decode_unrecovered :
  ∃ dec, decode_after_loss {[0; 1; 4; 5]} {[0]} [17; 34; 51; 68] = Ret (0, dec)
    ∧ dec !! 0 = Some [170] ∧ lrc_stripe [17; 34; 51; 68] !! 0 = Some [17].
Proof. eexists. split; [by vm_compute|]. split; by vm_compute. Qed.

(** [encode_chunks] skips the layers above the last one that has all the
    wanted chunks, although their coding chunks are data of that layer: when
    only chunks 0 to 3 are wanted the global parity in chunk 2 is not computed,
    and the local parity in chunk 3 is not that of the stripe. *)
Theorem lrc_partial_encode :
  ∃ w, encode_chunks lrc_4_2_3 {[0; 1; 2; 3]} (prepared_4 [17; 34; 51; 68]) = Ret (0, w)
    ∧ w !! 2 = Some [170] ∧ w !! 2 ≠ lrc_stripe [17; 34; 51; 68] !! 2
    ∧ w !! 3 ≠ lrc_stripe [17; 34; 51; 68] !! 3.
Proof. eexists. split; [by vm_compute|]. vm_compute. split_and!; congruence. Qed.

(** [minimum_to_decode] gives up on a chunk that the code can recover: of
    the lost chunks 0, 1, 3 and 4, wanting only chunk 0, it answers [-EIO],
    because no layer repairs chunk 3; [decode] with all that is left restores
    chunk 0 through the second local layer and then the global one. *)
Theorem lrc_minimum_gives_up :
  (minimum_to_decode lrc_4_2_3 {[0]} {[2; 5; 6; 7]} ∅).1 = - EIO
  ∧ ∃ dec, decode_after_loss {[0; 1; 3; 4]} {[0]} [17; 34; 51; 68] = Ret (0, dec)
    ∧ dec !! 0 = Some [17].
Proof. split; [by vm_compute|]. eexists. split; by vm_compute. Qed.

(** ** Witnesses *)


Definition example_stripe : gmap Z bytes := lrc_stripe [17; 34; 51; 68].

Lemma example_codeword : codeword layer_codeword 8 (layers lrc_4_2_3) 1 example_stripe.
Proof.
  split; [apply stripe_check_ok; by vm_compute|].
  unfold lrc_4_2_3. cbn [layers]. repeat (apply Forall_cons; split); [..|apply Forall_nil; exact I];
    unfold layer_codeword; cbn [chunks layer_of].
  - rewrite bool_decide_true by reflexivity. apply codeword_check_ok. by vm_compute.
  - rewrite bool_decide_false by discriminate. apply codeword_check_ok. by vm_compute.
  - rewrite bool_decide_false by discriminate. apply codeword_check_ok. by vm_compute.
Qed.

