(* ===== verification/PluginRegistry.v ===== *)
(** * The registry of erasure code plugins

    src/src/erasure-code/ErasureCodePlugin.{h,cc}. The registry maps the name
    of a plugin to the plugin object that the entry point of a shared library
    has registered. The dynamic loader is an interface: which file holds which
    library, and what the two symbols of a library are. Its reference counts
    are a multiset of open handles beside the members of the registry. *)

From stdpp Require Import gmultiset.
From S2P Require Import Prelude Strtol StrMap ErasureCode.

Section registry.
(** The plugin objects. *)
Context {K : Type}.

Record plugin := mkPlugin { object : K; library : Z }.

Record registry := mkRegistry {
  locked : bool;
  loading : bool;
  disable_dlclose : bool;
  plugins : gmap string plugin;
  opened : gmultiset Z;
}.

(** An erasure code object, as the registry sees it. *)
Record instance := mkInstance { codec_of : Codec; get_profile : Profile }.

(** ** The dynamic loader and the plugin objects *)

(** The handle of the library in a file, and its symbols
    [__erasure_code_version] and [__erasure_code_init]. *)
Class Loader := {
  find_library : string → option Z;
  library_version : Z → option string;
  library_init : Z → option (string → string → registry → outcome (Z * registry));
  CEPH_GIT_NICE_VER : string;
}.

(** [ErasureCodePlugin::factory]. It runs without the lock and may use the
    registry: the LRC plugin does. *)
Class Plugins := {
  plugin_factory : K → string → Profile → registry →
    outcome (Z * option instance * Profile * registry);
}.

Definition with_opened (r : registry) (o : gmultiset Z) : registry :=
  mkRegistry (locked r) (loading r) (disable_dlclose r) (plugins r) o.
Definition with_plugins (r : registry) (p : gmap string plugin) : registry :=
  mkRegistry (locked r) (loading r) (disable_dlclose r) p (opened r).
Definition with_lock (r : registry) (b : bool) : registry :=
  mkRegistry b (loading r) (disable_dlclose r) (plugins r) (opened r).
Definition with_loading (r : registry) (b : bool) : registry :=
  mkRegistry (locked r) b (disable_dlclose r) (plugins r) (opened r).

Definition dlopen (h : Z) (r : registry) : registry := with_opened r (opened r ⊎ {[+ h +]}).
(** Closing a handle that is not open is undefined. *)
Definition dlclose (h : Z) (r : registry) : outcome registry :=
  if bool_decide (h ∈ opened r) then Ret (with_opened r (opened r ∖ {[+ h +]}))
  else Abort NullPointer.

(** ** Operations *)

Definition remove (r : registry) (name : string) : outcome (Z * registry) :=
  _ ← assert_that (locked r);
  match plugins r !! name with
  | None => Ret (- ENOENT, r)
  | Some p =>
      r ← dlclose (library p) r;
      Ret (0, with_plugins r (delete name (plugins r)))
  end.

Definition add (r : registry) (name : string) (p : K) : outcome (Z * registry) :=
  _ ← assert_that (locked r);
  match plugins r !! name with
  | Some _ => Ret (- EEXIST, r)
  | None => Ret (0, with_plugins r (<[name := mkPlugin p 0]> (plugins r)))
  end.

Definition get (r : registry) (name : string) : outcome (option plugin) :=
  _ ← assert_that (locked r);
  Ret (plugins r !! name).

Definition an_older_version : string := "an older version".

Definition file_name (plugin_name directory : string) : string :=
  directory +:+ "/libec_" +:+ plugin_name +:+ ".so".

Definition load `{Loader} (r : registry) (plugin_name directory : string)
    : outcome (Z * option plugin * registry) :=
  _ ← assert_that (locked r);
  match find_library (file_name plugin_name directory) with
  | None => Ret (- EIO, None, r)
  | Some lib =>
      let r := dlopen lib r in
      let version := default an_older_version (library_version lib) in
      if bool_decide (version ≠ CEPH_GIT_NICE_VER) then
        r ← dlclose lib r; Ret (- EXDEV, None, r)
      else
      match library_init lib with
      | Some erasure_code_init =>
          '(err, r) ← erasure_code_init plugin_name directory r;
          if bool_decide (err ≠ 0) then r ← dlclose lib r; Ret (err, None, r) else
          p ← get r plugin_name;
          match p with
          | None => r ← dlclose lib r; Ret (- EBADF, None, r)
          | Some p =>
              let p := mkPlugin (object p) lib in
              Ret (0, Some p, with_plugins r (<[plugin_name := p]> (plugins r)))
          end
      | None => r ← dlclose lib r; Ret (- ENOENT, None, r)
      end
  end.

(** [Mutex::Locker]: the mutex is not recursive. *)
Definition lock (r : registry) : outcome registry :=
  _ ← assert_that (negb (locked r)); Ret (with_lock r true).
Definition unlock (r : registry) : registry := with_lock r false.

(** The locked part of [factory]: the plugin, loaded if need be. *)
Definition get_or_load `{Loader} (r : registry) (plugin_name directory : string)
    : outcome (Z * option plugin * registry) :=
  r ← lock r;
  p ← get r plugin_name;
  match p with
  | Some p => Ret (0, Some p, unlock r)
  | None =>
      '(err, p, r) ← load (with_loading r true) plugin_name directory;
      Ret (err, p, unlock (with_loading r false))
  end.

Definition factory `{Loader} `{Plugins} (r : registry) (plugin_name directory : string)
    (profile : Profile) : outcome (Z * option instance * Profile * registry) :=
  '(err, p, r) ← get_or_load r plugin_name directory;
  if bool_decide (err ≠ 0) then Ret (err, None, profile, r) else
  p ← need NullPointer p;
  '(err, erasure_code, profile, r) ← plugin_factory (object p) directory profile r;
  if bool_decide (err ≠ 0) then Ret (err, erasure_code, profile, r) else
  ec ← need NullPointer erasure_code;
  if bool_decide (profile ≠ get_profile ec) then Ret (- EINVAL, erasure_code, profile, r)
  else Ret (0, erasure_code, profile, r).

Fixpoint load_all `{Loader} (r : registry) (names : list string) (directory : string)
    : outcome (Z * registry) :=
  match names with
  | [] => Ret (0, r)
  | i :: names =>
      '(err, _, r) ← load r i directory;
      if bool_decide (err ≠ 0) then Ret (err, r) else load_all r names directory
  end.

(** The delimiters of [get_str_list]: semicolon, comma, equals, space and
    tab. *)
Definition plugin_delims : chars :=
  [";"%char; ","%char; "="%char; " "%char; Ascii.ascii_of_nat 9].

Definition preload `{Loader} (r : registry) (names directory : string) : outcome (Z * registry) :=
  r ← lock r;
  '(err, r) ← load_all r (str <$> get_str_list (explode names) plugin_delims) directory;
  Ret (err, unlock r).

(** The destructor. *)
Definition destroy (r : registry) : outcome registry :=
  if disable_dlclose r then Ret r else
  foldM (λ r p, dlclose (library p.2) r) r (map_to_list (plugins r)).

(** The entry points of the plugins of the tree: the ISA, LRC and Optimal-LRC
    ones register an object, the jerasure and SHEC ones initialise the Galois
    fields before. [galois_init_default_field] is the one of gf-complete. *)
Definition plain_entry (p : K) (plugin_name directory : string) (r : registry)
    : outcome (Z * registry) := add r plugin_name p.

Fixpoint jerasure_init (galois_init_default_field : Z → Z) (words : list Z) : Z :=
  match words with
  | [] => 0
  | w :: words =>
      let r := galois_init_default_field w in
      if bool_decide (r ≠ 0) then - r else jerasure_init galois_init_default_field words
  end.

Definition galois_entry (galois_init_default_field : Z → Z) (words : list Z) (p : K)
    (plugin_name directory : string) (r : registry) : outcome (Z * registry) :=
  let err := jerasure_init galois_init_default_field words in
  if bool_decide (err ≠ 0) then Ret (- err, r) else add r plugin_name p.

End registry.

Arguments plugin : clear implicits.
Arguments registry : clear implicits.
Arguments Loader : clear implicits.
Arguments Plugins : clear implicits.

(** ** The invariant: a library is open once for each plugin it registered *)

Section invariant.
Context {K : Type} `{HL : !Loader K} `{HP : !Plugins K}.
Implicit Types (r : registry K) (ps : gmap string (plugin K)).

Definition handles ps : gmultiset Z :=
  list_to_set_disj ((λ p, library p.2) <$> map_to_list ps).

(** An entry point fails or registers one object under the name it got, as
    [add] does. *)
Definition registering (erasure_code_init : string → string → registry K → outcome (Z * registry K)) : Prop :=
  ∀ name directory r, locked r = true →
    ∃ err r', erasure_code_init name directory r = Ret (err, r')
      ∧ (err ≠ 0 ∧ r' = r
         ∨ err = 0 ∧ plugins r !! name = None
           ∧ ∃ p, r' = with_plugins r (<[name := mkPlugin p 0]> (plugins r))).

(** An entry point that registers nothing, whatever it returns: 0 in
    src/src/test/erasure-code/ErasureCodePluginFailToRegister.cc. *)
Definition inert (erasure_code_init : string → string → registry K → outcome (Z * registry K)) : Prop :=
  ∀ name directory r, locked r = true → ∃ err, erasure_code_init name directory r = Ret (err, r).

Record reg_ok r : Prop := {
  ro_opened : opened r = handles (plugins r);
  ro_library name p : plugins r !! name = Some p →
    library p ≠ 0 ∧ ∃ entry, library_init (library p) = Some entry ∧ registering entry;
}.

(** What the dynamic loader and the entry points promise: handles are not
    null, and an entry point is of one of the two kinds. *)
Class LoaderSpec : Prop := {
  find_library_nonzero f h : find_library f = Some h → h ≠ 0;
  entry_spec lib erasure_code_init :
    library_init lib = Some erasure_code_init → registering erasure_code_init ∨ inert erasure_code_init;
}.

(** A plugin that is registered came from the library that the directory has
    for its name. *)
Definition same_library r (plugin_name directory : string) : Prop :=
  ∀ p lib, plugins r !! plugin_name = Some p → find_library (file_name plugin_name directory) = Some lib → library p = lib.

(** A plugin object leaves the registry in order, and hands out an erasure
    code when it reports success. *)
Class PluginsSpec : Prop := {
  plugin_factory_spec p directory profile r err ec profile' r' :
    reg_ok r → locked r = false → loading r = false →
    plugin_factory p directory profile r = Ret (err, ec, profile', r') →
    reg_ok r' ∧ locked r' = false ∧ loading r' = false ∧ (err = 0 → is_Some ec);
}.

Lemma handles_insert ps name p :
  ps !! name = None → handles (<[name := p]> ps) = handles ps ⊎ {[+ library p +]}.
Proof.
  intros Hn. unfold handles. rewrite map_to_list_insert by done. cbn.
  by rewrite (comm_L (⊎)).
Qed.

Lemma handles_delete ps name p :
  ps !! name = Some p → handles ps = handles (delete name ps) ⊎ {[+ library p +]}.
Proof.
  intros Hp. rewrite <-(handles_insert _ name) by apply lookup_delete_eq.
  by rewrite insert_delete_id.
Qed.

Lemma dlclose_dlopen h r : dlclose h (dlopen h r) = Ret r.
Proof.
  unfold dlclose, dlopen. cbn. rewrite bool_decide_true by multiset_solver.
  unfold with_opened. cbn. f_equal. destruct r; cbn. f_equal. multiset_solver.
Qed.

Lemma reg_ok_same r r' : plugins r' = plugins r → opened r' = opened r → reg_ok r → reg_ok r'.
Proof. intros Hp Ho [H1 H2]. split; rewrite Hp; [by rewrite Ho|done]. Qed.

Lemma reg_ok_insert r r' name p entry :
  plugins r !! name = None → library p ≠ 0 → library_init (library p) = Some entry → registering entry →
  plugins r' = <[name := p]> (plugins r) → opened r' = opened r ⊎ {[+ library p +]} →
  reg_ok r → reg_ok r'.
Proof.
  intros Hn Hp Hi He Hps Ho [H1 H2]. split.
  - by rewrite Hps, Ho, H1, handles_insert.
  - intros name' q. rewrite Hps. intros [[<- <-]|[_ ?]]%lookup_insert_Some; eauto.
Qed.

(** The entry point of a library that is loaded again registers. *)
Definition loads r (plugin_name directory : string) : Prop :=
  ∀ p lib entry, plugins r !! plugin_name = Some p → find_library (file_name plugin_name directory) = Some lib →
    library_init lib = Some entry → registering entry.

Lemma same_library_loads r plugin_name directory : reg_ok r → same_library r plugin_name directory → loads r plugin_name directory.
Proof.
  intros Hok Hs p lib entry Hp Hf Hi. destruct (ro_library _ Hok _ _ Hp) as (_ & entry' & Hi' & He).
  rewrite (Hs p lib Hp Hf), Hi in Hi'. by injection Hi' as ->.
Qed.

(** What an entry point does in [load], once its kind is known. *)
Lemma entry_cases `{!LoaderSpec} r plugin_name directory lib entry :
  locked r = true → loads r plugin_name directory →
  find_library (file_name plugin_name directory) = Some lib → library_init lib = Some entry →
  ∃ err r', entry plugin_name directory (dlopen lib r) = Ret (err, r')
    ∧ (r' = dlopen lib r ∧ (err ≠ 0 ∨ err = 0 ∧ plugins r !! plugin_name = None)
       ∨ err = 0 ∧ plugins r !! plugin_name = None ∧ registering entry
         ∧ ∃ p, r' = with_plugins (dlopen lib r) (<[plugin_name := mkPlugin p 0]> (plugins r))).
Proof.
  intros Hl Hloads Hf Hi. assert (registering entry ∨ inert entry ∧ plugins r !! plugin_name = None) as [He|[He Hn]].
  { destruct (entry_spec lib entry Hi) as [|Hin]; [by left|]. destruct (plugins r !! plugin_name) as [p|] eqn:Hp; [left; by eapply Hloads|by right]. }
  - destruct (He plugin_name directory (dlopen lib r) Hl) as (err & r' & -> & [[? ->]|(-> & ? & p & ->)]); eexists _, _; (split; [done|]); [by left; eauto|right; eauto 6].
  - destruct (He plugin_name directory (dlopen lib r) Hl) as (err & ->). eexists _, _. split; [done|]. left. split; [done|].
    destruct (decide (err = 0)); auto.
Qed.

Lemma load_spec `{!LoaderSpec} r plugin_name directory :
  locked r = true → loads r plugin_name directory →
  ∃ err p r', load r plugin_name directory = Ret (err, p, r')
    ∧ (err ≠ 0 ∧ p = None ∧ r' = r
       ∨ err = 0 ∧ plugins r !! plugin_name = None
         ∧ ∃ q entry, p = Some q ∧ find_library (file_name plugin_name directory) = Some (library q)
           ∧ library_init (library q) = Some entry ∧ registering entry
           ∧ r' = with_plugins (dlopen (library q) r) (<[plugin_name := q]> (plugins r))).
Proof.
  intros Hl Hloads. unfold load. rewrite Hl. cbn [assert_that mbind outcome_bind].
  destruct (find_library _) as [lib|] eqn:Hf; [|by eexists _, _, _; split; [done|]; left].
  case_bool_decide.
  { rewrite dlclose_dlopen. eexists _, _, _. split; [done|]. by left. }
  destruct (library_init lib) as [entry|] eqn:Hi.
  2: { rewrite dlclose_dlopen. eexists _, _, _. split; [done|]. by left. }
  destruct (entry_cases r plugin_name directory lib entry Hl Hloads Hf Hi)
    as (err & r' & -> & [[-> [Herr|[-> Hn]]]|(-> & Hn & He & q & ->)]); cbn [mbind outcome_bind].
  - rewrite bool_decide_true by done. rewrite dlclose_dlopen. eexists _, _, _. split; [done|]. by left.
  - rewrite bool_decide_false by tauto. unfold get. cbn [dlopen with_opened locked plugins]. rewrite Hl. cbn [assert_that mbind outcome_bind].
    rewrite Hn. fold (with_opened r (opened r ⊎ {[+ lib +]})). fold (dlopen lib r). rewrite dlclose_dlopen. eexists _, _, _. split; [done|]. by left.
  - rewrite bool_decide_false by tauto. unfold get. cbn -[lookup insert]. rewrite Hl. cbn -[lookup insert].
    rewrite lookup_insert_eq. eexists _, _, _. split; [done|]. right. split; [done|].
    split; [done|]. eexists _, entry. split; [done|]. split; [done|]. split; [done|]. split; [done|].
    unfold with_plugins. cbn. by rewrite insert_insert_eq.
Qed.

Lemma load_ok `{!LoaderSpec} r plugin_name directory err p r' :
  reg_ok r → locked r = true → loads r plugin_name directory → load r plugin_name directory = Ret (err, p, r') →
  reg_ok r' ∧ locked r' = true ∧ loading r' = loading r ∧ (err = 0 → is_Some p).
Proof.
  intros Hok Hl Hloads Hload.
  destruct (load_spec r plugin_name directory Hl Hloads) as (err' & p' & r'' & Heq & Hcase).
  rewrite Hload in Heq. injection Heq as <- <- <-.
  destruct Hcase as [(? & -> & ->)|(-> & Hn & q & entry & -> & Hf & Hi & He & ->)]; [tauto|].
  split; [|eauto]. by apply (reg_ok_insert r _ plugin_name q entry); [|apply (find_library_nonzero _ _ Hf)|..].
Qed.

Lemma get_or_load_ok `{!LoaderSpec} r plugin_name directory :
  reg_ok r → locked r = false → loading r = false →
  ∃ err p r', get_or_load r plugin_name directory = Ret (err, p, r')
    ∧ reg_ok r' ∧ locked r' = false ∧ loading r' = false ∧ (err = 0 → is_Some p).
Proof.
  intros Hok Hl Hg. unfold get_or_load, lock, get. rewrite Hl.
  cbn [assert_that negb mbind outcome_bind locked plugins with_lock].
  destruct (plugins r !! plugin_name) as [p|] eqn:Hp.
  { eexists _, _, _. split; [done|]. split; [by apply (reg_ok_same r)|eauto]. }
  assert (loads (with_loading (with_lock r true) true) plugin_name directory) as Hloads by (intros q lib entry Hq; cbn in Hq; congruence).
  destruct (load_spec (with_loading (with_lock r true) true) plugin_name directory)
    as (err & p & r' & Hload & _); [done..|].
  rewrite Hload. apply load_ok in Hload as (Hok' & ? & ? & ?); [|by apply (reg_ok_same r)|done|done].
  eexists _, _, _. split; [done|]. split; [by apply (reg_ok_same r')|done].
Qed.

Lemma factory_ok `{!LoaderSpec, !PluginsSpec} r plugin_name directory profile res r' :
  reg_ok r → locked r = false → loading r = false →
  factory r plugin_name directory profile = Ret (res, r') →
  reg_ok r' ∧ locked r' = false ∧ loading r' = false.
Proof.
  intros Hok Hl Hg. unfold factory.
  destruct (get_or_load_ok r plugin_name directory Hok Hl Hg)
    as (err & p & r1 & -> & Hok1 & Hl1 & Hg1 & Hp). cbn [mbind outcome_bind].
  case_bool_decide as Herr; [by intros [= _ <-]|].
  destruct p as [p|]; cbn; [|done].
  destruct (plugin_factory _ _ _ _) as [[[[err2 ec] profile2] r2]|] eqn:Hf; cbn; [|done].
  apply plugin_factory_spec in Hf as (? & ? & ? & ?); [|done..].
  case_bool_decide; [by intros [= _ <-]|]. destruct ec; cbn; [|done].
  case_bool_decide; by intros [= _ <-].
Qed.

Lemma load_all_ok `{!LoaderSpec} r names directory :
  reg_ok r → locked r = true → Forall (λ n, same_library r n directory) names →
  ∃ err r', load_all r names directory = Ret (err, r')
    ∧ reg_ok r' ∧ locked r' = true ∧ loading r' = loading r.
Proof.
  revert r. induction names as [|n names IH]; intros r Hok Hl Hs; cbn [load_all]; [eauto 6|].
  apply Forall_cons in Hs as [Hn Hs]. pose proof (same_library_loads _ _ _ Hok Hn) as Hloads.
  destruct (load_spec r n directory Hl Hloads) as (err & p & r' & Hload & Hcase). rewrite Hload.
  apply load_ok in Hload as (? & ? & Hg & _); [|done..]. cbn [mbind outcome_bind].
  case_bool_decide as He; [by eexists _, _|]. rewrite <-Hg. apply IH; [done|done|].
  destruct Hcase as [[? _]|(_ & _ & q & entry & _ & Hf & _ & _ & ->)]; [tauto|].
  eapply Forall_impl; [exact Hs|]. intros name Hname p' lib Hp' Hf'. cbn in Hp'.
  apply lookup_insert_Some in Hp' as [[<- <-]|[_ Hp']]; [congruence|by apply Hname].
Qed.

Lemma remove_ok r name :
  reg_ok r → locked r = true →
  ∃ err r', remove r name = Ret (err, r') ∧ reg_ok r' ∧ locked r' = true ∧ loading r' = loading r
    ∧ plugins r' = delete name (plugins r).
Proof.
  intros [Ho Hlib] Hl. unfold remove. rewrite Hl. cbn -[lookup].
  destruct (plugins r !! name) as [p|] eqn:Hp.
  - unfold dlclose. rewrite Ho, (handles_delete _ _ _ Hp).
    rewrite bool_decide_true by multiset_solver. cbn. eexists _, _. split; [done|].
    split; [|done]. split; cbn; [multiset_solver|].
    intros name' q [_ Hq]%lookup_delete_Some. eauto.
  - eexists _, _. split; [done|]. rewrite delete_id by done. split; [by split|done].
Qed.

End invariant.

Arguments LoaderSpec K {HL}.
Arguments PluginsSpec K {HL HP}.

(** ** Theorems *)

Definition empty_registry {K} : registry K := mkRegistry false false false ∅ ∅.

(** What the threads of a process do with the registry, one at a time since
    each operation takes the lock. A plugin that is registered is named in
    [preload] with the directory that it came from: [load] would give it the
    library of another directory, if that registers nothing, and the first one
    would stay open. *)
Inductive reg_step {K} `{!Loader K, !Plugins K} : registry K → registry K → Prop :=
  | step_factory r plugin_name directory profile res r' :
      factory r plugin_name directory profile = Ret (res, r') → reg_step r r'
  | step_preload r names directory err r' :
      Forall (λ n, same_library r n directory) (str <$> get_str_list (explode names) plugin_delims) →
      preload r names directory = Ret (err, r') → reg_step r r'
  | step_remove r name r1 err r2 :
      lock r = Ret r1 → remove r1 name = Ret (err, r2) → reg_step r (unlock r2).

Section theorems.
Context {K : Type} `{HL : !Loader K} `{HP : !Plugins K}.
Context `{HLS : !LoaderSpec K} `{HPS : !PluginsSpec K}.
Implicit Types r : registry K.

Lemma lock_unlocked r r1 : lock r = Ret r1 → locked r = false ∧ r1 = with_lock r true.
Proof. unfold lock. destruct (locked r); cbn; [done|]. by intros [= <-]. Qed.

Lemma reg_step_ok r r' :
  reg_ok r ∧ locked r = false ∧ loading r = false → reg_step r r' →
  reg_ok r' ∧ locked r' = false ∧ loading r' = false.
Proof.
  intros (Hok & Hl & Hg) Hstep. destruct Hstep as [r ??? res r' H|r ?? err r' Hs H|r name r1 err r2 H1 H2].
  - by eapply factory_ok.
  - revert H. unfold preload, lock. rewrite Hl. cbn [assert_that negb mbind outcome_bind].
    set (names0 := str <$> _).
    destruct (load_all_ok (with_lock r true) names0 directory) as (e & r2 & -> & Hok2 & _ & Hg2);
      [by apply (reg_ok_same r)|done|exact Hs|]. cbn. intros [= _ <-].
    split; [by apply (reg_ok_same r2)|]. split; [done|]. cbn in *. congruence.
  - apply lock_unlocked in H1 as [_ ->].
    destruct (remove_ok (with_lock r true) name) as (e & r3 & Hr & Hok2 & _ & Hg2 & _);
      [by apply (reg_ok_same r)|done|]. rewrite Hr in H2. injection H2 as _ <-.
    split; [by apply (reg_ok_same r3)|]. split; [done|]. cbn in *. congruence.
Qed.

Lemma close_all r (l : list (string * plugin K)) :
  opened r = list_to_set_disj ((λ p, library p.2) <$> l) →
  foldM (λ r p, dlclose (library p.2) r) r l = Ret (with_opened r ∅).
Proof.
  revert r. induction l as [|p l IH]; intros r Ho; cbn [foldM].
  - unfold with_opened. cbn in Ho. rewrite <-Ho. by destruct r.
  - rewrite fmap_cons, list_to_set_disj_cons in Ho.
    assert (dlclose (library p.2) r = Ret (with_opened r (opened r ∖ {[+ library p.2 +]}))) as ->.
    { unfold dlclose. rewrite bool_decide_true; [done|]. rewrite Ho. multiset_solver. }
    cbn [mbind outcome_bind]. rewrite IH; [done|]. cbn [opened with_opened]. rewrite Ho. multiset_solver.
Qed.

(** C30. In every state that the threads of a process can bring the registry
    into, the lock is free, a library is open exactly once for each plugin it
    registered, and the destructor closes every library exactly once; all
    libraries whose loading failed are closed, be it for their version, a
    missing entry point, one that fails, or one that returns 0 and registers
    nothing. [preload] names a registered plugin only with the directory it
    came from. *)
Theorem registry_reachable r :
  rtc reg_step empty_registry r →
  locked r = false ∧ loading r = false ∧ opened r = handles (plugins r)
  ∧ ∃ r', destroy r = Ret r' ∧ (disable_dlclose r = false → opened r' = ∅).
Proof.
  intros Hr. assert (reg_ok r ∧ locked r = false ∧ loading r = false) as (Hok & Hl & Hg).
  { apply rtc_ind_l with (P := λ r0, reg_ok r0 ∧ locked r0 = false ∧ loading r0 = false →
      reg_ok r ∧ locked r = false ∧ loading r = false) (x := empty_registry) in Hr.
    - apply Hr. split; [|done]. split; cbn; [done|]. intros ??. by rewrite lookup_empty.
    - done.
    - intros x y Hs _ IH Hx. apply IH. by eapply reg_step_ok. }
  split_and!; [done|done|apply Hok|]. unfold destroy. destruct (disable_dlclose r); [by eexists|].
  rewrite close_all by apply Hok. by eexists.
Qed.

(** Loading a plugin, on every branch: without the library, with another
    version, without an entry point, with an entry point that fails or with one
    that registers nothing, the registry is as before and the library is closed
    again; otherwise the object that the entry point made is registered under
    the name and holds the library open. A plugin that is registered already is
    never loaded again: [load] fails and [get_or_load], which [factory] uses,
    does not try. *)
Theorem registry_load r plugin_name directory :
  locked r = true → reg_ok r → same_library r plugin_name directory →
  ∃ err p r', load r plugin_name directory = Ret (err, p, r')
    ∧ (err = 0 ∧ plugins r !! plugin_name = None
         ∧ (∃ q, p = Some q ∧ plugins r' = <[plugin_name := q]> (plugins r)
              ∧ opened r' = opened r ⊎ {[+ library q +]}
              ∧ find_library (file_name plugin_name directory) = Some (library q))
       ∨ err ≠ 0 ∧ p = None ∧ r' = r)
    ∧ (find_library (file_name plugin_name directory) = None → err = - EIO)
    ∧ (∀ lib, find_library (file_name plugin_name directory) = Some lib →
        (default an_older_version (library_version lib) ≠ CEPH_GIT_NICE_VER → err = - EXDEV)
        ∧ (default an_older_version (library_version lib) = CEPH_GIT_NICE_VER →
            (library_init lib = None → err = - ENOENT)
            ∧ (∀ entry, library_init lib = Some entry → entry plugin_name directory (dlopen lib r) = Ret (0, dlopen lib r) →
                plugins r !! plugin_name = None → err = - EBADF)))
    ∧ (∀ q, plugins r !! plugin_name = Some q →
        err ≠ 0 ∧ get_or_load (unlock r) plugin_name directory = Ret (0, Some q, unlock r)).
Proof.
  intros Hl Hok Hs. destruct (load_spec r plugin_name directory Hl (same_library_loads _ _ _ Hok Hs)) as (err & p & r' & Hload & Hcase).
  exists err, p, r'. split; [done|]. split_and!.
  - destruct Hcase as [?|(? & ? & q & entry & -> & ? & ? & ? & ->)]; [by right|left]. split; [done|].
    split; [done|]. by exists q.
  - intros Hf. revert Hload. unfold load. rewrite Hl, Hf. cbn. by intros [= <- _ _].
  - intros lib Hf. revert Hload. unfold load. rewrite Hl, Hf. cbn [assert_that mbind outcome_bind].
    intros Hload. split; [intros Hv|intros Hv; split; [intros Hi|intros entry Hi He Hn]]; revert Hload.
    + rewrite bool_decide_true by done. rewrite dlclose_dlopen. cbn. by intros [= <- _ _].
    + rewrite bool_decide_false by tauto. rewrite Hi, dlclose_dlopen. cbn. by intros [= <- _ _].
    + rewrite bool_decide_false by tauto. rewrite Hi, He. cbn [mbind outcome_bind]. rewrite bool_decide_false by tauto.
      unfold get. change (locked (dlopen lib r)) with (locked r). change (plugins (dlopen lib r)) with (plugins r). rewrite Hl. cbn [assert_that mbind outcome_bind].
      rewrite Hn, dlclose_dlopen. cbn. by intros [= <- _ _].
  - intros q Hq. split; [naive_solver|]. unfold get_or_load, lock, get. cbn -[lookup].
    by rewrite Hq.
Qed.

End theorems.

(** ** A concrete loader *)

(** Three libraries in [/lib]: one of this version, one without a version
    symbol, and one whose entry point registers nothing. *)
#[local] Instance three_libraries : Loader Z := {|
  find_library f :=
    if bool_decide (f = "/lib/libec_isa.so") then Some 7
    else if bool_decide (f = "/lib/libec_old.so") then Some 9
    else if bool_decide (f = "/lib/libec_fail_to_register.so") then Some 11 else None;
  library_version h := if bool_decide (h = 9) then None else Some "12.0.2";
  library_init h := Some (if bool_decide (h = 11) then λ _ _ r, Ret (0, r) else plain_entry h);
  CEPH_GIT_NICE_VER := "12.0.2";
|}.

Lemma plain_entry_registering {K} (p : K) : registering (plain_entry p).
Proof.
  intros name directory r Hl. unfold plain_entry, add. rewrite Hl. cbn -[lookup insert].
  destruct (plugins r !! name) eqn:E; eexists _, _; (split; [done|]); [by left|]. right. eauto.
Qed.

#[local] Instance three_libraries_spec : LoaderSpec Z.
Proof.
  split.
  - intros f h. unfold find_library. cbn. repeat case_bool_decide; [intros [= <-]; done..|done].
  - intros lib entry [= <-]. case_bool_decide; [right|left; apply plain_entry_registering]. intros name directory r _. by exists 0.
Qed.

(** Plugin objects that refuse every profile. *)
#[local] Instance refusing : Plugins Z := {|
  plugin_factory _ _ profile r := Ret (- EINVAL, None, profile, r)
|}.
#[local] Instance refusing_spec : PluginsSpec Z.
Proof. split. intros ???????? Hok Hl Hg [= <- <- <- <-]. by split_and!. Qed.

(** The registry after the ISA plugin has been loaded, and then the one that
    registers nothing. *)
Definition with_isa : registry Z :=
  match preload empty_registry "isa" "/lib" with Ret (_, r) => r | Abort _ => empty_registry end.
Definition without_library : registry Z :=
  match factory with_isa "fail_to_register" "/lib" ∅ with Ret (_, r) => r | Abort _ => empty_registry end.

Lemma registry_reachable_witness :
  rtc reg_step empty_registry without_library ∧ opened without_library = {[+ 7 +]}
  ∧ (∃ ec profile r, factory with_isa "fail_to_register" "/lib" ∅ = Ret (- EBADF, ec, profile, r))
  ∧ ∃ r', destroy without_library = Ret r' ∧ opened r' = ∅.
Proof.
  assert (rtc reg_step empty_registry without_library) as Hr.
  { eapply (rtc_l _ _ with_isa); [|eapply rtc_once].
    - apply (step_preload _ "isa" "/lib" 0); [|by vm_compute].
      apply Forall_forall. intros n _ p lib Hp. cbn in Hp. by rewrite lookup_empty in Hp.
    - eapply (step_factory _ "fail_to_register" "/lib" ∅). vm_compute. reflexivity. }
  split; [exact Hr|].
  destruct (registry_reachable without_library Hr) as (_ & _ & Ho & r' & Hd & Hc).
  split; [rewrite Ho; by vm_compute|]. split; [eexists _, _, _; vm_compute; reflexivity|].
  exists r'. split; [exact Hd|]. apply Hc. by vm_compute.
Defined.

Lemma registry_load_witness :
  ∃ err p r', load (with_lock with_isa true) "fail_to_register" "/lib" = Ret (err, p, r')
    ∧ err = - EBADF ∧ r' = with_lock with_isa true.
Proof.
  assert (reg_ok (with_lock with_isa true)) as Hok.
  { split; [by vm_compute|]. intros name p Hp. assert (plugins (with_lock with_isa true) = {["isa" := mkPlugin 7 7]}) as E by by vm_compute.
    rewrite E in Hp. apply lookup_singleton_Some in Hp as [_ <-]. split; [done|]. eexists. split; [reflexivity|]. cbn. apply plain_entry_registering. }
  destruct (registry_load (with_lock with_isa true) "fail_to_register" "/lib" eq_refl Hok)
    as (err & p & r' & Hload & Hcase & _ & Hv & _).
  { intros p lib Hp. by vm_compute in Hp. }
  destruct (Hv 11 ltac:(reflexivity)) as [_ Hv1]. destruct (Hv1 ltac:(reflexivity)) as [_ Hv2].
  specialize (Hv2 _ ltac:(reflexivity) ltac:(reflexivity) ltac:(by vm_compute)).
  exists err, p, r'. split; [exact Hload|]. split; [exact Hv2|].
  destruct Hcase as [[He _]|(_ & _ & Hr)]; [rewrite Hv2 in He; discriminate|exact Hr].
Defined.
