(* ===== verification/Jerasure.v ===== *)
(** * The jerasure plugin

    src/src/erasure-code/jerasure/ErasureCodeJerasure.{h,cc} and
    ErasureCodePluginJerasure.cc: seven techniques over one base class. The
    class of a technique is a value of [technique], its virtual methods are
    functions of it. The libraries jerasure and gf-complete are submodules: what
    the plugin calls from them is the class [JerasureLib]; a pointer to the
    matrix, bit matrix or schedule the library made is its contents. *)

From S2P Require Import Prelude Strtol ErasureCode CrushRules.

(** The schedule of a bit matrix code: a list of operations. *)
Abbreviation schedule_t := (list (list Z)).

(** jerasure.h, reed_sol.h, cauchy.h and liberation.h. An encoder gives the
    coding regions, a decoder its result and the new data and coding
    regions. *)
Class JerasureLib := {
  reed_sol_vandermonde_coding_matrix : Z → Z → Z → list Z;
  reed_sol_r6_coding_matrix : Z → Z → list Z;
  cauchy_original_coding_matrix : Z → Z → Z → list Z;
  cauchy_good_general_coding_matrix : Z → Z → Z → list Z;
  liberation_coding_bitmatrix : Z → Z → list Z;
  blaum_roth_coding_bitmatrix : Z → Z → list Z;
  liber8tion_coding_bitmatrix : Z → list Z;
  jerasure_matrix_to_bitmatrix : Z → Z → Z → list Z → list Z;
  jerasure_smart_bitmatrix_to_schedule : Z → Z → Z → list Z → schedule_t;
  jerasure_matrix_encode : Z → Z → Z → list Z → list bytes → Z → list bytes;
  reed_sol_r6_encode : Z → Z → list bytes → Z → list bytes;
  jerasure_schedule_encode : Z → Z → Z → schedule_t → list bytes → Z → Z → list bytes;
  jerasure_matrix_decode : Z → Z → Z → list Z → Z → list Z → list bytes → list bytes → Z →
    Z * list bytes * list bytes;
  jerasure_schedule_decode_lazy : Z → Z → Z → list Z → list Z → list bytes → list bytes → Z →
    Z → Z → Z * list bytes * list bytes;
}.

Module Jerasure.

Definition LARGEST_VECTOR_WORDSIZE : Z := 16.
Definition sizeof_int : Z := 4.

Inductive technique :=
  | reed_sol_van | reed_sol_r6_op | cauchy_orig | cauchy_good | liberation | blaum_roth | liber8tion.

#[export] Instance technique_eq_dec : EqDecision technique.
Proof. solve_decision. Defined.

Definition technique_name (t : technique) : string :=
  match t with
  | reed_sol_van => "reed_sol_van"
  | reed_sol_r6_op => "reed_sol_r6_op"
  | cauchy_orig => "cauchy_orig"
  | cauchy_good => "cauchy_good"
  | liberation => "liberation"
  | blaum_roth => "blaum_roth"
  | liber8tion => "liber8tion"
  end.

(** [matrix] is the matrix or the bit matrix, whichever the class has. *)
Record t := mk {
  tech : technique;
  k : Z;
  m : Z;
  w : Z;
  packetsize : Z;
  per_chunk_alignment : bool;
  matrix : list Z;
  schedule : schedule_t;
  base_mapping : list Z;       (* [ErasureCode::chunk_mapping] *)
  ruleset_root : string;
  ruleset_failure_domain : string;
  profile_ : Profile;
}.

Definition DEFAULT_K (t : technique) : string :=
  match t with
  | reed_sol_van | reed_sol_r6_op | cauchy_orig | cauchy_good => "7"
  | liberation | blaum_roth | liber8tion => "2"
  end.
Definition DEFAULT_M (t : technique) : string :=
  match t with
  | reed_sol_van | cauchy_orig | cauchy_good => "3"
  | reed_sol_r6_op => "1"
  | liberation | blaum_roth | liber8tion => "2"
  end.
Definition DEFAULT_W (t : technique) : string :=
  match t with
  | reed_sol_van | reed_sol_r6_op | cauchy_orig | cauchy_good | liber8tion => "8"
  | liberation | blaum_roth => "7"
  end.
Definition DEFAULT_PACKETSIZE : string := "2048".

(** The constructors. *)
Definition fresh (tech : technique) : t :=
  mk tech 0 0 0 0 false [] [] [] "default" "host" ∅.

(** ** Sizes *)

Definition van_get_alignment (s : t) : Z :=
  if per_chunk_alignment s then u32 (w s * LARGEST_VECTOR_WORDSIZE)
  else if bool_decide ((w s * sizeof_int) mod LARGEST_VECTOR_WORDSIZE ≠ 0) then
    u32 (k s * w s * LARGEST_VECTOR_WORDSIZE)
  else u32 (k s * w s * sizeof_int).

Definition r6_get_alignment (s : t) : Z :=
  if per_chunk_alignment s then u32 (w s * LARGEST_VECTOR_WORDSIZE)
  else if bool_decide ((w s * sizeof_int) mod LARGEST_VECTOR_WORDSIZE ≠ 0) then
    u32 (k s * w s * LARGEST_VECTOR_WORDSIZE)
  else u32 (k s * w s * sizeof_int).

Definition cauchy_get_alignment (s : t) : Z :=
  if per_chunk_alignment s then
    let alignment := u32 (w s * packetsize s) in
    let modulo := alignment mod LARGEST_VECTOR_WORDSIZE in
    if bool_decide (modulo ≠ 0) then u32 (alignment + (LARGEST_VECTOR_WORDSIZE - modulo))
    else alignment
  else if bool_decide ((w s * packetsize s * sizeof_int) mod LARGEST_VECTOR_WORDSIZE ≠ 0) then
    u32 (k s * w s * packetsize s * LARGEST_VECTOR_WORDSIZE)
  else u32 (k s * w s * packetsize s * sizeof_int).

Definition liberation_get_alignment (s : t) : Z :=
  if bool_decide ((w s * packetsize s * sizeof_int) mod LARGEST_VECTOR_WORDSIZE ≠ 0) then
    u32 (k s * w s * packetsize s * LARGEST_VECTOR_WORDSIZE)
  else u32 (k s * w s * packetsize s * sizeof_int).

(** A virtual method is the one of the class of the technique. *)
Definition get_alignment (s : t) : Z :=
  match tech s with
  | reed_sol_van => van_get_alignment s
  | reed_sol_r6_op => r6_get_alignment s
  | cauchy_orig | cauchy_good => cauchy_get_alignment s
  | liberation | blaum_roth | liber8tion => liberation_get_alignment s
  end.

(** [k] is converted to [unsigned] by the arithmetic. *)
Definition get_chunk_size (s : t) (object_size : Z) : outcome Z :=
  let alignment := get_alignment s in
  let k := u32 (k s) in
  if per_chunk_alignment s then
    if bool_decide (k = 0) then Abort DivByZero else
    let chunk_size := object_size / k in
    let chunk_size := if bool_decide (object_size mod k ≠ 0) then u32 (chunk_size + 1) else chunk_size in
    _ ← assert_that (bool_decide (alignment ≤ chunk_size));
    if bool_decide (alignment = 0) then Abort DivByZero else
    let modulo := chunk_size mod alignment in
    Ret (if bool_decide (modulo ≠ 0) then u32 (chunk_size + (alignment - modulo)) else chunk_size)
  else
    if bool_decide (alignment = 0) then Abort DivByZero else
    let tail := object_size mod alignment in
    let padded_length := u32 (object_size + (if bool_decide (tail ≠ 0) then alignment - tail else 0)) in
    if bool_decide (k = 0) then Abort DivByZero else
    _ ← assert_that (bool_decide (padded_length mod k = 0));
    Ret (padded_length / k).

(** ** Encoding and decoding *)

Section library.
Context `{JerasureLib}.

Definition van_jerasure_encode (s : t) (data : list bytes) (blocksize : Z) : list bytes :=
  jerasure_matrix_encode (k s) (m s) (w s) (matrix s) data blocksize.
Definition r6_jerasure_encode (s : t) (data : list bytes) (blocksize : Z) : list bytes :=
  reed_sol_r6_encode (k s) (w s) data blocksize.
Definition cauchy_jerasure_encode (s : t) (data : list bytes) (blocksize : Z) : list bytes :=
  jerasure_schedule_encode (k s) (m s) (w s) (schedule s) data blocksize (packetsize s).
Definition liberation_jerasure_encode (s : t) (data : list bytes) (blocksize : Z) : list bytes :=
  jerasure_schedule_encode (k s) (m s) (w s) (schedule s) data blocksize (packetsize s).

Definition jerasure_encode (s : t) : list bytes → Z → list bytes :=
  match tech s with
  | reed_sol_van => van_jerasure_encode s
  | reed_sol_r6_op => r6_jerasure_encode s
  | cauchy_orig | cauchy_good => cauchy_jerasure_encode s
  | liberation | blaum_roth | liber8tion => liberation_jerasure_encode s
  end.

Definition van_jerasure_decode (s : t) (erasures : list Z) (data coding : list bytes) (blocksize : Z)
    : Z * list bytes * list bytes :=
  jerasure_matrix_decode (k s) (m s) (w s) (matrix s) 1 erasures data coding blocksize.
Definition r6_jerasure_decode (s : t) (erasures : list Z) (data coding : list bytes) (blocksize : Z)
    : Z * list bytes * list bytes :=
  jerasure_matrix_decode (k s) (m s) (w s) (matrix s) 1 erasures data coding blocksize.
Definition cauchy_jerasure_decode (s : t) (erasures : list Z) (data coding : list bytes)
    (blocksize : Z) : Z * list bytes * list bytes :=
  jerasure_schedule_decode_lazy (k s) (m s) (w s) (matrix s) erasures data coding blocksize
    (packetsize s) 1.
Definition liberation_jerasure_decode (s : t) (erasures : list Z) (data coding : list bytes)
    (blocksize : Z) : Z * list bytes * list bytes :=
  jerasure_schedule_decode_lazy (k s) (m s) (w s) (matrix s) erasures data coding blocksize
    (packetsize s) 1.

Definition jerasure_decode (s : t) : list Z → list bytes → list bytes → Z → Z * list bytes * list bytes :=
  match tech s with
  | reed_sol_van => van_jerasure_decode s
  | reed_sol_r6_op => r6_jerasure_decode s
  | cauchy_orig | cauchy_good => cauchy_jerasure_decode s
  | liberation | blaum_roth | liber8tion => liberation_jerasure_decode s
  end.

(** The buffers of some chunks, of which a routine uses the first [blocksize]
    bytes. *)
Definition regions (w : gmap Z bytes) (ids : list Z) (blocksize : Z) : outcome (list bytes) :=
  if bool_decide (Forall (λ i, blocksize ≤ blen (buf w i)) ids) then
    Ret ((λ i, take (Z.to_nat blocksize) (buf w i)) <$> ids)
  else Abort OutOfBounds.

(** The arrays have [k + m] and [k] elements. *)
Definition encode_chunks (s : t) (want_to_encode : gset Z) (encoded : gmap Z bytes)
    : outcome (Z * gmap Z bytes) :=
  if bool_decide (k s < 0 ∨ m s < 0) then Abort OutOfBounds else
  let encoded := foldl touch encoded (seqZ 0 (k s + m s)) in
  let encoded := touch encoded 0 in
  let blocksize := blen (buf encoded 0) in
  data ← regions encoded (seqZ 0 (k s)) blocksize;
  _ ← regions encoded (seqZ (k s) (m s)) blocksize;
  Ret (0, store encoded (seqZ (k s) (m s)) (jerasure_encode s data blocksize)).

Definition decode_chunks (s : t) (want_to_read : gset Z) (chunks decoded : gmap Z bytes)
    : outcome (Z * gmap Z bytes) :=
  first ← need EmptyContainer (map_first chunks);
  let blocksize := blen first in
  if bool_decide (k s < 0 ∨ m s < 0) then Abort OutOfBounds else
  let erasures := filter (λ i, i ∉ dom chunks) (seqZ 0 (k s + m s)) in
  let decoded := foldl touch decoded (seqZ 0 (k s + m s)) in
  _ ← assert_that (bool_decide (0 < length erasures)%nat);
  data ← regions decoded (seqZ 0 (k s)) blocksize;
  coding ← regions decoded (seqZ (k s) (m s)) blocksize;
  let '(err, data, coding) := jerasure_decode s (erasures ++ [-1]) data coding blocksize in
  Ret (err, store (store decoded (seqZ 0 (k s)) data) (seqZ (k s) (m s)) coding).

(** The plugin as the base class sees it. *)
Definition codec (s : t) : Codec := {|
  get_chunk_count := k s + m s;
  get_data_chunk_count := k s;
  chunk_mapping := base_mapping s;
  ErasureCode.get_chunk_size := get_chunk_size s;
  codec_minimum_to_decode want avail min :=
    Ret (ErasureCode.minimum_to_decode (u32 (k s)) want avail min);
  ErasureCode.encode_chunks := encode_chunks s;
  ErasureCode.decode_chunks := decode_chunks s;
|}.

End library.

(** ** Parameters *)

Definition prime55 : list Z :=
  [2; 3; 5; 7; 11; 13; 17; 19; 23; 29; 31; 37; 41; 43; 47; 53; 59; 61; 67; 71;
   73; 79; 83; 89; 97; 101; 103; 107; 109; 113; 127; 131; 137; 139; 149;
   151; 157; 163; 167; 173; 179;
   181; 191; 193; 197; 199; 211; 223; 227; 229; 233; 239; 241; 251; 257].

Definition is_prime (value : Z) : bool := bool_decide (value ∈ prime55).

(** The parameters and the profile while a [parse] method runs. *)
Record params := mkParams {
  p_k : Z;
  p_m : Z;
  p_w : Z;
  p_packetsize : Z;
  p_per_chunk : bool;
  p_mapping : list Z;
  p_prof : Profile;
}.

(** [ErasureCodeJerasure::parse]. *)
Definition parse_base (tech : technique) (profile : Profile) (mapping : list Z) : Z * params :=
  let '(err, mapping) := ErasureCode.parse profile mapping in
  let pk := to_int "k" profile (DEFAULT_K tech) in
  let pm := to_int "m" (p_profile pk) (DEFAULT_M tech) in
  let pw := to_int "w" (p_profile pm) (DEFAULT_W tech) in
  let err := err_or (err_or (err_or err (p_err pk)) (p_err pm)) (p_err pw) in
  let bad := bool_decide (mapping ≠ [] ∧ Z.of_nat (length mapping) ≠ p_value pk + p_value pm) in
  (if bad then - EINVAL else err,
   mkParams (p_value pk) (p_value pm) (p_value pw) 0 false (if bad then [] else mapping)
     (p_profile pw)).

Definition with_w (p : params) (pw : parsed Z) : params :=
  mkParams (p_k p) (p_m p) (p_value pw) (p_packetsize p) (p_per_chunk p) (p_mapping p)
    (p_profile pw).
Definition with_m (p : params) (v : Z) (profile : Profile) : params :=
  mkParams (p_k p) v (p_w p) (p_packetsize p) (p_per_chunk p) (p_mapping p) profile.
Definition with_packetsize (p : params) (ps : parsed Z) : params :=
  mkParams (p_k p) (p_m p) (p_w p) (p_value ps) (p_per_chunk p) (p_mapping p) (p_profile ps).
Definition with_per_chunk (p : params) (pc : parsed bool) : params :=
  mkParams (p_k p) (p_m p) (p_w p) (p_packetsize p) (p_value pc) (p_mapping p) (p_profile pc).

(** The reversal of a bad word size to 8, in the two Reed-Solomon classes. *)
Definition check_word_size (tech : technique) (err : Z) (p : params) : Z * params :=
  if bool_decide (p_w p ≠ 8 ∧ p_w p ≠ 16 ∧ p_w p ≠ 32) then
    (- EINVAL, with_w p (to_int "w" (<["w" := "8"]> (p_prof p)) (DEFAULT_W tech)))
  else (err, p).

Definition parse_per_chunk (err : Z) (p : params) : Z * params :=
  let pc := to_bool "jerasure-per-chunk-alignment" (p_prof p) "false" in
  (err_or err (p_err pc), with_per_chunk p pc).

Definition parse_packetsize (err : Z) (p : params) : Z * params :=
  let ps := to_int "packetsize" (p_prof p) DEFAULT_PACKETSIZE in
  (err_or err (p_err ps), with_packetsize p ps).

Definition check_k (p : params) : bool := negb (bool_decide (p_w p < p_k p)).
Definition liberation_check_w (p : params) : bool :=
  negb (bool_decide (p_w p ≤ 2) || negb (is_prime (p_w p))).
Definition blaum_roth_check_w (p : params) : bool :=
  bool_decide (p_w p = 7) || negb (bool_decide (p_w p ≤ 2) || negb (is_prime (p_w p + 1))).
Definition check_w (tech : technique) (p : params) : bool :=
  match tech with blaum_roth => blaum_roth_check_w p | _ => liberation_check_w p end.
Definition check_packetsize_set (p : params) : bool := negb (bool_decide (p_packetsize p = 0)).
Definition check_packetsize (p : params) : bool :=
  negb (bool_decide (p_packetsize p mod sizeof_int ≠ 0)).

Definition revert_to_default (tech : technique) (p : params) : params :=
  let pk := to_int "k" (<["k" := DEFAULT_K tech]> (p_prof p)) (DEFAULT_K tech) in
  let pw := to_int "w" (<["w" := DEFAULT_W tech]> (p_profile pk)) (DEFAULT_W tech) in
  let ps := to_int "packetsize" (<["packetsize" := DEFAULT_PACKETSIZE]> (p_profile pw))
              DEFAULT_PACKETSIZE in
  mkParams (p_value pk) (p_m p) (p_value pw) (p_value ps) (p_per_chunk p) (p_mapping p)
    (p_profile ps).

Definition van_parse (profile : Profile) (mapping : list Z) : Z * params :=
  let '(err, p) := parse_base reed_sol_van profile mapping in
  let '(err, p) := check_word_size reed_sol_van err p in
  parse_per_chunk err p.

Definition r6_parse (profile : Profile) (mapping : list Z) : Z * params :=
  let '(err, p) := parse_base reed_sol_r6_op profile mapping in
  let p := with_m p 2 (delete "m" (p_prof p)) in
  check_word_size reed_sol_r6_op err p.

Definition cauchy_parse (tech : technique) (profile : Profile) (mapping : list Z) : Z * params :=
  let '(err, p) := parse_base tech profile mapping in
  let '(err, p) := parse_packetsize err p in
  parse_per_chunk err p.

Definition liberation_parse (tech : technique) (profile : Profile) (mapping : list Z) : Z * params :=
  let '(err, p) := parse_base tech profile mapping in
  let '(err, p) := parse_packetsize err p in
  if check_k p && check_w tech p && (check_packetsize_set p && check_packetsize p) then (err, p)
  else (- EINVAL, revert_to_default tech p).

Definition liber8tion_parse (profile : Profile) (mapping : list Z) : Z * params :=
  let '(err, p) := parse_base liber8tion profile mapping in
  let pm := to_int "m" (delete "m" (p_prof p)) (DEFAULT_M liber8tion) in
  let p := with_m p (p_value pm) (p_profile pm) in
  let pw := to_int "w" (delete "w" (p_prof p)) (DEFAULT_W liber8tion) in
  let p := with_w p pw in
  let '(err, p) := parse_packetsize (err_or (err_or err (p_err pm)) (p_err pw)) p in
  if check_k p && check_packetsize_set p then (err, p)
  else (- EINVAL, revert_to_default liber8tion p).

Definition parse_params (tech : technique) : Profile → list Z → Z * params :=
  match tech with
  | reed_sol_van => van_parse
  | reed_sol_r6_op => r6_parse
  | cauchy_orig | cauchy_good => cauchy_parse tech
  | liberation | blaum_roth => liberation_parse tech
  | liber8tion => liber8tion_parse
  end.

(** ** Configuration *)

Section configuration.
Context `{JerasureLib}.

(** The matrix or bit matrix, and the schedule, that [prepare] makes. *)
Definition van_prepare (k m w : Z) : list Z * schedule_t :=
  (reed_sol_vandermonde_coding_matrix k m w, []).
Definition r6_prepare (k w : Z) : list Z * schedule_t := (reed_sol_r6_coding_matrix k w, []).
Definition cauchy_prepare_schedule (k m w : Z) (matrix : list Z) : list Z * schedule_t :=
  let bitmatrix := jerasure_matrix_to_bitmatrix k m w matrix in
  (bitmatrix, jerasure_smart_bitmatrix_to_schedule k m w bitmatrix).
Definition cauchy_orig_prepare (k m w : Z) : list Z * schedule_t :=
  cauchy_prepare_schedule k m w (cauchy_original_coding_matrix k m w).
Definition cauchy_good_prepare (k m w : Z) : list Z * schedule_t :=
  cauchy_prepare_schedule k m w (cauchy_good_general_coding_matrix k m w).
Definition liberation_prepare (k m w : Z) : list Z * schedule_t :=
  let bitmatrix := liberation_coding_bitmatrix k w in
  (bitmatrix, jerasure_smart_bitmatrix_to_schedule k m w bitmatrix).
Definition blaum_roth_prepare (k m w : Z) : list Z * schedule_t :=
  let bitmatrix := blaum_roth_coding_bitmatrix k w in
  (bitmatrix, jerasure_smart_bitmatrix_to_schedule k m w bitmatrix).
Definition liber8tion_prepare (k m w : Z) : list Z * schedule_t :=
  let bitmatrix := liber8tion_coding_bitmatrix k in
  (bitmatrix, jerasure_smart_bitmatrix_to_schedule k m w bitmatrix).

Definition prepare (tech : technique) (k m w : Z) : list Z * schedule_t :=
  match tech with
  | reed_sol_van => van_prepare k m w
  | reed_sol_r6_op => r6_prepare k w
  | cauchy_orig => cauchy_orig_prepare k m w
  | cauchy_good => cauchy_good_prepare k m w
  | liberation => liberation_prepare k m w
  | blaum_roth => blaum_roth_prepare k m w
  | liber8tion => liber8tion_prepare k m w
  end.

Definition init (s : t) (profile : Profile) : Z * t * Profile :=
  let profile := <["technique" := technique_name (tech s)]> profile in
  let root := to_string "ruleset-root" profile "default" in
  let domain := to_string "ruleset-failure-domain" (p_profile root) "host" in
  let '(err, p) := parse_params (tech s) (p_profile domain) (base_mapping s) in
  let err := err_or (err_or (p_err root) (p_err domain)) err in
  let make matrix schedule profile :=
    mk (tech s) (p_k p) (p_m p) (p_w p) (p_packetsize p) (p_per_chunk p) matrix schedule
      (p_mapping p) (p_value root) (p_value domain) profile in
  if bool_decide (err ≠ 0) then (err, make (matrix s) (schedule s) (profile_ s), p_prof p) else
  let '(matrix, schedule) := prepare (tech s) (p_k p) (p_m p) (p_w p) in
  (err, make matrix schedule (p_prof p), p_prof p).

(** [ErasureCodePluginJerasure::factory]: the codec on success. *)
Definition techniques : list technique :=
  [reed_sol_van; reed_sol_r6_op; cauchy_orig; cauchy_good; liberation; blaum_roth; liber8tion].

Definition factory (profile : Profile) : Z * option t * Profile :=
  let t := default "" (profile !! "technique") in
  match filter (λ tech, technique_name tech = t) techniques with
  | tech :: _ =>
      let '(r, s, profile) := init (fresh tech) profile in
      if bool_decide (r ≠ 0) then (r, None, profile) else (0, Some s, profile)
  | [] => (- ENOENT, None, profile)
  end.

End configuration.

Definition create_ruleset (s : t) (name : string) (crush : CrushWrapper)
    : outcome (Z * CrushWrapper) :=
  create_simple_ruleset (ruleset_root s) (ruleset_failure_domain s) (u32 (k s + m s)) name crush.

End Jerasure.
