(* ===== verification/JerasureFacts.v ===== *)
(** * The jerasure plugin: coder and sizes

    What the plugin relies on from the library for given parameters
    ([good_code]), and from it the promises the plugin makes to the base class
    ([CodecSpec]) and to the LRC plugin ([MdsSpec]); the chunk sizes that the
    plugin computes are among those the library works on. *)

From S2P Require Import Prelude Strtol ErasureCode CrushRules Jerasure.

Import Jerasure.

#[local] Abbreviation ids s := (list_to_set (seqZ 0 (k s + m s)) : gset Z).

Definition blocks_ok (bs : nat) (ds : list bytes) : Prop :=
  Forall (λ d, length d = bs ∧ bytes_ok d) ds.

(** The matrix codes work on multiples of the machine word, the bit matrix
    codes on multiples of [w] packets. *)
Definition code_sizes (s : t) (bs : nat) : Prop :=
  match tech s with
  | reed_sol_van | reed_sol_r6_op => Z.of_nat bs mod 8 = 0
  | _ => Z.of_nat bs mod (w s * packetsize s) = 0
  end.

(** An erasure code of [k] data and [m] coding regions, for regions of some
    sizes: the encoder makes [m] regions, and the decoder gets back the data
    and the coding regions after the loss of at most [m] of them, which the
    array [erasures] lists in front of a -1. *)
Record erasure_code (k m : Z) (sizes : nat → Prop) (enc : list bytes → Z → list bytes)
    (dec : list Z → list bytes → list bytes → Z → Z * list bytes * list bytes) : Prop := {
  ec_encode data bs :
    sizes bs → Z.of_nat (length data) = k → blocks_ok bs data →
    Z.of_nat (length (enc data (Z.of_nat bs))) = m ∧ blocks_ok bs (enc data (Z.of_nat bs));
  ec_decode data bs E data' coding' :
    sizes bs → Z.of_nat (length data) = k → blocks_ok bs data →
    filter (λ i, i ∈ E) (seqZ 0 (k + m)) = E → (0 < length E)%nat → Z.of_nat (length E) ≤ m →
    Z.of_nat (length data') = k → blocks_ok bs data' →
    Z.of_nat (length coding') = m → blocks_ok bs coding' →
    (∀ i, 0 ≤ i < k + m → i ∉ E →
       (data' ++ coding') !! Z.to_nat i = (data ++ enc data (Z.of_nat bs)) !! Z.to_nat i) →
    dec (E ++ [-1]) data' coding' (Z.of_nat bs) = (0, data, enc data (Z.of_nat bs));
}.

Section coder.
Context `{HJ : JerasureLib} (s : t).

(** The documented behaviour of the library with a good matrix: the encoder
    and the decoder of the technique, with the row_k_ones flag of a Vandermonde
    matrix and the smart schedules, are an erasure code. *)
Definition good_code : Prop :=
  match tech s with
  | reed_sol_van =>
      erasure_code (k s) (m s) (code_sizes s)
        (λ data size, jerasure_matrix_encode (k s) (m s) (w s) (matrix s) data size)
        (λ erasures data coding size, jerasure_matrix_decode (k s) (m s) (w s) (matrix s) 1 erasures data coding size)
  | reed_sol_r6_op =>
      erasure_code (k s) (m s) (code_sizes s)
        (λ data size, reed_sol_r6_encode (k s) (w s) data size)
        (λ erasures data coding size, jerasure_matrix_decode (k s) (m s) (w s) (matrix s) 1 erasures data coding size)
  | cauchy_orig | cauchy_good | liberation | blaum_roth | liber8tion =>
      erasure_code (k s) (m s) (code_sizes s)
        (λ data size, jerasure_schedule_encode (k s) (m s) (w s) (schedule s) data size (packetsize s))
        (λ erasures data coding size,
          jerasure_schedule_decode_lazy (k s) (m s) (w s) (matrix s) erasures data coding size (packetsize s) 1)
  end.

(** The methods of the plugin call the library with the arguments of its
    code. *)
Lemma good_code_methods : good_code → erasure_code (k s) (m s) (code_sizes s) (jerasure_encode s) (jerasure_decode s).
Proof. unfold good_code, jerasure_encode, jerasure_decode. by destruct (tech s). Qed.

Lemma good_code_intro : erasure_code (k s) (m s) (code_sizes s) (jerasure_encode s) (jerasure_decode s) → good_code.
Proof. unfold good_code, jerasure_encode, jerasure_decode. by destruct (tech s). Qed.

Record state_ok : Prop := {
  so_k : 0 < k s;
  so_m : 0 ≤ m s;
  so_km : k s + m s < 2 ^ 32;
  so_code : good_code;
}.

Context (Hs : state_ok).

Definition data_of (w : gmap Z bytes) : list bytes := buf w <$> seqZ 0 (k s).
Definition coding_of (w : gmap Z bytes) : list bytes := buf w <$> seqZ (k s) (m s).

(** The coding chunks are the encoding of the data chunks. *)
Definition codeword (bs : nat) (w : gmap Z bytes) : Prop :=
  code_sizes s bs ∧ stripe (k s + m s) bs w
  ∧ coding_of w = jerasure_encode s (data_of w) (Z.of_nat bs).

Lemma regions_stripe w bs a n :
  stripe (k s + m s) bs w → 0 ≤ a → 0 ≤ n → a + n ≤ k s + m s →
  regions w (seqZ a n) (Z.of_nat bs) = Ret (buf w <$> seqZ a n)
  ∧ blocks_ok bs (buf w <$> seqZ a n) ∧ Z.of_nat (length (buf w <$> seqZ a n)) = n.
Proof.
  intros Hst Ha Hn Hle.
  assert (∀ i, i ∈ seqZ a n → length (buf w i) = bs ∧ bytes_ok (buf w i)) as Hb.
  { intros i Hi%elem_of_seqZ. apply (stripe_buf _ _ _ _ Hst). lia. }
  split_and!.
  - unfold regions. rewrite bool_decide_true.
    + f_equal. apply list_fmap_ext. intros j i Hi%list_elem_of_lookup_2%Hb.
      rewrite Nat2Z.id. apply take_ge. lia.
    + apply Forall_forall. intros i Hi%Hb. unfold blen. lia.
  - apply Forall_fmap, Forall_forall. intros i Hi. by apply Hb.
  - rewrite length_fmap, length_seqZ. lia.
Qed.

Lemma first_buf_stripe w bs : stripe (k s + m s) bs w → blen (buf w 0) = Z.of_nat bs.
Proof.
  intros Hst. destruct Hs as [? ? _ _]. unfold blen.
  by destruct (stripe_buf _ _ _ 0 Hst ltac:(lia)) as (_ & -> & _).
Qed.

(** Storing a list of blocks over the chunks [a .. a + n - 1]. *)
Lemma store_range w bs a n bufs i :
  stripe (k s + m s) bs w → 0 ≤ a → 0 ≤ n → a + n ≤ k s + m s →
  Z.of_nat (length bufs) = n → blocks_ok bs bufs → 0 ≤ i < k s + m s →
  store w (seqZ a n) bufs !! i
  = if bool_decide (a ≤ i < a + n) then bufs !! Z.to_nat (i - a) else w !! i.
Proof.
  intros Hst Ha Hn Hle Hl Hok Hi. case_bool_decide as Hin.
  - destruct (lookup_lt_is_Some_2 bufs (Z.to_nat (i - a))) as [b Hb]; [lia|]. rewrite Hb.
    apply (store_in bs _ _ _ (Z.to_nat (i - a))); [apply NoDup_seqZ| | |done|].
    + intros j Hj%elem_of_seqZ. apply (stripe_buf _ _ _ _ Hst). lia.
    + apply lookup_seqZ. lia.
    + by apply (Forall_lookup_1 _ _ _ _ Hok Hb).
  - apply store_other. rewrite elem_of_seqZ. lia.
Qed.

Lemma fmap_buf_range (w : gmap Z bytes) a n l :
  0 ≤ n → Z.of_nat (length l) = n →
  (∀ i, a ≤ i < a + n → w !! i = l !! Z.to_nat (i - a)) → buf w <$> seqZ a n = l.
Proof.
  intros Hn Hl Hw. apply list_eq. intros p. rewrite list_lookup_fmap.
  destruct (decide (Z.of_nat p < n)) as [Hp|Hp].
  - assert (seqZ a n !! p = Some (a + Z.of_nat p)) as -> by (apply lookup_seqZ; lia).
    simpl. unfold buf. rewrite Hw by lia. replace (Z.to_nat (a + Z.of_nat p - a)) with p by lia.
    destruct (lookup_lt_is_Some_2 l p) as [b Hb]; [lia|]. by rewrite Hb.
  - rewrite (lookup_ge_None_2 (seqZ a n)) by (rewrite length_seqZ; lia).
    symmetry. apply lookup_ge_None_2. lia.
Qed.

Lemma touched w bs : stripe (k s + m s) bs w → foldl touch w (seqZ 0 (k s + m s)) = w.
Proof.
  intros Hd%stripe_dom. apply foldl_touch_id. intros i Hi. apply Hd. by apply elem_of_list_to_set.
Qed.

Lemma jerasure_encode_codeword (want : gset Z) enc bs :
  stripe (k s + m s) bs enc → code_sizes s bs → dom enc = ids s →
  ∃ enc', encode_chunks s want enc = Ret (0, enc') ∧ dom enc' = dom enc ∧ codeword bs enc'
    ∧ ∀ i, 0 ≤ i < k s → enc' !! i = enc !! i.
Proof.
  intros Hst Hsz Hdom. destruct Hs as [Hk Hm Hkm Hc%good_code_methods]. unfold encode_chunks.
  rewrite bool_decide_false by lia. rewrite (touched _ bs) by done.
  rewrite touch_id by (rewrite Hdom; apply elem_of_ids; lia).
  rewrite (first_buf_stripe _ _ Hst).
  destruct (regions_stripe enc bs 0 (k s) Hst) as (-> & Hdok & Hdl); [lia..|].
  destruct (regions_stripe enc bs (k s) (m s) Hst) as (-> & _); [lia..|].
  cbn [mbind outcome_bind]. fold (data_of enc) in Hdok, Hdl |- *.
  destruct (ec_encode _ _ _ _ _ Hc (data_of enc) bs Hsz Hdl Hdok) as [Hcl Hcok].
  set (coding := jerasure_encode s (data_of enc) (Z.of_nat bs)) in *.
  set (enc' := store enc (seqZ (k s) (m s)) coding).
  assert (∀ i, 0 ≤ i < k s + m s → enc' !! i
    = if bool_decide (k s ≤ i < k s + m s) then coding !! Z.to_nat (i - k s) else enc !! i) as Hlook.
  { intros i Hi. by apply (store_range enc bs); try lia. }
  assert (∀ i, 0 ≤ i < k s → enc' !! i = enc !! i) as Hsame.
  { intros i Hi. rewrite Hlook by lia. by rewrite bool_decide_false by lia. }
  exists enc'. split; [done|]. split.
  { apply store_dom. intros i Hi%elem_of_seqZ. rewrite Hdom. apply elem_of_ids. lia. }
  split; [|done]. split; [done|]. split.
  - intros i Hi. rewrite Hlook by done. case_bool_decide; [|by apply Hst].
    destruct (lookup_lt_is_Some_2 coding (Z.to_nat (i - k s))) as [b Hb]; [lia|].
    exists b. split; [done|]. by apply (Forall_lookup_1 _ _ _ _ Hcok Hb).
  - assert (data_of enc' = data_of enc) as ->.
    { apply list_fmap_ext. intros j i [-> Hi]%lookup_seqZ. unfold buf. by rewrite Hsame by lia. }
    apply fmap_buf_range; [lia|done|]. intros i Hi. rewrite Hlook by lia.
    by rewrite bool_decide_true by lia.
Qed.

Lemma jerasure_decode_restores (want : gset Z) chunks decoded w bs :
  codeword bs w → chunks ⊆ w → chunks ≠ ∅ → dom chunks ⊆ ids s → dom chunks ≠ ids s →
  k s ≤ Z.of_nat (size (dom chunks)) →
  stripe (k s + m s) bs decoded → chunks ⊆ decoded →
  ∃ decoded', decode_chunks s want chunks decoded = Ret (0, decoded')
    ∧ ∀ i, 0 ≤ i < k s + m s → decoded' !! i = w !! i.
Proof.
  intros (Hsz & Hw & Hcw) Hsub Hne Hdom Hnall Hsize Hst Hdec.
  destruct Hs as [Hk Hm Hkm Hc%good_code_methods]. unfold decode_chunks.
  destruct (map_first_Some chunks Hne) as (i0 & b0 & -> & Hi0). cbn [need mbind outcome_bind].
  assert (blen b0 = Z.of_nat bs) as ->.
  { destruct (Hw i0) as (b & Hb & Hl & _); [by apply elem_of_ids, Hdom, (elem_of_dom_2 chunks i0 b0)|].
    rewrite (lookup_weaken _ _ _ _ Hi0 Hsub) in Hb. unfold blen. naive_solver lia. }
  rewrite bool_decide_false by lia. rewrite (touched _ bs) by done.
  set (E := filter (λ i, i ∉ dom chunks) (seqZ 0 (k s + m s))).
  pose proof (missing_size (dom chunks) (k s + m s) Hdom) as Hms. fold E in Hms.
  rewrite size_difference in Hms by done.
  assert (size (ids s) = Z.to_nat (k s + m s)) as Hall.
  { rewrite size_list_to_set by apply NoDup_seqZ. apply length_seqZ. }
  assert (size (dom chunks) < size (ids s))%nat as Hlt by (apply subset_size; set_solver).
  rewrite Hall in Hms, Hlt.
  rewrite (bool_decide_true (0 < length E)%nat) by lia. cbn [assert_that mbind outcome_bind].
  destruct (regions_stripe decoded bs 0 (k s) Hst) as (-> & Hdok & Hdl); [lia..|].
  destruct (regions_stripe decoded bs (k s) (m s) Hst) as (-> & Hcok & Hcl); [lia..|].
  destruct (regions_stripe w bs 0 (k s) Hw) as (_ & Hwok & Hwl); [lia..|].
  cbn [mbind outcome_bind]. fold (data_of w) in Hwok, Hwl.
  destruct (ec_encode _ _ _ _ _ Hc (data_of w) bs Hsz Hwl Hwok) as [Hel Heok].
  assert (∀ x i, 0 ≤ i < k s + m s → ((buf x <$> seqZ 0 (k s)) ++ (buf x <$> seqZ (k s) (m s)))
    !! Z.to_nat i = Some (buf x i)) as Happ.
  { intros x i Hi. rewrite <-fmap_app, <-seqZ_app by lia. rewrite list_lookup_fmap.
    replace (seqZ 0 (k s + m s) !! Z.to_nat i) with (Some i); [done|].
    symmetry. apply lookup_seqZ. lia. }
  rewrite (ec_decode _ _ _ _ _ Hc (data_of w) bs E); try done; [|..]; cycle 1.
  { apply filter_elem_of_filter. }
  { lia. }
  { lia. }
  { intros i Hi HiE. rewrite <-Hcw. unfold data_of, coding_of. rewrite !Happ by done. f_equal.
    assert (i ∈ dom chunks) as [b Hb]%elem_of_dom.
    { apply dec_stable. intros ?. apply HiE. apply list_elem_of_filter. split; [done|].
      apply elem_of_seqZ. lia. }
    unfold buf. by rewrite (lookup_weaken _ _ _ _ Hb Hdec), (lookup_weaken _ _ _ _ Hb Hsub). }
  eexists. split; [done|]. intros i Hi.
  assert (stripe (k s + m s) bs (store decoded (seqZ 0 (k s)) (data_of w))) as Hst1.
  { intros j Hj. rewrite (store_range decoded bs) by (done || lia).
    case_bool_decide; [|by apply Hst].
    destruct (lookup_lt_is_Some_2 (data_of w) (Z.to_nat (j - 0))) as [b Hb]; [lia|].
    exists b. split; [done|]. by apply (Forall_lookup_1 _ _ _ _ Hwok Hb). }
  rewrite (store_range _ bs) by (done || lia). rewrite (store_range decoded bs) by (done || lia).
  rewrite <-Hcw. unfold data_of, coding_of. rewrite !list_lookup_fmap.
  destruct (stripe_buf _ _ _ _ Hw Hi) as (-> & _ & _).
  repeat case_bool_decide; try lia.
  - replace (seqZ (k s) (m s) !! Z.to_nat (i - k s)) with (Some i); [done|].
    symmetry. apply lookup_seqZ. lia.
  - replace (seqZ 0 (k s) !! Z.to_nat (i - 0)) with (Some i); [done|].
    symmetry. apply lookup_seqZ. lia.
Qed.

End coder.

(** ** Chunk sizes *)

(** The word and packet sizes that the library supports. *)
Definition params_ok (s : t) : Prop :=
  match tech s with
  | reed_sol_van | reed_sol_r6_op => w s = 8 ∨ w s = 16 ∨ w s = 32
  | _ => 0 < w s ∧ 0 < packetsize s
  end.

(** What a chunk size is a multiple of. *)
Definition align_unit (s : t) : Z :=
  let size := match tech s with
              | reed_sol_van | reed_sol_r6_op => w s
              | _ => w s * packetsize s
              end in
  if bool_decide ((size * sizeof_int) mod LARGEST_VECTOR_WORDSIZE ≠ 0)
  then size * LARGEST_VECTOR_WORDSIZE else size * sizeof_int.

Lemma align_unit_pos s : params_ok s → 0 < align_unit s.
Proof.
  unfold params_ok, align_unit, sizeof_int, LARGEST_VECTOR_WORDSIZE.
  destruct (tech s); intros; case_bool_decide; nia.
Qed.

Lemma align_unit_sizes s n :
  params_ok s → 0 ≤ n → code_sizes s (Z.to_nat (n * align_unit s)).
Proof.
  intros Hp Hn. pose proof (align_unit_pos s Hp) as Hu. unfold code_sizes, params_ok in *.
  rewrite Z2Nat.id by nia. unfold align_unit, sizeof_int, LARGEST_VECTOR_WORDSIZE in *.
  clear Hu. destruct (tech s).
  1, 2: destruct Hp as [-> | [-> | ->]]; (case_bool_decide as Hb; [by destruct Hb|
    apply Z.mod_divide; [lia|]; apply Z.divide_mul_r, Z.mod_divide; [lia|done]]).
  all: destruct Hp as [Hw Hps]; (apply Z.mod_divide; [nia|]); apply Z.divide_mul_r;
    case_bool_decide; apply Z.divide_factor_l.
Qed.

Lemma get_alignment_unit s :
  per_chunk_alignment s = false → 0 < k s → params_ok s → k s * align_unit s < 2 ^ 32 →
  get_alignment s = k s * align_unit s.
Proof.
  intros Hpc Hk Hp Hlt. pose proof (align_unit_pos s Hp) as Hu.
  unfold get_alignment, van_get_alignment, r6_get_alignment, cauchy_get_alignment, liberation_get_alignment. rewrite Hpc. unfold align_unit in *.
  destruct (tech s); case_bool_decide; rewrite u32_small; nia.
Qed.

Lemma get_chunk_size_padded s len :
  per_chunk_alignment s = false → params_ok s → 0 < k s → 0 < len →
  len + k s * align_unit s ≤ 2 ^ 32 →
  ∃ bs, get_chunk_size s len = Ret bs ∧ 0 < bs ∧ len ≤ k s * bs < 2 ^ 32
    ∧ code_sizes s (Z.to_nat bs).
Proof.
  intros Hpc Hp Hk Hlen Hmax. pose proof (align_unit_pos s Hp) as Hu.
  set (u := align_unit s) in *. assert (0 < k s * u) by nia.
  unfold get_chunk_size. rewrite Hpc, get_alignment_unit by (done || (fold u; lia)). fold u.
  rewrite (u32_small (k s)) by nia.
  rewrite bool_decide_false by nia.
  set (A := k s * u) in *. pose proof (Z.div_mod len A ltac:(lia)) as Hdm.
  pose proof (Z.mod_pos_bound len A ltac:(lia)) as Hmb.
  set (q := if bool_decide (len mod A ≠ 0) then len / A + 1 else len / A).
  assert (u32 (len + (if bool_decide (len mod A ≠ 0) then A - len mod A else 0)) = q * A) as ->.
  { unfold q. case_bool_decide; rewrite u32_small; nia. }
  rewrite bool_decide_false by lia.
  assert (q * A = q * u * k s) as HqA by (unfold A; lia). rewrite HqA.
  rewrite Z_mod_mult, bool_decide_true by done. cbn [assert_that mbind outcome_bind].
  rewrite Z_div_mult by lia.
  assert (0 < q ∧ len ≤ q * A < 2 ^ 32) as [Hq Hle].
  { pose proof (Z.div_pos len A ltac:(lia) ltac:(lia)).
    unfold q. case_bool_decide; split; nia. }
  exists (q * u). split; [done|]. split; [nia|]. split; [lia|].
  apply align_unit_sizes; [done|lia].
Qed.

(** With an alignment per chunk, a chunk has to be at least as long as the
    alignment. *)
Lemma get_chunk_size_per_chunk s len :
  per_chunk_alignment s = true → 0 < k s < 2 ^ 32 → 0 < get_alignment s → 0 < len →
  len + k s * get_alignment s ≤ 2 ^ 32 →
  let chunk_size := (len + k s - 1) / k s in
  if bool_decide (get_alignment s ≤ chunk_size) then
    ∃ bs, get_chunk_size s len = Ret bs ∧ 0 < bs ∧ len ≤ k s * bs < 2 ^ 32
      ∧ bs mod get_alignment s = 0
  else get_chunk_size s len = Abort AssertFailed.
Proof.
  intros Hpc Hk Hal Hlen Hmax. cbv zeta. set (al := get_alignment s) in *.
  unfold get_chunk_size. rewrite Hpc. fold al. rewrite (u32_small (k s)) by lia.
  rewrite (bool_decide_false (k s = 0)) by lia.
  assert ((if bool_decide (len mod k s ≠ 0) then u32 (len / k s + 1) else len / k s)
    = (len + k s - 1) / k s) as ->.
  { pose proof (Z.div_mod len (k s) ltac:(lia)). pose proof (Z.mod_pos_bound len (k s) ltac:(lia)).
    case_bool_decide as Hm.
    - pose proof (Z.div_pos len (k s) ltac:(lia) ltac:(lia)).
      assert (1 * (len / k s) ≤ k s * (len / k s)) by (apply Z.mul_le_mono_nonneg_r; lia).
      assert (0 < k s * al) by (apply Z.mul_pos_pos; lia).
      rewrite u32_small by lia. apply Z.div_unique with (len mod k s - 1); lia.
    - apply Z.div_unique with (k s - 1); lia. }
  pose proof (padded_chunk (k s) al len ltac:(lia) ltac:(lia) ltac:(lia) ltac:(lia)) as Hpad.
  cbv zeta in Hpad.
  set (c := (len + k s - 1) / k s) in *.
  destruct (decide (al ≤ c)) as [Hle|Hgt].
  - rewrite !(bool_decide_true (al ≤ c)) by done. cbn [assert_that mbind outcome_bind].
    rewrite (bool_decide_false (al = 0)) by lia. rewrite <-Z.add_sub_assoc in Hpad.
    eexists. split; [done|]. tauto.
  - by rewrite !(bool_decide_false (al ≤ c)).
Qed.

(** ** What the plugin promises *)

Section promises.
Context `{HJ : JerasureLib} (s : t).

Lemma jerasure_decode_enough (want : gset Z) chunks decoded w bs :
  state_ok s → codeword s bs w → chunks ⊆ w → dom chunks ⊆ ids s → dom chunks ≠ ids s →
  k s ≤ Z.of_nat (size (dom chunks)) →
  stripe (k s + m s) bs decoded → chunks ⊆ decoded →
  ∃ decoded', decode_chunks s want chunks decoded = Ret (0, decoded')
    ∧ ∀ i, 0 ≤ i < k s + m s → decoded' !! i = w !! i.
Proof.
  intros Hs Hcw Hsub Hdom Hnall Hsize Hst Hdec.
  apply (jerasure_decode_restores s Hs want chunks decoded w bs); try done.
  intros ->. rewrite dom_empty_L, size_empty in Hsize. pose proof (so_k _ Hs). lia.
Qed.

Lemma jerasure_mds_spec : state_ok s → MdsSpec (codec s) (code_sizes s) (codeword s).
Proof.
  intros Hs. pose proof (so_k _ Hs). pose proof (so_m _ Hs). pose proof (so_km _ Hs).
  split; cbn [codec get_chunk_count get_data_chunk_count].
  - lia.
  - lia.
  - intros want enc bs Hst _ Hsz Hdom.
    destruct (jerasure_encode_codeword s Hs want enc bs Hst Hsz Hdom) as (enc' & ? & ? & Hcw & ?).
    exists enc'. split; [done|]. split; [done|]. split; [apply Hcw|done].
  - intros want chunks decoded w bs Hcw _ Hsz Hst Hdw Hsub Hne Hsize Hstd _ Hsubd.
    pose proof (subseteq_dom _ _ Hsub) as Hdom. rewrite Hdw in *.
    rewrite size_difference in Hsize by done.
    assert (size (ids s) = Z.to_nat (k s + m s)) as Hall.
    { rewrite size_list_to_set by apply NoDup_seqZ. apply length_seqZ. }
    apply (jerasure_decode_enough _ _ _ w bs); try done. lia.
Qed.

Lemma jerasure_codec_spec :
  state_ok s → base_mapping s = [] → per_chunk_alignment s = false → params_ok s →
  CodecSpec (codec s) (2 ^ 32 - k s * align_unit s) (code_sizes s) (codeword s)
    (λ have _, k s ≤ Z.of_nat (size have)).
Proof.
  intros Hs Hmap Hpc Hp. pose proof (so_k _ Hs). pose proof (so_m _ Hs). pose proof (so_km _ Hs).
  assert (∀ i, chunk_index [] i = i) as Hidx.
  { intros i. unfold chunk_index. by case_bool_decide. }
  split; cbn [codec get_chunk_count get_data_chunk_count chunk_mapping].
  - lia.
  - lia.
  - by left.
  - intros len Hlen. apply get_chunk_size_padded; (done || lia).
  - by intros bs w (_ & Hst & _).
  - intros want enc bs _ Hst _ Hsz Hdom. rewrite Hmap.
    destruct (jerasure_encode_codeword s Hs want enc bs Hst Hsz Hdom) as (enc' & ? & ? & ? & Hdata).
    exists enc'. split_and!; [done..|]. intros i Hi. rewrite Hidx. by apply Hdata.
  - intros want chunks decoded w bs Hcw _ Hsub Hne Hwant Hdom Hst Hsubd Hsize Hnot.
    assert (dom chunks ≠ ids s) by (intros E; apply Hnot; by rewrite E).
    destruct (jerasure_decode_enough want chunks decoded w bs) as (dec & Hdec & Hres); try done.
    exists dec. split; [done|]. intros i Hi. by apply Hres, elem_of_ids, Hwant.
Qed.

End promises.
