(* ===== verification/JerasureL8.v ===== *)
(** * An implementation of the jerasure interface

    Every technique is the Cauchy code over GF(2^8) of the ISA plugin, on
    regions instead of chunks. It shows that [good_code] can hold, and makes
    the definitions of the jerasure plugin executable. *)

From S2P Require Import Prelude Strtol Galois ErasureCode CrushRules XorOp IsaCache Isa IsaFacts IsaL8 IsaCorrect Jerasure JerasureFacts.

Definition cauchy_code (k m : Z) : Isa.t := made (isa_profile "cauchy" k m).

(** Regions as the chunks of a stripe, and back. *)
Definition chunks_of (ds : list bytes) : gmap Z bytes :=
  list_to_map (zip (seqZ 0 (Z.of_nat (length ds))) ds).
Definition regions_of (w : gmap Z bytes) (a n : Z) : list bytes := buf w <$> seqZ a n.

Definition l8_encode (k m : Z) (data : list bytes) (blocksize : Z) : list bytes :=
  match Isa.encode_chunks (cauchy_code k m) ∅
          (chunks_of (data ++ replicate (Z.to_nat m) (zeros (Z.to_nat blocksize)))) with
  | Ret (_, w) => regions_of w k m
  | Abort _ => []
  end.

Definition l8_decode (k m : Z) (erasures : list Z) (data coding : list bytes)
    : Z * list bytes * list bytes :=
  let w := chunks_of (data ++ coding) in
  match Isa.decode_chunks (cauchy_code k m) IsaCache.empty ∅
          (filter (λ p, p.1 ∉ erasures) w) w with
  | Ret (err, w, _) => (err, regions_of w 0 k, regions_of w k m)
  | Abort _ => (-1, data, coding)
  end.

#[export] Instance gf8_jerasure_lib : JerasureLib := {|
  reed_sol_vandermonde_coding_matrix k m w := drop (Z.to_nat (k * k)) (gf_gen_cauchy1_matrix (k + m) k);
  reed_sol_r6_coding_matrix k w := drop (Z.to_nat (k * k)) (gf_gen_cauchy1_matrix (k + 2) k);
  cauchy_original_coding_matrix k m w := drop (Z.to_nat (k * k)) (gf_gen_cauchy1_matrix (k + m) k);
  cauchy_good_general_coding_matrix k m w := drop (Z.to_nat (k * k)) (gf_gen_cauchy1_matrix (k + m) k);
  liberation_coding_bitmatrix k w := [];
  blaum_roth_coding_bitmatrix k w := [];
  liber8tion_coding_bitmatrix k := [];
  jerasure_matrix_to_bitmatrix k m w matrix := [];
  jerasure_smart_bitmatrix_to_schedule k m w bitmatrix := [];
  jerasure_matrix_encode k m w matrix data blocksize := l8_encode k m data blocksize;
  reed_sol_r6_encode k w data blocksize := l8_encode k 2 data blocksize;
  jerasure_schedule_encode k m w schedule data blocksize packetsize := l8_encode k m data blocksize;
  jerasure_matrix_decode k m w matrix row_k_ones erasures data coding blocksize :=
    l8_decode k m erasures data coding;
  jerasure_schedule_decode_lazy k m w bitmatrix erasures data coding blocksize packetsize smart :=
    l8_decode k m erasures data coding;
|}.

Lemma chunks_of_lookup ds i : 0 ≤ i < Z.of_nat (length ds) → chunks_of ds !! i = ds !! Z.to_nat i.
Proof.
  intros Hi. destruct (lookup_lt_is_Some_2 ds (Z.to_nat i)) as [b Hb]; [lia|]. rewrite Hb.
  apply elem_of_list_to_map_1.
  - rewrite fst_zip by (rewrite length_seqZ; lia). apply NoDup_seqZ.
  - apply list_elem_of_lookup. exists (Z.to_nat i). apply lookup_zip_with_Some.
    eexists _, _. split; [done|]. split; [apply lookup_seqZ; lia|done].
Qed.

Lemma chunks_of_out ds i : ¬ 0 ≤ i < Z.of_nat (length ds) → chunks_of ds !! i = None.
Proof.
  intros Hi. apply not_elem_of_list_to_map_1. rewrite fst_zip by (rewrite length_seqZ; lia).
  rewrite elem_of_seqZ. lia.
Qed.

Lemma chunks_of_dom ds : dom (chunks_of ds) = list_to_set (seqZ 0 (Z.of_nat (length ds))).
Proof.
  apply set_eq. intros i. rewrite elem_of_dom, elem_of_ids.
  destruct (decide (0 ≤ i < Z.of_nat (length ds))) as [Hi|Hi].
  - rewrite chunks_of_lookup by done. split; [done|]. intros _. apply lookup_lt_is_Some_2. lia.
  - rewrite chunks_of_out by done. split; [by intros []|done].
Qed.

Lemma chunks_of_stripe ds bs : blocks_ok bs ds → stripe (Z.of_nat (length ds)) bs (chunks_of ds).
Proof.
  intros Hok i Hi. rewrite chunks_of_lookup by done.
  destruct (lookup_lt_is_Some_2 ds (Z.to_nat i)) as [b Hb]; [lia|].
  exists b. split; [done|]. by apply (Forall_lookup_1 _ _ _ _ Hok Hb).
Qed.

Lemma regions_of_agree w a n ds :
  0 ≤ n → Z.of_nat (length ds) = n →
  (∀ i, a ≤ i < a + n → w !! i = ds !! Z.to_nat (i - a)) → regions_of w a n = ds.
Proof. apply fmap_buf_range. Qed.

Section code.
Context (k m : Z) (Hk : 0 < k) (Hm : 0 < m).
Context (Hok : IsaFacts.state_ok (cauchy_code k m)) (Hmds : mds (cauchy_code k m)).
Context (HIk : Isa.k (cauchy_code k m) = k) (HIm : Isa.m (cauchy_code k m) = m).

(** The stripe that the encoder makes of the data. *)
Lemma l8_stripe data bs :
  Z.of_nat (length data) = k → blocks_ok bs data →
  ∃ w, IsaFacts.codeword (cauchy_code k m) bs w ∧ stripe (k + m) bs w
    ∧ dom w = list_to_set (seqZ 0 (k + m))
    ∧ (∀ i, 0 ≤ i < k → w !! i = data !! Z.to_nat i)
    ∧ l8_encode k m data (Z.of_nat bs) = regions_of w k m.
Proof.
  intros Hl Hd. unfold l8_encode. rewrite Nat2Z.id.
  set (all := data ++ replicate (Z.to_nat m) (zeros bs)).
  assert (Z.of_nat (length all) = k + m) as Hall.
  { unfold all. rewrite length_app, length_replicate. lia. }
  assert (blocks_ok bs all) as Hallok.
  { apply Forall_app. split; [done|]. apply Forall_replicate. split; [apply length_zeros|apply bytes_ok_zeros]. }
  destruct (encode_chunks_codeword (cauchy_code k m) Hok ∅ (chunks_of all) bs)
    as (w & -> & Hdw & Hst & Hcw & Hsame).
  { rewrite HIk, HIm, <-Hall. by apply chunks_of_stripe. }
  { by rewrite HIk, HIm, <-Hall, chunks_of_dom. }
  rewrite HIk, HIm in Hst. rewrite HIk in Hsame.
  exists w. split_and!; [done|done|by rewrite Hdw, chunks_of_dom, Hall| |done].
  intros i Hi. rewrite Hsame, chunks_of_lookup by lia. unfold all. by rewrite lookup_app_l by lia.
Qed.

Lemma l8_encode_blocks data bs :
  Z.of_nat (length data) = k → blocks_ok bs data →
  Z.of_nat (length (l8_encode k m data (Z.of_nat bs))) = m
  ∧ blocks_ok bs (l8_encode k m data (Z.of_nat bs)).
Proof.
  intros Hl Hd. destruct (l8_stripe data bs Hl Hd) as (w & _ & Hst & _ & _ & ->).
  unfold regions_of. rewrite length_fmap, length_seqZ. split; [lia|].
  apply Forall_fmap, Forall_forall. intros i Hi%elem_of_seqZ. simpl.
  apply (stripe_buf _ _ _ _ Hst). lia.
Qed.

Lemma l8_decode_restores data bs E data' coding' :
  Z.of_nat (length data) = k → blocks_ok bs data →
  filter (λ i, i ∈ E) (seqZ 0 (k + m)) = E → (0 < length E)%nat → Z.of_nat (length E) ≤ m →
  Z.of_nat (length data') = k → blocks_ok bs data' →
  Z.of_nat (length coding') = m → blocks_ok bs coding' →
  (∀ i, 0 ≤ i < k + m → i ∉ E →
     (data' ++ coding') !! Z.to_nat i = (data ++ l8_encode k m data (Z.of_nat bs)) !! Z.to_nat i) →
  l8_decode k m (E ++ [-1]) data' coding' = (0, data, l8_encode k m data (Z.of_nat bs)).
Proof.
  intros Hl Hd HE HEpos HEm Hl' Hd' Hlc Hc' Hag.
  destruct (l8_stripe data bs Hl Hd) as (w & Hcw & Hst & Hdw & Hdata & Henc).
  assert (∀ i, 0 ≤ i < k + m → (data ++ l8_encode k m data (Z.of_nat bs)) !! Z.to_nat i = w !! i) as Hw.
  { intros i Hi. rewrite Henc. destruct (decide (i < k)).
    - rewrite lookup_app_l by lia. by rewrite Hdata by lia.
    - rewrite lookup_app_r by lia. unfold regions_of. rewrite list_lookup_fmap.
      replace (seqZ k m !! (Z.to_nat i - length data)%nat) with (Some i)
        by (symmetry; apply lookup_seqZ; lia).
      simpl. symmetry. by apply (stripe_buf _ _ _ _ Hst). }
  assert (Z.of_nat (length (data' ++ coding')) = k + m) as Hall by (rewrite length_app; lia).
  set (dec := chunks_of (data' ++ coding')). set (chunks := filter (λ p, p.1 ∉ E ++ [-1]) dec).
  assert (stripe (k + m) bs dec) as Hstd.
  { rewrite <-Hall. apply chunks_of_stripe. by apply Forall_app. }
  assert (chunks ⊆ dec) as Hsubd by apply map_filter_subseteq.
  assert (chunks ⊆ w) as Hsub.
  { apply map_subseteq_spec. intros i b [Hb Hn]%map_lookup_filter_Some. simpl in Hn.
    assert (0 ≤ i < k + m) as Hi.
    { rewrite <-Hall, <-elem_of_ids, <-chunks_of_dom. by eapply elem_of_dom_2. }
    rewrite elem_of_app in Hn. rewrite <-Hw, <-Hag by tauto. unfold dec in Hb. by rewrite chunks_of_lookup in Hb by lia. }
  assert (dom chunks = list_to_set (seqZ 0 (k + m)) ∖ list_to_set E) as Hdom.
  { apply set_eq. intros i. rewrite elem_of_dom, elem_of_difference, elem_of_ids, elem_of_list_to_set.
    split.
    - intros [b [Hb Hn]%map_lookup_filter_Some]. simpl in Hn.
      rewrite elem_of_app in Hn. split; [|tauto].
      rewrite <-Hall, <-elem_of_ids, <-chunks_of_dom. by eapply elem_of_dom_2.
    - intros [Hi Hn]. destruct (Hstd i Hi) as (b & Hb & _). exists b.
      apply map_lookup_filter_Some. split; [done|]. simpl. rewrite elem_of_app, list_elem_of_singleton.
      intros [?|?]; [done|lia]. }
  assert (list_to_set E ⊆ (list_to_set (seqZ 0 (k + m)) : gset Z)) as HEsub.
  { intros i Hi%elem_of_list_to_set. rewrite <-HE, list_elem_of_filter in Hi.
    apply elem_of_list_to_set; tauto. }
  assert (NoDup E) as HEnd by (rewrite <-HE; apply NoDup_filter, NoDup_seqZ).
  assert (size (list_to_set E : gset Z) = length E) as HEs by (by apply size_list_to_set).
  assert (size (list_to_set (seqZ 0 (k + m)) : gset Z) = Z.to_nat (k + m)) as Hns.
  { rewrite size_list_to_set by apply NoDup_seqZ. apply length_seqZ. }
  destruct (isa_decode_enough (cauchy_code k m) Hok IsaCache.empty ∅ chunks dec w bs)
    as (dec' & Hdec & Hres); [|exact Hmds|exact Hcw|exact Hsub|..|exact Hsubd|].
  { apply cache_sound_empty. }
  { rewrite HIk, HIm, Hdom. apply subseteq_difference_l. done. }
  { rewrite HIk, HIm, Hdom. intros Heq. apply (f_equal size) in Heq.
    rewrite size_difference in Heq by done. lia. }
  { rewrite HIk, Hdom, size_difference by done. lia. }
  { by rewrite HIk, HIm. }
  rewrite HIk, HIm in Hres. unfold l8_decode. fold dec. fold chunks.
  cbn [ErasureCode.decode_chunks Isa.codec] in Hdec.
  destruct (Isa.decode_chunks _ _ _ _ _) as [[[err dec2] tc]|]; [|done].
  injection Hdec as -> ->. f_equal; [f_equal|].
  - apply regions_of_agree; [lia|done|]. intros i Hi. rewrite Hres, Hdata by lia. f_equal. lia.
  - rewrite Henc. apply list_fmap_ext. intros j i [-> Hi]%lookup_seqZ. unfold buf.
    by rewrite Hres by lia.
Qed.

End code.

(** Any technique is a good code for the parameters of a good Cauchy code. *)
Lemma l8_good_code (s : Jerasure.t) :
  0 < Jerasure.k s → 0 < Jerasure.m s →
  (Jerasure.tech s = Jerasure.reed_sol_r6_op → Jerasure.m s = 2) →
  let code := cauchy_code (Jerasure.k s) (Jerasure.m s) in
  IsaFacts.state_ok code → mds code → Isa.k code = Jerasure.k s → Isa.m code = Jerasure.m s →
  good_code s.
Proof.
  intros Hk Hm H2 code Hok Hmds HIk HIm.
  assert (∀ data bs, Jerasure.jerasure_encode s data (Z.of_nat bs)
    = l8_encode (Jerasure.k s) (Jerasure.m s) data (Z.of_nat bs)) as Henc.
  { intros data bs. unfold Jerasure.jerasure_encode. destruct (Jerasure.tech s); try done.
    by rewrite H2. }
  assert (∀ E data coding bs, Jerasure.jerasure_decode s E data coding bs
    = l8_decode (Jerasure.k s) (Jerasure.m s) E data coding) as Hdec.
  { intros. unfold Jerasure.jerasure_decode. by destruct (Jerasure.tech s). }
  apply good_code_intro. split.
  - intros data bs _ Hl Hd. rewrite Henc. by apply l8_encode_blocks.
  - intros data bs E data' coding' _. rewrite Hdec, Henc. by apply l8_decode_restores.
Qed.
