(* ===== verification/JerasureCorrect.v ===== *)
(** * The jerasure plugin: theorems

    Configuration from a profile, the round trip through a stripe for every
    technique, the chunk sizes, and where the parameters are not checked. *)

From stdpp Require Import pretty.
From S2P Require Import Prelude Strtol ErasureCode CrushRules IsaFacts IsaCorrect Jerasure JerasureFacts JerasureL8.

Import Jerasure.

#[local] Abbreviation ids s := (list_to_set (seqZ 0 (k s + m s)) : gset Z).

(** ** Configuration *)

Section configuration.
Context `{HJ : JerasureLib}.

(** The codec that Reed-Solomon coding with the default word size makes. *)
Definition van_codec (k m : Z) (root domain : string) (profile : Profile) : t :=
  mk reed_sol_van k m 8 0 false (reed_sol_vandermonde_coding_matrix k m 8) [] [] root domain profile.

Lemma to_int_default name (profile : Profile) d z :
  profile !! name = None → strict_strtol d = Some z →
  to_int name profile d = mkParsed 0 z (<[name := d]> profile).
Proof. intros Hn Hd. unfold to_int, with_default. by rewrite Hn, Hd. Qed.

Lemma to_string_same name (profile : Profile) d :
  ∃ v profile', to_string name profile d = mkParsed 0 v profile'
    ∧ ∀ x, x ≠ name → profile' !! x = profile !! x.
Proof.
  unfold to_string, with_default. destruct (profile !! name) eqn:E; [case_bool_decide|];
    (eexists _, _; split; [done|]); intros x Hx; try done; by rewrite lookup_insert_ne.
Qed.

(** A profile with [technique=reed_sol_van], [k] and [m] and no word size,
    mapping or alignment makes that codec; the profile gets the defaults. *)
Lemma factory_van profile k0 m0 :
  profile !! "technique" = Some "reed_sol_van" →
  profile !! "k" = Some (pretty k0) → profile !! "m" = Some (pretty m0) →
  profile !! "w" = None → profile !! "mapping" = None →
  profile !! "jerasure-per-chunk-alignment" = None →
  INT_MIN < k0 < INT_MAX → INT_MIN < m0 < INT_MAX →
  ∃ root domain profile', factory profile
    = (0, Some (van_codec k0 m0 root domain profile'), profile')
    ∧ ∀ x, x ∉ ["ruleset-root"; "ruleset-failure-domain"; "w"; "jerasure-per-chunk-alignment"] →
        profile' !! x = profile !! x.
Proof.
  intros Ht Hk Hm Hw Hmap Hpc HkI HmI. unfold factory. rewrite Ht.
  assert (filter (λ tech, technique_name tech = default "" (Some "reed_sol_van")) techniques
    = [reed_sol_van]) as -> by (by vm_compute). unfold init. cbn [tech fresh base_mapping technique_name].
  rewrite insert_id by done.
  destruct (to_string_same "ruleset-root" profile "default") as (root & p1 & -> & H1).
  cbn [p_profile p_value p_err].
  destruct (to_string_same "ruleset-failure-domain" p1 "host") as (domain & p2 & -> & H2).
  cbn [p_profile p_value p_err].
  assert (∀ x, x ≠ "ruleset-root" → x ≠ "ruleset-failure-domain" → p2 !! x = profile !! x) as H12.
  { intros x ??. by rewrite H2, H1. }
  set (p3 := <["w" := "8"]> p2). set (p4 := <["jerasure-per-chunk-alignment" := "false"]> p3).
  assert (parse_params reed_sol_van p2 []
    = (0, mkParams k0 m0 8 0 false [] p4)) as ->.
  { unfold parse_params, van_parse, parse_base, ErasureCode.parse, to_mapping. rewrite (H12 "mapping"), Hmap by done.
    rewrite (to_int_pretty "k" p2 k0) by (rewrite ?H12; done).
    cbn [p_profile p_value p_err DEFAULT_M DEFAULT_W].
    rewrite (to_int_pretty "m" p2 m0) by (rewrite ?H12; done). cbn [p_profile p_value p_err].
    rewrite (to_int_default "w" p2 "8" 8) by (rewrite ?H12; done). fold p3.
    cbn [p_profile p_value p_err]. rewrite (bool_decide_false ([] ≠ [] ∧ _)) by (by intros []).
    unfold check_word_size. cbn [p_w]. rewrite bool_decide_false by lia.
    unfold parse_per_chunk, to_bool, with_default. cbn [p_prof].
    assert (p3 !! "jerasure-per-chunk-alignment" = None) as ->.
    { unfold p3. by rewrite lookup_insert_ne, H12. }
    fold p4. done. }
  change (err_or (err_or 0 0) 0) with 0. rewrite bool_decide_false by tauto.
  cbn [prepare van_prepare p_k p_m p_w p_packetsize p_per_chunk p_mapping p_prof].
  exists root, domain, p4. split; [done|]. intros x Hx. unfold p4, p3.
  rewrite !not_elem_of_cons in Hx. rewrite !lookup_insert_ne by naive_solver. naive_solver.
Qed.

End configuration.

(** ** Theorems *)

Section theorems.
Context `{HJ : JerasureLib} `{HA : Allocator} `{HAS : !AllocatorSpec}.

(** C29. Round trip of the jerasure plugin, for each of the seven techniques:
    with parameters for which the encoder and the decoder of the library are an
    erasure code, and without a chunk mapping and per-chunk alignment, an
    object is encoded into [k + m] chunks, and from any [k] of them [decode_concat] returns the
    object followed by its zero padding. *)
Theorem jerasure_roundtrip s raw :
  state_ok s → params_ok s → base_mapping s = [] → per_chunk_alignment s = false →
  bytes_ok raw → 0 < blen raw ≤ 2 ^ 32 - k s * align_unit s →
  ∃ enc bs, encode (codec s) (ids s) raw ∅ = Ret (0, enc)
    ∧ get_chunk_size s (blen raw) = Ret bs ∧ dom enc = ids s
    ∧ ∀ have, have ⊆ ids s → k s ≤ Z.of_nat (size have) →
        decode_concat (codec s) (select have enc)
        = Ret (0, raw ++ zeros (Z.to_nat (k s * bs - blen raw))).
Proof.
  intros Hs Hp Hmap Hpc Hok Hlen. pose proof (so_k _ Hs).
  destruct (decode_concat_encode (codec s) (2 ^ 32 - k s * align_unit s) (code_sizes s) (codeword s)
    (λ have _, k s ≤ Z.of_nat (size have)) raw)
    as (enc & bs & Henc & Hbs & Hdom & Hdec); [by apply jerasure_codec_spec|done..|].
  exists enc, bs. split_and!; [done..|]. intros have Hhave Hsize.
  pose proof (dom_select have enc ltac:(by rewrite Hdom)) as Hds.
  apply Hdec; [apply select_subseteq| |by right; rewrite Hds].
  intros He. rewrite He, dom_empty_L in Hds. rewrite <-Hds, size_empty in Hsize. lia.
Qed.

End theorems.

(** The chunk size, with an alignment for the whole stripe or for each
    chunk: [k] chunks hold the object without overflowing 32 bits, and the size
    is one the code can work on; with an alignment per chunk, an object whose
    chunks would be smaller than the alignment is refused by an assertion, and
    the packets of a Cauchy code have to fill vector words. *)
Theorem jerasure_chunk_size s len :
  params_ok s → 0 < k s → 0 < len → len + k s * (16 * align_unit s) ≤ 2 ^ 32 →
  tech s = cauchy_orig ∨ tech s = cauchy_good ∨ tech s = reed_sol_van ∨ per_chunk_alignment s = false →
  (per_chunk_alignment s = true → tech s ≠ reed_sol_van → (w s * packetsize s) mod 16 = 0) →
  (∃ bs, get_chunk_size s len = Ret bs ∧ 0 < bs ∧ len ≤ k s * bs < 2 ^ 32
     ∧ code_sizes s (Z.to_nat bs))
  ∨ per_chunk_alignment s = true ∧ (len + k s - 1) / k s < get_alignment s
    ∧ get_chunk_size s len = Abort AssertFailed.
Proof.
  intros Hp Hk Hlen Hmax Htech Hpack. pose proof (align_unit_pos s Hp) as Hu.
  destruct (per_chunk_alignment s) eqn:Hpc.
  2: { left. apply get_chunk_size_padded; (done || nia). }
  assert (∃ n, 0 < n ≤ 16 * align_unit s ∧ get_alignment s = n
    ∧ (∀ bs, 0 < bs → bs mod n = 0 → code_sizes s (Z.to_nat bs))) as (n & Hn & Hal & Hsz).
  { unfold get_alignment, van_get_alignment, r6_get_alignment, cauchy_get_alignment, liberation_get_alignment, code_sizes, align_unit, params_ok in *. rewrite Hpc.
    unfold sizeof_int, LARGEST_VECTOR_WORDSIZE in *.
    destruct Htech as [Ht|[Ht|[Ht|?]]]; [rewrite Ht in *..|done].
    - specialize (Hpack eq_refl ltac:(done)). assert (w s * packetsize s < 2 ^ 32) by (case_bool_decide; nia).
      rewrite u32_small by nia. rewrite Hpack, (bool_decide_false (0 ≠ 0)) by tauto.
      eexists. split; [|split; [done|]]; [case_bool_decide; nia|]. intros bs Hbs. rewrite Z2Nat.id by lia. done.
    - specialize (Hpack eq_refl ltac:(done)). assert (w s * packetsize s < 2 ^ 32) by (case_bool_decide; nia).
      rewrite u32_small by nia. rewrite Hpack, (bool_decide_false (0 ≠ 0)) by tauto.
      eexists. split; [|split; [done|]]; [case_bool_decide; nia|]. intros bs Hbs. rewrite Z2Nat.id by lia. done.
    - rewrite u32_small by lia. eexists. split; [|split; [done|]]; [case_bool_decide; nia|].
      intros bs Hbs Hm. rewrite Z2Nat.id by lia. apply Z.mod_divide in Hm as [q ->]; [|lia].
      apply Z.mod_divide; [lia|]. apply Z.divide_mul_r. destruct Hp as [-> | [-> | ->]]; by apply Z.mod_divide. }
  pose proof (get_chunk_size_per_chunk s len Hpc ltac:(nia) ltac:(lia) Hlen ltac:(nia)) as Hsize.
  cbv zeta in Hsize. case_bool_decide as Hle.
  - left. destruct Hsize as (bs & ? & ? & ? & Hm). exists bs. rewrite Hal in Hm. auto.
  - right. split; [done|]. split; [lia|done].
Qed.

(** ** Unchecked parameters *)

(** What the factory makes of a profile, in a form that can be evaluated. *)
Definition made_codec (profile : Profile) : option t :=
  let '(err, o, _) := factory profile in if bool_decide (err = 0) then o else None.

Lemma made_codec_factory profile s :
  made_codec profile = Some s → ∃ profile', factory profile = (0, Some s, profile').
Proof.
  unfold made_codec. destruct (factory profile) as [[err o] p].
  case_bool_decide as He; [|done]. intros ->. subst. by eexists.
Qed.

Definition small_packets : Profile :=
  {["technique" := "cauchy_good"; "k" := "2"; "m" := "1"; "w" := "7"; "packetsize" := "8";
    "jerasure-per-chunk-alignment" := "true"]}.

(** A Cauchy code with an alignment per chunk: the chunk size is padded to
    vector words and not to packets, so that with [w = 7] and packets of 8
    bytes, which the plugin accepts, the chunks of a 128-byte object have 64
    bytes and do not consist of 7 packets as the library requires. *)
Theorem jerasure_partial_packets :
  ∃ s profile, factory small_packets = (0, Some s, profile)
    ∧ get_chunk_size s 128 = Ret 64 ∧ ¬ code_sizes s 64.
Proof.
  assert ((λ s, (tech s, w s, packetsize s, get_chunk_size s 128)) <$> made_codec small_packets
    = Some (cauchy_good, 7, 8, Ret 64)) as H by (by vm_compute).
  apply fmap_Some in H as (s & Hs & [= Ht Hw Hp Hc]).
  destruct (made_codec_factory _ _ Hs) as [p Hf]. exists s, p. split; [done|]. split; [done|].
  unfold code_sizes. rewrite <-Ht, <-Hw, <-Hp. by vm_compute.
Qed.

(** The check of [k] is commented out, and nothing else refuses [k = 0]:
    the profile is accepted, and the first use of the codec divides by zero. *)
Theorem jerasure_k_zero_accepted :
  ∃ s profile, factory {["technique" := "reed_sol_van"; "k" := "0"; "m" := "1"]}
      = (0, Some s, profile)
    ∧ ∀ len, get_chunk_size s len = Abort DivByZero.
Proof.
  assert ((λ s, (tech s, k s, w s, per_chunk_alignment s))
      <$> made_codec {["technique" := "reed_sol_van"; "k" := "0"; "m" := "1"]}
    = Some (reed_sol_van, 0, 8, false)) as H by (by vm_compute).
  apply fmap_Some in H as (s & Hs & [= Ht Hk Hw Hp]).
  destruct (made_codec_factory _ _ Hs) as [p Hf]. exists s, p. split; [done|]. intros len.
  unfold get_chunk_size, get_alignment, van_get_alignment, r6_get_alignment, cauchy_get_alignment, liberation_get_alignment. by rewrite <-Ht, <-Hk, <-Hw, <-Hp.
Qed.

(** ** Witnesses *)

Definition van_4_2 : t := van_codec 4 2 "default" "host" ∅.

Lemma van_4_2_ok : state_ok van_4_2.
Proof.
  split; [by vm_compute..|]. apply l8_good_code; [by vm_compute|by vm_compute|done| | | |].
  - split; [by vm_compute|by vm_compute|by vm_compute|right; by vm_compute|by vm_compute|by vm_compute].
  - apply mds_check_ok. by vm_compute.
  - by vm_compute.
  - by vm_compute.
Qed.

Lemma jerasure_roundtrip_witness :
  ∃ enc bs, encode (codec van_4_2) (list_to_set (seqZ 0 6)) sample ∅ = Ret (0, enc)
    ∧ get_chunk_size van_4_2 (blen sample) = Ret bs
    ∧ decode_concat (codec van_4_2) (select {[0; 2; 4; 5]} enc)
      = Ret (0, sample ++ zeros (Z.to_nat (4 * bs - blen sample))).
Proof.
  destruct (jerasure_roundtrip van_4_2 sample van_4_2_ok) as (enc & bs & H1 & H2 & _ & H3).
  - by left.
  - reflexivity.
  - reflexivity.
  - apply sample_ok.
  - vm_compute. split; congruence.
  - exists enc, bs. split; [exact H1|]. split; [exact H2|].
    apply H3; [|by vm_compute]. apply (bool_decide_eq_true_1 _). by vm_compute.
Defined.

Lemma jerasure_chunk_size_witness :
  ∃ bs, get_chunk_size van_4_2 1000 = Ret bs ∧ 0 < bs ∧ 1000 ≤ 4 * bs < 2 ^ 32
    ∧ code_sizes van_4_2 (Z.to_nat bs).
Proof.
  destruct (jerasure_chunk_size van_4_2 1000) as [H|[H _]].
  - by left.
  - by vm_compute.
  - lia.
  - by vm_compute.
  - right; right; by left.
  - discriminate.
  - exact H.
  - discriminate.
Defined.
