(* ===== verification/LrcInit.v ===== *)
(** * The LRC plugin: from the profile to the layers

    [init], [parse_kml], [parse], [layers_description], [layers_parse],
    [layers_init] and [layers_sanity_checks] of
    src/src/erasure-code/lrc/ErasureCodeLrc.cc, and the factory of
    ErasureCodePluginLrc.cc. The registry of plugins, which makes the codec of
    each layer, is an interface; [PluginRegistry.factory] is its
    implementation. *)

From stdpp Require Import pretty.
From S2P Require Import Prelude Strtol StrMap ErasureCode CrushRules Ruleset PluginRegistry Lrc.

(** [ErasureCodePluginRegistry::factory] for the plugin of a name, with the
    state of the registry. *)
Class Registry (R : Type) := {
  registry_factory : R → string → string → Profile → outcome (Z * option instance * Profile * R);
}.

Module LrcInit.

Record Layer := mkLayer {
  erasure_code : option Codec;
  data : list Z;
  coding : list Z;
  chunks : list Z;
  chunks_as_set : gset Z;
  chunks_map : string;
  layer_profile : Profile;
}.

(** The object. *)
Record object := mkObject {
  layers : list Layer;
  directory : string;
  chunk_count : Z;
  data_chunk_count : Z;
  chunk_mapping : list Z;
  ruleset : Ruleset;
  profile_ : Profile;
}.

(** The constructors. *)
Definition new_layer (chunks_map : string) : Layer := mkLayer None [] [] [] ∅ chunks_map ∅.
Definition fresh (dir : string) : object :=
  mkObject [] dir 0 0 [] (mkRuleset "default" [mkRulesetStep "chooseleaf" "host" 0]) ∅.

Definition with_layers (o : object) (ls : list Layer) : object :=
  mkObject ls (directory o) (chunk_count o) (data_chunk_count o) (chunk_mapping o) (ruleset o)
    (profile_ o).
Definition with_mapping (o : object) (mapping : list Z) : object :=
  mkObject (layers o) (directory o) (chunk_count o) (data_chunk_count o) mapping (ruleset o)
    (profile_ o).
Definition with_ruleset (o : object) (rs : Ruleset) : object :=
  mkObject (layers o) (directory o) (chunk_count o) (data_chunk_count o) (chunk_mapping o) rs
    (profile_ o).

Record result := mkResult { r_err : Z; r_object : object; r_profile : Profile }.

(** ** The parameters k, m and l *)

Definition DEFAULT_KML : string := "-1".

Fixpoint chars_string (l : list ascii) : string :=
  match l with [] => "" | a :: l => String a (chars_string l) end.

(** [string (n, c)]: [n] is converted to [size_t], and a negative one is more
    than a string can hold. *)
Definition fill (n : Z) (c : ascii) : outcome string :=
  if bool_decide (n < 0) then Abort UncaughtException
  else Ret (chars_string (replicate (Z.to_nat n) c)).

(** A [for] loop with [n] rounds that appends to a string. *)
Definition append_rounds (n : Z) (body : Z → outcome string) (s : string) : outcome string :=
  foldM (λ s i, t ← body i; Ret (s +:+ t)) s (seqZ 0 n).

Definition quote : string := String (ascii_of_nat 34) "".
Definition open_entry : string := " [ " +:+ quote.
Definition close_entry : string := quote +:+ ", " +:+ quote +:+ quote +:+ " ],".

Definition kml_mapping (k m local_group_count : Z) : outcome string :=
  append_rounds local_group_count (λ _,
    d ← fill (k `quot` local_group_count) "D";
    c ← fill (m `quot` local_group_count) "_";
    Ret (d +:+ c +:+ "_")) "".

Definition global_map (k m local_group_count : Z) : outcome string :=
  append_rounds local_group_count (λ _,
    d ← fill (k `quot` local_group_count) "D";
    c ← fill (m `quot` local_group_count) "c";
    Ret (d +:+ c +:+ "_")) "".

Definition local_map (l local_group_count i : Z) : outcome string :=
  append_rounds local_group_count (λ j,
    if bool_decide (i = j) then d ← fill l "D"; Ret (d +:+ "c")
    else fill (l + 1) "_") "".

Definition kml_layers (k m l local_group_count : Z) : outcome string :=
  g ← global_map k m local_group_count;
  let layers := "[ " +:+ open_entry +:+ g +:+ close_entry in
  layers ← append_rounds local_group_count (λ i,
    t ← local_map l local_group_count i;
    Ret (open_entry +:+ t +:+ close_entry)) layers;
  Ret (layers +:+ "]").

Definition kml_steps (profile : Profile) (l local_group_count : Z) (rs : Ruleset) : Ruleset :=
  let ruleset_locality := default "" (profile !! "ruleset-locality") in
  let ruleset_failure_domain := default "host" (profile !! "ruleset-failure-domain") in
  if bool_decide (ruleset_locality ≠ "") then
    mkRuleset (ruleset_root rs)
      [mkRulesetStep "choose" ruleset_locality local_group_count;
       mkRulesetStep "chooseleaf" ruleset_failure_domain (l + 1)]
  else if bool_decide (ruleset_failure_domain ≠ "") then
    mkRuleset (ruleset_root rs) [mkRulesetStep "chooseleaf" ruleset_failure_domain 0]
  else rs.

Definition generated : list string := ["mapping"; "layers"; "ruleset-steps"].

Definition parse_kml (o : object) (profile : Profile) : outcome result :=
  let '(err, mapping) := ErasureCode.parse profile (chunk_mapping o) in
  let o := with_mapping o mapping in
  let pk := to_int "k" profile DEFAULT_KML in
  let pm := to_int "m" (p_profile pk) DEFAULT_KML in
  let pl := to_int "l" (p_profile pm) DEFAULT_KML in
  let err := err_or (err_or (err_or err (p_err pk)) (p_err pm)) (p_err pl) in
  let profile := p_profile pl in
  let k := p_value pk in let m := p_value pm in let l := p_value pl in
  if bool_decide (k = -1 ∧ m = -1 ∧ l = -1) then Ret (mkResult err o profile) else
  if bool_decide ((k ≠ -1 ∨ m ≠ -1 ∨ l ≠ -1) ∧ (k = -1 ∨ m = -1 ∨ l = -1)) then
    Ret (mkResult ERROR_LRC_ALL_OR_NOTHING o profile) else
  if bool_decide (Exists (λ g, is_Some (profile !! g)) generated) then
    Ret (mkResult ERROR_LRC_GENERATED o profile) else
  if bool_decide (k + m < INT_MIN ∨ INT_MAX < k + m) then Abort SignedOverflow else
  if bool_decide (l = 0) then Abort DivByZero else
  if bool_decide ((k + m) `rem` l ≠ 0) then Ret (mkResult ERROR_LRC_K_M_MODULO o profile) else
  let local_group_count := (k + m) `quot` l in
  if bool_decide (local_group_count = 0) then Abort DivByZero else
  if bool_decide (k `rem` local_group_count ≠ 0) then Ret (mkResult ERROR_LRC_K_MODULO o profile) else
  if bool_decide (m `rem` local_group_count ≠ 0) then Ret (mkResult ERROR_LRC_M_MODULO o profile) else
  mapping ← kml_mapping k m local_group_count;
  let profile := <["mapping" := mapping]> profile in
  layers ← kml_layers k m l local_group_count;
  let profile := <["layers" := layers]> profile in
  Ret (mkResult err (with_ruleset o (kml_steps profile l local_group_count (ruleset o))) profile).

(** ** Parsing *)

Section parsing.
Context `{JsonReader}.

Definition parse (o : object) (profile : Profile) : outcome result :=
  let '(r, mapping) := ErasureCode.parse profile (chunk_mapping o) in
  let o := with_mapping o mapping in
  if bool_decide (r ≠ 0) then Ret (mkResult r o profile) else
  '(err, rs, profile) ← parse_ruleset (ruleset o) profile;
  Ret (mkResult err (with_ruleset o rs) profile).

(** The description, or the error. *)
Definition layers_description (profile : Profile) : outcome (list json + Z) :=
  match profile !! "layers" with
  | None => Ret (inr ERROR_LRC_DESCRIPTION)
  | Some str =>
      match read_or_throw str with
      | None => Ret (inr ERROR_LRC_PARSE_JSON)
      | Some json =>
          if bool_decide (json_type json ≠ array_type) then Ret (inr ERROR_LRC_ARRAY) else
          description ← get_array json; Ret (inl description)
      end
  end.

(** [layers.back()]. *)
Definition update_back (ls : list Layer) (f : Layer → Layer) : outcome (list Layer) :=
  match reverse ls with
  | [] => Abort EmptyContainer
  | l :: rest => Ret (reverse (f l :: rest))
  end.

Definition with_layer_profile (l : Layer) (p : Profile) : Layer :=
  mkLayer (erasure_code l) (data l) (coding l) (chunks l) (chunks_as_set l) (chunks_map l) p.

(** Element [j] of the entry of a layer, at [index]: the error, or 0. *)
Definition parse_layer_element (ls : list Layer) (index : Z) (j : json) : outcome (Z * list Layer) :=
  if bool_decide (index = 0) then
    if bool_decide (json_type j ≠ str_type) then Ret (ERROR_LRC_STR, ls) else
    s ← get_str j; Ret (0, ls ++ [new_layer s])
  else if bool_decide (index = 1) then
    back ← need EmptyContainer (last ls);
    if bool_decide (json_type j ≠ str_type ∧ json_type j ≠ obj_type) then
      Ret (ERROR_LRC_CONFIG_OPTIONS, ls)
    else if bool_decide (json_type j = str_type) then
      s ← get_str j;
      '(err, p) ← get_json_str_map s (layer_profile back) true;
      ls ← update_back ls (λ l, with_layer_profile l p);
      Ret (err, ls)
    else
      members ← get_obj j;
      p ← add_members (layer_profile back) members;
      ls ← update_back ls (λ l, with_layer_profile l p);
      Ret (0, ls)
  else Ret (0, ls).

Fixpoint parse_layer (ls : list Layer) (index : Z) (layer_json : list json)
    : outcome (Z * list Layer) :=
  match layer_json with
  | [] => Ret (0, ls)
  | j :: layer_json =>
      '(err, ls) ← parse_layer_element ls index j;
      if bool_decide (err ≠ 0) then Ret (err, ls) else parse_layer ls (index + 1) layer_json
  end.

Fixpoint layers_parse (ls : list Layer) (description : list json) : outcome (Z * list Layer) :=
  match description with
  | [] => Ret (0, ls)
  | i :: description =>
      if bool_decide (json_type i ≠ array_type) then Ret (ERROR_LRC_ARRAY, ls) else
      layer_json ← get_array i;
      '(err, ls) ← parse_layer ls 0 layer_json;
      if bool_decide (err ≠ 0) then Ret (err, ls) else layers_parse ls description
  end.

(** ** The codecs of the layers *)

Definition is_c (a : ascii) : bool := bool_decide (a = "c"%char).

(** A missing parameter. *)
Definition set_missing (name value : string) (p : Profile) : Profile :=
  if bool_decide (p !! name = None) then <[name := value]> p else p.

(** The loop over the characters of [chunks_map], and the parameters that are
    not in the profile of the layer. *)
Definition describe_layer (l : Layer) : Layer :=
  let data := data l ++ positions is_D (chunks_map l) 0 in
  let coding := coding l ++ positions is_c (chunks_map l) 0 in
  let chunks_as_set := chunks_as_set l
    ∪ list_to_set (positions (λ a, is_c a || is_D a) (chunks_map l) 0) in
  let p := set_missing "k" (pretty (Z.of_nat (length data))) (layer_profile l) in
  let p := set_missing "m" (pretty (Z.of_nat (length coding))) p in
  let p := set_missing "plugin" "jerasure" p in
  let p := set_missing "technique" "reed_sol_van" p in
  mkLayer (erasure_code l) data coding (data ++ coding) chunks_as_set (chunks_map l) p.

Context {R : Type} `{Registry R}.

(** The layers from the first that is not initialised on. *)
Fixpoint layers_init (dir : string) (done todo : list Layer) (registry : R)
    : outcome (Z * list Layer * R) :=
  match todo with
  | [] => Ret (0, done, registry)
  | layer :: todo =>
      let layer := describe_layer layer in
      let p := layer_profile layer in
      '(err, ec, p, registry) ← registry_factory registry (default "" (p !! "plugin")) dir p;
      let layer := mkLayer (codec_of <$> ec) (data layer) (coding layer) (chunks layer)
                     (chunks_as_set layer) (chunks_map layer) p in
      if bool_decide (err ≠ 0) then Ret (err, done ++ layer :: todo, registry)
      else layers_init dir (done ++ [layer]) todo registry
  end.

Definition layers_sanity_checks (o : object) : Z :=
  if bool_decide (Z.of_nat (length (layers o)) < 1) then ERROR_LRC_LAYERS_COUNT
  else if bool_decide (Exists (λ l, chunk_count o ≠ Z.of_nat (String.length (chunks_map l))) (layers o))
  then ERROR_LRC_MAPPING_SIZE else 0.

Definition with_counts (o : object) (n k : Z) : object :=
  mkObject (layers o) (directory o) n k (chunk_mapping o) (ruleset o) (profile_ o).

Definition init (o : object) (profile : Profile) (registry : R) : outcome (result * R) :=
  r ← parse_kml o profile;
  if bool_decide (r_err r ≠ 0) then Ret (r, registry) else
  r ← parse (r_object r) (r_profile r);
  if bool_decide (r_err r ≠ 0) then Ret (r, registry) else
  let o := r_object r in
  let profile := r_profile r in
  d ← layers_description profile;
  match d with
  | inr err => Ret (mkResult err o profile, registry)
  | inl description =>
      '(err, ls) ← layers_parse (layers o) description;
      let o := with_layers o ls in
      if bool_decide (err ≠ 0) then Ret (mkResult err o profile, registry) else
      '(err, ls, registry) ← layers_init (directory o) [] (layers o) registry;
      let o := with_layers o ls in
      if bool_decide (err ≠ 0) then Ret (mkResult err o profile, registry) else
      match profile !! "mapping" with
      | None => Ret (mkResult ERROR_LRC_MAPPING o profile, registry)
      | Some mapping =>
          let o := with_counts o (Z.of_nat (String.length mapping))
                     (Z.of_nat (length (positions is_D mapping 0))) in
          let err := layers_sanity_checks o in
          if bool_decide (err ≠ 0) then Ret (mkResult err o profile, registry) else
          let profile :=
            if bool_decide (is_Some (profile !! "l") ∧ profile !! "l" ≠ Some DEFAULT_KML)
            then delete "layers" (delete "mapping" profile) else profile in
          let o := mkObject (layers o) (directory o) (chunk_count o) (data_chunk_count o)
                     (chunk_mapping o) (ruleset o) profile in
          Ret (mkResult 0 o profile, registry)
      end
  end.

(** [ErasureCodePluginLrc::factory]. *)
Definition factory (dir : string) (profile : Profile) (registry : R)
    : outcome (Z * option object * Profile * R) :=
  '(r, registry) ← init (fresh dir) profile registry;
  Ret (if bool_decide (r_err r ≠ 0) then (r_err r, None, r_profile r, registry)
       else (0, Some (r_object r), r_profile r, registry)).

End parsing.

(** The coder of an object whose layers all have a codec. *)
Definition coder_layer (l : Layer) : option Lrc.Layer :=
  ec ← erasure_code l; Some (Lrc.mkLayer ec (chunks l) (chunks_as_set l)).
Definition coder (o : object) : option Lrc.t :=
  ls ← mapM coder_layer (layers o);
  Some (Lrc.mk ls (chunk_count o) (data_chunk_count o) (chunk_mapping o)).

Definition create_ruleset (o : object) (name : string) (crush : CrushWrapper)
    : outcome (Z * CrushWrapper) :=
  Ruleset.create_ruleset (ruleset o) (chunk_count o) name crush.

End LrcInit.
