(* ===== verification/LrcKml.v ===== *)
(** * The LRC plugin: the code that k, m and l describe

    The texts that [parse_kml] generates, character by character; the layers
    that come out of them; and that the result is a code to which the theorems
    of LrcCorrect apply. *)

From stdpp Require Import pretty.
From S2P Require Import Prelude Strtol StrMap ErasureCode CrushRules Ruleset PluginRegistry Lrc LrcFacts LrcCorrect LrcInit.

Import LrcInit.

(** ** Texts *)

(** The text whose character at position [p] is [f p]. *)
Definition text (f : Z → ascii) (n : Z) : string := chars_string (f <$> seqZ 0 n).

Lemma chars_string_app l1 l2 : chars_string (l1 ++ l2) = chars_string l1 +:+ chars_string l2.
Proof.
  induction l1 as [|a l1 IH]; [done|]. cbn [app chars_string]. by rewrite IH.
Qed.

Lemma chars_string_length l : String.length (chars_string l) = length l.
Proof. induction l as [|a l IH]; [done|]. cbn. by rewrite IH. Qed.

Lemma text_length f n : 0 ≤ n → Z.of_nat (String.length (text f n)) = n.
Proof. intros. unfold text. rewrite chars_string_length, length_fmap, length_seqZ. lia. Qed.

Lemma positions_chars (p : ascii → bool) (f : Z → ascii) (len : nat) a :
  positions p (chars_string (f <$> seqZ a (Z.of_nat len))) a
  = filter (λ i, p (f i) = true) (seqZ a (Z.of_nat len)).
Proof.
  revert a. induction len as [|len IH]; intros a; [done|].
  rewrite seqZ_cons by lia. replace (Z.pred (Z.of_nat (S len))) with (Z.of_nat len) by lia.
  rewrite fmap_cons, filter_cons. cbn [chars_string positions].
  rewrite <-Z.add_1_r, IH. by destruct (p _).
Qed.

Lemma positions_text (p : ascii → bool) f n :
  0 ≤ n → positions p (text f n) 0 = filter (λ i, p (f i) = true) (seqZ 0 n).
Proof. intros Hn. unfold text. rewrite <-(Z2Nat.id n) by done. apply positions_chars. Qed.

Lemma string_app_nil s : s +:+ "" = s.
Proof.
  induction s as [|a s IH]; [done|]. change (String a (s +:+ "") = String a s). by rewrite IH.
Qed.
Lemma string_app_assoc s1 s2 s3 : s1 +:+ (s2 +:+ s3) = (s1 +:+ s2) +:+ s3.
Proof.
  induction s1 as [|a s1 IH]; [done|].
  change (String a (s1 +:+ (s2 +:+ s3)) = String a ((s1 +:+ s2) +:+ s3)). by rewrite IH.
Qed.

Lemma fill_text n c : 0 ≤ n → fill n c = Ret (chars_string ((λ _, c) <$> seqZ 0 n)).
Proof.
  intros Hn. unfold fill. rewrite bool_decide_false by lia. do 2 f_equal.
  apply list_eq. intros i. rewrite list_lookup_fmap.
  destruct (decide (i < Z.to_nat n)%nat) as [Hi|Hi].
  - rewrite lookup_replicate_2 by done.
    assert (seqZ 0 n !! i = Some (Z.of_nat i)) as -> by (apply lookup_seqZ; lia). done.
  - rewrite lookup_ge_None_2 by (rewrite length_replicate; lia).
    by rewrite lookup_ge_None_2 by (rewrite length_seqZ; lia).
Qed.

(** A loop whose rounds append texts of the same length. *)
Lemma append_rounds_text g width (body : Z → outcome string) (h : Z → Z → ascii) :
  0 ≤ g → 0 < width →
  (∀ i, 0 ≤ i < g → body i = Ret (chars_string (h i <$> seqZ 0 width))) →
  append_rounds g body "" = Ret (text (λ p, h (p / width) (p mod width)) (g * width)).
Proof.
  intros Hg Hw Hbody. unfold append_rounds.
  assert (∀ (c : nat), Z.of_nat c ≤ g →
    foldM (λ s i, t ← body i; Ret (s +:+ t)) "" (seqZ 0 (Z.of_nat c))
    = Ret (text (λ p, h (p / width) (p mod width)) (Z.of_nat c * width))) as Hgen.
  { induction c as [|c IH]; intros Hc; [done|].
    replace (Z.of_nat (S c)) with (Z.of_nat c + 1) by lia.
    rewrite seqZ_app by lia. rewrite foldM_app, IH by lia. cbn [mbind outcome_bind].
    rewrite seqZ_cons by lia. cbn [foldM]. rewrite Hbody by lia. cbn [mbind outcome_bind foldM].
    rewrite (seqZ_nil _ (Z.pred 1)) by lia. cbn [foldM]. f_equal.
    unfold text. replace ((Z.of_nat c + 1) * width) with (Z.of_nat c * width + width) by lia.
    rewrite seqZ_app, fmap_app, chars_string_app by nia. do 2 f_equal.
    apply list_eq. intros i. rewrite !list_lookup_fmap.
    destruct (decide (Z.of_nat i < width)) as [Hi|Hi].
    - assert (seqZ 0 width !! i = Some (Z.of_nat i)) as -> by (apply lookup_seqZ; lia).
      assert (seqZ (0 + Z.of_nat c * width) width !! i = Some (Z.of_nat c * width + Z.of_nat i)) as ->
        by (apply lookup_seqZ; lia).
      cbn. do 2 f_equal.
      + rewrite Z.div_add_l by lia. rewrite Z.div_small by lia. lia.
      + rewrite Z.add_comm, Z.mod_add by lia. by rewrite Z.mod_small by lia.
    - by rewrite !lookup_ge_None_2 by (rewrite length_seqZ; lia). }
  rewrite <-(Z2Nat.id g) by done. apply Hgen. lia.
Qed.

(** Three stretches of equal characters, the last one of length one. *)
Definition segment_char (a b : Z) (c1 c2 c3 : ascii) (j : Z) : ascii :=
  if bool_decide (j < a) then c1 else if bool_decide (j < a + b) then c2 else c3.

Lemma constant_text (f : Z → ascii) c s n :
  (∀ j, s ≤ j < s + n → f j = c) → f <$> seqZ s n = (λ _, c) <$> seqZ 0 n.
Proof.
  intros Hf. apply list_eq. intros i. rewrite !list_lookup_fmap.
  destruct (decide (Z.of_nat i < n)) as [Hi|Hi].
  - assert (seqZ s n !! i = Some (s + Z.of_nat i)) as -> by (apply lookup_seqZ; lia).
    assert (seqZ 0 n !! i = Some (Z.of_nat i)) as -> by (apply lookup_seqZ; lia).
    cbn. f_equal. apply Hf. lia.
  - by rewrite !lookup_ge_None_2 by (rewrite length_seqZ; lia).
Qed.

Lemma segment_text a b c1 c2 c3 :
  0 ≤ a → 0 ≤ b →
  chars_string ((λ _, c1) <$> seqZ 0 a) +:+ chars_string ((λ _, c2) <$> seqZ 0 b) +:+ String c3 ""
  = chars_string (segment_char a b c1 c2 c3 <$> seqZ 0 (a + b + 1)).
Proof.
  intros Ha Hb. rewrite !seqZ_app, !fmap_app, !chars_string_app by lia.
  rewrite (constant_text (segment_char a b c1 c2 c3) c1 0 a).
  2: { intros j Hj. unfold segment_char. by rewrite bool_decide_true by lia. }
  rewrite (constant_text (segment_char a b c1 c2 c3) c2 (0 + a) b).
  2: { intros j Hj. unfold segment_char. by rewrite bool_decide_false, bool_decide_true by lia. }
  rewrite (constant_text (segment_char a b c1 c2 c3) c3 (0 + (a + b)) 1).
  2: { intros j Hj. unfold segment_char. by rewrite !bool_decide_false by lia. }
  by rewrite string_app_assoc.
Qed.

(** The text of the [layers] parameter with the given maps. *)
Definition layers_text (maps : list string) : string :=
  "[ " +:+ foldr (λ s t, open_entry +:+ s +:+ close_entry +:+ t) "]" maps.

Lemma append_entries (maps : Z → string) (body : Z → outcome string) (ids : list Z) s rest :
  (∀ i, i ∈ ids → body i = Ret (open_entry +:+ maps i +:+ close_entry)) →
  ∃ t, foldM (λ s i, t ← body i; Ret (s +:+ t)) s ids = Ret t
    ∧ t +:+ rest = s +:+ foldr (λ s t, open_entry +:+ s +:+ close_entry +:+ t) rest (maps <$> ids).
Proof.
  revert s. induction ids as [|i ids IH]; intros s Hb; cbn [foldM fmap list_fmap foldr]; [by eexists|].
  rewrite Hb by left. cbn [mbind outcome_bind].
  destruct (IH (s +:+ (open_entry +:+ maps i +:+ close_entry))) as (t & -> & Ht).
  { intros j Hj. apply Hb. by right. }
  exists t. split; [done|]. rewrite Ht. by rewrite !string_app_assoc.
Qed.

(** ** Counting positions *)

Lemma length_filter_range s e w :
  0 ≤ s ≤ e → e ≤ w → Z.of_nat (length (filter (λ q, s ≤ q < e) (seqZ 0 w))) = e - s.
Proof.
  intros Hs He. replace w with (s + ((e - s) + (w - e))) by lia.
  rewrite !seqZ_app, !filter_app by lia.
  rewrite (filter_none _ (seqZ 0 s)), (filter_all _ (seqZ (0 + s) _)),
    (filter_none _ (seqZ (0 + s + _) _));
    [|intros q Hq%elem_of_seqZ; lia..].
  rewrite app_nil_r. cbn [app]. rewrite length_seqZ. lia.
Qed.

(** A test on the position within a group and the number of the group. *)
Lemma filter_blocks (Q : Z → Z → Prop) `{∀ i q, Decision (Q i q)} (c : nat) w :
  0 < w →
  filter (λ p, Q (p / w) (p mod w)) (seqZ 0 (Z.of_nat c * w))
  = concat ((λ i, (λ q, i * w + q) <$> filter (Q i) (seqZ 0 w)) <$> seqZ 0 (Z.of_nat c)).
Proof.
  intros Hw. induction c as [|c IH]; [done|].
  replace (Z.of_nat (S c)) with (Z.of_nat c + 1) by lia.
  rewrite Z.mul_add_distr_r, Z.mul_1_l, (seqZ_app _ (Z.of_nat c * w)), filter_app, IH by nia.
  rewrite (seqZ_app _ (Z.of_nat c)), fmap_app, concat_app by lia. f_equal.
  rewrite (seqZ_cons (0 + Z.of_nat c) 1), (seqZ_nil _ (Z.pred 1)) by lia. cbn [fmap list_fmap concat].
  rewrite app_nil_r. generalize (Z.of_nat c) as i. intros i.
  assert (seqZ (0 + i * w) w = (λ q, i * w + q) <$> seqZ 0 w) as ->.
  { rewrite Z.add_0_l, <-(Z.add_0_r (i * w)) at 1. by rewrite fmap_add_seqZ. }
  rewrite filter_fmap. cbn. f_equal. apply filter_ext. intros q Hq%elem_of_seqZ. cbn.
  rewrite Z.div_add_l, Z.div_small, Z.add_0_r by lia.
  by rewrite Z.add_comm, Z.mod_add, Z.mod_small by lia.
Qed.

Lemma length_filter_blocks (Q : Z → Z → Prop) `{∀ i q, Decision (Q i q)} (len : Z → nat) (c : nat) w :
  0 < w → (∀ i, 0 ≤ i < Z.of_nat c → length (filter (Q i) (seqZ 0 w)) = len i) →
  length (filter (λ p, Q (p / w) (p mod w)) (seqZ 0 (Z.of_nat c * w)))
  = sum_list (len <$> seqZ 0 (Z.of_nat c)).
Proof.
  intros Hw Hlen. rewrite filter_blocks by done. rewrite concat_length. f_equal.
  rewrite <-list_fmap_compose. apply list_fmap_ext. intros j i [-> Hi]%lookup_seqZ. cbn.
  rewrite length_fmap. apply Hlen. lia.
Qed.

(** ** The parameters *)

Section kml.
(** [g] groups of [l = a + b] chunks and a local coding chunk. *)
Context (g a b : Z) (Hg : 0 < g) (Ha : 0 < a) (Hb : 0 ≤ b).
#[local] Abbreviation k := (g * a).
#[local] Abbreviation m := (g * b).
#[local] Abbreviation l := (a + b).
#[local] Abbreviation width := (a + b + 1).
#[local] Abbreviation n := (g * (a + b + 1)).

Definition mapping_char (p : Z) : ascii := segment_char a b "D" "_" "_" (p mod width).
Definition global_char (p : Z) : ascii := segment_char a b "D" "c" "_" (p mod width).
Definition local_char (i p : Z) : ascii :=
  if bool_decide (i = p / width) then segment_char l 0 "D" "D" "c" (p mod width) else "_"%char.

Definition maps : list string := text global_char n :: ((λ i, text (local_char i) n) <$> seqZ 0 g).

Lemma kml_mapping_text : kml_mapping k m g = Ret (text mapping_char n).
Proof.
  unfold kml_mapping. rewrite !(Z.mul_comm g), !Z.quot_mul by lia.
  rewrite (append_rounds_text g width _ (λ _, segment_char a b "D" "_" "_")); [|lia..|].
  - unfold text. by rewrite (Z.mul_comm g).
  - intros i Hi. rewrite !fill_text by lia. cbn [mbind outcome_bind].
    change "_" with (String "_" ""). by rewrite segment_text by lia.
Qed.

Lemma global_map_text : global_map k m g = Ret (text global_char n).
Proof.
  unfold global_map. rewrite !(Z.mul_comm g), !Z.quot_mul by lia.
  rewrite (append_rounds_text g width _ (λ _, segment_char a b "D" "c" "_")); [|lia..|].
  - unfold text. by rewrite (Z.mul_comm g).
  - intros i Hi. rewrite !fill_text by lia. cbn [mbind outcome_bind].
    change "_" with (String "_" ""). by rewrite segment_text by lia.
Qed.

Lemma local_map_text i : local_map l g i = Ret (text (local_char i) n).
Proof.
  unfold local_map. rewrite (append_rounds_text g width _ (λ j q,
    if bool_decide (i = j) then segment_char l 0 "D" "D" "c" q else "_"%char)); [done|lia..|].
  intros j Hj. case_bool_decide.
  - rewrite fill_text by lia. cbn [mbind outcome_bind].
    pose proof (segment_text l 0 "D" "D" "c" ltac:(lia) ltac:(lia)) as Hs.
    rewrite (seqZ_nil 0 0) in Hs by lia. rewrite Z.add_0_r in Hs. f_equal. exact Hs.
  - by rewrite fill_text by lia.
Qed.

Lemma kml_layers_text : kml_layers k m l g = Ret (layers_text maps).
Proof.
  unfold kml_layers. rewrite global_map_text. cbn [mbind outcome_bind]. unfold append_rounds.
  set (s0 := "[ " +:+ _).
  destruct (append_entries (λ i, text (local_char i) n)
    (λ i, t ← local_map l g i; Ret (open_entry +:+ t +:+ close_entry)) (seqZ 0 g) s0 "]")
    as (t & -> & Ht).
  { intros i _. by rewrite local_map_text. }
  cbn [mbind outcome_bind]. rewrite Ht. unfold layers_text, maps, s0. cbn [foldr].
  by rewrite !string_app_assoc.
Qed.

(** ** The layers *)

Definition D_of (f : Z → ascii) : list Z := filter (λ p, is_D (f p) = true) (seqZ 0 n).
Definition c_of (f : Z → ascii) : list Z := filter (λ p, is_c (f p) = true) (seqZ 0 n).

Ltac char_cases :=
  repeat case_bool_decide; split; intros Hchar; first [lia|reflexivity|by vm_compute in Hchar].

Lemma is_D_segment c2 c3 j a0 b0 :
  is_D c2 = false → is_D c3 = false → is_D (segment_char a0 b0 "D" c2 c3 j) = true ↔ j < a0.
Proof.
  intros H2 H3. unfold segment_char. case_bool_decide; [done|].
  split; [|lia]. case_bool_decide; congruence.
Qed.

Lemma elem_of_D_mapping p : p ∈ D_of mapping_char ↔ 0 ≤ p < n ∧ p mod width < a.
Proof.
  unfold D_of, mapping_char. rewrite list_elem_of_filter, is_D_segment, elem_of_seqZ by done. tauto.
Qed.

Lemma elem_of_D_global p : p ∈ D_of global_char ↔ 0 ≤ p < n ∧ p mod width < a.
Proof.
  unfold D_of, global_char. rewrite list_elem_of_filter, is_D_segment, elem_of_seqZ by done. tauto.
Qed.

Lemma is_c_global p : is_c (global_char p) = true ↔ a ≤ p mod width < l.
Proof. unfold global_char, segment_char. char_cases. Qed.

Lemma elem_of_c_global p : p ∈ c_of global_char ↔ 0 ≤ p < n ∧ a ≤ p mod width < l.
Proof. unfold c_of. rewrite list_elem_of_filter, is_c_global, elem_of_seqZ. tauto. Qed.

Lemma is_D_local i p : is_D (local_char i p) = true ↔ i = p / width ∧ p mod width < l.
Proof.
  unfold local_char. case_bool_decide; [|split; [done|tauto]].
  unfold segment_char. char_cases.
Qed.

Lemma is_c_local i p : is_c (local_char i p) = true ↔ i = p / width ∧ l ≤ p mod width.
Proof.
  unfold local_char. case_bool_decide; [|split; [done|tauto]].
  unfold segment_char. char_cases.
Qed.

Lemma elem_of_D_local i p : p ∈ D_of (local_char i) ↔ 0 ≤ p < n ∧ i = p / width ∧ p mod width < l.
Proof. unfold D_of. rewrite list_elem_of_filter, is_D_local, elem_of_seqZ. tauto. Qed.

Lemma elem_of_c_local i p : p ∈ c_of (local_char i) ↔ 0 ≤ p < n ∧ i = p / width ∧ l ≤ p mod width.
Proof. unfold c_of. rewrite list_elem_of_filter, is_c_local, elem_of_seqZ. tauto. Qed.

(** The numbers of characters. *)
Lemma length_segment s e :
  0 ≤ s ≤ e → e ≤ width →
  Z.of_nat (length (filter (λ p, s ≤ p mod width < e) (seqZ 0 n))) = g * (e - s).
Proof.
  intros Hs He.
  pose proof (length_filter_blocks (λ _ q, s ≤ q < e) (λ _, Z.to_nat (e - s)) (Z.to_nat g) width) as Hl.
  rewrite Z2Nat.id in Hl by lia. rewrite Hl; [|lia|].
  - rewrite sum_list_fmap_const, length_seqZ. rewrite Nat2Z.inj_mul, !Z2Nat.id by lia. done.
  - intros i _. pose proof (length_filter_range s e width Hs He). lia.
Qed.

(** A test within one group. *)
Lemma length_group i s e :
  0 ≤ i < g → 0 ≤ s ≤ e → e ≤ width →
  Z.of_nat (length (filter (λ p, i = p / width ∧ s ≤ p mod width < e) (seqZ 0 n))) = e - s.
Proof.
  intros Hi Hs He.
  pose proof (filter_blocks (λ j q, i = j ∧ s ≤ q < e) (Z.to_nat g) width ltac:(lia)) as Hl.
  rewrite Z2Nat.id in Hl by lia. rewrite Hl. clear Hl.
  replace g with (i + (1 + (g - i - 1))) by lia.
  rewrite (seqZ_app _ i), (seqZ_app _ 1), !fmap_app, !concat_app by lia.
  assert (∀ s0 c, (∀ j, s0 ≤ j < s0 + c → j ≠ i) →
    concat ((λ i0, (λ q, i0 * width + q) <$> filter (λ q, i = i0 ∧ s ≤ q < e) (seqZ 0 width))
      <$> seqZ s0 c) = []) as Hnil.
  { intros s0 c Hc. apply concat_nil_Forall, Forall_fmap, Forall_forall.
    intros j Hj%elem_of_seqZ. cbn. rewrite filter_none; [done|]. intros q _ [-> _]. by apply (Hc j). }
  rewrite Hnil by lia. rewrite (Hnil (0 + i + 1)) by lia.
  assert (seqZ (0 + i) 1 = [i]) as -> by done. cbn [fmap list_fmap concat app].
  rewrite !app_nil_r, length_fmap.
  rewrite (filter_ext _ (λ q, s ≤ q < e)) by (intros q _; lia).
  by apply length_filter_range.
Qed.

Lemma length_D_mapping : Z.of_nat (length (D_of mapping_char)) = k.
Proof.
  rewrite <-(Z.sub_0_r a), <-length_segment by lia. do 2 f_equal. apply filter_ext.
  intros p _. unfold mapping_char. rewrite is_D_segment by done.
  pose proof (Z.mod_pos_bound p width ltac:(lia)). lia.
Qed.

Lemma length_D_global : Z.of_nat (length (D_of global_char)) = k.
Proof.
  rewrite <-(Z.sub_0_r a), <-length_segment by lia. do 2 f_equal. apply filter_ext.
  intros p _. unfold global_char. rewrite is_D_segment by done.
  pose proof (Z.mod_pos_bound p width ltac:(lia)). lia.
Qed.

Lemma length_c_global : Z.of_nat (length (c_of global_char)) = m.
Proof.
  replace b with (l - a) by lia. rewrite <-length_segment by lia. do 2 f_equal. apply filter_ext.
  intros p _. apply is_c_global.
Qed.

Lemma length_D_local i : 0 ≤ i < g → Z.of_nat (length (D_of (local_char i))) = l.
Proof.
  intros Hi. rewrite <-(Z.sub_0_r l), <-(length_group i) by lia. do 2 f_equal. apply filter_ext.
  intros p _. rewrite is_D_local. pose proof (Z.mod_pos_bound p width ltac:(lia)). lia.
Qed.

Lemma length_c_local i : 0 ≤ i < g → Z.of_nat (length (c_of (local_char i))) = 1.
Proof.
  intros Hi. replace 1 with (width - l) by lia. rewrite <-(length_group i) by lia.
  do 2 f_equal. apply filter_ext. intros p _. rewrite is_c_local.
  pose proof (Z.mod_pos_bound p width ltac:(lia)). lia.
Qed.

Section code.
Context (max_len : Z) (sizes : nat → Prop) (CW : Z → Z → nat → gmap Z bytes → Prop).

(** A layer of the coder with the chunks that the map [f] gives it, over a
    codec for [k0] data and [m0] coding chunks. *)
Record layer_from (f : Z → ascii) (k0 m0 : Z) (L : Lrc.Layer) : Prop := {
  lf_chunks : Lrc.chunks L = D_of f ++ c_of f;
  lf_set : Lrc.chunks_as_set L = list_to_set (D_of f ++ c_of f);
  lf_data : get_data_chunk_count (Lrc.erasure_code L) = k0;
  lf_count : get_chunk_count (Lrc.erasure_code L) = k0 + m0;
  lf_mds : MdsSpec (Lrc.erasure_code L) sizes (CW k0 m0);
  lf_size len : 0 < len ≤ max_len →
    ∃ bs, get_chunk_size (Lrc.erasure_code L) len = Ret bs ∧ 0 < bs
      ∧ len ≤ k0 * bs < 2 ^ 32 ∧ sizes (Z.to_nat bs);
}.

(** The codewords of a layer, by the counts of its codec. *)
Definition layer_cw (L : Lrc.Layer) : nat → gmap Z bytes → Prop :=
  CW (get_data_chunk_count (Lrc.erasure_code L)) (get_coding_chunk_count (Lrc.erasure_code L)).

Lemma layer_from_ok f k0 m0 L :
  (∀ p, is_D (f p) = true → is_c (f p) = true → False) →
  Z.of_nat (length (D_of f)) = k0 → Z.of_nat (length (c_of f)) = m0 →
  layer_from f k0 m0 L → layer_ok sizes layer_cw n L.
Proof.
  intros Hdisj HD Hc [Hch Hset Hdata Hcount Hmds _]. split.
  - rewrite Hch. apply NoDup_app. split; [apply NoDup_filter, NoDup_seqZ|].
    split; [|apply NoDup_filter, NoDup_seqZ].
    intros p [Hp _]%list_elem_of_filter [Hp' _]%list_elem_of_filter. by apply (Hdisj p).
  - by rewrite Hset, Hch.
  - intros c. rewrite Hch, elem_of_app. unfold D_of, c_of.
    rewrite !list_elem_of_filter, elem_of_seqZ. tauto.
  - rewrite Hch, length_app, Hcount. lia.
  - unfold layer_cw, get_coding_chunk_count. rewrite Hdata, Hcount.
    by replace (k0 + m0 - k0) with m0 by lia.
Qed.

Lemma layer_from_coding f k0 m0 L :
  0 ≤ k0 < 2 ^ 32 → Z.of_nat (length (D_of f)) = k0 → layer_from f k0 m0 L →
  LrcFacts.coding L = c_of f.
Proof.
  intros Hk HD [Hch _ Hdata _ _ _]. unfold LrcFacts.coding, Lrc.data_count. rewrite Hdata, u32_small, Hch by lia.
  rewrite <-HD, Nat2Z.id. apply drop_app_length.
Qed.

(** The state that a coder gets from the parameters. *)
Record kml_state (s : Lrc.t) (Lg : Lrc.Layer) (Ls : list Lrc.Layer) : Prop := {
  ks_layers : Lrc.layers s = Lg :: Ls;
  ks_count : Lrc.chunk_count s = n;
  ks_data : Lrc.data_chunk_count s = k;
  ks_mapping : Lrc.base_mapping s = mapping_positions (text mapping_char n);
  ks_global : layer_from global_char k m Lg;
  ks_local : Forall2 (λ i L, layer_from (local_char i) l 1 L) (seqZ 0 g) Ls;
}.

Context (s : Lrc.t) (Lg : Lrc.Layer) (Ls : list Lrc.Layer) (Hks : kml_state s Lg Ls).
Context (Hn32 : n < 2 ^ 32) (Hg2 : 2 ≤ g).

Lemma local_layer_inv L : L ∈ Ls → ∃ i, 0 ≤ i < g ∧ layer_from (local_char i) l 1 L.
Proof.
  intros [j Hj]%list_elem_of_lookup.
  destruct (Forall2_lookup_r _ _ _ _ _ (ks_local _ _ _ Hks) Hj) as (i & [-> Hi]%lookup_seqZ & HL).
  exists (0 + Z.of_nat j). split; [lia|done].
Qed.

Lemma local_disjoint i p : is_D (local_char i p) = true → is_c (local_char i p) = true → False.
Proof. rewrite is_D_local, is_c_local. lia. Qed.
Lemma global_disjoint p : is_D (global_char p) = true → is_c (global_char p) = true → False.
Proof. unfold global_char at 1. rewrite is_D_segment, is_c_global by done. lia. Qed.

Lemma local_coding i L : 0 ≤ i < g → layer_from (local_char i) l 1 L → LrcFacts.coding L = c_of (local_char i).
Proof. intros Hi. apply layer_from_coding; [nia|by apply length_D_local]. Qed.
Lemma global_coding : LrcFacts.coding Lg = c_of global_char.
Proof. apply (layer_from_coding _ k m); [nia|apply length_D_global|apply (ks_global _ _ _ Hks)]. Qed.

(** The coding chunk of a group is in no other layer. *)
Lemma local_coding_fresh i p L :
  p ∈ c_of (local_char i) → L = Lg ∨ (∃ j, i ≠ j ∧ layer_from (local_char j) l 1 L) →
  p ∉ Lrc.chunks L.
Proof.
  intros (Hp & Hi & Hl)%elem_of_c_local [->|(j & Hne & HL)].
  - rewrite (lf_chunks _ _ _ _ (ks_global _ _ _ Hks)), elem_of_app, elem_of_D_global, elem_of_c_global. lia.
  - rewrite (lf_chunks _ _ _ _ HL), elem_of_app, elem_of_D_local, elem_of_c_local. lia.
Qed.

Lemma locals_ordered a0 c Ls0 :
  Forall2 (λ i L, layer_from (local_char i) l 1 L) (seqZ a0 c) Ls0 → 0 ≤ a0 → a0 + c ≤ g →
  layers_ordered Ls0.
Proof.
  revert a0 c. induction Ls0 as [|L Ls0 IH]; intros a0 c HF Ha0 Hc; [done|].
  destruct (decide (0 < c)) as [Hpos|]; [|rewrite seqZ_nil in HF by lia; inversion HF].
  rewrite seqZ_cons in HF by done. apply Forall2_cons in HF as [HL HF]. cbn. split.
  - apply Forall_forall. intros L' [j Hj]%list_elem_of_lookup p Hp.
    destruct (Forall2_lookup_r _ _ _ _ _ HF Hj) as (i & [-> Hi]%lookup_seqZ & HL').
    rewrite (local_coding (Z.succ a0 + Z.of_nat j)) in Hp by (done || lia).
    apply (local_coding_fresh (Z.succ a0 + Z.of_nat j) p L Hp). right. exists a0. split; [lia|done].
  - apply (IH (Z.succ a0) (Z.pred c)); [done|lia..].
Qed.

Lemma kml_data_position i : 0 ≤ i < k → chunk_index (Lrc.base_mapping s) i ∈ D_of mapping_char.
Proof.
  intros Hi. rewrite (ks_mapping _ _ _ Hks). unfold mapping_positions.
  rewrite (positions_text is_D) by nia. fold (D_of mapping_char).
  set (rest := positions _ _ _). pose proof length_D_mapping.
  unfold chunk_index. rewrite bool_decide_true by (rewrite length_app; lia).
  rewrite lookup_app_l by lia.
  destruct (lookup_lt_is_Some_2 (D_of mapping_char) (Z.to_nat i)) as [p Hp]; [lia|].
  rewrite Hp. by eapply list_elem_of_lookup_2.
Qed.

Lemma kml_state_ok : state_ok sizes layer_cw s.
Proof.
  pose proof (ks_global _ _ _ Hks) as HG. split.
  - rewrite (ks_data _ _ _ Hks), (ks_count _ _ _ Hks). nia.
  - by rewrite (ks_count _ _ _ Hks).
  - right. rewrite (ks_mapping _ _ _ Hks), (ks_count _ _ _ Hks), mapping_positions_perm, text_length by nia.
    done.
  - rewrite (ks_layers _ _ _ Hks), (ks_count _ _ _ Hks). constructor.
    + apply (layer_from_ok global_char k m); [apply global_disjoint|apply length_D_global|apply length_c_global|done].
    + apply Forall_forall. intros L (i & Hi & HL)%local_layer_inv.
      by apply (layer_from_ok (local_char i) l 1); [apply local_disjoint|apply length_D_local|apply length_c_local|].
  - rewrite (ks_layers _ _ _ Hks). cbn. split.
    + apply Forall_forall. intros L (i & Hi & HL)%local_layer_inv p Hp.
      rewrite (local_coding i) in Hp by done. apply (local_coding_fresh i p Lg Hp). by left.
    + apply (locals_ordered 0 g); [apply (ks_local _ _ _ Hks)|lia..].
  - rewrite (ks_layers _ _ _ Hks), (ks_data _ _ _ Hks). constructor.
    + intros i (Hp & Ha')%kml_data_position%elem_of_D_mapping.
      rewrite global_coding, elem_of_c_global. lia.
    + apply Forall_forall. intros L (j & Hj & HL)%local_layer_inv i (Hp & Ha')%kml_data_position%elem_of_D_mapping.
      rewrite (local_coding j), elem_of_c_local by done. lia.
  - rewrite (ks_layers _ _ _ Hks), (ks_count _ _ _ Hks). cbn [tail].
    apply Forall_forall. intros L (i & Hi & HL)%local_layer_inv Hsub.
    rewrite (lf_set _ _ _ _ HL) in Hsub.
    set (j := if bool_decide (i = 0) then 1 else 0).
    assert (j * width ∈ (list_to_set (D_of (local_char i) ++ c_of (local_char i)) : gset Z)) as Hj.
    { apply Hsub, elem_of_ids. unfold j. case_bool_decide; nia. }
    rewrite elem_of_list_to_set, elem_of_app, elem_of_D_local, elem_of_c_local in Hj.
    rewrite Z.div_mul in Hj by lia. unfold j in Hj. case_bool_decide; lia.
Qed.

(** A lost chunk is repaired from its group. *)
Lemma elem_of_local i L c :
  layer_from (local_char i) l 1 L → c ∈ Lrc.chunks_as_set L ↔ 0 ≤ c < n ∧ c / width = i.
Proof.
  intros HL. rewrite (lf_set _ _ _ _ HL), elem_of_list_to_set, elem_of_app, elem_of_D_local, elem_of_c_local.
  lia.
Qed.

Lemma kml_repair c :
  0 ≤ c < n →
  ∃ minimum, Lrc.minimum_to_decode s {[c]} (list_to_set (seqZ 0 n) ∖ {[c]}) ∅ = (0, minimum)
    ∧ Z.of_nat (size minimum) = l
    ∧ ∀ i, i ∈ minimum → i ≠ c ∧ 0 ≤ i < n ∧ i / width = c / width.
Proof.
  intros Hc. pose proof (ks_local _ _ _ Hks) as HF.
  assert (0 ≤ c / width < g) as Hi.
  { split; [apply Z.div_pos; lia|apply Z.div_lt_upper_bound; lia]. }
  assert (seqZ 0 g !! Z.to_nat (c / width) = Some (c / width)) as Hlook by (apply lookup_seqZ; lia).
  destruct (Forall2_lookup_l _ _ _ _ _ HF Hlook) as (L & HL & HLf).
  pose proof (take_drop_middle _ _ _ HL) as Hsplit.
  assert (layer_ok sizes layer_cw n L) as HLok.
  { by apply (layer_from_ok (local_char (c / width)) l 1); [apply local_disjoint|apply length_D_local|apply length_c_local|]. }
  destruct (layer_counts _ _ _ _ HLok) as (Hcc & Hdc & _).
  destruct (lrc_local_repair sizes layer_cw s (Lg :: take (Z.to_nat (c / width)) Ls) L
    (drop (S (Z.to_nat (c / width))) Ls) c) as (mi & Hmin & Hsub & Hsize).
  - apply kml_state_ok.
  - rewrite (ks_layers _ _ _ Hks). cbn [app]. by rewrite Hsplit.
  - apply (elem_of_local _ _ _ HLf). done.
  - apply Forall_forall. intros L' [j Hj]%list_elem_of_lookup Hin. rewrite lookup_drop in Hj.
    destruct (Forall2_lookup_r _ _ _ _ _ HF Hj) as (i & [-> _]%lookup_seqZ & HL').
    apply (elem_of_local _ _ _ HL') in Hin. lia.
  - rewrite Hcc, (lo_count _ _ _ _ HLok), (lf_count _ _ _ _ HLf), (lf_data _ _ _ _ HLf). lia.
  - exists mi. rewrite <-(ks_count _ _ _ Hks) at 1. split; [done|].
    split; [by rewrite Hsize, Hdc, (lf_data _ _ _ _ HLf)|].
    intros i [Hi1 Hi2]%Hsub%elem_of_difference. apply (elem_of_local _ _ _ HLf) in Hi1. set_solver.
Qed.

Lemma kml_chunk_size : chunk_size_ok sizes s max_len.
Proof.
  intros len Hlen. unfold Lrc.get_chunk_size. rewrite (ks_layers _ _ _ Hks), (ks_data _ _ _ Hks).
  by apply (lf_size _ _ _ _ (ks_global _ _ _ Hks)).
Qed.

(** A local layer repairs one lost chunk. *)
Lemma peel_local i L (E : gset Z) c :
  0 ≤ i < g → layer_from (local_char i) l 1 L → Lrc.chunks_as_set L ∩ E ⊆ {[c]} →
  Lrc.peel_layer E L = E ∖ Lrc.chunks_as_set L.
Proof.
  intros Hi HL HE.
  assert (layer_ok sizes layer_cw n L) as HLok.
  { by apply (layer_from_ok (local_char i) l 1); [apply local_disjoint|apply length_D_local|apply length_c_local|]. }
  rewrite (peel_layer_spec sizes layer_cw n) by done.
  destruct (layer_counts _ _ _ _ HLok) as (Hcc & _ & _).
  rewrite (lo_set _ _ _ _ HLok) in HE |- *. rewrite bool_decide_true; [done|].
  rewrite Hcc, (lo_count _ _ _ _ HLok), (lf_count _ _ _ _ HL), (lf_data _ _ _ _ HL).
  apply subseteq_size in HE. rewrite size_singleton in HE. lia.
Qed.

Lemma peel_locals ids0 Ls0 (E : gset Z) (lost : Z → Z) :
  Forall2 (λ i L, layer_from (local_char i) l 1 L) ids0 Ls0 →
  (∀ i, i ∈ ids0 → 0 ≤ i < g) → (∀ c, c ∈ E → 0 ≤ c < n ∧ c = lost (c / width)) →
  ∀ c, c ∈ foldl Lrc.peel_layer E Ls0 → c ∈ E ∧ c / width ∉ ids0.
Proof.
  intros HF. revert E. induction HF as [|i L ids0 Ls0 HL HF IH]; intros E Hids HE c Hc.
  { split; [done|]. apply not_elem_of_nil. }
  cbn [foldl] in Hc. rewrite (peel_local i L E (lost i)) in Hc; [|apply Hids; left|done|].
  2: { intros c' [H1 H2]%elem_of_intersection. apply (elem_of_local _ _ _ HL) in H1 as [_ <-].
       apply elem_of_singleton. by apply HE. }
  apply IH in Hc as [[H1 H2]%elem_of_difference H3]; [|intros; apply Hids; by right|].
  2: { intros c' [? _]%elem_of_difference. by apply HE. }
  split; [done|]. rewrite (elem_of_local _ _ _ HL) in H2. pose proof (HE _ H1).
  rewrite not_elem_of_cons. tauto.
Qed.

(** The chunks that are left when each group has lost at most one chunk. *)
Lemma kml_recoverable (have want : gset Z) (lost : Z → Z) :
  (∀ c, 0 ≤ c < n → c ∉ have → c = lost (c / width)) → recoverable s have want.
Proof.
  intros Hlost. unfold recoverable. rewrite (ks_layers _ _ _ Hks), (ks_count _ _ _ Hks).
  rewrite reverse_cons, foldl_app. apply set_eq. intros c. split; [|set_solver].
  intros [Hc _]%elem_of_intersection. apply peel_subseteq in Hc.
  apply (peel_locals (reverse (seqZ 0 g)) _ _ lost) in Hc as [H1 H2].
  - exfalso. apply H2. apply elem_of_reverse, elem_of_seqZ.
    apply elem_of_difference in H1 as [H1%elem_of_ids _].
    split; [apply Z.div_pos; lia|]. rewrite Z.add_0_l. apply Z.div_lt_upper_bound; lia.
  - by apply Forall2_reverse, (ks_local _ _ _ Hks).
  - intros i Hi%elem_of_reverse%elem_of_seqZ. lia.
  - intros c' [H1%elem_of_ids H2]%elem_of_difference. auto.
Qed.

End code.
End kml.
