(* ===== verification/LrcInitCorrect.v ===== *)
(** * The LRC plugin: configuration

    [init] on a profile with k, m and l makes the code of LrcKml; the codecs of
    the layers come from a registry, of which [LayerPlugins] says what is needed.
    Parameters that [parse_kml] does not refuse although it should. *)

From stdpp Require Import pretty.
From S2P Require Import Prelude Strtol StrMap ErasureCode CrushRules Ruleset PluginRegistry Lrc LrcFacts LrcCorrect LrcInit LrcKml.

Import LrcInit.

(** ** What [init] relies on *)

(** Characters that a JSON string shows as they are. *)
Definition plain_char (c : ascii) : Prop := c ≠ ascii_of_nat 34 ∧ c ≠ ascii_of_nat 92.
Definition plain (s : string) : Prop := Forall plain_char (explode s).

(** The grammar of json_spirit ([elements_ = value_ >> *( ',' >> value_ |
    ch_p(',') )]) on the texts at hand: an array may end with a comma; no value
    can be read from an empty text. *)
Class JsonReaderSpec `{JsonReader} : Prop := {
  read_layers maps : Forall plain maps →
    read_or_throw (layers_text maps) = Some (JArray ((λ s, JArray [JStr s; JStr ""]) <$> maps));
  read_empty : read_or_throw "" = None;
}.

(** The parameters that [layers_init] sets for a layer without options. *)
Definition layer_params (k0 m0 : Z) : Profile :=
  <["technique" := "reed_sol_van"]> (<["plugin" := "jerasure"]>
    (<["m" := pretty m0]> (<["k" := pretty k0]> ∅))).

(** The registry makes an MDS codec for each of the [codes]. *)
Class LayerPlugins {R} `{!Registry R} (dir : string) (Inv : R → Prop) (max_len : Z)
    (sizes : nat → Prop) (CW : Z → Z → nat → gmap Z bytes → Prop) (codes : list (Z * Z)) : Prop := {
  layer_plugin r k0 m0 : Inv r → (k0, m0) ∈ codes →
    ∃ ec p r', registry_factory r "jerasure" dir (layer_params k0 m0) = Ret (0, Some ec, p, r')
      ∧ Inv r' ∧ get_data_chunk_count (codec_of ec) = k0
      ∧ get_chunk_count (codec_of ec) = k0 + m0
      ∧ MdsSpec (codec_of ec) sizes (CW k0 m0)
      ∧ ∀ len, 0 < len ≤ max_len →
          ∃ bs, get_chunk_size (codec_of ec) len = Ret bs ∧ 0 < bs
            ∧ len ≤ k0 * bs < 2 ^ 32 ∧ sizes (Z.to_nat bs);
}.

(** ** Parsing *)

Section init.
Context `{HJ : JsonReader} `{HJS : !JsonReaderSpec}.
Context (g a b : Z) (Hg : 0 < g) (Ha : 0 < a) (Hb : 0 ≤ b).
#[local] Abbreviation k := (g * a).
#[local] Abbreviation m := (g * b).
#[local] Abbreviation l := (a + b).
#[local] Abbreviation n := (g * (a + b + 1)).
Context (HI : k + m < INT_MAX).

(** A profile that asks for the code. *)
Record kml_profile (profile : Profile) : Prop := {
  kp_k : profile !! "k" = Some (pretty k);
  kp_m : profile !! "m" = Some (pretty m);
  kp_l : profile !! "l" = Some (pretty l);
  kp_generated x : x ∈ generated → profile !! x = None;
}.

Definition generate (profile : Profile) : Profile :=
  <["layers" := layers_text (maps g a b)]> (<["mapping" := text (mapping_char a b) n]> profile).

Lemma parse_kml_spec dir profile :
  kml_profile profile →
  ∃ rs, parse_kml (fresh dir) profile
    = Ret (mkResult 0 (with_ruleset (fresh dir) rs) (generate profile)).
Proof.
  intros [Hk Hm Hl Hgen]. unfold INT_MAX in HI.
  unfold parse_kml, ErasureCode.parse, to_mapping.
  rewrite (Hgen "mapping") by (by left).
  rewrite (to_int_pretty "k" profile k) by (done || unfold INT_MIN, INT_MAX; nia).
  cbn [p_profile p_value p_err].
  rewrite (to_int_pretty "m" profile m) by (done || unfold INT_MIN, INT_MAX; nia).
  cbn [p_profile p_value p_err].
  rewrite (to_int_pretty "l" profile l) by (done || unfold INT_MIN, INT_MAX; nia).
  cbn [p_profile p_value p_err].
  rewrite (bool_decide_false (k = -1 ∧ m = -1 ∧ l = -1)) by nia.
  rewrite (bool_decide_false ((k ≠ -1 ∨ m ≠ -1 ∨ l ≠ -1) ∧ (k = -1 ∨ m = -1 ∨ l = -1))) by nia.
  rewrite (bool_decide_false (Exists _ generated)).
  2: { intros (x & Hx & [v Hv])%Exists_exists. by rewrite Hgen in Hv. }
  rewrite (bool_decide_false (k + m < INT_MIN ∨ INT_MAX < k + m)) by (unfold INT_MIN, INT_MAX; nia).
  rewrite (bool_decide_false (l = 0)) by lia.
  replace (k + m) with (g * l) by lia. rewrite Z.rem_mul, Z.quot_mul by lia.
  rewrite (bool_decide_false (0 ≠ 0)) by tauto. rewrite (bool_decide_false (g = 0)) by lia.
  rewrite !(Z.mul_comm g), !Z.rem_mul by lia. rewrite !(bool_decide_false (0 ≠ 0)) by tauto.
  rewrite <-!(Z.mul_comm g), kml_mapping_text, kml_layers_text by lia. cbn [mbind outcome_bind].
  eexists. reflexivity.
Qed.

Lemma generate_other profile x :
  x ≠ "layers" → x ≠ "mapping" → generate profile !! x = profile !! x.
Proof. intros ??. unfold generate. by rewrite !lookup_insert_ne. Qed.

Lemma parse_spec dir profile rs :
  kml_profile profile →
  ∃ rs' profile', parse (with_ruleset (fresh dir) rs) (generate profile)
    = Ret (mkResult 0 (with_ruleset (with_mapping (fresh dir) (mapping_positions (text (mapping_char a b) n))) rs')
        profile')
    ∧ ∀ x, x ≠ "ruleset-root" → profile' !! x = generate profile !! x.
Proof.
  intros Hp. unfold parse, ErasureCode.parse, to_mapping. cbn [chunk_mapping with_ruleset fresh].
  assert (generate profile !! "mapping" = Some (text (mapping_char a b) n)) as ->.
  { unfold generate. by rewrite lookup_insert_ne, lookup_insert_eq by done. }
  rewrite (bool_decide_false (0 ≠ 0)) by tauto. cbn [app].
  unfold parse_ruleset, to_string, with_default.
  assert (∀ p : Profile, (∀ x, x ≠ "ruleset-root" → p !! x = generate profile !! x) →
    p !! "ruleset-steps" = None) as Hsteps.
  { intros p Hx. rewrite Hx, generate_other by done. apply (kp_generated _ Hp). unfold generated. set_solver. }
  destruct (generate profile !! "ruleset-root") as [v|]; [case_bool_decide|];
    cbn [p_profile p_value p_err]; rewrite Hsteps; try (eexists _, _; split; [reflexivity|]);
    intros x Hx; try done; by rewrite lookup_insert_ne.
Qed.

Lemma plain_text f w : (∀ p, plain_char (f p)) → plain (text f w).
Proof.
  intros Hf. unfold plain, text. induction (seqZ 0 w) as [|x xs IH]; [constructor|].
  rewrite fmap_cons. cbn [chars_string]. by constructor.
Qed.

Lemma maps_plain : Forall plain (maps g a b).
Proof.
  assert (∀ a0 b0 c1 c2 c3 j, plain_char c1 → plain_char c2 → plain_char c3 →
    plain_char (segment_char a0 b0 c1 c2 c3 j)) as Hseg.
  { intros. unfold segment_char. by repeat case_bool_decide. }
  assert (plain_char "D" ∧ plain_char "c" ∧ plain_char "_") as (HD & Hc & Hu) by (by vm_compute).
  constructor.
  - apply plain_text. intros p. by apply Hseg.
  - apply Forall_fmap, Forall_forall. intros i _. cbn. apply plain_text. intros p.
    unfold local_char. case_bool_decide; [by apply Hseg|done].
Qed.

Lemma parse_layer_spec ls s :
  parse_layer ls 0 [JStr s; JStr ""] = Ret (0, ls ++ [new_layer s]).
Proof.
  cbn [parse_layer].
  assert (parse_layer_element ls 0 (JStr s) = Ret (0, ls ++ [new_layer s])) as -> by done.
  cbn [mbind outcome_bind]. rewrite (bool_decide_false (0 ≠ 0)) by tauto.
  unfold parse_layer_element.
  rewrite (bool_decide_false (0 + 1 = 0)), (bool_decide_true (0 + 1 = 1)) by lia.
  rewrite last_snoc. cbn [need mbind outcome_bind json_type].
  rewrite (bool_decide_false (str_type ≠ str_type ∧ _)) by tauto.
  rewrite (bool_decide_true (str_type = str_type)) by done.
  cbn [get_str mbind outcome_bind]. unfold get_json_str_map. rewrite read_empty.
  assert (get_str_map "" (layer_profile (new_layer s)) blanks = Ret ∅) as -> by done.
  cbn [mbind outcome_bind]. unfold update_back. rewrite reverse_snoc. cbn [mbind outcome_bind].
  rewrite (bool_decide_false (0 ≠ 0)) by tauto.
  by rewrite reverse_cons, reverse_involutive.
Qed.

Lemma layers_parse_spec ls maps0 :
  layers_parse ls ((λ s, JArray [JStr s; JStr ""]) <$> maps0) = Ret (0, ls ++ (new_layer <$> maps0)).
Proof.
  revert ls. induction maps0 as [|s maps0 IH]; intros ls; [by rewrite app_nil_r|].
  rewrite fmap_cons. cbn [layers_parse json_type]. rewrite (bool_decide_false (array_type ≠ array_type)) by tauto.
  cbn [get_array mbind outcome_bind]. rewrite parse_layer_spec. cbn [mbind outcome_bind].
  rewrite (bool_decide_false (0 ≠ 0)), IH by tauto. by rewrite fmap_cons, <-app_assoc.
Qed.

(** ** The codecs of the layers *)

Lemma describe_layer_spec f k0 m0 :
  Z.of_nat (length (D_of g a b f)) = k0 → Z.of_nat (length (c_of g a b f)) = m0 →
  describe_layer (new_layer (text f n))
  = mkLayer None (D_of g a b f) (c_of g a b f) (D_of g a b f ++ c_of g a b f)
      (list_to_set (D_of g a b f ++ c_of g a b f)) (text f n) (layer_params k0 m0).
Proof.
  intros HD Hc. unfold describe_layer, new_layer.
  cbn [data coding chunks_as_set chunks_map layer_profile erasure_code app].
  rewrite !positions_text by nia. fold (D_of g a b f) (c_of g a b f). rewrite HD, Hc. f_equal.
  apply set_eq. intros i. rewrite elem_of_union, !elem_of_list_to_set, elem_of_app.
  unfold D_of, c_of. rewrite !list_elem_of_filter, orb_true_iff. set_solver.
Qed.

Context {R : Type} `{HR : !Registry R} (dir : string) (Inv : R → Prop) (max_len : Z) (sizes : nat → Prop).
Context (CW : Z → Z → nat → gmap Z bytes → Prop).
Context `{HLP : !LayerPlugins dir Inv max_len sizes CW [(k, m); (l, 1)] }.

(** A map with the counts of its layer. *)
Definition spec_ok (x : (Z → ascii) * Z * Z) : Prop :=
  let '(f, k0, m0) := x in
  Z.of_nat (length (D_of g a b f)) = k0 ∧ Z.of_nat (length (c_of g a b f)) = m0
  ∧ (k0, m0) ∈ [(k, m); (l, 1)].

Definition layer_made (x : (Z → ascii) * Z * Z) (L : Layer) : Prop :=
  let '(f, k0, m0) := x in
  chunks_map L = text f n
  ∧ ∃ L', coder_layer L = Some L' ∧ layer_from g a b max_len sizes CW f k0 m0 L'.

Lemma layers_init_spec specs done r :
  Forall spec_ok specs → Inv r →
  ∃ ls r', layers_init dir done ((λ x, new_layer (text x.1.1 n)) <$> specs) r = Ret (0, done ++ ls, r')
    ∧ Inv r' ∧ Forall2 layer_made specs ls.
Proof.
  intros Hspecs. revert done r. induction Hspecs as [|[[f k0] m0] specs (HD & Hc & Hin) Hspecs IH];
    intros done r Hr.
  { exists [], r. by rewrite app_nil_r. }
  rewrite fmap_cons. cbn [layers_init fst]. rewrite (describe_layer_spec f k0 m0) by done.
  cbn [layer_profile data coding chunks chunks_as_set chunks_map].
  assert (layer_params k0 m0 !! "plugin" = Some "jerasure") as ->.
  { unfold layer_params. by rewrite lookup_insert_ne, lookup_insert_eq by done. }
  change (default "" (Some "jerasure")) with "jerasure".
  destruct (layer_plugin r k0 m0 Hr Hin) as (ec & p & r1 & -> & Hr1 & Hdata & Hcount & Hmds & Hsize).
  cbn [mbind outcome_bind]. rewrite (bool_decide_false (0 ≠ 0)) by tauto.
  set (L := mkLayer _ _ _ _ _ _ _).
  destruct (IH (done ++ [L]) r1 Hr1) as (ls & r2 & -> & Hr2 & Hls).
  exists (L :: ls), r2. split; [by rewrite <-app_assoc|]. split; [done|]. constructor; [|done].
  split; [done|]. eexists. split; [reflexivity|]. by split.
Qed.

Lemma coder_layers specs ls :
  Forall2 layer_made specs ls →
  ∃ Ls, mapM coder_layer ls = Some Ls
    ∧ Forall2 (λ x L', layer_from g a b max_len sizes CW x.1.1 x.1.2 x.2 L') specs Ls.
Proof.
  induction 1 as [|[[f k0] m0] L specs ls (_ & L' & HL & HL') Hls (Ls & HLs & HF)]; [by exists []|].
  exists (L' :: Ls). cbn. rewrite HL. cbn. rewrite HLs. split; [done|]. by constructor.
Qed.

Definition specs : list ((Z → ascii) * Z * Z) :=
  (global_char a b, k, m) :: ((λ i, (local_char a b i, l, 1)) <$> seqZ 0 g).

Lemma specs_ok : Forall spec_ok specs.
Proof.
  constructor.
  - split; [by apply length_D_global|]. split; [by apply length_c_global|by left].
  - apply Forall_fmap, Forall_forall. intros i Hi%elem_of_seqZ. cbn.
    split; [apply length_D_local; lia|]. split; [apply length_c_local; lia|by right; left].
Qed.

Lemma specs_maps : (λ x, new_layer (text x.1.1 n)) <$> specs = new_layer <$> maps g a b.
Proof.
  unfold specs, maps. rewrite !fmap_cons. f_equal. rewrite <-!list_fmap_compose. done.
Qed.

(** [init] makes the code, and hides the parameters it generated. *)
Lemma init_spec profile r :
  kml_profile profile → Inv r →
  ∃ o profile' r' s Lg Ls, init (fresh dir) profile r = Ret (mkResult 0 o profile', r')
    ∧ Inv r' ∧ profile_ o = profile' ∧ profile' !! "mapping" = None ∧ profile' !! "layers" = None
    ∧ (∀ x, x ∉ generated → x ≠ "ruleset-root" → profile' !! x = profile !! x)
    ∧ coder o = Some s ∧ kml_state g a b max_len sizes CW s Lg Ls.
Proof.
  intros Hp Hr. unfold init. destruct (parse_kml_spec dir profile Hp) as [rs ->].
  cbn [mbind outcome_bind r_err r_object r_profile]. rewrite (bool_decide_false (0 ≠ 0)) by tauto.
  destruct (parse_spec dir profile rs Hp) as (rs' & p1 & -> & Hp1).
  cbn [mbind outcome_bind r_err r_object r_profile]. rewrite (bool_decide_false (0 ≠ 0)) by tauto.
  assert (p1 !! "layers" = Some (layers_text (maps g a b))) as Hlayers.
  { rewrite Hp1 by done. unfold generate. by rewrite lookup_insert_eq. }
  assert (p1 !! "mapping" = Some (text (mapping_char a b) n)) as Hmapping.
  { rewrite Hp1 by done. unfold generate. by rewrite lookup_insert_ne, lookup_insert_eq by done. }
  assert (p1 !! "l" = Some (pretty l)) as Hpl by (rewrite Hp1, generate_other by done; apply (kp_l _ Hp)).
  unfold layers_description. rewrite Hlayers, read_layers by apply maps_plain.
  cbn [json_type]. rewrite (bool_decide_false (array_type ≠ array_type)) by tauto.
  cbn [get_array mbind outcome_bind]. cbn [layers with_ruleset with_mapping fresh].
  rewrite layers_parse_spec. cbn [mbind outcome_bind app].
  rewrite (bool_decide_false (0 ≠ 0)) by tauto. cbn [layers with_layers directory with_ruleset with_mapping fresh].
  rewrite <-specs_maps.
  destruct (layers_init_spec specs [] r specs_ok Hr) as (ls & r' & -> & Hr' & Hls).
  cbn [mbind outcome_bind app]. rewrite (bool_decide_false (0 ≠ 0)) by tauto. rewrite Hmapping.
  rewrite (positions_text is_D) by nia. fold (D_of g a b (mapping_char a b)).
  rewrite length_D_mapping, text_length by nia.
  unfold layers_sanity_checks. cbn [layers chunk_count with_counts with_layers].
  assert (length ls = length specs) as Hlen by (symmetry; by eapply Forall2_length).
  rewrite (bool_decide_false (Z.of_nat (length ls) < 1)) by (rewrite Hlen; cbn; lia).
  rewrite (bool_decide_false (Exists _ ls)).
  2: { intros (L & HL & Hne)%Exists_exists. apply list_elem_of_lookup in HL as [j Hj].
       destruct (Forall2_lookup_r _ _ _ _ _ Hls Hj) as ([[f k0] m0] & _ & Hmap & _).
       apply Hne. by rewrite Hmap, text_length by nia. }
  rewrite (bool_decide_false (0 ≠ 0)) by tauto.
  rewrite (bool_decide_true (is_Some (p1 !! "l") ∧ _)).
  2: { rewrite Hpl. split; [done|]. unfold DEFAULT_KML. change "-1" with (pretty (-1)).
       intros [= He%(inj pretty)]. lia. }
  destruct (coder_layers specs ls Hls) as (Ls0 & HLs0 & HF).
  unfold specs in HF. apply Forall2_cons_inv_l in HF as (Lg & Ls & HLg & HLs & ->).
  rewrite Forall2_fmap_l in HLs.
  eexists _, _, _, _, Lg, Ls. split; [reflexivity|]. split; [done|]. split; [done|].
  split; [by rewrite lookup_delete_ne, lookup_delete_eq by done|].
  split; [by rewrite lookup_delete_eq|]. split.
  { intros x Hx Hne. unfold generated in Hx. rewrite !not_elem_of_cons in Hx.
    rewrite !lookup_delete_ne, Hp1 by naive_solver. apply generate_other; naive_solver. }
  unfold coder. cbn [layers with_layers with_counts chunk_count data_chunk_count chunk_mapping with_ruleset with_mapping].
  rewrite HLs0. split; [reflexivity|]. by split.
Qed.

(** The code that [init] makes of k, m and l: a profile with [k = g * a],
    [m = g * b] and [l = a + b], for at least two groups, makes a code with
    [g * (a + b + 1)] chunks, [k] of them for data, whose layers are as the
    coder needs them; when one chunk is lost it is repaired with [l] chunks,
    all of its own group. The parameters that were generated are not in the
    profile that is returned. *)
Theorem lrc_kml profile r :
  2 ≤ g → n < 2 ^ 32 → kml_profile profile → Inv r →
  ∃ o profile' r' s, factory dir profile r = Ret (0, Some o, profile', r')
    ∧ Inv r' ∧ profile' !! "mapping" = None ∧ profile' !! "layers" = None
    ∧ coder o = Some s ∧ Lrc.chunk_count s = n ∧ Lrc.data_chunk_count s = k
    ∧ state_ok sizes (layer_cw CW) s
    ∧ ∀ c, 0 ≤ c < n →
        ∃ minimum, Lrc.minimum_to_decode s {[c]} (list_to_set (seqZ 0 n) ∖ {[c]}) ∅ = (0, minimum)
          ∧ Z.of_nat (size minimum) = l
          ∧ ∀ i, i ∈ minimum → i ≠ c ∧ 0 ≤ i < n ∧ i / (a + b + 1) = c / (a + b + 1).
Proof.
  intros Hg2 Hn Hp Hr.
  destruct (init_spec profile r Hp Hr) as (o & p' & r' & s & Lg & Ls & Hinit & Hr' & _ & Hm & Hl & _ & Hc & Hks).
  exists o, p', r', s. unfold factory. rewrite Hinit. cbn [mbind outcome_bind r_err r_object r_profile].
  rewrite (bool_decide_false (0 ≠ 0)) by tauto.
  split_and!; [done..|apply (ks_count _ _ _ _ _ _ _ _ _ Hks)|apply (ks_data _ _ _ _ _ _ _ _ _ Hks)| |].
  - apply (kml_state_ok g a b Hg Ha Hb max_len sizes CW s Lg Ls Hks Hn Hg2).
  - apply (kml_repair g a b Hg Ha Hb max_len sizes CW s Lg Ls Hks Hn Hg2).
Qed.

End init.
