(* ===== verification/System.v ===== *)
(** * The plugins together

    The registry of src/src/erasure-code/ErasureCodePlugin.cc with the
    jerasure and LRC plugins of the tree: the LRC plugin calls the registry for
    the codec of each layer. The registry with these plugins keeps its
    invariant, and a pool with a k, m, l profile gets a working codec. *)

From stdpp Require Import pretty gmultiset.
From S2P Require Import Prelude Strtol StrMap ErasureCode PluginRegistry Jerasure JerasureFacts JerasureL8 JerasureCorrect Lrc LrcFacts LrcCorrect LrcInit LrcKml LrcInitCorrect.

(** The plugin objects. *)
Inductive kind := jerasure_plugin | lrc_plugin.

Section system.
Context `{HJL : JerasureLib} `{HJR : JsonReader} `{HL : !Loader kind}.

(** [ErasureCodePlugin::factory] of the objects. A layer of an LRC code may
    name the LRC plugin again; [depth] bounds the nesting. *)
Fixpoint plugin_at (depth : nat) (p : kind) (dir : string) (profile : Profile) (r : registry kind)
    : outcome (Z * option instance * Profile * registry kind) :=
  match p with
  | jerasure_plugin =>
      let '(err, s, profile) := Jerasure.factory profile in
      Ret (err, (λ s, mkInstance (Jerasure.codec s) (Jerasure.profile_ s)) <$> s, profile, r)
  | lrc_plugin =>
      match depth with
      | 0%nat => Abort StackOverflow
      | S depth =>
          let layers := Build_Registry (registry kind)
                          (@factory kind HL (Build_Plugins (plugin_at depth))) in
          '(err, o, profile, r) ← LrcInit.factory (H0 := layers) dir profile r;
          Ret (err, (o ← o; s ← LrcInit.coder o;
                     Some (mkInstance (Lrc.codec s) (LrcInit.profile_ o))), profile, r)
      end
  end.

#[local] Instance system_plugins (depth : nat) : Plugins kind := {| plugin_factory := plugin_at depth |}.
#[local] Instance layer_registry (depth : nat) : Registry (registry kind) :=
  {| registry_factory := @factory kind HL (system_plugins depth) |}.

Lemma plugin_at_lrc depth dir profile r :
  plugin_at (S depth) lrc_plugin dir profile r
  = ('(err, o, profile, r) ← LrcInit.factory (H0 := layer_registry depth) dir profile r;
     Ret (err, (o ← o; s ← LrcInit.coder o;
                Some (mkInstance (Lrc.codec s) (LrcInit.profile_ o))), profile, r)).
Proof. done. Qed.

End system.

(** ** The plugins keep the registry in order *)

Section lrc_registry.
Context `{HJR : JsonReader} {R : Type} `{HR : !Registry R} (P : R → Prop).
Context (HP : ∀ r name dir p err ec p' r', P r →
  registry_factory r name dir p = Ret (err, ec, p', r') → P r' ∧ (err = 0 → is_Some ec)).

Definition has_code (L : LrcInit.Layer) : Prop := is_Some (LrcInit.erasure_code L).

Lemma layers_init_codes dir done todo r err ls r' :
  LrcInit.layers_init dir done todo r = Ret (err, ls, r') → P r → Forall has_code done →
  P r' ∧ (err = 0 → Forall has_code ls).
Proof.
  revert done r. induction todo as [|L todo IH]; intros done r; cbn [LrcInit.layers_init].
  { intros [= <- <- <-]. auto. }
  destruct (registry_factory _ _ _ _) as [[[[e ec] p'] r1]|] eqn:Hf; cbn [mbind outcome_bind]; [|done].
  intros Hi Hr Hd. destruct (HP _ _ _ _ _ _ _ _ Hr Hf) as [Hr1 Hec]. revert Hi. case_bool_decide.
  - intros [= <- <- <-]. tauto.
  - intros Hi. apply (IH _ _ Hi Hr1). apply Forall_app. split; [done|]. constructor; [|done].
    unfold has_code. cbn. apply fmap_is_Some, Hec. tauto.
Qed.

Lemma coder_codes (o : LrcInit.object) :
  Forall has_code (LrcInit.layers o) → is_Some (LrcInit.coder o).
Proof.
  intros Hc. unfold LrcInit.coder.
  assert (is_Some (mapM LrcInit.coder_layer (LrcInit.layers o))) as [ls ->]; [|by eexists].
  apply mapM_is_Some. apply (Forall_impl has_code _ _ Hc). intros L [c Hc0]. unfold LrcInit.coder_layer.
  cbn. rewrite Hc0. by eexists.
Qed.

(** [init] uses the registry only in [layers_init], and succeeds only after
    that did. *)
Lemma lrc_init_codes o profile r res r' :
  LrcInit.init o profile r = Ret (res, r') → P r →
  P r' ∧ (LrcInit.r_err res = 0 → Forall has_code (LrcInit.layers (LrcInit.r_object res))).
Proof.
  unfold LrcInit.init. intros Hi Hr. revert Hi.
  destruct (LrcInit.parse_kml o profile) as [r0|]; cbn [mbind outcome_bind]; [|done].
  case_bool_decide; [intros [= <- <-]; tauto|].
  destruct (LrcInit.parse _ _) as [r1|]; cbn [mbind outcome_bind]; [|done].
  case_bool_decide; [intros [= <- <-]; tauto|].
  destruct (LrcInit.layers_description _) as [d|] eqn:Hd; cbn [mbind outcome_bind]; [|done].
  destruct d as [d|e].
  2: { intros [= <- <-]. split; [done|]. cbn. intros ->. exfalso. revert Hd.
       unfold LrcInit.layers_description.
       repeat first [case_match|case_bool_decide]; cbn; try done.
       by destruct (get_array _). }
  destruct (LrcInit.layers_parse _ _) as [[err ls]|]; cbn [mbind outcome_bind]; [|done].
  case_bool_decide; [intros [= <- <-]; tauto|].
  destruct (LrcInit.layers_init _ _ _ _) as [[[err2 ls2] r2]|] eqn:Hl; cbn [mbind outcome_bind]; [|done].
  apply layers_init_codes in Hl as [Hr2 Hcodes]; [|done|constructor].
  case_bool_decide; [intros [= <- <-]; tauto|]. assert (err2 = 0) as -> by tauto.
  destruct (LrcInit.r_profile r1 !! "mapping"); [|intros [= <- <-]; auto].
  case_bool_decide; intros [= <- <-]; [tauto|]. cbn. auto.
Qed.

End lrc_registry.

Section spec.
Context `{HJL : JerasureLib} `{HJR : JsonReader} `{HL : !Loader kind} `{HLS : !LoaderSpec kind}.

Lemma jerasure_factory_some profile err o profile' :
  Jerasure.factory profile = (err, o, profile') → err = 0 → is_Some o.
Proof.
  unfold Jerasure.factory. destruct (filter _ _) as [|tech ?]; [by intros [= <- _ _]|].
  destruct (Jerasure.init _ _) as [[e s] p]. case_bool_decide; [|by intros [= _ <- _]; eauto].
  intros [= <- _ _]. tauto.
Qed.

(** A factory of the registry succeeds with an erasure code. *)
Lemma factory_some `{!Plugins kind} r name dir profile err ec profile' r' :
  factory r name dir profile = Ret (err, ec, profile', r') → err = 0 → is_Some ec.
Proof.
  unfold factory. destruct (get_or_load _ _ _) as [[[e p] r1]|]; cbn [mbind outcome_bind]; [|done].
  case_bool_decide; [intros [= <- _ _ _]; tauto|]. destruct p as [p|]; cbn; [|done].
  destruct (plugin_factory _ _ _ _) as [[[[e2 ec2] p2] r2]|]; cbn; [|done].
  case_bool_decide; [intros [= <- _ _ _]; tauto|]. destruct ec2; cbn; [|done].
  case_bool_decide; intros [= <- <- _ _]; [done|eauto].
Qed.

#[export] Instance system_plugins_spec depth :
  @PluginsSpec kind HL (system_plugins depth).
Proof.
  induction depth as [|depth IH]; split; intros p dir profile r err ec profile' r' Hok Hl Hg Hf.
  all: destruct p; cbn [plugin_factory system_plugins] in Hf.
  1, 3: cbn [plugin_at] in Hf; destruct (Jerasure.factory profile) as [[e s] p] eqn:Hj;
    injection Hf as <- <- <- <-; (split_and!; [done..|]); intros He; apply fmap_is_Some;
    by eapply jerasure_factory_some.
  - done.
  - rewrite plugin_at_lrc in Hf. unfold LrcInit.factory in Hf.
    destruct (LrcInit.init _ _ _) as [[res r1]|] eqn:Hi; cbn [mbind outcome_bind] in Hf; [|done].
    apply (lrc_init_codes (λ r, reg_ok r ∧ locked r = false ∧ loading r = false)) in Hi
      as [(Hok1 & Hl1 & Hg1) Hcodes]; [|clear -IH HLS|done].
    + revert Hf. case_bool_decide as He; intros [= <- <- <- <-]; (split_and!; [done..|]); [tauto|].
      intros _. destruct (coder_codes (LrcInit.r_object res)) as [s Hs]; [apply Hcodes; tauto|].
      cbn. rewrite Hs. by eexists.
    + intros r name dir p err ec p' r' (Hok & Hl & Hg) Hf. cbn [registry_factory layer_registry] in Hf.
      split; [by apply (@factory_ok kind HL (system_plugins depth) HLS IH r name dir p (err, ec, p') r')|].
      by apply (@factory_some (system_plugins depth) r name dir p err ec p' r').
Qed.

End spec.

(** ** A pool with a k, m, l profile *)

Section pool.
Context `{HJL : JerasureLib} `{HJR : JsonReader} `{HJS : !JsonReaderSpec} `{HL : !Loader kind}.
Context `{HA : Allocator} `{HAS : !AllocatorSpec} (dir : string) (depth : nat).

(** The directory has the library of a plugin, of this version, whose entry
    point registers the object. *)
Record installed (name : string) (p : kind) : Prop := {
  in_library : ∃ lib entry, find_library (file_name name dir) = Some lib
    ∧ library_version lib = Some CEPH_GIT_NICE_VER ∧ library_init lib = Some entry
    ∧ ∀ r, entry name dir r = add r name p;
}.

(** Nobody holds the lock, and the names belong to their plugins. *)
Record usable (r : registry kind) : Prop := {
  us_locked : locked r = false;
  us_jerasure q : plugins r !! "jerasure" = Some q → object q = jerasure_plugin;
  us_lrc q : plugins r !! "lrc" = Some q → object q = lrc_plugin;
}.

Lemma usable_insert r r' name q :
  usable r → locked r' = false → plugins r' = <[name := q]> (plugins r) →
  (name = "jerasure" → object q = jerasure_plugin) → (name = "lrc" → object q = lrc_plugin) →
  usable r'.
Proof.
  intros [_ Hj Hc] Hl Hp Hqj Hqc. split; [done|rewrite Hp; intros q'..].
  - intros [[-> <-]|[_ ?]]%lookup_insert_Some; auto.
  - intros [[-> <-]|[_ ?]]%lookup_insert_Some; auto.
Qed.

Lemma get_or_load_installed r name p :
  usable r → installed name p →
  (name, p) ∈ [("jerasure", jerasure_plugin); ("lrc", lrc_plugin)] →
  ∃ q r', get_or_load r name dir = Ret (0, Some q, r') ∧ object q = p ∧ usable r'.
Proof.
  intros Hr [(lib & entry & Hf & Hv & Hi & He)] Hin. pose proof (us_locked _ Hr) as Hl.
  rewrite !elem_of_cons in Hin. unfold get_or_load, lock, get. rewrite Hl.
  cbn [assert_that negb mbind outcome_bind locked plugins with_lock].
  destruct (plugins r !! name) as [q|] eqn:Hq.
  { exists q, (unlock (with_lock r true)). split; [done|]. split.
    - destruct Hr as [_ Hj Hc]. destruct Hin as [[= -> ->]|[[= -> ->]|[]%elem_of_nil]]; auto.
    - by destruct Hr. }
  unfold load. cbn [assert_that mbind outcome_bind locked with_loading with_lock].
  rewrite Hf, Hv. cbn [default from_option]. rewrite (bool_decide_false (_ ≠ _)) by tauto.
  rewrite Hi, He. unfold add. cbn [assert_that mbind outcome_bind locked dlopen with_opened with_loading with_lock plugins].
  rewrite Hq. cbn [mbind outcome_bind]. rewrite (bool_decide_false (0 ≠ 0)) by tauto.
  unfold get. cbn [assert_that mbind outcome_bind locked dlopen with_opened with_loading with_lock plugins with_plugins].
  rewrite lookup_insert_eq. cbn [object]. eexists _, _. split; [reflexivity|]. split; [done|].
  apply (usable_insert r _ name (mkPlugin p lib)); [done|done| |..].
  { cbn. by rewrite insert_insert_eq. }
  all: intros ->; destruct Hin as [E|[E|[]%elem_of_nil]]; by simplify_eq/=.
Qed.

(** Reed-Solomon codes over bytes. *)
Definition van_sizes (bs : nat) : Prop := Z.of_nat bs mod 8 = 0.
Definition van_codeword (k0 m0 : Z) : nat → gmap Z bytes → Prop :=
  JerasureFacts.codeword (van_codec k0 m0 "" "" ∅).

Lemma van_state_ok k0 m0 root0 domain0 profile0 root domain profile :
  JerasureFacts.state_ok (van_codec k0 m0 root0 domain0 profile0) →
  JerasureFacts.state_ok (van_codec k0 m0 root domain profile).
Proof. intros [? ? ? [H1 H2]]. split; [done..|]. split; [exact H1|exact H2]. Qed.

Context (Hjerasure : installed "jerasure" jerasure_plugin) (Hlrc : installed "lrc" lrc_plugin).
Context (codes : list (Z * Z)) (total : Z).
Context (Hcodes : ∀ k0 m0, (k0, m0) ∈ codes →
  k0 + m0 < INT_MAX ∧ k0 ≤ total ∧ JerasureFacts.state_ok (van_codec k0 m0 "" "" ∅)).

Lemma van_layers :
  @LayerPlugins (registry kind) (layer_registry depth) dir usable (2 ^ 32 - 32 * total)
    van_sizes van_codeword codes.
Proof.
  split. intros r k0 m0 Hr (HI & Hle & Hok)%Hcodes.
  pose proof (JerasureFacts.so_k _ Hok) as Hk. pose proof (JerasureFacts.so_m _ Hok) as Hm.
  cbn [Jerasure.k Jerasure.m van_codec] in Hk, Hm.
  destruct (get_or_load_installed r "jerasure" jerasure_plugin Hr Hjerasure) as (q & r1 & Hget & Hq & Hr1);
    [by left|].
  cbn [registry_factory layer_registry]. unfold factory. rewrite Hget. cbn [mbind outcome_bind].
  rewrite (bool_decide_false (0 ≠ 0)) by tauto. cbn [need mbind outcome_bind plugin_factory system_plugins].
  rewrite Hq.
  destruct (factory_van (layer_params k0 m0) k0 m0) as (root & domain & p & Hf & _);
    [done..|unfold INT_MIN, INT_MAX in *; lia|unfold INT_MIN, INT_MAX in *; lia|].
  assert (plugin_at depth jerasure_plugin dir (layer_params k0 m0) r1
    = Ret (0, Some (mkInstance (Jerasure.codec (van_codec k0 m0 root domain p)) p), p, r1)) as ->.
  { destruct depth; cbn [plugin_at]; by rewrite Hf. }
  cbn [mbind outcome_bind need]. rewrite (bool_decide_false (0 ≠ 0)) by tauto. cbn [get_profile].
  rewrite (bool_decide_false (p ≠ p)) by tauto.
  eexists _, _, _. split; [reflexivity|]. split; [done|]. cbn [codec_of].
  split; [done|]. split; [done|]. split.
  - apply (JerasureFacts.jerasure_mds_spec (van_codec k0 m0 root domain p)). by apply (van_state_ok _ _ _ _ _ _ _ _ Hok).
  - intros len Hlen.
    apply (JerasureFacts.get_chunk_size_padded (van_codec k0 m0 root domain p) len);
      [done|by left|done|lia|]. change (align_unit _) with 32. cbn [Jerasure.k van_codec]. lia.
Qed.

End pool.

(** C2. A pool with the LRC plugin, from the profile to the repaired object:
    with the two plugins installed, the registry makes a codec of a k, m, l
    profile with at least two groups. It encodes every object into
    [k + m + (k + m) / l] chunks, and gets the object back when each group has
    lost at most one of its [l + 1] chunks. *)
Theorem lrc_pool `{JerasureLib} `{JsonReader} `{!JsonReaderSpec} `{!Loader kind}
    `{Allocator} `{!AllocatorSpec} dir depth g a b profile r :
  let k := g * a in let m := g * b in let l := a + b in let n := g * (a + b + 1) in
  installed dir "jerasure" jerasure_plugin → installed dir "lrc" lrc_plugin → usable r →
  2 ≤ g → 0 < a → 0 ≤ b → n < INT_MAX →
  (∀ k0 m0, (k0, m0) ∈ [(k, m); (l, 1)] → JerasureFacts.state_ok (van_codec k0 m0 "" "" ∅)) →
  kml_profile g a b profile →
  ∃ ec profile' r', @factory kind _ (system_plugins (S depth)) r "lrc" dir profile
      = Ret (0, Some ec, profile', r')
    ∧ usable r' ∧ get_chunk_count (codec_of ec) = n ∧ get_data_chunk_count (codec_of ec) = k
    ∧ ∀ raw, bytes_ok raw → 0 < blen raw ≤ 2 ^ 32 - 32 * (k + m) →
        ∃ enc bs, encode (codec_of ec) (list_to_set (seqZ 0 n)) raw ∅ = Ret (0, enc)
          ∧ dom enc = list_to_set (seqZ 0 n)
          ∧ ∀ have lost, have ⊆ list_to_set (seqZ 0 n) →
              (∀ c, 0 ≤ c < n → c ∉ have → c = lost (c / (l + 1))) →
              decode_concat (codec_of ec) (select have enc)
              = Ret (0, raw ++ zeros (Z.to_nat (k * bs - blen raw))).
Proof.
  intros k m l n Hj Hlrc Hr Hg Ha Hb Hn Hcodes Hp. unfold INT_MAX in Hn.
  assert (k + m < INT_MAX) as HI by (unfold INT_MAX; nia).
  destruct (get_or_load_installed dir r "lrc" lrc_plugin Hr Hlrc) as (q & r1 & Hget & Hq & Hr1);
    [by right; left|].
  pose proof (van_layers dir depth Hj [(k, m); (l, 1)] (k + m)) as Hlayers.
  assert (LayerPlugins (Registry0 := layer_registry depth) dir usable (2 ^ 32 - 32 * (k + m))
    van_sizes van_codeword [(k, m); (l, 1)]) as HLP.
  { apply Hlayers. intros k0 m0 Hin. split; [|split; [|by apply Hcodes]];
      rewrite !elem_of_cons in Hin; unfold INT_MAX in *; destruct Hin as [[= -> ->]|[[= -> ->]|[]%elem_of_nil]]; nia. }
  destruct (init_spec (HR := layer_registry depth) g a b ltac:(lia) Ha Hb HI dir usable
    (2 ^ 32 - 32 * (k + m)) van_sizes van_codeword profile r1 Hp Hr1)
    as (o & p' & r' & s & Lg & Ls & Hinit & Hr' & Hprof & _ & _ & _ & Hcoder & Hks).
  pose proof (kml_state_ok g a b ltac:(lia) Ha Hb _ _ _ s Lg Ls Hks ltac:(lia) Hg) as Hok.
  pose proof (kml_chunk_size g a b _ _ _ s Lg Ls Hks) as Hsize.
  pose proof (ks_count _ _ _ _ _ _ _ _ _ Hks) as Hcount. fold n in Hcount.
  pose proof (ks_data _ _ _ _ _ _ _ _ _ Hks) as Hdata. fold k in Hdata.
  exists (mkInstance (Lrc.codec s) p'), p', r'. split; [|split_and!; [done..|]].
  - unfold factory. rewrite Hget. cbn [mbind outcome_bind]. rewrite (bool_decide_false (0 ≠ 0)) by tauto.
    cbn [need mbind outcome_bind plugin_factory system_plugins]. rewrite Hq, plugin_at_lrc.
    unfold LrcInit.factory. rewrite Hinit. cbn [mbind outcome_bind LrcInit.r_err LrcInit.r_object LrcInit.r_profile].
    rewrite (bool_decide_false (0 ≠ 0)) by tauto. cbn [mbind outcome_bind option_bind].
    rewrite Hcoder. cbn [option_bind need mbind outcome_bind]. rewrite (bool_decide_false (0 ≠ 0)) by tauto.
    cbn [get_profile]. rewrite Hprof. by rewrite (bool_decide_false (p' ≠ p')) by tauto.
  - intros raw Hraw Hlen.
    destruct (lrc_stripe_roundtrip _ _ s _ raw Hok Hsize Hraw Hlen) as (enc & bs & Henc & _ & Hdom & Hdec).
    rewrite Hcount in Henc, Hdom, Hdec. rewrite Hdata in Hdec.
    exists enc, bs. split; [done|]. split; [done|]. intros have lost Hhave Hlost.
    apply Hdec; [done|]. apply (kml_recoverable g a b ltac:(lia) Ha Hb _ _ _ s Lg Ls Hks) with lost;
      [lia|done|exact Hlost].
Qed.

(** ** A concrete system *)

(** A reader for arrays of pairs of strings: the texts between the quotes. *)
Fixpoint quoted (inside : bool) (acc : list ascii) (s : string) : list string :=
  match s with
  | "" => []
  | String c s =>
      if bool_decide (c = Ascii.ascii_of_nat 34) then
        if inside then LrcInit.chars_string (reverse acc) :: quoted false [] s
        else quoted true [] s
      else quoted inside (if inside then c :: acc else acc) s
  end.
Fixpoint pairs (l : list string) : list json :=
  match l with
  | s :: t :: l => JArray [JStr s; JStr t] :: pairs l
  | _ => []
  end.

#[local] Instance pair_reader : JsonReader := {|
  read_or_throw s := if bool_decide (s = "") then None else Some (JArray (pairs (quoted false [] s)))
|}.

Lemma quoted_plain s acc rest :
  plain s →
  quoted true acc (s +:+ LrcInit.quote +:+ rest)
  = LrcInit.chars_string (reverse acc ++ explode s) :: quoted false [] rest.
Proof.
  revert acc. induction s as [|c s IH]; intros acc Hs.
  { rewrite app_nil_r. done. }
  apply Forall_cons in Hs as [[Hc _] Hs].
  change (String c s +:+ LrcInit.quote +:+ rest) with (String c (s +:+ LrcInit.quote +:+ rest)).
  cbn [quoted explode]. rewrite (bool_decide_false (c = _)) by done. rewrite IH by done.
  by rewrite reverse_cons, <-app_assoc.
Qed.

Lemma chars_string_explode s : LrcInit.chars_string (explode s) = s.
Proof. induction s as [|c s IH]; [done|]. cbn. by rewrite IH. Qed.

#[local] Instance pair_reader_spec : JsonReaderSpec.
Proof.
  split; [|done]. intros maps Hmaps. cbn [read_or_throw pair_reader].
  rewrite (bool_decide_false (layers_text maps = "")) by done. do 2 f_equal. unfold layers_text.
  assert (∀ rest, quoted false [] ("[ " +:+ rest) = quoted false [] rest) as -> by done.
  induction Hmaps as [|s maps Hs Hmaps IH]; [done|]. cbn [foldr fmap list_fmap].
  set (rest := foldr _ _ _) in *.
  assert (quoted false [] (LrcInit.open_entry +:+ s +:+ LrcInit.close_entry +:+ rest)
    = quoted true [] (s +:+ LrcInit.quote +:+ (", " +:+ LrcInit.quote +:+ LrcInit.quote +:+ " ]," +:+ rest)))
    as -> by done.
  rewrite quoted_plain by done. cbn [reverse rev_append app]. rewrite chars_string_explode.
  assert (∀ t, quoted false [] (", " +:+ LrcInit.quote +:+ LrcInit.quote +:+ " ]," +:+ t)
    = "" :: quoted false [] t) as -> by done.
  cbn [pairs]. by rewrite IH.
Qed.

(** Two libraries of this version in [/lib]. *)
#[local] Instance two_plugins : Loader kind := {|
  find_library f :=
    if bool_decide (f = "/lib/libec_jerasure.so") then Some 5
    else if bool_decide (f = "/lib/libec_lrc.so") then Some 6 else None;
  library_version h := Some "12.0.2";
  library_init h :=
    Some (if bool_decide (h = 5) then galois_entry (λ _, 0) [4; 8; 16; 32] jerasure_plugin
          else plain_entry lrc_plugin);
  CEPH_GIT_NICE_VER := "12.0.2";
|}.

Lemma jerasure_installed : installed "/lib" "jerasure" jerasure_plugin.
Proof. split. eexists _, _. split; [reflexivity|]. split; [reflexivity|]. split; [reflexivity|]. done. Qed.
Lemma lrc_installed : installed "/lib" "lrc" lrc_plugin.
Proof. split. eexists _, _. split; [reflexivity|]. split; [reflexivity|]. split; [reflexivity|]. done. Qed.
Lemma empty_usable : usable (empty_registry : registry kind).
Proof. split; [done|..]; intros q; cbn; by rewrite lookup_empty. Qed.

Definition kml_text (k m l : string) : Profile := {["k" := k; "m" := m; "l" := l]}.

Lemma van_3_1_ok : JerasureFacts.state_ok (van_codec 3 1 "" "" ∅).
Proof.
  split; [by vm_compute..|]. apply l8_good_code; [by vm_compute|by vm_compute|done| | | |].
  - split; [by vm_compute|by vm_compute|by vm_compute|right; by vm_compute|by vm_compute|by vm_compute].
  - apply IsaCorrect.mds_check_ok. by vm_compute.
  - by vm_compute.
  - by vm_compute.
Qed.

Lemma kml_codes_ok k0 m0 :
  (k0, m0) ∈ [(4, 2); (3, 1)] → JerasureFacts.state_ok (van_codec k0 m0 "" "" ∅).
Proof.
  rewrite !elem_of_cons. intros [[= -> ->]|[[= -> ->]|[]%elem_of_nil]]; [|exact van_3_1_ok].
  exact (van_state_ok _ _ _ _ _ _ _ _ van_4_2_ok).
Qed.

Lemma kml_codes_small k0 m0 : (k0, m0) ∈ [(4, 2); (3, 1)] → k0 + m0 < INT_MAX ∧ k0 ≤ 4.
Proof. rewrite !elem_of_cons. intros [[= -> ->]|[[= -> ->]|[]%elem_of_nil]]; by vm_compute. Qed.

Lemma kml_4_2_3 : kml_profile 2 2 1 (kml_text "4" "2" "3").
Proof.
  split; [by vm_compute..|]. intros x Hx. unfold LrcInit.generated in Hx.
  rewrite !elem_of_cons in Hx. by destruct Hx as [-> | [-> | [-> | []%elem_of_nil]]].
Qed.

(** The codec that the registry makes of a profile. *)
Definition made_pool (profile : Profile) : option Codec :=
  match @factory kind _ (system_plugins 1) empty_registry "lrc" "/lib" profile with
  | Ret (0, Some ec, _, _) => Some (codec_of ec)
  | _ => None
  end.

(** With one group ([l = k + m]) the local layer has all the chunks, and
    [encode_chunks] starts with it: the [m] global parity chunks of the pool
    are never computed, and hold what the memory held. *)
Theorem lrc_one_group :
  ∃ c enc, made_pool (kml_text "4" "2" "6") = Some c
    ∧ encode c (list_to_set (seqZ 0 7)) sample ∅ = Ret (0, enc)
    ∧ enc !! 4 = Some (replicate 32 170) ∧ enc !! 5 = Some (replicate 32 170).
Proof.
  assert ((λ c, (λ r, (r.1, r.2 !! 4, r.2 !! 5)) <$> match encode c (list_to_set (seqZ 0 7)) sample ∅ with
     Ret r => Some r | Abort _ => None end) <$> made_pool (kml_text "4" "2" "6")
   = Some (Some (0, Some (replicate 32 170), Some (replicate 32 170)))) as H by (by vm_compute).
  apply fmap_Some in H as (c & Hc & H). symmetry in H. apply fmap_Some in H as ([e enc] & He & [= <- H4 H5]).
  exists c, enc. split; [exact Hc|]. destruct (encode c _ _ _) as [r|]; [|discriminate].
  injection He as ->. split; [reflexivity|]. split; symmetry; [exact H4|exact H5].
Qed.

(** What [parse_kml] does not refuse: [l = 0] divides by zero, and so does
    [k + m = 0]; a negative [k] asks for a string of negative length. *)
Theorem lrc_kml_unchecked dir :
  LrcInit.parse_kml (LrcInit.fresh dir) (kml_text "4" "2" "0") = Abort DivByZero
  ∧ LrcInit.parse_kml (LrcInit.fresh dir) (kml_text "4" "-4" "3") = Abort DivByZero
  ∧ LrcInit.parse_kml (LrcInit.fresh dir) (kml_text "-2" "4" "2") = Abort UncaughtException.
Proof. split; [by vm_compute|]. split; by vm_compute. Qed.

(** ** Witnesses *)

Lemma lrc_pool_witness :
  ∃ ec profile' r', @factory kind _ (system_plugins 1) empty_registry "lrc" "/lib" (kml_text "4" "2" "3")
      = Ret (0, Some ec, profile', r')
    ∧ ∃ enc bs, encode (codec_of ec) (list_to_set (seqZ 0 8)) sample ∅ = Ret (0, enc)
        ∧ decode_concat (codec_of ec) (select {[0; 2; 3; 4; 6; 7]} enc)
          = Ret (0, sample ++ zeros (Z.to_nat (4 * bs - blen sample))).
Proof.
  destruct (lrc_pool "/lib" 0 2 2 1 (kml_text "4" "2" "3") empty_registry
    jerasure_installed lrc_installed empty_usable) as (ec & p & r & Hf & _ & _ & _ & Hrt).
  - lia.
  - lia.
  - lia.
  - by vm_compute.
  - exact kml_codes_ok.
  - exact kml_4_2_3.
  - exists ec, p, r. split; [exact Hf|].
    destruct (Hrt sample sample_ok) as (enc & bs & Henc & _ & Hdec).
    { vm_compute. split; congruence. }
    exists enc, bs. split; [exact Henc|]. apply (Hdec _ (λ i, if bool_decide (i = 0) then 1 else 5)).
    + apply (bool_decide_eq_true_1 _). by vm_compute.
    + intros c Hc Hnot. destruct (decide (c = 1)) as [->|H1]; [reflexivity|].
      destruct (decide (c = 5)) as [->|H5]; [reflexivity|].
      exfalso. apply Hnot. rewrite !elem_of_union, !elem_of_singleton. lia.
Defined.

Lemma lrc_kml_witness :
  ∃ o profile' r' s, LrcInit.factory (H0 := layer_registry 0) "/lib" (kml_text "4" "2" "3") empty_registry
      = Ret (0, Some o, profile', r')
    ∧ LrcInit.coder o = Some s
    ∧ ∃ minimum, Lrc.minimum_to_decode s {[5]} (list_to_set (seqZ 0 8) ∖ {[5]}) ∅ = (0, minimum)
        ∧ Z.of_nat (size minimum) = 3.
Proof.
  destruct (lrc_kml (HR := layer_registry 0) (HLP := van_layers "/lib" 0 jerasure_installed [(4, 2); (3, 1)] 4
      (λ k0 m0 Hin, conj (proj1 (kml_codes_small k0 m0 Hin)) (conj (proj2 (kml_codes_small k0 m0 Hin)) (kml_codes_ok k0 m0 Hin))))
    2 2 1 ltac:(lia) ltac:(lia) ltac:(lia) ltac:(by vm_compute) "/lib" usable _ _ _
    (kml_text "4" "2" "3") empty_registry ltac:(lia) ltac:(lia) kml_4_2_3 empty_usable)
    as (o & p & r & s & Hf & _ & _ & _ & Hc & _ & _ & _ & Hrep).
  exists o, p, r, s. split; [exact Hf|]. split; [exact Hc|].
  destruct (Hrep 5 ltac:(lia)) as (mi & H1 & H2 & _). exists mi. split; [exact H1|exact H2].
Defined.
